(* ===== verification/_CoqProject ===== *)
-Q . S2P
Prelude.v
JsValue.v
Dates.v
Json.v
Uri.v
Regex.v
Shell.v
Accounts.v
Hash.v
Totp.v
Scrub.v
Session.v
Dependencies.v
Vault.v
Payload.v
Context.v
Associations.v
SshAgent.v
SshApproval.v
Runtime.v
Commands.v
Sanitize.v
Keyring.v
Envelope.v
Unlock.v
Pinentry.v
Attachments.v
Fido.v
Hooks.v
Helpers.v
Keybind.v
Handlers.v
SshRequests.v
SshExport.v
SshLoads.v
Closing.v
ClosingKeyring.v
ClosingLocks.v
Jobs.v
JobsQueue.v
JobsProgress.v
JobsPurges.v
Settings.v
Generator.v
Sends.v
