(* ===== verification/Prelude.v ===== *)
(** * Verification of qs-bitwarden-cli

    qs-bitwarden-cli is a panel for the Bitwarden CLI [bw]. Its QML objects
    ([src/Service.qml], [src/Panel.qml]) hold timers, processes and views; what
    they decide, show, store and run is computed by the JavaScript of [src/]:
    [BitwardenModel.js], [TotpModel.js], [FidoModel.js] and the two programs
    preloaded into [bw], [bw-login-code.js] and [bw-fast-exit.js]. This library
    translates those five files, with the event handlers of [src/Service.qml] that
    put them together for the SSH agent, for closing the vault, for quick unlock
    and for the scrubbing, and proves what makes them correct.

    ** How the code is modelled

    A JavaScript value is a [jsval], a string a list of UTF-16 code units, a
    number an exact rational with NaN and the infinities. Functions keep the
    names of the source and are executable. A function that mutates its argument
    returns the changed object; one that may throw or answer null returns an
    option. Most of the program runs shell scripts. Each builder of a command is
    a definition that yields the exact argument vector; where a script changes
    something (the keyring, a file, a folder) there is a second definition, which
    says what the text does to that thing, statement by statement. The programs
    a script calls are parameters with the laws the script relies on, and each
    group of laws has an instance that satisfies it. An event handler of
    [src/Service.qml] is a function of the state of its object that yields the new
    state and what it caused, in order; a run is a list of events, and what is
    proved of a component holds after every run.

    ** The files

    The language and its library:
    - [Prelude]: lemmas on lists, options and integers, tactics, hint databases;
    - [JsValue], [Dates], [Json], [Uri], [Regex]: values and coercions, the
      calendar, JSON.parse and JSON.stringify, UTF-8 and percent coding, regular
      expressions by backtracking.

    Foundations of the program:
    - [Shell]: shellQuote, cappedScript, buildCappedCommand, and how a POSIX
      shell reads quoting back;
    - [Accounts]: account slots, keyring entry names, the registry file;
    - [Session]: session keys, server addresses, links, two-step methods;
    - [Commands]: the texts of the commands that sign in, unlock and use [bw];
    - [Hooks]: the two preloaded programs, as functions of a process;
    - [Scrub]: the queue that empties secret buffers after a lock, driven by
      scrubStep() and finishScrubRun() of [src/Service.qml], over processes whose
      runs may be cancelled and end later ([src/VaultProcess.qml]).

    The vault:
    - [Sanitize]: the jq filters that keep private keys out of the panel, and
      the list and save pipelines, from what [bw] prints to what is printed on;
    - [Vault]: reading the sanitized envelope, rows, detail, search, file names;
    - [Payload]: the form as startEditItemNow() of [src/Service.qml] fills it,
      and what an edit sends back;
    - [Sends], [Generator], [Totp] over [Hash]: Sends, the password generator,
      one-time codes over SHA-1 and SHA-256, stated against FIPS and RFC text;
    - [Attachments]: downloading, claiming a name in a folder that other programs
      change meanwhile (a step relation), opening through a neutral link.

    Unlocking:
    - [Keyring]: the entries in the secret service, as a class [SecretService]
      with laws; the remembered session and the clearing at logout;
    - [Envelope] and [Unlock]: the quick-unlock envelope, texts and effects:
      create, update, open, migrate a legacy entry, remove a method from every
      account, repair. The unlock tool is the class [Unlock];
    - [Pinentry]: the PIN's rules and the Assuan dialogue of the pinentry script,
      a monad of reads and writes;
    - [Fido]: the probe of FIDO2 keys and its reader.

    SSH:
    - [SshAgent]: the reducer that supervises the helper, its line protocol;
    - [SshApproval]: approval prompts, their queue, grants, cool-down, what a
      vault event does to the agent;
    - [SshExport]: public keys written for Git;
    - [Handlers]: handlers, their sequence and their invariants;
    - [SshRequests]: "Signing authorization" of [src/Service.qml]: the request on
      the screen, those behind it, the clicks, messages and timers that move them
      and the lines written back;
    - [SshLoads]: "Key loading": the windows in which the vault read sends keys to
      the companion, its lock and the timers that make sure of it, the helper's
      process.

    Closing the vault:
    - [Closing]: the handlers of [src/Service.qml] that lock, store and clear the
      remembered session, run [bw lock], log out, switch accounts and hold back a
      suspend, with the processes they share;
    - [ClosingKeyring]: every remembered session is accounted for, and a logout
      ends clean;
    - [ClosingLocks]: the ledger of the [bw lock] runs, their end, the suspend.

    The jobs of quick unlock:
    - [Jobs]: the queue of [src/Service.qml] that runs the unlock tool, one job at
      a time, on the process of [src/VaultProcess.qml]; the removal of the methods
      that were turned off; what a lock, an account switch and a logout do to it;
    - [JobsQueue] and [JobsProgress]: the queue moves on;
    - [JobsPurges]: the ledger of the removals.

    The desktop:
    - [Context] and [Associations]: the site a window shows, and the items
      suggested for it, learned picks included;
    - [Keybind], [Runtime], [Helpers], [Dependencies], [Settings]: the auto-type
      key binding, runtime files and the UWSM fragment, the checks of the shipped
      helpers, the setup screen, the settings.

    Each file requires those it calls; the order is the one of the project file.

    ** What the theorems show

    - Secrecy: two vaults that differ only in private keys give the panel the
      same output ([list_hides_private_keys]), the public detail depends on no
      secret ([publicItemDetail_noninterference]), the agent's branch sends
      exactly the keys it may, one row for each ([agent_sends_only_eligible]), the
      two-step code reaches [bw login] alone ([login_code_reaches_login]), a lock
      empties every buffer but that of a process whose cancelled run had not ended
      when it was asked to scrub, and the scrubbing ends ([scrub_queue_covers],
      [scrub_terminates]; [cancelled_run_left_unscrubbed] runs the exception).
    - Injection: what users, servers and vaults choose stays literal in every
      script, prompt, file name and line ([sign_in_scripts_inert],
      [pinentry_no_injection], [link_name_neutral], [validateServerUrl_safe]).
    - Nothing is lost: an envelope is stored only after it was seen to open, a
      legacy entry is cleared only after its replacement was
      ([writes_commit_last], [enrolled_opens], [legacy_migration_safe]), a claim
      overwrites nothing ([claim_never_overwrites]), a form saved as it was filled
      writes back the item, its custom fields in the form's own shape, and an edit
      changes only what it may ([buildEditPayload_unchanged],
      [buildEditPayload_frame]).
    - Removal is complete or reported: [clear_all_complete], [purge_complete],
      [remembered_session].
    - State machines: the invariant of the agent's supervisor over all reachable
      states, when its gate opens, that a crash loop ends in failure; grants; the
      lifecycle table ([sshAgent_invariant], [crash_loop_fails],
      [prompt_grant_safety], [lifecycle_safe]).
    - Handlers, over every run of events: every answer to a signing request is owed
      and given once ([answers_are_owed]), nothing appears unasked, and whatever
      appears was let in while the screen was read unlocked
      ([nothing_appears_unasked]; a request that waited its turn comes up whatever
      the screen lock says then, [next_prompt_over_locked_screen]), the load
      windows keep their order
      ([load_windows]) and a lock is acknowledged or the helper is stopped
      ([lock_is_acknowledged_or_fatal]). That what is approved is what was shown
      ([approval_is_what_was_shown]) holds of settled runs: those in which no
      prompt is answered or withdrawn while it waits for its new id and another
      request waits behind it; [stale_promotion_differs] runs the other case.
    - Closing, over every run in which users, the system and processes act in any
      order: no session stays in the keyring in silence ([closed_session_forgotten]),
      a logout ends only when clean ([logout_sweeps]), the [bw lock] runs follow a
      ledger with their keys ([locks_follow_ledger]) and come to an end
      ([lock_queue_drains]), a suspend waits for them ([suspend_waits]). Two runs
      that the code does not foresee: [turning_off_races_the_store] and
      [suspend_leaves_a_store].
    - The jobs of quick unlock, over every run: a job that waits is taken
      ([job_queue_moves]), as long as no scrub takes the process of a killed run
      ([switch_sticks_the_queue] runs that case); removals are taken in order, none
      from before its method was turned on again, and fail at most three times
      ([purges_follow_ledger]); none is marked as pending and then forgotten
      ([pending_purges_under_way]).
    - Readers and writers agree: the registry, the associations, the key binding,
      the control lines, the FIDO2 probe; the list reaches the panel
      ([list_reaches_panel]).
    - Arithmetic: the hashes and codes compute what FIPS 180-4 and RFC 6238 say,
      on 32-bit words; numeric settings, downloads and prompt texts stay within
      their bounds.

    ** Bounds

    Recursion is structural or on a fuel that the input gives: the length of the
    text for JSON, regular expressions and splitting; the number of processes for
    the scrubbing. Two loops of the source are bounded in the source itself and
    keep its constant: seventeen rounds when a method is removed
    ([purge_terminates]) and a thousand names in a claim ([claim_progress]).

    ** What is assumed

    Numbers are exact: quantities are far below 2^53, and IEEE rounding and the
    logarithm of the strength meter are not modelled. Case mapping covers ASCII
    and Latin-1. The host's order of text ([Collation], [DateOrder]), its reading
    of dates that no Date writes, and the resolution of symbolic links are
    arguments. So are jq's number syntax and printing ([Jq]), the secret service
    ([SecretService]) and the unlock tool with [systemd-creds] and [argon2]
    ([Unlock], [UnlockLaws]: a sealed credential opens, and the tool lists a wrap
    it wrote with the parameters of its flags); of a shell, only what the quoting needs is modelled in general
    ([Shell]), and each script's effect is read off its text.

    ** What is not modelled

    The QML objects, but for the scrub queue, the signing requests, the key
    loading, the closing of the vault and the jobs of quick unlock: they are Qt
    layout, bindings, timers and processes around the functions above. Of the handlers modelled, the
    part of the window, the item list and the session they read is state or an
    argument, and the rest of what they call is an effect in their output. The
    helpers written in Rust ([agent/], [vault/], [unlock-key/]) and the
    pinentry window ([pinentry/]): separate programs, here on the other side
    of a protocol or a parameter. [bin/], [scripts/], [tests/], [demo/] and
    [docs/]. *)

From stdpp Require Import base list numbers sorting.
From Stdlib Require Import Sorting.Sorted.

(** ** Scopes and hint databases *)

Create HintDb qsbw discriminated.
Create HintDb qsnum.

(** ** Tactics shared by the components *)

(** [bool_hyps]: turn the boolean connectives and comparisons of the context into propositions. *)
Ltac bool_hyps :=
  repeat match goal with
  | H : _ && _ = true |- _ => apply andb_true_iff in H; destruct H
  | H : _ || _ = false |- _ => apply orb_false_iff in H; destruct H
  | H : negb _ = true |- _ => apply negb_true_iff in H
  | H : negb _ = false |- _ => apply negb_false_iff in H
  | H : bool_decide _ = true |- _ => apply bool_decide_eq_true in H
  | H : bool_decide _ = false |- _ => apply bool_decide_eq_false in H
  | H : (_ =? _)%Z = true |- _ => apply Z.eqb_eq in H
  | H : (_ <=? _)%Z = true |- _ => apply Z.leb_le in H
  | H : (_ <=? _)%Z = false |- _ => apply Z.leb_gt in H
  | H : (_ <? _)%Z = true |- _ => apply Z.ltb_lt in H
  | H : (_ <? _)%Z = false |- _ => apply Z.ltb_ge in H
  | H : (_ =? _)%N = true |- _ => apply N.eqb_eq in H
  | H : (_ <=? _)%N = true |- _ => apply N.leb_le in H
  | H : (_ <=? _)%N = false |- _ => apply N.leb_gt in H
  | H : (_ <? _)%N = true |- _ => apply N.ltb_lt in H
  | H : (_ <? _)%N = false |- _ => apply N.ltb_ge in H
  end.

(** [split_ifs]: case on every test and match of the goal, keeping the equations. *)
Ltac split_ifs :=
  repeat match goal with
  | |- context [if ?b then _ else _] => let E := fresh "E" in destruct b eqn:E
  | |- context [match ?x with _ => _ end] => let E := fresh "E" in destruct x eqn:E
  end.

(** ** Array.prototype.sort

    The sort is stable, so for a comparator that is a total preorder its
    result is determined: the stable insertion sort below. [le a b] is
    [compare(a, b) <= 0]. *)
Section Sort.
Context {A : Type} (le : A -> A -> bool).

(** Inserts [x], which comes later in the input than all of [l], after
    everything it does not precede. *)
Fixpoint insert_after (x : A) (l : list A) : list A :=
  match l with
  | [] => [x]
  | y :: t => if le y x then y :: insert_after x t else x :: l
  end.

Definition sort_by (l : list A) : list A := fold_left (fun acc x => insert_after x acc) l [].

(** Every element is in order with every later one. *)
Definition in_order (l : list A) : Prop := StronglySorted (fun a b => le a b = true) l.
End Sort.

(** The first element with the property, as a [for] loop that returns finds it. *)
Fixpoint find_first {A} (p : A -> bool) (l : list A) : option A :=
  match l with
  | [] => None
  | x :: t => if p x then Some x else find_first p t
  end.

(** ** Lemmas *)

Section SortFacts.
Context {A : Type} (le : A -> A -> bool).

Lemma insert_after_perm x l : insert_after le x l ≡ₚ x :: l.
Proof.
  induction l as [|y t IH]; [done|]; simpl. destruct (le y x); [|done].
  rewrite IH. constructor.
Qed.

Lemma fold_insert_perm l acc :
  fold_left (fun acc x => insert_after le x acc) l acc ≡ₚ l ++ acc.
Proof.
  revert acc; induction l as [|x t IH]; intros acc; [done|]; simpl.
  rewrite IH, insert_after_perm. by rewrite Permutation_middle.
Qed.

Lemma sort_by_perm l : sort_by le l ≡ₚ l.
Proof. unfold sort_by. by rewrite fold_insert_perm, app_nil_r. Qed.

Lemma length_sort_by l : length (sort_by le l) = length l.
Proof. by rewrite sort_by_perm. Qed.

Lemma elem_of_sort_by x l : x ∈ sort_by le l <-> x ∈ l.
Proof. by rewrite sort_by_perm. Qed.

(** The comparator is a total preorder on the elements that occur. *)
Context (P : A -> Prop)
        (le_total : forall a b, P a -> P b -> le a b = true \/ le b a = true)
        (le_trans : forall a b c, P a -> P b -> P c -> le a b = true -> le b c = true -> le a c = true).

Lemma insert_after_in_order x l :
  P x -> Forall P l -> in_order le l -> in_order le (insert_after le x l).
Proof.
  unfold in_order. intros Hx. induction l as [|y t IH]; simpl; intros Hl H; [by repeat constructor|].
  apply Forall_cons in Hl as [Hy Hl]. apply StronglySorted_inv in H as [Ht Hyt]. destruct (le y x) eqn:E.
  - constructor; [auto|]. rewrite insert_after_perm. by constructor.
  - assert (le x y = true) as Hxy by (destruct (le_total x y); auto; congruence).
    constructor; [by constructor|]. constructor; [done|].
    rewrite !Forall_forall in *. intros z Hz. eauto.
Qed.

Lemma sort_by_in_order l : Forall P l -> in_order le (sort_by le l).
Proof.
  unfold sort_by. intros Hl. assert (in_order le [] /\ Forall P []) as H by (split; constructor).
  revert H Hl. generalize (@nil A). induction l as [|x t IH]; intros acc [Ho Ha] Hl; simpl; [done|].
  apply Forall_cons in Hl as [Hx Hl]. apply IH; [|done]. split; [by apply insert_after_in_order|].
  rewrite insert_after_perm. by constructor.
Qed.
End SortFacts.

(** Sorting a list that is already in order changes nothing. *)
Lemma sort_by_id {A} (le : A -> A -> bool) l : in_order le l -> sort_by le l = l.
Proof.
  unfold sort_by, in_order. intros H.
  assert (forall m acc, StronglySorted (fun a b => le a b = true) (acc ++ m) ->
    fold_left (fun acc x => insert_after le x acc) m acc = acc ++ m) as G.
  { induction m as [|x m IH]; intros acc Hs; simpl; [by rewrite app_nil_r|].
    assert (insert_after le x acc = acc ++ [x]) as ->.
    { clear IH. induction acc as [|y acc IHa]; simpl in *; [done|].
      apply StronglySorted_inv in Hs as [Hs Hy].
      rewrite Forall_app, Forall_cons in Hy. destruct Hy as (_ & -> & _). by rewrite IHa. }
    rewrite IH; by rewrite <- app_assoc. }
  by rewrite (G l []).
Qed.

Lemma find_first_some {A} (p : A -> bool) l x : find_first p l = Some x -> x ∈ l /\ p x = true.
Proof.
  induction l as [|y t IH]; simpl; [done|]. destruct (p y) eqn:E.
  - intros [= ->]. split; [by left|done].
  - intros H. destruct (IH H). split; [by right|done].
Qed.

Lemma find_first_none {A} (p : A -> bool) l : find_first p l = None <-> Forall (fun x => p x = false) l.
Proof.
  induction l as [|y t IH]; simpl; [by split; [constructor|]|].
  rewrite Forall_cons, <- IH. destruct (p y); intuition congruence.
Qed.

Lemma forallb_impl {A} (p q : A -> bool) l :
  (forall x, p x = true -> q x = true) -> forallb p l = true -> forallb q l = true.
Proof. rewrite !forallb_forall. naive_solver. Qed.

Lemma forallb_firstn {A} (p : A -> bool) n l : forallb p l = true -> forallb p (take n l) = true.
Proof.
  revert n; induction l as [|x t IH]; intros [|n]; simpl; try done.
  intros [??]%andb_true_iff. apply andb_true_iff; auto.
Qed.

(** [filter] with a boolean test, as the source's [Array.prototype.filter]. *)
Lemma elem_of_bfilter {A} (p : A -> bool) l x : x ∈ List.filter p l <-> x ∈ l /\ p x = true.
Proof. rewrite !list_elem_of_In. apply filter_In. Qed.

Lemma Forall_bfilter {A} (P : A -> Prop) (p : A -> bool) l : Forall P l -> Forall P (List.filter p l).
Proof. rewrite !Forall_forall. intros H x [Hx _]%elem_of_bfilter. auto. Qed.

Lemma length_bfilter {A} (p : A -> bool) l : length (List.filter p l) <= length l.
Proof. induction l as [|x t IH]; simpl; [done|]. destruct (p x); simpl; lia. Qed.

Lemma NoDup_map_bfilter {A B} (f : A -> B) (p : A -> bool) l :
  NoDup (map f l) -> NoDup (map f (List.filter p l)).
Proof.
  induction l as [|x t IH]; simpl; [done|]. rewrite NoDup_cons. intros [Hx Ht].
  destruct (p x); simpl; [|auto]. apply NoDup_cons. split; [|auto].
  intros (y & E & Hy)%list_elem_of_fmap. apply elem_of_bfilter in Hy as [Hy _]. apply Hx.
  apply list_elem_of_fmap. eauto.
Qed.

Lemma bfilter_all {A} (p : A -> bool) l : Forall (fun x => p x = true) l -> List.filter p l = l.
Proof. induction 1 as [|x t Hx _ IH]; simpl; [done|]. by rewrite Hx, IH. Qed.

Lemma bfilter_none {A} (p : A -> bool) l : Forall (fun x => p x = false) l -> List.filter p l = [].
Proof. induction 1 as [|x t Hx _ IH]; simpl; [done|]. by rewrite Hx. Qed.

Lemma existsb_false {A} (p : A -> bool) l : existsb p l = false <-> forall x, x ∈ l -> p x = false.
Proof.
  induction l as [|y t IH]; simpl; [split; [intros _ x Hx; by apply elem_of_nil in Hx|done]|].
  rewrite orb_false_iff, IH. split.
  - intros [Hy Ht] x [->|Hx]%elem_of_cons; auto.
  - intros H. split; [apply H; by left|]. intros x Hx. apply H. by right.
Qed.

Lemma fold_left_fmap {A B C} (f : A -> C -> A) (g : B -> C) l a :
  fold_left f (map g l) a = fold_left (fun a x => f a (g x)) l a.
Proof. revert a; induction l as [|x t IH]; intros a; simpl; auto. Qed.
