(* ===== verification/JsValue.v ===== *)
(** * JavaScript values

    The part of the language the components of [src/BitwardenModel.js] and
    [src/TotpModel.js] share: strings as lists of UTF-16 code units, numbers
    as exact rationals with NaN and the infinities, the dynamically typed
    values that JSON.parse and the QML callers hand in, and the coercions and
    string methods the source applies to them.

    Two limits. Numbers are exact: IEEE rounding is not modelled, and every
    quantity of the source (counts, epochs, milliseconds, sizes) is far below
    2^53, where double arithmetic is exact too. Case mapping covers ASCII and
    Latin-1; other letters are mapped to themselves. *)

From S2P Require Import Prelude.
From stdpp Require Import base list numbers strings.
From Stdlib Require Import QArith Qround.
Local Close Scope Q_scope.
Local Open Scope nat_scope.

(** ** Strings *)

Notation jstr := (list N).

(** The UTF-16 code units of a UTF-8 byte sequence; used for the literals. *)
Fixpoint utf16_of_utf8 (l : list N) : jstr :=
  match l with
  | [] => []
  | b :: t =>
    if (b <? 128)%N then b :: utf16_of_utf8 t
    else match t with
    | [] => []
    | c1 :: t1 =>
      if (b <? 224)%N then (N.land b 31 * 64 + N.land c1 63)%N :: utf16_of_utf8 t1
      else match t1 with
      | [] => []
      | c2 :: t2 =>
        if (b <? 240)%N
        then (N.land b 15 * 4096 + N.land c1 63 * 64 + N.land c2 63)%N :: utf16_of_utf8 t2
        else match t2 with
        | [] => []
        | c3 :: t3 =>
          let cp := (N.land b 7 * 262144 + N.land c1 63 * 4096 + N.land c2 63 * 64
                     + N.land c3 63 - 65536)%N in
          (55296 + cp / 1024)%N :: (56320 + cp mod 1024)%N :: utf16_of_utf8 t3
        end
      end
    end
  end.

(** [u "text"]: a string literal; [uq "say `hi`"]: one whose backquotes stand
    for double quotes. *)
Definition u (s : string) : jstr := utf16_of_utf8 (map Ascii.N_of_ascii (String.list_ascii_of_string s)).
Definition uq (s : string) : jstr := map (fun c => if (c =? 96)%N then 34%N else c) (u s).

Definition newline : jstr := [10%N].

(** [===] on strings. *)
Definition str_eqb (a b : jstr) : bool := bool_decide (a = b).

(** ** Character classes *)

Definition in_range (lo hi c : N) : bool := (lo <=? c)%N && (c <=? hi)%N.
Definition is_digit (c : N) : bool := in_range 48 57 c.
Definition is_lower (c : N) : bool := in_range 97 122 c.
Definition is_upper (c : N) : bool := in_range 65 90 c.
Definition is_hex_lower (c : N) : bool := is_digit c || in_range 97 102 c.
Definition is_alnum (c : N) : bool := is_digit c || is_lower c || is_upper c.

(** C0 controls and DEL: [\x00-\x1f\x7f]. *)
Definition is_control (c : N) : bool := (c <=? 31)%N || (c =? 127)%N.

(** White space as trim() and [\s] read it. *)
Definition is_space (c : N) : bool :=
  in_range 9 13 c || (c =? 32)%N || (c =? 160)%N || (c =? 5760)%N || in_range 8192 8202 c
  || (c =? 8232)%N || (c =? 8233)%N || (c =? 8239)%N || (c =? 8287)%N || (c =? 12288)%N || (c =? 65279)%N.

Definition lower_unit (c : N) : N :=
  if is_upper c || (in_range 192 222 c && negb (c =? 215)%N) then (c + 32)%N else c.
Definition upper_unit (c : N) : N :=
  if is_lower c || (in_range 224 254 c && negb (c =? 247)%N) then (c - 32)%N else c.

Definition to_lower (s : jstr) : jstr := map lower_unit s.
Definition to_upper (s : jstr) : jstr := map upper_unit s.

(** ** String methods *)

(** The longest prefix of units with the property, and the rest. *)
Fixpoint span (p : N -> bool) (s : jstr) : jstr * jstr :=
  match s with
  | [] => ([], [])
  | c :: t => if p c then let '(a, b) := span p t in (c :: a, b) else ([], s)
  end.

Fixpoint trim_start (s : jstr) : jstr :=
  match s with
  | [] => []
  | c :: t => if is_space c then trim_start t else s
  end.

(** Drops the trailing run of units with the property ([/[..]+$/] replaced by nothing). *)
Fixpoint strip_end (p : N -> bool) (s : jstr) : jstr :=
  match s with
  | [] => []
  | c :: t => match strip_end p t with
              | [] => if p c then [] else [c]
              | r => c :: r
              end
  end.

Definition strip_start (p : N -> bool) (s : jstr) : jstr := snd (span p s).

Definition trim (s : jstr) : jstr := strip_end is_space (trim_start s).

Fixpoint starts_with (pre s : jstr) : bool :=
  match pre, s with
  | [], _ => true
  | p :: pre', c :: s' => (p =? c)%N && starts_with pre' s'
  | _ :: _, [] => false
  end.

(** indexOf(): the first position, or None for -1. *)
Fixpoint index_of (sub s : jstr) : option nat :=
  if starts_with sub s then Some 0
  else match s with
       | [] => None
       | _ :: t => S <$> index_of sub t
       end.

Definition includes (sub s : jstr) : bool := bool_decide (is_Some (index_of sub s)).

(** lastIndexOf() of one unit. *)
Fixpoint last_index_of (c : N) (s : jstr) : option nat :=
  match s with
  | [] => None
  | x :: t => match last_index_of c t with
              | Some i => Some (S i)
              | None => if (x =? c)%N then Some 0 else None
              end
  end.

(** split() on the units with the property; never empty. *)
Fixpoint split_on (p : N -> bool) (s : jstr) : list jstr :=
  match s with
  | [] => [[]]
  | c :: t => if p c then [] :: split_on p t
              else match split_on p t with
                   | [] => [[c]]
                   | w :: ws => (c :: w) :: ws
                   end
  end.

Definition split_char (c : N) (s : jstr) : list jstr := split_on (N.eqb c) s.

Fixpoint join (sep : jstr) (l : list jstr) : jstr :=
  match l with
  | [] => []
  | [x] => x
  | x :: t => x ++ sep ++ join sep t
  end.

(** slice(from, to) with 0 <= from. *)
Definition slice (from to_ : nat) (s : jstr) : jstr := drop from (take to_ s).

(** slice(-n). *)
Definition slice_last (n : nat) (s : jstr) : jstr := drop (length s - n) s.

(** [<] on strings: by code units. *)
Fixpoint str_ltb (a b : jstr) : bool :=
  match a, b with
  | [], _ :: _ => true
  | x :: a', y :: b' => (x <? y)%N || ((x =? y)%N && str_ltb a' b')
  | _, [] => false
  end.

(** replace(/[class]/g, []), with the empty string for []. *)
Definition remove_units (p : N -> bool) (s : jstr) : jstr := List.filter (fun c => negb (p c)) s.

(** ** Decimal and hexadecimal digits *)

Definition digit_unit (d : N) : N := if (d <? 10)%N then (48 + d)%N else (87 + d)%N.

Fixpoint digits_aux (radix : N) (fuel : nat) (n : N) (acc : jstr) : jstr :=
  match fuel with
  | O => acc
  | S f => let acc' := digit_unit (n mod radix) :: acc in
           if (n <? radix)%N then acc' else digits_aux radix f (n / radix) acc'
  end.

(** Number.prototype.toString(radix) on a natural number; [N.size_nat n] binary
    digits bound the number of digits in any radix. *)
Definition digits (radix n : N) : jstr := digits_aux radix (S (N.size_nat n)) n [].
Definition dec (n : N) : jstr := digits 10 n.
Definition dec_nat (n : nat) : jstr := dec (N.of_nat n).
Definition dec_Z (z : Z) : jstr :=
  match z with
  | Zneg p => 45%N :: dec (Npos p)
  | _ => dec (Z.to_N z)
  end.

Definition value_of_digits (s : jstr) : N := fold_left (fun a d => a * 10 + (d - 48))%N s 0%N.

(** ** Numbers *)

Inductive num := NaN | Inf (negative : bool) | Fin (q : Q).

Definition numz (z : Z) : num := Fin (inject_Z z).
Definition numn (n : nat) : num := numz (Z.of_nat n).

Definition is_finite (n : num) : bool := match n with Fin _ => true | _ => false end.
Definition is_nan (n : num) : bool := match n with NaN => true | _ => false end.

Definition num_eqb (a b : num) : bool :=
  match a, b with
  | Fin p, Fin q => Qeq_bool p q
  | Inf x, Inf y => Bool.eqb x y
  | _, _ => false
  end.

Definition num_leb (a b : num) : bool :=
  match a, b with
  | Fin p, Fin q => Qle_bool p q
  | Inf true, (Inf _ | Fin _) => true
  | (Inf _ | Fin _), Inf false => true
  | _, _ => false
  end.

Definition num_ltb (a b : num) : bool :=
  match a, b with
  | NaN, _ | _, NaN => false
  | _, _ => negb (num_leb b a)
  end.

Definition num_floor (a : num) : num := match a with Fin q => numz (Qfloor q) | _ => a end.
Definition num_ceil (a : num) : num := match a with Fin q => numz (Qceiling q) | _ => a end.
(** Math.round: half goes up. *)
Definition num_round (a : num) : num := match a with Fin q => numz (Qfloor (q + (1 # 2))%Q) | _ => a end.

Definition num_neg (a : num) : num :=
  match a with NaN => NaN | Inf b => Inf (negb b) | Fin q => Fin (- q)%Q end.

Definition num_add (a b : num) : num :=
  match a, b with
  | Fin p, Fin q => Fin (Qred (p + q))
  | Inf x, Inf y => if Bool.eqb x y then Inf x else NaN
  | Inf x, Fin _ | Fin _, Inf x => Inf x
  | NaN, _ | _, NaN => NaN
  end.
Definition num_sub (a b : num) : num := num_add a (num_neg b).

Definition q_negative (q : Q) : bool := (Qnum q <? 0)%Z.

Definition num_mul (a b : num) : num :=
  match a, b with
  | Fin p, Fin q => Fin (Qred (p * q))
  | Inf x, Inf y => Inf (xorb x y)
  | Inf x, Fin q | Fin q, Inf x => if (Qnum q =? 0)%Z then NaN else Inf (xorb x (q_negative q))
  | NaN, _ | _, NaN => NaN
  end.

Definition num_div (a b : num) : num :=
  match a, b with
  | Fin p, Fin q =>
    if (Qnum q =? 0)%Z then (if (Qnum p =? 0)%Z then NaN else Inf (q_negative p))
    else Fin (Qred (p / q))
  | Inf x, Fin q => Inf (xorb x (q_negative q))
  | Fin _, Inf _ => numz 0
  | _, _ => NaN
  end.

(** The remainder of integers, with the dividend's sign. *)
Definition num_rem (a b : num) : num :=
  match a, b with
  | Fin p, Fin q =>
    if (Qnum q =? 0)%Z then NaN
    else let t := (p / q)%Q in
         let z := if q_negative t then Qceiling t else Qfloor t in
         Fin (Qred (p - inject_Z z * q))
  | Fin _, Inf _ => a
  | _, _ => NaN
  end.

Definition num_max (a b : num) : num :=
  if is_nan a || is_nan b then NaN else if num_leb a b then b else a.
Definition num_min (a b : num) : num :=
  if is_nan a || is_nan b then NaN else if num_leb a b then a else b.

Definition num_truthy (a : num) : bool :=
  match a with NaN => false | Inf _ => true | Fin q => negb (Qnum q =? 0)%Z end.

(** [a || 0] *)
Definition num_or_zero (a : num) : num := if num_truthy a then a else numz 0.

(** ToInt32, the operand conversion of the bitwise operators. *)
Definition wrap32 (z : Z) : Z := let m := (z mod 4294967296)%Z in if (m <? 2147483648)%Z then m else (m - 4294967296)%Z.
Definition num_int32 (a : num) : Z :=
  match a with
  | Fin q => wrap32 (if q_negative q then Qceiling q else Qfloor q)
  | _ => 0%Z
  end.

(** The number of decimals of [1/d], up to [fuel]. *)
Fixpoint decimals (fuel : nat) (d : N) : nat :=
  match fuel with
  | O => 0
  | S f => if (d =? 1)%N then 0
           else S (decimals f (d / N.gcd d 10)%N)
  end.

Definition pad_left (n : nat) (c : N) (s : jstr) : jstr := replicate (n - length s) c ++ s.

(** String(n). A terminating decimal is written out in full. *)
Definition num_str (a : num) : jstr :=
  match a with
  | NaN => u "NaN"
  | Inf true => u "-Infinity"
  | Inf false => u "Infinity"
  | Fin q =>
    let r := Qred q in
    if (Qden r =? 1)%positive then dec_Z (Qnum r)
    else
      let k := decimals 20 (Npos (Qden r)) in
      let scale := (10 ^ N.of_nat k)%N in
      let m := (Z.to_N (Z.abs (Qnum r)) * scale / Npos (Qden r))%N in
      (if q_negative r then [45%N] else [])
      ++ dec (m / scale) ++ [46%N] ++ strip_end (N.eqb 48) (pad_left k 48 (dec (m mod scale)))
  end.

(** [m * 10^e], overflowing to Infinity and underflowing to zero where a double does. *)
Definition decimal_num (neg : bool) (m : N) (e : Z) : num :=
  let sign (q : Q) := if neg then (- q)%Q else q in
  if (m =? 0)%N then numz 0
  else
    let len := (Z.of_nat (length (dec m)) + e)%Z in
    if (309 <? len)%Z then Inf neg
    else if (len <? -330)%Z then numz 0
    else if (0 <=? e)%Z then Fin (sign (inject_Z (Z.of_N m * 10 ^ e)))
    else Fin (sign (Qred (Z.of_N m # Z.to_pos (10 ^ (- e))))).

(** The exponent part of a decimal literal: its value and the rest. None when
    an [e] is not followed by digits. *)
Definition scan_exponent (s : jstr) : option (Z * jstr) :=
  match s with
  | c :: t =>
    if (c =? 101)%N || (c =? 69)%N then
      let '(neg, t1) := match t with
                        | 43%N :: r => (false, r)
                        | 45%N :: r => (true, r)
                        | _ => (false, t)
                        end in
      let '(ds, r) := span is_digit t1 in
      match ds with
      | [] => None
      | _ => let v := Z.of_N (value_of_digits ds) in Some (if neg : bool then (- v)%Z else v, r)
      end
    else Some (0%Z, s)
  | [] => Some (0%Z, [])
  end.

Definition value_radix (radix : N) (s : jstr) : N :=
  fold_left (fun a c => a * radix + (if is_digit c then c - 48 else lower_unit c - 87))%N s 0%N.

Definition all_in (p : N -> bool) (s : jstr) : bool := forallb p s.

(** A decimal literal without its sign: [digits], [digits.digits?] or
    [.digits], each with an optional exponent, and nothing after it. *)
Definition scan_decimal (neg : bool) (t : jstr) : num :=
  let '(ip, r) := span is_digit t in
  let '(fp, r1) := match r with 46%N :: r' => span is_digit r' | _ => ([], r) end in
  match ip ++ fp with
  | [] => NaN
  | ds => match scan_exponent r1 with
          | Some (e, []) => decimal_num neg (value_of_digits ds) (e - Z.of_nat (length fp))
          | _ => NaN
          end
  end.

(** A literal after [0x], [0b] or [0o]. *)
Definition scan_radix (prefix : N) (body : jstr) : option num :=
  let lit radix p := if all_in p body then Some (numz (Z.of_N (value_radix radix body))) else None in
  match body with
  | [] => None
  | _ => if lower_unit prefix =? 120 then lit 16 (fun c => is_hex_lower (lower_unit c))
         else if lower_unit prefix =? 98 then lit 2 (in_range 48 49)
         else if lower_unit prefix =? 111 then lit 8 (in_range 48 55)
         else None
  end%N.

(** StringToNumber. *)
Definition str_to_num (raw : jstr) : num :=
  let s := trim raw in
  let '(neg, t) := match s with
                   | 43%N :: r => (false, r)
                   | 45%N :: r => (true, r)
                   | _ => (false, s)
                   end in
  match s with
  | [] => numz 0
  | c :: x :: body =>
    if str_eqb t (u "Infinity") then Inf neg
    else default (scan_decimal neg t) (if (c =? 48)%N then scan_radix x body else None)
  | _ => scan_decimal neg t
  end.

(** ** Values *)

(** [JFun name]: a function, which data reaches only by reading an inherited
    member of Object.prototype. *)
Inductive jsval :=
| JUndef
| JNull
| JBool (b : bool)
| JNum (n : num)
| JStr (s : jstr)
| JArr (l : list jsval)
| JObj (o : list (jstr * jsval))
| JFun (name : jstr).

Definition jz (z : Z) : jsval := JNum (numz z).

Definition truthy (v : jsval) : bool :=
  match v with
  | JUndef | JNull => false
  | JBool b => b
  | JNum n => num_truthy n
  | JStr s => match s with [] => false | _ => true end
  | JArr _ | JObj _ | JFun _ => true
  end.

(** [v || w] *)
Definition jor (v w : jsval) : jsval := if truthy v then v else w.

Definition is_nullish (v : jsval) : bool := match v with JUndef | JNull => true | _ => false end.
Definition is_undef (v : jsval) : bool := match v with JUndef => true | _ => false end.
(** [typeof v === "object"], null included. *)
Definition typeof_object (v : jsval) : bool := match v with JNull | JArr _ | JObj _ => true | _ => false end.
Definition is_array (v : jsval) : bool := match v with JArr _ => true | _ => false end.
Definition is_string (v : jsval) : bool := match v with JStr _ => true | _ => false end.
Definition is_number (v : jsval) : bool := match v with JNum _ => true | _ => false end.
(** [v && typeof v === "object"] *)
Definition is_object (v : jsval) : bool := truthy v && typeof_object v.

(** The members every plain object inherits. *)
Definition object_prototype : list jstr :=
  [u "constructor"; u "__defineGetter__"; u "__defineSetter__"; u "hasOwnProperty";
   u "__lookupGetter__"; u "__lookupSetter__"; u "isPrototypeOf"; u "propertyIsEnumerable";
   u "toString"; u "valueOf"; u "__proto__"; u "toLocaleString"].

Fixpoint own_get (o : list (jstr * jsval)) (k : jstr) : option jsval :=
  match o with
  | [] => None
  | (k', v) :: t => if str_eqb k' k then Some v else own_get t k
  end.

Definition inherited (k : jstr) : jsval :=
  if existsb (str_eqb k) object_prototype then JFun k else JUndef.

(** [o[k]] on a plain object. *)
Definition obj_get (o : list (jstr * jsval)) (k : jstr) : jsval := default (inherited k) (own_get o k).

(** An array index as a property key. *)
Definition index_key (k : jstr) : option N :=
  match k with
  | [] => None
  | _ => if all_in is_digit k && str_eqb (dec (value_of_digits k)) k && (value_of_digits k <? 4294967295)%N
         then Some (value_of_digits k) else None
  end.

(** [v[k]]; the data handed to the model's functions is never read through
    null or undefined, where JavaScript throws. *)
Definition jget (v : jsval) (k : jstr) : jsval :=
  match v with
  | JObj o => obj_get o k
  | JArr l =>
    if str_eqb k (u "length") then JNum (numn (length l))
    else match index_key k with
         | Some i => default JUndef (l !! N.to_nat i)
         | None => inherited k
         end
  | JStr s => if str_eqb k (u "length") then JNum (numn (length s)) else inherited k
  | JFun _ | JBool _ | JNum _ => inherited k
  | JUndef | JNull => JUndef
  end.

(** The enumeration order of own keys: array indices ascending, then the
    others as they were added. [key_before k k'] is "the new key [k] goes
    before [k']". *)
Definition key_before (k k' : jstr) : bool :=
  match index_key k, index_key k' with
  | Some i, Some j => (i <? j)%N
  | Some _, None => true
  | None, _ => false
  end.

Fixpoint insert_key (o : list (jstr * jsval)) (k : jstr) (v : jsval) : list (jstr * jsval) :=
  match o with
  | [] => [(k, v)]
  | (k', v') :: t => if key_before k k' then (k, v) :: o else (k', v') :: insert_key t k v
  end.

Fixpoint replace_key (o : list (jstr * jsval)) (k : jstr) (v : jsval) : list (jstr * jsval) :=
  match o with
  | [] => []
  | (k', v') :: t => if str_eqb k' k then (k', v) :: t else (k', v') :: replace_key t k v
  end.

(** [o[k] = v] on an own property. *)
Definition obj_set (o : list (jstr * jsval)) (k : jstr) (v : jsval) : list (jstr * jsval) :=
  match own_get o k with
  | Some _ => replace_key o k v
  | None => insert_key o k v
  end.

(** [delete o[k]] *)
Definition obj_delete (o : list (jstr * jsval)) (k : jstr) : list (jstr * jsval) :=
  List.filter (fun kv => negb (str_eqb (fst kv) k)) o.

(** String(v). Nested arrays are joined with commas, null and undefined as nothing. *)
Fixpoint to_str (v : jsval) : jstr :=
  match v with
  | JUndef => u "undefined"
  | JNull => u "null"
  | JBool true => u "true"
  | JBool false => u "false"
  | JNum n => num_str n
  | JStr s => s
  | JArr l => join (u ",") (map (fun x => if is_nullish x then [] else to_str x) l)
  | JObj _ => u "[object Object]"
  | JFun name => u "function " ++ name ++ u "() { [native code] }"
  end.

(** Number(v) *)
Definition to_num (v : jsval) : num :=
  match v with
  | JUndef => NaN
  | JNull => numz 0
  | JBool b => numz (if b then 1 else 0)
  | JNum n => n
  | JStr s => str_to_num s
  | JArr _ => str_to_num (to_str v)
  | JObj _ | JFun _ => NaN
  end.

(** String(v || "") *)
Definition text_or_empty (v : jsval) : jstr := if truthy v then to_str v else [].
(** String(v || d) *)
Definition text_or (v : jsval) (d : jstr) : jstr := if truthy v then to_str v else d.
(** [v === undefined || v === null ? "" : String(v)] *)
Definition text_of (v : jsval) : jstr := if is_nullish v then [] else to_str v.

(** [===]; two objects reached by different reads are different objects. *)
Definition strict_eq (a b : jsval) : bool :=
  match a, b with
  | JUndef, JUndef | JNull, JNull => true
  | JBool x, JBool y => Bool.eqb x y
  | JNum x, JNum y => num_eqb x y
  | JStr x, JStr y => str_eqb x y
  | JFun x, JFun y => str_eqb x y
  | _, _ => false
  end.

Definition is_true (v : jsval) : bool := match v with JBool true => true | _ => false end.

(** Math.floor(Number(v)) || 0 *)
Definition floor_or_zero (v : jsval) : num := num_or_zero (num_floor (to_num v)).

(** Objects written with their keys. *)
Definition fields (l : list (string * jsval)) : list (jstr * jsval) := map (fun kv => (u (fst kv), snd kv)) l.

(** [v.["name"]] reads a member, [obj [("name", v); ..]] is an object literal. *)
Declare Scope js_scope.
Delimit Scope js_scope with js.
Notation "v .[ k ]" := (jget v (u k%string)) (at level 1, left associativity, format "v .[ k ]") : js_scope.
Definition obj (l : list (string * jsval)) : jsval := JObj (fields l).
Arguments obj l%_string.
Definition JText (v : jsval) : jsval := JStr (text_or_empty v).

(** [a && b] as values. *)
Definition jand (v w : jsval) : jsval := if truthy v then w else v.

(** The line terminators that [.] in a regular expression does not match. *)
Definition is_line_end (c : N) : bool := (c =? 10)%N || (c =? 13)%N || (c =? 8232)%N || (c =? 8233)%N.

(** ** Lemmas *)

Lemma str_eqb_eq a b : str_eqb a b = true <-> a = b.
Proof. apply bool_decide_eq_true. Qed.
Lemma str_eqb_neq a b : str_eqb a b = false <-> a <> b.
Proof. apply bool_decide_eq_false. Qed.
Lemma str_eqb_refl a : str_eqb a a = true.
Proof. by apply str_eqb_eq. Qed.
#[export] Hint Resolve str_eqb_refl : qsbw.

(** [str_cases]: case on every string comparison of the goal. *)
Ltac str_cases :=
  repeat match goal with
  | |- context [str_eqb ?a ?b] =>
    let E := fresh "E" in destruct (str_eqb a b) eqn:E;
    [apply str_eqb_eq in E | apply str_eqb_neq in E]
  end.

Lemma digit_unit_digit d : (d < 10)%N -> is_digit (digit_unit d) = true /\ (digit_unit d - 48 = d)%N.
Proof.
  intros H. unfold digit_unit, is_digit, in_range.
  destruct (N.ltb_spec d 10); [|lia]. split; [apply andb_true_iff; split; apply N.leb_le|]; lia.
Qed.

Lemma fold_digits_app s t a :
  fold_left (fun a d => a * 10 + (d - 48))%N (s ++ t) a
  = fold_left (fun a d => a * 10 + (d - 48))%N t (fold_left (fun a d => a * 10 + (d - 48))%N s a).
Proof. apply fold_left_app. Qed.

Lemma digits_aux_spec fuel n acc :
  (n < 10 ^ N.of_nat fuel)%N ->
  exists ds, digits_aux 10 fuel n acc = ds ++ acc /\ value_of_digits ds = n /\ forallb is_digit ds = true
             /\ (fuel <> 0%nat -> ds <> [] /\ (forall t, ds = 48%N :: t -> t = [])).
Proof.
  revert n acc; induction fuel as [|f IH]; intros n acc Hn.
  - exists []. change (10 ^ N.of_nat 0)%N with 1%N in Hn. split_and!; try done. unfold value_of_digits; simpl. lia.
  - simpl digits_aux. pose proof (N.mod_lt n 10 ltac:(lia)) as Hm.
    destruct (digit_unit_digit _ Hm) as [Hd Hv].
    destruct (N.ltb_spec n 10) as [Hlt|Hge].
    + exists [digit_unit (n mod 10)]. rewrite N.mod_small in * by lia.
      split_and!; [done| |by simpl; rewrite Hd|].
      * unfold value_of_digits; simpl. rewrite Hv. lia.
      * intros _. split; [done|]. by intros t [= _ <-].
    + destruct (IH (n / 10)%N (digit_unit (n mod 10) :: acc)) as (ds & E & V & D & Z).
      { rewrite Nat2N.inj_succ, N.pow_succ_r' in Hn. apply N.Div0.div_lt_upper_bound; lia. }
      exists (ds ++ [digit_unit (n mod 10)]). split_and!.
      * by rewrite E, <- app_assoc.
      * unfold value_of_digits. rewrite fold_digits_app. fold (value_of_digits ds). rewrite V. simpl.
        rewrite Hv. pose proof (N.div_mod n 10 ltac:(lia)). lia.
      * rewrite forallb_app, D. simpl. by rewrite Hd.
      * intros _. split; [by destruct ds|]. intros t Ht.
        destruct f as [|f]; [change (10 ^ N.of_nat 1)%N with 10%N in Hn; lia|]. destruct (Z ltac:(done)) as [Hne Hz].
        destruct ds as [|d ds]; [done|]. simplify_eq/=. rewrite (Hz ds eq_refl) in V.
        unfold value_of_digits in V. simpl in V.
        symmetry in V. apply N.div_small_iff in V; lia.
Qed.

Lemma size_pow10 n : (n < 10 ^ N.of_nat (S (N.size_nat n)))%N.
Proof.
  assert (n < 2 ^ N.of_nat (N.size_nat n))%N as H.
  { destruct n as [|p]; [done|]. pose proof (N.size_gt (Npos p)) as G.
    replace (N.of_nat (N.size_nat (N.pos p))) with (N.size (N.pos p)); [done|].
    simpl. clear. induction p; simpl; lia. }
  rewrite Nat2N.inj_succ, N.pow_succ_r'. pose proof (N.pow_le_mono_l 2 10 (N.of_nat (N.size_nat n)) ltac:(lia)). lia.
Qed.

Lemma dec_spec n :
  value_of_digits (dec n) = n /\ forallb is_digit (dec n) = true /\ dec n <> []
  /\ (forall t, dec n = 48%N :: t -> t = []).
Proof.
  unfold dec, digits. destruct (digits_aux_spec (S (N.size_nat n)) n [] (size_pow10 n)) as (ds & E & V & D & Z).
  rewrite E, app_nil_r. destruct (Z ltac:(done)). done.
Qed.

Lemma value_of_dec n : value_of_digits (dec n) = n.
Proof. apply dec_spec. Qed.
Lemma dec_digits n : forallb is_digit (dec n) = true.
Proof. apply dec_spec. Qed.
Lemma dec_nonempty n : dec n <> [].
Proof. apply dec_spec. Qed.

Lemma dec_inj n m : dec n = dec m -> n = m.
Proof. intros H. by rewrite <- (value_of_dec n), H, value_of_dec. Qed.

(** Splitting off a run whose end is known. *)
Lemma span_app p s t :
  forallb p s = true -> (forall c t', t = c :: t' -> p c = false) -> span p (s ++ t) = (s, t).
Proof.
  intros H Ht. induction s as [|c s IH]; simpl in *.
  - destruct t as [|c t]; [done|]. simpl. by rewrite (Ht c t eq_refl).
  - apply andb_true_iff in H as [-> H]. by rewrite IH.
Qed.

Lemma span_spec p s : s = fst (span p s) ++ snd (span p s) /\ forallb p (fst (span p s)) = true.
Proof.
  induction s as [|c s [IH1 IH2]]; simpl; [done|]. destruct (p c) eqn:E; [|done].
  destruct (span p s) as [a b]; simpl in *. split; [by rewrite <- IH1|]. by rewrite E.
Qed.

Lemma own_get_insert o k v k' :
  own_get o k = None ->
  own_get (insert_key o k v) k' = if str_eqb k k' then Some v else own_get o k'.
Proof.
  induction o as [|[k1 v1] t IH]; simpl; [done|]. destruct (str_eqb k1 k) eqn:E1; [done|].
  intros H. destruct (key_before k k1); simpl; [done|]. rewrite (IH H).
  destruct (str_eqb k1 k') eqn:E2; [|done]. destruct (str_eqb k k') eqn:E3; [|done].
  apply str_eqb_eq in E2, E3. apply str_eqb_neq in E1. congruence.
Qed.

Lemma own_get_replace o k v k' :
  own_get o k <> None ->
  own_get (replace_key o k v) k' = if str_eqb k k' then Some v else own_get o k'.
Proof.
  induction o as [|[k1 v1] t IH]; simpl; [done|]. destruct (str_eqb k1 k) eqn:E1; simpl.
  - apply str_eqb_eq in E1 as ->. intros _. by destruct (str_eqb k k').
  - intros H. rewrite (IH H). destruct (str_eqb k1 k') eqn:E2; [|done].
    destruct (str_eqb k k') eqn:E3; [|done]. apply str_eqb_eq in E2, E3. apply str_eqb_neq in E1. congruence.
Qed.

(** Reading back what an assignment wrote. *)
Lemma own_get_set o k v k' :
  own_get (obj_set o k v) k' = if str_eqb k k' then Some v else own_get o k'.
Proof.
  unfold obj_set. destruct (own_get o k) eqn:E; [apply own_get_replace; congruence|by apply own_get_insert].
Qed.

Lemma obj_get_set_same o k v : obj_get (obj_set o k v) k = v.
Proof. unfold obj_get. by rewrite own_get_set, str_eqb_refl. Qed.
Lemma obj_get_set_other o k v k' : k <> k' -> obj_get (obj_set o k v) k' = obj_get o k'.
Proof. intros H. unfold obj_get. rewrite own_get_set. by apply str_eqb_neq in H as ->. Qed.

Lemma own_get_delete o k k' :
  own_get (obj_delete o k) k' = if str_eqb k k' then None else own_get o k'.
Proof.
  induction o as [|[k1 v1] t IH]; simpl; [by destruct (str_eqb k k')|].
  destruct (str_eqb k1 k) eqn:E1; simpl; rewrite IH.
  - apply str_eqb_eq in E1 as ->. by destruct (str_eqb k k').
  - destruct (str_eqb k1 k') eqn:E2; [|done]. destruct (str_eqb k k') eqn:E3; [|done].
    apply str_eqb_eq in E2, E3. apply str_eqb_neq in E1. congruence.
Qed.

#[export] Hint Rewrite own_get_set own_get_delete obj_get_set_same : qsbw.

Lemma strict_eq_str a b : strict_eq (JStr a) (JStr b) = true <-> a = b.
Proof. apply str_eqb_eq. Qed.

Lemma strip_end_Forall (P : N -> Prop) p s : Forall P s -> Forall P (strip_end p s).
Proof.
  induction 1 as [|c t Hc _ IH]; [constructor|]. cbn [strip_end]. destruct (strip_end p t); [destruct (p c); by repeat constructor|by constructor].
Qed.

Lemma strip_end_forall p q s : forallb q s = true -> forallb q (strip_end p s) = true.
Proof.
  induction s as [|c s IH]; simpl; [done|]. intros [Hc Hs]%andb_true_iff. specialize (IH Hs).
  destruct (strip_end p s); [|simpl in *; by rewrite Hc]. destruct (p c); simpl; [done|by rewrite Hc].
Qed.

Lemma trim_start_forall q s : forallb q s = true -> forallb q (trim_start s) = true.
Proof.
  induction s as [|c s IH]; simpl; [done|]. intros [Hc Hs]%andb_true_iff.
  destruct (is_space c); [auto|]. simpl. by rewrite Hc.
Qed.

Lemma trim_forall q s : forallb q s = true -> forallb q (trim s) = true.
Proof. intros H. by apply strip_end_forall, trim_start_forall. Qed.

Lemma starts_with_spec pre s : starts_with pre s = true <-> exists t, s = pre ++ t.
Proof.
  revert s; induction pre as [|p pre IH]; intros s; simpl; [by split; [exists s|]|].
  destruct s as [|c s]; [by split; [|intros [? [=]]]|]. rewrite andb_true_iff, IH, N.eqb_eq. naive_solver.
Qed.

Lemma index_of_spec sub s i : index_of sub s = Some i -> exists a b, s = a ++ sub ++ b /\ length a = i.
Proof.
  revert i; induction s as [|c s IH]; intros i; simpl.
  - destruct (starts_with sub []) eqn:E; [|done]. intros [= <-].
    apply starts_with_spec in E as [t E]. by exists [], t.
  - destruct (starts_with sub (c :: s)) eqn:E.
    + intros [= <-]. apply starts_with_spec in E as [t E]. by exists [], t.
    + destruct (index_of sub s) as [j|]; simpl; [|done]. intros [= <-].
      destruct (IH j eq_refl) as (a & b & -> & <-). by exists (c :: a), b.
Qed.

Lemma includes_app sub a b : includes sub (a ++ sub ++ b) = true.
Proof.
  apply bool_decide_eq_true. induction a as [|c a IH]; simpl.
  - destruct (sub ++ b) eqn:E; simpl; rewrite <- E.
    all: assert (starts_with sub (sub ++ b) = true) as -> by (apply starts_with_spec; eauto); done.
  - destruct (starts_with sub (c :: a ++ sub ++ b)); [done|]. destruct IH as [x ->]. done.
Qed.

Lemma includes_spec sub s : includes sub s = true <-> exists a b, s = a ++ sub ++ b.
Proof.
  split; [|intros (a & b & ->); apply includes_app].
  intros H. apply bool_decide_eq_true in H as [i H]. apply index_of_spec in H as (a & b & -> & _). eauto.
Qed.

Lemma lower_unit_idemp c : lower_unit (lower_unit c) = lower_unit c.
Proof.
  unfold lower_unit at 2 3. destruct (is_upper c || _) eqn:E; [|unfold lower_unit; by rewrite E].
  unfold lower_unit, is_upper, in_range in *. apply orb_true_iff in E as [E|E]; bool_hyps;
    repeat match goal with |- context [(?a <=? ?b)%N] => destruct (N.leb_spec a b); simpl; try lia end; done.
Qed.
Lemma to_lower_idemp s : to_lower (to_lower s) = to_lower s.
Proof. unfold to_lower. rewrite map_map. apply map_ext, lower_unit_idemp. Qed.

(** Splitting and joining. *)
Lemma join_cons sep x l : l <> [] -> join sep (x :: l) = x ++ sep ++ join sep l.
Proof. by destruct l. Qed.

Lemma join_app sep a b : a <> [] -> b <> [] -> join sep (a ++ b) = join sep a ++ sep ++ join sep b.
Proof.
  intros Ha Hb. induction a as [|x a IH]; [done|]. destruct a as [|y a]; [by destruct b|].
  change ((x :: y :: a) ++ b) with (x :: (y :: a) ++ b). rewrite (join_cons sep x (y :: a)) by done.
  rewrite join_cons by done. rewrite IH by done. by rewrite <- !app_assoc.
Qed.

Lemma split_on_nonempty p s : split_on p s <> [].
Proof. destruct s as [|c s]; simpl; [done|]. destruct (p c); [done|]. by destruct (split_on p s). Qed.

Lemma join_split_char c s : join [c] (split_char c s) = s.
Proof.
  unfold split_char. induction s as [|d s IH]; [done|]. simpl. pose proof (split_on_nonempty (N.eqb c) s) as Hn.
  destruct (N.eqb_spec c d) as [->|].
  - rewrite join_cons by done. by rewrite IH.
  - destruct (split_on (N.eqb c) s) as [|w ws]; [done|]. simpl in *. destruct ws; simpl in *; by rewrite <- IH.
Qed.

Lemma split_on_app p w s : forallb (fun c => negb (p c)) w = true -> forall d, p d = true ->
  split_on p (w ++ d :: s) = w :: split_on p s.
Proof.
  intros Hw d Hd. induction w as [|c w IH]; simpl in *; [by rewrite Hd|]. apply andb_true_iff in Hw as [Hc Hw].
  apply negb_true_iff in Hc. rewrite Hc, IH by done. done.
Qed.

Lemma split_on_none p w : forallb (fun c => negb (p c)) w = true -> split_on p w = [w].
Proof.
  induction w as [|c w IH]; simpl; [done|]. intros [Hc Hw]%andb_true_iff. apply negb_true_iff in Hc. by rewrite Hc, IH.
Qed.

Lemma split_char_line c w s : split_char c (w ++ c :: s) = split_char c w ++ split_char c s.
Proof.
  unfold split_char. induction w as [|x w IH]; simpl; [by rewrite N.eqb_refl|].
  destruct (c =? x)%N; [by rewrite IH|]. rewrite IH.
  pose proof (split_on_nonempty (N.eqb c) w) as Hn. by destruct (split_on (N.eqb c) w).
Qed.

Lemma split_char_join c l : l <> [] -> Forall (fun w => c ∉ w) l -> split_char c (join [c] l) = l.
Proof.
  intros Hne H. assert (forall w, c ∉ w -> forallb (fun d => negb (c =? d)%N) w = true) as G.
  { intros w Hw. apply forallb_forall. intros d Hd%list_elem_of_In. apply negb_true_iff, N.eqb_neq. by intros ->. }
  unfold split_char. induction H as [|w l Hw Hl IH]; [done|]. destruct l as [|w' l]; [by apply split_on_none, G|].
  rewrite join_cons by done. cbn [app]. rewrite split_on_app; [|by apply G|apply N.eqb_refl]. f_equal. by apply IH.
Qed.

#[global] Opaque u uq.

Lemma num_leb_int a b : num_leb (numz a) (numz b) = (a <=? b)%Z.
Proof. unfold num_leb, numz, Qle_bool, inject_Z. simpl. by rewrite !Z.mul_1_r. Qed.
Lemma num_eqb_int a b : num_eqb (numz a) (numz b) = (a =? b)%Z.
Proof. unfold num_eqb, numz, Qeq_bool, inject_Z. simpl. by rewrite !Z.mul_1_r. Qed.
Lemma num_eqb_numz n a b : num_eqb n (numz a) = true -> num_eqb n (numz b) = (a =? b)%Z.
Proof.
  destruct n as [| |q]; try done. intros H%Qeq_bool_iff. rewrite <- num_eqb_int. unfold num_eqb, numz.
  apply eq_true_iff_eq. by rewrite !Qeq_bool_iff, H.
Qed.
Lemma num_ltb_int a b : num_ltb (numz a) (numz b) = (a <? b)%Z.
Proof. change (num_ltb (numz a) (numz b)) with (negb (num_leb (numz b) (numz a))). by rewrite num_leb_int, Z.ltb_antisym. Qed.
Lemma num_floor_int z : num_floor (numz z) = numz z.
Proof. unfold num_floor, numz. by rewrite Qfloor_Z. Qed.
Lemma num_ceil_int z : num_ceil (numz z) = numz z.
Proof. unfold num_ceil, numz, Qceiling. change (- inject_Z z)%Q with (inject_Z (- z)). rewrite Qfloor_Z. by rewrite Z.opp_involutive. Qed.
Lemma num_or_zero_int z : num_or_zero (numz z) = numz z.
Proof. unfold num_or_zero, num_truthy, numz. simpl. by destruct (Z.eqb_spec z 0) as [->|]. Qed.
Lemma num_max_int a b : num_max (numz a) (numz b) = numz (Z.max a b).
Proof.
  unfold num_max. change (is_nan (numz a)) with false. change (is_nan (numz b)) with false. cbn [orb].
  rewrite num_leb_int. destruct (Z.leb_spec a b); f_equal; f_equal; lia. Qed.
Lemma num_min_int a b : num_min (numz a) (numz b) = numz (Z.min a b).
Proof.
  unfold num_min. change (is_nan (numz a)) with false. change (is_nan (numz b)) with false. cbn [orb].
  rewrite num_leb_int. destruct (Z.leb_spec a b); f_equal; f_equal; lia. Qed.
Lemma Qred_inject_Z z : Qred (inject_Z z) = inject_Z z.
Proof.
  unfold inject_Z, Qred. destruct (Z.ggcd z 1) as [g [a b]] eqn:G.
  pose proof (Z.ggcd_correct_divisors z 1) as C. pose proof (Z.ggcd_gcd z 1) as C1.
  rewrite G in *. simpl in *. rewrite Z.gcd_1_r in C1. subst g. destruct C as [Ha Hb].
  by replace a with z by lia; replace b with 1%Z by lia.
Qed.

Lemma num_add_int a b : num_add (numz a) (numz b) = numz (a + b).
Proof. unfold num_add, numz. f_equal. rewrite <- (Qred_inject_Z (a + b)). apply Qred_complete. unfold Qeq. simpl. lia. Qed.
Lemma num_neg_int a : num_neg (numz a) = numz (- a).
Proof. done. Qed.
Lemma num_sub_int a b : num_sub (numz a) (numz b) = numz (a - b).
Proof. unfold num_sub. by rewrite num_neg_int, num_add_int. Qed.
Lemma num_mul_int a b : num_mul (numz a) (numz b) = numz (a * b).
Proof. unfold num_mul, numz. f_equal. rewrite <- (Qred_inject_Z (a * b)). apply Qred_complete. unfold Qeq. simpl. lia. Qed.
Lemma num_truthy_int z : num_truthy (numz z) = negb (z =? 0)%Z.
Proof. done. Qed.
#[export] Hint Rewrite num_leb_int num_eqb_int num_ltb_int num_floor_int num_ceil_int num_or_zero_int
  num_max_int num_min_int num_truthy_int num_add_int num_neg_int num_sub_int num_mul_int : qsnum.

(** Division with rounding down, on whole numbers. *)
Lemma num_floor_div a b : (0 < b)%Z -> num_floor (num_div (numz a) (numz b)) = numz (a / b).
Proof.
  intros Hb. unfold num_div, numz. cbn [inject_Z Qnum]. destruct (Z.eqb_spec b 0); [lia|].
  unfold num_floor, numz. do 2 f_equal. rewrite Qred_correct. unfold Qdiv, Qinv, inject_Z. cbn [Qnum Qden].
  destruct b as [|b|b]; try lia. unfold Qmult. cbn [Qnum Qden]. unfold Qfloor. by rewrite Z.mul_1_r, Pos.mul_1_l.
Qed.

(** The order of numbers, NaN aside. *)
Lemma num_leb_total a b : is_nan a = false -> is_nan b = false -> num_leb a b = true \/ num_leb b a = true.
Proof.
  destruct a as [|[]|p], b as [|[]|q]; simpl; auto; try done. intros _ _.
  rewrite !Qle_bool_iff. destruct (Qlt_le_dec q p) as [H|H]; [right; by apply Qlt_le_weak|by left].
Qed.

Lemma num_leb_trans a b c : num_leb a b = true -> num_leb b c = true -> num_leb a c = true.
Proof.
  destruct a as [|[]|p], b as [|[]|q], c as [|[]|r]; simpl; try done.
  rewrite !Qle_bool_iff. apply Qle_trans.
Qed.

Lemma num_ltb_false a b : num_ltb a b = false -> is_nan a = false -> is_nan b = false -> num_leb b a = true.
Proof. unfold num_ltb. destruct a, b; try done; intros H _ _; by apply negb_false_iff in H. Qed.

Lemma num_ltb_true a b : num_ltb a b = true -> num_leb a b = true.
Proof.
  unfold num_ltb. destruct a as [|[]|p], b as [|[]|q]; simpl; try done.
  intros H%negb_true_iff. apply Qle_bool_iff. destruct (Qlt_le_dec q p) as [G|G]; [|done].
  apply Qlt_le_weak, Qle_bool_iff in G. congruence.
Qed.

Lemma num_floor_nonneg q : (0 <= Qfloor q)%Z -> num_leb (numz 0) (num_floor (Fin q)) = true.
Proof. intros H. simpl num_floor. rewrite num_leb_int. by apply Z.leb_le. Qed.

(** A bounded loop value: Math.max(lo, v) is never NaN for a finite [lo] unless [v] is. *)
Lemma num_or_zero_not_nan a : is_nan (num_or_zero a) = false.
Proof. unfold num_or_zero. by destruct a as [| |q]; simpl; [| |destruct (_ =? _)%Z]. Qed.

Lemma num_max_lower lo a : is_nan lo = false -> is_nan a = false -> num_leb lo (num_max lo a) = true.
Proof.
  intros H1 H2. unfold num_max. rewrite H1, H2. simpl. destruct (num_leb lo a) eqn:E; [done|].
  by destruct (num_leb_total lo lo).
Qed.

(** Reading a member of an object literal. *)
Lemma jget_fields_here k v l : jget (JObj (fields ((k, v) :: l))) (u k) = v.
Proof. unfold jget, obj_get. cbn [fields map fst snd own_get]. by rewrite str_eqb_refl. Qed.
Lemma jget_fields_next k k' v l : str_eqb (u k') (u k) = false ->
  jget (JObj (fields ((k', v) :: l))) (u k) = jget (JObj (fields l)) (u k).
Proof. intros H. unfold jget, obj_get. cbn [fields map fst snd own_get]. by rewrite H. Qed.
Lemma jget_fields_nil k : jget (JObj (fields [])) (u k) = inherited (u k).
Proof. done. Qed.

(** [jfields]: evaluate the reads of object literals in the goal. *)
Ltac jfields :=
  repeat first [ rewrite jget_fields_here
               | rewrite jget_fields_next by (by vm_compute)
               | rewrite jget_fields_nil ].

#[global] Arguments numz : simpl never.
#[global] Arguments num_leb : simpl never.
#[global] Arguments num_ltb : simpl never.
#[global] Arguments num_eqb : simpl never.
#[global] Arguments num_max : simpl never.
#[global] Arguments num_min : simpl never.
#[global] Arguments num_floor : simpl never.
#[global] Arguments num_add : simpl never.
#[global] Arguments num_sub : simpl never.
#[global] Arguments num_mul : simpl never.
#[global] Arguments num_div : simpl never.
#[global] Arguments num_rem : simpl never.
#[global] Arguments num_ceil : simpl never.
#[global] Arguments num_or_zero : simpl never.

Lemma fold_digits_lower s a : (a * 10 ^ N.of_nat (length s) <= fold_left (fun a d => a * 10 + (d - 48)) s a)%N.
Proof.
  revert a; induction s as [|c s IH]; intros a; [simpl; lia|]. cbn [length fold_left]. rewrite Nat2N.inj_succ, N.pow_succ_r'.
  specialize (IH (a * 10 + (c - 48))%N). remember (10 ^ N.of_nat (length s))%N as k. nia.
Qed.

Lemma fold_digits_upper s a : forallb is_digit s = true ->
  (fold_left (fun a d => a * 10 + (d - 48)) s a < (a + 1) * 10 ^ N.of_nat (length s))%N.
Proof.
  revert a; induction s as [|c s IH]; intros a; [simpl; lia|]. cbn [length fold_left forallb].
  intros [Hc Hs]%andb_true_iff. rewrite Nat2N.inj_succ, N.pow_succ_r'. specialize (IH (a * 10 + (c - 48))%N Hs).
  unfold is_digit, in_range in Hc. bool_hyps. remember (10 ^ N.of_nat (length s))%N as k. nia.
Qed.

Lemma value_of_digits_lt s k : forallb is_digit s = true -> length s <= k -> (value_of_digits s < 10 ^ N.of_nat k)%N.
Proof.
  intros H Hk. pose proof (fold_digits_upper s 0 H) as G. unfold value_of_digits.
  pose proof (N.pow_le_mono_r 10 (N.of_nat (length s)) (N.of_nat k)). lia.
Qed.

(** Decimal text has no more digits than the number needs. *)
Lemma length_dec_le n k : (n < 10 ^ N.of_nat (S k))%N -> length (dec n) <= S k.
Proof.
  intros Hn. destruct (dec_spec n) as (V & D & Hne & Hz). destruct (dec n) as [|c t]; [done|].
  destruct (N.eq_dec c 48%N) as [->|Hc]; [rewrite (Hz t eq_refl); simpl; lia|].
  unfold value_of_digits in V. cbn [fold_left] in V. pose proof (fold_digits_lower t (0 * 10 + (c - 48))) as L.
  rewrite V in L. cbn [forallb] in D. apply andb_true_iff in D as [Dc _]. unfold is_digit, in_range in Dc. bool_hyps.
  destruct (decide (S k < length (c :: t))) as [Hl|]; [|lia]. simpl in Hl.
  pose proof (N.pow_le_mono_r 10 (N.of_nat (S k)) (N.of_nat (length t)) ltac:(lia) ltac:(lia)). nia.
Qed.

Lemma length_dec_ge n k : (10 ^ N.of_nat k <= n)%N -> S k <= length (dec n).
Proof.
  intros Hn. destruct (decide (S k <= length (dec n))) as [|Hl]; [done|].
  pose proof (value_of_digits_lt (dec n) k (dec_digits n) ltac:(lia)) as H. rewrite value_of_dec in H. lia.
Qed.

(** Nothing to trim off a text without white space. *)
Lemma trim_id s : forallb (fun c => negb (is_space c)) s = true -> trim s = s.
Proof.
  intros H. unfold trim. assert (trim_start s = s) as ->.
  { destruct s as [|c t]; [done|]. simpl in *. apply andb_true_iff in H as [Hc _]. by destruct (is_space c). }
  induction s as [|c t IH]; [done|]. simpl in *. apply andb_true_iff in H as [Hc H]. rewrite (IH H).
  destruct t; [|done]. by destruct (is_space c).
Qed.

Lemma digit_not_space c : is_digit c = true -> negb (is_space c) = true.
Proof.
  unfold is_digit, is_space, in_range. intros H. bool_hyps.
  repeat match goal with |- context [(?a <=? ?b)%N] => destruct (N.leb_spec a b); simpl; try lia end;
  repeat match goal with |- context [(?a =? ?b)%N] => destruct (N.eqb_spec a b); simpl; try lia end; done.
Qed.

Lemma str_to_num_dec n : (n < 10 ^ 300)%N -> str_to_num (dec n) = numz (Z.of_N n).
Proof.
  intros Hn. unfold str_to_num. pose proof (dec_digits n) as D. pose proof (dec_nonempty n) as Hne.
  rewrite trim_id by (eapply forallb_impl; [apply digit_not_space|exact D]).
  assert (scan_decimal false (dec n) = numz (Z.of_N n)) as Es.
  { unfold scan_decimal. rewrite <- (app_nil_r (dec n)) at 1. rewrite span_app by done. rewrite app_nil_r.
    destruct (dec n) as [|c t] eqn:E; [done|]. rewrite <- E. cbn [scan_exponent length]. rewrite value_of_dec.
    unfold decimal_num. destruct (N.eqb_spec n 0) as [->|]; [done|]. 
    pose proof (length_dec_le n 299 Hn). cbn [Z.of_nat]. rewrite Z.sub_0_r, Z.add_0_r.
    destruct (Z.ltb_spec 309 (Z.of_nat (length (dec n)))); [lia|]. destruct (Z.ltb_spec (Z.of_nat (length (dec n))) (-330)); [lia|].
    cbn [Z.leb Z.compare]. unfold numz. do 2 f_equal. lia. }
  destruct (dec n) as [|c t] eqn:E; [done|]. cbn [forallb] in D. apply andb_true_iff in D as [Dc Dt].
  assert (c <> 43 /\ c <> 45)%N as [H1 H2] by (unfold is_digit, in_range in Dc; bool_hyps; lia).
  assert (forall (X : Type) (a b d : X), match c with 43%N => a | 45%N => b | _ => d end = d) as G.
  { intros X a b d. destruct c as [|p]; [done|]. do 6 (destruct p as [p|p|]; try reflexivity); [by destruct H2|by destruct H1]. }
  rewrite G. destruct t as [|x body]; [done|].
  replace (str_eqb (c :: x :: body) (u "Infinity")) with false
    by (symmetry; apply str_eqb_neq; intros [= Ec _]; rewrite Ec in Dc; by vm_compute in Dc).
  destruct (N.eqb_spec c 48) as [->|]; [|done]. destruct (dec_spec n) as (_ & _ & _ & Hz). rewrite E in Hz. by specialize (Hz _ eq_refl).
Qed.

#[global] Arguments str_to_num : simpl never.
#[global] Arguments num_str : simpl never.
#[global] Arguments trim : simpl never.
#[global] Arguments dec : simpl never.
#[global] Arguments inherited : simpl never.
