(* ===== verification/Dates.v ===== *)
(** * Dates

    The language's dates as far as the source uses them, in UTC: the calendar,
    [Date.prototype.toISOString] and [Date.parse] on the text it writes. Times
    are whole milliseconds since 1970, as a Date holds them. *)

From stdpp Require Import base list numbers strings.
From Stdlib Require Import QArith Qround.
Local Close Scope Q_scope.
From S2P Require Import Prelude.
From S2P Require Import JsValue.
Local Open Scope js_scope.

(** ** The calendar *)

Section Calendar.
Local Open Scope Z_scope.

(** Days from 1 March of a year divisible by 400, within its 400 years, as
    year, month counted from March and day. *)
Definition civil_of_era_day (doe : Z) : Z * Z * Z :=
  let yoe := (doe - doe / 1460 + doe / 36524 - doe / 146096) / 365 in
  let doy := doe - (365 * yoe + yoe / 4 - yoe / 100) in
  let mp := (5 * doy + 2) / 153 in
  (yoe, mp, doy - (153 * mp + 2) / 5 + 1).

(** Year, month and day of a day counted from 1970-01-01. *)
Definition civil_of_days (days : Z) : Z * Z * Z :=
  let z := days + 719468 in
  let '(yoe, mp, d) := civil_of_era_day (z mod 146097) in
  let m := if mp <? 10 then mp + 3 else mp - 9 in
  (yoe + 400 * (z / 146097) + (if m <=? 2 then 1 else 0), m, d).

Definition days_of_civil (y m d : Z) : Z :=
  let y := if m <=? 2 then y - 1 else y in
  let yoe := y mod 400 in
  let mp := if 2 <? m then m - 3 else m + 9 in
  let doe := 365 * yoe + yoe / 4 - yoe / 100 + ((153 * mp + 2) / 5 + d - 1) in
  146097 * (y / 400) + doe - 719468.

Definition MS_PER_DAY : Z := 86400000.

(** ** Texts *)

Definition padded (width : nat) (n : Z) : jstr := pad_left width 48 (dec_Z n).

Definition iso_year (y : Z) : jstr :=
  if (0 <=? y) && (y <=? 9999) then padded 4 y
  else (if y <? 0 then u "-" else u "+") ++ padded 6 (Z.abs y).

(** [new Date(ms).toISOString()] of a valid time. *)
Definition toISOString (ms : Z) : jstr :=
  let '(y, m, d) := civil_of_days (ms / MS_PER_DAY) in
  let t := ms mod MS_PER_DAY in
  iso_year y ++ u "-" ++ padded 2 m ++ u "-" ++ padded 2 d ++ u "T"
  ++ padded 2 (t / 3600000) ++ u ":" ++ padded 2 (t / 60000 mod 60) ++ u ":" ++ padded 2 (t / 1000 mod 60)
  ++ u "." ++ padded 3 (t mod 1000) ++ u "Z".

(** The number of milliseconds a Date can hold on either side of 1970. *)
Definition MAX_TIME : Z := 8640000000000000.

(** [new Date(n).toISOString()], which throws for a time no Date can hold. *)
Definition to_iso (n : num) : option jstr :=
  match n with
  | Fin q =>
    let ms := Z.quot (Qnum q) (Zpos (Qden q)) in
    if Z.abs ms <=? MAX_TIME then Some (toISOString ms) else None
  | _ => None
  end.

Definition number_at (from to_ : nat) (s : jstr) : Z := Z.of_N (value_of_digits (slice from to_ s)).

(** The time a text of the form toISOString writes for the years 0 to 9999
    stands for, and nothing for any other text. *)
Definition iso_time (s : jstr) : option Z :=
  let ms := MS_PER_DAY * days_of_civil (number_at 0 4 s) (number_at 5 7 s) (number_at 8 10 s)
            + 3600000 * number_at 11 13 s + 60000 * number_at 14 16 s + 1000 * number_at 17 19 s + number_at 20 23 s in
  if str_eqb (toISOString ms) s then Some ms else None.

(** [Date.parse]; what it makes of any other text is the host's. *)
Definition date_parse (other : jstr -> num) (s : jstr) : num :=
  match iso_time s with Some ms => numz ms | None => other s end.

(** ** Lemmas *)

(** The year of a day of the 400 years, and the first day of a year. *)
Definition era_year (doe : Z) : Z := (doe - doe / 1460 + doe / 36524 - doe / 146096) / 365.
Definition year_start (y : Z) : Z := 365 * y + y / 4 - y / 100 + y / 400.

Definition year_ok (y : Z) : bool := (0 <=? year_start y) && (era_year (year_start y) =? y) && (era_year (year_start (y + 1) - 1) =? y)
  && (year_start (y + 1) - year_start y <=? 366) && (year_start y =? 365 * y + y / 4 - y / 100).
Definition month_ok (doy : Z) : bool :=
  let mp := (5 * doy + 2) / 153 in let d := doy - (153 * mp + 2) / 5 + 1 in
  (0 <=? mp) && (mp <? 12) && (1 <=? d) && (d <=? 31).

Fixpoint up_to (ok : Z -> bool) (fuel : nat) (n : Z) : bool :=
  match fuel with O => true | S f => ok n && up_to ok f (n + 1) end.

Lemma up_to_spec ok fuel n : up_to ok fuel n = true -> forall k, n <= k < n + Z.of_nat fuel -> ok k = true.
Proof.
  revert n. induction fuel as [|f IH]; intros n H k Hk; [lia|]. cbn [up_to] in H. apply andb_true_iff in H as [H1 H2].
  destruct (decide (k = n)) as [->|]; [done|]. apply (IH (n + 1) H2). lia.
Qed.

Lemma years_ok y : 0 <= y < 400 -> year_ok y = true.
Proof. apply (up_to_spec year_ok 400 0). vm_compute. reflexivity. Qed.
Lemma months_ok doy : 0 <= doy < 366 -> month_ok doy = true.
Proof. apply (up_to_spec month_ok 366 0). vm_compute. reflexivity. Qed.

Lemma div_succ a b : 0 < b -> a / b <= (a + 1) / b <= a / b + 1.
Proof.
  intros Hb. split; [apply Z.div_le_mono; lia|]. rewrite <- (Z.div_add a 1 b) by lia. apply Z.div_le_mono; lia.
Qed.

Lemma era_year_mono a b : 0 <= a <= b -> era_year a <= era_year b.
Proof.
  intros [Ha Hb]. assert (forall k, (0 <= k) -> era_year a <= era_year (a + k)) as G.
  { apply natlike_ind; [by rewrite Z.add_0_r|]. intros k Hk IH. etransitivity; [exact IH|].
    unfold era_year. apply Z.div_le_mono; [done|]. rewrite Z.add_succ_r. unfold Z.succ. set (d := a + k).
    change 146096 with (36524 * 4). rewrite <- !Z.div_div by lia.
    pose proof (div_succ d 36524 ltac:(lia)) as Hc. pose proof (div_succ d 1460 ltac:(lia)) as Hq.
    revert Hc Hq. generalize (d / 36524) ((d + 1) / 36524) (d / 1460) ((d + 1) / 1460). intros c c' q q' Hc Hq.
    destruct (decide (c' = c)) as [->|]; [lia|]. assert (c' = c + 1) as -> by lia. pose proof (div_succ c 4 ltac:(lia)). lia. }
  replace b with (a + (b - a)) by lia. apply G. lia.
Qed.

Lemma era_year_spec doe : 0 <= doe < 146097 -> 0 <= era_year doe < 400
  /\ 0 <= doe - (365 * era_year doe + era_year doe / 4 - era_year doe / 100) < 366.
Proof.
  intros Hd. assert (exists y, 0 <= y < 400 /\ year_start y <= doe < year_start (y + 1)) as (y & Hy & Hs).
  { assert (forall n, 0 <= n -> doe < year_start n -> exists y, 0 <= y < n /\ year_start y <= doe < year_start (y + 1)) as G.
    { apply (natlike_ind (fun n => doe < year_start n -> exists y, 0 <= y < n /\ year_start y <= doe < year_start (y + 1))).
      - intros H. change (year_start 0) with 0 in H. lia.
      - intros n Hn IH H. destruct (decide (doe < year_start n)) as [Hlt|Hge].
        + destruct (IH Hlt) as (y & ? & ?). exists y. split; [lia|done].
        + exists n. split; [lia|]. split; [lia|done]. }
    apply (G 400); [lia|]. change (year_start 400) with 146097. lia. }
  pose proof (years_ok y Hy) as Hok. unfold year_ok in Hok. bool_hyps.
  pose proof (era_year_mono (year_start y) doe ltac:(lia)). pose proof (era_year_mono doe (year_start (y + 1) - 1) ltac:(lia)).
  assert (era_year doe = y) as -> by lia. split; [done|]. lia.
Qed.

Lemma days_civil_days z : let '(y, m, d) := civil_of_days z in days_of_civil y m d = z /\ 1 <= m <= 12 /\ 1 <= d <= 31.
Proof.
  unfold civil_of_days. set (w := z + 719468). pose proof (Z.mod_pos_bound w 146097 ltac:(lia)) as Hm.
  destruct (era_year_spec (w mod 146097) ltac:(lia)) as [Hyoe Hdoy]. unfold civil_of_era_day. fold (era_year (w mod 146097)).
  set (yoe := era_year (w mod 146097)) in *. clearbody yoe. set (doy := w mod 146097 - (365 * yoe + yoe / 4 - yoe / 100)) in *.
  pose proof (months_ok doy Hdoy) as H. unfold month_ok in H. set (mp := (5 * doy + 2) / 153) in *.
  assert (w mod 146097 = 365 * yoe + yoe / 4 - yoe / 100 + doy) as Hdoe by (unfold doy; lia). clearbody doy. clearbody mp. bool_hyps.
  pose proof (Z.div_mod w 146097 ltac:(lia)) as Hw. set (era := w / 146097) in *. clearbody era.
  set (m := if mp <? 10 then mp + 3 else mp - 9).
  assert ((m <=? 2) = negb (mp <? 10)) as Hle by (unfold m; destruct (mp <? 10) eqn:E; bool_hyps; [apply Z.leb_gt|apply Z.leb_le]; lia).
  assert (1 <= m <= 12) as Hm12 by (unfold m; destruct (mp <? 10) eqn:E; bool_hyps; lia).
  split; [|lia]. unfold days_of_civil.
  assert ((if m <=? 2 then yoe + 400 * era + (if m <=? 2 then 1 else 0) - 1 else yoe + 400 * era + (if m <=? 2 then 1 else 0)) = yoe + era * 400) as ->
    by (destruct (m <=? 2); lia).
  rewrite Z.mod_add, Z.div_add by lia. rewrite (Z.mod_small yoe), (Z.div_small yoe) by lia.
  assert ((if 2 <? m then m - 3 else m + 9) = mp) as ->.
  { rewrite Z.ltb_antisym, Hle. unfold m. destruct (mp <? 10); cbn [negb]; lia. }
  unfold w in *. lia.
Qed.

Lemma fold_zeros k s a : fold_left (fun a d => a * 10 + (d - 48))%N (replicate k 48%N ++ s) 0%N = a -> value_of_digits s = a.
Proof. intros <-. unfold value_of_digits. induction k as [|k IH]; [done|]. exact IH. Qed.

Lemma padded_spec k n : (0 < k)%nat -> 0 <= n < 10 ^ Z.of_nat k ->
  length (padded k n) = k /\ Z.of_N (value_of_digits (padded k n)) = n.
Proof.
  intros Hk Hn. unfold padded, pad_left. assert (dec_Z n = dec (Z.to_N n)) as -> by (destruct n; done || lia).
  assert (length (dec (Z.to_N n)) <= k)%nat as Hl.
  { destruct k as [|k]; [lia|]. apply length_dec_le. apply N2Z.inj_lt. rewrite N2Z.inj_pow, nat_N_Z, Z2N.id by lia. apply Hn. }
  split; [rewrite length_app, length_replicate; lia|].
  assert (value_of_digits (replicate (k - length (dec (Z.to_N n))) 48%N ++ dec (Z.to_N n)) = Z.to_N n) as ->.
  { rewrite <- (value_of_dec (Z.to_N n)) at 3. symmetry. by apply (fold_zeros (k - length (dec (Z.to_N n)))). }
  by rewrite Z2N.id by lia.
Qed.

Lemma number_at_part a x b from to_ v : length a = from -> length x = (to_ - from)%nat -> (from <= to_)%nat ->
  Z.of_N (value_of_digits x) = v -> number_at from to_ (a ++ x ++ b) = v.
Proof.
  intros <- Hx Hle <-. unfold number_at, slice. rewrite app_assoc, take_app_length' by (rewrite length_app; lia).
  by rewrite drop_app_length.
Qed.

Lemma iso_time_of ms : 0 <= ms <= 240500000000000 -> iso_time (toISOString ms) = Some ms.
Proof.
  intros Hms. unfold iso_time. enough (forall v, v = ms -> (if str_eqb (toISOString v) (toISOString ms) then Some v else None) = Some ms) as G.
  2:{ intros v ->. by rewrite str_eqb_refl. }
  apply G. clear G. pose proof (days_civil_days (ms / MS_PER_DAY)) as Hc. unfold toISOString.
  assert (0 <= ms / MS_PER_DAY < 2786860) as Hd.
  { split; [apply Z.div_pos; unfold MS_PER_DAY; lia|]. apply Z.div_lt_upper_bound; unfold MS_PER_DAY; lia. }
  assert (let '(y, _, _) := civil_of_days (ms / MS_PER_DAY) in 0 <= y <= 9999) as Hy.
  { unfold civil_of_days. assert (719468 <= ms / MS_PER_DAY + 719468 < 3506328) as Hw by lia. revert Hw. generalize (ms / MS_PER_DAY + 719468). intros w Hw. pose proof (Z.mod_pos_bound w 146097 ltac:(lia)).
    destruct (era_year_spec (w mod 146097) ltac:(lia)) as [Hyoe _]. unfold civil_of_era_day. fold (era_year (w mod 146097)).
    assert (0 <= w / 146097 < 24). { split; [apply Z.div_pos; lia|]. apply Z.div_lt_upper_bound; lia. }
    cbv zeta. match goal with |- context [if ?b then 1 else 0] => destruct b end; lia. }
  destruct (civil_of_days (ms / MS_PER_DAY)) as [[y m] d]. destruct Hc as (Hc & Hm & Hdd).
  unfold iso_year. assert ((0 <=? y) && (y <=? 9999) = true) as -> by (apply andb_true_iff; rewrite !Z.leb_le; lia).
  pose proof (Z.mod_pos_bound ms MS_PER_DAY ltac:(done)) as Ht. pose proof (Z.div_mod ms MS_PER_DAY ltac:(done)) as Hdm.
  set (t := ms mod MS_PER_DAY) in *. clearbody t. unfold MS_PER_DAY in Ht.
  assert (0 <= t / 3600000 < 24) as Hh. { split; [apply Z.div_pos; lia|]. apply Z.div_lt_upper_bound; lia. }
  pose proof (Z.mod_pos_bound (t / 60000) 60 ltac:(lia)) as Hmi. pose proof (Z.mod_pos_bound (t / 1000) 60 ltac:(lia)) as Hs.
  pose proof (Z.mod_pos_bound t 1000 ltac:(lia)) as Hmil.
  assert (t = 3600000 * (t / 3600000) + 60000 * ((t / 60000) mod 60) + 1000 * ((t / 1000) mod 60) + t mod 1000) as Ht'.
  { assert (t / 60000 = t / 1000 / 60) as -> by by rewrite Z.div_div. assert (t / 3600000 = t / 1000 / 60 / 60) as -> by by rewrite !Z.div_div.
    pose proof (Z.div_mod t 1000 ltac:(lia)). pose proof (Z.div_mod (t / 1000) 60 ltac:(lia)). pose proof (Z.div_mod (t / 1000 / 60) 60 ltac:(lia)). lia. }
  destruct (padded_spec 4 y ltac:(lia) ltac:(lia)) as [L1 V1]. destruct (padded_spec 2 m ltac:(lia) ltac:(lia)) as [L2 V2].
  destruct (padded_spec 2 d ltac:(lia) ltac:(lia)) as [L3 V3]. destruct (padded_spec 2 (t / 3600000) ltac:(lia) ltac:(lia)) as [L4 V4].
  destruct (padded_spec 2 ((t / 60000) mod 60) ltac:(lia) ltac:(lia)) as [L5 V5]. destruct (padded_spec 2 ((t / 1000) mod 60) ltac:(lia) ltac:(lia)) as [L6 V6].
  destruct (padded_spec 3 (t mod 1000) ltac:(lia) ltac:(lia)) as [L7 V7].
  replace (u "-") with [45%N] by by vm_compute. replace (u "T") with [84%N] by by vm_compute. replace (u ":") with [58%N] by by vm_compute.
  replace (u ".") with [46%N] by by vm_compute. replace (u "Z") with [90%N] by by vm_compute.
  revert L1 V1 L2 V2 L3 V3 L4 V4 L5 V5 L6 V6 L7 V7.
  generalize (padded 4 y) (padded 2 m) (padded 2 d) (padded 2 (t / 3600000)) (padded 2 ((t / 60000) mod 60)) (padded 2 ((t / 1000) mod 60)) (padded 3 (t mod 1000)).
  intros s1 s2 s3 s4 s5 s6 s7 L1 V1 L2 V2 L3 V3 L4 V4 L5 V5 L6 V6 L7 V7.
  destruct s1 as [|a1 [|a2 [|a3 [|a4 [|]]]]]; try done. destruct s2 as [|b1 [|b2 [|]]]; try done. destruct s3 as [|c1 [|c2 [|]]]; try done.
  destruct s4 as [|e1 [|e2 [|]]]; try done. destruct s5 as [|f1 [|f2 [|]]]; try done. destruct s6 as [|g1 [|g2 [|]]]; try done.
  destruct s7 as [|h1 [|h2 [|h3 [|]]]]; try done.
  unfold number_at, slice. cbn [app take drop]. rewrite V1, V2, V3, V4, V5, V6, V7. unfold MS_PER_DAY in *. lia.
Qed.
End Calendar.
