(* ===== verification/Json.v ===== *)
(** * JSON.parse and JSON.stringify

    The two standard functions every store, protocol line and CLI answer of
    the source goes through, as executable definitions, and the round trip
    between them for the values the plugin writes. *)

From stdpp Require Import base list numbers strings.
From Stdlib Require Import QArith.
From S2P Require Import Prelude.
From S2P Require Import JsValue.
Local Close Scope Q_scope.
Local Open Scope nat_scope.

(** ** Parsing *)

Definition is_json_space (c : N) : bool := (c =? 32)%N || (c =? 10)%N || (c =? 13)%N || (c =? 9)%N.

Fixpoint skip_ws (s : jstr) : jstr :=
  match s with
  | [] => []
  | c :: t => if is_json_space c then skip_ws t else s
  end.

Definition hex_value (c : N) : option N :=
  if is_digit c then Some (c - 48)%N
  else if in_range 97 102 c then Some (c - 87)%N
  else if in_range 65 70 c then Some (c - 55)%N
  else None.

Definition simple_escape (c : N) : option N :=
  match c with
  | 34%N => Some 34%N | 92%N => Some 92%N | 47%N => Some 47%N
  | 98%N => Some 8%N | 102%N => Some 12%N | 110%N => Some 10%N | 114%N => Some 13%N | 116%N => Some 9%N
  | _ => None
  end.

(** The rest of a string literal after its opening quote. *)
Fixpoint parse_string (s : jstr) : option (jstr * jstr) :=
  match s with
  | [] => None
  | c :: t =>
    if (c =? 34)%N then Some ([], t)
    else if (c =? 92)%N then
      match t with
      | [] => None
      | e :: t1 =>
        if (e =? 117)%N then
          match t1 with
          | a :: b :: c' :: d :: t2 =>
            match hex_value a, hex_value b, hex_value c', hex_value d with
            | Some a', Some b', Some c'', Some d' =>
              match parse_string t2 with
              | Some (r, rest) => Some ((a' * 4096 + b' * 256 + c'' * 16 + d')%N :: r, rest)
              | None => None
              end
            | _, _, _, _ => None
            end
          | _ => None
          end
        else match simple_escape e, parse_string t1 with
             | Some x, Some (r, rest) => Some (x :: r, rest)
             | _, _ => None
             end
      end
    else if (c <? 32)%N then None
    else match parse_string t with
         | Some (r, rest) => Some (c :: r, rest)
         | None => None
         end
  end.

(** The fraction of a number: at least one digit after the point. *)
Definition scan_fraction (s : jstr) : option (jstr * jstr) :=
  match s with
  | 46%N :: t => match span is_digit t with
                 | ([], _) => None
                 | r => Some r
                 end
  | _ => Some ([], s)
  end.

Definition parse_number (s : jstr) : option (num * jstr) :=
  let '(neg, t) := match s with 45%N :: r => (true, r) | _ => (false, s) end in
  let '(ip, r) := match t with
                  | 48%N :: r => ([48%N], r)
                  | _ => span is_digit t
                  end in
  match ip with
  | [] => None
  | _ => match scan_fraction r with
         | None => None
         | Some (fp, r1) =>
           match scan_exponent r1 with
           | None => None
           | Some (e, r2) =>
             Some (decimal_num neg (value_of_digits (ip ++ fp)) (e - Z.of_nat (length fp)), r2)
           end
         end
  end.

Definition parse_literal (s : jstr) : option (jsval * jstr) :=
  if starts_with (u "true") s then Some (JBool true, drop 4 s)
  else if starts_with (u "false") s then Some (JBool false, drop 5 s)
  else if starts_with (u "null") s then Some (JNull, drop 4 s)
  else match parse_number s with
       | Some (n, r) => Some (JNum n, r)
       | None => None
       end.

(** The recursion is on fuel; twice the length of the text is enough
    ([parse_text]). *)
Fixpoint parse_value (fuel : nat) (s : jstr) {struct fuel} : option (jsval * jstr) :=
  match fuel with
  | O => None
  | S f =>
    match skip_ws s with
    | [] => None
    | c :: t =>
      if (c =? 123)%N then
        match skip_ws t with
        | 125%N :: r => Some (JObj [], r)
        | t' => parse_members f t' []
        end
      else if (c =? 91)%N then
        match skip_ws t with
        | 93%N :: r => Some (JArr [], r)
        | t' => match parse_elements f t' with
                | Some (l, r) => Some (JArr l, r)
                | None => None
                end
        end
      else if (c =? 34)%N then
        match parse_string t with
        | Some (x, r) => Some (JStr x, r)
        | None => None
        end
      else parse_literal (c :: t)
    end
  end
with parse_elements (fuel : nat) (s : jstr) {struct fuel} : option (list jsval * jstr) :=
  match fuel with
  | O => None
  | S f =>
    match parse_value f s with
    | None => None
    | Some (v, r) =>
      match skip_ws r with
      | 44%N :: r1 => match parse_elements f r1 with
                      | Some (l, r2) => Some (v :: l, r2)
                      | None => None
                      end
      | 93%N :: r1 => Some ([v], r1)
      | _ => None
      end
    end
  end
with parse_members (fuel : nat) (s : jstr) (acc : list (jstr * jsval)) {struct fuel} : option (jsval * jstr) :=
  match fuel with
  | O => None
  | S f =>
    match skip_ws s with
    | 34%N :: t =>
      match parse_string t with
      | None => None
      | Some (k, r) =>
        match skip_ws r with
        | 58%N :: r1 =>
          match parse_value f r1 with
          | None => None
          | Some (v, r2) =>
            match skip_ws r2 with
            | 44%N :: r3 => parse_members f r3 (obj_set acc k v)
            | 125%N :: r3 => Some (JObj (obj_set acc k v), r3)
            | _ => None
            end
          end
        | _ => None
        end
      end
    | _ => None
    end
  end.

(** JSON.parse(s); None where it throws. *)
Definition json_parse (s : jstr) : option jsval :=
  match parse_value (S (2 * length s)) s with
  | Some (v, r) => match skip_ws r with [] => Some v | _ => None end
  | None => None
  end.

(** ** Serializing *)

Definition hex4 (c : N) : jstr := pad_left 4 48 (digits 16 c).

(** [is_high], [is_low]: the two halves of a surrogate pair. *)
Definition is_high (c : N) : bool := in_range 55296 56319 c.
Definition is_low (c : N) : bool := in_range 56320 57343 c.

Definition escape_unit (c : N) : jstr :=
  match c with
  | 34%N => [92; 34]%N
  | 92%N => [92; 92]%N
  | 8%N => [92; 98]%N
  | 12%N => [92; 102]%N
  | 10%N => [92; 110]%N
  | 13%N => [92; 114]%N
  | 9%N => [92; 116]%N
  | _ => if (c <? 32)%N then [92; 117]%N ++ hex4 c else [c]
  end.

(** A lone surrogate is escaped, a pair is copied. *)
Fixpoint quote_body (s : jstr) : jstr :=
  match s with
  | [] => []
  | c :: t =>
    if is_high c then
      match t with
      | d :: t' => if is_low d then c :: d :: quote_body t' else ([92; 117]%N ++ hex4 c) ++ quote_body t
      | [] => ([92; 117]%N ++ hex4 c) ++ quote_body t
      end
    else if is_low c then ([92; 117]%N ++ hex4 c) ++ quote_body t
    else escape_unit c ++ quote_body t
  end.

Definition quote (s : jstr) : jstr := 34%N :: quote_body s ++ [34%N].

Definition serializable (v : jsval) : bool := match v with JUndef | JFun _ => false | _ => true end.

(** The text of a value inside an array; undefined and functions become null
    there and their properties are left out of objects. *)
Fixpoint text (v : jsval) : jstr :=
  match v with
  | JUndef | JNull | JFun _ => u "null"
  | JBool true => u "true"
  | JBool false => u "false"
  | JNum n => if is_finite n then num_str n else u "null"
  | JStr s => quote s
  | JArr l => 91%N :: join (u ",") (map text l) ++ [93%N]
  | JObj o =>
    123%N :: join (u ",") (concat (map (fun '(k, w) =>
      if serializable w then [quote k ++ 58%N :: text w] else []) o)) ++ [125%N]
  end.

(** JSON.stringify(v); None for undefined. *)
Definition json_stringify (v : jsval) : option jstr := if serializable v then Some (text v) else None.

(** [json_stringify] of a value that is always serializable. *)
Definition json_text (v : jsval) : jstr := default (u "undefined") (json_stringify v).

(** ** Values that survive the round trip *)

(** Objects in enumeration order with distinct keys, as every JavaScript object is. *)
Definition canonical (o : list (jstr * jsval)) : Prop :=
  fold_left (fun acc kv => obj_set acc (fst kv) (snd kv)) o [] = o.

Inductive plain : jsval -> Prop :=
| plain_null : plain JNull
| plain_bool b : plain (JBool b)
| plain_int z : (Z.abs z < 2 ^ 53)%Z -> plain (jz z)
| plain_str s : plain (JStr s)
| plain_arr l : Forall plain l -> plain (JArr l)
| plain_obj o : canonical o -> Forall (fun kv => plain (snd kv)) o -> plain (JObj o).

(** ** Lemmas *)

Definition hex4_reads (c : N) : bool :=
  match hex4 c with
  | [a; b; d; e] =>
    match hex_value a, hex_value b, hex_value d, hex_value e with
    | Some a', Some b', Some d', Some e' => (a' * 4096 + b' * 256 + d' * 16 + e' =? c)%N
    | _, _, _, _ => false
    end
  | _ => false
  end.

Lemma hex4_reads_range (lo : N) (n : nat) :
  forallb (fun i => hex4_reads (lo + N.of_nat i)) (seq 0 n) = true ->
  forall c, (lo <= c < lo + N.of_nat n)%N -> hex4_reads c = true.
Proof.
  intros H c Hc. rewrite forallb_forall in H.
  replace c with (lo + N.of_nat (N.to_nat (c - lo)))%N by lia. apply H, in_seq. lia.
Qed.

Lemma hex4_reads_control c : (c < 32)%N -> hex4_reads c = true.
Proof. intros H. apply (hex4_reads_range 0 32); [by vm_compute|lia]. Qed.

Lemma hex4_reads_surrogate c : is_high c || is_low c = true -> hex4_reads c = true.
Proof.
  intros H. apply (hex4_reads_range 55296 2048); [by vm_compute|].
  unfold is_high, is_low, in_range in H. rewrite orb_true_iff, !andb_true_iff, !N.leb_le in H. lia.
Qed.

Lemma parse_hex4 c s r rest :
  hex4_reads c = true -> parse_string s = Some (r, rest) ->
  parse_string (([92; 117]%N ++ hex4 c) ++ s) = Some (c :: r, rest).
Proof.
  unfold hex4_reads. intros H Hs. destruct (hex4 c) as [|a [|b [|d [|e [|]]]]] eqn:E; try done.
  simpl. destruct (hex_value a), (hex_value b), (hex_value d), (hex_value e); try done.
  rewrite Hs. apply N.eqb_eq in H as <-. done.
Qed.

Lemma parse_escape_unit c s r rest :
  parse_string s = Some (r, rest) -> parse_string (escape_unit c ++ s) = Some (c :: r, rest).
Proof.
  intros Hs.
  destruct (N.ltb_spec c 32%N) as [Hlt|Hge].
  - assert (Hin : c ∈ map N.of_nat (seq 0 32)).
    { apply list_elem_of_fmap. exists (N.to_nat c). split; [lia|]. apply elem_of_seq. lia. }
    repeat (apply elem_of_cons in Hin as [->|Hin];
      [first [by simpl; rewrite Hs
             | apply (parse_hex4 _ _ _ _); [by vm_compute|done]]|]).
    by apply elem_of_nil in Hin.
  - destruct (N.eq_dec c 34%N) as [->|H1]; [by simpl; rewrite Hs|].
    destruct (N.eq_dec c 92%N) as [->|H2]; [by simpl; rewrite Hs|].
    assert (escape_unit c = [c]) as ->.
    { unfold escape_unit. destruct (N.ltb_spec c 32%N); [lia|].
      repeat (match goal with |- context [match ?x with _ => _ end] => destruct x end; try done; try lia). }
    simpl. destruct (N.eqb_spec c 34%N); [done|]. destruct (N.eqb_spec c 92%N); [done|].
    destruct (N.ltb_spec c 32%N); [lia|]. by rewrite Hs.
Qed.

Lemma parse_plain_unit c s r rest :
  (92 < c)%N -> parse_string s = Some (r, rest) -> parse_string (c :: s) = Some (c :: r, rest).
Proof.
  intros Hc Hs. simpl. destruct (N.eqb_spec c 34%N); [lia|]. destruct (N.eqb_spec c 92%N); [lia|].
  destruct (N.ltb_spec c 32%N); [lia|]. by rewrite Hs.
Qed.

Lemma surrogate_big c : is_high c || is_low c = true -> (92 < c)%N.
Proof. unfold is_high, is_low, in_range. rewrite orb_true_iff, !andb_true_iff, !N.leb_le. lia. Qed.

(** A quoted string reads back as the string. *)
Lemma parse_quote_body s rest : parse_string (quote_body s ++ 34%N :: rest) = Some (s, rest).
Proof.
  remember (length s) as n eqn:Hn. revert s Hn.
  induction n as [n IH] using (well_founded_induction_type Nat.lt_wf_0). intros s ->.
  destruct s as [|c t]; [done|]. cbn [quote_body].
  assert (Ht : parse_string (quote_body t ++ 34%N :: rest) = Some (t, rest)) by (eapply IH; simpl; eauto).
  destruct (is_high c) eqn:Eh.
  - destruct t as [|d t'].
    + rewrite <- app_assoc. apply parse_hex4; [|done]. apply hex4_reads_surrogate. by rewrite Eh.
    + destruct (is_low d) eqn:El.
      * assert (Ht' : parse_string (quote_body t' ++ 34%N :: rest) = Some (t', rest))
          by (eapply IH; [|done]; simpl; lia).
        apply parse_plain_unit; [by apply surrogate_big; rewrite Eh|].
        apply parse_plain_unit; [by apply surrogate_big; rewrite El, orb_true_r|done].
      * rewrite <- app_assoc. apply parse_hex4; [|done]. apply hex4_reads_surrogate. by rewrite Eh.
  - destruct (is_low c) eqn:El.
    + rewrite <- app_assoc. apply parse_hex4; [|done]. apply hex4_reads_surrogate. by rewrite El, orb_true_r.
    + rewrite <- app_assoc. by apply parse_escape_unit.
Qed.

(** What may follow a value inside a document. *)
Definition closes (rest : jstr) : Prop :=
  match rest with [] => True | c :: _ => c = 44%N \/ c = 93%N \/ c = 125%N end.

Lemma closes_not_digit rest : closes rest -> forall c t, rest = c :: t -> is_digit c = false.
Proof. intros H c t ->. by destruct H as [->|[->| ->]]. Qed.

Lemma length_digits_aux radix fuel n acc : length (digits_aux radix fuel n acc) <= fuel + length acc.
Proof.
  revert n acc; induction fuel as [|f IH]; intros n acc; [done|]. cbn [digits_aux].
  destruct (n <? radix)%N; [simpl; lia|]. etrans; [apply IH|]. simpl. lia.
Qed.

Lemma length_dec n : (n < 2 ^ 53)%N -> length (dec n) <= 54.
Proof.
  intros H. unfold dec, digits. etrans; [apply length_digits_aux|]. simpl.
  assert (N.size_nat n <= 53); [|lia].
  destruct n as [|p]; [simpl; lia|]. pose proof (N.size_le (Npos p)) as G.
  assert (N.of_nat (N.size_nat (Npos p)) = N.size (Npos p)) as E by (simpl; clear; induction p; simpl; lia).
  assert (N.size (Npos p) <= 53)%N; [|lia].
  destruct (N.le_gt_cases (N.size (Npos p)) 53) as [|Hgt]; [done|].
  pose proof (N.pow_le_mono_r 2 54 (N.size (Npos p)) ltac:(lia) ltac:(lia)) as P.
  change (2 ^ 54)%N with (2 * 2 ^ 53)%N in P.
  assert (N.succ_double (Npos p) < 2 * 2 ^ 53)%N by (rewrite N.succ_double_spec; lia). lia.
Qed.

Lemma scan_after_int rest : closes rest ->
  scan_fraction rest = Some ([], rest) /\ scan_exponent rest = Some (0%Z, rest).
Proof. destruct rest as [|c t]; [done|]. by intros [->|[->| ->]]. Qed.

Lemma decimal_num_int neg m : (m < 2 ^ 53)%N ->
  decimal_num neg m 0 = numz (if neg : bool then - Z.of_N m else Z.of_N m).
Proof.
  intros H. unfold decimal_num. destruct (N.eqb_spec m 0) as [->|Hm]; [by destruct neg|].
  pose proof (length_dec m H). pose proof (dec_nonempty m).
  destruct (Z.ltb_spec 309 (Z.of_nat (length (dec m)) + 0)); [lia|].
  destruct (Z.ltb_spec (Z.of_nat (length (dec m)) + 0) (-330)); [lia|].
  simpl. rewrite Z.pow_0_r, Z.mul_1_r. by destruct neg.
Qed.

Lemma parse_number_dec m rest : (m < 2 ^ 53)%N -> closes rest ->
  parse_number (dec m ++ rest) = Some (numz (Z.of_N m), rest) /\
  parse_number (45%N :: dec m ++ rest) = Some (numz (- Z.of_N m), rest).
Proof.
  intros Hm Hr. destruct (dec_spec m) as (V & D & NE & Z0).
  destruct (scan_after_int rest Hr) as [F E].
  assert (G : forall neg, (let '(ip, r) := match dec m ++ rest with
                  | 48%N :: r => ([48%N], r)
                  | _ => span is_digit (dec m ++ rest)
                  end in
    match ip with
    | [] => None
    | _ => match scan_fraction r with
         | None => None
         | Some (fp, r1) =>
           match scan_exponent r1 with
           | None => None
           | Some (e, r2) =>
             Some (decimal_num neg (value_of_digits (ip ++ fp)) (e - Z.of_nat (length fp)), r2)
           end
         end
    end) = Some (numz (if neg then - Z.of_N m else Z.of_N m), rest)).
  { intros neg.
    assert (match dec m ++ rest with
            | 48%N :: r => ([48%N], r) | _ => span is_digit (dec m ++ rest) end = (dec m, rest)) as ->.
    { pose proof (span_app is_digit (dec m) rest D (closes_not_digit rest Hr)) as S.
      destruct (dec m) as [|c t]; [done|]. destruct (N.eq_dec c 48%N) as [->|Hc].
      - by rewrite (Z0 t eq_refl).
      - rewrite <- S. simpl.
        repeat (match goal with |- context [match ?x with _ => _ end] => is_var x; destruct x end; try done). }
    destruct (dec m) as [|c t] eqn:Ed; [done|]. rewrite F, E, app_nil_r. simpl length.
    rewrite V. change (0 - Z.of_nat 0)%Z with 0%Z. by rewrite decimal_num_int. }
  split; [|exact (G true)]. specialize (G false). unfold parse_number.
  destruct (dec m) as [|c t] eqn:Ed; [done|]. simpl in D. apply andb_true_iff in D as [D _].
  assert (c <> 45%N) by (by intros ->). revert G. simpl.
  repeat (match goal with |- context [match ?x with _ => _ end] => is_var x; destruct x end; try done).
Qed.

Lemma parse_literal_int z rest : (Z.abs z < 2 ^ 53)%Z -> closes rest ->
  parse_literal (dec_Z z ++ rest) = Some (jz z, rest) /\
  exists c t, dec_Z z = c :: t /\ (is_digit c = true \/ c = 45%N).
Proof.
  intros Hz Hr.
  assert (L : forall c t, (is_digit c = true \/ c = 45%N) -> parse_literal (c :: t) =
    match parse_number (c :: t) with Some (n, r) => Some (JNum n, r) | None => None end).
  { intros c t Hc. unfold parse_literal.
    assert (E : (116 =? c)%N = false /\ (102 =? c)%N = false /\ (110 =? c)%N = false).
    { unfold is_digit, in_range in Hc. rewrite andb_true_iff, !N.leb_le in Hc.
      split_and!; apply N.eqb_neq; lia. }
    destruct E as (E1 & E2 & E3).
    replace (u "true") with [116;114;117;101]%N by (by vm_compute).
    replace (u "false") with [102;97;108;115;101]%N by (by vm_compute).
    replace (u "null") with [110;117;108;108]%N by (by vm_compute).
    cbn [starts_with]. by rewrite E1, E2, E3. }
  assert (forall m, (m < 2 ^ 53)%N -> exists c t, dec m = c :: t /\ is_digit c = true) as HD.
  { intros m _. pose proof (dec_digits m) as D. pose proof (dec_nonempty m).
    destruct (dec m) as [|c t]; [done|]. simpl in D. apply andb_true_iff in D as [? _]. eauto. }
  destruct z as [|p|p]; cbn [dec_Z].
  - destruct (HD 0%N ltac:(lia)) as (c & t & E & D). destruct (parse_number_dec 0 rest ltac:(lia) Hr) as [P _].
    change (Z.to_N 0) with 0%N. rewrite E in P |- *. split; [|eauto]. simpl app. rewrite L by auto.
    simpl app in P. by rewrite P.
  - destruct (HD (Npos p) ltac:(lia)) as (c & t & E & D).
    destruct (parse_number_dec (Npos p) rest ltac:(lia) Hr) as [P _].
    change (Z.to_N (Z.pos p)) with (Npos p). rewrite E in P |- *. split; [|eauto]. simpl app. rewrite L by auto.
    simpl app in P. by rewrite P.
  - destruct (parse_number_dec (Npos p) rest ltac:(lia) Hr) as [_ P].
    split; [|eauto]. simpl app. rewrite L by auto. by rewrite P.
Qed.

(** Induction on [plain] with hypotheses for the elements and the members. *)
Section PlainInd.
Context (P : jsval -> Prop).
Context (Hnull : P JNull) (Hbool : forall b, P (JBool b))
        (Hint : forall z, (Z.abs z < 2 ^ 53)%Z -> P (jz z)) (Hstr : forall s, P (JStr s))
        (Harr : forall l, Forall plain l -> Forall P l -> P (JArr l))
        (Hobj : forall o, canonical o -> Forall (fun kv => plain (snd kv)) o ->
                          Forall (fun kv => P (snd kv)) o -> P (JObj o)).

Fixpoint plain_rect' (v : jsval) (H : plain v) {struct H} : P v :=
  match H in plain v return P v with
  | plain_null => Hnull
  | plain_bool b => Hbool b
  | plain_int z Hz => Hint z Hz
  | plain_str s => Hstr s
  | plain_arr l Hl =>
    Harr l Hl ((fix go l (Hl : Forall plain l) {struct Hl} : Forall P l :=
      match Hl in Forall _ l return Forall P l with
      | List.Forall_nil _ => List.Forall_nil P
      | List.Forall_cons _ x l Hx Hl => List.Forall_cons P x l (plain_rect' x Hx) (go l Hl)
      end) l Hl)
  | plain_obj o Hc Ho =>
    Hobj o Hc Ho ((fix go o (Ho : Forall (fun kv => plain (snd kv)) o) {struct Ho}
                   : Forall (fun kv => P (snd kv)) o :=
      match Ho in Forall _ o return Forall (fun kv => P (snd kv)) o with
      | List.Forall_nil _ => List.Forall_nil _
      | List.Forall_cons _ x o Hx Ho => List.Forall_cons (fun kv => P (snd kv)) x o (plain_rect' (snd x) Hx) (go o Ho)
      end) o Ho)
  end.
End PlainInd.

Lemma plain_serializable v : plain v -> serializable v = true.
Proof. by destruct 1. Qed.

Lemma members_text o : Forall (fun kv => plain (snd kv)) o ->
  concat (map (fun '(k, w) => if serializable w then [quote k ++ 58%N :: text w] else []) o)
  = map (fun kv => quote (fst kv) ++ 58%N :: text (snd kv)) o.
Proof.
  induction 1 as [|[k w] o Hw _ IH]; [done|]. simpl in *. by rewrite (plain_serializable w Hw), IH.
Qed.

Lemma u_true : u "true" = [116;114;117;101]%N.
Proof. by vm_compute. Qed.
Lemma u_false : u "false" = [102;97;108;115;101]%N.
Proof. by vm_compute. Qed.
Lemma u_null : u "null" = [110;117;108;108]%N.
Proof. by vm_compute. Qed.
Lemma u_comma : u "," = [44]%N.
Proof. by vm_compute. Qed.

Lemma num_str_int z : num_str (numz z) = dec_Z z.
Proof. unfold num_str, numz. by rewrite Qred_inject_Z. Qed.

(** What a value's text starts with. *)
Definition opens (c : N) : Prop := is_json_space c = false /\ c <> 93%N /\ c <> 125%N /\ c <> 44%N.

Lemma text_opens v : plain v -> exists c t, text v = c :: t /\ opens c.
Proof.
  intros H; destruct H as [|[]|z Hz| | |]; cbn [text].
  - rewrite u_null. by exists 110%N; eexists.
  - rewrite u_true. by exists 116%N; eexists.
  - rewrite u_false. by exists 102%N; eexists.
  - destruct (parse_literal_int z [] Hz I) as [_ (c & t & E & D)]. exists c, t. split.
    + unfold jz. change (is_finite (numz z)) with true. cbn [text]. by rewrite num_str_int.
    + destruct D as [D| ->]; [|done]. unfold is_digit, in_range in D. rewrite andb_true_iff, !N.leb_le in D.
      unfold opens, is_json_space. rewrite !orb_false_iff, !N.eqb_neq. lia.
  - by exists 34%N; eexists.
  - by exists 91%N; eexists.
  - by exists 123%N; eexists.
Qed.

Lemma skip_ws_opens c t : is_json_space c = false -> skip_ws (c :: t) = c :: t.
Proof. intros H. simpl. by rewrite H. Qed.

Definition reads (v : jsval) : Prop :=
  forall rest fuel, closes rest -> 2 * length (text v) <= fuel -> parse_value fuel (text v ++ rest) = Some (v, rest).

Lemma parse_elements_join l : l <> [] -> Forall reads l -> forall rest fuel,
  2 * length (join (u ",") (map text l) ++ [93%N]) <= fuel ->
  parse_elements fuel (join (u ",") (map text l) ++ 93%N :: rest) = Some (l, rest).
Proof.
  rewrite u_comma. induction l as [|v l IH]; [done|]. intros _ H rest fuel Hf.
  apply Forall_cons in H as [Hv Hl]. destruct l as [|w l].
  - simpl in *. rewrite length_app in Hf. simpl in Hf. destruct fuel as [|f]; [lia|].
    cbn [parse_elements]. rewrite (Hv (93%N :: rest) f); [done|by right; left|lia].
  - change (join [44%N] (map text (v :: w :: l))) with (text v ++ [44%N] ++ join [44%N] (map text (w :: l))) in *.
    rewrite !length_app in Hf. destruct fuel as [|f]; [simpl in Hf; lia|]. simpl length in Hf at 2.
    rewrite <- !app_assoc. cbn [parse_elements].
    rewrite (Hv ([44%N] ++ join [44%N] (map text (w :: l)) ++ 93%N :: rest) f); [|by left|lia].
    cbn [app]. rewrite (skip_ws_opens 44) by done. cbv iota.
    rewrite (IH ltac:(done) Hl rest f); [done|]. rewrite length_app. simpl in Hf |- *. lia.
Qed.

Lemma parse_members_join o : o <> [] -> Forall (fun kv => reads (snd kv)) o -> forall rest fuel acc,
  2 * length (join (u ",") (map (fun kv => quote (fst kv) ++ 58%N :: text (snd kv)) o) ++ [125%N]) <= fuel ->
  parse_members fuel (join (u ",") (map (fun kv => quote (fst kv) ++ 58%N :: text (snd kv)) o) ++ 125%N :: rest) acc
  = Some (JObj (fold_left (fun acc kv => obj_set acc (fst kv) (snd kv)) o acc), rest).
Proof.
  rewrite u_comma. set (mem := fun kv : jstr * jsval => quote (fst kv) ++ 58%N :: text (snd kv)).
  assert (M : forall kv f acc r, reads (snd kv) -> closes r -> 2 * length (mem kv) <= f ->
    parse_members (S f) (mem kv ++ r) acc =
    match skip_ws r with
    | 44%N :: r3 => parse_members f r3 (obj_set acc (fst kv) (snd kv))
    | 125%N :: r3 => Some (JObj (obj_set acc (fst kv) (snd kv)), r3)
    | _ => None
    end).
  { intros [k v] f acc r Hv Hr Hf. unfold mem, quote in *. simpl in *.
    rewrite <- !app_assoc. simpl. rewrite parse_quote_body. simpl.
    rewrite !length_app in Hf. simpl in Hf. rewrite (Hv r f); [done|done|lia]. }
  clearbody mem.
  induction o as [|kv o IH]; [done|]. intros _ H rest fuel acc Hf.
  apply Forall_cons in H as [Hv Ho]. destruct o as [|kw o].
  - change (join [44%N] (map mem [kv])) with (mem kv) in *. rewrite length_app in Hf. simpl in Hf.
    destruct fuel as [|f]; [lia|]. rewrite M; [done|done|by right; right|lia].
  - change (join [44%N] (map mem (kv :: kw :: o))) with (mem kv ++ [44%N] ++ join [44%N] (map mem (kw :: o))) in *.
    rewrite !length_app in Hf. destruct fuel as [|f]; [simpl in Hf; lia|].
    rewrite <- !app_assoc. rewrite M; [|done|by left|simpl in Hf; lia].
    cbn [app]. rewrite (skip_ws_opens 44) by done. cbv iota.
    rewrite (IH ltac:(done) Ho rest f); [done|]. rewrite length_app. simpl length in *. lia.
Qed.

Lemma reads_intro v :
  plain v ->
  (forall rest f, closes rest -> 2 * length (text v) <= S f -> parse_value (S f) (text v ++ rest) = Some (v, rest)) ->
  reads v.
Proof.
  intros Hv H rest [|f] Hr Hf; [|by apply H].
  destruct (text_opens v Hv) as (c & t & E & _). rewrite E in Hf. simpl in Hf. lia.
Qed.

Lemma parse_text v : plain v -> reads v.
Proof.
  induction 1 as [|b|z Hz|s|l Hp IH|o Hc Hp IH] using plain_rect';
    (apply reads_intro; [by constructor|]; intros rest f Hr Hf).
  - cbn [text]. rewrite u_null. cbn [parse_value]. simpl. unfold parse_literal. by rewrite u_true, u_false, u_null.
  - destruct b; cbn [text]; rewrite ?u_true, ?u_false; simpl; unfold parse_literal; by rewrite u_true, ?u_false.
  - unfold jz. cbn [text]. change (is_finite (numz z)) with true. rewrite num_str_int. cbn [parse_value].
    destruct (parse_literal_int z rest Hz Hr) as [P (c & t & E & D)]. rewrite E in P |- *.
    simpl app in P |- *.
    assert (is_json_space c = false /\ (c =? 123)%N = false /\ (c =? 91)%N = false /\ (c =? 34)%N = false)
      as (E1 & E2 & E3 & E4).
    { destruct D as [D| ->]; [|done]. unfold is_digit, in_range in D. rewrite andb_true_iff, !N.leb_le in D.
      unfold is_json_space. rewrite !orb_false_iff, !N.eqb_neq. lia. }
    rewrite skip_ws_opens by done. by rewrite E2, E3, E4, P.
  - cbn [text parse_value]. unfold quote. simpl. rewrite <- app_assoc. simpl. by rewrite parse_quote_body.
  - cbn [text] in *. destruct l as [|v l]; [by simpl|].
    destruct (text_opens v) as (c & t & E & Hs & H93 & _); [by apply Forall_cons in Hp as [? _]|].
    assert (J : exists j, join (u ",") (map text (v :: l)) = c :: j).
    { destruct l; simpl; rewrite E; simpl; eauto. }
    destruct J as [j Hj].
    pose proof (parse_elements_join (v :: l) ltac:(done) IH rest f) as PE.
    rewrite Hj in *. cbn [parse_value]. simpl app. rewrite (skip_ws_opens 91) by done. simpl N.eqb. cbv iota.
    rewrite <- app_assoc. simpl app. rewrite skip_ws_opens by done.
    simpl app in PE. specialize (PE ltac:(simpl in Hf |- *; rewrite ?length_app in *; simpl in *; lia)).
    clear - PE H93. revert PE H93.
    repeat (match goal with |- context [match ?x with _ => _ end] => is_var x; destruct x end;
            try (intros PE ?; (done || by rewrite PE))).
  - cbn [text] in *. rewrite members_text in * by done. destruct o as [|kv o]; [by simpl|].
    assert (J : exists j, join (u ",") (map (fun kv => quote (fst kv) ++ 58%N :: text (snd kv)) (kv :: o)) = 34%N :: j).
    { destruct o; simpl; eauto. }
    destruct J as [j Hj].
    pose proof (parse_members_join (kv :: o) ltac:(done) IH rest f []) as PM.
    rewrite Hj in *. cbn [parse_value]. simpl app. rewrite (skip_ws_opens 123) by done. simpl N.eqb. cbv iota.
    rewrite <- app_assoc. simpl app. rewrite skip_ws_opens by done.
    simpl app in PM. rewrite PM by (simpl in Hf |- *; rewrite ?length_app in *; simpl in *; lia).
    by rewrite Hc.
Qed.

(** Serializing and reading back gives the value. *)
Lemma json_roundtrip v : plain v -> json_parse (text v) = Some v.
Proof.
  intros H. unfold json_parse. pose proof (parse_text v H [] (S (2 * length (text v))) I ltac:(lia)) as P.
  rewrite app_nil_r in P. by rewrite P.
Qed.

Lemma json_text_plain v : plain v -> json_text v = text v.
Proof. intros H. unfold json_text, json_stringify. by rewrite plain_serializable. Qed.

#[export] Hint Constructors plain : qsbw.

(** A serialized value is one line: it has no control character at all. *)
Definition one_line (s : jstr) : Prop := Forall (fun c => (32 <= c)%N) s.

Lemma one_line_app a b : one_line (a ++ b) <-> one_line a /\ one_line b.
Proof. apply Forall_app. Qed.

Lemma one_line_join sep l : one_line sep -> Forall one_line l -> one_line (join sep l).
Proof.
  intros Hs. induction 1 as [|x [|y t] Hx Ht IH]; [constructor|done|].
  cbn [join] in *. rewrite !one_line_app. auto.
Qed.

Lemma digits_one_line radix n : one_line (digits radix n).
Proof.
  unfold digits. assert (one_line []) as H by constructor. revert H.
  generalize (S (N.size_nat n)) as f, (@nil N) as acc. intros f. revert n.
  induction f as [|f IH]; intros n acc H; simpl; [done|].
  assert (one_line (digit_unit (n mod radix) :: acc)).
  { constructor; [|done]. unfold digit_unit. generalize (n mod radix)%N. intros d. destruct (N.ltb_spec d 10); lia. }
  destruct (n <? radix)%N; auto.
Qed.

(** The digits of a radix up to sixteen are lower-case hexadecimal. *)
Lemma digits_hex radix n : (0 < radix <= 16)%N -> Forall (fun c => is_hex_lower c = true) (digits radix n).
Proof.
  intros Hr. unfold digits. assert (Forall (fun c => is_hex_lower c = true) []) as H by constructor. revert H.
  generalize (S (N.size_nat n)) as f, (@nil N) as acc. intros f. revert n.
  induction f as [|f IH]; intros n acc H; simpl; [done|].
  assert (Forall (fun c => is_hex_lower c = true) (digit_unit (n mod radix) :: acc)).
  { constructor; [|done]. pose proof (N.mod_lt n radix ltac:(lia)). revert H0. generalize (n mod radix)%N.
    intros d Hd. unfold digit_unit, is_hex_lower, is_digit, in_range.
    destruct (N.ltb_spec d 10); rewrite orb_true_iff, !andb_true_iff, !N.leb_le; lia. }
  destruct (n <? radix)%N; auto.
Qed.

Lemma dec_Z_one_line z : one_line (dec_Z z).
Proof. destruct z; simpl; try apply digits_one_line. constructor; [lia|apply digits_one_line]. Qed.

Lemma hex_escape_one_line c : one_line ([92; 117]%N ++ hex4 c).
Proof.
  apply one_line_app. split; [repeat constructor; lia|]. unfold hex4, pad_left. apply one_line_app.
  split; [|apply digits_one_line]. apply Forall_replicate. lia.
Qed.

Lemma escape_unit_one_line c : one_line (escape_unit c).
Proof.
  unfold escape_unit. assert (one_line (if (c <? 32)%N then [92; 117]%N ++ hex4 c else [c])) as D.
  { destruct (N.ltb_spec c 32); [apply hex_escape_one_line|by repeat constructor]. }
  repeat (match goal with |- context [match ?x with _ => _ end] => is_var x; destruct x end; auto);
    repeat constructor; lia.
Qed.

Lemma surrogate_visible c : is_high c = true \/ is_low c = true -> (32 <= c)%N.
Proof. unfold is_high, is_low, in_range. rewrite !andb_true_iff, !N.leb_le. lia. Qed.

Lemma quote_body_one_line s : one_line (quote_body s).
Proof.
  induction s as [s IH] using (induction_ltof1 _ (@length N)); unfold ltof in IH.
  destruct s as [|c t]; [constructor|]. cbn [quote_body].
  pose proof (hex_escape_one_line c) as Hc. pose proof (escape_unit_one_line c).
  assert (one_line (quote_body t)) by (apply IH; simpl; lia).
  destruct (is_high c) eqn:Eh; [|destruct (is_low c); by apply one_line_app].
  destruct t as [|d t']; [by apply one_line_app|]. destruct (is_low d) eqn:Ed; [|by apply one_line_app].
  constructor; [by apply surrogate_visible; left|]. constructor; [by apply surrogate_visible; right|].
  apply IH; simpl; lia.
Qed.

Lemma quote_one_line s : one_line (quote s).
Proof.
  unfold quote. constructor; [lia|]. apply one_line_app.
  split; [apply quote_body_one_line|repeat constructor; lia].
Qed.

Lemma text_one_line v : plain v -> one_line (text v).
Proof.
  assert (W : forall a b l, (32 <= a)%N -> (32 <= b)%N -> one_line l -> one_line (a :: l ++ [b])).
  { intros. constructor; [done|]. apply one_line_app. by repeat constructor. }
  assert (C : one_line (u ",")) by (rewrite u_comma; repeat constructor; lia).
  induction 1 as [|b|z Hz|s|l Hp IH|o Hc Hp IH] using plain_rect'.
  - cbn [text]. rewrite u_null. repeat constructor; lia.
  - destruct b; cbn [text]; rewrite ?u_true, ?u_false; repeat constructor; lia.
  - unfold jz. cbn [text]. change (is_finite (numz z)) with true. rewrite num_str_int. apply dec_Z_one_line.
  - apply quote_one_line.
  - cbn [text]. apply W; [lia..|]. apply one_line_join; [done|]. by apply Forall_map.
  - cbn [text]. rewrite members_text by done. apply W; [lia..|]. apply one_line_join; [done|].
    apply Forall_map. eapply Forall_impl; [exact IH|]. intros [k w] H. apply (one_line_app (quote k) (58%N :: text w)).
    split; [apply quote_one_line|]. constructor; [lia|exact H].
Qed.

(** Assigning new keys that are not array indices appends them. *)
Lemma obj_set_fresh o k v : index_key k = None -> own_get o k = None -> obj_set o k v = o ++ [(k, v)].
Proof.
  intros Hk Ho. unfold obj_set. rewrite Ho. clear Ho. induction o as [|[k' v'] t IH]; simpl; [done|].
  unfold key_before. rewrite Hk. destruct (index_key k'); by rewrite IH.
Qed.

Lemma own_get_none o k : own_get o k = None <-> k ∉ map fst o.
Proof.
  induction o as [|[k' v'] t IH]; simpl; [split; [by intros _ ?%elem_of_nil|done]|].
  rewrite not_elem_of_cons, <- IH. destruct (str_eqb k' k) eqn:E.
  - apply str_eqb_eq in E. split; [done|intros [? _]; congruence].
  - apply str_eqb_neq in E. split; [intros ?; split; [congruence|done]|tauto].
Qed.

Lemma fold_obj_set_fresh o base :
  Forall (fun kv => index_key (fst kv) = None) o -> NoDup (map fst (base ++ o)) ->
  fold_left (fun acc kv => obj_set acc (fst kv) (snd kv)) o base = base ++ o.
Proof.
  revert base; induction o as [|[k v] o IH]; intros base Hi Hn; simpl; [by rewrite app_nil_r|].
  apply Forall_cons in Hi as [Hk Hi]. rewrite obj_set_fresh; [|done|].
  - rewrite IH; [by rewrite <- app_assoc|done|by rewrite <- app_assoc].
  - apply own_get_none. rewrite map_app in Hn. simpl in Hn. apply NoDup_app in Hn as (_ & Hd & _).
    intros Hin. apply (Hd k Hin). by left.
Qed.

Lemma canonical_names o :
  Forall (fun kv => index_key (fst kv) = None) o -> NoDup (map fst o) -> canonical o.
Proof. intros. by apply (fold_obj_set_fresh o []). Qed.
