(* ===== verification/Uri.v ===== *)
(** * UTF-8 and URI decoding

    The language's [encodeURIComponent] and [decodeURIComponent] as the source
    uses them: the UTF-8 bytes of a string (undefined on a lone surrogate) and
    percent decoding (undefined on a malformed or non-UTF-8 escape). *)

From stdpp Require Import base list numbers strings.
From S2P Require Import Prelude.
From S2P Require Import JsValue.
From S2P Require Import Json.
Local Open Scope N_scope.

(** ** UTF-8 *)

Definition utf8_of_code_point (cp : N) : list N :=
  if cp <? 128 then [cp]
  else if cp <? 2048 then [192 + cp / 64; 128 + cp mod 64]
  else if cp <? 65536 then [224 + cp / 4096; 128 + cp / 64 mod 64; 128 + cp mod 64]
  else [240 + cp / 262144; 128 + cp / 4096 mod 64; 128 + cp / 64 mod 64; 128 + cp mod 64].

(** The bytes of [unescape(encodeURIComponent(s))]. *)
Fixpoint utf8_encode (s : jstr) : option (list N) :=
  match s with
  | [] => Some []
  | c :: t =>
    if is_high c then
      match t with
      | d :: t' =>
        if is_low d then app (utf8_of_code_point ((c - 55296) * 1024 + (d - 56320) + 65536)) <$> utf8_encode t' else None
      | [] => None
      end
    else if is_low c then None
    else app (utf8_of_code_point c) <$> utf8_encode t
  end.

(** The units of a code point. *)
Definition utf16_of_code_point (cp : N) : jstr :=
  if cp <? 65536 then [cp] else [55296 + (cp - 65536) / 1024; 56320 + (cp - 65536) mod 1024].

(** ** Percent decoding *)

Definition percent_byte (s : jstr) : option (N * jstr) :=
  match s with
  | 37 :: a :: b :: r =>
    match hex_value a, hex_value b with Some x, Some y => Some (x * 16 + y, r) | _, _ => None end
  | _ => None
  end.

Definition is_continuation (b : N) : bool := (128 <=? b) && (b <? 192).

(** A continuation byte of an escaped sequence, added to the code point so far. *)
Definition continue_byte (acc : N) (s : jstr) : option (N * jstr) :=
  match percent_byte s with
  | Some (b, r) => if is_continuation b then Some (acc * 64 + (b - 128), r) else None
  | None => None
  end.

(** The code point of the escape at the head of [s]: no overlong form, no
    surrogate, nothing past U+10FFFF. *)
Definition decode_escape (s : jstr) : option (N * jstr) :=
  match percent_byte s with
  | None => None
  | Some (b, r) =>
    if b <? 128 then Some (b, r)
    else if b <? 192 then None
    else if b <? 224 then
      match continue_byte (b - 192) r with
      | Some (cp, r1) => if 128 <=? cp then Some (cp, r1) else None
      | None => None
      end
    else if b <? 240 then
      match continue_byte (b - 224) r with
      | Some (x, r1) =>
        match continue_byte x r1 with
        | Some (cp, r2) => if (2048 <=? cp) && negb (is_high cp) && negb (is_low cp) then Some (cp, r2) else None
        | None => None
        end
      | None => None
      end
    else if b <? 248 then
      match continue_byte (b - 240) r with
      | Some (x, r1) =>
        match continue_byte x r1 with
        | Some (y, r2) =>
          match continue_byte y r2 with
          | Some (cp, r3) => if (65536 <=? cp) && (cp <? 1114112) then Some (cp, r3) else None
          | None => None
          end
        | None => None
        end
      | None => None
      end
    else None
  end.

Fixpoint decode_uri (fuel : nat) (s : jstr) : option jstr :=
  match fuel with
  | O => None
  | S f =>
    match s with
    | [] => Some []
    | 37 :: _ =>
      match decode_escape s with
      | Some (cp, r) => app (utf16_of_code_point cp) <$> decode_uri f r
      | None => None
      end
    | c :: t => cons c <$> decode_uri f t
    end
  end.

(** decodeURIComponent(s); None where it throws. *)
Definition decodeURIComponent (s : jstr) : option jstr := decode_uri (S (length s)) s.

(** ** Lemmas *)

Lemma utf8_of_code_point_range cp : cp < 1114112 -> Forall (fun b => b < 256) (utf8_of_code_point cp).
Proof.
  intros H. unfold utf8_of_code_point.
  assert (M : forall x, x mod 64 < 64) by (intros; apply N.mod_lt; lia).
  assert (128 + cp mod 64 < 256) by (specialize (M cp); lia).
  assert (128 + cp / 64 mod 64 < 256) by (specialize (M (cp / 64)); lia).
  assert (128 + cp / 4096 mod 64 < 256) by (specialize (M (cp / 4096)); lia).
  destruct (N.ltb_spec cp 128); [repeat constructor; lia|].
  destruct (N.ltb_spec cp 2048).
  { assert (cp / 64 < 32) by (apply N.Div0.div_lt_upper_bound; lia). repeat constructor; lia. }
  destruct (N.ltb_spec cp 65536).
  { assert (cp / 4096 < 16) by (apply N.Div0.div_lt_upper_bound; lia). repeat constructor; lia. }
  assert (cp / 262144 < 5) by (apply N.Div0.div_lt_upper_bound; lia). repeat constructor; lia.
Qed.

(** A string of 16-bit units encodes to bytes. *)
Lemma utf8_encode_bytes s l :
  Forall (fun c => c < 65536) s -> utf8_encode s = Some l -> Forall (fun b => b < 256) l.
Proof.
  revert l; induction s as [s IH] using (induction_ltof1 _ (@length N)); unfold ltof in IH. intros l Hs.
  destruct s as [|c t]; simpl; [intros [= <-]; constructor|]. apply Forall_cons in Hs as [Hc Ht].
  destruct (is_high c) eqn:Eh.
  - destruct t as [|d t']; [done|]. destruct (is_low d) eqn:El; [|done].
    apply Forall_cons in Ht as [Hd Ht]. destruct (utf8_encode t') as [r|] eqn:Er; [|done]. simpl. intros [= <-].
    apply Forall_app. split; [|apply (IH t'); [simpl; lia|done|done]]. apply utf8_of_code_point_range.
    unfold is_high, is_low, in_range in Eh, El. rewrite andb_true_iff, !N.leb_le in Eh, El. lia.
  - destruct (is_low c); [done|]. destruct (utf8_encode t) as [r|] eqn:Er; [|done]. simpl. intros [= <-].
    apply Forall_app. split; [apply utf8_of_code_point_range; lia|]. apply (IH t); [simpl; lia|done|done].
Qed.


(** ** Percent encoding *)

(** What encodeURIComponent leaves alone. *)
Definition is_unreserved (b : N) : bool := is_alnum b || existsb (N.eqb b) [45; 95; 46; 33; 126; 42; 39; 40; 41].

Definition hex_digit_upper (d : N) : N := if d <? 10 then 48 + d else 55 + d.

Definition encode_byte (b : N) : jstr :=
  if is_unreserved b then [b] else [37; hex_digit_upper (b / 16); hex_digit_upper (b mod 16)].

(** encodeURIComponent(s); None where it throws. *)
Definition encodeURIComponent (s : jstr) : option jstr := (fun l => concat (map encode_byte l)) <$> utf8_encode s.

(** *** Lemmas *)

Lemma percent_encode b r : b < 256 -> percent_byte (37 :: hex_digit_upper (b / 16) :: hex_digit_upper (b mod 16) :: r) = Some (b, r).
Proof.
  intros H. assert (forall n, (n < 256)%nat ->
    hex_value (hex_digit_upper (N.of_nat n / 16)) = Some (N.of_nat n / 16)
    /\ hex_value (hex_digit_upper (N.of_nat n mod 16)) = Some (N.of_nat n mod 16)) as G.
  { intros n Hn. assert (forallb (fun n => bool_decide (hex_value (hex_digit_upper (N.of_nat n / 16)) = Some (N.of_nat n / 16))
      && bool_decide (hex_value (hex_digit_upper (N.of_nat n mod 16)) = Some (N.of_nat n mod 16))) (seq 0 256) = true) as F
      by (vm_compute; reflexivity).
    rewrite forallb_forall in F. specialize (F n). assert (In n (seq 0 256)) as Hin by (apply in_seq; lia).
    apply F in Hin. by bool_hyps. }
  specialize (G (N.to_nat b)). rewrite N2Nat.id in G. destruct G as [G1 G2]; [lia|].
  unfold percent_byte. rewrite G1, G2. pose proof (N.div_mod b 16 ltac:(lia)). do 2 f_equal. lia.
Qed.

Lemma unreserved_ascii b : is_unreserved b = true -> b < 128 /\ b <> 37.
Proof.
  unfold is_unreserved, is_alnum, is_digit, is_lower, is_upper, in_range. intros H.
  apply orb_true_iff in H as [H|H].
  - repeat (apply orb_true_iff in H as [H|H]); bool_hyps; lia.
  - apply existsb_exists in H as (x & Hx & ->%N.eqb_eq). repeat (destruct Hx as [<-|Hx]; [lia|]). done.
Qed.

Lemma encode_high b : 128 <= b -> encode_byte b = [37; hex_digit_upper (b / 16); hex_digit_upper (b mod 16)].
Proof. intros H. unfold encode_byte. destruct (is_unreserved b) eqn:E; [|done]. apply unreserved_ascii in E. lia. Qed.

Lemma percent_high b r : 128 <= b < 256 -> percent_byte (encode_byte b ++ r) = Some (b, r).
Proof. intros H. rewrite encode_high by lia. apply percent_encode. lia. Qed.

Lemma continue_encode acc x r : x < 64 -> continue_byte acc (encode_byte (128 + x) ++ r) = Some (acc * 64 + x, r).
Proof.
  intros H. unfold continue_byte. rewrite percent_high by lia. unfold is_continuation.
  destruct (N.leb_spec 128 (128 + x)); [|lia]. destruct (N.ltb_spec (128 + x) 192); [|lia]. simpl. do 2 f_equal. lia.
Qed.

(** A code point past ASCII is one escape. *)
Lemma decode_encode_high cp r : 128 <= cp < 1114112 -> is_high cp = false -> is_low cp = false ->
  decode_escape (concat (map encode_byte (utf8_of_code_point cp)) ++ r) = Some (cp, r).
Proof.
  intros H Hh Hl. unfold utf8_of_code_point. assert (M : forall x, x mod 64 < 64) by (intros; apply N.mod_lt; lia).
  pose proof (N.div_mod cp 64 ltac:(lia)). pose proof (N.div_mod (cp / 64) 64 ltac:(lia)) as D2.
  pose proof (N.div_mod (cp / 4096) 64 ltac:(lia)) as D3. rewrite N.Div0.div_div in D2, D3. change (64 * 64) with 4096 in D2.
  change (4096 * 64) with 262144 in D3. pose proof (M cp). pose proof (M (cp / 64)). pose proof (M (cp / 4096)).
  clear M. remember (cp mod 64) as m0. remember (cp / 64 mod 64) as m1. remember (cp / 4096 mod 64) as m2.
  remember (cp / 64) as q1. remember (cp / 4096) as q2. remember (cp / 262144) as q3. clear Heqm0 Heqm1 Heqm2 Heqq1 Heqq2 Heqq3.
  destruct (N.ltb_spec cp 128); [lia|]. unfold decode_escape.
  destruct (N.ltb_spec cp 2048); [|destruct (N.ltb_spec cp 65536)]; cbn [map concat]; rewrite ?app_nil_r, <- ?app_assoc.
  - rewrite percent_high by lia. destruct (N.ltb_spec (192 + q1) 128); [lia|].
    destruct (N.ltb_spec (192 + q1) 192); [lia|]. destruct (N.ltb_spec (192 + q1) 224); [|lia].
    rewrite continue_encode by lia. replace ((192 + q1 - 192) * 64 + m0) with cp by lia.
    by destruct (N.leb_spec 128 cp); [|lia].
  - rewrite percent_high by lia. destruct (N.ltb_spec (224 + q2) 128); [lia|].
    destruct (N.ltb_spec (224 + q2) 192); [lia|]. destruct (N.ltb_spec (224 + q2) 224); [lia|].
    destruct (N.ltb_spec (224 + q2) 240); [|lia]. rewrite !continue_encode by lia.
    replace (((224 + q2 - 224) * 64 + m1) * 64 + m0) with cp by lia.
    rewrite Hh, Hl. by destruct (N.leb_spec 2048 cp); [|lia].
  - rewrite percent_high by lia. destruct (N.ltb_spec (240 + q3) 128); [lia|].
    destruct (N.ltb_spec (240 + q3) 192); [lia|]. destruct (N.ltb_spec (240 + q3) 224); [lia|].
    destruct (N.ltb_spec (240 + q3) 240); [lia|]. destruct (N.ltb_spec (240 + q3) 248); [|lia].
    rewrite !continue_encode by lia.
    replace ((((240 + q3 - 240) * 64 + m2) * 64 + m1) * 64 + m0) with cp by lia.
    destruct (N.leb_spec 65536 cp); [|lia]. by destruct (N.ltb_spec cp 1114112); [|lia].
Qed.

Lemma encode_ascii_decode b r f : b < 128 -> decode_uri (S f) (encode_byte b ++ r) = cons b <$> decode_uri f r.
Proof.
  intros H. unfold encode_byte. destruct (is_unreserved b) eqn:E.
  - apply unreserved_ascii in E as [_ E]. cbn [app decode_uri].
    destruct b as [|p]; [done|]. repeat (destruct p as [p|p|]; try done).
  - cbn [app]. cbn [decode_uri]. unfold decode_escape. rewrite percent_encode by lia.
    destruct (N.ltb_spec b 128); [|lia]. unfold utf16_of_code_point. by destruct (N.ltb_spec b 65536); [|lia].
Qed.

Lemma decode_uri_escape cp r f : 128 <= cp < 1114112 -> is_high cp = false -> is_low cp = false ->
  decode_uri (S f) (concat (map encode_byte (utf8_of_code_point cp)) ++ r) = app (utf16_of_code_point cp) <$> decode_uri f r.
Proof.
  intros H Hh Hl. pose proof (decode_encode_high cp r H Hh Hl) as D.
  assert (exists t, concat (map encode_byte (utf8_of_code_point cp)) ++ r = 37 :: t) as [t Et].
  { unfold utf8_of_code_point. destruct (N.ltb_spec cp 128); [lia|].
    destruct (cp <? 2048); [|destruct (cp <? 65536)]; cbn [map concat];
      rewrite encode_high by (clear; generalize (cp / 64) (cp / 4096) (cp / 262144); intros; lia); by eexists. }
  rewrite Et in *. cbn [decode_uri]. by rewrite D.
Qed.

(** What is encoded decodes to itself. *)
Lemma decode_encode s : forall e f, Forall (fun c => c < 65536) s -> encodeURIComponent s = Some e -> (length e < f)%nat ->
  decode_uri f e = Some s.
Proof.
  unfold encodeURIComponent. induction s as [s IH] using (induction_ltof1 _ (@length N)); unfold ltof in IH.
  intros e f Hs. destruct s as [|c t]; simpl; [intros [= <-] Hf; by destruct f; [lia|]|].
  apply Forall_cons in Hs as [Hc Ht]. destruct (is_high c) eqn:Eh.
  - destruct t as [|d t']; [done|]. destruct (is_low d) eqn:El; [|done]. apply Forall_cons in Ht as [Hd Ht].
    destruct (utf8_encode t') as [l|] eqn:Er; [|done]. simpl. intros [= <-] Hf. rewrite map_app, concat_app in *.
    set (cp := (c - 55296) * 1024 + (d - 56320) + 65536) in *.
    unfold is_high, is_low, in_range in Eh, El. rewrite andb_true_iff, !N.leb_le in Eh, El.
    assert (128 <= cp < 1114112) as Hcp by (unfold cp; lia).
    assert (is_high cp = false /\ is_low cp = false) as [H1 H2].
    { unfold is_high, is_low, in_range. split; apply andb_false_iff; right; apply N.leb_gt; unfold cp; lia. }
    destruct f as [|f]; [lia|]. rewrite decode_uri_escape by done. rewrite length_app in Hf.
    rewrite (IH t' ltac:(simpl; lia) _ f Ht); [|by rewrite Er|].
    + simpl. unfold utf16_of_code_point. destruct (N.ltb_spec cp 65536); [unfold cp in *; lia|]. f_equal.
      assert (cp - 65536 = (c - 55296) * 1024 + (d - 56320)) as -> by (unfold cp; lia).
      rewrite N.div_add_l, N.div_small by lia. rewrite (N.add_comm (_ * 1024)), N.Div0.mod_add, N.mod_small by lia.
      simpl. f_equal; [lia|f_equal; lia].
    + destruct (concat (map encode_byte (utf8_of_code_point cp))) eqn:En; [|simpl in Hf; lia]. exfalso.
      pose proof (decode_encode_high cp [] Hcp H1 H2) as D. by rewrite En in D.
  - destruct (is_low c) eqn:El; [done|]. destruct (utf8_encode t) as [l|] eqn:Er; [|done]. simpl. intros [= <-] Hf.
    rewrite map_app, concat_app in *. destruct f as [|f]; [lia|]. rewrite length_app in Hf.
    assert (decode_uri f (concat (map encode_byte l)) = Some t) as Hrest.
    { apply (IH t ltac:(simpl; lia)); [done|by rewrite Er|].
      assert (concat (map encode_byte (utf8_of_code_point c)) <> []) as Hne.
      { intros E0. assert (forall b l, encode_byte b ++ l <> []) as Hb by (intros b l0; unfold encode_byte; by destruct (is_unreserved b)).
        revert E0. unfold utf8_of_code_point. destruct (c <? 128); [|destruct (c <? 2048); [|destruct (c <? 65536)]]; apply Hb. }
      destruct (concat (map encode_byte (utf8_of_code_point c))); [done|simpl in Hf; lia]. }
    destruct (N.lt_ge_cases c 128) as [L|L].
    + unfold utf8_of_code_point. destruct (N.ltb_spec c 128); [|lia]. cbn [map concat]. rewrite app_nil_r.
      rewrite encode_ascii_decode by done. by rewrite Hrest.
    + rewrite decode_uri_escape by (done || lia). rewrite Hrest. unfold utf16_of_code_point.
      by destruct (N.ltb_spec c 65536); [|lia].
Qed.

Lemma decodeURIComponent_encode s e : Forall (fun c => c < 65536) s -> encodeURIComponent s = Some e -> decodeURIComponent e = Some s.
Proof. intros Hs He. apply (decode_encode s e); [done|done|lia]. Qed.

(** An encoded component holds no ampersand: it cannot start another parameter. *)
Lemma encode_no_ampersand s e : encodeURIComponent s = Some e -> 38 ∉ e.
Proof.
  unfold encodeURIComponent. intros (l & _ & ->)%fmap_Some H.
  apply list_elem_of_In, in_concat in H as (w & (b & <- & _)%in_map_iff & Hin). apply list_elem_of_In in Hin.
  unfold encode_byte in Hin. destruct (is_unreserved b) eqn:E.
  - apply list_elem_of_singleton in Hin as <-. by vm_compute in E.
  - assert (forall d, hex_digit_upper d <> 38) as G by (intros d; unfold hex_digit_upper; destruct (N.ltb_spec d 10); lia).
    pose proof (G (b / 16)). pose proof (G (b mod 16)). rewrite !elem_of_cons, elem_of_nil in Hin. intuition congruence.
Qed.

(** ** Texts with an encoding *)

Definition encodes (s : jstr) : Prop := is_Some (utf8_encode s).

Lemma utf8_app a b x y : utf8_encode a = Some x -> utf8_encode b = Some y -> utf8_encode (a ++ b) = Some (x ++ y).
Proof.
  revert x; induction a as [a IH] using (induction_ltof1 _ (@length N)); unfold ltof in IH. intros x Ha Hb.
  destruct a as [|c t]; [by injection Ha as <-|]. cbn [utf8_encode app] in *. destruct (is_high c).
  - destruct t as [|d t']; [done|]. cbn [app]. destruct (is_low d); [|done]. apply fmap_Some in Ha as (r & Hr & ->).
    rewrite (IH t' ltac:(simpl; lia) r Hr Hb). cbn [fmap option_fmap option_map]. by rewrite app_assoc.
  - destruct (is_low c); [done|]. apply fmap_Some in Ha as (r & Hr & ->).
    rewrite (IH t ltac:(simpl; lia) r Hr Hb). cbn [fmap option_fmap option_map]. by rewrite app_assoc.
Qed.

Lemma encodes_app a b : encodes a -> encodes b -> encodes (a ++ b).
Proof. intros [x Ha] [y Hb]. exists (x ++ y). by apply utf8_app. Qed.

Lemma encodes_unit c : is_high c = false -> is_low c = false -> encodes [c].
Proof. intros H1 H2. unfold encodes. simpl. by rewrite H1, H2. Qed.

Lemma ascii_unit c : c < 128 -> is_high c = false /\ is_low c = false.
Proof. intros H. unfold is_high, is_low, in_range. split; apply andb_false_iff; left; apply N.leb_gt; lia. Qed.

Lemma encodes_ascii s : Forall (fun c => c < 128) s -> encodes s.
Proof.
  induction 1 as [|c s Hc Hs IH]; [by eexists|]. destruct (ascii_unit c Hc) as [H1 H2].
  apply (encodes_app [c] s); [by apply encodes_unit|done].
Qed.

Lemma hex_ascii s : Forall (fun c => is_hex_lower c = true) s -> Forall (fun c => c < 128) s.
Proof.
  intros H. eapply Forall_impl; [exact H|]. intros c. unfold is_hex_lower, is_digit, in_range.
  rewrite orb_true_iff, !andb_true_iff, !N.leb_le. lia.
Qed.

Lemma digits_encode radix n : 0 < radix <= 16 -> encodes (digits radix n).
Proof. intros H. by apply encodes_ascii, hex_ascii, digits_hex. Qed.

Lemma dec_Z_encodes z : encodes (dec_Z z).
Proof.
  destruct z as [|p|p]; [by eexists|by apply digits_encode|].
  apply (encodes_app [45] (dec (N.pos p))); [by apply encodes_unit|by apply digits_encode].
Qed.

Lemma hex_escape_encodes c : encodes ([92; 117] ++ hex4 c).
Proof.
  apply encodes_app; [by eexists|]. unfold hex4, pad_left. apply encodes_app; [|by apply digits_encode].
  apply encodes_ascii. apply Forall_replicate. lia.
Qed.

Lemma escape_unit_encodes c : is_high c = false -> is_low c = false -> encodes (escape_unit c).
Proof.
  intros H1 H2. unfold escape_unit. assert (encodes (if c <? 32 then [92; 117] ++ hex4 c else [c])) as D.
  { destruct (c <? 32); [apply hex_escape_encodes|by apply encodes_unit]. }
  repeat (match goal with |- context [match ?x with _ => _ end] => is_var x; destruct x end; auto); by eexists.
Qed.

Lemma quote_body_encodes s : encodes (quote_body s).
Proof.
  induction s as [s IH] using (induction_ltof1 _ (@length N)); unfold ltof in IH.
  destruct s as [|c t]; [by eexists|]. cbn [quote_body]. pose proof (hex_escape_encodes c) as Hc.
  assert (encodes (quote_body t)) as Ht by (apply IH; simpl; lia).
  destruct (is_high c) eqn:Eh.
  - destruct t as [|d t']; [by apply encodes_app|]. destruct (is_low d) eqn:Ed; [|by apply encodes_app].
    apply (encodes_app [c; d]); [unfold encodes; simpl; by rewrite Eh, Ed|apply IH; simpl; lia].
  - destruct (is_low c) eqn:El; [by apply encodes_app|]. apply encodes_app; [by apply escape_unit_encodes|done].
Qed.

Lemma quote_encodes s : encodes (quote s).
Proof.
  unfold quote. apply (encodes_app [34]); [by eexists|]. apply encodes_app; [apply quote_body_encodes|by eexists].
Qed.

Lemma join_encodes sep l : encodes sep -> Forall encodes l -> encodes (join sep l).
Proof.
  intros Hs. induction 1 as [|x [|y t] Hx Ht IH]; [by eexists|done|]. cbn [join] in *. by repeat apply encodes_app.
Qed.

(** JSON.stringify escapes lone surrogates: its text always has UTF-8 bytes. *)
Lemma text_encodes v : plain v -> encodes (text v).
Proof.
  assert (C : encodes (u ",")) by (rewrite u_comma; by eexists).
  assert (W : forall a b l, encodes [a] -> encodes [b] -> encodes l -> encodes (a :: l ++ [b])).
  { intros a b l Ha Hb Hl. apply (encodes_app [a]); [done|]. by apply encodes_app. }
  induction 1 as [|b|z Hz|s|l Hp IH|o Hc Hp IH] using plain_rect'.
  - cbn [text]. rewrite u_null. by eexists.
  - destruct b; cbn [text]; rewrite ?u_true, ?u_false; by eexists.
  - unfold jz. cbn [text]. change (is_finite (numz z)) with true. rewrite num_str_int. apply dec_Z_encodes.
  - apply quote_encodes.
  - cbn [text]. apply W; [by eexists..|]. apply join_encodes; [done|]. by apply Forall_map.
  - cbn [text]. rewrite members_text by done. apply W; [by eexists..|]. apply join_encodes; [done|].
    apply Forall_map. eapply Forall_impl; [exact IH|]. intros [k w] H. apply (encodes_app (quote k) (58 :: text w)).
    + apply quote_encodes.
    + apply (encodes_app [58]); [by eexists|exact H].
Qed.

(** A text without control characters has bytes without them. *)
Lemma encode_one_line s l : one_line s -> utf8_encode s = Some l -> Forall (fun b => 32 <= b) l.
Proof.
  assert (U : forall cp, 32 <= cp -> Forall (fun b => 32 <= b) (utf8_of_code_point cp)).
  { intros cp Hcp. unfold utf8_of_code_point.
    destruct (N.ltb_spec cp 128); [by repeat constructor|].
    destruct (cp <? 2048); [|destruct (cp <? 65536)]; clear; generalize (cp / 64) (cp mod 64) (cp / 64 mod 64)
      (cp / 4096) (cp / 4096 mod 64) (cp / 262144); intros; repeat constructor; lia. }
  revert l; induction s as [s IH] using (induction_ltof1 _ (@length N)); unfold ltof in IH. intros l Hs.
  destruct s as [|c t]; [intros [= <-]; constructor|]. cbn [utf8_encode]. apply Forall_cons in Hs as [Hc Ht].
  destruct (is_high c) eqn:Eh.
  - destruct t as [|d t']; [done|]. destruct (is_low d); [|done]. apply Forall_cons in Ht as [_ Ht].
    intros (r & Hr & ->)%fmap_Some. apply Forall_app. split; [apply U|by apply (IH t'); [simpl; lia|..]].
    unfold is_high, in_range in Eh. lia.
  - destruct (is_low c); [done|]. intros (r & Hr & ->)%fmap_Some. apply Forall_app. split; [by apply U|by apply (IH t); [simpl; lia|..]].
Qed.

Lemma utf8_encode_nil s : utf8_encode s = Some [] -> s = [].
Proof.
  destruct s as [|c t]; [done|]. cbn [utf8_encode]. assert (forall cp x, utf8_of_code_point cp ++ x <> []) as Hc.
  { intros cp x. unfold utf8_of_code_point. by repeat destruct (_ <? _). }
  destruct (is_high c); [destruct t; [done|]; destruct (is_low _); [|done]|destruct (is_low c); [done|]];
    intros (x & _ & E)%fmap_Some; symmetry in E; by apply Hc in E.
Qed.
