(* ===== verification/Regex.v ===== *)
(** * Regular expressions

    The language's regular expressions, as far as the source uses them: a
    syntax and a backtracking matcher with the same priorities (alternatives
    left to right, greedy repetition, an iteration that consumes nothing ends
    the loop), and [test], [exec] and [replace] on top of it. Repetition is
    bounded by the length of what is left, so matching always ends. *)

From stdpp Require Import base list numbers strings.
From S2P Require Import Prelude.
From S2P Require Import JsValue.
Local Open Scope nat_scope.

(** ** Syntax *)

Inductive regex :=
| REps
| RChar (p : N -> bool)          (** one unit of a class *)
| RSeq (r1 r2 : regex)
| RAlt (r1 r2 : regex)
| RStar (r : regex)              (** greedy *)
| RGroup (r : regex)             (** the capturing group, one per expression *)
| RStart                         (** [^] *)
| REnd                           (** [$] *)
| RBoundary                      (** [\b] *)
| RAhead (q : option N -> bool). (** a lookahead at the next unit, None at the end *)

Definition is_word_unit (c : N) : bool := is_alnum c || (c =? 95)%N.

(** Where the matcher is: the unit before, what is left, and the group. *)
Record position := mkPos { before : option N; rest : jstr; group : option jstr }.

Definition at_boundary (p : position) : bool :=
  let w o := match o with Some c => is_word_unit c | None => false end in
  xorb (w (before p)) (w (head (rest p))).

(** ** Matching *)

(** [k] is what has to match next; the result is the position at the end. *)
Fixpoint rmatch (r : regex) (p : position) (k : position -> option position) {struct r} : option position :=
  match r with
  | REps => k p
  | RChar q =>
    match rest p with
    | c :: t => if q c then k (mkPos (Some c) t (group p)) else None
    | [] => None
    end
  | RSeq r1 r2 => rmatch r1 p (fun p1 => rmatch r2 p1 k)
  | RAlt r1 r2 => match rmatch r1 p k with Some e => Some e | None => rmatch r2 p k end
  | RStar r1 =>
    (fix loop (n : nat) (p : position) {struct n} : option position :=
       match n with
       | O => k p
       | S n' =>
         match rmatch r1 p (fun p1 => if (length (rest p1) <? length (rest p)) then loop n' p1 else None) with
         | Some e => Some e
         | None => k p
         end
       end) (length (rest p)) p
  | RGroup r1 =>
    rmatch r1 p (fun p1 =>
      k (mkPos (before p1) (rest p1) (Some (take (length (rest p) - length (rest p1)) (rest p)))))
  | RStart => match before p with None => k p | Some _ => None end
  | REnd => match rest p with [] => k p | _ => None end
  | RBoundary => if at_boundary p then k p else None
  | RAhead q => if q (head (rest p)) then k p else None
  end.

(** A match: the text before it, its text, what follows and the group. *)
Record rmatch_result := mkMatch { m_index : nat; m_text : jstr; m_after : jstr; m_group : option jstr }.

(** The leftmost match of [r] in [s], from the position after [prev]. *)
Fixpoint search (r : regex) (prev : option N) (s : jstr) (index : nat) : option rmatch_result :=
  match rmatch r (mkPos prev s None) Some with
  | Some e => Some (mkMatch index (take (length s - length (rest e)) s) (rest e) (group e))
  | None => match s with
            | [] => None
            | c :: t => search r (Some c) t (S index)
            end
  end.

Definition exec (r : regex) (s : jstr) : option rmatch_result := search r None s 0.
Definition test (r : regex) (s : jstr) : bool := match exec r s with Some _ => true | None => false end.

(** replace() without the g flag. *)
Definition replace_first (r : regex) (by_ : jstr) (s : jstr) : jstr :=
  match exec r s with
  | Some m => take (m_index m) s ++ by_ ++ m_after m
  | None => s
  end.

(** The pieces of [s] between the matches of [r], an expression that matches no
    empty text: each match shortens what is left, so the length bounds them. *)
Fixpoint pieces (fuel : nat) (r : regex) (prev : option N) (s : jstr) : list jstr :=
  match fuel with
  | O => [s]
  | S f => match search r prev s 0 with
           | Some m => take (m_index m) s :: pieces f r (last (m_text m)) (m_after m)
           | None => [s]
           end
  end.

(** split() on an expression, and replace() with the g flag. *)
Definition split_re (r : regex) (s : jstr) : list jstr := pieces (length s) r None s.
Definition replace_all (r : regex) (by_ : jstr) (s : jstr) : jstr := join by_ (split_re r s).

(** ** Notations for the expressions of the source *)

Definition RLit (s : jstr) : regex := fold_right (fun c r => RSeq (RChar (N.eqb c)) r) REps s.

(** With the i flag: units compare after upper-casing. *)
Definition fold_eq (c d : N) : bool := (upper_unit c =? upper_unit d)%N.
Definition RLitI (s : jstr) : regex := fold_right (fun c r => RSeq (RChar (fold_eq c)) r) REps s.

Definition ROpt (r : regex) : regex := RAlt r REps.
Definition RPlus (r : regex) : regex := RSeq r (RStar r).
Definition RAlts (rs : list regex) : regex :=
  match rs with
  | [] => RChar (fun _ => false)
  | r :: rs' => fold_left RAlt rs' r
  end.
Definition RSeqs (rs : list regex) : regex := fold_right RSeq REps rs.
Fixpoint RRep (n : nat) (r : regex) : regex := match n with O => REps | S n' => RSeq r (RRep n' r) end.
(** [r{m,n}] as [r{m}] and up to [n - m] optional ones. *)
Fixpoint RUpTo (n : nat) (r : regex) : regex := match n with O => REps | S n' => ROpt (RSeq r (RUpTo n' r)) end.

Definition one_of (s : jstr) (c : N) : bool := existsb (N.eqb c) s.
Definition not_of (p : N -> bool) (c : N) : bool := negb (p c).
Definition RSpace : regex := RChar is_space.
Definition RSpaces : regex := RStar RSpace.
Definition RDigit : regex := RChar is_digit.

(** ** Expressions built from text

    [new RegExp] on a text in which every syntax character is escaped: the
    text it matches literally. None when the pattern is not of that kind. *)
Definition is_syntax_unit : N -> bool := one_of (u ".*+?^${}()|[]\").

Fixpoint literal_pattern (pattern : jstr) : option jstr :=
  match pattern with
  | [] => Some []
  | c :: t =>
    if (c =? 92)%N
    then match t with
         | d :: t' => if is_syntax_unit d || (d =? 45)%N then cons d <$> literal_pattern t' else None
         | [] => None
         end
    else if is_syntax_unit c then None else cons c <$> literal_pattern t
  end.

(** ** Lemmas *)

(** What a match leaves is a suffix of what it was given. *)
Definition suffix_of (p e : position) : Prop := exists t, rest p = t ++ rest e.

Lemma suffix_refl p : suffix_of p p.
Proof. by exists []. Qed.
Lemma suffix_trans p q e : suffix_of p q -> suffix_of q e -> suffix_of p e.
Proof. intros [a Ha] [b Hb]. exists (a ++ b). by rewrite <- app_assoc, <- Hb. Qed.

(** The continuation is called at a position the match reached. *)
Lemma rmatch_suffix r : forall p k e, rmatch r p k = Some e -> exists q, suffix_of p q /\ k q = Some e.
Proof.
  induction r as [|q|r1 IH1 r2 IH2|r1 IH1 r2 IH2|r IH|r IH| | | |q]; intros p k e; cbn [rmatch].
  - intros H. exists p. split; [apply suffix_refl|done].
  - destruct (rest p) as [|c t] eqn:E; [done|]. destruct (q c); [|done]. intros H.
    eexists. split; [|exact H]. exists [c]. by rewrite E.
  - intros H. apply IH1 in H as (q & Hq & H). apply IH2 in H as (q' & Hq' & H). exists q'. split; [|done].
    by eapply suffix_trans.
  - destruct (rmatch r1 p k) eqn:E; [intros [= <-]; by apply IH1|apply IH2].
  - generalize (length (rest p)) as n. intros n. revert p. induction n as [|n IHn]; intros p; [intros H; exists p; split; [apply suffix_refl|done]|].
    destruct (rmatch r p _) eqn:E.
    + intros [= <-]. apply IH in E as (q & Hq & E). destruct (length (rest q) <? length (rest p)); [|done].
      apply IHn in E as (q' & Hq' & E). exists q'. split; [by eapply suffix_trans|done].
    + intros H. exists p. split; [apply suffix_refl|done].
  - intros H. apply IH in H as (q & Hq & H). eexists. split; [|exact H]. done.
  - destruct (before p); [done|]. intros H. exists p. split; [apply suffix_refl|done].
  - destruct (rest p) eqn:E; [|done]. intros H. exists p. split; [apply suffix_refl|done].
  - destruct (at_boundary p); [|done]. intros H. exists p. split; [apply suffix_refl|done].
  - destruct (q (head (rest p))); [|done]. intros H. exists p. split; [apply suffix_refl|done].
Qed.

(** A match is a factor of the text, at its index. *)
Lemma search_spec r prev s i m : search r prev s i = Some m ->
  exists a, s = a ++ m_text m ++ m_after m /\ m_index m = i + length a.
Proof.
  revert prev i; induction s as [|c s IH]; intros prev i; cbn [search].
  - destruct (rmatch r _ _) as [e|] eqn:E; [|done]. intros [= <-].
    apply rmatch_suffix in E as (q & [t Ht] & [= ->]). cbn [rest m_text m_after m_index] in *. exists [].
    symmetry in Ht. apply app_eq_nil in Ht as [_ ->]. split; [done|simpl; lia].
  - destruct (rmatch r _ _) as [e|] eqn:E.
    + intros [= <-]. clear IH. apply rmatch_suffix in E as (q & [t Ht] & [= ->]).
      cbn [rest m_text m_after m_index] in *. exists []. pose proof (f_equal length Ht) as L.
      rewrite length_app in L. rewrite Ht. simpl in L. rewrite L, Nat.add_sub, take_app_length. split; [done|simpl; lia].
    + intros H. destruct (IH _ _ H) as (a & E1 & E2). exists (c :: a). simpl. rewrite <- E1. split; [done|lia].
Qed.

(** Replacing by nothing never makes a text longer. *)
Lemma length_replace_nothing r s : length (replace_first r [] s) <= length s.
Proof.
  unfold replace_first. destruct (exec r s) as [m|] eqn:E; [|done].
  apply search_spec in E as (a & E1 & E2). rewrite length_app, length_take. rewrite E1 at 2. rewrite !length_app. simpl. lia.
Qed.

(** Every piece of a split is a factor of the text. *)
Definition factor_of (x s : jstr) : Prop := exists a b, s = a ++ x ++ b.

Lemma pieces_factor fuel r prev s x : x ∈ pieces fuel r prev s -> factor_of x s.
Proof.
  revert prev s; induction fuel as [|f IH]; intros prev s; cbn [pieces].
  { intros ->%list_elem_of_singleton. exists [], []. by rewrite app_nil_r. }
  destruct (search r prev s 0) as [m|] eqn:E.
  - apply search_spec in E as (a & E1 & E2). intros [->|H]%elem_of_cons.
    + exists [], (drop (m_index m) s). by rewrite app_nil_l, take_drop.
    + apply IH in H as (b & c & E3). rewrite E1, E3.
      exists (a ++ m_text m ++ b), c. by rewrite <- !app_assoc.
  - intros ->%list_elem_of_singleton. exists [], []. by rewrite app_nil_r.
Qed.

Lemma split_re_factor r s x : x ∈ split_re r s -> factor_of x s.
Proof. apply pieces_factor. Qed.

(** An expression that ends in [$] matches up to the end, and so does removing it
    leave the text before it. *)
Lemma rmatch_end p e : rmatch (RSeq REnd REps) p Some = Some e -> rest e = [].
Proof. cbn [rmatch]. destruct (rest p) eqn:E; [|done]. by intros [= <-]. Qed.

Lemma search_anchored r prev s i m :
  (forall p e, rmatch r p Some = Some e -> rest e = []) -> search r prev s i = Some m -> m_after m = [].
Proof.
  intros H. revert prev i; induction s as [|c s IH]; intros prev i; cbn [search].
  - destruct (rmatch r _ _) as [e|] eqn:E; [|done]. intros [= <-]. apply (H _ _ E).
  - destruct (rmatch r _ _) as [e|] eqn:E; [intros [= <-]; apply (H _ _ E)|]. apply IH.
Qed.

Lemma replace_anchored r s : (forall p e, rmatch r p Some = Some e -> rest e = []) ->
  exists t, s = replace_first r [] s ++ t.
Proof.
  intros H. unfold replace_first, exec. destruct (search r None s 0) as [m|] eqn:E; [|by exists []; rewrite app_nil_r].
  pose proof (search_anchored _ _ _ _ _ H E) as Ha. apply search_spec in E as (a & E1 & E2).
  rewrite Ha in *. exists (m_text m). rewrite E1, E2. simpl. rewrite !app_nil_r. by rewrite take_app_length.
Qed.

Lemma factor_refl s : factor_of s s.
Proof. exists [], []. by rewrite app_nil_r. Qed.
Lemma factor_trans x y z : factor_of x y -> factor_of y z -> factor_of x z.
Proof. intros (a & b & ->) (c & d & ->). exists (c ++ a), (b ++ d). by rewrite <- !app_assoc. Qed.
Lemma factor_prefix x t : factor_of x (x ++ t).
Proof. by exists [], t. Qed.

(** ** What a match means

    [lang r p e]: the expression matches the text from [p] up to [e]. The
    matcher finds only such matches. *)
Inductive lang : regex -> position -> position -> Prop :=
| lang_eps p : lang REps p p
| lang_char q c t b g : q c = true -> lang (RChar q) (mkPos b (c :: t) g) (mkPos (Some c) t g)
| lang_seq r1 r2 p m e : lang r1 p m -> lang r2 m e -> lang (RSeq r1 r2) p e
| lang_alt_l r1 r2 p e : lang r1 p e -> lang (RAlt r1 r2) p e
| lang_alt_r r1 r2 p e : lang r2 p e -> lang (RAlt r1 r2) p e
| lang_star_nil r p : lang (RStar r) p p
| lang_star_cons r p m e : lang r p m -> lang (RStar r) m e -> lang (RStar r) p e
| lang_group r p m : lang r p m ->
    lang (RGroup r) p (mkPos (before m) (rest m) (Some (take (length (rest p) - length (rest m)) (rest p))))
| lang_start p : before p = None -> lang RStart p p
| lang_end p : rest p = [] -> lang REnd p p
| lang_boundary p : at_boundary p = true -> lang RBoundary p p
| lang_ahead q p : q (head (rest p)) = true -> lang (RAhead q) p p.
#[export] Hint Constructors lang : qsbw.

Lemma rmatch_lang r : forall p k e, rmatch r p k = Some e -> exists q, lang r p q /\ k q = Some e.
Proof.
  induction r as [|q|r1 IH1 r2 IH2|r1 IH1 r2 IH2|r IH|r IH| | | |q]; intros p k e; cbn [rmatch].
  - eauto with qsbw.
  - destruct p as [b s g]. simpl. destruct s as [|c t]; [done|]. destruct (q c) eqn:E; [|done]. eauto with qsbw.
  - intros (m & H1 & (x & H2 & Hk)%IH2)%IH1. eauto with qsbw.
  - destruct (rmatch r1 p k) as [x|] eqn:E.
    + intros [= <-]. apply IH1 in E as (x' & ? & ?). eauto with qsbw.
    + intros (x & ? & ?)%IH2. eauto with qsbw.
  - generalize (length (rest p)) as n. intros n. revert p. induction n as [|n IHn]; intros p; [eauto with qsbw|].
    destruct (rmatch r p _) eqn:E; [|eauto with qsbw]. intros [= <-].
    apply IH in E as (m & Hm & E). destruct (_ <? _); [|done]. apply IHn in E as (x & ? & ?). eauto with qsbw.
  - intros (m & Hm & Hk)%IH. eauto with qsbw.
  - destruct (before p) eqn:E; [done|]. eauto with qsbw.
  - destruct (rest p) eqn:E; [|done]. eauto with qsbw.
  - destruct (at_boundary p) eqn:E; [|done]. eauto with qsbw.
  - destruct (q (head (rest p))) eqn:E; [|done]. eauto with qsbw.
Qed.

(** [spells r t]: [r] matches exactly the text [t], wherever it stands. *)
Definition spells (r : regex) (t : jstr) : Prop := exists p e, lang r p e /\ rest p = t ++ rest e.

Lemma lang_suffix r p e : lang r p e -> suffix_of p e.
Proof.
  induction 1; try apply suffix_refl; try (eapply suffix_trans; eassumption); try done.
  by exists [c].
Qed.

Lemma lang_text r p e : lang r p e -> exists t, rest p = t ++ rest e /\ spells r t.
Proof. intros H. destruct (lang_suffix _ _ _ H) as [t Ht]. exists t. split; [done|]. by exists p, e. Qed.

(** Reading the text off an expression. *)
Lemma spells_seq r1 r2 t : spells (RSeq r1 r2) t -> exists a b, t = a ++ b /\ spells r1 a /\ spells r2 b.
Proof.
  intros (p & e & H & E). inversion H as [| |? ? ? m ? H1 H2| | | | | | | | |]; subst.
  destruct (lang_suffix _ _ _ H1) as [a Ha], (lang_suffix _ _ _ H2) as [b Hb]. exists a, b. split_and!.
  - rewrite Ha, Hb, app_assoc in E. by apply app_inv_tail in E.
  - by exists p, m.
  - by exists m, e.
Qed.

Lemma spells_eps t : spells REps t -> t = [].
Proof. intros (p & e & H & E). inversion H; subst. by apply (app_inv_tail (rest e) t []). Qed.

Lemma spells_char q t : spells (RChar q) t -> exists c, t = [c] /\ q c = true.
Proof.
  intros (p & e & H & E). inversion H; subst. simpl in E. exists c. split; [|done].
  by apply (app_inv_tail t0 t [c]).
Qed.

Lemma spells_alt r1 r2 t : spells (RAlt r1 r2) t -> spells r1 t \/ spells r2 t.
Proof. intros (p & e & H & E). inversion H; subst; [left|right]; by exists p, e. Qed.

Lemma spells_star r t (P : jstr -> Prop) : P [] -> (forall a b, spells r a -> P b -> P (a ++ b)) -> spells (RStar r) t -> P t.
Proof.
  intros P0 Pc (p & e & H & E). revert t E. remember (RStar r) as s eqn:Es. induction H; try done; injection Es as ->; intros t E.
  - by rewrite (app_inv_tail (rest p) t []).
  - destruct (lang_suffix _ _ _ H) as [a Ha], (lang_suffix _ _ _ H0) as [b Hb].
    rewrite Ha, Hb, app_assoc in E. apply app_inv_tail in E as <-. apply Pc; [by exists p, m|by apply IHlang2].
Qed.

Lemma spells_star_units q t : spells (RStar (RChar q)) t -> forallb q t = true.
Proof. apply (spells_star (RChar q) t (fun t => forallb q t = true)); [done|]. intros a b (c & -> & Hc)%spells_char Hb. simpl. by rewrite Hc. Qed.

Lemma spells_lit s t : spells (RLit s) t -> t = s.
Proof.
  revert t; induction s as [|c s IH]; intros t; simpl; [apply spells_eps|].
  intros (a & b & -> & (d & -> & ->%N.eqb_eq)%spells_char & ->%IH)%spells_seq. done.
Qed.

Lemma spells_litI s t : spells (RLitI s) t -> map upper_unit t = map upper_unit s.
Proof.
  revert t; induction s as [|c s IH]; intros t; simpl; [by intros ->%spells_eps|].
  intros (a & b & -> & (d & -> & Hd%N.eqb_eq)%spells_char & Hb%IH)%spells_seq. simpl. by rewrite Hb, Hd.
Qed.

(** An expression that starts with [^] is tried at the start only. *)
Lemma search_start r prev s i m : search (RSeq RStart r) prev s i = Some m ->
  exists e, lang r (mkPos prev s None) e /\ prev = None.
Proof.
  assert (forall d s i, search (RSeq RStart r) (Some d) s i = None) as Hno.
  { clear. intros d s. revert d. induction s as [|c s IH]; intros d i; cbn [search]; cbn; [done|apply IH]. }
  assert (forall e, rmatch (RSeq RStart r) (mkPos prev s None) Some = Some e ->
    exists e, lang r (mkPos prev s None) e /\ prev = None) as Hyes.
  { intros e (q & H & _)%rmatch_lang. inversion H as [| |? ? ? x ? H1 H2| | | | | | | | |]; subst.
    inversion H1; subst. eauto. }
  destruct s as [|c s]; cbn [search]; (destruct (rmatch _ _ _) as [e|]; [intros _; by eapply Hyes|]); [done|].
  by rewrite Hno.
Qed.

Lemma test_start r s : test (RSeq RStart r) s = true -> exists e, lang r (mkPos None s None) e.
Proof.
  unfold test, exec. destruct (search _ None s 0) as [m|] eqn:E; [|done]. intros _.
  apply search_start in E as (e & H & _). by exists e.
Qed.

(** An anchored test spells the whole text. *)
Lemma test_whole r s : test (RSeqs [RStart; r; REnd]) s = true -> spells r s.
Proof.
  intros (e & H)%test_start. cbn [fold_right] in H.
  inversion H as [| |? ? ? m ? H3 H4| | | | | | | | |]; subst.
  inversion H4 as [| |? ? ? m3 ? H5 H6| | | | | | | | |]; subst. inversion H5; subst.
  eexists _, m3. split; [exact H3|]. match goal with H : rest m3 = [] |- _ => rewrite H end. by rewrite app_nil_r.
Qed.

(** A test anchored at the start spells a prefix. *)
Lemma test_prefix r s : test (RSeq RStart r) s = true -> exists a b, s = a ++ b /\ spells r a.
Proof. intros (e & H)%test_start. destruct (lang_text _ _ _ H) as (t & Ht & Hs). by exists t, (rest e). Qed.

(** The text of a match is one the expression spells. *)
Lemma rmatch_spells r prev s e : rmatch r (mkPos prev s None) Some = Some e ->
  spells r (take (length s - length (rest e)) s).
Proof.
  intros (q & H & [= ->])%rmatch_lang. destruct (lang_text _ _ _ H) as (t & Ht & Hs). simpl in Ht.
  rewrite Ht, length_app, Nat.add_sub, take_app_length. done.
Qed.

Lemma search_spells r prev s i m : search r prev s i = Some m -> spells r (m_text m).
Proof.
  revert prev i; induction s as [|c s IH]; intros prev i; cbn [search].
  - destruct (rmatch r _ _) as [e|] eqn:E; [|done]. intros [= <-]. by apply rmatch_spells in E.
  - destruct (rmatch r _ _) as [e|] eqn:E; [|apply IH]. intros [= <-]. by apply rmatch_spells in E.
Qed.

(** Removing an anchored match splits the text. *)
Lemma remove_end r s : (forall p e, rmatch r p Some = Some e -> rest e = []) ->
  exists t, s = replace_first r [] s ++ t /\ (t = [] \/ spells r t).
Proof.
  intros H. unfold replace_first, exec. destruct (search r None s 0) as [m|] eqn:E; [|exists []; rewrite app_nil_r; auto].
  pose proof (search_anchored _ _ _ _ _ H E) as Ha. pose proof (search_spells _ _ _ _ _ E).
  apply search_spec in E as (a & E1 & E2). rewrite Ha in *. exists (m_text m). split; [|by right].
  rewrite E1, E2. simpl. rewrite !app_nil_r. by rewrite take_app_length.
Qed.
