(* ===== verification/Shell.v ===== *)
(** * Shell commands

    The quoting and the wrapping of the commands the panel runs
    ([src/BitwardenModel.js]: shellQuote, cappedScript, buildCappedCommand, the
    caps and environment names, bwNodeOptions). [Posix] states how a POSIX shell
    splits a simple command into words, as far as quoting is concerned; [Script]
    how it reads the quoting of a whole script, and when the values a script is
    built around cannot change what the shell does. *)

From stdpp Require Import base list numbers strings.
From S2P Require Import Prelude.
From S2P Require Import JsValue.
From S2P Require Import Regex.
Local Open Scope nat_scope.

(** ** Quoting *)

Definition quote_unit (c : N) : jstr := if (c =? 39)%N then [39; 92; 39; 39]%N else [c].

Definition shellQuote (value : jsval) : jstr := 39%N :: concat (map quote_unit (text_or_empty value)) ++ [39%N].

(** ** Environment and caps *)

Definition SESSION_ENV : jstr := u "BW_SESSION".
Definition MAX_TOKEN_BYTES : Z := 4096.
Definition MAX_STATUS_BYTES : Z := 64 * 1024.
Definition MAX_STDERR_BYTES : Z := 8192.
Definition MAX_MISC_BYTES : Z := 64 * 1024.

Definition MAX_ITEMS_BYTES : Z := 16 * 1024 * 1024.
Definition MAX_DETAIL_BYTES : Z := 4 * 1024 * 1024.
Definition MAX_SENDS_BYTES : Z := 8 * 1024 * 1024.
Definition MAX_COLLECTIONS_BYTES : Z := 2 * 1024 * 1024.
Definition MAX_FOLDERS_BYTES : Z := 2 * 1024 * 1024.
Definition MAX_ORGS_BYTES : Z := 2 * 1024 * 1024.
Definition MAX_HANDOFF_BYTES : Z := 4096.
Definition RUNTIME_SUBDIR : jstr := u "qs-bitwarden-cli".
Definition ENCODE_CMD : jstr := u "base64 -w0".

Definition BW_LOGIN_CODE_FILE : jstr := u "bw-login-code.js".
Definition BW_FAST_EXIT_FILE : jstr := u "bw-fast-exit.js".

(** [file.replace(/([``\\])/g, ..)]: a backslash before quotes and backslashes. *)
Definition node_escape (s : jstr) : jstr :=
  concat (map (fun c => if (c =? 34)%N || (c =? 92)%N then [92%N; c] else [c]) s).

Definition bwNodeOptions (pluginDir existing : jsval) : jstr :=
  let base := trim (text_or_empty existing) in
  let dir := strip_end (N.eqb 47) (text_or_empty pluginDir) in
  if str_eqb dir [] then base
  else
    let option_ file := uq "--require `" ++ node_escape (dir ++ u "/" ++ file) ++ uq "`" in
    let option := join (u " ") (map option_ [BW_LOGIN_CODE_FILE; BW_FAST_EXIT_FILE]) in
    if str_eqb base [] then option else base ++ u " " ++ option.

(** ** Wrapping *)

(** [if (max)] with a number of bytes; None for no cap. *)
Definition cap_given (max : option Z) : bool := match max with Some z => negb (z =? 0)%Z | None => false end.

Definition cappedScript (script : jstr) (maxStderrBytes : option Z) : jstr :=
  (if cap_given maxStderrBytes
   then u "exec 2> >(head -c " ++ dec_Z (default 0%Z maxStderrBytes) ++ u " >&2); " else [])
  ++ u "set -o pipefail; " ++ script
  ++ newline ++ u "__rc=$?" ++ newline ++ uq "case `$__rc` in 141) __rc=0 ;; esac" ++ newline ++ uq "exit `$__rc`".

Definition is_bare_arg_unit (c : N) : bool := is_alnum c || one_of (u "_-./") c.

Definition is_bare_arg (arg : jstr) : bool := negb (str_eqb arg []) && all_in is_bare_arg_unit arg.

Definition command_arg (arg : jstr) : jstr := if is_bare_arg arg then arg else shellQuote (JStr arg).

(** The command line of [bw] with its arguments. *)
Definition command_line (args : list jsval) : jstr :=
  u "bw" ++ concat (map (fun a => u " " ++ command_arg (to_str a)) args).

Definition buildCappedCommand (args : list jsval) (maxStdoutBytes maxStderrBytes : option Z) : list jstr :=
  let inner := command_line args
    ++ (if cap_given maxStdoutBytes then u " | head -c " ++ dec_Z (default 0%Z maxStdoutBytes) else []) in
  [u "bash"; u "-c"; cappedScript inner maxStderrBytes].

(** ** Word splitting *)

Module Posix.

(** Units that stand for themselves outside quotes in every context. *)
Definition plain_unit (c : N) : bool := is_alnum c || one_of (u "_-./") c.

Inductive lexer := Between | InWord (w : jstr) | InQuote (w : jstr).

(** The words of a command made of plain units, single quotes, escaped single
    quotes and blanks; None on anything else, which a shell could act on. *)
Fixpoint words (st : lexer) (s : jstr) : option (list jstr) :=
  match s with
  | [] => match st with
          | Between => Some []
          | InWord w => Some [w]
          | InQuote _ => None
          end
  | c :: t =>
    match st with
    | InQuote w => if (c =? 39)%N then words (InWord w) t else words (InQuote (w ++ [c])) t
    | Between | InWord _ =>
      let w := match st with InWord w => w | _ => [] end in
      if (c =? 32)%N then
        match st with InWord w => cons w <$> words Between t | _ => words Between t end
      else if (c =? 39)%N then words (InQuote w) t
      else if (c =? 92)%N then
        match t with
        | d :: t' => if (d =? 39)%N then words (InWord (w ++ [d])) t' else None
        | [] => None
        end
      else if plain_unit c then words (InWord (w ++ [c])) t
      else None
    end
  end.
End Posix.

(** ** Whole scripts

    How a shell reads the quoting of a script: which units it acts on and which
    are literal text. Inside single quotes and after a backslash everything is
    literal; double quotes and parentheses nest. Scripts with backquotes,
    [$'..'] or comments are not read. *)

Module Script.

Inductive token := Act (c : N) | Lit (c : N).
Inductive nesting := Plain | Double.
Inductive mode := Normal | Dollar | Single | Escape.

Record script_reader := mkReader { stack : list nesting; lex_mode : mode; tokens : list token }.

Definition start : script_reader := mkReader [] Normal [].

Definition emit (st : script_reader) (stk : list nesting) (m : mode) (t : token) : script_reader :=
  mkReader stk m (tokens st ++ [t]).

Definition read_unit (st : script_reader) (c : N) : script_reader :=
  let s := stack st in
  match lex_mode st with
  | Single => if (c =? 39)%N then mkReader s Normal (tokens st) else emit st s Single (Lit c)
  | Escape => emit st s Normal (Lit c)
  | m =>
    if (c =? 92)%N then mkReader s Escape (tokens st)
    else if (c =? 36)%N then emit st s Dollar (Act c)
    else match s with
         | Double :: r =>
           if (c =? 34)%N then emit st r Normal (Act c)
           else match m with
                | Dollar => if (c =? 40)%N then emit st (Plain :: s) Normal (Act c) else emit st s Normal (Act c)
                | _ => emit st s Normal (Act c)
                end
         | _ =>
           if (c =? 39)%N then mkReader s Single (tokens st)
           else if (c =? 34)%N then emit st (Double :: s) Normal (Act c)
           else if (c =? 40)%N then emit st (Plain :: s) Normal (Act c)
           else if (c =? 41)%N then emit st (tail s) Normal (Act c)
           else emit st s Normal (Act c)
         end
  end.

Definition read_script (s : jstr) : script_reader := fold_left read_unit s start.

(** A script built around values: its own text, and where the values go. *)
Inductive piece := Text (s : jstr) | Hole (i : nat).

Definition value_at (env : list jstr) (i : nat) : jstr := nth i env [].

Definition render (env : list jstr) (tpl : list piece) : jstr :=
  concat (map (fun p => match p with Text s => s | Hole i => shellQuote (JStr (value_at env i)) end) tpl).

(** What the shell reads: the text's units as they are, the values as literal text. *)
Inductive slot := Fixed (t : token) | Value (i : nat).

Definition fill (env : list jstr) (l : list slot) : list token :=
  concat (map (fun x => match x with Fixed t => [t] | Value i => map Lit (value_at env i) end) l).

(** The template read with its values left out; None when a value would land inside quotes. *)
Fixpoint read_template (stk : list nesting) (m : mode) (tpl : list piece) : option (list slot) :=
  match tpl with
  | [] => match stk, m with [], Normal => Some [] | _, _ => None end
  | Text s :: r =>
    let st := fold_left read_unit s (mkReader stk m []) in
    (fun l => map Fixed (tokens st) ++ l) <$> read_template (stack st) (lex_mode st) r
  | Hole i :: r =>
    match stk, m with
    | Double :: _, _ => None
    | _, Normal => cons (Value i) <$> read_template stk Normal r
    | _, _ => None
    end
  end.

(** The shell reads the script to its end, outside quotes and parentheses, acting on the fixed units only. *)
Definition reads_as (script : jstr) (env : list jstr) (l : list slot) : Prop := read_script script = mkReader [] Normal (fill env l).
End Script.

(** ** Lemmas *)

(** Inside quotes everything is literal, and a quoted quote comes back in. *)
Lemma words_quoted s w rest :
  Posix.words (Posix.InQuote w) (concat (map quote_unit s) ++ rest) = Posix.words (Posix.InQuote (w ++ s)) rest.
Proof.
  revert w; induction s as [|c s IH]; intros w; simpl; [by rewrite app_nil_r|].
  unfold quote_unit at 1. destruct (N.eqb_spec c 39) as [->|Hc].
  - simpl. rewrite IH, <- app_assoc. done.
  - simpl. destruct (N.eqb_spec c 39); [done|]. by rewrite IH, <- app_assoc.
Qed.

(** A quoted value extends the current word by exactly its text. *)
Lemma words_shellQuote s st rest : (match st with Posix.InQuote _ => False | _ => True end) ->
  Posix.words st (shellQuote (JStr s) ++ rest)
  = Posix.words (Posix.InWord ((match st with Posix.InWord w => w | _ => [] end) ++ s)) rest.
Proof.
  intros Hst. unfold shellQuote. replace (text_or_empty (JStr s)) with s by (by destruct s).
  rewrite <- app_comm_cons, <- app_assoc. destruct st as [|w|w]; [| |done]; simpl; by rewrite words_quoted.
Qed.

Lemma plain_unit_not c : Posix.plain_unit c = true -> (c =? 32)%N = false /\ (c =? 39)%N = false /\ (c =? 92)%N = false.
Proof.
  intros H. destruct (N.eqb_spec c 32) as [->|]; [by vm_compute in H|].
  destruct (N.eqb_spec c 39) as [->|]; [by vm_compute in H|]. by destruct (N.eqb_spec c 92) as [->|]; [vm_compute in H|].
Qed.

Lemma words_plain s w rest : forallb Posix.plain_unit s = true ->
  Posix.words (Posix.InWord w) (s ++ rest) = Posix.words (Posix.InWord (w ++ s)) rest.
Proof.
  revert w; induction s as [|c s IH]; intros w; simpl; [by rewrite app_nil_r|]. intros [Hc Hs]%andb_true_iff.
  destruct (plain_unit_not c Hc) as (-> & -> & ->). rewrite Hc, IH by done. by rewrite <- app_assoc.
Qed.

(** One argument, between blanks. *)
Lemma words_arg arg rest :
  Posix.words Posix.Between (command_arg arg ++ rest) = Posix.words (Posix.InWord arg) rest.
Proof.
  unfold command_arg. destruct (is_bare_arg arg) eqn:E; [|by rewrite words_shellQuote].
  unfold is_bare_arg in E. apply andb_true_iff in E as [Hne Hp]. destruct arg as [|c arg]; [done|].
  change (forallb Posix.plain_unit (c :: arg) = true) in Hp. simpl in Hp. apply andb_true_iff in Hp as [Hc Hs].
  simpl. destruct (plain_unit_not c Hc) as (-> & -> & ->). rewrite Hc. by rewrite words_plain.
Qed.

Lemma words_args args w :
  Posix.words (Posix.InWord w) (concat (map (fun a => u " " ++ command_arg (to_str a)) args)) = Some (w :: map to_str args).
Proof.
  revert w; induction args as [|a args IH]; intros w; [done|]. cbn [map concat].
  replace (u " ") with [32%N] by (by vm_compute). rewrite <- app_assoc. simpl.
  rewrite words_arg. rewrite IH. done.
Qed.

(** *** Scripts *)

Lemma step_tokens st c pre :
  Script.read_unit (Script.mkReader (Script.stack st) (Script.lex_mode st) (pre ++ Script.tokens st)) c
  = let st' := Script.read_unit st c in
    Script.mkReader (Script.stack st') (Script.lex_mode st') (pre ++ Script.tokens st').
Proof.
  destruct st as [stk m out]. unfold Script.read_unit, Script.emit. cbn [Script.stack Script.lex_mode Script.tokens].
  destruct m; repeat (match goal with |- context [if ?b then _ else _] => destruct b end
    || match goal with |- context [match ?x with [] => _ | _ => _ end] => destruct x as [|[|] ?] end);
    cbn [Script.stack Script.lex_mode Script.tokens]; rewrite ?app_assoc; reflexivity.
Qed.

Lemma fold_tokens s stk m pre :
  fold_left Script.read_unit s (Script.mkReader stk m pre)
  = let st := fold_left Script.read_unit s (Script.mkReader stk m []) in
    Script.mkReader (Script.stack st) (Script.lex_mode st) (pre ++ Script.tokens st).
Proof.
  assert (G : forall s st pre, fold_left Script.read_unit s (Script.mkReader (Script.stack st) (Script.lex_mode st) (pre ++ Script.tokens st))
    = let st' := fold_left Script.read_unit s st in
      Script.mkReader (Script.stack st') (Script.lex_mode st') (pre ++ Script.tokens st')).
  { clear. induction s as [|c s IH]; intros st pre; [done|]. cbn [fold_left]. rewrite step_tokens. apply IH. }
  specialize (G s (Script.mkReader stk m []) pre). cbn [Script.stack Script.lex_mode Script.tokens] in G.
  by rewrite app_nil_r in G.
Qed.

(** A quoted value is literal text, and leaves the shell where it was. *)
Lemma fold_quoted s stk pre : (match stk with Script.Double :: _ => False | _ => True end) ->
  fold_left Script.read_unit (shellQuote (JStr s)) (Script.mkReader stk Script.Normal pre)
  = Script.mkReader stk Script.Normal (pre ++ map Script.Lit s).
Proof.
  intros Hstk. unfold shellQuote. replace (text_or_empty (JStr s)) with s by (by destruct s).
  assert (G : forall s pre, fold_left Script.read_unit (concat (map quote_unit s) ++ [39%N]) (Script.mkReader stk Script.Single pre)
    = Script.mkReader stk Script.Normal (pre ++ map Script.Lit s)).
  { clear s pre. induction s as [|c s IH]; intros pre; [simpl; by rewrite app_nil_r|]. cbn [map concat].
    replace (pre ++ Script.Lit c :: map Script.Lit s) with ((pre ++ [Script.Lit c]) ++ map Script.Lit s) by (by rewrite <- app_assoc).
    rewrite <- IH, <- app_assoc. unfold quote_unit at 1. destruct (N.eqb_spec c 39) as [->|Hc].
    - destruct stk as [|[|] ?]; [..|done]; reflexivity.
    - cbn [app fold_left]. unfold Script.read_unit at 2. cbn [Script.lex_mode]. by destruct (N.eqb_spec c 39). }
  cbn [fold_left]. rewrite <- G. destruct stk as [|[|] ?]; [..|done]; reflexivity.
Qed.

Lemma concat_singletons {A} (l : list A) : concat (map (fun x => [x]) l) = l.
Proof. induction l as [|x l IH]; simpl; [done|by rewrite IH]. Qed.

Lemma read_template_run tpl env : forall stk m pre l, Script.read_template stk m tpl = Some l ->
  fold_left Script.read_unit (Script.render env tpl) (Script.mkReader stk m pre)
  = Script.mkReader [] Script.Normal (pre ++ Script.fill env l).
Proof.
  induction tpl as [|[s|i] tpl IH]; intros stk m pre l; cbn [Script.read_template].
  - destruct stk; [|done]. destruct m; try done. intros [= <-]. simpl. by rewrite app_nil_r.
  - intros (l' & Hl & ->)%fmap_Some. change (Script.render env (Script.Text s :: tpl)) with (s ++ Script.render env tpl).
    rewrite fold_left_app, fold_tokens. cbv zeta. rewrite (IH _ _ _ l' Hl). unfold Script.fill.
    rewrite map_app, concat_app, <- app_assoc, map_map. do 2 f_equal. by rewrite concat_singletons.
  - intros H. change (Script.render env (Script.Hole i :: tpl)) with (shellQuote (JStr (Script.value_at env i)) ++ Script.render env tpl).
    rewrite fold_left_app.
    assert (m = Script.Normal /\ match stk with Script.Double :: _ => False | _ => True end
      /\ exists l', Script.read_template stk Script.Normal tpl = Some l' /\ l = Script.Value i :: l') as (-> & Hs & l' & Hl & ->).
    { destruct stk as [|[|] ?]; destruct m; try done; apply fmap_Some in H as (l' & Hl & ->); eauto. }
    rewrite fold_quoted by done. rewrite (IH _ _ _ l' Hl). by rewrite <- app_assoc.
Qed.

(** What a script's template decides: its values cannot change what the shell does. *)
Lemma template_run env script tpl l : script = Script.render env tpl ->
  Script.read_template [] Script.Normal tpl = Some l ->
  Script.reads_as script env l.
Proof. intros -> Hl. unfold Script.reads_as, Script.read_script, Script.start. by rewrite (read_template_run tpl env _ _ _ l Hl). Qed.

(** ** Properties *)

(** No argument can break out of a command: the command line the panel
    builds splits, by the shell's quoting rules, into [bw] and exactly the
    given arguments, whatever text they hold; and the script is that line,
    piped into its cap and wrapped. *)
Theorem buildCappedCommand_words args maxStdout maxStderr :
  exists line cap, Posix.words Posix.Between line = Some (u "bw" :: map to_str args)
    /\ buildCappedCommand args maxStdout maxStderr = [u "bash"; u "-c"; cappedScript (line ++ cap) maxStderr]
    /\ (cap = [] \/ exists n, maxStdout = Some n /\ cap = u " | head -c " ++ dec_Z n).
Proof.
  exists (command_line args). eexists. split_and!; [|reflexivity|].
  - unfold command_line. change (Posix.words Posix.Between (u "bw" ++ ?x)) with (Posix.words (Posix.InWord (u "bw")) x).
    apply (words_args args (u "bw")).
  - destruct maxStdout as [n|]; simpl; [|by left]. destruct (n =? 0)%Z; [by left|right; by exists n].
Qed.
