(* ===== verification/Accounts.v ===== *)
(** * Accounts

    The account slots and the registry of [src/BitwardenModel.js] ("Accounts"):
    which slot holds which account and which one is active. The registry is a
    record; the source's functions never mutate the registry they are given
    (each copies it first), so they are functions from registries to
    registries. A null registry stands for [emptyAccountRegistry]. *)

From stdpp Require Import base list numbers strings.
From S2P Require Import Prelude.
From S2P Require Import JsValue.
From S2P Require Import Json.

(** ** Data *)

Definition KEYRING_SERVICE : jstr := u "qs-bitwarden-cli".
Definition DEFAULT_ACCOUNT_SLOT : jstr := u "default".
Definition ACCOUNTS_VERSION : Z := 1.
Definition MAX_ACCOUNTS : nat := 10.
Definition ACCOUNTS_SUBDIR : jstr := u "qs-bitwarden-cli/accounts".
Definition BITWARDEN_US_SERVER : jstr := u "https://vault.bitwarden.com".
Definition BITWARDEN_EU_SERVER : jstr := u "https://vault.bitwarden.eu".

Record account := mkAccount {
  slot : jstr;
  email : jstr;
  userId : jstr;
  server : jstr;
  lastUsed : num
}.

Record registry := mkRegistry {
  version : Z;
  active : jstr;
  accounts : list account
}.

(** ** Slots *)

(** [/^[0-9a-f]{16}$/] *)
Definition ACCOUNT_SLOT_RE (s : jstr) : bool := (length s =? 16)%nat && all_in is_hex_lower s.

Definition isAccountSlot (s : jstr) : bool := str_eqb s DEFAULT_ACCOUNT_SLOT || ACCOUNT_SLOT_RE s.

Definition accountSlot (v : jsval) : jstr :=
  match v with
  | JStr s => if isAccountSlot s then s else DEFAULT_ACCOUNT_SLOT
  | _ => DEFAULT_ACCOUNT_SLOT
  end.

Definition keyringEntryName (base : jstr) (v : jsval) : jstr :=
  let s := accountSlot v in
  if str_eqb s DEFAULT_ACCOUNT_SLOT then base else base ++ u "@" ++ s.

Definition is_slash (c : N) : bool := (c =? 47)%N.
Definition is_absolute (s : jstr) : bool := match s with c :: _ => is_slash c | [] => false end.

Definition accountAppDataDir (v xdgDataHome home : jsval) : jstr :=
  let s := accountSlot v in
  if str_eqb s DEFAULT_ACCOUNT_SLOT then []
  else
    let base := text_or_empty xdgDataHome in
    let finish b := strip_end is_slash b ++ u "/" ++ ACCOUNTS_SUBDIR ++ u "/" ++ s in
    if is_absolute base then finish base
    else
      let h := text_or_empty home in
      if is_absolute h then finish (strip_end is_slash h ++ u "/.local/share") else [].

(** A fresh slot. [rnd i] is the [i]-th Math.floor(Math.random() * 16); an
    attempt takes sixteen of them. *)
Definition random_slot (rnd : nat -> N) (attempt : nat) : jstr :=
  map (fun j => digit_unit (rnd (attempt * 16 + j))) (seq 0 16).

Definition newAccountSlot (rnd : nat -> N) (taken : list jstr) : jstr :=
  default [] (find_first (fun s => negb (existsb (str_eqb s) taken)) (map (random_slot rnd) (seq 0 32))).

(** ** The registry *)

Definition emptyAccountRegistry : registry := mkRegistry ACCOUNTS_VERSION DEFAULT_ACCOUNT_SLOT [].

Definition cleanAccountText (value : jsval) (max : nat) : jstr :=
  take max (remove_units is_control (text_of value)).

(** Math.max(0, Math.floor(Number(v)) || 0) *)
Definition clock_value (v : jsval) : num := num_max (numz 0) (floor_or_zero v).

(** One entry of the file, or None when it is dropped. *)
Definition registry_entry (seen : list account) (a : jsval) : option account :=
  match is_object a, jget a (u "slot") with
  | true, JStr s =>
    if isAccountSlot s && negb (existsb (fun b => str_eqb (slot b) s) seen) then
      Some (mkAccount s (cleanAccountText (jget a (u "email")) 320)
                        (cleanAccountText (jget a (u "userId")) 128)
                        (cleanAccountText (jget a (u "server")) 512)
                        (clock_value (jget a (u "lastUsed"))))
    else None
  | _, _ => None
  end.

(** The loop over the file's entries: it stops once the registry is full. *)
Fixpoint registry_entries (l : list jsval) (out : list account) : list account :=
  match l with
  | [] => out
  | a :: t =>
    if (length out <? MAX_ACCOUNTS)%nat
    then registry_entries t (match registry_entry out a with Some e => out ++ [e] | None => out end)
    else out
  end.

Definition parseAccountRegistry (raw : jsval) : registry :=
  let parsed := default JNull (json_parse (text_or_empty raw)) in
  if negb (is_object parsed) || negb (num_eqb (to_num (jget parsed (u "version"))) (numz ACCOUNTS_VERSION))
  then emptyAccountRegistry
  else
    let list := match jget parsed (u "accounts") with JArr l => l | _ => [] end in
    let act := match jget parsed (u "active") with
               | JStr s => if isAccountSlot s then s else DEFAULT_ACCOUNT_SLOT
               | _ => DEFAULT_ACCOUNT_SLOT
               end in
    mkRegistry ACCOUNTS_VERSION act (registry_entries list []).

Definition account_object (a : account) : jsval :=
  JObj (fields [("slot", JStr (slot a)); ("email", JStr (email a)); ("userId", JStr (userId a));
                ("server", JStr (server a)); ("lastUsed", JNum (lastUsed a))]%string).

Definition registry_object (r : registry) : jsval :=
  JObj (fields [("version", jz ACCOUNTS_VERSION); ("active", JStr (accountSlot (JStr (active r))));
                ("accounts", JArr (map account_object (accounts r)))]%string).

Definition serializeAccountRegistry (r : registry) : jstr := json_text (registry_object r).

Definition copyAccountRegistry (r : registry) : registry :=
  mkRegistry ACCOUNTS_VERSION (accountSlot (JStr (active r)))
    (map (fun a => mkAccount (slot a) (email a) (userId a) (server a) (lastUsed a)) (accounts r)).

Definition registryAccount (r : registry) (s : jstr) : option account :=
  find_first (fun a => str_eqb (slot a) s) (accounts r).

Definition registryHasAccount (r : registry) (s : jstr) : bool := bool_decide (is_Some (registryAccount r s)).

(** Writes to the first entry of the slot, which registryAccount() returned. *)
Fixpoint update_account (f : account -> account) (s : jstr) (l : list account) : list account :=
  match l with
  | [] => []
  | a :: t => if str_eqb (slot a) s then f a :: t else a :: update_account f s t
  end.

Record noted := mkNoted { noted_registry : registry; retired : list jstr; full : bool }.

Definition str_or (a b : jstr) : jstr := match a with [] => b | _ => a end.

Definition registryNoteAccount (r0 : registry) (v info now : jsval) : noted :=
  let r := copyAccountRegistry r0 in
  let s := accountSlot v in
  let uid := cleanAccountText (jget info (u "userId")) 128 in
  let srv := cleanAccountText (jget info (u "server")) 512 in
  let same a := negb (str_eqb (slot a) s) && negb (str_eqb uid []) && str_eqb (userId a) uid && str_eqb (server a) srv in
  let gone := map slot (List.filter same (accounts r)) in
  let kept := List.filter (fun a => negb (same a)) (accounts r) in
  let r1 := mkRegistry (version r) (active r) kept in
  let write a := mkAccount (slot a)
                   (str_or (cleanAccountText (jget info (u "email")) 320) (email a))
                   (str_or uid (userId a)) srv (clock_value now) in
  match registryAccount r1 s with
  | Some _ => mkNoted (mkRegistry (version r) s (update_account write s kept)) gone false
  | None =>
    if (MAX_ACCOUNTS <=? length kept)%nat then mkNoted r0 [] true
    else mkNoted (mkRegistry (version r) s (update_account write s (kept ++ [mkAccount s [] [] [] (numz 0)]))) gone false
  end.

Definition registryRemoveAccount (r0 : registry) (s : jstr) : registry :=
  let r := copyAccountRegistry r0 in
  mkRegistry (version r) (active r) (List.filter (fun a => negb (str_eqb (slot a) s)) (accounts r)).

Definition registrySetActive (r0 : registry) (v now : jsval) : registry :=
  let r := copyAccountRegistry r0 in
  let s := accountSlot v in
  let stamp a := mkAccount (slot a) (email a) (userId a) (server a) (clock_value now) in
  mkRegistry (version r) s
    (if is_undef now then accounts r else update_account stamp s (accounts r)).

Definition slotForNewAccount (rnd : nat -> N) (r : registry) : jstr :=
  if registryHasAccount r DEFAULT_ACCOUNT_SLOT then newAccountSlot rnd (map slot (accounts r))
  else DEFAULT_ACCOUNT_SLOT.

(** The loop keeps the first of the most recently used. *)
Fixpoint next_account (leaving : jstr) (l : list account) (best : option account) : option account :=
  match l with
  | [] => best
  | a :: t =>
    if str_eqb (slot a) leaving then next_account leaving t best
    else match best with
         | None => next_account leaving t (Some a)
         | Some b => next_account leaving t (Some (if num_ltb (lastUsed b) (lastUsed a) then a else b))
         end
  end.

Definition registryNextAccount (r : registry) (leaving : jstr) : jstr :=
  match next_account leaving (accounts r) None with
  | Some a => slot a
  | None => []
  end.

(** ** The picker *)

(** replace(/^https?:\/\//i, []) *)
Definition strip_http (s : jstr) : jstr :=
  if starts_with (u "https://") (to_lower s) then drop 8 s
  else if starts_with (u "http://") (to_lower s) then drop 7 s
  else s.

Definition accountServerLabel (srv : jsval) : jstr :=
  let s := strip_end is_slash (trim (text_or_empty srv)) in
  if str_eqb s [] || str_eqb s BITWARDEN_US_SERVER || str_eqb s (u "https://bitwarden.com") then []
  else if str_eqb s BITWARDEN_EU_SERVER || str_eqb s (u "https://bitwarden.eu") then u "EU"
  else strip_http s.

Record account_row := mkRow {
  row_slot : jstr; row_email : jstr; row_server : jstr; row_label : jstr; row_active : bool
}.

(** The comparator is never 0, so [<= 0] is "-1". *)
Definition account_le (a b : account) : bool :=
  let x := to_lower (email a) in
  let y := to_lower (email b) in
  if str_ltb x y then true else if str_ltb y x then false else str_ltb (slot a) (slot b).

Definition accountRows (r : registry) (activeSlot : jstr) : list account_row :=
  map (fun a =>
    let srv := accountServerLabel (JStr (server a)) in
    let name := str_or (email a) (u "Account") in
    mkRow (slot a) name srv
      (name ++ match srv with [] => [] | _ => u " (" ++ srv ++ u ")" end)
      (str_eqb (slot a) activeSlot))
  (sort_by account_le (accounts r)).

#[global] Arguments cleanAccountText : simpl never.
#[global] Arguments clock_value : simpl never.
#[global] Arguments isAccountSlot : simpl never.
#[global] Arguments MAX_ACCOUNTS : simpl never.

(** ** The registry invariant *)

Definition clean_text (max : nat) (s : jstr) : Prop :=
  length s <= max /\ forallb (fun c => negb (is_control c)) s = true.

Record account_wf (a : account) : Prop := {
  wf_slot : isAccountSlot (slot a) = true;
  wf_email : clean_text 320 (email a);
  wf_userId : clean_text 128 (userId a);
  wf_server : clean_text 512 (server a);
  wf_lastUsed : num_leb (numz 0) (lastUsed a) = true
}.

Record registry_wf (r : registry) : Prop := {
  wf_version : version r = ACCOUNTS_VERSION;
  wf_active : isAccountSlot (active r) = true;
  wf_accounts : Forall account_wf (accounts r);
  wf_distinct : NoDup (map slot (accounts r));
  wf_size : length (accounts r) <= MAX_ACCOUNTS
}.

(** The registries the panel can hold: what it reads, then any sequence of the
    source's operations. *)
Inductive registry_reachable : registry -> Prop :=
| reach_empty : registry_reachable emptyAccountRegistry
| reach_parse raw : registry_reachable (parseAccountRegistry raw)
| reach_note r v info now :
    registry_reachable r -> registry_reachable (noted_registry (registryNoteAccount r v info now))
| reach_remove r s : registry_reachable r -> registry_reachable (registryRemoveAccount r s)
| reach_active r v now : registry_reachable r -> registry_reachable (registrySetActive r v now).

(** ** Lemmas *)

Lemma default_valid : isAccountSlot DEFAULT_ACCOUNT_SLOT = true.
Proof. by vm_compute. Qed.
#[export] Hint Resolve default_valid : qsbw.

Lemma accountSlot_valid v : isAccountSlot (accountSlot v) = true.
Proof. destruct v; simpl; auto with qsbw. destruct (isAccountSlot s) eqn:E; auto with qsbw. Qed.

Lemma accountSlot_id s : isAccountSlot s = true -> accountSlot (JStr s) = s.
Proof. simpl. by intros ->. Qed.

Lemma cleanAccountText_clean v max : clean_text max (cleanAccountText v max).
Proof.
  unfold cleanAccountText. split; [rewrite length_take; lia|]. apply forallb_firstn.
  rewrite forallb_forall. intros c Hc. by apply filter_In in Hc as [_ ?].
Qed.

Lemma clean_text_id max s : clean_text max s -> cleanAccountText (JStr s) max = s.
Proof.
  intros [Hl Hc]. unfold cleanAccountText, text_of, remove_units. cbn [is_nullish to_str].
  rewrite bfilter_all; [by rewrite take_ge|]. rewrite Forall_forall. rewrite forallb_forall in Hc.
  intros x Hx. apply Hc. by apply list_elem_of_In.
Qed.

Lemma clean_str_or max a b : clean_text max a -> clean_text max b -> clean_text max (str_or a b).
Proof. by destruct a. Qed.

Lemma clock_value_nonneg v : num_leb (numz 0) (clock_value v) = true.
Proof. apply num_max_lower; [done|apply num_or_zero_not_nan]. Qed.

Lemma clock_value_int z : (0 <= z)%Z -> clock_value (jz z) = numz z.
Proof.
  intros H. unfold clock_value, floor_or_zero. cbn [to_num jz]. autorewrite with qsnum.
  by rewrite Z.max_r.
Qed.

#[export] Hint Resolve accountSlot_valid cleanAccountText_clean clean_str_or clock_value_nonneg : qsbw.

Lemma copy_id r : registry_wf r -> copyAccountRegistry r = r.
Proof.
  intros [Hv Ha _ _ _]. unfold copyAccountRegistry. rewrite (accountSlot_id _ Ha), <- Hv.
  destruct r as [v a l]; simpl. f_equal. induction l as [|[] l IH]; simpl; [done|]. by rewrite IH.
Qed.

Lemma registry_entry_wf seen a e : registry_entry seen a = Some e ->
  account_wf e /\ slot e ∉ map slot seen.
Proof.
  unfold registry_entry. destruct (is_object a); [|done]. destruct (jget a (u "slot")) as [| | | |s| | |]; try done.
  destruct (isAccountSlot s && _) eqn:E; [|done]. intros [= <-]. apply andb_true_iff in E as [Hs Hn].
  split; [split; simpl; eauto with qsbw|]. simpl. intros (b & Hb & Hin)%list_elem_of_fmap.
  apply negb_true_iff in Hn. rewrite existsb_false in Hn. specialize (Hn b Hin).
  apply str_eqb_neq in Hn. congruence.
Qed.

Lemma registry_entries_wf l out :
  Forall account_wf out -> NoDup (map slot out) -> length out <= MAX_ACCOUNTS ->
  Forall account_wf (registry_entries l out) /\ NoDup (map slot (registry_entries l out))
  /\ length (registry_entries l out) <= MAX_ACCOUNTS.
Proof.
  revert out; induction l as [|a l IH]; intros out H1 H2 H3; simpl; [done|].
  destruct (Nat.ltb_spec (length out) MAX_ACCOUNTS) as [Hlt|]; [|done].
  destruct (registry_entry out a) as [e|] eqn:E; [|by apply IH].
  apply registry_entry_wf in E as [He Hn]. apply IH.
  - by apply Forall_app_2; [|constructor].
  - rewrite map_app. apply NoDup_app. split_and!; [done| |by apply NoDup_singleton].
    intros x Hx ->%list_elem_of_singleton. done.
  - rewrite length_app. simpl. lia.
Qed.

Lemma parse_wf raw : registry_wf (parseAccountRegistry raw).
Proof.
  unfold parseAccountRegistry. destruct (_ || _).
  { split; simpl; [done|auto with qsbw|constructor|constructor|unfold MAX_ACCOUNTS; lia]. }
  destruct (registry_entries_wf (match jget (default JNull (json_parse (text_or_empty raw))) (u "accounts") with
                                 | JArr l => l | _ => [] end) []) as (H1 & H2 & H3);
    [constructor|constructor|unfold MAX_ACCOUNTS; simpl; lia|].
  split; simpl; try done.
  destruct (jget _ (u "active")) as [| | | |s| | |]; auto with qsbw.
  destruct (isAccountSlot s) eqn:E; auto with qsbw.
Qed.

Lemma update_slots f s l : (forall a, slot (f a) = slot a) -> map slot (update_account f s l) = map slot l.
Proof. intros H. induction l as [|a l IH]; simpl; [done|]. destruct (str_eqb (slot a) s); simpl; congruence. Qed.

Lemma update_wf f s l : (forall a, account_wf a -> account_wf (f a)) ->
  Forall account_wf l -> Forall account_wf (update_account f s l).
Proof. intros H. induction 1 as [|a l Ha Hl IH]; simpl; [done|]. destruct (str_eqb _ _); constructor; auto. Qed.

Lemma length_update f s l : length (update_account f s l) = length l.
Proof. induction l as [|a l IH]; simpl; [done|]. destruct (str_eqb _ _); simpl; congruence. Qed.

Lemma stamp_wf a n : account_wf a -> num_leb (numz 0) n = true ->
  account_wf (mkAccount (slot a) (email a) (userId a) (server a) n).
Proof. by intros [] ?. Qed.

Lemma remove_wf r s : registry_wf r -> registry_wf (registryRemoveAccount r s).
Proof.
  intros H. unfold registryRemoveAccount. rewrite copy_id by done. destruct H as [Hv Ha Hl Hd Hn].
  split; simpl; auto using Forall_bfilter, NoDup_map_bfilter. etrans; [apply length_bfilter|done].
Qed.

Lemma setActive_wf r v now : registry_wf r -> registry_wf (registrySetActive r v now).
Proof.
  intros H. unfold registrySetActive. rewrite copy_id by done. destruct H as [Hv Ha Hl Hd Hn].
  split; simpl; auto with qsbw; destruct (is_undef now); auto.
  - apply update_wf; [|done]. eauto using stamp_wf with qsbw.
  - by rewrite update_slots.
  - by rewrite length_update.
Qed.

(** What registryNoteAccount() writes, with the copy done. *)
Section Note.
Context (r : registry) (v info now : jsval) (Hr : registry_wf r).
Let s := accountSlot v.
Let uid := cleanAccountText (jget info (u "userId")) 128.
Let srv := cleanAccountText (jget info (u "server")) 512.
Definition same_account (a : account) : bool :=
  negb (str_eqb (slot a) s) && negb (str_eqb uid []) && str_eqb (userId a) uid && str_eqb (server a) srv.
Definition note_write (a : account) : account :=
  mkAccount (slot a) (str_or (cleanAccountText (jget info (u "email")) 320) (email a))
            (str_or uid (userId a)) srv (clock_value now).
Definition note_kept : list account := List.filter (fun a => negb (same_account a)) (accounts r).

Lemma note_unfold : registryNoteAccount r v info now =
  match registryAccount (mkRegistry (version r) (active r) note_kept) s with
  | Some _ => mkNoted (mkRegistry (version r) s (update_account note_write s note_kept))
                      (map slot (List.filter same_account (accounts r))) false
  | None =>
    if (MAX_ACCOUNTS <=? length note_kept)%nat then mkNoted r [] true
    else mkNoted (mkRegistry (version r) s (update_account note_write s (note_kept ++ [mkAccount s [] [] [] (numz 0)])))
                 (map slot (List.filter same_account (accounts r))) false
  end.
Proof. unfold registryNoteAccount. by rewrite copy_id. Qed.

Lemma note_write_wf a : account_wf a -> account_wf (note_write a).
Proof. intros []. unfold note_write, uid, srv. split; simpl; auto with qsbw. Qed.

Lemma note_kept_wf : Forall account_wf note_kept /\ NoDup (map slot note_kept) /\ length note_kept <= MAX_ACCOUNTS.
Proof.
  destruct Hr as [_ _ Hl Hd Hn]. split_and!; [by apply Forall_bfilter|by apply NoDup_map_bfilter|].
  etrans; [apply length_bfilter|done].
Qed.

Lemma fresh_wf : account_wf (mkAccount s [] [] [] (numz 0)).
Proof. unfold s. split; simpl; auto with qsbw; split; simpl; auto with lia. Qed.

Lemma note_wf : registry_wf (noted_registry (registryNoteAccount r v info now)).
Proof.
  rewrite note_unfold. destruct note_kept_wf as (Hl & Hd & Hn). pose proof (wf_version _ Hr).
  destruct (registryAccount _ s) as [e|] eqn:E.
  - split; simpl; [done|apply accountSlot_valid|by apply update_wf; [apply note_write_wf|]| |].
    + by rewrite update_slots.
    + by rewrite length_update.
  - destruct (Nat.leb_spec MAX_ACCOUNTS (length note_kept)); [exact Hr|].
    apply find_first_none in E. simpl in E.
    split; simpl; [done|apply accountSlot_valid| | |].
    + apply update_wf; [apply note_write_wf|]. by apply Forall_app_2; [|constructor; [apply fresh_wf|]].
    + rewrite update_slots by done. rewrite map_app. apply NoDup_app.
      split_and!; [done| |by apply NoDup_singleton].
      intros x (a & -> & Hin)%list_elem_of_fmap Hx%list_elem_of_singleton. simpl in Hx.
      rewrite Forall_forall in E. specialize (E a Hin). apply str_eqb_neq in E. done.
    + rewrite length_update, length_app. simpl. lia.
Qed.
End Note.

(** C36. Every registry the panel can reach -- read from any text, then changed
    by any sequence of noting, removing and activating accounts -- holds valid
    slots, each at most once, at most [MAX_ACCOUNTS] accounts, texts without
    control characters and within their limits, and an active slot that is a
    slot. *)
Theorem registry_reachable_wf r : registry_reachable r -> registry_wf r.
Proof.
  induction 1; [|apply parse_wf|by apply note_wf|by apply remove_wf|by apply setActive_wf].
  split; simpl; [done|auto with qsbw|constructor|constructor|unfold MAX_ACCOUNTS; lia].
Qed.

Lemma registry_reachable_wf_witness :
  registry_reachable (noted_registry (registryNoteAccount emptyAccountRegistry (JStr (u "default"))
    (JObj (fields [("userId", JStr (u "u1")); ("email", JStr (u "a@b.c"))]%string)) (jz 5)))
  /\ registry_wf (noted_registry (registryNoteAccount emptyAccountRegistry (JStr (u "default"))
    (JObj (fields [("userId", JStr (u "u1")); ("email", JStr (u "a@b.c"))]%string)) (jz 5))).
Proof. split; [|apply registry_reachable_wf]; repeat constructor. Defined.

(** ** Looking accounts up *)

Lemma registryAccount_elem r t a : NoDup (map slot (accounts r)) ->
  registryAccount r t = Some a <-> a ∈ accounts r /\ slot a = t.
Proof.
  unfold registryAccount. induction (accounts r) as [|b l IH]; simpl.
  - intros _. split; [done|]. by intros [H%elem_of_nil _].
  - intros [Hb Hl]%NoDup_cons. destruct (str_eqb (slot b) t) eqn:E.
    + apply str_eqb_eq in E as <-. split; [intros [= ->]; split; [by left|done]|].
      intros [[->|Ha]%elem_of_cons Hs]; [done|]. destruct Hb. rewrite <- Hs. by apply list_elem_of_fmap_2.
    + rewrite (IH Hl). apply str_eqb_neq in E. split.
      * intros [Ha Hs]. split; [by right|done].
      * intros [[->|Ha]%elem_of_cons Hs]; done.
Qed.

Lemma registryAccount_none r t : registryAccount r t = None <-> t ∉ map slot (accounts r).
Proof.
  unfold registryAccount. rewrite find_first_none, Forall_forall. split.
  - intros H (a & -> & Ha)%list_elem_of_fmap. specialize (H a Ha). by rewrite str_eqb_refl in H.
  - intros H a Ha. apply str_eqb_neq. intros <-. apply H. by apply list_elem_of_fmap_2.
Qed.

Lemma find_update f s l t : (forall a, slot (f a) = slot a) ->
  find_first (fun a => str_eqb (slot a) t) (update_account f s l)
  = (if str_eqb s t then f <$> find_first (fun a => str_eqb (slot a) t) l
     else find_first (fun a => str_eqb (slot a) t) l).
Proof.
  intros Hf. induction l as [|a l IH]; simpl; [by destruct (str_eqb s t)|].
  destruct (str_eqb (slot a) s) eqn:E1; simpl; rewrite ?Hf.
  - apply str_eqb_eq in E1 as <-. by destruct (str_eqb (slot a) t).
  - destruct (str_eqb (slot a) t) eqn:E2; [|done].
    apply str_eqb_eq in E2 as <-. apply str_eqb_neq in E1.
    destruct (str_eqb s (slot a)) eqn:E3; [|done]. apply str_eqb_eq in E3. congruence.
Qed.

Lemma find_bfilter p (l : list account) t :
  NoDup (map slot l) ->
  find_first (fun a => str_eqb (slot a) t) (List.filter p l)
  = (a ← find_first (fun a => str_eqb (slot a) t) l; if p a then Some a else None).
Proof.
  induction l as [|a l IH]; simpl; [done|]. intros [Ha Hl]%NoDup_cons.
  destruct (str_eqb (slot a) t) eqn:E.
  - simpl. destruct (p a); simpl; [by rewrite E|]. rewrite IH by done.
    apply str_eqb_eq in E as <-.
    destruct (find_first (fun a0 => str_eqb (slot a0) (slot a)) l) as [b|] eqn:F; [|done]. simpl.
    apply find_first_some in F as [Hb Hs]. apply str_eqb_eq in Hs.
    destruct Ha. rewrite <- Hs. by apply list_elem_of_fmap_2.
  - destruct (p a); simpl; [rewrite E|]; auto.
Qed.

Lemma find_snoc_none (l : list account) a t :
  find_first (fun a => str_eqb (slot a) t) l = None ->
  find_first (fun a => str_eqb (slot a) t) (l ++ [a]) = if str_eqb (slot a) t then Some a else None.
Proof. induction l as [|b l IH]; simpl; [done|]. by destruct (str_eqb (slot b) t). Qed.

Lemma find_snoc_other (l : list account) a t : slot a <> t ->
  find_first (fun a => str_eqb (slot a) t) (l ++ [a]) = find_first (fun a => str_eqb (slot a) t) l.
Proof.
  intros H. apply str_eqb_neq in H. induction l as [|b l IH]; simpl; [by rewrite H|].
  by destruct (str_eqb (slot b) t).
Qed.

Section NoteLookups.
Context (r : registry) (v info now : jsval) (Hr : registry_wf r).
Let s := accountSlot v.
Let uid := cleanAccountText (jget info (u "userId")) 128.
Let srv := cleanAccountText (jget info (u "server")) 512.
Let same := same_account v info.

Lemma same_account_spec a : same a = true <-> slot a <> s /\ uid <> [] /\ userId a = uid /\ server a = srv.
Proof.
  unfold same, same_account. rewrite !andb_true_iff, !negb_true_iff, !str_eqb_neq, !str_eqb_eq.
  fold s uid srv. tauto.
Qed.

Lemma note_retired_spec t : t ∈ map slot (List.filter same (accounts r)) <->
  t <> s /\ uid <> [] /\ exists a, registryAccount r t = Some a /\ userId a = uid /\ server a = srv.
Proof.
  setoid_rewrite (registryAccount_elem r t _ (wf_distinct _ Hr)). rewrite list_elem_of_fmap.
  setoid_rewrite elem_of_bfilter. setoid_rewrite same_account_spec. naive_solver.
Qed.

Lemma note_kept_lookup t :
  registryAccount (mkRegistry (version r) (active r) (note_kept r v info)) t =
    if bool_decide (t ∈ map slot (List.filter same (accounts r))) then None else registryAccount r t.
Proof.
  pose proof (wf_distinct _ Hr) as HD.
  unfold registryAccount at 1, note_kept. simpl. rewrite find_bfilter by done. fold same.
  change (find_first (fun a => str_eqb (slot a) t) (accounts r)) with (registryAccount r t).
  destruct (registryAccount r t) as [a|] eqn:E; simpl; [|by destruct (bool_decide _)].
  pose proof E as Ea. apply (registryAccount_elem r t a HD) in Ea as [Ha Hslot].
  destruct (same a) eqn:Es; simpl; case_bool_decide as Hin; try done.
  - destruct Hin. apply note_retired_spec. apply same_account_spec in Es. naive_solver.
  - apply note_retired_spec in Hin as (Ht & ? & b & Eb & ? & ?).
    assert (same a = true); [|congruence]. apply same_account_spec. rewrite Hslot. naive_solver.
Qed.

Lemma note_slot_lookup :
  registryAccount (mkRegistry (version r) (active r) (note_kept r v info)) s = registryAccount r s.
Proof.
  rewrite note_kept_lookup. case_bool_decide as H; [|done]. by apply note_retired_spec in H as [? _].
Qed.

Lemma note_written a : exists e, Some (note_write info now a) = Some e /\ server e = srv
  /\ lastUsed e = clock_value now /\ (uid <> [] -> userId e = uid).
Proof. exists (note_write info now a). split_and!; try done. simpl. fold uid. by destruct uid. Qed.

(** The accounts after a write to the slot [s] of [l]. *)
Lemma note_update_lookup l t :
  registryAccount (mkRegistry (version r) s (update_account (note_write info now) s l)) t =
    (if str_eqb s t then note_write info now <$> registryAccount (mkRegistry (version r) s l) t
     else registryAccount (mkRegistry (version r) s l) t).
Proof. unfold registryAccount. simpl. by rewrite find_update. Qed.
End NoteLookups.

(** Noting what [bw status] says a slot holds: the slot becomes the active
    one and holds that server, user and clock; exactly the other slots that
    held the same user on the same server are retired and gone; every other
    account is as it was. Only a new slot on a full registry is refused, and
    then nothing changes. *)
Theorem registryNoteAccount_spec r v info now :
  registry_wf r ->
  let s := accountSlot v in
  let uid := cleanAccountText (jget info (u "userId")) 128 in
  let srv := cleanAccountText (jget info (u "server")) 512 in
  let res := registryNoteAccount r v info now in
  let r' := noted_registry res in
  (full res = true ->
     r' = r /\ retired res = [] /\ registryAccount r s = None /\ length (accounts r) = MAX_ACCOUNTS) /\
  (full res = false ->
     active r' = s /\
     (exists e, registryAccount r' s = Some e /\ server e = srv /\ lastUsed e = clock_value now
                /\ (uid <> [] -> userId e = uid)) /\
     (forall t, t ∈ retired res <->
        t <> s /\ uid <> [] /\ exists a, registryAccount r t = Some a /\ userId a = uid /\ server a = srv) /\
     (forall t, t <> s -> registryAccount r' t = if bool_decide (t ∈ retired res) then None else registryAccount r t)).
Proof.
  intros Hr. cbv zeta. rewrite note_unfold by done.
  pose proof (note_kept_lookup r v info Hr) as Hkept. pose proof (note_slot_lookup r v info Hr) as Hs.
  pose proof (note_retired_spec r v info Hr) as Hgone.
  assert (Hother : forall t, t <> accountSlot v -> str_eqb (accountSlot v) t = false) by (intros t Ht; apply str_eqb_neq; congruence).
  rewrite Hs. destruct (registryAccount r (accountSlot v)) as [a0|] eqn:E0.
  - split; [done|]. intros _. simpl. split_and!; [done| |done|].
    + rewrite note_update_lookup, str_eqb_refl.
      change (fmap (note_write info now) (registryAccount (mkRegistry (version r) (accountSlot v) ?l) ?t)) with
             (fmap (note_write info now) (registryAccount (mkRegistry (version r) (active r) l) t)).
      rewrite Hs. apply note_written.
    + intros t Ht. rewrite note_update_lookup, Hother by done. apply Hkept.
  - destruct (Nat.leb_spec MAX_ACCOUNTS (length (note_kept r v info))) as [Hge|Hlt].
    + split; [|done]. intros _. split_and!; try done.
      pose proof (length_bfilter (fun a => negb (same_account v info a)) (accounts r)) as Hle.
      pose proof (wf_size _ Hr). unfold note_kept in Hge. lia.
    + split; [done|]. intros _. simpl. split_and!; [done| |done|].
      * rewrite note_update_lookup, str_eqb_refl. unfold registryAccount at 1. simpl.
        rewrite find_snoc_none by (exact Hs). simpl. rewrite str_eqb_refl. apply note_written.
      * intros t Ht. rewrite note_update_lookup, Hother by done. unfold registryAccount at 1. simpl.
        rewrite find_snoc_other by (simpl; congruence). apply Hkept.
Qed.

Lemma registryNoteAccount_spec_witness :
  let r := noted_registry (registryNoteAccount emptyAccountRegistry (JStr (u "0123456789abcdef"))
    (JObj (fields [("userId", JStr (u "u1")); ("email", JStr (u "a@b.c"))]%string)) (jz 5)) in
  let res := registryNoteAccount r (JStr (u "default"))
    (JObj (fields [("userId", JStr (u "u1"))]%string)) (jz 9) in
  registry_wf r /\ full res = false /\ active (noted_registry res) = u "default"
  /\ retired res = [u "0123456789abcdef"].
Proof.
  intros r res. assert (H : registry_wf r) by (apply registry_reachable_wf; repeat constructor).
  destruct (registryNoteAccount_spec r (JStr (u "default")) (JObj (fields [("userId", JStr (u "u1"))]%string)) (jz 9) H)
    as [_ G].
  assert (F : full res = false) by (by vm_compute). destruct (G F) as [G1 _].
  split; [exact H|]. split; [exact F|]. split; [exact G1|]. by vm_compute.
Defined.

(** ** The file *)

Definition stored_clock (a : account) : Prop := exists z, lastUsed a = numz z /\ (0 <= z < 2 ^ 53)%Z.

Lemma account_object_plain a : stored_clock a -> plain (account_object a).
Proof.
  intros (z & E & Hz). unfold account_object. rewrite E. constructor; [by vm_compute|].
  unfold fields. repeat constructor; simpl; lia.
Qed.

Lemma registry_object_plain r : Forall stored_clock (accounts r) -> plain (registry_object r).
Proof.
  intros H. unfold registry_object. generalize (accountSlot (JStr (active r))) as act.
  intros act. constructor; [by vm_compute|]. unfold fields. repeat constructor. simpl.
  apply Forall_fmap. eapply Forall_impl; [exact H|]. apply account_object_plain.
Qed.

Lemma registry_entry_object seen a : account_wf a -> stored_clock a -> slot a ∉ map slot seen ->
  registry_entry seen (account_object a) = Some a.
Proof.
  intros [Hs He Hu Hv _] (z & E & Hz) Hn. unfold registry_entry, account_object.
  change (is_object (JObj _)) with true. jfields. rewrite Hs.
  replace (existsb (fun b => str_eqb (slot b) (slot a)) seen) with false.
  - simpl. rewrite !clean_text_id by done. rewrite E. change (JNum (numz z)) with (jz z).
    rewrite clock_value_int by lia. rewrite <- E. by destruct a.
  - symmetry. apply existsb_false. intros b Hb. apply str_eqb_neq. intros Heq. apply Hn.
    rewrite <- Heq. by apply list_elem_of_fmap_2.
Qed.

Lemma registry_entries_objects l out :
  Forall account_wf l -> Forall stored_clock l -> NoDup (map slot (out ++ l)) -> length (out ++ l) <= MAX_ACCOUNTS ->
  registry_entries (map account_object l) out = out ++ l.
Proof.
  revert out; induction l as [|a l IH]; intros out Hw Hc Hd Hl; simpl; [by rewrite app_nil_r|].
  apply Forall_cons in Hw as [Ha Hw], Hc as [Hca Hc].
  rewrite length_app in Hl. simpl in Hl. destruct (Nat.ltb_spec (length out) MAX_ACCOUNTS); [|lia].
  rewrite registry_entry_object; [|done..|].
  - rewrite IH; rewrite <- ?app_assoc; try done. rewrite length_app. simpl. lia.
  - rewrite map_app in Hd. apply NoDup_app in Hd as (_ & Hd & _). intros Hin. eapply Hd; [exact Hin|by left].
Qed.

Lemma parse_registry_object r :
  registry_wf r -> Forall stored_clock (accounts r) ->
  json_parse (serializeAccountRegistry r) = Some (registry_object r) /\ serializeAccountRegistry r <> [].
Proof.
  intros Hr Hc. pose proof (registry_object_plain r Hc) as P. unfold serializeAccountRegistry.
  rewrite json_text_plain by done. split; [by apply json_roundtrip|].
  by destruct (text_opens _ P) as (c & t & -> & _).
Qed.

(** The registry survives its file: what the panel writes, it reads back,
    for clocks that are whole milliseconds. *)
Theorem account_registry_roundtrip r :
  registry_wf r -> Forall stored_clock (accounts r) ->
  parseAccountRegistry (JStr (serializeAccountRegistry r)) = r.
Proof.
  intros Hr Hc. destruct (parse_registry_object r Hr Hc) as [P NE].
  unfold parseAccountRegistry, text_or_empty. cbn [truthy to_str].
  destruct (serializeAccountRegistry r) as [|c t] eqn:E; [done|]. rewrite P. simpl default.
  unfold registry_object. change (is_object (JObj _)) with true. jfields.
  destruct Hr as [Hv Ha Hw Hd Hl]. rewrite (accountSlot_id _ Ha), Ha. cbn [to_num jz].
  rewrite num_eqb_int. simpl. rewrite registry_entries_objects by done. simpl. rewrite <- Hv. by destruct r.
Qed.

Lemma account_registry_roundtrip_witness :
  let r := mkRegistry 1 (u "default") [mkAccount (u "default") (u "a@b.c") (u "u1") [] (numz 7)] in
  registry_wf r /\ Forall stored_clock (accounts r) /\ parseAccountRegistry (JStr (serializeAccountRegistry r)) = r.
Proof.
  intros r.
  assert (H : registry_wf r).
  { split; [done|by vm_compute| | |]; simpl.
    - repeat constructor; try (by vm_compute); vm_compute; lia.
    - apply NoDup_singleton.
    - unfold MAX_ACCOUNTS. lia. }
  assert (C : Forall stored_clock (accounts r)).
  { constructor; [|constructor]. exists 7%Z. split; [done|lia]. }
  split; [exact H|]. split; [exact C|]. exact (account_registry_roundtrip r H C).
Defined.

(** ** Choosing slots *)

Definition best_other (leaving : jstr) (l : list account) (b : account) : Prop :=
  b ∈ l /\ slot b <> leaving /\ forall a, a ∈ l -> slot a <> leaving -> num_leb (lastUsed a) (lastUsed b) = true.

Lemma not_nan_of_nonneg n : num_leb (numz 0) n = true -> is_nan n = false.
Proof. by destruct n as [|[]|]. Qed.

Lemma num_leb_refl n : is_nan n = false -> num_leb n n = true.
Proof. intros H. by destruct (num_leb_total n n). Qed.

Lemma next_account_spec leaving l best :
  Forall (fun a => is_nan (lastUsed a) = false) l ->
  (forall b, best = Some b -> is_nan (lastUsed b) = false /\ slot b <> leaving) ->
  match next_account leaving l best with
  | Some b => (b ∈ l \/ best = Some b) /\ slot b <> leaving
              /\ (forall a, a ∈ l -> slot a <> leaving -> num_leb (lastUsed a) (lastUsed b) = true)
              /\ (forall a, best = Some a -> num_leb (lastUsed a) (lastUsed b) = true)
  | None => best = None /\ forall a, a ∈ l -> slot a = leaving
  end.
Proof.
  revert best; induction l as [|a l IH]; intros best Hl Hb; simpl.
  - destruct best as [b|].
    + destruct (Hb b eq_refl). split_and!; [by right|done|by intros ? ?%elem_of_nil|].
      intros ? [= <-]. by apply num_leb_refl.
    + split; [done|]. by intros ? ?%elem_of_nil.
  - apply Forall_cons in Hl as [Ha Hl]. destruct (str_eqb (slot a) leaving) eqn:E.
    + apply str_eqb_eq in E. specialize (IH best Hl Hb).
      destruct (next_account leaving l best) as [b|]; setoid_rewrite elem_of_cons; naive_solver.
    + apply str_eqb_neq in E. destruct best as [b|].
      * destruct (Hb b eq_refl) as [Hnb Hsb].
        set (c := if num_ltb (lastUsed b) (lastUsed a) then a else b).
        assert (Hc : (c = a \/ c = b) /\ num_leb (lastUsed a) (lastUsed c) = true /\ num_leb (lastUsed b) (lastUsed c) = true).
        { unfold c. destruct (num_ltb (lastUsed b) (lastUsed a)) eqn:F; split_and!; auto using num_leb_refl, num_ltb_true, num_ltb_false. }
        destruct Hc as (Hc & Hca & Hcb). clearbody c.
        assert (Hcn : forall x, Some c = Some x -> is_nan (lastUsed x) = false /\ slot x <> leaving)
          by (intros x [= <-]; destruct Hc as [-> | ->]; done).
        specialize (IH (Some c) Hl Hcn).
        destruct (next_account leaving l (Some c)) as [d|]; [|naive_solver].
        destruct IH as (I1 & I2 & I3 & I4). specialize (I4 c eq_refl). setoid_rewrite elem_of_cons.
        split_and!; [destruct I1 as [|[= <-]]; [by left; right|]; destruct Hc as [-> | ->]; auto|done| |].
        -- intros x [->|Hx] Hs; eauto using num_leb_trans.
        -- intros x [= <-]. eauto using num_leb_trans.
      * specialize (IH (Some a) Hl ltac:(intros ? [= <-]; done)).
        destruct (next_account leaving l (Some a)) as [d|]; [|naive_solver].
        destruct IH as (I1 & I2 & I3 & I4). specialize (I4 a eq_refl). setoid_rewrite elem_of_cons.
        split_and!; [destruct I1 as [|[= <-]]; auto|done| |done].
        intros x [->|Hx] Hs; eauto.
Qed.

(** The account shown after one goes away is the most recently used other
    one; there is none only when no other account is left. *)
Lemma registryNextAccount_spec r leaving :
  registry_wf r ->
  (forall b, registryAccount r (registryNextAccount r leaving) = Some b -> best_other leaving (accounts r) b) /\
  (registryNextAccount r leaving = [] <-> forall a, a ∈ accounts r -> slot a = leaving).
Proof.
  intros Hr. pose proof (next_account_spec leaving (accounts r) None) as H. unfold registryNextAccount.
  destruct (next_account leaving (accounts r) None) as [b|].
  - destruct H as ([Hin|[=]] & Hs & Hmax & _); [|done|].
    { eapply Forall_impl; [exact (wf_accounts _ Hr)|]. intros a [_ _ _ _ Ha]. by apply not_nan_of_nonneg. }
    split.
    + intros c Hc. apply (registryAccount_elem r _ c (wf_distinct _ Hr)) in Hc as [Hc E].
      assert (registryAccount r (slot b) = Some b) as Eb by (by apply registryAccount_elem; [apply Hr|]).
      assert (registryAccount r (slot b) = Some c) as Ec by (by apply registryAccount_elem; [apply Hr|]).
      simplify_eq. done.
    + split; [|intros Ha; by specialize (Ha b Hin)]. intros E. exfalso.
      pose proof (wf_accounts _ Hr) as Hw. rewrite Forall_forall in Hw. specialize (Hw b Hin) as [Hsl _ _ _ _].
      rewrite E in Hsl. by vm_compute in Hsl.
  - destruct H as [_ H]; [|done|].
    { eapply Forall_impl; [exact (wf_accounts _ Hr)|]. intros a [_ _ _ _ Ha]. by apply not_nan_of_nonneg. }
    split; [|done]. intros b Hb. apply (registryAccount_elem r _ b (wf_distinct _ Hr)) in Hb as [Hb E].
    pose proof (wf_accounts _ Hr) as Hw. rewrite Forall_forall in Hw. specialize (Hw b Hb) as [Hsl _ _ _ _].
    rewrite E in Hsl. by vm_compute in Hsl.
Qed.

Lemma split_at_sign (b c s t : jstr) : 64%N ∉ b -> 64%N ∉ c -> b ++ 64%N :: s = c ++ 64%N :: t -> b = c /\ s = t.
Proof.
  revert c; induction b as [|x b IH]; intros [|y c] Hb Hc E; simpl in E.
  - by injection E.
  - injection E as <- _. destruct Hc. by left.
  - injection E as -> _. destruct Hb. by left.
  - injection E as -> E. rewrite elem_of_cons in Hb, Hc. destruct (IH c) as [-> ->]; naive_solver.
Qed.

Lemma at_sign : u "@" = [64%N].
Proof. by vm_compute. Qed.

(** The keyring entries of two slots never coincide: an entry's name gives
    back its base name and its slot, for base names without an "@" (the
    plugin's have none). *)
Theorem keyringEntryName_inj b c s t :
  isAccountSlot s = true -> isAccountSlot t = true -> 64%N ∉ b -> 64%N ∉ c ->
  keyringEntryName b (JStr s) = keyringEntryName c (JStr t) -> b = c /\ s = t.
Proof.
  intros Hs Ht Hb Hc. unfold keyringEntryName. rewrite !accountSlot_id by done. rewrite at_sign.
  destruct (str_eqb s DEFAULT_ACCOUNT_SLOT) eqn:Es, (str_eqb t DEFAULT_ACCOUNT_SLOT) eqn:Et.
  - apply str_eqb_eq in Es, Et. naive_solver.
  - intros ->. destruct Hb. rewrite !elem_of_app, list_elem_of_singleton. auto.
  - intros <-. destruct Hc. rewrite !elem_of_app, list_elem_of_singleton. auto.
  - apply split_at_sign; done.
Qed.

Lemma keyringEntryName_inj_witness :
  isAccountSlot (u "default") = true /\ isAccountSlot (u "0123456789abcdef") = true /\
  (keyringEntryName (u "session") (JStr (u "default")) = keyringEntryName (u "session") (JStr (u "0123456789abcdef"))
   -> u "session" = u "session" /\ u "default" = u "0123456789abcdef").
Proof.
  split; [by vm_compute|]. split; [by vm_compute|].
  apply (keyringEntryName_inj (u "session") (u "session")).
  - by vm_compute.
  - by vm_compute.
  - by apply (bool_decide_eq_false_1 (64%N ∈ u "session")).
  - by apply (bool_decide_eq_false_1 (64%N ∈ u "session")).
Defined.

Definition random_digits (rnd : nat -> N) : Prop := forall i, (rnd i < 16)%N.

Lemma digit_unit_hex d : (d < 16)%N -> is_hex_lower (digit_unit d) = true.
Proof.
  intros H. unfold digit_unit, is_hex_lower, is_digit, in_range.
  destruct (N.ltb_spec d 10); rewrite orb_true_iff, !andb_true_iff, !N.leb_le; lia.
Qed.

Lemma random_slot_valid rnd i : random_digits rnd -> isAccountSlot (random_slot rnd i) = true.
Proof.
  intros H. unfold isAccountSlot, ACCOUNT_SLOT_RE, random_slot. rewrite length_map, length_seq, Nat.eqb_refl.
  apply orb_true_iff. right. apply andb_true_iff. split; [done|]. apply forallb_forall.
  intros c (j & <- & _)%in_map_iff. by apply digit_unit_hex.
Qed.

(** A new sign-in never lands on a slot that holds an account: it goes to
    the default slot exactly when nothing holds it, else to a fresh valid
    slot, or nowhere (every attempt collided). *)
Theorem slotForNewAccount_free rnd r :
  random_digits rnd ->
  let s := slotForNewAccount rnd r in
  (registryHasAccount r DEFAULT_ACCOUNT_SLOT = false -> s = DEFAULT_ACCOUNT_SLOT) /\
  (s <> [] -> isAccountSlot s = true /\ registryHasAccount r s = false).
Proof.
  intros H. cbv zeta. unfold slotForNewAccount.
  destruct (registryHasAccount r DEFAULT_ACCOUNT_SLOT) eqn:E; [|by split; [|split; [vm_compute|]]].
  split; [done|]. unfold newAccountSlot.
  destruct (find_first _ _) as [s|] eqn:F; [|done]. intros _. simpl.
  apply find_first_some in F as [Hin Hn]. apply list_elem_of_fmap in Hin as (i & -> & _).
  split; [by apply random_slot_valid|]. apply bool_decide_eq_false. intros [a Ha].
  apply find_first_some in Ha as [Ha Hs]. apply str_eqb_eq in Hs.
  apply negb_true_iff in Hn. rewrite existsb_false in Hn.
  specialize (Hn (slot a)). rewrite Hs, str_eqb_refl in Hn. discriminate Hn.
  rewrite <- Hs. by apply list_elem_of_fmap_2.
Qed.

Lemma slotForNewAccount_free_witness :
  let r := mkRegistry 1 (u "default") [mkAccount (u "default") (u "a@b.c") (u "u1") [] (numz 7)] in
  random_digits (fun i => N.of_nat (i mod 16)) /\
  isAccountSlot (slotForNewAccount (fun i => N.of_nat (i mod 16)) r) = true.
Proof.
  intros r. assert (H : random_digits (fun i => N.of_nat (i mod 16))).
  { intros i. pose proof (Nat.mod_upper_bound i 16 ltac:(lia)). lia. }
  split; [exact H|]. refine (proj1 (proj2 (slotForNewAccount_free _ r H) _)). by vm_compute.
Defined.
