(* ===== verification/Hash.v ===== *)
(** * SHA-1 and SHA-256

    The two hash functions of [src/TotpModel.js] (and the copy of SHA-256 in
    [src/BitwardenModel.js]) over byte arrays, on JavaScript's 32-bit integers:
    the bitwise operators convert to a signed word, [>>>] to an unsigned one,
    and [| 0] wraps a sum. [Fips] states the functions as FIPS 180-4 does, on
    words modulo 2^32; the theorems show that the code computes them. *)

From stdpp Require Import base list numbers strings.
From Stdlib Require Import Btauto.
From S2P Require Import Prelude.
From S2P Require Import JsValue.
Local Open Scope Z_scope.

(** ** 32-bit operators *)

Definition uint32 (x : Z) : Z := x mod 4294967296.

Definition band (x y : Z) : Z := Z.land (wrap32 x) (wrap32 y).
Definition bor (x y : Z) : Z := Z.lor (wrap32 x) (wrap32 y).
Definition bxor (x y : Z) : Z := Z.lxor (wrap32 x) (wrap32 y).
Definition bnot (x : Z) : Z := Z.lnot (wrap32 x).
Definition shl (x n : Z) : Z := wrap32 (Z.shiftl (wrap32 x) n).
Definition ushr (x n : Z) : Z := Z.shiftr (uint32 x) n.

Definition rotl (x n : Z) : Z := bor (shl x n) (ushr x (32 - n)).
Definition rotr (x n : Z) : Z := bor (ushr x n) (shl x (32 - n)).

Definition byte_at (m : list Z) (i : nat) : Z := nth i m 0.

(** [(m[o] << 24) | (m[o + 1] << 16) | (m[o + 2] << 8) | m[o + 3]] *)
Definition word_at (m : list Z) (o : nat) : Z :=
  bor (bor (bor (shl (byte_at m o) 24) (shl (byte_at m (o + 1)) 16)) (shl (byte_at m (o + 2)) 8)) (byte_at m (o + 3)).

(** The four bytes of [x], as [(x >>> s) & 0xff] for s = 24, 16, 8, 0. *)
Definition word_bytes (x : Z) : list Z := map (fun s => band (ushr x s) 255) [24; 16; 8; 0].

Definition wordsToBytes (words : list Z) : list Z := concat (map word_bytes words).

(** ** Padding *)

(** The loop adds at most 63 zeros. *)
Fixpoint pad_zeros (fuel : nat) (l : list Z) : list Z :=
  match fuel with
  | O => l
  | S f => if (length l mod 64 =? 56)%nat then l else pad_zeros f (l ++ [0])
  end.

Definition padMessage (bytes : list Z) : list Z :=
  let bitLength := Z.of_nat (length bytes) * 8 in
  pad_zeros 64 (bytes ++ [128]) ++ word_bytes (bitLength / 4294967296) ++ word_bytes bitLength.

(** The message in blocks of 64 bytes. *)
Definition block_offsets (m : list Z) : list nat := map (fun i => i * 64)%nat (seq 0 (length m / 64)).

(** ** SHA-1 *)

Definition schedule1 (m : list Z) (off : nat) : list Z :=
  fold_left (fun w t =>
    w ++ [rotl (bxor (bxor (bxor (nth (t - 3) w 0) (nth (t - 8) w 0)) (nth (t - 14) w 0)) (nth (t - 16) w 0)) 1])
    (seq 16 64) (map (fun i => word_at m (off + i * 4)) (seq 0 16)).

Definition sha1_f (s : nat) (b c d : Z) : Z * Z :=
  if (s <? 20)%nat then (bor (band b c) (band (bnot b) d), 1518500249)
  else if (s <? 40)%nat then (bxor (bxor b c) d, 1859775393)
  else if (s <? 60)%nat then (bor (bor (band b c) (band b d)) (band c d), 2400959708)
  else (bxor (bxor b c) d, 3395469782).

Definition sha1_round (w : list Z) (st : Z * Z * Z * Z * Z) (s : nat) : Z * Z * Z * Z * Z :=
  let '(a, b, c, d, e) := st in
  let '(f, k) := sha1_f s b c d in
  let temp := wrap32 (rotl a 5 + f + e + k + nth s w 0) in
  (temp, a, rotl b 30, c, d).

Definition sha1_block (m : list Z) (h : Z * Z * Z * Z * Z) (off : nat) : Z * Z * Z * Z * Z :=
  let '(h0, h1, h2, h3, h4) := h in
  let '(a, b, c, d, e) := fold_left (sha1_round (schedule1 m off)) (seq 0 80) h in
  (wrap32 (h0 + a), wrap32 (h1 + b), wrap32 (h2 + c), wrap32 (h3 + d), wrap32 (h4 + e)).

Definition sha1_init : Z * Z * Z * Z * Z := (1732584193, 4023233417, 2562383102, 271733878, 3285377520).

Definition sha1 (bytes : list Z) : list Z :=
  let m := padMessage bytes in
  let '(h0, h1, h2, h3, h4) := fold_left (sha1_block m) (block_offsets m) sha1_init in
  wordsToBytes [h0; h1; h2; h3; h4].

(** ** SHA-256 *)

(** The round constants of [K256], in decimal (the code's spelling of each row beside it); [K256_code]
    below derives them from the primes. *)
Definition SHA256_K : list Z := [
  (* 428a2f98 71374491 b5c0fbcf e9b5dba5 *) 1116352408; 1899447441; 3049323471; 3921009573;
  (* 3956c25b 59f111f1 923f82a4 ab1c5ed5 *) 961987163; 1508970993; 2453635748; 2870763221;
  (* d807aa98 12835b01 243185be 550c7dc3 *) 3624381080; 310598401; 607225278; 1426881987;
  (* 72be5d74 80deb1fe 9bdc06a7 c19bf174 *) 1925078388; 2162078206; 2614888103; 3248222580;
  (* e49b69c1 efbe4786 0fc19dc6 240ca1cc *) 3835390401; 4022224774; 264347078; 604807628;
  (* 2de92c6f 4a7484aa 5cb0a9dc 76f988da *) 770255983; 1249150122; 1555081692; 1996064986;
  (* 983e5152 a831c66d b00327c8 bf597fc7 *) 2554220882; 2821834349; 2952996808; 3210313671;
  (* c6e00bf3 d5a79147 06ca6351 14292967 *) 3336571891; 3584528711; 113926993; 338241895;
  (* 27b70a85 2e1b2138 4d2c6dfc 53380d13 *) 666307205; 773529912; 1294757372; 1396182291;
  (* 650a7354 766a0abb 81c2c92e 92722c85 *) 1695183700; 1986661051; 2177026350; 2456956037;
  (* a2bfe8a1 a81a664b c24b8b70 c76c51a3 *) 2730485921; 2820302411; 3259730800; 3345764771;
  (* d192e819 d6990624 f40e3585 106aa070 *) 3516065817; 3600352804; 4094571909; 275423344;
  (* 19a4c116 1e376c08 2748774c 34b0bcb5 *) 430227734; 506948616; 659060556; 883997877;
  (* 391c0cb3 4ed8aa4a 5b9cca4f 682e6ff3 *) 958139571; 1322822218; 1537002063; 1747873779;
  (* 748f82ee 78a5636f 84c87814 8cc70208 *) 1955562222; 2024104815; 2227730452; 2361852424;
  (* 90befffa a4506ceb bef9a3f7 c67178f2 *) 2428436474; 2756734187; 3204031479; 3329325298].

Definition sigma_small (x r1 r2 s : Z) : Z := bxor (bxor (rotr x r1) (rotr x r2)) (ushr x s).
Definition sigma_big (x r1 r2 r3 : Z) : Z := bxor (bxor (rotr x r1) (rotr x r2)) (rotr x r3).

Definition schedule256 (m : list Z) (off : nat) : list Z :=
  fold_left (fun w t =>
    let s0 := sigma_small (nth (t - 15) w 0) 7 18 3 in
    let s1 := sigma_small (nth (t - 2) w 0) 17 19 10 in
    w ++ [wrap32 (nth (t - 16) w 0 + s0 + nth (t - 7) w 0 + s1)])
    (seq 16 48) (map (fun i => word_at m (off + i * 4)) (seq 0 16)).

Definition state8 : Type := Z * Z * Z * Z * Z * Z * Z * Z.

Definition sha256_round (w : list Z) (st : state8) (r : nat) : state8 :=
  let '(a, b, c, d, e, f, g, hh) := st in
  let S1 := sigma_big e 6 11 25 in
  let ch := bxor (band e f) (band (bnot e) g) in
  let temp1 := wrap32 (hh + S1 + ch + nth r SHA256_K 0 + nth r w 0) in
  let S0 := sigma_big a 2 13 22 in
  let maj := bxor (bxor (band a b) (band a c)) (band b c) in
  let temp2 := wrap32 (S0 + maj) in
  (wrap32 (temp1 + temp2), a, b, c, wrap32 (d + temp1), e, f, g).

Definition sha256_block (m : list Z) (h : state8) (off : nat) : state8 :=
  let '(h0, h1, h2, h3, h4, h5, h6, h7) := h in
  let '(a, b, c, d, e, f, g, hh) := fold_left (sha256_round (schedule256 m off)) (seq 0 64) h in
  (wrap32 (h0 + a), wrap32 (h1 + b), wrap32 (h2 + c), wrap32 (h3 + d),
   wrap32 (h4 + e), wrap32 (h5 + f), wrap32 (h6 + g), wrap32 (h7 + hh)).

Definition sha256_init : state8 :=
  (0x6a09e667, 0xbb67ae85, 0x3c6ef372, 0xa54ff53a, 0x510e527f, 0x9b05688c, 0x1f83d9ab, 0x5be0cd19).

(** The eight words of the digest. *)
Definition sha256_words (m : list Z) : list Z :=
  let '(h0, h1, h2, h3, h4, h5, h6, h7) := fold_left (sha256_block m) (block_offsets m) sha256_init in
  [h0; h1; h2; h3; h4; h5; h6; h7].

Definition sha256 (bytes : list Z) : list Z := wordsToBytes (sha256_words (padMessage bytes)).

(** ** HMAC *)

Definition block_size : nat := 64.

Definition hmac (hashFn : list Z -> list Z) (key message : list Z) : list Z :=
  let k := if (block_size <? length key)%nat then hashFn key else key in
  let k := k ++ replicate (block_size - length k) 0 in
  let inner := map (fun i => bxor (byte_at k i) 0x36) (seq 0 block_size) in
  let outer := map (fun i => bxor (byte_at k i) 0x5c) (seq 0 block_size) in
  hashFn (outer ++ hashFn (inner ++ message)).

(** ** FIPS 180-4 and RFC 2104 *)

Module Fips.
Definition word (x : Z) : Z := x mod 2 ^ 32.
Definition ROTR (n x : Z) : Z := Z.lor (Z.shiftr x n) (word (Z.shiftl x (32 - n))).
Definition ROTL (n x : Z) : Z := ROTR (32 - n) x.
Definition NOT (x : Z) : Z := 2 ^ 32 - 1 - x.
Definition Ch (x y z : Z) : Z := Z.lxor (Z.land x y) (Z.land (NOT x) z).
Definition Parity (x y z : Z) : Z := Z.lxor (Z.lxor x y) z.
Definition Maj (x y z : Z) : Z := Z.lxor (Z.lxor (Z.land x y) (Z.land x z)) (Z.land y z).

(** The message followed by one bit, zeros and its length in 64 bits. *)
Definition bytes_be (n : nat) (x : Z) : list Z := map (fun i => (x / 256 ^ Z.of_nat (n - 1 - i)) mod 256) (seq 0 n).
Definition pad (l : list Z) : list Z :=
  l ++ [128] ++ replicate ((119 - length l mod 64) mod 64) 0 ++ bytes_be 8 (8 * Z.of_nat (length l)).

(** Big-endian words of four bytes, in blocks of sixteen. *)
Definition be (l : list Z) : Z := fold_left (fun a b => a * 256 + b) l 0.
Definition message_word (l : list Z) (i : nat) : Z := be (take 4 (drop (4 * i) l)).
Definition block (l : list Z) (n : nat) : list Z := map (fun i => message_word l (16 * n + i)) (seq 0 16).
Definition blocks (l : list Z) : list (list Z) := map (block l) (seq 0 (length l / 64)).

Definition W1 (block : list Z) : list Z :=
  fold_left (fun w t =>
    w ++ [ROTL 1 (Z.lxor (Z.lxor (Z.lxor (nth (t - 3) w 0) (nth (t - 8) w 0)) (nth (t - 14) w 0)) (nth (t - 16) w 0))])
    (seq 16 64) block.

Definition f1 (t : nat) (x y z : Z) : Z :=
  if (t <? 20)%nat then Ch x y z else if (t <? 40)%nat then Parity x y z
  else if (t <? 60)%nat then Maj x y z else Parity x y z.
Definition K1 (t : nat) : Z :=
  if (t <? 20)%nat then 0x5a827999 else if (t <? 40)%nat then 0x6ed9eba1
  else if (t <? 60)%nat then 0x8f1bbcdc else 0xca62c1d6.

Definition step1 (w : list Z) (st : Z * Z * Z * Z * Z) (t : nat) : Z * Z * Z * Z * Z :=
  let '(a, b, c, d, e) := st in
  (word (ROTL 5 a + f1 t b c d + e + K1 t + nth t w 0), a, ROTL 30 b, c, d).

Definition compress1 (h : Z * Z * Z * Z * Z) (block : list Z) : Z * Z * Z * Z * Z :=
  let '(h0, h1, h2, h3, h4) := h in
  let '(a, b, c, d, e) := fold_left (step1 (W1 block)) (seq 0 80) h in
  (word (h0 + a), word (h1 + b), word (h2 + c), word (h3 + d), word (h4 + e)).

Definition SHA1 (l : list Z) : list Z :=
  let '(h0, h1, h2, h3, h4) :=
    fold_left compress1 (blocks (pad l)) (0x67452301, 0xefcdab89, 0x98badcfe, 0x10325476, 0xc3d2e1f0) in
  concat (map (bytes_be 4) [h0; h1; h2; h3; h4]).

Definition Sigma0 (x : Z) : Z := Z.lxor (Z.lxor (ROTR 2 x) (ROTR 13 x)) (ROTR 22 x).
Definition Sigma1 (x : Z) : Z := Z.lxor (Z.lxor (ROTR 6 x) (ROTR 11 x)) (ROTR 25 x).
Definition sigma0 (x : Z) : Z := Z.lxor (Z.lxor (ROTR 7 x) (ROTR 18 x)) (Z.shiftr x 3).
Definition sigma1 (x : Z) : Z := Z.lxor (Z.lxor (ROTR 17 x) (ROTR 19 x)) (Z.shiftr x 10).

Definition W256 (block : list Z) : list Z :=
  fold_left (fun w t =>
    w ++ [word (sigma1 (nth (t - 2) w 0) + nth (t - 7) w 0 + sigma0 (nth (t - 15) w 0) + nth (t - 16) w 0)])
    (seq 16 48) block.

(** The constants as the standard describes them: the first 32 bits of the fractional parts of the cube roots
    of the first 64 primes. *)
Definition cube_root (n : Z) : Z :=
  fold_left (fun r i => let r' := r + 2 ^ Z.of_nat i in if r' * r' * r' <=? n then r' else r) (rev (seq 0 40)) 0.

Definition is_prime (n : nat) : bool :=
  forallb (fun d => negb (n mod d =? 0)%nat) (seq 2 (n - 2)).

Definition K256 : list Z :=
  map (fun p => cube_root (Z.of_nat p * 2 ^ 96) mod 2 ^ 32) (List.filter is_prime (seq 2 310)).

Definition step256 (w : list Z) (st : state8) (t : nat) : state8 :=
  let '(a, b, c, d, e, f, g, h) := st in
  let T1 := word (h + Sigma1 e + Ch e f g + nth t K256 0 + nth t w 0) in
  let T2 := word (Sigma0 a + Maj a b c) in
  (word (T1 + T2), a, b, c, word (d + T1), e, f, g).

Definition compress256 (h : state8) (block : list Z) : state8 :=
  let '(h0, h1, h2, h3, h4, h5, h6, h7) := h in
  let '(a, b, c, d, e, f, g, hh) := fold_left (step256 (W256 block)) (seq 0 64) h in
  (word (h0 + a), word (h1 + b), word (h2 + c), word (h3 + d),
   word (h4 + e), word (h5 + f), word (h6 + g), word (h7 + hh)).

(** The initial hash value: the first 32 bits of the fractional parts of the square roots of the first 8 primes. *)
Definition H256 : state8 :=
  let root (p : Z) := Z.sqrt (p * 2 ^ 64) mod 2 ^ 32 in
  (root 2, root 3, root 5, root 7, root 11, root 13, root 17, root 19).

Definition SHA256_words (l : list Z) : list Z :=
  let '(h0, h1, h2, h3, h4, h5, h6, h7) := fold_left compress256 (blocks (pad l)) H256 in
  [h0; h1; h2; h3; h4; h5; h6; h7].

Definition SHA256 (l : list Z) : list Z := concat (map (bytes_be 4) (SHA256_words l)).

(** HMAC with a block of 64 bytes. *)
Definition HMAC (H : list Z -> list Z) (key text : list Z) : list Z :=
  let k0 := if (length key <=? 64)%nat then key ++ replicate (64 - length key) 0
            else H key ++ replicate (64 - length (H key)) 0 in
  H (map (Z.lxor 0x5c) k0 ++ H (map (Z.lxor 0x36) k0 ++ text)).
End Fips.

(** ** Lemmas *)

Import Fips.

(** [bitwise]: an identity of the bitwise operators, bit by bit. *)
Ltac bitwise :=
  apply Z.bits_inj'; intros ? ?;
  rewrite ?Z.land_spec, ?Z.lor_spec, ?Z.lxor_spec, ?Z.lnot_spec, ?Z.land_spec, ?Z.lor_spec, ?Z.lxor_spec,
    ?Z.lnot_spec, ?Z.land_spec by done;
  btauto.

Lemma K256_code : K256 = SHA256_K.
Proof. vm_compute. reflexivity. Qed.

Lemma word_ones x : word x = Z.land x (Z.ones 32).
Proof. unfold word. rewrite Z.land_ones; lia. Qed.

Lemma uint32_word x : uint32 x = word x.
Proof. done. Qed.

Lemma word_range x : 0 <= word x < 2 ^ 32.
Proof. apply Z.mod_pos_bound. lia. Qed.

Lemma word_id x : 0 <= x < 2 ^ 32 -> word x = x.
Proof. apply Z.mod_small. Qed.

Lemma word_word x : word (word x) = word x.
Proof. apply Z.mod_mod. lia. Qed.

Lemma word_wrap32 x : word (wrap32 x) = word x.
Proof.
  unfold word, wrap32. change (2 ^ 32) with 4294967296. cbv zeta.
  destruct (Z.ltb_spec (x mod 4294967296) 2147483648); [apply Z.mod_mod; lia|].
  rewrite Zminus_mod, Z.mod_same, Z.sub_0_r, !Z.mod_mod; lia.
Qed.

Lemma word_land x y : word (Z.land x y) = Z.land (word x) (word y).
Proof. rewrite !word_ones. bitwise. Qed.

Lemma word_lor x y : word (Z.lor x y) = Z.lor (word x) (word y).
Proof. rewrite !word_ones. bitwise. Qed.
Lemma word_lxor x y : word (Z.lxor x y) = Z.lxor (word x) (word y).
Proof. rewrite !word_ones. bitwise. Qed.

Lemma word_lnot x : word (Z.lnot x) = NOT (word x).
Proof.
  unfold word, NOT. pose proof (Z.div_mod x (2 ^ 32) ltac:(lia)). pose proof (Z.mod_pos_bound x (2 ^ 32) ltac:(lia)).
  symmetry. apply (Z.mod_unique _ _ (- (x / 2 ^ 32) - 1)); [left; lia|]. unfold Z.lnot. lia.
Qed.

Lemma word_band x y : word (band x y) = Z.land (word x) (word y).
Proof. unfold band. by rewrite word_land, !word_wrap32. Qed.
Lemma word_bor x y : word (bor x y) = Z.lor (word x) (word y).
Proof. unfold bor. by rewrite word_lor, !word_wrap32. Qed.
Lemma word_bxor x y : word (bxor x y) = Z.lxor (word x) (word y).
Proof. unfold bxor. by rewrite word_lxor, !word_wrap32. Qed.
Lemma word_bnot x : word (bnot x) = NOT (word x).
Proof. unfold bnot. by rewrite word_lnot, word_wrap32. Qed.

Lemma word_add x y : word (x + y) = word (word x + word y).
Proof. unfold word. by rewrite Zplus_mod. Qed.
Lemma word_add_l x y : word (word x + y) = word (x + y).
Proof. unfold word. by rewrite Zplus_mod_idemp_l. Qed.
Lemma word_add_r x y : word (x + word y) = word (x + y).
Proof. unfold word. by rewrite Zplus_mod_idemp_r. Qed.

(** Equality of words: the congruence modulo 2^32, for setoid rewriting. *)
Definition eqw (x y : Z) : Prop := word x = word y.

#[export] Instance eqw_equivalence : Equivalence eqw.
Proof. unfold eqw. split; [done|by intros x y|intros x y z; congruence]. Qed.

#[export] Instance add_eqw : Proper (eqw ==> eqw ==> eqw) Z.add.
Proof. unfold eqw. intros x x' Hx y y' Hy. by rewrite word_add, Hx, Hy, <- word_add. Qed.

Lemma eqw_word x : eqw (word x) x.
Proof. apply word_word. Qed.
Lemma eqw_wrap32 x : eqw (wrap32 x) x.
Proof. apply word_wrap32. Qed.

(** [word_sum]: two sums of words are equal up to order and wrapping. *)
Ltac word_sum :=
  match goal with |- word ?x = word ?y => change (eqw x y) end;
  rewrite ?eqw_wrap32, ?eqw_word; unfold eqw; f_equal; ring.

(** [pairwise]: split an equation of tuples, leaving what is not trivial. *)
Ltac pairwise :=
  repeat match goal with |- (_, _) = (_, _) => apply (f_equal2 pair) end; try reflexivity.

Lemma word_mul_l x y : word (word x * y) = word (x * y).
Proof. unfold word. by rewrite Zmult_mod_idemp_l. Qed.

Lemma word_shl x n : 0 <= n -> word (shl x n) = word (Z.shiftl (word x) n).
Proof.
  intros Hn. unfold shl. rewrite word_wrap32, !Z.shiftl_mul_pow2 by done.
  by rewrite <- (word_mul_l (wrap32 x)), word_wrap32.
Qed.

Lemma ushr_range x n : 0 <= n -> 0 <= ushr x n < 2 ^ 32.
Proof.
  intros Hn. unfold ushr. rewrite uint32_word. pose proof (word_range x). rewrite Z.shiftr_div_pow2 by done.
  pose proof (Z.pow_pos_nonneg 2 n ltac:(lia) Hn). split; [apply Z.div_pos; lia|].
  apply Z.div_lt_upper_bound; [lia|]. nia.
Qed.

Lemma word_ushr x n : 0 <= n -> word (ushr x n) = Z.shiftr (word x) n.
Proof. intros Hn. by rewrite (word_id _ (ushr_range x n Hn)). Qed.

Lemma word_rotr x n : 0 <= n <= 32 -> word (rotr x n) = ROTR n (word x).
Proof. intros Hn. unfold rotr, ROTR. by rewrite word_bor, word_ushr, word_shl by lia. Qed.

Lemma word_rotl x n : 0 <= n <= 32 -> word (rotl x n) = ROTL n (word x).
Proof.
  intros Hn. unfold rotl, ROTL, ROTR. rewrite word_bor, word_ushr, word_shl by lia.
  replace (32 - (32 - n)) with n by lia. apply Z.lor_comm.
Qed.

(** FIPS writes the choice and majority functions with exclusive or. *)
Lemma NOT_land x : 0 <= x < 2 ^ 32 -> NOT x = Z.land (Z.lnot x) (Z.ones 32).
Proof. intros Hx. rewrite <- word_ones, word_lnot. by rewrite word_id. Qed.

Lemma Ch_lor x y z : 0 <= x < 2 ^ 32 -> Z.lor (Z.land x y) (Z.land (NOT x) z) = Ch x y z.
Proof. intros Hx. unfold Ch. rewrite NOT_land by done. bitwise. Qed.

Lemma Maj_lor x y z : Z.lor (Z.lor (Z.land x y) (Z.land x z)) (Z.land y z) = Maj x y z.
Proof. unfold Maj. bitwise. Qed.

#[export] Hint Rewrite word_band word_bor word_bxor word_bnot word_wrap32 word_word : qsword.
#[export] Hint Rewrite word_rotr word_rotl word_ushr using lia : qsword.

(** *** Padding *)

Lemma pad_zeros_spec fuel l k :
  (k < fuel)%nat -> (forall j, (j < k)%nat -> ((length l + j) mod 64 <> 56)%nat) -> ((length l + k) mod 64 = 56)%nat ->
  pad_zeros fuel l = l ++ replicate k 0.
Proof.
  revert l k; induction fuel as [|f IH]; intros l k Hk Hj He; [lia|]. cbn [pad_zeros].
  destruct k as [|k].
  - rewrite Nat.add_0_r in He. rewrite He. by rewrite app_nil_r.
  - specialize (Hj 0%nat ltac:(lia)) as H0. rewrite Nat.add_0_r in H0. rewrite (proj2 (Nat.eqb_neq _ _)) by done.
    rewrite (IH _ k); [by rewrite <- app_assoc|lia| |].
    + intros j Hlt. rewrite length_app. simpl length. rewrite <- Nat.add_assoc. apply Hj. lia.
    + rewrite length_app. simpl length. by rewrite <- Nat.add_assoc.
Qed.

Lemma pad_zeros_count n : let k := ((119 - n mod 64) mod 64)%nat in
  (forall j, (j < k)%nat -> ((n + 1 + j) mod 64 <> 56)%nat) /\ ((n + 1 + k) mod 64 = 56)%nat /\ (k < 64)%nat.
Proof.
  cbv zeta. pose proof (Nat.mod_upper_bound n 64 ltac:(lia)) as B. pose proof (Nat.div_mod_eq n 64) as D.
  set (r := (n mod 64)%nat) in *. set (q := (n / 64)%nat) in *.
  assert (E : ((119 - r) mod 64 = if r <=? 55 then 55 - r else 119 - r)%nat).
  { destruct (Nat.leb_spec r 55).
    - symmetry. apply (Nat.mod_unique _ _ 1); lia.
    - apply Nat.mod_small. lia. }
  rewrite E. rewrite D. split_and!.
  - intros j Hj. destruct (Nat.leb_spec r 55) as [H|H].
    + rewrite <- (Nat.mod_unique (64 * q + r + 1 + j) 64 q (r + 1 + j)); lia.
    + destruct (decide (r + 1 + j < 64)%nat) as [G|G].
      * rewrite <- (Nat.mod_unique (64 * q + r + 1 + j) 64 q (r + 1 + j)); lia.
      * rewrite <- (Nat.mod_unique (64 * q + r + 1 + j) 64 (q + 1) (r + 1 + j - 64)); lia.
  - destruct (Nat.leb_spec r 55).
    + symmetry. apply (Nat.mod_unique _ _ q); lia.
    + symmetry. apply (Nat.mod_unique _ _ (q + 1)); lia.
  - destruct (Nat.leb_spec r 55); lia.
Qed.

(** *** Bytes and words *)

Lemma low_byte_of_word y s : 0 <= s <= 24 -> (word y / 2 ^ s) mod 256 = (y / 2 ^ s) mod 256.
Proof.
  intros Hs. unfold word. rewrite (Z.div_mod y (2 ^ 32)) at 2 by lia.
  replace (2 ^ 32 * (y / 2 ^ 32)) with ((y / 2 ^ 32 * 2 ^ (24 - s) * 256) * 2 ^ s).
  - rewrite Z.div_add_l by (apply Z.pow_nonzero; lia). rewrite Z.add_comm. by rewrite Z_mod_plus_full.
  - change 256 with (2 ^ 8). rewrite <- !Z.mul_assoc, <- !Z.pow_add_r by lia.
    replace (24 - s + (8 + s)) with 32 by lia. lia.
Qed.

Lemma low_byte_band y : band y 255 = word y mod 256.
Proof.
  unfold band. change (wrap32 255) with (Z.ones 8). rewrite Z.land_ones by lia. change (2 ^ 8) with 256.
  pose proof (low_byte_of_word (wrap32 y) 0 ltac:(lia)) as H. pose proof (low_byte_of_word (word y) 0 ltac:(lia)) as G.
  change (2 ^ 0) with 1 in H, G. rewrite !Z.div_1_r in H, G. by rewrite <- H, word_wrap32.
Qed.

Lemma word_bytes_be x : word_bytes x = bytes_be 4 x.
Proof.
  unfold word_bytes, bytes_be. cbn [map seq].
  assert (G : forall s, 0 <= s <= 24 -> band (ushr x s) 255 = (x / 2 ^ s) mod 256).
  { intros s Hs. rewrite low_byte_band, word_ushr, Z.shiftr_div_pow2 by lia. by apply low_byte_of_word. }
  rewrite !G by lia. done.
Qed.

Lemma bytes_be_word x : bytes_be 4 (word x) = bytes_be 4 x.
Proof.
  unfold bytes_be. apply map_ext_in. intros i Hi%in_seq. change 256 with (2 ^ 8) at 1 3.
  rewrite <- Z.pow_mul_r by lia. apply low_byte_of_word. lia.
Qed.

Lemma wordsToBytes_be ws : wordsToBytes ws = concat (map (bytes_be 4) (map word ws)).
Proof.
  unfold wordsToBytes. rewrite map_map. f_equal. apply map_ext. intros x.
  by rewrite word_bytes_be, bytes_be_word.
Qed.

Lemma padMessage_pad l : padMessage l = pad l.
Proof.
  unfold padMessage, pad. destruct (pad_zeros_count (length l)) as (H1 & H2 & H3).
  rewrite (pad_zeros_spec 64 (l ++ [128]) ((119 - length l mod 64) mod 64)); [|done| |].
  - rewrite <- !app_assoc. f_equal. f_equal. f_equal. rewrite Z.mul_comm, !word_bytes_be.
    unfold bytes_be. cbn [map seq app Nat.sub]. by rewrite !Z.div_div by lia.
  - intros j Hj. rewrite length_app. simpl length. apply H1. done.
  - rewrite length_app. simpl length. apply H2.
Qed.

(** A byte array. *)
Definition bytes (l : list Z) : Prop := Forall (fun b => 0 <= b < 256) l.

Lemma bytes_be_bytes n x : bytes (bytes_be n x).
Proof. unfold bytes, bytes_be. apply Forall_map, Forall_true. intros i. apply Z.mod_pos_bound. lia. Qed.

Lemma concat_bytes ws n : bytes (concat (map (bytes_be n) ws)).
Proof.
  induction ws as [|w ws IH]; simpl; [constructor|]. apply Forall_app. split; [apply bytes_be_bytes|done].
Qed.

Lemma pad_bytes l : bytes l -> bytes (pad l).
Proof.
  intros H. unfold pad, bytes. rewrite !Forall_app. split_and!; [done|repeat constructor; lia| |apply bytes_be_bytes].
  apply Forall_replicate. lia.
Qed.

Lemma length_pad l : (length (pad l) mod 64 = 0)%nat.
Proof.
  unfold pad. rewrite !length_app, length_replicate. simpl (length (bytes_be _ _)). simpl (length [128]).
  destruct (pad_zeros_count (length l)) as (_ & H & _).
  set (k := ((119 - length l mod 64) mod 64)%nat) in *.
  pose proof (Nat.div_mod_eq (length l + 1 + k) 64) as D. rewrite H in D.
  symmetry. apply (Nat.mod_unique _ _ ((length l + 1 + k) / 64 + 1)); lia.
Qed.

Lemma lor_add x y n : 0 <= n -> 0 <= y < 2 ^ n -> Z.lor (x * 2 ^ n) y = x * 2 ^ n + y.
Proof.
  intros Hn Hy. rewrite <- Z.add_lor_land.
  replace (Z.land (x * 2 ^ n) y) with 0; [lia|]. symmetry. rewrite <- Z.shiftl_mul_pow2 by done.
  apply Z.bits_inj'. intros i Hi. rewrite Z.bits_0, Z.land_spec.
  destruct (Z.lt_ge_cases i n); [by rewrite Z.shiftl_spec_low|].
  rewrite <- (Z.mod_small y (2 ^ n)) by done. rewrite Z.mod_pow2_bits_high by lia. apply andb_false_r.
Qed.

Lemma byte_at_range m i : bytes m -> 0 <= byte_at m i < 256.
Proof.
  intros H. unfold byte_at. destruct (nth_in_or_default i m 0) as [Hin| ->]; [|lia].
  unfold bytes in H. rewrite List.Forall_forall in H. by apply H.
Qed.

Lemma word_shl_byte b n : 0 <= n <= 24 -> 0 <= b < 256 -> word (shl b n) = b * 2 ^ n.
Proof.
  intros Hn Hb. pose proof (Z.pow_pos_nonneg 2 n ltac:(lia) ltac:(lia)).
  pose proof (Z.pow_le_mono_r 2 n 24 ltac:(lia) ltac:(lia)).
  rewrite word_shl, (word_id b), Z.shiftl_mul_pow2 by lia. apply word_id. split; [lia|]. 
  change (2 ^ 32) with (256 * 2 ^ 24). nia.
Qed.

Lemma word_word_at m o : bytes m ->
  word (word_at m o) = ((byte_at m o * 256 + byte_at m (o + 1)) * 256 + byte_at m (o + 2)) * 256 + byte_at m (o + 3).
Proof.
  intros H. unfold word_at. pose proof (byte_at_range m o H) as B0. pose proof (byte_at_range m (o + 1) H) as B1.
  pose proof (byte_at_range m (o + 2) H) as B2. pose proof (byte_at_range m (o + 3) H) as B3.
  rewrite !word_bor, !word_shl_byte by lia. rewrite (word_id (byte_at m (o + 3))) by lia.
  rewrite (lor_add _ _ 24) by lia.
  replace (byte_at m o * 2 ^ 24 + byte_at m (o + 1) * 2 ^ 16) with ((byte_at m o * 256 + byte_at m (o + 1)) * 2 ^ 16) by lia.
  rewrite (lor_add _ _ 16) by lia.
  replace ((byte_at m o * 256 + byte_at m (o + 1)) * 2 ^ 16 + byte_at m (o + 2) * 2 ^ 8)
    with (((byte_at m o * 256 + byte_at m (o + 1)) * 256 + byte_at m (o + 2)) * 2 ^ 8) by lia.
  rewrite (lor_add _ _ 8) by lia. lia.
Qed.

Lemma take4_drop m o : (o + 4 <= length m)%nat ->
  take 4 (drop o m) = [byte_at m o; byte_at m (o + 1); byte_at m (o + 2); byte_at m (o + 3)].
Proof.
  unfold byte_at. revert m; induction o as [|o IH]; intros m H.
  - destruct m as [|a [|b [|c [|d m]]]]; simpl in *; try lia. done.
  - destruct m as [|a m]; simpl in *; [lia|]. apply IH. lia.
Qed.

Lemma block_words m n : bytes m -> (length m mod 64 = 0)%nat -> (n < length m / 64)%nat ->
  map word (map (fun i => word_at m (n * 64 + i * 4)) (seq 0 16)) = block m n.
Proof.
  intros Hm Hl Hn. unfold block. rewrite map_map. apply map_ext_in. intros i Hi%in_seq.
  pose proof (Nat.div_mod_eq (length m) 64). rewrite word_word_at by done. unfold message_word.
  replace (4 * (16 * n + i))%nat with (n * 64 + i * 4)%nat by lia. rewrite take4_drop by lia. done.
Qed.

(** *** The rounds *)

Lemma nth_word t w : word (nth t w 0) = nth t (map word w) 0.
Proof. change 0 with (word 0) at 2. by rewrite map_nth. Qed.

(** A schedule computed on signed words is the one on words. *)
Lemma schedule_word (f g : list Z -> nat -> Z) ts w :
  (forall w t, word (f w t) = g (map word w) t) ->
  map word (fold_left (fun w t => w ++ [f w t]) ts w) = fold_left (fun w t => w ++ [g w t]) ts (map word w).
Proof.
  intros H. revert w; induction ts as [|t ts IH]; intros w; simpl; [done|].
  rewrite IH, map_app. simpl. by rewrite H.
Qed.

Definition state5 : Type := Z * Z * Z * Z * Z.
Definition word5 (s : state5) : state5 := let '(a, b, c, d, e) := s in (word a, word b, word c, word d, word e).
Definition word8 (s : state8) : state8 :=
  let '(a, b, c, d, e, f, g, h) := s in (word a, word b, word c, word d, word e, word f, word g, word h).

(** A loop of rounds commutes with the map to words. *)
Lemma fold_simulation {S T X Y} (r : S -> T) (f : S -> X -> S) (g : T -> Y -> T) (q : X -> Y) xs s :
  (forall s x, In x xs -> r (f s x) = g (r s) (q x)) -> r (fold_left f xs s) = fold_left g (map q xs) (r s).
Proof.
  revert s; induction xs as [|x xs IH]; intros s H; simpl; [done|].
  rewrite IH; [|intros; apply H; by right]. f_equal. apply H. by left.
Qed.

Lemma schedule1_word m n : bytes m -> (length m mod 64 = 0)%nat -> (n < length m / 64)%nat ->
  map word (schedule1 m (n * 64)) = W1 (block m n).
Proof.
  intros Hm Hl Hn. unfold schedule1, W1. rewrite <- (block_words m n) by done.
  apply (schedule_word (fun w t => rotl _ 1) (fun w t => ROTL 1 _)). intros w t.
  rewrite word_rotl by lia. autorewrite with qsword. by rewrite !nth_word.
Qed.

Lemma word_sigma_small x r1 r2 s : 0 <= r1 <= 32 -> 0 <= r2 <= 32 -> 0 <= s ->
  word (sigma_small x r1 r2 s) = Z.lxor (Z.lxor (ROTR r1 (word x)) (ROTR r2 (word x))) (Z.shiftr (word x) s).
Proof. intros. unfold sigma_small. by rewrite !word_bxor, !word_rotr, word_ushr by lia. Qed.

Lemma word_sigma_big x r1 r2 r3 : 0 <= r1 <= 32 -> 0 <= r2 <= 32 -> 0 <= r3 <= 32 ->
  word (sigma_big x r1 r2 r3) = Z.lxor (Z.lxor (ROTR r1 (word x)) (ROTR r2 (word x))) (ROTR r3 (word x)).
Proof. intros. unfold sigma_big. by rewrite !word_bxor, !word_rotr by lia. Qed.

Lemma schedule256_word m n : bytes m -> (length m mod 64 = 0)%nat -> (n < length m / 64)%nat ->
  map word (schedule256 m (n * 64)) = W256 (block m n).
Proof.
  intros Hm Hl Hn. unfold schedule256, W256. rewrite <- (block_words m n) by done.
  apply (schedule_word (fun w t => wrap32 _) (fun w t => word _)). intros w t.
  rewrite word_wrap32. unfold sigma0, sigma1. rewrite <- !nth_word.
  rewrite <- (word_sigma_small _ 17 19 10), <- (word_sigma_small _ 7 18 3) by lia. word_sum.
Qed.

Lemma round1_word w st s : word5 (sha1_round w st s) = step1 (map word w) (word5 st) s.
Proof.
  destruct st as [[[[a b] c] d] e]. unfold sha1_round, step1, word5.
  assert (F : word (fst (sha1_f s b c d)) = f1 s (word b) (word c) (word d) /\ snd (sha1_f s b c d) = K1 s).
  { unfold sha1_f, f1, K1. destruct (s <? 20)%nat; [|destruct (s <? 40)%nat; [|destruct (s <? 60)%nat]]; cbn [fst snd];
      autorewrite with qsword; (split; [|done]); try done.
    - apply Ch_lor, word_range.
    - apply Maj_lor. }
  destruct (sha1_f s b c d) as [f k]. cbn [fst snd] in F. destruct F as [Ff ->].
  rewrite <- Ff, <- (word_rotl a 5), (word_rotl b 30), <- nth_word, word_wrap32 by lia.
  pairwise. word_sum.
Qed.

Lemma round256_word w st r : word8 (sha256_round w st r) = step256 (map word w) (word8 st) r.
Proof.
  destruct st as [[[[[[[a b] c] d] e] f] g] h]. unfold sha256_round, step256, word8.
  unfold Sigma0, Sigma1, Ch, Maj. rewrite K256_code.
  rewrite <- (word_sigma_big e 6 11 25), <- (word_sigma_big a 2 13 22), <- nth_word by lia.
  rewrite <- word_bnot, <- !word_band, <- !word_bxor, !word_wrap32.
  pairwise; word_sum.
Qed.

Lemma block1_word m h n : bytes m -> (length m mod 64 = 0)%nat -> (n < length m / 64)%nat ->
  word5 (sha1_block m h (n * 64)) = compress1 (word5 h) (block m n).
Proof.
  intros Hm Hl Hn. unfold sha1_block, compress1.
  pose proof (fold_simulation word5 (sha1_round (schedule1 m (n * 64))) (step1 (W1 (block m n))) (fun s => s) (seq 0 80) h) as E.
  rewrite map_id in E. unfold state5 in E. rewrite <- E; clear E.
  - destruct h as [[[[h0 h1] h2] h3] h4].
    destruct (fold_left (sha1_round (schedule1 m (n * 64))) (seq 0 80) (h0, h1, h2, h3, h4)) as [[[[a b] c] d] e].
    unfold word5. rewrite !word_wrap32. pairwise; word_sum.
  - intros s x _. rewrite round1_word. by rewrite schedule1_word.
Qed.

Lemma block256_word m h n : bytes m -> (length m mod 64 = 0)%nat -> (n < length m / 64)%nat ->
  word8 (sha256_block m h (n * 64)) = compress256 (word8 h) (block m n).
Proof.
  intros Hm Hl Hn. unfold sha256_block, compress256.
  pose proof (fold_simulation word8 (sha256_round (schedule256 m (n * 64))) (step256 (W256 (block m n))) (fun s => s) (seq 0 64) h) as E.
  rewrite map_id in E. rewrite <- E; clear E.
  - destruct h as [[[[[[[h0 h1] h2] h3] h4] h5] h6] h7].
    destruct (fold_left (sha256_round (schedule256 m (n * 64))) (seq 0 64) (h0, h1, h2, h3, h4, h5, h6, h7))
      as [[[[[[[a b] c] d] e] f] g] k].
    unfold word8. rewrite !word_wrap32. pairwise; word_sum.
  - intros s x _. rewrite round256_word. by rewrite schedule256_word.
Qed.

Lemma blocks_of_offsets m : blocks m = map (fun off => block m (off / 64)) (block_offsets m).
Proof.
  unfold blocks, block_offsets. rewrite map_map. apply map_ext. intros n. by rewrite Nat.div_mul.
Qed.

Lemma in_block_offsets m off : In off (block_offsets m) -> exists n, off = (n * 64)%nat /\ (n < length m / 64)%nat.
Proof. unfold block_offsets. intros (n & <- & Hn%in_seq)%in_map_iff. exists n. lia. Qed.

Lemma sha1_blocks_word m h : bytes m -> (length m mod 64 = 0)%nat ->
  word5 (fold_left (sha1_block m) (block_offsets m) h) = fold_left compress1 (blocks m) (word5 h).
Proof.
  intros Hm Hl. rewrite blocks_of_offsets. apply fold_simulation.
  intros s off (n & -> & Hn)%in_block_offsets. rewrite Nat.div_mul by lia. by apply block1_word.
Qed.

Lemma sha256_blocks_word m h : bytes m -> (length m mod 64 = 0)%nat ->
  word8 (fold_left (sha256_block m) (block_offsets m) h) = fold_left compress256 (blocks m) (word8 h).
Proof.
  intros Hm Hl. rewrite blocks_of_offsets. apply fold_simulation.
  intros s off (n & -> & Hn)%in_block_offsets. rewrite Nat.div_mul by lia. by apply block256_word.
Qed.

Lemma sha256_words_fips l : bytes l -> map word (sha256_words (padMessage l)) = SHA256_words l.
Proof.
  intros Hl. unfold sha256_words, SHA256_words. rewrite padMessage_pad.
  pose proof (sha256_blocks_word (pad l) sha256_init (pad_bytes l Hl) (length_pad l)) as E.
  assert (word8 sha256_init = H256) as Ei by (vm_compute; reflexivity). rewrite Ei in E. rewrite <- E.
  by destruct (fold_left (sha256_block (pad l)) (block_offsets (pad l)) sha256_init) as [[[[[[[a b] c] d] e] f] g] h].
Qed.

Lemma sha1_fips l : bytes l -> sha1 l = SHA1 l.
Proof.
  intros Hl. unfold sha1, SHA1. rewrite padMessage_pad.
  pose proof (sha1_blocks_word (pad l) sha1_init (pad_bytes l Hl) (length_pad l)) as E.
  change (word5 sha1_init) with (0x67452301, 0xefcdab89, 0x98badcfe, 0x10325476, 0xc3d2e1f0) in E. rewrite <- E.
  destruct (fold_left (sha1_block (pad l)) (block_offsets (pad l)) sha1_init) as [[[[a b] c] d] e].
  unfold word5. by rewrite wordsToBytes_be.
Qed.

Lemma sha256_fips l : bytes l -> sha256 l = SHA256 l.
Proof. intros Hl. unfold sha256, SHA256. by rewrite wordsToBytes_be, sha256_words_fips. Qed.

(** ** Properties *)

(** C35. The two hash functions compute SHA-1 and SHA-256 as FIPS 180-4
    defines them, on every byte array: the signed 32-bit arithmetic and the
    padding loop change nothing. The constants of SHA-256 are the standard's,
    computed from the roots of the first primes. The schedule array, of which
    each block of the source writes every entry before reading it, is a fresh
    one for each block. *)
Theorem hashes_fips l : bytes l -> sha1 l = SHA1 l /\ sha256 l = SHA256 l.
Proof. intros H. split; [by apply sha1_fips|by apply sha256_fips]. Qed.

Lemma hashes_fips_witness : sha1 [97; 98; 99] = SHA1 [97; 98; 99] /\ sha256 [97; 98; 99] = SHA256 [97; 98; 99].
Proof. apply hashes_fips. repeat constructor; lia. Defined.
