(* ===== verification/Totp.v ===== *)
(** * One-time codes

    [src/TotpModel.js]: reading a TOTP key (plain base32, [steam://] or
    [otpauth://]), deriving the code with HMAC and the dynamic truncation, and
    [generate]; and [sha256Hex] of [src/BitwardenModel.js], which shares the
    hash. Byte arrays are lists of integers. [Rfc] states RFC 4226 and
    RFC 6238 on top of the FIPS functions. *)

From stdpp Require Import base list numbers strings.
From Stdlib Require Import QArith Qround.
Local Close Scope Q_scope.
From S2P Require Import Prelude.
From S2P Require Import JsValue.
From S2P Require Import Json.
From S2P Require Import Uri.
From S2P Require Import Hash.
Local Open Scope Z_scope.

Definition BASE32_CHARS : jstr := u "ABCDEFGHIJKLMNOPQRSTUVWXYZ234567".
Definition STEAM_CHARS : jstr := u "23456789BCDFGHJKMNPQRTVWXY".
Definition DEFAULT_DIGITS : Z := 6.
Definition DEFAULT_PERIOD : Z := 30.

(** ** Base32 *)

(** One character: the bytes so far, the 16-bit buffer and its pending bits. *)
Definition base32_step (st : list Z * Z * Z) (c : N) : list Z * Z * Z :=
  let '(out, buffer, bits) := st in
  match index_of [c] BASE32_CHARS with
  | None => st
  | Some idx =>
    let buffer := band (bor (shl buffer 5) (Z.of_nat idx)) 65535 in
    let bits := bits + 5 in
    if 8 <=? bits then (out ++ [band (ushr buffer (bits - 8)) 255], buffer, bits - 8)
    else (out, buffer, bits)
  end.

Definition decodeBase32 (s : jstr) : list Z :=
  fst (fst (fold_left base32_step (to_upper s) ([], 0, 0))).

(** ** Keys *)

Inductive otp_algorithm := alg_sha1 | alg_sha256 | alg_steam.

Record otp_params := mkParams {
  otp_alg : otp_algorithm;
  otp_digits : Z;
  otp_period : Z;
  otp_secret : list Z
}.

(** application/x-www-form-urlencoded *)
Definition formDecode (s : jstr) : option jstr :=
  decodeURIComponent (map (fun c => if (c =? 43)%N then 32%N else c) s).

Definition strip_plus (v : jstr) : jstr := match v with 43%N :: t => t | _ => v end.

(** A u32 as Rust parses it. *)
Definition parseU32 (v : option jstr) : option Z :=
  match v with
  | None => None
  | Some s =>
    match strip_plus s with
    | [] => None
    | t => if all_in is_digit t && (Z.of_N (value_of_digits t) <=? 4294967295)
           then Some (Z.of_N (value_of_digits t)) else None
    end
  end.

(** The last of the pairs with a name. *)
Definition query_lookup (parts : list (jstr * jstr)) (k : jstr) : option jstr :=
  fold_left (fun found kv => if str_eqb (fst kv) k then Some (snd kv) else found) parts None.

(** [name=value], decoded; None when either is malformed. *)
Definition query_pair (pair : jstr) : option (jstr * jstr) :=
  let '(n, v) := match index_of (u "=") pair with
                 | None => (pair, [])
                 | Some eq => (take eq pair, drop (S eq) pair)
                 end in
  match formDecode n, formDecode v with
  | Some name, Some value => Some (name, value)
  | _, _ => None
  end.

Definition parse_query (query : jstr) : option (list (jstr * jstr)) :=
  mapM query_pair (List.filter (fun p => negb (str_eqb p [])) (split_char 38 query)).

(** [a-z0-9._~-] *)
Definition is_authority_unit (c : N) : bool :=
  is_lower c || is_digit c || (c =? 46)%N || (c =? 95)%N || (c =? 126)%N || (c =? 45)%N.

Definition cut_at (sep : jstr) (s : jstr) : jstr := match index_of sep s with Some i => take i s | None => s end.

Definition parseOtpauth (k : jstr) : option otp_params :=
  let rest := cut_at (u "#") (drop (length (u "otpauth://")) k) in
  let q := index_of (u "?") rest in
  let authority := cut_at (u "/") (match q with Some i => take i rest | None => rest end) in
  if negb (all_in is_authority_unit authority) then None
  else if existsb (fun c => is_space c || is_control c) rest then None
  else
    match parse_query (match q with Some i => drop (S i) rest | None => [] end) with
    | None => None
    | Some parts =>
      match query_lookup parts (u "secret") with
      | None => None
      | Some secret =>
        let algorithm := query_lookup parts (u "algorithm") in
        if bool_decide (algorithm = Some (u "sha512")) then None
        else
          let digits_ := match parseU32 (query_lookup parts (u "digits")) with
                         | None => DEFAULT_DIGITS
                         | Some n => Z.min n 10
                         end in
          if (digits_ <? 1) || (9 <? digits_) then None
          else
            let period := match parseU32 (query_lookup parts (u "period")) with
                          | None => DEFAULT_PERIOD
                          | Some n => Z.max n 1
                          end in
            Some (mkParams (if bool_decide (algorithm = Some (u "sha256")) then alg_sha256 else alg_sha1)
                    digits_ period (decodeBase32 secret))
      end
    end.

Definition is_ascii (s : jstr) : bool := forallb (fun c => (c <? 128)%N) s.

Definition parseKey (key : jsval) : option otp_params :=
  match key with
  | JStr (c :: t) =>
    if negb (is_ascii (c :: t)) then None
    else
      let k := to_lower (c :: t) in
      if starts_with (u "otpauth://") k then parseOtpauth k
      else if starts_with (u "steam://") k
      then Some (mkParams alg_steam 5 DEFAULT_PERIOD (decodeBase32 (drop (length (u "steam://")) k)))
      else Some (mkParams alg_sha1 DEFAULT_DIGITS DEFAULT_PERIOD (decodeBase32 k))
  | _ => None
  end.

(** ** Codes *)

Fixpoint steam_code (n : nat) (full : Z) : jstr :=
  match n with
  | O => []
  | S n' => nth (Z.to_nat (full mod Z.of_nat (length STEAM_CHARS))) STEAM_CHARS 0%N
            :: steam_code n' (full / Z.of_nat (length STEAM_CHARS))
  end.

(** The counter as eight bytes. *)
Definition time_bytes (counter : Z) : list Z :=
  word_bytes (counter / 4294967296) ++ word_bytes (counter mod 4294967296).

Definition truncate (hash : list Z) : Z :=
  let offset := Z.to_nat (band (byte_at hash (length hash - 1)) 15) in
  band (byte_at hash offset) 127 * 16777216
  + shl (byte_at hash (offset + 1)) 16 + shl (byte_at hash (offset + 2)) 8 + byte_at hash (offset + 3).

Definition deriveOtp (params : otp_params) (counter : Z) : jstr :=
  let hash := hmac (match otp_alg params with alg_sha256 => sha256 | _ => sha1 end)
                (otp_secret params) (time_bytes counter) in
  let binary := truncate hash in
  match otp_alg params with
  | alg_steam => steam_code (Z.to_nat (otp_digits params)) binary
  | _ => pad_left (Z.to_nat (otp_digits params)) 48 (dec (Z.to_N (binary mod 10 ^ otp_digits params)))
  end.

(** [{ code, period }], or None when the CLI has to answer. *)
Definition generate (key nowMs : jsval) : option (jstr * Z) :=
  match parseKey key with
  | None => None
  | Some params =>
    match num_floor (num_div (num_floor (num_div (to_num nowMs) (numz 1000))) (numz (otp_period params))) with
    | Fin q => if Qfloor q <? 0 then None else Some (deriveOtp params (Qfloor q), otp_period params)
    | _ => None
    end
  end.

(** ** sha256Hex *)

Definition hex8 (x : Z) : jstr := slice_last 8 (u "00000000" ++ digits 16 (Z.to_N (uint32 x))).

(** None where encodeURIComponent throws. *)
Definition sha256Hex (text : jsval) : option jstr :=
  match utf8_encode (to_str text) with
  | Some l => Some (concat (map hex8 (sha256_words (padMessage (map Z.of_N l)))))
  | None => None
  end.

(** ** RFC 4226, RFC 6238 and RFC 4648 *)

Module Rfc.
Import Fips.

(** The dynamic truncation: 31 bits at the offset the last nibble names. *)
Definition DT (hs : list Z) : Z :=
  let offset := Z.to_nat (nth (length hs - 1) hs 0 mod 16) in
  be (take 4 (drop offset hs)) mod 2 ^ 31.

Definition HOTP (H : list Z -> list Z) (digits : Z) (key : list Z) (counter : Z) : Z :=
  DT (HMAC H key (bytes_be 8 counter)) mod 10 ^ digits.

(** The time step of a Unix time in milliseconds. *)
Definition step (period ms : Z) : Z := ms / 1000 / period.

(** Five bits of a base32 character, most significant first. *)
Definition bits5 (v : Z) : list bool := map (Z.testbit v) [4; 3; 2; 1; 0].

(** Whole bytes of a bit string; the rest is dropped. *)
Fixpoint pack (fuel : nat) (l : list bool) : list Z :=
  match fuel with
  | O => []
  | S f =>
    if (length l <? 8)%nat then []
    else fold_left (fun a b => a * 2 + Z.b2z b) (take 8 l) 0 :: pack f (drop 8 l)
  end.

Definition base32 (s : jstr) : list Z :=
  let l := concat (map (fun i => bits5 (Z.of_nat i)) (omap (fun c => index_of [c] BASE32_CHARS) s)) in
  pack (length l) l.
End Rfc.

(** ** Lemmas *)

Import Fips.

(** *** HMAC *)

Lemma wrap32_small x : 0 <= x < 2 ^ 31 -> wrap32 x = x.
Proof.
  intros H. unfold wrap32. rewrite Z.mod_small by lia. destruct (Z.ltb_spec x 2147483648); lia.
Qed.

Lemma bxor_bytes x y : 0 <= x < 256 -> 0 <= y < 256 -> bxor x y = Z.lxor y x.
Proof. intros Hx Hy. unfold bxor. rewrite !wrap32_small by lia. apply Z.lxor_comm. Qed.

Lemma lxor_byte x y : 0 <= x < 256 -> 0 <= y < 256 -> 0 <= Z.lxor x y < 256.
Proof.
  intros Hx Hy. rewrite <- (Z.mod_small x (2 ^ 8)), <- (Z.mod_small y (2 ^ 8)), <- !Z.land_ones by lia.
  replace (Z.lxor (Z.land x (Z.ones 8)) (Z.land y (Z.ones 8))) with (Z.land (Z.lxor x y) (Z.ones 8)) by bitwise.
  rewrite Z.land_ones by lia. apply Z.mod_pos_bound. lia.
Qed.

Lemma map_byte_at {B} (f : Z -> B) k : map (fun i => f (byte_at k i)) (seq 0 (length k)) = map f k.
Proof.
  unfold byte_at. induction k as [|x k IH]; [done|]. cbn [length seq map nth]. f_equal.
  rewrite <- seq_shift, map_map. exact IH.
Qed.

Lemma xor_pad_map k p : bytes k -> length k = 64%nat -> 0 <= p < 256 ->
  map (fun i => bxor (byte_at k i) p) (seq 0 block_size) = map (Z.lxor p) k.
Proof.
  intros Hk Hl Hp. unfold block_size. rewrite <- Hl, (map_byte_at (fun x => bxor x p)). apply map_ext_in. intros x Hx.
  unfold bytes in Hk. rewrite List.Forall_forall in Hk. by apply bxor_bytes; [apply Hk|].
Qed.

Lemma xor_pad_bytes k p : bytes k -> 0 <= p < 256 -> bytes (map (Z.lxor p) k).
Proof.
  intros Hk Hp. apply Forall_map. eapply Forall_impl; [exact Hk|]. intros x Hx. by apply lxor_byte.
Qed.

Lemma bytes_app a b : bytes (a ++ b) <-> bytes a /\ bytes b.
Proof. apply Forall_app. Qed.

(** A hash that agrees with its specification gives the specified HMAC. *)
Lemma hmac_spec H S key msg :
  (forall l, bytes l -> H l = S l) -> (forall l, bytes (S l) /\ (length (S l) <= 64)%nat) ->
  bytes key -> bytes msg -> hmac H key msg = HMAC S key msg.
Proof.
  intros HS Hout Hkey Hmsg. unfold hmac, HMAC, block_size.
  set (k := (if (64 <? length key)%nat then H key else key) ++ _).
  assert (Ek : k = if (length key <=? 64)%nat then key ++ replicate (64 - length key) 0
                   else S key ++ replicate (64 - length (S key)) 0).
  { unfold k. rewrite HS by done.
    destruct (Nat.ltb_spec 64 (length key)), (Nat.leb_spec (length key) 64); try lia; done. }
  assert (Hk : bytes k /\ length k = 64%nat).
  { rewrite Ek. destruct (Hout key) as [B L]. destruct (Nat.leb_spec (length key) 64);
      rewrite length_app, length_replicate, bytes_app; (split; [split; [done|apply Forall_replicate; lia]|lia]). }
  destruct Hk as [Bk Lk]. rewrite <- Ek. change 64%nat with block_size. rewrite !xor_pad_map by (done || lia).
  rewrite !HS; [done|..].
  - apply bytes_app. split; [by apply xor_pad_bytes|done].
  - apply bytes_app. split; [by apply xor_pad_bytes|].
    rewrite HS; [apply Hout|]. apply bytes_app. split; [by apply xor_pad_bytes|done].
Qed.

Lemma length_bytes_be n x : length (bytes_be n x) = n.
Proof. unfold bytes_be. by rewrite length_map, length_seq. Qed.

Lemma SHA1_output l : bytes (SHA1 l) /\ length (SHA1 l) = 20%nat.
Proof.
  unfold SHA1. destruct (fold_left compress1 _ _) as [[[[a b] c] d] e]. split; [apply concat_bytes|].
  cbn [map concat]. by rewrite !length_app, !length_bytes_be.
Qed.

Lemma SHA256_output l : bytes (SHA256 l) /\ length (SHA256 l) = 32%nat.
Proof.
  unfold SHA256, SHA256_words. destruct (fold_left compress256 _ _) as [[[[[[[a b] c] d] e] f] g] h].
  split; [apply concat_bytes|]. cbn [map concat]. by rewrite !length_app, !length_bytes_be.
Qed.

(** *** Truncation *)

Lemma band_ones x n : 0 <= x < 2 ^ 31 -> 0 <= n < 31 -> band x (Z.ones n) = x mod 2 ^ n.
Proof.
  intros Hx Hn. unfold band. rewrite (wrap32_small x) by done. rewrite wrap32_small; [by rewrite Z.land_ones by lia|].
  rewrite Z.ones_equiv. pose proof (Z.pow_pos_nonneg 2 n ltac:(lia) ltac:(lia)).
  pose proof (Z.pow_lt_mono_r 2 n 31 ltac:(lia) ltac:(lia) ltac:(lia)). lia.
Qed.

Lemma shl_byte b n : 0 <= b < 256 -> 0 <= n <= 16 -> shl b n = b * 2 ^ n.
Proof.
  intros Hb Hn. unfold shl. rewrite (wrap32_small b), Z.shiftl_mul_pow2 by lia. apply wrap32_small.
  pose proof (Z.pow_pos_nonneg 2 n ltac:(lia) ltac:(lia)). pose proof (Z.pow_le_mono_r 2 n 16 ltac:(lia) ltac:(lia)). nia.
Qed.

Lemma truncate_DT hs : bytes hs -> (20 <= length hs)%nat -> truncate hs = Rfc.DT hs.
Proof.
  intros Hb Hl. unfold truncate, Rfc.DT. fold (byte_at hs (length hs - 1)).
  pose proof (byte_at_range hs (length hs - 1) Hb). change 15 with (Z.ones 4). rewrite band_ones by lia.
  change (2 ^ 4) with 16. pose proof (Z.mod_pos_bound (byte_at hs (length hs - 1)) 16 ltac:(lia)).
  set (o := Z.to_nat (byte_at hs (length hs - 1) mod 16)) in *. assert (o < 16)%nat by lia.
  rewrite take4_drop by lia. unfold be. cbn [fold_left].
  pose proof (byte_at_range hs o Hb) as B0. pose proof (byte_at_range hs (o + 1) Hb) as B1.
  pose proof (byte_at_range hs (o + 2) Hb) as B2. pose proof (byte_at_range hs (o + 3) Hb) as B3.
  rewrite !shl_byte by lia. change 127 with (Z.ones 7). rewrite band_ones by lia.
  generalize dependent (byte_at hs o). intros b0 B0. pose proof (Z.div_mod b0 (2 ^ 7) ltac:(lia)) as D.
  pose proof (Z.mod_pos_bound b0 (2 ^ 7) ltac:(lia)) as M. 
  apply (Z.mod_unique _ _ (b0 / 2 ^ 7)); lia.
Qed.

Lemma time_bytes_be counter : time_bytes counter = bytes_be 8 counter.
Proof.
  unfold time_bytes. rewrite !word_bytes_be. change (counter mod 4294967296) with (word counter).
  rewrite bytes_be_word. unfold bytes_be. cbn [map seq app Nat.sub]. by rewrite !Z.div_div by lia.
Qed.

Lemma DT_range hs : 0 <= Rfc.DT hs.
Proof. apply Z.mod_pos_bound. lia. Qed.

(** *** Base32 *)

Definition value (l : list bool) : Z := fold_left (fun a b => a * 2 + Z.b2z b) l 0.

Lemma value_app l m : value (l ++ m) = value l * 2 ^ Z.of_nat (length m) + value m.
Proof.
  unfold value. rewrite fold_left_app. generalize (fold_left (fun a b => a * 2 + Z.b2z b) l 0).
  induction m as [|b m IH] using rev_ind; intros a; [simpl; lia|].
  rewrite !fold_left_app, length_app. simpl. rewrite IH.
  replace (Z.of_nat (length m + 1)) with (Z.of_nat (length m) + 1) by lia. rewrite Z.pow_add_r by lia. lia.
Qed.

Lemma value_range l : 0 <= value l < 2 ^ Z.of_nat (length l).
Proof.
  induction l as [|b l IH] using rev_ind; [done|]. rewrite value_app, length_app.
  replace (Z.of_nat (length l + length [b])) with (Z.of_nat (length l) + 1) by (simpl; lia).
  rewrite Z.pow_add_r by lia. destruct b; cbn in *; lia.
Qed.

Lemma value_bits5 v : 0 <= v < 32 -> value (Rfc.bits5 v) = v.
Proof.
  intros H. assert (G : forallb (fun n => value (Rfc.bits5 (Z.of_nat n)) =? Z.of_nat n) (seq 0 32) = true) by by vm_compute.
  rewrite forallb_forall in G. specialize (G (Z.to_nat v)). rewrite Z2Nat.id in G by lia. apply Z.eqb_eq, G, in_seq. lia.
Qed.

Definition pack0 (l : list bool) : list Z := Rfc.pack (length l) l.

Lemma pack_fuel f l : (length l <= f)%nat -> Rfc.pack f l = pack0 l.
Proof.
  unfold pack0. revert f; induction l as [l IH] using (induction_ltof1 _ (@length bool)); unfold ltof in IH.
  intros f Hf. destruct l as [|b l]; [by destruct f|]. destruct f as [|f]; [simpl in Hf; lia|].
  cbn [length Rfc.pack] in *. destruct (Nat.ltb_spec (S (length l)) 8); [done|]. f_equal.
  assert (length (drop 8 (b :: l)) <= length l)%nat by (rewrite length_drop; simpl; lia).
  rewrite (IH (drop 8 (b :: l)) ltac:(rewrite length_drop; simpl; lia) f) by lia.
  symmetry. apply IH; [rewrite length_drop; simpl; lia|lia].
Qed.

Lemma pack0_short l : (length l < 8)%nat -> pack0 l = [].
Proof.
  intros H. unfold pack0. destruct l as [|b l]; [done|]. cbn [length Rfc.pack].
  rewrite (proj2 (Nat.ltb_lt _ _)); [done|]. exact H.
Qed.

Lemma pack0_byte l : (8 <= length l)%nat -> pack0 l = value (take 8 l) :: pack0 (drop 8 l).
Proof.
  intros H. unfold pack0 at 1. destruct (length l) as [|n] eqn:E; [lia|]. cbn [Rfc.pack].
  rewrite (proj2 (Nat.ltb_ge _ _)) by lia. f_equal. apply pack_fuel. rewrite length_drop. lia.
Qed.

(** The state of the loop after some bits: the bytes written, and fewer than
    eight pending bits, which the buffer ends in. *)
Definition base32_pending (st : list Z * Z * Z) (out : list Z) (p : list bool) : Prop :=
  let '(o, buffer, bits) := st in
  o = out /\ bits = Z.of_nat (length p) /\ (length p < 8)%nat /\ 0 <= buffer < 65536 /\
  buffer mod 2 ^ Z.of_nat (length p) = value p.

Lemma base32_buffer buffer v : 0 <= buffer < 65536 -> 0 <= v < 32 ->
  band (bor (shl buffer 5) v) 65535 = (buffer * 32 + v) mod 65536.
Proof.
  intros Hb Hv. assert (shl buffer 5 = buffer * 2 ^ 5) as ->.
  { unfold shl. rewrite (wrap32_small buffer), Z.shiftl_mul_pow2 by lia. apply wrap32_small. lia. }
  unfold bor. rewrite !wrap32_small by lia. rewrite lor_add by lia. change (2 ^ 5) with 32.
  change 65535 with (Z.ones 16). apply band_ones; lia.
Qed.

Lemma mod_pow_smaller x m n : 0 <= n <= m -> (x mod 2 ^ m) mod 2 ^ n = x mod 2 ^ n.
Proof.
  intros H. apply Z.bits_inj'. intros i Hi. destruct (Z.lt_ge_cases i n).
  - by rewrite !Z.mod_pow2_bits_low by lia.
  - by rewrite !Z.mod_pow2_bits_high by lia.
Qed.

Lemma pending_buffer buffer p v :
  0 <= buffer < 65536 -> 0 <= v < 32 -> (length p < 8)%nat -> buffer mod 2 ^ Z.of_nat (length p) = value p ->
  ((buffer * 32 + v) mod 65536) mod 2 ^ Z.of_nat (length (p ++ Rfc.bits5 v)) = value (p ++ Rfc.bits5 v).
Proof.
  intros Hb Hv Hp E. rewrite length_app. change (length (Rfc.bits5 v)) with 5%nat.
  change 65536 with (2 ^ 16). rewrite mod_pow_smaller by lia.
  rewrite value_app, value_bits5, <- E by done. change (length (Rfc.bits5 v)) with 5%nat.
  change (2 ^ Z.of_nat 5) with 32. set (m := Z.of_nat (length p)).
  replace (Z.of_nat (length p + 5)) with (m + 5) by lia. rewrite Z.pow_add_r by lia. change (2 ^ 5) with 32.
  pose proof (Z.pow_pos_nonneg 2 m ltac:(lia) ltac:(lia)).
  pose proof (Z.div_mod buffer (2 ^ m) ltac:(lia)). pose proof (Z.mod_pos_bound buffer (2 ^ m) ltac:(lia)).
  symmetry. apply (Z.mod_unique _ _ (buffer / 2 ^ m)); [left|]; nia.
Qed.

Lemma emitted_byte buffer q : (8 <= length q < 16)%nat -> 0 <= buffer < 65536 ->
  buffer mod 2 ^ Z.of_nat (length q) = value q ->
  band (ushr buffer (Z.of_nat (length q) - 8)) 255 = value (take 8 q) /\
  buffer mod 2 ^ Z.of_nat (length (drop 8 q)) = value (drop 8 q).
Proof.
  intros Hq Hb E. set (r := Z.of_nat (length q) - 8).
  assert (Hr : 0 <= r) by lia. assert (Er : Z.of_nat (length (drop 8 q)) = r) by (rewrite length_drop; lia).
  assert (Eq : value q = value (take 8 q) * 2 ^ r + value (drop 8 q)).
  { rewrite <- (take_drop 8 q) at 1. by rewrite value_app, Er. }
  pose proof (value_range (drop 8 q)) as V. rewrite Er in V.
  pose proof (Z.pow_pos_nonneg 2 r ltac:(lia) Hr). pose proof (value_range (take 8 q)) as V8.
  rewrite length_take in V8. replace (Z.of_nat (8 `min` length q)) with 8 in V8 by lia. split.
  - rewrite low_byte_band, word_ushr, word_id, Z.shiftr_div_pow2 by lia.
    replace (Z.of_nat (length q)) with (r + 8) in E by lia. rewrite Z.pow_add_r in E by lia.
    rewrite Z.rem_mul_r in E by lia. change (2 ^ 8) with 256 in E, V8.
    pose proof (Z.mod_pos_bound buffer (2 ^ r) ltac:(lia)). pose proof (Z.mod_pos_bound (buffer / 2 ^ r) 256 ltac:(lia)).
    nia.
  - rewrite Er. replace (Z.of_nat (length q)) with (r + 8) in E by lia.
    rewrite <- (mod_pow_smaller buffer (r + 8) r) by lia. rewrite E, Eq.
    rewrite Z.add_comm, Z_mod_plus_full. by apply Z.mod_small.
Qed.

Lemma index_of_unit c s i : index_of [c] s = Some i -> (i < length s)%nat.
Proof.
  intros H. apply index_of_spec in H as (a & b & -> & <-). rewrite !length_app. simpl. lia.
Qed.

Lemma base32_step_pending st out p c :
  base32_pending st out p ->
  exists out' p', base32_pending (base32_step st c) out' p' /\
    forall rest, out' ++ pack0 (p' ++ rest) =
      out ++ pack0 (p ++ match index_of [c] BASE32_CHARS with Some i => Rfc.bits5 (Z.of_nat i) | None => [] end ++ rest).
Proof.
  destruct st as [[o buffer] bits]. intros (-> & -> & Hp & Hb & E). unfold base32_step.
  destruct (index_of [c] BASE32_CHARS) as [i|] eqn:Ei; [|by exists out, p].
  apply index_of_unit in Ei. change (length BASE32_CHARS) with 32%nat in Ei.
  rewrite base32_buffer by lia. set (q := p ++ Rfc.bits5 (Z.of_nat i)).
  pose proof (pending_buffer buffer p (Z.of_nat i) Hb ltac:(lia) Hp E) as Eq. fold q in Eq.
  assert (Lq : length q = (length p + 5)%nat) by (unfold q; by rewrite length_app).
  pose proof (Z.mod_pos_bound (buffer * 32 + Z.of_nat i) 65536 ltac:(lia)) as Hb'.
  replace (Z.of_nat (length p) + 5) with (Z.of_nat (length q)) by lia.
  destruct (Z.leb_spec 8 (Z.of_nat (length q))).
  - destruct (emitted_byte _ q ltac:(lia) Hb' Eq) as [E1 E2]. exists (out ++ [value (take 8 q)]), (drop 8 q). split.
    + rewrite E1. split_and!; try done; rewrite ?length_drop; lia.
    + intros rest. rewrite app_assoc. fold q. rewrite (pack0_byte (q ++ rest)) by (rewrite length_app; lia).
      rewrite take_app_le, drop_app_le by lia. by rewrite <- app_assoc.
  - exists out, q. split; [split_and!; try done; lia|]. intros rest. by rewrite app_assoc.
Qed.

Lemma base32_fold s st out p : base32_pending st out p ->
  fst (fst (fold_left base32_step s st)) =
  out ++ pack0 (p ++ concat (map (fun i => Rfc.bits5 (Z.of_nat i)) (omap (fun c => index_of [c] BASE32_CHARS) s))).
Proof.
  revert st out p; induction s as [|c s IH]; intros st out p H.
  - destruct st as [[o buffer] bits]. destruct H as (-> & _ & Hp & _). simpl. rewrite app_nil_r, pack0_short by done.
    by rewrite app_nil_r.
  - destruct (base32_step_pending st out p c H) as (out' & p' & H' & E). simpl fold_left. rewrite (IH _ _ _ H'), E.
    cbn [omap list_omap]. by destruct (index_of [c] BASE32_CHARS).
Qed.

(** *** Keys *)

Lemma decodeBase32_base32 s : decodeBase32 s = Rfc.base32 (to_upper s).
Proof. unfold decodeBase32. rewrite (base32_fold _ _ [] []); [done|]. by split_and!; try done; simpl; lia. Qed.

Lemma value_byte l : (length l <= 8)%nat -> 0 <= value l < 256.
Proof.
  intros H. pose proof (value_range l). pose proof (Z.pow_le_mono_r 2 (Z.of_nat (length l)) 8 ltac:(lia) ltac:(lia)).
  change (2 ^ 8) with 256 in *. lia.
Qed.

Lemma pack_bytes f l : bytes (Rfc.pack f l).
Proof.
  revert l; induction f as [|f IH]; intros l; simpl; [constructor|]. destruct (length l <? 8)%nat; [constructor|].
  constructor; [|apply IH]. apply value_byte. rewrite length_take. lia.
Qed.

Lemma secret_bytes s : bytes (decodeBase32 s).
Proof. rewrite decodeBase32_base32. apply pack_bytes. Qed.

(** What every accepted key guarantees. *)
Record params_ok (p : otp_params) : Prop := {
  ok_digits : 1 <= otp_digits p <= 9;
  ok_period : 1 <= otp_period p;
  ok_secret : bytes (otp_secret p)
}.

Lemma parseOtpauth_ok k p : parseOtpauth k = Some p -> params_ok p /\ otp_alg p <> alg_steam.
Proof.
  unfold parseOtpauth. destruct (negb (all_in _ _)); [done|]. destruct (existsb _ _); [done|].
  destruct (parse_query _) as [parts|]; [|done]. destruct (query_lookup parts (u "secret")) as [secret|]; [|done].
  destruct (bool_decide _); [done|]. set (d := match parseU32 _ with None => DEFAULT_DIGITS | Some n => _ end).
  destruct ((d <? 1) || (9 <? d)) eqn:E; [done|]. intros [= <-]. bool_hyps. split; [split|].
  - exact (conj H H0).
  - cbn [otp_period]. destruct (parseU32 (query_lookup parts (u "period"))); [apply Z.le_max_r|]. unfold DEFAULT_PERIOD. lia.
  - apply secret_bytes.
  - simpl. by case_bool_decide.
Qed.

Lemma parseKey_ok key p : parseKey key = Some p -> params_ok p.
Proof.
  unfold parseKey. destruct key as [| | | |[|c t]| | |]; try done. destruct (negb (is_ascii _)); [done|].
  destruct (starts_with (u "otpauth://") _); [intros H; by apply parseOtpauth_ok in H as [? _]|].
  destruct (starts_with (u "steam://") _); intros [= <-]; (split; simpl; [unfold DEFAULT_DIGITS; lia|unfold DEFAULT_PERIOD; lia|apply secret_bytes]).
Qed.

(** The specified hash of an algorithm. *)
Definition spec_hash (a : otp_algorithm) : list Z -> list Z := match a with alg_sha256 => SHA256 | _ => SHA1 end.

Lemma hash_output a l : bytes (spec_hash a l) /\ (20 <= length (spec_hash a l) <= 64)%nat.
Proof. destruct a; simpl; (destruct (SHA1_output l); destruct (SHA256_output l); split; [done|lia]). Qed.

Lemma HMAC_output a key msg : bytes (HMAC (spec_hash a) key msg) /\ (20 <= length (HMAC (spec_hash a) key msg))%nat.
Proof. unfold HMAC. cbv zeta. split; [apply hash_output|]. apply (proj1 (proj2 (hash_output a _))). Qed.

Lemma deriveOtp_hash p counter : bytes (otp_secret p) ->
  truncate (hmac (match otp_alg p with alg_sha256 => sha256 | _ => sha1 end) (otp_secret p) (time_bytes counter))
  = Rfc.DT (HMAC (spec_hash (otp_alg p)) (otp_secret p) (bytes_be 8 counter)).
Proof.
  intros Hs. rewrite time_bytes_be.
  rewrite (hmac_spec _ (spec_hash (otp_alg p))); [|destruct (otp_alg p); [apply sha1_fips|apply sha256_fips|apply sha1_fips]| |done|apply bytes_be_bytes].
  - apply truncate_DT; apply HMAC_output.
  - intros l. destruct (hash_output (otp_alg p) l). split; [done|lia].
Qed.

Lemma pad_left_value n s : forallb is_digit s = true ->
  value_of_digits (pad_left n 48 s) = value_of_digits s /\ forallb is_digit (pad_left n 48 s) = true.
Proof.
  intros Hs. unfold pad_left. generalize (n - length s)%nat as k. intros k. split.
  - induction k as [|k IH]; [done|]. exact IH.
  - rewrite forallb_app, Hs, andb_true_r. by induction k.
Qed.

Lemma length_dec_max m (n : nat) : (m < 10 ^ N.of_nat n)%N -> (length (dec m) <= Nat.max 1 n)%nat.
Proof.
  intros H. destruct (dec_spec m) as (V & D & N0 & Z0).
  assert (G : forall s a, forallb is_digit s = true ->
            (fold_left (fun a d => a * 10 + (d - 48)) s a >= a * 10 ^ N.of_nat (length s))%N).
  { induction s as [|c s IH]; intros a Hs; [simpl; lia|]. simpl forallb in Hs. apply andb_true_iff in Hs as [_ Hs].
    cbn [fold_left length]. specialize (IH (a * 10 + (c - 48))%N Hs). rewrite Nat2N.inj_succ, N.pow_succ_r'. nia. }
  destruct (dec m) as [|c t] eqn:E; [simpl; lia|]. simpl in D. apply andb_true_iff in D as [Dc Dt].
  destruct (decide (c = 48%N)) as [->|Hc]; [rewrite (Z0 t eq_refl); simpl; lia|].
  destruct (Nat.le_gt_cases (length (c :: t)) n) as [L|L]; [lia|].
  unfold value_of_digits in V. cbn [fold_left] in V. specialize (G t (0 * 10 + (c - 48))%N Dt). rewrite V in G.
  unfold is_digit, in_range in Dc. rewrite andb_true_iff, !N.leb_le in Dc.
  assert (10 ^ N.of_nat n <= 10 ^ N.of_nat (length t))%N by (apply N.pow_le_mono_r; simpl in L; lia). nia.
Qed.

Lemma length_pad_left n c s : (length s <= n)%nat -> length (pad_left n c s) = n.
Proof. intros H. unfold pad_left. rewrite length_app, length_replicate. lia. Qed.

(** A code of [d] digits. *)
Lemma decimal_code d v : 1 <= d -> 0 <= v ->
  let code := pad_left (Z.to_nat d) 48 (dec (Z.to_N (v mod 10 ^ d))) in
  length code = Z.to_nat d /\ forallb is_digit code = true /\ Z.of_N (value_of_digits code) = v mod 10 ^ d.
Proof.
  intros Hd Hv code. pose proof (Z.pow_pos_nonneg 10 d ltac:(lia) ltac:(lia)).
  pose proof (Z.mod_pos_bound v (10 ^ d) ltac:(lia)).
  destruct (pad_left_value (Z.to_nat d) (dec (Z.to_N (v mod 10 ^ d))) (dec_digits _)) as [V D].
  split_and!; [|exact D|unfold code; rewrite V, value_of_dec; lia].
  apply length_pad_left. etrans; [apply (length_dec_max _ (Z.to_nat d))|lia].
  apply N2Z.inj_lt. rewrite N2Z.inj_pow, Z2N.id by lia. rewrite nat_N_Z, Z2Nat.id by lia. change (Z.of_N 10) with 10. lia.
Qed.

(** *** Hexadecimal digests *)

Lemma hex8_ok x : length (hex8 x) = 8%nat /\ forallb is_hex_lower (hex8 x) = true.
Proof.
  unfold hex8, slice_last. set (s := u "00000000" ++ digits 16 (Z.to_N (uint32 x))).
  assert (L : (8 <= length s)%nat).
  { unfold s. rewrite length_app. change (length (u "00000000")) with 8%nat. lia. }
  split; [rewrite length_drop; lia|]. apply forallb_forall. intros c Hc.
  assert (F : Forall (fun c => is_hex_lower c = true) s).
  { apply Forall_app. split; [|apply digits_hex; lia]. apply Forall_forall. intros d Hd.
    pose proof (eq_refl : forallb is_hex_lower (u "00000000") = true) as Z8. rewrite forallb_forall in Z8.
    apply Z8. by apply list_elem_of_In. }
  rewrite List.Forall_forall in F. apply F. rewrite <- (take_drop (length s - 8) s). apply in_or_app. by right.
Qed.

Lemma hex8_concat ws : length (concat (map hex8 ws)) = (8 * length ws)%nat /\ forallb is_hex_lower (concat (map hex8 ws)) = true.
Proof.
  induction ws as [|w ws [IH1 IH2]]; [done|]. destruct (hex8_ok w) as [H1 H2]. cbn [map concat].
  rewrite length_app, forallb_app, IH1, IH2, H1, H2. split; [simpl; lia|done].
Qed.

Lemma hex8_words ws vs : map word ws = vs -> concat (map hex8 ws) = concat (map hex8 vs).
Proof.
  intros <-. rewrite map_map. f_equal. apply map_ext. intros x. unfold hex8. by rewrite !uint32_word, word_word.
Qed.

Lemma length_SHA256_words l : length (SHA256_words l) = 8%nat.
Proof. unfold SHA256_words. by destruct (fold_left compress256 _ _) as [[[[[[[a b] c] d] e] f] g] h]. Qed.

(** ** Properties *)

(** C34. The code shown for a key is the RFC 6238 code: for every accepted
    key and every time since 1970, [generate] answers, and the code of a
    non-Steam key has exactly the key's digits and is the HOTP value of the
    time step under the specified HMAC. *)
Theorem generate_rfc6238 key p ms : parseKey key = Some p -> 0 <= ms ->
  exists code, generate key (jz ms) = Some (code, otp_period p) /\
    (otp_alg p <> alg_steam ->
       length code = Z.to_nat (otp_digits p) /\ forallb is_digit code = true /\
       Z.of_N (value_of_digits code) =
         Rfc.HOTP (spec_hash (otp_alg p)) (otp_digits p) (otp_secret p) (Rfc.step (otp_period p) ms)).
Proof.
  intros Hp Hms. destruct (parseKey_ok key p Hp) as [Hd Ht Hs]. unfold generate. rewrite Hp. cbn [to_num jz].
  rewrite num_floor_div, num_floor_div by lia. unfold numz. rewrite Qfloor_Z. fold (Rfc.step (otp_period p) ms).
  assert (0 <= Rfc.step (otp_period p) ms) as Hc by (apply Z.div_pos; [apply Z.div_pos; lia|lia]).
  rewrite (proj2 (Z.ltb_ge _ _)) by done. eexists. split; [reflexivity|]. intros Ha.
  unfold deriveOtp. rewrite deriveOtp_hash by done. unfold Rfc.HOTP.
  destruct (otp_alg p) eqn:Ea; [|..|done]; apply decimal_code; try lia; apply DT_range.
Qed.

Lemma generate_rfc6238_witness :
  let key := JStr (u "otpauth://totp/rfc?secret=GEZDGNBVGY3TQOJQGEZDGNBVGY3TQOJQ&digits=8") in
  let p := default (mkParams alg_steam 0 0 []) (parseKey key) in
  exists code, generate key (jz 59000) = Some (code, otp_period p) /\
    (otp_alg p <> alg_steam ->
       length code = Z.to_nat (otp_digits p) /\ forallb is_digit code = true /\
       Z.of_N (value_of_digits code) =
         Rfc.HOTP (spec_hash (otp_alg p)) (otp_digits p) (otp_secret p) (Rfc.step (otp_period p) 59000)).
Proof. intros key p. apply (generate_rfc6238 key p 59000); [by vm_compute|lia]. Defined.

(** The vectors of RFC 6238, appendix B. *)
Example rfc6238_sha1_59 :
  generate (JStr (u "otpauth://totp/rfc?secret=GEZDGNBVGY3TQOJQGEZDGNBVGY3TQOJQ&digits=8")) (jz 59000)
  = Some (u "94287082", 30).
Proof. by vm_compute. Qed.
Example rfc6238_sha1_1111111109 :
  generate (JStr (u "otpauth://totp/rfc?secret=GEZDGNBVGY3TQOJQGEZDGNBVGY3TQOJQ&digits=8")) (jz 1111111109000)
  = Some (u "07081804", 30).
Proof. by vm_compute. Qed.
Example rfc6238_sha256_59 :
  generate (JStr (u "otpauth://totp/rfc?secret=GEZDGNBVGY3TQOJQGEZDGNBVGY3TQOJQGEZDGNBVGY3TQOJQGEZA====&digits=8&algorithm=SHA256"))
    (jz 59000) = Some (u "46119246", 30).
Proof. by vm_compute. Qed.

(** Base32 is read bit by bit: the secret is the five-bit groups of the
    characters of the alphabet, in either case and with every other character
    skipped, cut into whole bytes, trailing bits dropped. *)
Theorem decodeBase32_bits s : decodeBase32 s = Rfc.base32 (to_upper s).
Proof. apply decodeBase32_base32. Qed.

(** The fingerprint kept for an account is the hexadecimal SHA-256 of its
    UTF-8 text: 64 lower-case digits, the words of the FIPS digest. *)
Theorem sha256Hex_fips text l :
  utf8_encode (to_str text) = Some l -> Forall (fun b => (b < 256)%N) l ->
  exists h, sha256Hex text = Some h /\ length h = 64%nat /\ forallb is_hex_lower h = true /\
    h = concat (map hex8 (SHA256_words (map Z.of_N l))).
Proof.
  intros E Hl. unfold sha256Hex. rewrite E. eexists. split; [reflexivity|].
  assert (B : bytes (map Z.of_N l)) by (apply Forall_map; eapply Forall_impl; [exact Hl|]; simpl; lia).
  rewrite (hex8_words _ _ (sha256_words_fips _ B)).
  destruct (hex8_concat (SHA256_words (map Z.of_N l))) as [L H]. split_and!; [|exact H|done].
  by rewrite L, length_SHA256_words.
Qed.

Lemma sha256Hex_fips_witness :
  exists h, sha256Hex (JStr (u "abc")) = Some h /\ length h = 64%nat /\ forallb is_hex_lower h = true /\
    h = concat (map hex8 (SHA256_words (map Z.of_N [97; 98; 99]%N))).
Proof. apply (sha256Hex_fips (JStr (u "abc")) [97; 98; 99]%N); [by vm_compute|by repeat constructor]. Defined.

Example sha256Hex_abc :
  sha256Hex (JStr (u "abc")) = Some (u "ba7816bf8f01cfea414140de5dae2223b00361a396177a9cb410ff61f20015ad").
Proof. by vm_compute. Qed.
