(* ===== verification/Scrub.v ===== *)
(** * Collector scrubbing

    A collector keeps the output of its process's last run, so a lock re-runs
    every process that may have read a secret with a command that prints
    nothing ([src/BitwardenModel.js], "Collector scrubbing", driven by
    scrubSecretBuffers(), scrubStep() and finishScrubRun() of
    [src/Service.qml]; the runs themselves are those of Quickshell's Process
    and of [src/VaultProcess.qml]). The state is the processes, each with the
    run it has in flight and what its collector holds, and the queue of those
    still to be scrubbed; a step is a tick of the retry timer, the end of a run,
    the cancellation of one, or the helper taking one that waited for it. *)

From stdpp Require Import base list numbers strings gmap.
From S2P Require Import Prelude.
From S2P Require Import JsValue.
Local Open Scope nat_scope.

(** A managed process; [pid] is its identity. *)
Record proc := mkProc { pid : nat; running : bool; command : list jstr }.

Definition SCRUB_COMMAND : list jstr := [u "bash"; u "-c"; []].
Definition scrubCommand : list jstr := SCRUB_COMMAND.

Definition isScrubCommand (cmd : list jstr) : bool := bool_decide (cmd = SCRUB_COMMAND).

Definition SCRUB_RETRY_MS : Z := 1000.
Definition scrubRetryMs : Z := SCRUB_RETRY_MS.

Record scrub_pass := mkPass { start : list proc; waiting : list proc }.

Definition scrub_step (s : scrub_pass) (p : option proc) : scrub_pass :=
  match p with
  | None => s
  | Some p =>
    if running p then mkPass (start s) (waiting s ++ [p])
    else if isScrubCommand (command p) then s
    else mkPass (start s ++ [p]) (waiting s ++ [p])
  end.

Definition scrubPass (procs : list (option proc)) : scrub_pass := fold_left scrub_step procs (mkPass [] []).

Definition finishScrub (procs : list (option proc)) (finished : nat) : list proc :=
  List.filter (fun p => negb (pid p =? finished)) (omap id procs).

(** ** The panel's processes and its queue *)

(** What a process is doing: the [running] and [command] properties, the
    command of the run in flight, and whether the collector may hold the output
    of a run that was not a scrub. A VaultProcess reads as stopped as soon as it
    is cancelled, with its run in flight until it ends, and as running while it
    waits for the helper, with no run yet. *)
Record slot_state := mkSlot {
  s_vault : bool;
  s_running : bool;
  s_command : list jstr;
  s_run : option (list jstr);
  s_dirty : bool
}.

Record panel := mkPanel { slots : gmap nat slot_state; scrubPending : list nat }.

(** The process object the queue refers to, as it is now. *)
Definition proc_of (m : gmap nat slot_state) (p : nat) : option proc :=
  (fun s => mkProc p (s_running s) (s_command s)) <$> m !! p.

(** The scrub command, and [running] set. A VaultProcess clears its collector and
    starts only when no run of it is in flight. *)
Definition scrub_slot (s : slot_state) : slot_state :=
  match s_run s with
  | Some c => if s_vault s then mkSlot true true scrubCommand (Some c) (s_dirty s)
              else mkSlot false true scrubCommand (Some scrubCommand) (s_dirty s)
  | None => mkSlot (s_vault s) true scrubCommand (Some scrubCommand) (if s_vault s then false else s_dirty s)
  end.

Definition start_scrub (m : gmap nat slot_state) (p : proc) : gmap nat slot_state := alter scrub_slot (pid p) m.

Definition scrubStep (w : panel) : panel :=
  let pass := scrubPass (map (proc_of (slots w)) (scrubPending w)) in
  mkPanel (fold_left start_scrub (start pass) (slots w)) (map pid (waiting pass)).

Definition scrubSecretBuffers (m : gmap nat slot_state) (secretProcesses : list nat) : panel :=
  scrubStep (mkPanel m secretProcesses).

(** The run in flight ends: its output replaces what the collector held, and
    the exit handler asks finishScrubRun() first, which goes by the command the
    process has now. *)
Definition process_exit (w : panel) (p : nat) : panel :=
  match slots w !! p with
  | Some s =>
    match s_run s with
    | Some c =>
      mkPanel (<[p := mkSlot (s_vault s) false (s_command s) None (negb (isScrubCommand c))]> (slots w))
        (if isScrubCommand (s_command s) then map pid (finishScrub (map (proc_of (slots w)) (scrubPending w)) p) else scrubPending w)
    | None => w
    end
  | None => w
  end.

Definition set_slot (w : panel) (p : nat) (s : slot_state) : panel := mkPanel (<[p := s]> (slots w)) (scrubPending w).

(** [proc.running = false]: a kill is asked for. A Process reads as running until it ends. *)
Definition cancel_process (w : panel) (p : nat) : panel :=
  match slots w !! p with
  | Some s => if s_vault s && s_running s then set_slot w p (mkSlot true false (s_command s) (s_run s) (s_dirty s)) else w
  | None => w
  end.

(** flushVaultWaiting() hands the helper a run that waited for it. *)
Definition helper_takes (w : panel) (p : nat) : panel :=
  match slots w !! p with
  | Some s => match s_run s with
              | None => if s_vault s && s_running s then set_slot w p (mkSlot true true (s_command s) (Some (s_command s)) (s_dirty s)) else w
              | Some _ => w
              end
  | None => w
  end.

Inductive scrub_event := Tick | Exited (p : nat) | Cancelled (p : nat) | HelperTook (p : nat).

Definition scrub_next (w : panel) (e : scrub_event) : panel :=
  match e with
  | Tick => scrubStep w
  | Exited p => process_exit w p
  | Cancelled p => cancel_process w p
  | HelperTook p => helper_takes w p
  end.

Definition scrub_run (w : panel) (es : list scrub_event) : panel := fold_left scrub_next es w.

(** ** What the queue must hold *)

Definition is_scrub (s : slot_state) : bool := isScrubCommand (s_command s).

(** The collector holds, or will hold, something to scrub. *)
Definition unscrubbed (s : slot_state) : Prop :=
  s_dirty s = true \/ (exists c, s_run s = Some c /\ isScrubCommand c = false) \/ (s_running s = true /\ is_scrub s = false).

(** A process that was cancelled and has not ended. *)
Definition cancelled_run (s : slot_state) : Prop := s_running s = false /\ is_Some (s_run s).

(** A scrub was asked of a process whose cancelled run had not ended: nothing started. *)
Definition mistaken (s : slot_state) : Prop :=
  s_running s = true /\ is_scrub s = true /\ exists c, s_run s = Some c /\ isScrubCommand c = false.

(** A process as it may be at a lock, and as it is after it but for the mistaken ones. *)
Record slot_ok (s : slot_state) : Prop := {
  run_command : forall c, s_run s = Some c -> c = s_command s;
  run_plain : s_vault s = false -> s_running s = true <-> is_Some (s_run s);
  clean_plain : s_running s = false -> is_scrub s = true -> s_dirty s = false;
  clean_vault : s_vault s = true -> is_scrub s = true -> s_dirty s = false
}.

(** What holds of the panel when the processes of [E] are excepted. *)
Record panel_ok (E : nat -> Prop) (w : panel) : Prop := {
  ok_pending : forall p s, slots w !! p = Some s -> unscrubbed s -> p ∈ scrubPending w \/ E p;
  ok_slot : forall p s, slots w !! p = Some s -> slot_ok s \/ E p;
  ok_live : forall p s, slots w !! p = Some s -> s_running s = true -> is_scrub s = true -> is_Some (s_run s);
  ok_nodup : NoDup (scrubPending w);
  ok_known : forall p, p ∈ scrubPending w -> is_Some (slots w !! p)
}.

(** What is left to do for a queued process: let the helper take its run, let it
    end, start the scrub, let the scrub end. *)
Definition weight (s : option slot_state) : nat :=
  match s with
  | None => 0
  | Some s => if is_scrub s then 1 else if s_running s then (match s_run s with Some _ => 3 | None => 4 end) else 2
  end.

Definition work (w : panel) : nat := sum_list_with (fun p => weight (slots w !! p)) (scrubPending w).

(** The events that do something for the queue. *)
Definition effective (w : panel) (e : scrub_event) : Prop :=
  match e with
  | Tick => exists p s, p ∈ scrubPending w /\ slots w !! p = Some s /\ s_running s = false
  | Exited p => exists s, p ∈ scrubPending w /\ slots w !! p = Some s /\ s_running s = true /\ is_Some (s_run s)
  | HelperTook p => exists s, p ∈ scrubPending w /\ slots w !! p = Some s /\ s_running s = true /\ s_vault s = true
                      /\ is_scrub s = false /\ s_run s = None
  | Cancelled _ => False
  end.

(** ** Lemmas *)

(** One pass, as two filters of the queue. *)
Definition starts (m : gmap nat slot_state) (p : nat) : bool :=
  match m !! p with Some s => negb (s_running s) && negb (isScrubCommand (s_command s)) | None => false end.
Definition waits (m : gmap nat slot_state) (p : nat) : bool :=
  match m !! p with Some s => s_running s || negb (isScrubCommand (s_command s)) | None => false end.

Lemma scrubPass_filters m l :
  map pid (start (scrubPass (map (proc_of m) l))) = List.filter (starts m) l
  /\ map pid (waiting (scrubPass (map (proc_of m) l))) = List.filter (waits m) l.
Proof.
  unfold scrubPass. assert (forall st,
    map pid (start (fold_left scrub_step (map (proc_of m) l) st)) = map pid (start st) ++ List.filter (starts m) l
    /\ map pid (waiting (fold_left scrub_step (map (proc_of m) l) st)) = map pid (waiting st) ++ List.filter (waits m) l) as G.
  { induction l as [|p l IH]; intros st; simpl; [by rewrite !app_nil_r|].
    destruct (IH (scrub_step st (proc_of m p))) as [-> ->]. clear IH. unfold starts at 2, waits at 2, proc_of.
    destruct (m !! p) as [s|]; simpl; [|done]. destruct (s_running s); simpl; [by rewrite map_app, <- app_assoc|].
    destruct (isScrubCommand (s_command s)); simpl; [done|]. by rewrite !map_app, <- !app_assoc. }
  exact (G (mkPass [] [])).
Qed.

(** Starting the scrubs changes exactly the started slots. *)
Lemma start_scrub_lookup l m p : NoDup (map pid l) ->
  fold_left start_scrub l m !! p = if bool_decide (p ∈ map pid l) then scrub_slot <$> m !! p else m !! p.
Proof.
  revert m; induction l as [|q l IH]; intros m; simpl; [done|]. intros [Hq Hl]%NoDup_cons. rewrite (IH _ Hl).
  unfold start_scrub. destruct (decide (p = pid q)) as [->|Hne].
  - rewrite bool_decide_eq_false_2 by done. rewrite bool_decide_eq_true_2 by (by left). by rewrite lookup_alter_eq.
  - rewrite lookup_alter_ne by done. assert (p ∈ pid q :: map pid l <-> p ∈ map pid l) as E by (rewrite elem_of_cons; naive_solver).
    by rewrite (bool_decide_ext _ _ E).
Qed.

Lemma NoDup_bfilter {A} (f : A -> bool) l : NoDup l -> NoDup (List.filter f l).
Proof. intros H. rewrite <- (map_id (List.filter f l)). apply NoDup_map_bfilter. by rewrite map_id. Qed.

Lemma scrubStep_slots w p : NoDup (scrubPending w) ->
  slots (scrubStep w) !! p =
  if bool_decide (p ∈ scrubPending w) && starts (slots w) p then scrub_slot <$> slots w !! p else slots w !! p.
Proof.
  intros Hn. unfold scrubStep. cbn [slots]. destruct (scrubPass_filters (slots w) (scrubPending w)) as [E _].
  rewrite start_scrub_lookup by (rewrite E; by apply NoDup_bfilter). rewrite E.
  assert (bool_decide (p ∈ List.filter (starts (slots w)) (scrubPending w)) = bool_decide (p ∈ scrubPending w) && starts (slots w) p) as ->; [|done].
  apply eq_true_iff_eq. rewrite bool_decide_eq_true, elem_of_bfilter, andb_true_iff, bool_decide_eq_true. done.
Qed.

Lemma scrubStep_pending w : scrubPending (scrubStep w) = List.filter (waits (slots w)) (scrubPending w).
Proof. apply scrubPass_filters. Qed.

Lemma finishScrub_filter m l p : (forall q, q ∈ l -> is_Some (m !! q)) ->
  map pid (finishScrub (map (proc_of m) l) p) = List.filter (fun q => negb (q =? p)) l.
Proof.
  unfold finishScrub, proc_of. induction l as [|q l IH]; intros H; [done|]. simpl.
  destruct (H q ltac:(by left)) as [s Hs]. rewrite Hs. simpl. destruct (q =? p); simpl; [|f_equal]; apply IH; intros x Hx; apply H; by right.
Qed.

Lemma isScrub_scrubCommand : isScrubCommand scrubCommand = true.
Proof. by apply bool_decide_eq_true. Qed.

(** The process is queued, stopped and not yet given the scrub. *)
Lemma starts_spec m p : starts m p = true -> exists s, m !! p = Some s /\ s_running s = false /\ isScrubCommand (s_command s) = false.
Proof. unfold starts. destruct (m !! p) as [s|]; [|done]. intros [?%negb_true_iff ?%negb_true_iff]%andb_true_iff. eauto. Qed.

Definition mistaken_at (w : panel) (p : nat) : Prop := exists s, slots w !! p = Some s /\ mistaken s.

(** A scrub that starts leaves a well-kept process, or is mistaken. *)
Lemma scrub_slot_ok s : slot_ok s -> s_running s = false -> is_scrub s = false -> slot_ok (scrub_slot s) \/ mistaken (scrub_slot s).
Proof.
  intros [Hc Hp _ _] Hr Hs. unfold scrub_slot. destruct (s_run s) as [c|] eqn:E.
  - destruct (s_vault s) eqn:Ev.
    + right. split; [done|]. split; [apply isScrub_scrubCommand|]. exists c. split; [done|]. by rewrite (Hc c eq_refl).
    + rewrite (proj2 (Hp eq_refl) (ex_intro _ c eq_refl)) in Hr. done.
  - left. split; cbn; try done; [by intros c [= <-]|by intros ->].
Qed.

(** A process whose run has ended, with its output in the collector unless it was the scrub. *)
Lemma ended_ok v c : slot_ok (mkSlot v false c None (negb (isScrubCommand c))).
Proof. split; cbn; [done|by intros _; split; [|intros []]|..]; unfold is_scrub; cbn; intros _ H; by rewrite H. Qed.

Lemma scrub_slot_live s : is_Some (s_run (scrub_slot s)).
Proof. unfold scrub_slot. destruct (s_run s), (s_vault s); by eexists. Qed.

Lemma mistaken_unscrubbed s : mistaken s -> unscrubbed s.
Proof. intros (_ & _ & H). right. by left. Qed.

(** A well-kept process that is stopped with the scrub's command holds nothing. *)
Lemma scrubbed s : slot_ok s -> s_running s = false -> is_scrub s = true -> ~ unscrubbed s.
Proof.
  intros [Hc Hp Hd _] Hr Hs [H|[(c & E & H)|[H _]]]; [by rewrite Hd in H| |congruence].
  rewrite (Hc c E) in H. unfold is_scrub in Hs. congruence.
Qed.

Section Steps.
Context (E : nat -> Prop) (w : panel) (ok : panel_ok E w).

Lemma scrubStep_ok : panel_ok (fun p => E p \/ mistaken_at (scrubStep w) p) (scrubStep w).
Proof.
  destruct ok as [Hp Hs Hl Hn Hk]. pose proof (fun p => scrubStep_slots w p Hn) as Hslot. split.
  - intros p s. rewrite Hslot, scrubStep_pending, elem_of_bfilter. intros Ep Hu.
    destruct (bool_decide (p ∈ scrubPending w) && starts (slots w) p) eqn:Eb.
    + apply andb_true_iff in Eb as [Eb Est]. apply bool_decide_eq_true in Eb. left. split; [done|].
      apply starts_spec in Est as (s0 & E0 & H1 & H2). unfold waits. by rewrite E0, H2, orb_true_r.
    + destruct (Hp _ _ Ep Hu) as [Hin|He]; [|auto]. destruct (Hs _ _ Ep) as [Hok|He]; [|auto]. left. split; [done|].
      unfold waits. rewrite Ep. destruct (s_running s) eqn:Er; [done|]. destruct (isScrubCommand (s_command s)) eqn:Es; [|done].
      by destruct (scrubbed s Hok Er Es).
  - intros p s Es. destruct (slots w !! p) as [s0|] eqn:E0; [|rewrite Hslot, E0 in Es; by destruct (_ && _)].
    destruct (Hs _ _ E0) as [Hok|He]; [|auto]. pose proof Es as Es'. rewrite Hslot, E0 in Es.
    destruct (bool_decide (p ∈ scrubPending w) && starts (slots w) p) eqn:Eb; [|simplify_eq; auto].
    apply andb_true_iff in Eb as [_ Est]. apply starts_spec in Est as (s1 & E1 & H1 & H2). simplify_eq/=.
    destruct (scrub_slot_ok s1 Hok H1 H2); [auto|]. right. right. by eexists.
  - intros p s. rewrite Hslot. destruct (_ && _); [|by apply Hl]. intros (s0 & _ & ->)%fmap_Some _ _. apply scrub_slot_live.
  - rewrite scrubStep_pending. by apply NoDup_bfilter.
  - intros p. rewrite scrubStep_pending, elem_of_bfilter, Hslot. intros [H _]. destruct (_ && _); [apply fmap_is_Some|]; by apply Hk.
Qed.

(** A step that changes one process and takes at most it off the queue. *)
Lemma one_slot_ok p s t (q : list nat) : slots w !! p = Some s -> (q = scrubPending w \/ q = List.filter (fun x => negb (x =? p)) (scrubPending w)) ->
  (unscrubbed t -> p ∈ q \/ E p) -> (slot_ok s -> slot_ok t) -> (s_running t = true -> is_scrub t = true -> is_Some (s_run t)) ->
  panel_ok E (mkPanel (<[p := t]> (slots w)) q).
Proof.
  destruct ok as [Hp Hs Hl Hn Hk]. intros Ep Hq Hu Hok Hlive.
  assert (forall x, x <> p -> x ∈ scrubPending w -> x ∈ q) as Hother.
  { intros x Hx Hin. destruct Hq as [->| ->]; [done|]. apply elem_of_bfilter. split; [done|]. by apply negb_true_iff, Nat.eqb_neq. }
  split; cbn [slots scrubPending].
  - intros x y. rewrite lookup_insert_Some. intros [[<- <-]|[Hne Hx]] H; [auto|]. destruct (Hp _ _ Hx H); auto.
  - intros x y. rewrite lookup_insert_Some. intros [[<- <-]|[Hne Hx]]; [destruct (Hs _ _ Ep); auto|by apply (Hs x)].
  - intros x y. rewrite lookup_insert_Some. intros [[<- <-]|[Hne Hx]]; [done|]. by apply (Hl x).
  - destruct Hq as [->| ->]; [done|by apply NoDup_bfilter].
  - intros x Hx. rewrite lookup_insert_is_Some. destruct (decide (p = x)); [by left|right; split; [done|]]. apply Hk.
    destruct Hq as [->| ->]; [done|]. by apply elem_of_bfilter in Hx as [? _].
Qed.

Lemma process_exit_ok p : panel_ok E (process_exit w p).
Proof.
  unfold process_exit. destruct (slots w !! p) as [s|] eqn:Ep; [|done]. destruct (s_run s) as [c|] eqn:Er; [|done].
  rewrite finishScrub_filter by apply (ok_known _ _ ok). destruct (ok_slot _ _ ok _ _ Ep) as [Hok|He].
  - pose proof (run_command _ Hok c Er) as ->. apply (one_slot_ok p s); [done|destruct (isScrubCommand _); auto| |intros _; apply ended_ok|done].
    destruct (isScrubCommand (s_command s)) eqn:Es; [by intros [[=]|[(? & [=] & _)|[[=] _]]]|].
    intros _. apply (ok_pending _ _ ok _ _ Ep). right. left. by exists (s_command s).
  - destruct ok as [Hp Hs Hl Hn Hk]. split; cbn [slots scrubPending].
    + intros x y. rewrite lookup_insert_Some. intros [[<- <-]|[Hne Hx]] H; [by right|]. destruct (Hp _ _ Hx H) as [Hin|]; [|by right]. left.
      destruct (isScrubCommand (s_command s)); [|done]. apply elem_of_bfilter. split; [done|]. apply negb_true_iff, Nat.eqb_neq. congruence.
    + intros x y. rewrite lookup_insert_Some. intros [[<- <-]|[Hne Hx]]; [by right|]. by apply (Hs x).
    + intros x y. rewrite lookup_insert_Some. intros [[<- <-]|[Hne Hx]]; [done|]. by apply (Hl x).
    + destruct (isScrubCommand (s_command s)); [by apply NoDup_bfilter|done].
    + intros x Hx. rewrite lookup_insert_is_Some. destruct (decide (p = x)); [by left|right; split; [done|]]. apply Hk.
      destruct (isScrubCommand (s_command s)); [by apply elem_of_bfilter in Hx as [? _]|done].
Qed.

Lemma cancel_process_ok p : panel_ok E (cancel_process w p).
Proof.
  unfold cancel_process. destruct (slots w !! p) as [s|] eqn:Ep; [|done]. destruct (s_vault s) eqn:Ev, (s_running s) eqn:Er; try done.
  cbn [andb]. apply (one_slot_ok p s); [done|by left| | |done].
  - intros [H|[H|[[=] _]]]; apply (ok_pending _ _ ok _ _ Ep); [by left|by right; left].
  - intros [Hc Hp Hd Hv]. specialize (Hv Ev). split; cbn; done.
Qed.

Lemma helper_takes_ok p : panel_ok E (helper_takes w p).
Proof.
  unfold helper_takes. destruct (slots w !! p) as [s|] eqn:Ep; [|done]. destruct (s_run s) eqn:Er; [done|].
  destruct (s_vault s) eqn:Ev, (s_running s) eqn:Erun; try done. cbn [andb]. apply (one_slot_ok p s); [done|by left| | |by eexists].
  - unfold unscrubbed, is_scrub. cbn [s_dirty s_run s_running s_command]. intros H. apply (ok_pending _ _ ok _ _ Ep).
    destruct H as [H|[(c & [= <-] & H)|[_ H]]]; [by left| |]; right; right; done.
  - intros [Hc Hp Hd Hv]. specialize (Hv Ev). split; cbn; try done. by intros c [= <-].
Qed.
End Steps.

Lemma panel_ok_more (E E' : nat -> Prop) w : (forall p, E p -> E' p) -> panel_ok E w -> panel_ok E' w.
Proof. intros H [Hp Hs Hl Hn Hk]. split; try done; [intros p s Ep Hu; destruct (Hp _ _ Ep Hu); auto|intros p s Ep; destruct (Hs _ _ Ep); auto]. Qed.

Lemma scrub_next_ok E w e : panel_ok E w -> panel_ok (fun p => E p \/ mistaken_at (scrub_next w e) p) (scrub_next w e).
Proof.
  intros H. destruct e as [|p|p|p]; [by apply scrubStep_ok|..]; (eapply panel_ok_more; [by left|]);
    [by apply process_exit_ok|by apply cancel_process_ok|by apply helper_takes_ok].
Qed.

(** The lock's queue, which names every process that may hold a secret. *)
Record locked_with (m : gmap nat slot_state) (secretProcesses : list nat) : Prop := {
  lw_covers : forall p s, m !! p = Some s -> unscrubbed s -> p ∈ secretProcesses;
  lw_slot : forall p s, m !! p = Some s -> slot_ok s;
  lw_live : forall p s, m !! p = Some s -> s_running s = true -> is_scrub s = true -> is_Some (s_run s);
  lw_nodup : NoDup secretProcesses;
  lw_known : forall p, p ∈ secretProcesses -> is_Some (m !! p)
}.

(** The panel at the lock, and after some events. *)
Notation after m l es := (scrub_run (scrubSecretBuffers m l) es).

(** The exception: at the lock or since, a scrub was asked of the process while a cancelled run of it had not ended. *)
Definition was_mistaken (m : gmap nat slot_state) (l : list nat) (es : list scrub_event) (p : nat) : Prop :=
  exists before rest, es = before ++ rest /\ mistaken_at (after m l before) p.

Lemma scrub_run_snoc w es e : scrub_run w (es ++ [e]) = scrub_next (scrub_run w es) e.
Proof. unfold scrub_run. by rewrite fold_left_app. Qed.

Lemma was_mistaken_more m l es e p : was_mistaken m l es p -> was_mistaken m l (es ++ [e]) p.
Proof. intros (b & r & -> & H). exists b, (r ++ [e]). by rewrite <- app_assoc. Qed.

Lemma locked_ok m l : locked_with m l -> panel_ok (was_mistaken m l []) (scrubSecretBuffers m l).
Proof.
  intros [H1 H2 H3 H4 H5]. eapply panel_ok_more; [|apply (scrubStep_ok (fun _ => False)); split; cbn; eauto].
  intros p [[]|H]. by exists [], [].
Qed.

Lemma scrub_run_ok m l es : locked_with m l -> panel_ok (was_mistaken m l es) (after m l es).
Proof.
  intros H. induction es as [|e es IH] using rev_ind; [by apply locked_ok|]. rewrite scrub_run_snoc.
  eapply panel_ok_more; [|by apply scrub_next_ok]. intros p [Hp|Hp]; [by apply was_mistaken_more|].
  exists (es ++ [e]), []. rewrite app_nil_r. split; [done|]. by rewrite scrub_run_snoc.
Qed.

(** *** Only a cancelled process is mistaken *)

(** A VaultProcess that was cancelled, at the lock or since. *)
Definition was_cancelled (m : gmap nat slot_state) (es : list scrub_event) (p : nat) : Prop :=
  (exists s, m !! p = Some s /\ s_vault s = true /\ cancelled_run s) \/ Cancelled p ∈ es.

Definition cancels_ok (K : nat -> Prop) (w : panel) : Prop :=
  forall p s, slots w !! p = Some s -> (s_vault s = false -> s_running s = true <-> is_Some (s_run s))
    /\ (s_vault s = true -> cancelled_run s \/ mistaken s -> K p)
    /\ (s_vault s = false -> ~ mistaken s).

Lemma scrubStep_cancels K w : NoDup (scrubPending w) -> cancels_ok K w -> cancels_ok K (scrubStep w).
Proof.
  intros Hn H p s. rewrite scrubStep_slots by done. destruct (_ && _) eqn:Eb; [|by apply H].
  apply andb_true_iff in Eb as [_ (s0 & E0 & H1 & H2)%starts_spec]. rewrite E0. intros [= <-].
  destruct (H _ _ E0) as (A & B & C). unfold scrub_slot. destruct (s_run s0) as [c|] eqn:Er, (s_vault s0) eqn:Ev; cbn; split_and!; try done.
  - intros _ _. apply B; [done|]. left. split; [done|]. rewrite Er. by eexists.
  - intros _ (_ & _ & d & [= <-] & Hd). by rewrite isScrub_scrubCommand in Hd.
  - intros _ [[[=] _]|(_ & _ & d & [= <-] & Hd)]. by rewrite isScrub_scrubCommand in Hd.
  - intros _ (_ & _ & d & [= <-] & Hd). by rewrite isScrub_scrubCommand in Hd.
Qed.

Lemma one_slot_cancels (K : nat -> Prop) w p t q : cancels_ok K w -> (s_vault t = false -> s_running t = true <-> is_Some (s_run t)) ->
  (s_vault t = true -> cancelled_run t \/ mistaken t -> K p) -> (s_vault t = false -> ~ mistaken t) ->
  cancels_ok K (mkPanel (<[p := t]> (slots w)) q).
Proof. intros H A B C x y. cbn [slots]. rewrite lookup_insert_Some. intros [[<- <-]|[Hne Hx]]; [done|by apply H]. Qed.

Lemma scrub_next_cancels (K : nat -> Prop) w e : NoDup (scrubPending w) -> cancels_ok K w ->
  cancels_ok (fun p => K p \/ e = Cancelled p) (scrub_next w e).
Proof.
  intros Hn H. assert (cancels_ok (fun p => K p \/ e = Cancelled p) w) as H'.
  { intros p s Ep. destruct (H _ _ Ep) as (A & B & C). split_and!; auto. }
  destruct e as [|p|p|p]; cbn [scrub_next]; [by apply scrubStep_cancels|..].
  - unfold process_exit. destruct (slots w !! p) as [s|] eqn:Ep; [|done]. destruct (s_run s) as [c|] eqn:Er; [|done].
    apply one_slot_cancels; [done|..]; cbn; [by split; [|intros []]| |by intros _ [[=] _]].
    by intros _ [[_ [? [=]]]|[[=] _]].
  - unfold cancel_process. destruct (slots w !! p) as [s|] eqn:Ep; [|done]. destruct (s_vault s) eqn:Ev, (s_running s) eqn:Er; try done.
    cbn [andb]. apply one_slot_cancels; cbn; auto; done.
  - unfold helper_takes. destruct (slots w !! p) as [s|] eqn:Ep; [|done]. destruct (s_run s) eqn:Er; [done|].
    destruct (s_vault s) eqn:Ev, (s_running s) eqn:Erun; try done. cbn [andb]. apply one_slot_cancels; [done|done| |done].
    intros _ [[[=] _]|(_ & H1 & c & [= <-] & H2)]. unfold is_scrub in H1. cbn in H1. congruence.
Qed.

Lemma scrub_run_cancels m l es : locked_with m l -> cancels_ok (was_cancelled m es) (after m l es).
Proof.
  intros H. induction es as [|e es IH] using rev_ind.
  - apply scrubStep_cancels; [apply (lw_nodup _ _ H)|]. intros p s Ep. cbn [slots] in Ep. pose proof (lw_slot _ _ H _ _ Ep) as [Hc Hp _ _].
    assert (~ mistaken s) as Hm.
    { intros (_ & H1 & c & Er & H2). rewrite (Hc c Er) in H2. unfold is_scrub in H1. congruence. }
    split_and!; [done| |done]. intros Hv [Hx|Hx]; [|done]. left. eauto.
  - rewrite scrub_run_snoc. pose proof (scrub_next_cancels _ _ e (ok_nodup _ _ (scrub_run_ok m l es H)) IH) as G.
    intros p s Ep. destruct (G p s Ep) as (A & B & C). split_and!; [done| |done]. intros Hv Hx.
    destruct (B Hv Hx) as [[Hk|Hk]| ->]; [by left|right; apply elem_of_app; by left|right; apply elem_of_app; right; by left].
Qed.

Lemma mistaken_was_cancelled m l es p : locked_with m l -> was_mistaken m l es p -> was_cancelled m es p.
Proof.
  intros H (b & r & -> & s & Es & Hs). destruct (scrub_run_cancels m l b H p s Es) as (_ & B & C).
  destruct (s_vault s) eqn:Ev; [|by destruct (C eq_refl)]. destruct (B eq_refl (or_intror Hs)) as [Hk|Hk]; [by left|].
  right. apply elem_of_app. by left.
Qed.

(** The work of a queue where every weight is no more than before. *)
Lemma sum_filter_le (f g : nat -> nat) (k : nat -> bool) l : (forall p, p ∈ l -> k p = true -> f p <= g p) ->
  sum_list_with f (List.filter k l) <= sum_list_with g l.
Proof.
  induction l as [|p l IH]; intros H; simpl; [lia|].
  assert (sum_list_with f (List.filter k l) <= sum_list_with g l) by (apply IH; intros q Hq; apply H; by right).
  destruct (k p) eqn:E; simpl; [|lia]. pose proof (H p ltac:(by left) E). lia.
Qed.

Lemma sum_filter_lt (f g : nat -> nat) (k : nat -> bool) l p : p ∈ l -> (forall p, p ∈ l -> k p = true -> f p <= g p) ->
  (if k p then f p else 0) < g p -> sum_list_with f (List.filter k l) < sum_list_with g l.
Proof.
  intros Hin H Hlt. induction l as [|q l IH]; [by apply elem_of_nil in Hin|]. simpl.
  pose proof (sum_filter_le f g k l ltac:(intros x Hx; apply H; by right)) as Hle.
  apply elem_of_cons in Hin as [->|Hin].
  - destruct (k q); simpl; lia.
  - specialize (IH Hin ltac:(intros x Hx; apply H; by right)). pose proof (H q ltac:(by left)). destruct (k q); simpl; [specialize (H0 eq_refl)|]; lia.
Qed.

(** What each event does to the weight of a queued process. *)
Lemma tick_weight E w p s : panel_ok E w -> slots w !! p = Some s -> p ∈ scrubPending w ->
  (if waits (slots w) p then weight (slots (scrubStep w) !! p) else 0)
  = if s_running s then weight (Some s) else if isScrubCommand (s_command s) then 0 else 1.
Proof.
  intros H Es Hin. rewrite scrubStep_slots by apply (ok_nodup _ _ H). rewrite bool_decide_eq_true_2 by done. unfold waits, starts.
  rewrite Es. destruct (s_running s) eqn:Er; simpl; rewrite ?Es; [done|]. destruct (isScrubCommand (s_command s)); [done|].
  unfold weight, is_scrub, scrub_slot. by destruct (s_run s), (s_vault s).
Qed.

Lemma weight_pos s : 1 <= weight (Some s) <= 4.
Proof. unfold weight. destruct (is_scrub s), (s_running s), (s_run s); lia. Qed.

Section Work.
Context (E : nat -> Prop) (w : panel) (ok : panel_ok E w).

Lemma tick_work : work (scrubStep w) <= work w.
Proof.
  unfold work. rewrite scrubStep_pending. apply sum_filter_le. intros p Hin Hw.
  destruct (ok_known _ _ ok p Hin) as [s Es]. pose proof (tick_weight E w p s ok Es Hin) as T. rewrite Hw in T. rewrite T, Es.
  pose proof (weight_pos s). destruct (s_running s); [lia|]. destruct (isScrubCommand (s_command s)); lia.
Qed.

Lemma tick_work_lt p s : p ∈ scrubPending w -> slots w !! p = Some s -> s_running s = false -> work (scrubStep w) < work w.
Proof.
  intros Hin Es Hr. unfold work. rewrite scrubStep_pending. apply (sum_filter_lt _ _ _ _ p Hin).
  - intros q Hq Hw. destruct (ok_known _ _ ok q Hq) as [t Et]. pose proof (tick_weight E w q t ok Et Hq) as T. rewrite Hw in T. rewrite T, Et.
    pose proof (weight_pos t). destruct (s_running t); [lia|]. destruct (isScrubCommand (s_command t)); lia.
  - rewrite (tick_weight E w p s ok Es Hin), Hr, Es. unfold weight, is_scrub. rewrite Hr. destruct (isScrubCommand (s_command s)); lia.
Qed.

(** A step that changes one process: the work follows that process's weight. *)
Lemma one_slot_work_le p t (k : nat -> bool) : weight (Some t) <= weight (slots w !! p) ->
  work (mkPanel (<[p := t]> (slots w)) (List.filter k (scrubPending w))) <= work w.
Proof.
  intros H. unfold work. cbn [slots scrubPending]. apply sum_filter_le. intros q _ _.
  destruct (decide (p = q)) as [<-|]; [by rewrite lookup_insert_eq|by rewrite lookup_insert_ne].
Qed.

Lemma one_slot_work_lt p t (k : nat -> bool) : p ∈ scrubPending w -> (forall q, q <> p -> k q = true) ->
  (if k p then weight (Some t) else 0) < weight (slots w !! p) ->
  work (mkPanel (<[p := t]> (slots w)) (List.filter k (scrubPending w))) < work w.
Proof.
  intros Hin Hk H. unfold work. cbn [slots scrubPending]. apply (sum_filter_lt _ _ _ _ p Hin); [|by rewrite lookup_insert_eq].
  intros q _ Hq. destruct (decide (p = q)) as [<-|]; [|by rewrite lookup_insert_ne]. rewrite lookup_insert_eq. rewrite Hq in H. lia.
Qed.

Lemma whole_queue m : mkPanel m (scrubPending w) = mkPanel m (List.filter (fun _ => true) (scrubPending w)).
Proof. by rewrite bfilter_all by (by apply Forall_true). Qed.

(** A run that ends leaves a stopped process, which weighs no more; if it was to be scrubbed, less. *)
Lemma exit_work_lt p s : p ∈ scrubPending w -> slots w !! p = Some s -> s_running s = true -> is_Some (s_run s) ->
  work (process_exit w p) < work w.
Proof.
  intros Hin Es Hr [c Ec]. unfold process_exit. rewrite Es, Ec, finishScrub_filter by apply (ok_known _ _ ok).
  destruct (isScrubCommand (s_command s)) eqn:Ei.
  - apply one_slot_work_lt; [done|intros q Hq; by apply negb_true_iff, Nat.eqb_neq|]. rewrite Nat.eqb_refl, Es. simpl.
    unfold is_scrub. rewrite Ei. lia.
  - rewrite whole_queue. apply one_slot_work_lt; [done..|]. rewrite Es. unfold weight, is_scrub. cbn. rewrite Ei, Hr, Ec. lia.
Qed.

Lemma exit_work_le p : work (process_exit w p) <= work w.
Proof.
  unfold process_exit. destruct (slots w !! p) as [s|] eqn:Es; [|done]. destruct (s_run s) as [c|] eqn:Ec; [|done].
  rewrite finishScrub_filter by apply (ok_known _ _ ok). assert (forall d, weight (Some (mkSlot (s_vault s) false (s_command s) None d)) <= weight (Some s)) as Hw.
  { intros d. unfold weight, is_scrub. cbn. destruct (isScrubCommand _), (s_running s), (s_run s); lia. }
  destruct (isScrubCommand (s_command s)); [|rewrite whole_queue]; apply one_slot_work_le; by rewrite Es.
Qed.

Lemma cancel_work_le p : work (cancel_process w p) <= work w.
Proof.
  unfold cancel_process, set_slot. destruct (slots w !! p) as [s|] eqn:Es; [|done]. destruct (s_vault s), (s_running s) eqn:Er; try done.
  cbn [andb]. rewrite whole_queue. apply one_slot_work_le. rewrite Es. unfold weight, is_scrub. cbn. rewrite Er.
  destruct (isScrubCommand _), (s_run s); lia.
Qed.

Lemma helper_work_le p : work (helper_takes w p) <= work w.
Proof.
  unfold helper_takes, set_slot. destruct (slots w !! p) as [s|] eqn:Es; [|done]. destruct (s_run s) eqn:Er; [done|].
  destruct (s_vault s), (s_running s) eqn:Erun; try done. cbn [andb]. rewrite whole_queue. apply one_slot_work_le. rewrite Es.
  unfold weight, is_scrub. cbn. rewrite Er, Erun. destruct (isScrubCommand _); lia.
Qed.

Lemma helper_work_lt p s : p ∈ scrubPending w -> slots w !! p = Some s -> s_running s = true -> s_vault s = true ->
  is_scrub s = false -> s_run s = None -> work (helper_takes w p) < work w.
Proof.
  intros Hin Es Hr Hv Hi Hn. unfold helper_takes, set_slot. rewrite Es, Hn, Hv, Hr. cbn [andb]. rewrite whole_queue.
  apply one_slot_work_lt; [done..|]. rewrite Es. unfold weight, is_scrub in *. cbn. rewrite Hi, Hr, Hn. lia.
Qed.

Lemma effective_work e : effective w e -> work (scrub_next w e) < work w.
Proof.
  destruct e as [|p|p|p]; cbn [effective scrub_next]; [intros (p & s & ? & ? & ?)|intros (s & ? & ? & ? & ?)|done|intros (s & ? & ? & ? & ? & ? & ?)];
    eauto using tick_work_lt, exit_work_lt, helper_work_lt.
Qed.

Lemma next_work_le e : work (scrub_next w e) <= work w.
Proof. destruct e; [apply tick_work|apply exit_work_le|apply cancel_work_le|apply helper_work_le]. Qed.

(** While something is queued, some event makes progress. *)
Lemma something_effective : (forall p s, slots w !! p = Some s -> s_vault s = false -> s_running s = true -> is_Some (s_run s)) ->
  scrubPending w <> [] -> exists e, effective w e.
Proof.
  intros Hplain Hne. destruct (scrubPending w) as [|p l] eqn:El; [done|]. assert (p ∈ scrubPending w) as Hp by (rewrite El; by left).
  destruct (ok_known _ _ ok p Hp) as [s Es]. destruct (s_running s) eqn:Er; [|by exists Tick, p, s].
  destruct (s_run s) as [c|] eqn:Ec; [exists (Exited p), s; rewrite Ec; by split_and!|]. exists (HelperTook p), s.
  destruct (s_vault s) eqn:Ev; [|destruct (Hplain p s Es Ev Er); congruence]. split_and!; try done.
  destruct (is_scrub s) eqn:Ei; [|done]. destruct (ok_live _ _ ok p s Es Er Ei). congruence.
Qed.

Lemma work_bound : work w <= 4 * length (scrubPending w).
Proof.
  unfold work. induction (scrubPending w) as [|p l IH]; simpl; [lia|].
  assert (weight (slots w !! p) <= 4); [|lia]. destruct (slots w !! p) as [s|]; [|simpl; lia]. apply weight_pos.
Qed.
End Work.

(** ** Properties *)

(** C33. From a lock on, however ticks of the retry timer, ends of runs,
    cancellations and the helper's starts interleave, a process whose collector
    holds output, or that has a run or a start other than the scrub ahead, is
    queued, with one exception; so when the queue is empty every other
    collector is empty. The exception is exact: a VaultProcess that was
    cancelled, and of which the lock asked the scrub while the cancelled run
    had not ended. Then nothing starts and the end of the cancelled run is
    taken for the scrub's, so that run's output stays
    ([cancelled_run_left_unscrubbed] is such a run). This is about the time
    until the panel starts something else in one of the processes. *)
Theorem scrub_queue_covers m secretProcesses es : locked_with m secretProcesses ->
  let w := scrub_run (scrubSecretBuffers m secretProcesses) es in
  (forall p s, slots w !! p = Some s -> unscrubbed s -> p ∈ scrubPending w \/ was_mistaken m secretProcesses es p)
  /\ (scrubPending w = [] -> forall p s, slots w !! p = Some s -> ~ was_mistaken m secretProcesses es p -> s_dirty s = false)
  /\ (forall p, was_mistaken m secretProcesses es p -> was_cancelled m es p).
Proof.
  intros H w. destruct (scrub_run_ok m secretProcesses es H) as [Hp _ _ _ _]. split_and!; [done| |intros p; by apply mistaken_was_cancelled].
  intros He p s Es Hm. destruct (s_dirty s) eqn:Ed; [|done]. destruct (Hp p s Es ltac:(by left)) as [Hin|]; [|done].
  unfold w in He. rewrite He in Hin. by apply elem_of_nil in Hin.
Qed.

(** Scrubbing ends: while the queue is not empty some event makes progress
    - a tick for a stopped process, the end of a run for a running one, the
    helper's taking one that waits - no event adds work, and each that makes
    progress removes some, so at most four such events per queued process empty
    the queue. *)
Theorem scrub_terminates m secretProcesses es : locked_with m secretProcesses ->
  let w := scrub_run (scrubSecretBuffers m secretProcesses) es in
  (scrubPending w <> [] -> exists e, effective w e)
  /\ (forall e, work (scrub_next w e) <= work w)
  /\ (forall e, effective w e -> work (scrub_next w e) < work w)
  /\ work w <= 4 * length (scrubPending w).
Proof.
  intros H w. pose proof (scrub_run_ok m secretProcesses es H) as Hw. split_and!.
  - eapply something_effective; [done|]. intros p s Es Hv Hr. destruct (scrub_run_cancels m secretProcesses es H p s Es) as (A & _ & _). by apply A.
  - by eapply next_work_le.
  - by eapply effective_work.
  - apply work_bound.
Qed.

(** Two processes at a lock: one still reading, one with an old answer. *)
Definition example_slots : gmap nat slot_state :=
  <[1 := mkSlot true true [u "bw"; u "list"] (Some [u "bw"; u "list"]) false]> (<[2 := mkSlot false false [u "bw"; u "get"] None true]> ∅).

Lemma example_slots_lookup p s : example_slots !! p = Some s ->
  p = 1 /\ s = mkSlot true true [u "bw"; u "list"] (Some [u "bw"; u "list"]) false
  \/ p = 2 /\ s = mkSlot false false [u "bw"; u "get"] None true.
Proof. unfold example_slots. rewrite !lookup_insert_Some. naive_solver. Qed.

Lemma example_locked : locked_with example_slots [1; 2].
Proof.
  split.
  - intros p s [[-> _]|[-> _]]%example_slots_lookup _; rewrite !elem_of_cons; auto.
  - intros p s [[_ ->]|[_ ->]]%example_slots_lookup; split; cbn; try done. by intros c [= <-].
  - intros p s [[_ ->]|[_ ->]]%example_slots_lookup; [by eexists|done].
  - apply (bool_decide_unpack _). by vm_compute.
  - intros p Hp. rewrite !elem_of_cons in Hp. destruct Hp as [-> |[-> |Hp%elem_of_nil]]; [by eexists..|done].
Qed.

(** The read is cancelled, its end is still to come when the retry timer asks
    for its scrub, and that end empties the queue with the read's output kept. *)
Lemma cancelled_run_left_unscrubbed :
  let w := scrub_run (scrubSecretBuffers example_slots [1; 2]) [Exited 2; Cancelled 1; Tick; Exited 1] in
  scrubPending w = [] /\ option_map s_dirty (slots w !! 1) = Some true.
Proof. split; vm_compute; reflexivity. Qed.

Lemma scrub_queue_covers_witness :
  let w := scrub_run (scrubSecretBuffers example_slots [1; 2]) [Exited 2; Exited 1; Tick; Exited 1] in
  scrubPending w = [] /\ forall p s, slots w !! p = Some s -> s_dirty s = false.
Proof.
  split; [vm_compute; reflexivity|]. intros p s Hs.
  destruct (scrub_queue_covers example_slots [1; 2] [Exited 2; Exited 1; Tick; Exited 1] example_locked) as (_ & Hclean & Hexc).
  apply (Hclean ltac:(vm_compute; reflexivity) p s Hs). intros [(t & Ht & _ & Hr & Hrun)|Hin]%Hexc.
  - destruct (example_slots_lookup _ _ Ht) as [[_ ->]|[_ ->]]; [done|]. by destruct Hrun.
  - rewrite !elem_of_cons in Hin. by destruct Hin as [?|[?|[?|[?|?%elem_of_nil]]]].
Defined.

Lemma scrub_terminates_witness : exists e, effective (scrubSecretBuffers example_slots [1; 2]) e.
Proof. apply (scrub_terminates example_slots [1; 2] [] example_locked). vm_compute. discriminate. Defined.
