(* ===== verification/Session.v ===== *)
(** * Sessions and logins

    The vault's session and the login flow of [src/BitwardenModel.js]: session
    keys, stale reads, the time windows, the remembered
    two-step methods, bw's login messages, server addresses and openable
    links. *)

From stdpp Require Import base list numbers strings.
From S2P Require Import Prelude.
From S2P Require Import JsValue.
From S2P Require Import Json.
From S2P Require Import Uri.
From S2P Require Import Regex.
From S2P Require Import Shell.
From S2P Require Import Accounts.
From S2P Require Import Hash.
From S2P Require Import Totp.
Local Open Scope nat_scope.
Local Open Scope js_scope.

(** ** Session keys *)

Definition is_token_char (c : N) : bool := is_alnum c || one_of (u "+/=_-") c.

(** [/^[A-Za-z0-9+/=_-]{32,}$/] *)
Definition SESSION_TOKEN_RE (s : jstr) : bool := (32 <=? length s) && all_in is_token_char s.

Definition isSessionToken (value : jsval) : bool := SESSION_TOKEN_RE (trim (text_or_empty value)).

Definition export_re : regex :=
  RSeqs [RLit (u "BW_SESSION="); ROpt (RLit [34%N]); RGroup (RPlus (RChar (not_of (one_of [34; 10; 13]%N))));
         ROpt (RLit [34%N])].

Definition extractSessionToken (raw : jsval) : jstr :=
  let s := trim (text_or_empty raw) in
  let exported := match exec export_re s with Some m => default [] (m_group m) | None => [] end in
  if negb (str_eqb exported []) && isSessionToken (JStr exported) then trim exported
  else default [] (find_first (fun line => isSessionToken (JStr line)) (map trim (split_char 10 s))).

(** A read that started under another vault generation, or with no session. *)
Definition vaultReadIsStale (startedEpoch currentEpoch hasSession : jsval) : bool :=
  if negb (truthy hasSession) then true else negb (num_eqb (to_num startedEpoch) (to_num currentEpoch)).

(** ** Windows *)

Definition HANDOFF_WINDOW_MS : Z := 10 * 60 * 1000.
Definition SECOND_FACTOR_WINDOW_MS : Z := 5 * 60 * 1000.

Definition windowOpen (startedAt now : jsval) (windowMs : Z) : bool :=
  let began := to_num startedAt in
  if negb (is_finite began) || num_leb began (numz 0) then false
  else
    let elapsed := num_sub (to_num now) began in
    if negb (is_finite elapsed) || num_ltb elapsed (numz 0) then false
    else num_leb elapsed (numz windowMs).

Definition secondFactorWindowOpen (startedAt now : jsval) : bool := windowOpen startedAt now SECOND_FACTOR_WINDOW_MS.
Definition handoffWindowOpen (startedAt now : jsval) : bool := windowOpen startedAt now HANDOFF_WINDOW_MS.

Definition screenIsLocked (raw : jsval) : bool := str_eqb (trim (text_or_empty raw)) (u "true").

(** ** Two-step methods *)

Definition TWO_FACTOR_METHODS : list jsval :=
  [obj [("method", jz 0); ("label", JStr (u "Authenticator app"));
        ("hint", JStr (u "The rotating 6-digit code from your authenticator."))];
   obj [("method", jz 3); ("label", JStr (u "YubiKey OTP"));
        ("hint", JStr (u "Touch the key to type its one-time password."))];
   obj [("method", jz 1); ("label", JStr (u "Email"));
        ("hint", JStr (u "Bitwarden sends a code to your login address when you choose this."))]]%string.

Definition twoFactorMethods : list jsval := TWO_FACTOR_METHODS.

Definition has_method (method entry : jsval) : bool := strict_eq entry.["method"] method.

Definition isTwoFactorMethod (method : jsval) : bool := existsb (has_method method) TWO_FACTOR_METHODS.

Definition twoFactorMethodLabel (method : jsval) : jsval :=
  match find_first (has_method method) TWO_FACTOR_METHODS with Some e => e.["label"] | None => JStr [] end.

Definition MAX_REMEMBERED_ACCOUNTS : nat := 10.

Definition twoFactorPlainKey (email : jsval) : jstr := to_lower (trim (text_or_empty email)).

(** None where sha256Hex throws. *)
Definition twoFactorAccountKey (email : jsval) : option jstr :=
  let plain := twoFactorPlainKey email in
  if str_eqb plain [] then Some [] else sha256Hex (JStr plain).

(** [/^[0-9a-f]{64}$/] *)
Definition isTwoFactorHashKey (key : jstr) : bool := (length key =? 64) && all_in is_hex_lower key.

Definition twoFactorStoredKey (key : jstr) : option jstr :=
  if isTwoFactorHashKey key then Some key else twoFactorAccountKey (JStr key).

(** The members a [for .. in] walks. *)
Definition enumerated (v : jsval) : list (jstr * jsval) :=
  match v with
  | JObj o => o
  | JArr l => zip (map (fun i => dec_nat i) (seq 0 (length l))) l
  | _ => []
  end.

Definition twoFactorStoreHasPlainKeys (store : jsval) : bool :=
  is_object store && existsb (fun kv => negb (isTwoFactorHashKey (fst kv))) (enumerated store).

(** -1 for anything but a method of the table. *)
Definition twoFactorMethodOf (raw : jsval) : num :=
  let m := match raw with
           | JNum n => num_floor n
           | JStr s => if str_eqb (trim s) [] then NaN else num_floor (to_num raw)
           | _ => NaN
           end in
  if is_finite m && isTwoFactorMethod (JNum m) then m else numz (-1).

Definition rememberedTwoFactorMethodFor (store email : jsval) : option num :=
  key ← twoFactorAccountKey email;
  if str_eqb key [] || negb (is_object store) then Some (numz (-1))
  else
    let found := twoFactorMethodOf (jget store key) in
    Some (if num_leb (numz 0) found then found else twoFactorMethodOf (jget store (twoFactorPlainKey email))).

(** The entries kept so far, and their number. *)
Definition kept_entries : Type := list (jstr * jsval) * nat.

Definition keep_entry (key : jstr) (room : nat) (pass_hashed : bool) (st : option kept_entries) (kv : jstr * jsval)
  : option kept_entries :=
  '(next, kept) ← st;
  if negb (Bool.eqb (isTwoFactorHashKey (fst kv)) pass_hashed) then Some (next, kept)
  else
    other ← twoFactorStoredKey (fst kv);
    if str_eqb other [] || str_eqb other key || negb (is_undef (obj_get next other)) then Some (next, kept)
    else
      let existing := twoFactorMethodOf (snd kv) in
      if num_ltb existing (numz 0) then Some (next, kept)
      else if (room <=? kept) then Some (next, kept)
      else Some (obj_set next other (JNum existing), S kept).

Definition twoFactorKeptEntries (store : jsval) (key : jstr) (room : nat) : option (list (jstr * jsval)) :=
  if is_object store
  then fst <$> fold_left (keep_entry key room false) (enumerated store)
                 (fold_left (keep_entry key room true) (enumerated store) (Some ([], 0)))
  else Some [].

(** The inner None is the source's null: nothing to write. *)
Definition migrateTwoFactorStore (store : jsval) : option (option (list (jstr * jsval))) :=
  if negb (twoFactorStoreHasPlainKeys store) then Some None
  else Some <$> twoFactorKeptEntries store [] MAX_REMEMBERED_ACCOUNTS.

Definition rememberTwoFactorMethodIn (store email method : jsval) : option (option (list (jstr * jsval))) :=
  key ← twoFactorAccountKey email;
  if str_eqb key [] || negb (isTwoFactorMethod method) then Some None
  else
    next ← twoFactorKeptEntries store key (MAX_REMEMBERED_ACCOUNTS - 1);
    Some (Some (obj_set next key method)).

Definition forgetTwoFactorMethodIn (store email : jsval) : option (option (list (jstr * jsval))) :=
  key ← twoFactorAccountKey email;
  if str_eqb key [] || negb (is_object store) then Some None
  else Some <$> twoFactorKeptEntries store key MAX_REMEMBERED_ACCOUNTS.

(** ** Server addresses *)


Definition serverConfigPrefix (serverUrl : jsval) : jstr :=
  let url := trim (text_or_empty serverUrl) in
  if str_eqb url [] then [] else u "bw config server " ++ shellQuote (JStr url) ++ u " >/dev/null 2>&1 && ".

Definition loginServerUrlFor (region customUrl : jsval) : jstr :=
  let choice := to_lower (text_or_empty region) in
  if str_eqb choice (u "eu") then BITWARDEN_EU_SERVER
  else if str_eqb choice (u "custom") then trim (text_or_empty customUrl)
  else BITWARDEN_US_SERVER.

Definition is_letter (c : N) : bool := is_lower c || is_upper c.
Definition is_scheme_unit (c : N) : bool := is_alnum c || one_of (u "+.-") c.

(** A letter, scheme units and [://] at the start: the scheme and what follows. *)
Definition SERVER_SCHEME_RE (url : jstr) : option (jstr * jstr) :=
  match url with
  | c :: t =>
    if is_letter c then
      let '(body, r) := span is_scheme_unit t in
      if starts_with (u "://") r then Some (c :: body, drop 3 r) else None
    else None
  | [] => None
  end.

Definition loopback_octet : regex := RSeqs [RLit (u "."); RDigit; RUpTo 2 RDigit].

(** [/^(?:localhost|127(?:\.\d{1,3}){3}|\[::1\]|::1)$/i] *)
Definition LOOPBACK_HOST_RE : regex :=
  RSeqs [RStart; RAlts [RLitI (u "localhost"); RSeqs [RLitI (u "127"); RRep 3 loopback_octet]; RLitI (u "[::1]"); RLitI (u "::1")];
         REnd].

Definition authority_end (c : N) : bool := one_of (u "/?#") c.

(** The host: the authority without its userinfo and its port. *)
Definition server_host (rest : jstr) : jstr :=
  let host := fst (span (fun c => negb (authority_end c)) rest) in
  let host := match last_index_of 64 host with Some at_ => drop (S at_) host | None => host end in
  replace_first (RSeqs [RLit (u ":"); RStar RDigit; REnd]) [] host.

(** The reason a server address is refused; none when it is usable. *)
Definition validateServerUrl (raw : jsval) : jstr :=
  let url := trim (text_or_empty raw) in
  if str_eqb url [] then []
  else if existsb (N.eqb 92) url then u "Server URL must not contain backslashes"
  else match SERVER_SCHEME_RE url with
  | None => u "Server URL must start with https:// (or http:// for localhost)"
  | Some (scheme0, rest) =>
    let scheme := to_lower scheme0 in
    if negb (str_eqb scheme (u "http")) && negb (str_eqb scheme (u "https"))
    then u "Server URL must be http or https, not " ++ scheme ++ u ":"
    else
      let host := server_host rest in
      if str_eqb host [] then u "Server URL is missing a host name"
      else if str_eqb scheme (u "http") && negb (test LOOPBACK_HOST_RE host)
      then u "Refusing to send your master password over plain http to " ++ host
           ++ u ". Use https:// (http is allowed only for localhost)."
      else []
  end.

(** ** Links *)

Definition HTTP_URL_RE : regex := RSeqs [RStart; RLitI (u "http"); ROpt (RLitI (u "s")); RLit (u "://")].
Definition is_digit_unit (o : option N) : bool := match o with Some c => is_digit c | None => false end.
Definition URL_SCHEME_RE : regex :=
  RSeqs [RStart; RGroup (RSeq (RChar is_letter) (RStar (RChar is_scheme_unit))); RLit (u ":");
         RAhead (fun o => negb (is_digit_unit o))].

Inductive openable := Openable (url : jstr) | Refused (scheme : jstr) (ambiguous : bool).

Definition normalizeOpenableUrl (raw : jsval) : openable :=
  let target := trim (text_or_empty raw) in
  if str_eqb target [] then Refused [] false
  else if existsb (N.eqb 92) target then Refused [] true
  else if existsb (fun c => (c <=? 32)%N || (c =? 127)%N) target then Refused [] true
  else if test HTTP_URL_RE target then Openable target
  else match exec URL_SCHEME_RE target with
       | Some m => Refused (to_lower (default [] (m_group m))) false
       | None => Openable (u "https://" ++ target)
       end.

(** ** bw's answers to a login *)

Definition combinedOutput (stdoutText stderrText : jsval) : jstr :=
  to_lower (text_or_empty stderrText ++ newline ++ text_or_empty stdoutText).

Definition output_matches (r : regex) (stdoutText stderrText : jsval) : bool := test r (combinedOutput stdoutText stderrText).

Definition loginPromptRanOutOfInput : jsval -> jsval -> bool :=
  output_matches (RAlts [RLit (u "err_use_after_close"); RLit (u "readline was closed")]).

Definition line_break : regex := RChar (one_of [13; 10]%N).
Definition line_break_or_end (o : option N) : bool := match o with Some c => one_of [13; 10]%N c | None => true end.

Definition loginCodeIsRequiredChallenge : jsval -> jsval -> bool :=
  output_matches (RSeqs [RAlt RStart line_break; RSpaces; RLit (u "code"); RPlus RSpace; RLit (u "is"); RPlus RSpace;
                         RLit (u "required"); ROpt (RChar (one_of (u ".!"))); RSpaces; RAhead line_break_or_end]).

Definition loginNeedsSecondFactor (stdoutText stderrText : jsval) : bool :=
  output_matches (RAlts [RSeqs [RLit (u "two"); ROpt (RChar (one_of (u " _-"))); RAlts [RLit (u "step"); RLit (u "factor")]];
                         RLit (u "2fa");
                         RSeqs [RLit (u "verification"); ROpt (RChar (one_of (u " _-"))); RLit (u "code")]])
                 stdoutText stderrText
  || loginCodeIsRequiredChallenge stdoutText stderrText.

Definition loginNeedsDeviceVerification (stdoutText stderrText : jsval) (codeWasSent : bool) : bool :=
  if codeWasSent then loginCodeIsRequiredChallenge stdoutText stderrText else false.

Definition TWOFACTOR_CODE_FLAG : jstr := u "--qsbw-code-from-env".

Definition loginCodeChannelMissing (stdoutText stderrText : jsval) : bool :=
  includes (u "unknown option '" ++ TWOFACTOR_CODE_FLAG ++ u "'") (combinedOutput stdoutText stderrText).

Definition spaced (words : list string) : regex :=
  match words with
  | [] => REps
  | w :: ws => RSeqs (RLit (u w) :: concat (map (fun w => [RPlus RSpace; RLit (u w)]) ws))
  end.

Definition loginNeedsMethodChoice : jsval -> jsval -> bool :=
  output_matches (spaced ["no"; "provider"; "selected"]%string).
Definition loginHasNoUsableProvider : jsval -> jsval -> bool :=
  output_matches (spaced ["no"; "providers"; "available"; "for"; "this"; "client"]%string).

Definition csi_re : regex :=
  RSeqs [RLit [27; 91]%N; RStar (RChar (fun c => is_digit c || one_of (u ";?") c)); RChar is_letter].
Definition esc_re : regex := RSeq (RLit [27%N]) (RChar (fun c => in_range 64 90 c || in_range 92 95 c)).

Definition keeps_line (code line : jstr) : bool :=
  negb (str_eqb line []) && negb (bool_decide (head line = Some 63%N))
  && negb (negb (str_eqb code []) && includes code line).

(** bw's own message out of an interactive stderr: no escapes, no prompt lines,
    no line with the secret. *)
Definition sanitizeInteractiveStderr (raw secret : jsval) : jstr :=
  let text := map (fun c => if (c =? 13)%N then 10%N else c)
                  (replace_all esc_re [] (replace_all csi_re [] (text_or_empty raw))) in
  let code := trim (text_or_empty secret) in
  let kept := List.filter (keeps_line code) (map trim (split_char 10 text)) in
  take 300 (join (u " ") kept).

Definition loginDiagnostic (stdoutText stderrText exitCode branch : jsval) : jstr :=
  u "exit=" ++ to_str exitCode
  ++ u " stdout=" ++ dec_nat (length (text_or_empty stdoutText)) ++ u "b"
  ++ u " branch=" ++ text_or branch (u "?")
  ++ u " stderr=" ++ quote (take 200 (sanitizeInteractiveStderr stderrText (JStr []))).

(** ** Specifications *)

(** Equal but for case. *)
Definition same_text (a b : jstr) : Prop := map upper_unit a = map upper_unit b.

Definition octet (s : jstr) : Prop := 1 <= length s <= 3 /\ forallb is_digit s = true.

(** The hosts a password may reach over plain http. *)
Definition loopback (h : jstr) : Prop :=
  same_text h (u "localhost") \/ same_text h (u "[::1]") \/ same_text h (u "::1")
  \/ exists n a b c, same_text n (u "127") /\ octet a /\ octet b /\ octet c
     /\ h = n ++ u "." ++ a ++ u "." ++ b ++ u "." ++ c.

(** The parts of an address: the authority (userinfo, host and port) ends at the
    first [/], [?] or [#]; the host stands after its last [@]. *)
Record address (scheme host_ url : jstr) : Prop := {
  ad_scheme : to_lower scheme = u "http" \/ to_lower scheme = u "https";
  ad_host : host_ <> [];
  ad_parts : exists userinfo port tail,
    url = scheme ++ u "://" ++ userinfo ++ host_ ++ port ++ tail
    /\ (userinfo = [] \/ last userinfo = Some 64%N) /\ Forall (fun c => c ∉ u "/?#") userinfo
    /\ Forall (fun c => c <> 64%N /\ c ∉ u "/?#") (host_ ++ port)
    /\ (port = [] \/ exists ds, port = 58%N :: ds /\ forallb is_digit ds = true)
    /\ (tail = [] \/ exists c t, tail = c :: t /\ c ∈ u "/?#")
}.

(** ** Lemmas *)

Lemma span_stop p s c t : snd (span p s) = c :: t -> p c = false.
Proof.
  induction s as [|d s IH]; simpl; [done|]. destruct (p d) eqn:E; [|intros [= -> _]; done].
  by destruct (span p s).
Qed.

Lemma last_index_of_spec c s :
  match last_index_of c s with
  | Some i => last (take (S i) s) = Some c /\ c ∉ drop (S i) s
  | None => c ∉ s
  end.
Proof.
  induction s as [|x s IH]; simpl; [by intros ?%elem_of_nil|]. destruct (last_index_of c s) as [i|].
  - destruct IH as [H1 H2]. split; [|done]. simpl in H1. destruct s; [done|]. simpl in *. done.
  - destruct (N.eqb_spec x c) as [->|Hx]; [by split|]. by apply not_elem_of_cons.
Qed.

Lemma server_port_anchored p e : rmatch (RSeqs [RLit (u ":"); RStar RDigit; REnd]) p Some = Some e -> rest e = [].
Proof.
  cbn [RSeqs fold_right]. intros H. change (rmatch (RLit (u ":")) p
    (fun p1 => rmatch (RStar RDigit) p1 (fun p2 => rmatch (RSeq REnd REps) p2 Some)) = Some e) in H.
  apply rmatch_suffix in H as (q & _ & H). apply rmatch_suffix in H as (q' & _ & H). by eapply rmatch_end.
Qed.

Lemma spells_port t : spells (RSeqs [RLit (u ":"); RStar RDigit; REnd]) t ->
  exists ds, t = 58%N :: ds /\ forallb is_digit ds = true.
Proof.
  cbn [RSeqs fold_right]. intros (a & b & -> & ->%spells_lit & (ds & x & -> & Hd%spells_star_units & (y & z & -> & Hy & ->%spells_eps)%spells_seq)%spells_seq)%spells_seq.
  destruct Hy as (p & e & Hy & E). inversion Hy; subst. apply (app_inv_tail (rest e) [] y) in E as <-.
  exists ds. rewrite !app_nil_r. split; [by vm_compute|done].
Qed.

Lemma server_host_parts rest : exists userinfo port tail,
  rest = userinfo ++ server_host rest ++ port ++ tail
  /\ (userinfo = [] \/ last userinfo = Some 64%N) /\ Forall (fun c => c ∉ u "/?#") userinfo
  /\ Forall (fun c => c <> 64%N /\ c ∉ u "/?#") (server_host rest ++ port)
  /\ (port = [] \/ exists ds, port = 58%N :: ds /\ forallb is_digit ds = true)
  /\ (tail = [] \/ exists c t, tail = c :: t /\ c ∈ u "/?#").
Proof.
  assert (forall c, authority_end c = true <-> c ∈ u "/?#") as Hend.
  { intros c. unfold authority_end, one_of. rewrite existsb_exists. split; [intros (x & Hx & ->%N.eqb_eq); by apply list_elem_of_In|].
    intros Hc%list_elem_of_In. exists c. split; [done|apply N.eqb_refl]. }
  unfold server_host. set (p := fun c => negb (authority_end c)).
  destruct (span_spec p rest) as [Er Ha]. set (auth := fst (span p rest)) in *.
  set (hp := match last_index_of 64 auth with Some at_ => drop (S at_) auth | None => auth end).
  assert (exists ui, auth = ui ++ hp /\ (ui = [] \/ last ui = Some 64%N) /\ 64%N ∉ hp) as (ui & Eu & Hu & Hn).
  { unfold hp. pose proof (last_index_of_spec 64 auth) as L. destruct (last_index_of 64 auth) as [i|]; [|exists []; auto].
    destruct L. exists (take (S i) auth). rewrite take_drop. auto. }
  destruct (remove_end _ hp server_port_anchored) as (port & Ep & Hp).
  assert (forall c, c ∈ auth -> c ∉ u "/?#") as Hauth.
  { intros c Hc%list_elem_of_In Hc'%Hend. rewrite forallb_forall in Ha. specialize (Ha c Hc). unfold p in Ha. by rewrite Hc' in Ha. }
  exists ui, port, (snd (span p rest)). split_and!; [|done| | | |].
  - rewrite Er at 1. rewrite Eu, Ep at 1. by rewrite <- !app_assoc.
  - apply Forall_forall. intros c Hc. apply Hauth. rewrite Eu. apply elem_of_app. by left.
  - rewrite <- Ep. apply Forall_forall. intros c Hc. split; [by intros ->|]. apply Hauth. rewrite Eu. apply elem_of_app. by right.
  - destruct Hp as [->|Hp]; [by left|right; by apply spells_port].
  - destruct (snd (span p rest)) as [|c t] eqn:Et; [by left|]. right. exists c, t. split; [done|].
    apply span_stop in Et. apply negb_false_iff in Et. by apply Hend.
Qed.

Lemma spells_octet t : spells loopback_octet t -> exists o, t = u "." ++ o /\ octet o.
Proof.
  unfold loopback_octet. cbn [RSeqs fold_right].
  intros (a & b & -> & ->%spells_lit & (d & x & -> & (d0 & -> & Hd)%spells_char & (y & z & -> & Hy & ->%spells_eps)%spells_seq)%spells_seq)%spells_seq.
  eexists. split; [done|]. rewrite app_nil_r. unfold octet. simpl. rewrite Hd. simpl.
  cbn [RUpTo] in Hy. apply spells_alt in Hy as [Hy| ->%spells_eps]; [|split; [simpl; lia|done]].
  apply spells_seq in Hy as (e & f & -> & (e0 & -> & He)%spells_char & Hf).
  simpl. rewrite He. simpl. apply spells_alt in Hf as [Hf| ->%spells_eps]; [|split; [simpl; lia|done]].
  apply spells_seq in Hf as (g & h & -> & (g0 & -> & Hg)%spells_char & ->%spells_eps). simpl. rewrite Hg. split; [lia|done].
Qed.

Lemma loopback_sound h : test LOOPBACK_HOST_RE h = true -> loopback h.
Proof.
  intros H%test_whole. unfold RAlts in H. cbn [fold_left] in H. unfold loopback.
  apply spells_alt in H as [H|H]; [|right; right; left; by apply spells_litI].
  apply spells_alt in H as [H|H]; [|right; left; by apply spells_litI].
  apply spells_alt in H as [H|H]; [left; by apply spells_litI|]. right. right. right.
  cbn [RSeqs fold_right RRep] in H.
  apply spells_seq in H as (n & x & -> & Hn%spells_litI & (y & z & -> & Hy & ->%spells_eps)%spells_seq).
  apply spells_seq in Hy as (a' & y1 & -> & (a & -> & Ha)%spells_octet & Hy).
  apply spells_seq in Hy as (b' & y2 & -> & (b & -> & Hb)%spells_octet & Hy).
  apply spells_seq in Hy as (c' & y3 & -> & (c & -> & Hc)%spells_octet & ->%spells_eps).
  exists n, a, b, c. rewrite !app_nil_r, <- !app_assoc. done.
Qed.

Lemma SERVER_SCHEME_RE_spec url scheme rest : SERVER_SCHEME_RE url = Some (scheme, rest) -> url = scheme ++ u "://" ++ rest.
Proof.
  unfold SERVER_SCHEME_RE. destruct url as [|c t]; [done|]. destruct (is_letter c); [|done].
  destruct (span_spec is_scheme_unit t) as [E _]. destruct (span is_scheme_unit t) as [body r]. simpl in E.
  destruct (starts_with (u "://") r) eqn:Es; [|done]. intros [= <- <-]. apply starts_with_spec in Es as [x ->].
  rewrite E. done.
Qed.

Lemma own_get_app a b k : own_get (a ++ b) k = match own_get a k with Some v => Some v | None => own_get b k end.
Proof. induction a as [|[k' v'] a IH]; simpl; [done|]. by destruct (str_eqb k' k). Qed.

(** A text without the separator that occurs in a join occurs in a piece. *)
Lemma factor_around (x a b p q : jstr) c : x <> [] -> c ∉ x -> a ++ c :: b = p ++ x ++ q ->
  includes x a = true \/ exists p', b = p' ++ x ++ q.
Proof.
  intros Hx Hc [(k & -> & E)|(k & -> & E)]%app_eq_inv.
  - left. apply includes_spec. apply app_eq_inv in E as [(k' & -> & E)|(k' & -> & _)]; [|by exists p, k'].
    destruct k' as [|d k']; [exists p, []; by rewrite !app_nil_r|]. injection E as <- _.
    exfalso. apply Hc, elem_of_app. right. by left.
  - right. destruct k as [|d k]; [|injection E as _ ->; by exists k].
    destruct x as [|d x]; [done|]. injection E as -> _. exfalso. apply Hc. by left.
Qed.

Lemma join_factor_in c l x p q : x <> [] -> c ∉ x -> join [c] l = p ++ x ++ q -> exists y, y ∈ l /\ includes x y = true.
Proof.
  intros Hx Hc. revert p; induction l as [|y l IH]; intros p; simpl.
  - intros E. destruct p, x; try done.
  - destruct l as [|z l]; [intros ->; exists (p ++ x ++ q); split; [by left|apply includes_app]|].
    intros [H|(p' & E)]%factor_around; [exists y; split; [by left|done]| |done|done].
    destruct (IH p' E) as (w & ? & ?). exists w. split; [by right|done].
Qed.

(** *** The remembered methods *)

Lemma sha256Hex_shape v h : sha256Hex v = Some h -> isTwoFactorHashKey h = true.
Proof.
  unfold sha256Hex. destruct (utf8_encode (to_str v)) as [l|]; [|done]. intros [= <-].
  destruct (hex8_concat (sha256_words (padMessage (map Z.of_N l)))) as [L H].
  unfold isTwoFactorHashKey, all_in. rewrite H, andb_true_r, L. apply Nat.eqb_eq.
  unfold sha256_words. by destruct (fold_left _ _ _) as [[[[[[[? ?] ?] ?] ?] ?] ?] ?].
Qed.

Lemma accountKey_shape email key : twoFactorAccountKey email = Some key -> key <> [] -> isTwoFactorHashKey key = true.
Proof. unfold twoFactorAccountKey. destruct (str_eqb _ _); [by intros [= <-]|]. intros H _. by eapply sha256Hex_shape. Qed.

Lemma storedKey_shape k other : twoFactorStoredKey k = Some other -> other <> [] -> isTwoFactorHashKey other = true.
Proof.
  unfold twoFactorStoredKey. destruct (isTwoFactorHashKey k) eqn:E; [by intros [= <-]|]. by apply accountKey_shape.
Qed.

Lemma isTwoFactorMethod_spec m : isTwoFactorMethod m = true -> exists n z, m = JNum n /\ num_eqb n (numz z) = true /\ (z = 0 \/ z = 1 \/ z = 3)%Z.
Proof.
  unfold isTwoFactorMethod. intros (e & He & H)%existsb_exists. unfold has_method in H.
  assert (exists z, e.["method"] = jz z /\ (z = 0 \/ z = 1 \/ z = 3)%Z) as (z & Ez & Hz).
  { destruct He as [<-|[<-|[<-|[]]]]; eexists; (split; [by vm_compute|auto]). }
  rewrite Ez in H. destruct m; try done. exists n, z. split_and!; [done| |done].
  unfold strict_eq, jz in H. unfold num_eqb in *. destruct n; try done. simpl in *. by apply QArith_base.Qeq_bool_sym.
Qed.

Lemma floor_of_eqb n z : num_eqb n (numz z) = true -> num_floor n = numz z.
Proof.
  destruct n as [| |q]; try done. intros H%QArith_base.Qeq_bool_eq. unfold num_floor, numz. do 2 f_equal.
  rewrite <- (Qround.Qfloor_Z z). by apply Qround.Qfloor_comp.
Qed.

Lemma methodOf_valid m n : m = JNum n -> isTwoFactorMethod m = true ->
  exists z, twoFactorMethodOf m = numz z /\ (z = 0 \/ z = 1 \/ z = 3)%Z /\ strict_eq m (jz z) = true.
Proof.
  intros -> (n' & z & [= <-] & Hn & Hz)%isTwoFactorMethod_spec. exists z. unfold twoFactorMethodOf.
  rewrite (floor_of_eqb _ _ Hn). split_and!; [|done|done]. destruct Hz as [-> | [-> | -> ] ]; by vm_compute.
Qed.

Lemma hash_key_not_index k : isTwoFactorHashKey k = true -> index_key k = None.
Proof.
  unfold isTwoFactorHashKey. intros [L _]%andb_true_iff. apply Nat.eqb_eq in L. unfold index_key.
  destruct k as [|c t]; [done|]. destruct (all_in is_digit (c :: t)) eqn:E; [|done]. simpl.
  destruct (str_eqb _ _) eqn:E1; [|done]. simpl.
  destruct (N.ltb_spec (value_of_digits (c :: t)) 4294967295) as [H|H]; [|done]. exfalso.
  apply str_eqb_eq in E1. assert (length (dec (value_of_digits (c :: t))) <= 54) by (apply length_dec; lia).
  rewrite E1 in *. lia.
Qed.

(** A kept entry: a hashed key, a valid method, taken from an entry of the store
    for the same account. *)
Definition kept_from (store : jsval) (kv : jstr * jsval) : Prop :=
  isTwoFactorHashKey (fst kv) = true
  /\ exists k v, (k, v) ∈ enumerated store /\ twoFactorStoredKey k = Some (fst kv)
     /\ snd kv = JNum (twoFactorMethodOf v) /\ num_ltb (twoFactorMethodOf v) (numz 0) = false.

Definition kept_ok (store : jsval) (key : jstr) (room : nat) (st : kept_entries) : Prop :=
  Forall (kept_from store) (fst st) /\ Forall (fun kv => fst kv <> key) (fst st)
  /\ NoDup (map fst (fst st)) /\ length (fst st) = snd st /\ snd st <= room.

Lemma keep_entry_ok store key room pass st kv st' :
  kv ∈ enumerated store -> kept_ok store key room st -> keep_entry key room pass (Some st) kv = Some st' -> kept_ok store key room st'.
Proof.
  destruct st as [next kept], kv as [k v]. intros Hkv H. unfold keep_entry. cbn [fst snd mbind option_bind].
  destruct (negb _); [by intros [= <-]|]. destruct (twoFactorStoredKey k) as [other|] eqn:Eo; [|done]. cbn [mbind option_bind].
  destruct (str_eqb other []) eqn:E1; [by intros [= <-]|]. destruct (str_eqb other key) eqn:E2; [by intros [= <-]|].
  destruct (is_undef (obj_get next other)) eqn:E3; [|by intros [= <-]]. cbn [negb orb].
  destruct (num_ltb _ _) eqn:E4; [by intros [= <-]|]. destruct (Nat.leb_spec room kept); [by intros [= <-]|].
  intros [= <-]. destruct H as (H1 & H2 & H3 & H4 & H5). cbn [fst snd] in *. apply str_eqb_neq in E1, E2.
  pose proof (storedKey_shape _ _ Eo E1) as Hh. pose proof (hash_key_not_index _ Hh) as Hi.
  assert (own_get next other = None) as Hnone.
  { unfold obj_get in E3. destruct (own_get next other) as [e|] eqn:E; [|done]. simpl in E3.
    exfalso. assert ((other, e) ∈ next) as Hin.
    { clear -E. induction next as [|[k' e'] t IH]; simpl in *; [done|]. destruct (str_eqb k' other) eqn:Ek; [|right; auto].
      apply str_eqb_eq in Ek as ->. injection E as ->. by left. }
    rewrite Forall_forall in H1. apply H1 in Hin as (_ & ? & ? & _ & _ & Hv & _). simpl in Hv. by rewrite Hv in E3. }
  unfold kept_ok. cbn [fst snd]. rewrite obj_set_fresh by done. rewrite map_app, length_app. simpl. split_and!.
  - apply Forall_app. split; [done|]. constructor; [|constructor]. split; [done|]. by exists k, v.
  - apply Forall_app. split; [done|]. by repeat constructor.
  - apply NoDup_app. split_and!; [done| |apply NoDup_singleton].
    apply own_get_none in Hnone. by intros x Hx ->%list_elem_of_singleton.
  - lia.
  - lia.
Qed.

Lemma keep_fold_ok store key room pass l : (forall kv, kv ∈ l -> kv ∈ enumerated store) ->
  forall st, (forall x, st = Some x -> kept_ok store key room x) ->
  forall x, fold_left (keep_entry key room pass) l st = Some x -> kept_ok store key room x.
Proof.
  induction l as [|kv l IH]; intros Hl st Hst; [done|]. cbn [fold_left]. apply IH; [intros y Hy; apply Hl; by right|].
  intros y Hy. destruct st as [st|]; [|done]. eapply keep_entry_ok; [apply Hl; by left|by apply Hst|exact Hy].
Qed.

Lemma keptEntries_ok store key room next : twoFactorKeptEntries store key room = Some next ->
  Forall (kept_from store) next /\ Forall (fun kv => fst kv <> key) next /\ NoDup (map fst next) /\ length next <= room.
Proof.
  unfold twoFactorKeptEntries. destruct (is_object store).
  - destruct (fold_left _ _ _) as [x|] eqn:E; [|done]. intros [= <-].
    assert (kept_ok store key room x) as (H1 & H2 & H3 & H4 & H5).
    { eapply keep_fold_ok in E; [exact E|done|]. intros y Hy. eapply keep_fold_ok in Hy; [exact Hy|done|].
      intros z [= <-]. repeat split; try constructor; simpl; lia. }
    split_and!; [done|done|done|lia].
  - intros [= <-]. repeat split; try constructor. simpl. lia.
Qed.

(** ** Properties *)

(** C32. A server address that is accepted is safe to send the master password
    to: it has no backslash, its scheme is http or https, its authority is what
    stands before the first [/], [?] or [#], its host what stands between the
    last [@] of the authority and the port, and over plain http that host is a
    loopback one. *)
Theorem validateServerUrl_safe raw : validateServerUrl raw = [] ->
  let url := trim (text_or_empty raw) in
  url = [] \/ (92%N ∉ url /\ exists scheme host_, address scheme host_ url
                 /\ (to_lower scheme = u "http" -> loopback host_)).
Proof.
  unfold validateServerUrl. set (url := trim _). cbv zeta. destruct (str_eqb url []) eqn:E0; [apply str_eqb_eq in E0; by left|].
  destruct (existsb (N.eqb 92) url) eqn:Eb; [intros H; by vm_compute in H|].
  destruct (SERVER_SCHEME_RE url) as [[scheme rest]|] eqn:Es; [|intros H; by vm_compute in H]. apply SERVER_SCHEME_RE_spec in Es.
  destruct (negb _ && negb _) eqn:E1; [intros [H _]%app_eq_nil; by vm_compute in H|].
  destruct (str_eqb (server_host rest) []) eqn:E2; [intros H; by vm_compute in H|].
  destruct (str_eqb _ _ && negb _) eqn:E3; [intros [H _]%app_eq_nil; by vm_compute in H|].
  intros _. right. split.
  - intros H. pose proof (proj1 (existsb_false _ _) Eb 92%N H) as K. done.
  - exists scheme, (server_host rest). split.
    + split; [|by apply str_eqb_neq in E2|].
      * apply andb_false_iff in E1 as [E1|E1]; apply negb_false_iff, str_eqb_eq in E1; auto.
      * destruct (server_host_parts rest) as (ui & port & tail & Er & H). exists ui, port, tail. by rewrite <- Er.
    + intros Hh. rewrite Hh, str_eqb_refl in E3. apply negb_false_iff in E3. by apply loopback_sound.
Qed.

Lemma validateServerUrl_safe_witness :
  let url := u "http://me@127.0.0.1:8080/x" in
  url = [] \/ (92%N ∉ url /\ exists scheme host_, address scheme host_ url /\ (to_lower scheme = u "http" -> loopback host_)).
Proof. apply (validateServerUrl_safe (JStr (u " http://me@127.0.0.1:8080/x "))). vm_compute. reflexivity. Defined.

(** Remembering a two-step method: the account then resolves to that
    method, at most ten accounts are kept, every key written is a hash and no
    address, and every other entry is a valid method taken from an entry the
    store had for the same account. *)
Theorem rememberTwoFactor_spec store email method next :
  rememberTwoFactorMethodIn store email method = Some (Some next) ->
  (exists z, rememberedTwoFactorMethodFor (JObj next) email = Some (numz z) /\ strict_eq method (jz z) = true)
  /\ length next <= MAX_REMEMBERED_ACCOUNTS
  /\ Forall (fun kv => isTwoFactorHashKey (fst kv) = true) next
  /\ (forall kv, kv ∈ next -> twoFactorAccountKey email <> Some (fst kv) -> kept_from store kv).
Proof.
  unfold rememberTwoFactorMethodIn. destruct (twoFactorAccountKey email) as [key|] eqn:Ek; [|done]. cbn [mbind option_bind].
  destruct (str_eqb key []) eqn:E1; [done|]. destruct (isTwoFactorMethod method) eqn:E2; [|done]. cbn [negb orb].
  destruct (twoFactorKeptEntries store key _) as [kept|] eqn:E3; [|done]. cbn [mbind option_bind]. intros [= <-].
  apply str_eqb_neq in E1. pose proof (accountKey_shape _ _ Ek E1) as Hh.
  apply keptEntries_ok in E3 as (Hf & Hk & _ & Hl). rewrite obj_set_fresh; [|by apply hash_key_not_index|].
  2: { apply own_get_none. intros (kv & -> & Hkv)%list_elem_of_fmap. rewrite Forall_forall in Hk. by apply (Hk kv). }
  destruct (isTwoFactorMethod_spec _ E2) as (n & _ & En & _). destruct (methodOf_valid _ _ En E2) as (z & Ez & Hz & Hm).
  split_and!.
  - exists z. split; [|done]. unfold rememberedTwoFactorMethodFor. rewrite Ek. cbn [mbind option_bind].
    replace (str_eqb key []) with false by (by symmetry; apply str_eqb_neq). cbn [orb].
    replace (negb (is_object (JObj (kept ++ [(key, method)])))) with false by done.
    assert (jget (JObj (kept ++ [(key, method)])) key = method) as ->.
    { unfold jget, obj_get. rewrite own_get_app. replace (own_get kept key) with (@None jsval); [simpl; by rewrite str_eqb_refl|].
      symmetry. apply own_get_none. intros (kv & -> & Hkv)%list_elem_of_fmap. rewrite Forall_forall in Hk. by apply (Hk kv). }
    rewrite Ez, num_leb_int. by destruct (Z.leb_spec 0 z); [|lia].
  - rewrite length_app. unfold MAX_REMEMBERED_ACCOUNTS in *. simpl. lia.
  - apply Forall_app. split; [|by repeat constructor]. eapply Forall_impl; [exact Hf|]. by intros kv [? _].
  - intros kv [Hkv|Hkv]%elem_of_app Hne; [rewrite Forall_forall in Hf; auto|].
    apply list_elem_of_singleton in Hkv as ->. done.
Qed.

Definition example_methods : jsval :=
  obj [("old@example.com", jz 3); ("x", JStr (u "no"))]%string.

Lemma rememberTwoFactor_spec_witness :
  exists next, rememberTwoFactorMethodIn example_methods (JStr (u " Me@Example.com")) (jz 1) = Some (Some next)
    /\ length next <= MAX_REMEMBERED_ACCOUNTS.
Proof.
  destruct (rememberTwoFactorMethodIn example_methods (JStr (u " Me@Example.com")) (jz 1)) as [[next|]|] eqn:E;
    [|vm_compute in E; discriminate E|vm_compute in E; discriminate E].
  exists next. split; [reflexivity|]. apply (rememberTwoFactor_spec _ _ _ _ E).
Defined.

(** The code typed into an interactive login does not reach the message the
    panel shows: what is kept of bw's stderr never contains it (a code is one
    word; it may hold any other character). *)
Theorem sanitized_without_secret raw secret :
  let code := trim (text_or_empty secret) in
  code <> [] -> 32%N ∉ code -> includes code (sanitizeInteractiveStderr raw secret) = false
  /\ length (sanitizeInteractiveStderr raw secret) <= 300.
Proof.
  intros code Hne Hsp. unfold sanitizeInteractiveStderr. fold code. split; [|apply firstn_le_length].
  set (kept := List.filter _ _). apply not_true_iff_false. intros (a & b & E)%includes_spec.
  assert (exists a b, join [32%N] kept = a ++ code ++ b) as (a' & b' & E').
  { exists a, (b ++ drop 300 (join (u " ") kept)).
    rewrite (app_assoc code), (app_assoc a), <- E. replace (u " ") with [32%N] by (by vm_compute). by rewrite take_drop. }
  apply join_factor_in in E' as (line & Hl & Hin); [|done|done].
  apply elem_of_bfilter in Hl as [_ Hl]. unfold keeps_line in Hl. rewrite Hin in Hl.
  apply andb_true_iff in Hl as [_ Hl]. destruct (str_eqb code []) eqn:Ec; [by apply str_eqb_eq in Ec|done].
Qed.

Lemma sanitized_without_secret_witness :
  includes (u "123456") (sanitizeInteractiveStderr (JStr (u "? Code: 123456" ++ newline ++ u "Got 123456" ++ newline ++ u "Invalid code"))
                           (JStr (u "123456 "))) = false.
Proof.
  apply (sanitized_without_secret (JStr (u "? Code: 123456" ++ newline ++ u "Got 123456" ++ newline ++ u "Invalid code"))
           (JStr (u "123456 "))).
  - vm_compute. discriminate.
  - apply (bool_decide_unpack _). vm_compute. reflexivity.
Defined.

(** Only web links are opened: what the panel hands to the desktop starts
    with http or https, whatever the item said, and is one word without
    controls, spaces or backslashes. *)
Theorem openable_is_web raw url : normalizeOpenableUrl raw = Openable url ->
  (exists scheme rest, url = scheme ++ u "://" ++ rest /\ (same_text scheme (u "http") \/ same_text scheme (u "https")))
  /\ Forall (fun c => (32 < c)%N /\ c <> 127%N /\ c <> 92%N) url.
Proof.
  unfold normalizeOpenableUrl. set (target := trim _). destruct (str_eqb target []); [done|].
  destruct (existsb (N.eqb 92) target) eqn:E1; [done|].
  destruct (existsb (fun c => (c <=? 32)%N || (c =? 127)%N) target) eqn:E2; [done|].
  assert (Forall (fun c => (32 < c)%N /\ c <> 127%N /\ c <> 92%N) target) as Hf.
  { apply Forall_forall. intros c Hc. pose proof (proj1 (existsb_false _ _) E1 c Hc) as H1.
    pose proof (proj1 (existsb_false _ _) E2 c Hc) as H2. apply orb_false_iff in H2 as [H2 H3].
    apply N.leb_gt in H2. apply N.eqb_neq in H1, H3. done. }
  destruct (test HTTP_URL_RE target) eqn:E3.
  - intros [= <-]. split; [|done]. apply test_prefix in E3 as (x & b & Et & H).
    apply spells_seq in H as (h & y & -> & Hh%spells_litI & H). apply spells_seq in H as (s & z & -> & Hs & H).
    apply spells_seq in H as (w & v & -> & ->%spells_lit & ->%spells_eps). exists (h ++ s), b.
    split; [rewrite Et, app_nil_r; by rewrite <- !app_assoc|]. apply spells_alt in Hs as [Hs%spells_litI| ->%spells_eps].
    + right. unfold same_text. rewrite map_app, Hh, Hs. by vm_compute.
    + left. by rewrite app_nil_r.
  - destruct (exec _ _); [done|]. intros [= <-]. split; [exists (u "https"), target; split; [done|by right]|].
    apply Forall_app. split; [|done]. apply Forall_forall. intros c Hc.
    assert (forallb (fun c => (32 <? c)%N && negb (c =? 127)%N && negb (c =? 92)%N) (u "https://") = true) as G by (by vm_compute).
    rewrite forallb_forall in G. apply list_elem_of_In, G in Hc. bool_hyps. by apply N.eqb_neq in H0, H1.
Qed.

Lemma openable_is_web_witness :
  normalizeOpenableUrl (JStr (u "host:8080/x")) = Openable (u "https://host:8080/x")
  /\ Forall (fun c => (32 < c)%N /\ c <> 127%N /\ c <> 92%N) (u "https://host:8080/x").
Proof.
  split; [vm_compute; reflexivity|]. apply (openable_is_web (JStr (u "host:8080/x"))). vm_compute. reflexivity.
Defined.
