(* ===== verification/Dependencies.v ===== *)
(** * Dependencies

    What the panel needs on the machine ([src/BitwardenModel.js],
    "Dependencies"): reading the probe's [key=value] lines, release versions,
    whether the CLI can serve SSH keys, and what the setup screen offers to
    install, and the texts of the probe scripts. *)

From stdpp Require Import base list numbers strings.
From S2P Require Import Prelude.
From S2P Require Import JsValue.
From S2P Require Import Shell.
Local Open Scope nat_scope.
Local Open Scope js_scope.

Definition SSH_CLI_MIN_VERSION : jstr := u "2025.1.2".
Definition SSH_MALFORMED_ITEM_FIX_VERSION : jstr := u "2026.8.0".

Definition DEPENDENCIES : list jsval :=
  [obj [("key", JStr (u "bw")); ("label", JStr (u "Bitwarden CLI")); ("binary", JStr (u "bw"));
        ("pkg", JStr (u "bitwarden-cli")); ("aur", JBool false); ("required", JBool true);
        ("provider", JStr (u "nodejs"));
        ("purpose", JStr (u "Reads and writes your vault. The panel installs it for you on first run."))];
   obj [("key", JStr (u "jq")); ("label", JStr (u "jq")); ("binary", JStr (u "jq")); ("pkg", JStr (u "jq"));
        ("aur", JBool false); ("required", JBool true);
        ("purpose", JStr (u "Safely strips SSH private keys before the panel reads your vault."))];
   obj [("key", JStr (u "wtype")); ("label", JStr (u "wtype")); ("binary", JStr (u "wtype")); ("pkg", JStr (u "wtype"));
        ("aur", JBool false); ("required", JBool false); ("feature", JStr (u "autoType"));
        ("purpose", JStr (u "Types the armed login into the focused window for auto-type."))];
   obj [("key", JStr (u "fprintd")); ("label", JStr (u "Fingerprint unlock")); ("binary", JStr (u "fprintd-list"));
        ("pkg", JStr (u "fprintd")); ("aur", JBool false); ("required", JBool false); ("setup", JBool true);
        ("purpose", JStr (u "Unlock the vault with your finger. Omarchy installs the reader stack and enrols you in one step."))]]%string.

(** ** Versions *)

Definition version : Type := N * N * N.

(** [v?] at the start of the text. *)
Definition strip_v (s : jstr) : jstr := match s with 118%N :: t => t | _ => s end.

(** [^v?(\d{4})\.(\d{1,2})\.(\d{1,6})$]: the three numbers. *)
Definition read_version (s : jstr) : option version :=
  match split_char 46 (strip_v s) with
  | [a; b; c] =>
    if (length a =? 4) && (1 <=? length b) && (length b <=? 2) && (1 <=? length c) && (length c <=? 6)
       && all_in is_digit (a ++ b ++ c)
    then Some (value_of_digits a, value_of_digits b, value_of_digits c) else None
  | _ => None
  end.

Definition version_text (v : version) : jstr :=
  let '(a, b, c) := v in dec a ++ u "." ++ dec b ++ u "." ++ dec c.

Definition normalizeReleaseVersion (raw : jsval) : jstr :=
  match read_version (trim (text_or_empty raw)) with Some v => version_text v | None => [] end.

(** The loop over the three parts. *)
Fixpoint compare_parts (l r : list jstr) (n : nat) : Z :=
  match n with
  | O => 0
  | S n' =>
    let lv := to_num (JStr (default [] (head l))) in
    let rv := to_num (JStr (default [] (head r))) in
    if num_ltb lv rv then (-1) else if num_ltb rv lv then 1 else compare_parts (tail l) (tail r) n'
  end.

(** None is the source's null. *)
Definition compareReleaseVersions (a b : jsval) : option Z :=
  let left := normalizeReleaseVersion a in
  let right := normalizeReleaseVersion b in
  if str_eqb left [] || str_eqb right [] then None
  else Some (compare_parts (split_char 46 left) (split_char 46 right) 3).

(** [compare(..) < 0]; null compares as 0. *)
Definition older_than (a b : jsval) : bool := (default 0%Z (compareReleaseVersions a b) <? 0)%Z.

Definition sshCliSupport (version : jsval) : jstr :=
  let normalized := normalizeReleaseVersion version in
  if str_eqb normalized [] then u "unknown"
  else if older_than (JStr normalized) (JStr SSH_CLI_MIN_VERSION) then u "unsupported" else u "supported".

(** ** The probe *)

Definition add_field (found : list (jstr * jsval)) (line : jstr) : list (jstr * jsval) :=
  let line := trim line in
  match index_of (u "=") line with
  | Some (S n) => obj_set found (take (S n) line) (JStr (drop (S (S n)) line))
  | _ => found
  end.

Definition probeFields (raw : jsval) : list (jstr * jsval) :=
  fold_left add_field (split_char 10 (text_or_empty raw)) [].

(** [^[0-9]{1,20}(:[0-9]{1,20}){3}$] *)
Definition is_bw_id (id : jstr) : bool :=
  match split_char 58 id with
  | [_; _; _; _] as parts => forallb (fun p => (1 <=? length p) && (length p <=? 20) && all_in is_digit p) parts
  | _ => false
  end.

Definition field (found : list (jstr * jsval)) (k : string) : jsval := obj_get found (u k).

Definition dependencyBwId (raw : jsval) : jstr :=
  let id := trim (text_or_empty (field (probeFields raw) "bw_id")) in
  if is_bw_id id then id else [].

Definition parseBwVersionProbe (raw : jsval) : jstr := normalizeReleaseVersion (field (probeFields raw) "bw_version").

Definition isPlainPackageName (name : jsval) : bool :=
  match name with
  | JStr (c :: t) => is_alnum c && all_in (fun c => is_alnum c || existsb (N.eqb c) (u "._+-")) t
  | _ => false
  end.

Definition provider_field (found : list (jstr * jsval)) (dep : jsval) (suffix : string) : jstr :=
  trim (text_or_empty (obj_get found (to_str dep.["key"] ++ u suffix))).

(** ** The probes *)

(** Only while the tool is missing: the installed provider, and the one the package depends on. *)
Definition providerProbe (dep : jsval) : jstr :=
  let key := to_str dep.["key"] in
  let have := key ++ u "_provider_have" in
  let need := key ++ u "_provider_need" in
  u "if ! command -v " ++ to_str dep.["binary"] ++ u " >/dev/null 2>&1 && command -v pacman >/dev/null 2>&1; then "
    ++ u "printf '" ++ have ++ uq "=%s\n' `$(pacman -Qq " ++ to_str dep.["provider"] ++ uq " 2>/dev/null | head -n 1)`; "
    ++ u "printf '" ++ need ++ uq "=%s\n' `$(LC_ALL=C pacman -Si " ++ to_str dep.["pkg"] ++ u " 2>/dev/null "
    ++ u "| sed -n 's/^Depends On *: //p' | head -n 1 | tr -s ' ' '\n' | sed 's/[<>=].*//' "
    ++ u "| grep -m 1 -x '" ++ to_str dep.["provider"] ++ uq "\(-[a-z0-9-]*\)\?')`; "
    ++ u "else echo " ++ shellQuote (JStr (have ++ u "=")) ++ u "; echo " ++ shellQuote (JStr (need ++ u "=")) ++ u "; fi".

Definition tool_probe (d : jsval) : jstr :=
  u "if command -v " ++ to_str d.["binary"] ++ u " >/dev/null 2>&1; then echo "
    ++ shellQuote (JStr (to_str d.["key"] ++ u "=1")) ++ u "; else echo " ++ shellQuote (JStr (to_str d.["key"] ++ u "=0")) ++ u "; fi".

Definition dependencyCheckCommand : list jstr :=
  let parts :=
    map tool_probe DEPENDENCIES
    ++ [u "if __qsbw_bw=$(command -v bw 2>/dev/null); then "
          ++ uq "printf 'bw_id=%s\n' `$(stat -L -c '%d:%i:%s:%Y' -- `$__qsbw_bw` 2>/dev/null | head -c 128)`; "
          ++ u "else echo bw_id=; fi";
        u "if [ -f /etc/pam.d/omarchy-lock-fingerprint ] && command -v fprintd-list >/dev/null 2>&1 "
          ++ uq "&& fprintd-list `$USER` 2>/dev/null | grep -qi finger; then echo fingerprint_ready=1; else echo fingerprint_ready=0; fi";
        u "if command -v omarchy-hw-fingerprint >/dev/null 2>&1 && omarchy-hw-fingerprint >/dev/null 2>&1; "
          ++ u "then echo fingerprint_hw=1; else echo fingerprint_hw=0; fi";
        u "if command -v omarchy >/dev/null 2>&1; then echo omarchy=1; else echo omarchy=0; fi"]
    ++ map providerProbe (List.filter (fun d => truthy d.["provider"]) DEPENDENCIES) in
  [u "bash"; u "-c"; cappedScript (u "{ " ++ join (u "; ") parts ++ u "; } | head -c 4096") None].

Definition bwVersionCommand : list jstr :=
  [u "bash"; u "-c"; cappedScript (u "{ "
    ++ u "__qsbw_bw_version=$(bw -v 2>/dev/null | head -c 64); "
    ++ uq "if [[ `$__qsbw_bw_version` =~ ^v?[0-9]{4}\.[0-9]{1,2}\.[0-9]{1,6}$ ]]; then "
    ++ uq "printf 'bw_version=%s\n' `$__qsbw_bw_version`; else echo bw_version=; fi"
    ++ u "; } | head -c 4096") None].

Definition providerSwap (found : list (jstr * jsval)) (dep : jsval) : jsval :=
  if negb (truthy dep.["provider"]) then JNull
  else
    let have := provider_field found dep "_provider_have" in
    let need := provider_field found dep "_provider_need" in
    if negb (isPlainPackageName (JStr have)) || negb (isPlainPackageName (JStr need)) then JNull
    else if strict_eq (JStr need) dep.["provider"] || str_eqb have need then JNull
    else obj [("installed", JStr have); ("required", JStr need)].

Definition is_one (v : jsval) : bool := strict_eq v (JStr (u "1")).

Definition dependency_note (dep swap : jsval) (installed : bool) (sshCliStatus bwVersion : jstr) : jstr :=
  if strict_eq dep.["key"] (JStr (u "bw")) && installed
     && (str_eqb sshCliStatus (u "unsupported") || str_eqb sshCliStatus (u "unknown")) then
    if str_eqb sshCliStatus (u "unsupported")
    then u "SSH keys need Bitwarden CLI " ++ SSH_CLI_MIN_VERSION ++ u " or newer"
         ++ (if str_eqb bwVersion [] then u "." else u "; found " ++ bwVersion ++ u ".")
    else u "Could not read the Bitwarden CLI version. SSH support stays unconfirmed until that is fixed."
  else if truthy swap then
    to_str dep.["label"] ++ u " needs " ++ to_str swap.["required"] ++ u ", which replaces your "
    ++ to_str swap.["installed"]
    ++ u " package. The installer opens a terminal where pacman asks before removing it. To keep "
    ++ to_str swap.["installed"] ++ u ", install bw with npm or mise instead and put it on your PATH."
  else [].

Definition dependency_row (found : list (jstr * jsval)) (sshCliStatus bwVersion : jstr) (features dep : jsval) : jsval :=
  let named k := strict_eq dep.["key"] (JStr (u k)) in
  let installed := is_one (obj_get found (to_str dep.["key"])) in
  let ready := if named "fprintd"%string then is_one (field found "fingerprint_ready") else installed in
  let swap := if installed then JNull else providerSwap found dep in
  let applicable :=
    if named "fprintd"%string then is_one (field found "fingerprint_hw")
    else if truthy dep.["feature"] then truthy (jand features (jget features (to_str dep.["feature"]))) else true in
  obj [("key", dep.["key"]); ("label", dep.["label"]); ("binary", dep.["binary"]); ("pkg", dep.["pkg"]);
       ("required", dep.["required"]); ("purpose", dep.["purpose"]); ("setup", JBool (truthy dep.["setup"]));
       ("applicable", JBool applicable); ("installed", JBool installed); ("ready", JBool ready);
       ("version", JStr (if named "bw"%string then bwVersion else []));
       ("swap", swap); ("note", JStr (dependency_note dep swap installed sshCliStatus bwVersion))].

Definition parseDependencies (raw probedVersion features : jsval) : jsval :=
  let found := probeFields raw in
  let inline := negb (is_undef (field found "bw_version")) in
  let pending := negb inline && is_nullish probedVersion in
  let bwVersionRaw := trim (to_str (if inline then field found "bw_version" else jor probedVersion (JStr []))) in
  let bwVersion := normalizeReleaseVersion (JStr bwVersionRaw) in
  let sshCliStatus :=
    if is_one (field found "bw") then (if pending then u "checking" else sshCliSupport (JStr bwVersion))
    else u "missing" in
  obj [("items", JArr (map (dependency_row found sshCliStatus bwVersion features) DEPENDENCIES));
       ("hasOmarchy", JBool (is_one (field found "omarchy")));
       ("hasFingerprintReader", JBool (is_one (field found "fingerprint_hw")));
       ("bwVersion", JStr bwVersion); ("bwId", JStr (dependencyBwId raw));
       ("sshCliMinVersion", JStr SSH_CLI_MIN_VERSION); ("sshCliStatus", JStr sshCliStatus)].

(** ** Reading the result *)

Definition dep_items (deps : jsval) : list jsval :=
  if truthy deps then match deps.["items"] with JArr l => l | _ => [] end else [].

Definition applicableDependencies (deps : jsval) : list jsval :=
  List.filter (fun d => truthy d.["applicable"]) (dep_items deps).

Definition missingRequired (deps : jsval) : list jsval :=
  List.filter (fun d => truthy d.["required"] && negb (truthy d.["installed"])) (dep_items deps).

Definition dependencyByKey (deps key : jsval) : jsval :=
  default JNull (find_first (fun d => strict_eq d.["key"] key) (dep_items deps)).

Definition dependencyInstalled (deps key : jsval) : bool :=
  let dep := dependencyByKey deps key in truthy dep && truthy dep.["installed"].

Definition bw_key : jsval := JStr (u "bw").
Definition jq_key : jsval := JStr (u "jq").

Definition vaultListMode (deps : jsval) : jstr :=
  if dependencyInstalled deps bw_key && dependencyInstalled deps jq_key then u "sanitized" else u "blocked".

Definition vaultListBlockedMessage (deps : jsval) : jstr :=
  if negb (dependencyInstalled deps bw_key) then u "Bitwarden CLI is not installed yet."
  else if negb (dependencyInstalled deps jq_key)
       then u "jq is required to safely read vault items. Finish setup to continue."
       else u "Could not determine how to safely read vault items.".

Definition SANITIZED_LIST_ERROR : jstr := u "Could not safely read vault items.".
Definition SANITIZED_LIST_SSH_FIX_HINT : jstr :=
  u " Bitwarden CLI before " ++ SSH_MALFORMED_ITEM_FIX_VERSION ++ u " can fail on malformed SSH key items. Upgrading to "
  ++ SSH_MALFORMED_ITEM_FIX_VERSION ++ u " or newer may fix this.".

Definition vaultListFailureMessage (deps : jsval) (mode : jstr) : jstr :=
  if str_eqb mode (u "blocked") then vaultListBlockedMessage deps
  else
    let version := if truthy deps then jor deps.["bwVersion"] (JStr []) else JStr [] in
    if truthy version && older_than version (JStr SSH_MALFORMED_ITEM_FIX_VERSION)
    then SANITIZED_LIST_ERROR ++ SANITIZED_LIST_SSH_FIX_HINT else SANITIZED_LIST_ERROR.

(** SSH rows show only once the probe confirmed a supporting CLI. *)
Definition sshUiAvailable (deps checked : jsval) : bool :=
  truthy checked && truthy deps && strict_eq deps.["sshCliStatus"] (JStr (u "supported")).

(** ** Setup *)

Definition setupGateActive (deps checked dismissed : jsval) : bool :=
  if negb (truthy checked) || truthy dismissed then false else (0 <? length (missingRequired deps)).

Definition dependencyProbeOutcome (deps dismissed probeStarted wasGated : jsval) : jstr :=
  if (0 <? length (missingRequired deps)) then (if truthy dismissed then u "idle" else u "setup")
  else if negb (truthy probeStarted) || truthy wasGated then u "probe" else u "idle".

Definition add_package (pkgs : list jsval) (d : jsval) : list jsval :=
  if negb (truthy d.["applicable"]) || truthy d.["setup"] || truthy d.["installed"] then pkgs
  else if existsb (fun p => strict_eq p d.["pkg"]) pkgs then pkgs else pkgs ++ [d.["pkg"]].

Definition missingPackages (deps : jsval) : list jsval := fold_left add_package (dep_items deps) [].

(** The shown name of an installation. *)
Definition install_name (pkgs : list jsval) (displayName : jsval) : jstr :=
  to_str (jor displayName (match pkgs with [p] => p | _ => JStr (u "Bitwarden plugin dependencies") end)).

Definition joined (pkgs : list jsval) : jstr := join (u " ") (map to_str pkgs).

Definition installPackagesCommand (pkgs : list jsval) (displayName : jsval) : option (list jstr) :=
  if (length pkgs =? 0) || negb (forallb isPlainPackageName pkgs) then None
  else Some [u "omarchy"; u "install"; u "app"; install_name pkgs displayName; joined pkgs].

Definition confirmedInstallCommand (pkgs : list jsval) (displayName : jsval) : option (list jstr) :=
  if (length pkgs =? 0) || negb (forallb isPlainPackageName pkgs) then None
  else
    let name := install_name pkgs displayName in
    Some [u "omarchy"; u "launch"; u "floating"; u "terminal"; u "with"; u "presentation";
          u "echo " ++ shellQuote (JStr (u "Installing " ++ name ++ u "...")) ++ u "; sudo pacman -S --needed " ++ joined pkgs
          ++ u " || printf '\033[31mError: %s did not install\033[0m\n' " ++ shellQuote (JStr name) ++ u " >&2"].

Definition installNeedsConfirmation (deps : jsval) (pkgs : list jsval) : bool :=
  existsb (fun d => truthy d.["swap"] && negb (truthy d.["installed"]) && existsb (fun p => strict_eq p d.["pkg"]) pkgs)
          (dep_items deps).

Definition dependencyInstallCommand (deps : jsval) (pkgs : list jsval) (displayName : jsval) : option (list jstr) :=
  if installNeedsConfirmation deps pkgs then confirmedInstallCommand pkgs displayName
  else installPackagesCommand pkgs displayName.

Definition dependencyInstallHint (deps : jsval) (pkgs : list jsval) : jstr :=
  if (length pkgs =? 0) then []
  else (if installNeedsConfirmation deps pkgs then u "sudo pacman -S --needed " else u "omarchy install app ") ++ joined pkgs.

Definition fingerprintSetupCommand : list jstr :=
  [u "omarchy"; u "launch"; u "floating"; u "terminal"; u "with"; u "presentation"; u "omarchy setup security fingerprint"].

(** ** Lemmas *)

Definition version_ok (v : version) : Prop := let '(a, b, c) := v in (a < 10000 /\ b < 100 /\ c < 1000000)%N.

Lemma read_version_ok s v : read_version s = Some v -> version_ok v.
Proof.
  unfold read_version. destruct (split_char 46 _) as [|a [|b [|c [|]]]]; try done.
  destruct (_ && _) eqn:E; [|done]. intros [= <-]. bool_hyps.
  unfold all_in in *. rewrite !forallb_app in *. bool_hyps.
  repeat match goal with H : (_ <=? _)%nat = true |- _ => apply Nat.leb_le in H | H : (_ =? _)%nat = true |- _ => apply Nat.eqb_eq in H end.
  split_and!; [apply (value_of_digits_lt a 4)|apply (value_of_digits_lt b 2)|apply (value_of_digits_lt c 6)]; (done || lia).
Qed.

Lemma strip_v_digit c s : is_digit c = true -> strip_v (c :: s) = c :: s.
Proof.
  intros H. assert (c <> 118%N) as Hc by (intros ->; by vm_compute in H).
  destruct c as [|p]; [done|]. do 7 (destruct p as [p|p|]; try reflexivity). by destruct Hc.
Qed.

Lemma dot_not_in_dec n : 46%N ∉ dec n.
Proof.
  intros H%list_elem_of_In. pose proof (dec_digits n) as D. rewrite forallb_forall in D. specialize (D _ H). by vm_compute in D.
Qed.

Lemma version_parts v : split_char 46 (version_text v) = let '(a, b, c) := v in [dec a; dec b; dec c].
Proof.
  destruct v as [[a b] c]. change (version_text (a, b, c)) with (join [46%N] [dec a; dec b; dec c]).
  apply split_char_join; [done|]. repeat constructor; apply dot_not_in_dec.
Qed.

Lemma version_text_start v : strip_v (version_text v) = version_text v.
Proof.
  destruct v as [[a b] c]. unfold version_text. pose proof (dec_digits a) as D. destruct (dec a) as [|d t] eqn:E; [by destruct (dec_nonempty a)|].
  cbn [forallb] in D. apply andb_true_iff in D as [D _]. rewrite <- app_comm_cons. by apply strip_v_digit.
Qed.

(** Reading a normalized version back. A year below 1000 loses its leading
    zero, and its text no longer reads as a version. *)
Lemma read_version_text v : version_ok v ->
  read_version (version_text v) = if (1000 <=? fst (fst v))%N then Some v else None.
Proof.
  intros H. unfold read_version. rewrite version_text_start, version_parts. destruct v as [[a b] c]. cbn [fst]. destruct H as (Ha & Hb & Hc).
  unfold all_in. rewrite !forallb_app, !dec_digits, !value_of_dec.
  pose proof (length_dec_le b 1 Hb). pose proof (length_dec_le c 5 Hc).
  assert (1 <= length (dec b) /\ 1 <= length (dec c)) as [? ?].
  { pose proof (dec_nonempty b). pose proof (dec_nonempty c). by destruct (dec b), (dec c); simpl; split; try lia. }
  rewrite !(proj2 (Nat.leb_le _ _)) by lia. destruct (N.leb_spec 1000 a) as [Hy|Hy].
  - pose proof (length_dec_le a 3 Ha). pose proof (length_dec_ge a 3 Hy). by rewrite (proj2 (Nat.eqb_eq _ _)) by lia.
  - pose proof (length_dec_le a 2 Hy). by rewrite (proj2 (Nat.eqb_neq _ _)) by lia.
Qed.

(** Older by year, then month, then patch. *)
Definition version_ltb (v w : version) : bool :=
  let '(a, b, c) := v in
  let '(x, y, z) := w in
  ((a <? x) || ((a =? x) && ((b <? y) || ((b =? y) && (c <? z)))))%N.

Definition read_num (n : N) : num := to_num (JStr (dec n)).

Lemma read_num_ltb n m : (n < 1000000)%N -> (m < 1000000)%N -> num_ltb (read_num n) (read_num m) = (n <? m)%N.
Proof.
  intros Hn Hm. unfold read_num. cbn [to_num]. rewrite !str_to_num_dec by lia. rewrite num_ltb_int.
  destruct (N.ltb_spec n m), (Z.ltb_spec (Z.of_N n) (Z.of_N m)); (done || lia).
Qed.

Lemma version_space v : forallb (fun c => negb (is_space c)) (version_text v) = true.
Proof.
  destruct v as [[a b] c]. unfold version_text. rewrite !forallb_app.
  assert (forall n, forallb (fun c => negb (is_space c)) (dec n) = true) as G
    by (intros n; eapply forallb_impl; [apply digit_not_space|apply dec_digits]).
  by rewrite !G.
Qed.

Lemma normalize_text v : version_ok v ->
  normalizeReleaseVersion (JStr (version_text v)) = if (1000 <=? fst (fst v))%N then version_text v else [].
Proof.
  intros H. unfold normalizeReleaseVersion. assert (text_or_empty (JStr (version_text v)) = version_text v) as ->.
  { unfold text_or_empty, jor. by destruct (version_text v). }
  rewrite trim_id by apply version_space. rewrite read_version_text by done. by destruct (1000 <=? _)%N.
Qed.

Lemma version_text_nonempty v : str_eqb (version_text v) [] = false.
Proof. destruct v as [[a b] c]. unfold version_text. apply str_eqb_neq. intros H. apply (dec_nonempty a). by destruct (dec a). Qed.

Lemma older_than_spec v w : version_ok v -> version_ok w -> (1000 <= fst (fst w))%N ->
  older_than (JStr (version_text v)) (JStr (version_text w)) = (1000 <=? fst (fst v))%N && version_ltb v w.
Proof.
  intros Hv Hw Hy. unfold older_than, compareReleaseVersions. rewrite !normalize_text by done.
  rewrite (proj2 (N.leb_le 1000 (fst (fst w)))) by done. destruct (1000 <=? fst (fst v))%N; [|done].
  rewrite !version_text_nonempty, !version_parts. destruct v as [[a b] c], w as [[x y] z]. destruct Hv as (?&?&?), Hw as (?&?&?).
  cbn [orb compare_parts head tail default from_option id]. fold (read_num a) (read_num b) (read_num c) (read_num x) (read_num y) (read_num z).
  rewrite !read_num_ltb by lia. unfold version_ltb. cbn [andb].
  repeat match goal with |- context [(?n <? ?m)%N] => destruct (N.ltb_spec n m) end;
  repeat match goal with |- context [(?n =? ?m)%N] => destruct (N.eqb_spec n m) end; (reflexivity || lia).
Qed.

(** The parts of a row the gates read. *)
Lemma row_facts found st v f dep :
  let row := dependency_row found st v f dep in
  truthy row = true /\ row.["key"] = dep.["key"] /\ row.["required"] = dep.["required"]
  /\ row.["installed"] = JBool (is_one (obj_get found (to_str dep.["key"]))).
Proof. repeat split. Qed.

(** The list of dependencies, as far as the gates go. *)
Definition gate_row (found : list (jstr * jsval)) (row : jsval) (d : string * bool) : Prop :=
  truthy row = true /\ row.["key"] = JStr (u d.1) /\ row.["required"] = JBool d.2
  /\ row.["installed"] = JBool (is_one (field found d.1)).

Lemma dep_items_rows raw probedVersion features :
  Forall2 (gate_row (probeFields raw)) (dep_items (parseDependencies raw probedVersion features))
    [("bw", true); ("jq", true); ("wtype", false); ("fprintd", false)]%string.
Proof. repeat constructor. Qed.

(** ** Properties *)

(** Whether the CLI is offered for SSH keys is read off its version: a
    text that is not a release version is unknown; a release from the year
    1000 on is unsupported exactly when it is older than 2025.1.2, by year,
    month and patch as numbers; a year written with a leading zero always
    counts as supported, since its normalized text is not a version. *)
Theorem sshCliSupport_spec raw :
  sshCliSupport (JStr raw) =
  match read_version (trim raw) with
  | None => u "unknown"
  | Some v => if (1000 <=? fst (fst v))%N && version_ltb v (2025, 1, 2)%N then u "unsupported" else u "supported"
  end.
Proof.
  unfold sshCliSupport, normalizeReleaseVersion at 1 2. replace (text_or_empty (JStr raw)) with raw by (by destruct raw).
  destruct (read_version (trim raw)) as [v|] eqn:E; [|done]. rewrite version_text_nonempty.
  change SSH_CLI_MIN_VERSION with (version_text (2025, 1, 2)%N).
  rewrite older_than_spec; [done|by eapply read_version_ok| |]; (split_and! || idtac); by vm_compute.
Qed.

(** The list is read only when it can be sanitized: whatever the probe
    printed, the setup gate holds until the probe reported both [bw] and [jq],
    and exactly then the list command runs in its sanitized mode. *)
Theorem setup_gate_sanitized raw probedVersion features :
  let deps := parseDependencies raw probedVersion features in
  let found k := is_one (field (probeFields raw) k) in
  setupGateActive deps (JBool true) (JBool false) = negb (found "bw"%string && found "jq"%string)
  /\ vaultListMode deps = (if found "bw"%string && found "jq"%string then u "sanitized" else u "blocked").
Proof.
  cbv beta zeta. unfold setupGateActive, vaultListMode, missingRequired, dependencyInstalled, dependencyByKey.
  pose proof (dep_items_rows raw probedVersion features) as H. revert H.
  generalize (dep_items (parseDependencies raw probedVersion features)) (probeFields raw). intros rows found H.
  apply Forall2_cons_inv_r in H as (bw & rows1 & (B1 & B2 & B3 & B4) & H & ->).
  apply Forall2_cons_inv_r in H as (jq & rows2 & (J1 & J2 & J3 & J4) & H & ->).
  apply Forall2_cons_inv_r in H as (wt & rows3 & (_ & _ & W & _) & H & ->).
  apply Forall2_cons_inv_r in H as (fp & rows4 & (_ & _ & F & _) & ->%Forall2_nil_inv_r & ->).
  cbn [List.filter find_first]. rewrite B2, J2, B3, J3, B4, J4, W, F. cbn [fst snd].
  change (strict_eq (JStr (u "bw")) bw_key) with true. change (strict_eq (JStr (u "bw")) jq_key) with false.
  change (strict_eq (JStr (u "jq")) jq_key) with true. cbn [default from_option id]. rewrite B1, J1, B4, J4. cbn [fst snd].
  generalize (is_one (field found "bw")) (is_one (field found "jq")). by intros [] [].
Qed.

(** Every package name the panel would install is plain text that a shell
    leaves alone. *)
Lemma plain_name_words p : isPlainPackageName p = true ->
  exists c t, p = JStr (c :: t) /\ is_alnum c = true /\ all_in (fun c => is_alnum c || existsb (N.eqb c) (u "._+-")) t = true.
Proof. destruct p as [| | | |[|c t]| | |]; try done. simpl. intros [H1 H2]%andb_true_iff. by exists c, t. Qed.

(** Installing cannot be talked into anything else: a command comes out
    exactly when there is something to install and every name is a plain
    package name, and then the list handed to the installer splits at its
    blanks into those names. *)
Theorem install_command_safe deps pkgs displayName :
  (is_Some (dependencyInstallCommand deps pkgs displayName) <-> pkgs <> [] /\ Forall (fun p => isPlainPackageName p = true) pkgs)
  /\ (pkgs <> [] -> Forall (fun p => isPlainPackageName p = true) pkgs -> split_char 32 (joined pkgs) = map to_str pkgs).
Proof.
  split.
  - assert ((length pkgs =? 0) || negb (forallb isPlainPackageName pkgs) = false
      <-> pkgs <> [] /\ Forall (fun p => isPlainPackageName p = true) pkgs) as G.
    { rewrite orb_false_iff, negb_false_iff, Nat.eqb_neq, forallb_forall, Forall_forall.
      setoid_rewrite list_elem_of_In. destruct pkgs; simpl; naive_solver lia. }
    rewrite <- G. unfold dependencyInstallCommand, confirmedInstallCommand, installPackagesCommand.
    destruct (_ || _), (installNeedsConfirmation _ _); split; try done; by intros [? [=]].
  - intros Hne H. unfold joined. change (u " ") with [32%N]. apply split_char_join; [by destruct pkgs|].
    apply Forall_map. eapply Forall_impl; [exact H|]. intros p (c & t & -> & Hc & Ht)%plain_name_words Hin.
    simpl in Hin. apply elem_of_cons in Hin as [<-|Hin]; [by vm_compute in Hc|].
    unfold all_in in Ht. rewrite forallb_forall in Ht. apply list_elem_of_In, Ht in Hin. by vm_compute in Hin.
Qed.
