(* ===== verification/Vault.v ===== *)
(** * The vault list

    The rows and details the panel builds from the vault helper's output
    ([src/BitwardenModel.js], "Parsing", "Attachments" and "Filtering and
    search"): [parseItems], [parseSshKeys], the sanitized envelope, splicing a
    saved item in, the item detail and its public (secret-free) form, search
    and filters. Items stay JSON values; each function reads the members the
    source reads and returns the object the source builds.

    [localeCompare] belongs to the host: the class [Collation] states what the
    sort relies on. *)

From stdpp Require Import base list numbers strings.
From Stdlib Require Import QArith Qround Sorting.Sorted.
Local Close Scope Q_scope.
From S2P Require Import Prelude.
From S2P Require Import JsValue.
From S2P Require Import Json.
Local Open Scope js_scope.
Local Open Scope nat_scope.

(** ** Collation *)

(** [collate_le a b] is [a.localeCompare(b, undefined, { sensitivity: "base" }) <= 0]. *)
Class Collation := {
  collate_le : jstr -> jstr -> bool;
  collate_total : forall a b, collate_le a b = true \/ collate_le b a = true;
  collate_trans : forall a b c, collate_le a b = true -> collate_le b c = true -> collate_le a c = true
}.

Lemma str_ltb_irrefl a : str_ltb a a = false.
Proof. induction a as [|x a IH]; simpl; [done|]. by rewrite IH, N.ltb_irrefl, N.eqb_refl. Qed.

Lemma str_ltb_trans a b c : str_ltb a b = true -> str_ltb b c = true -> str_ltb a c = true.
Proof.
  revert b c; induction a as [|x a IH]; intros [|y b] [|z c]; simpl; try done.
  rewrite !orb_true_iff, !andb_true_iff, !N.ltb_lt, !N.eqb_eq.
  intros [?|[-> ?]] [?|[-> ?]]; [left; lia|by left|by left|right]. split; [done|eauto].
Qed.

Lemma str_ltb_cases a b : str_ltb a b = true \/ a = b \/ str_ltb b a = true.
Proof.
  revert b; induction a as [|x a IH]; intros [|y b]; simpl; auto.
  rewrite !orb_true_iff, !andb_true_iff, !N.ltb_lt, !N.eqb_eq.
  destruct (N.lt_trichotomy x y) as [?|[->|?]]; [by left; left| |by right; right; left].
  destruct (IH b) as [?|[->|?]]; auto.
Qed.

(** A collation to evaluate the examples with: the order of code units. *)
Definition codeunit_le (a b : jstr) : bool := negb (str_ltb b a).

#[export, refine] Instance codeunit_collation : Collation := {| collate_le := codeunit_le |}.
Proof.
  - intros a b. unfold codeunit_le. destruct (str_ltb b a) eqn:E; [right|by left].
    destruct (str_ltb a b) eqn:F; [|done]. pose proof (str_ltb_trans _ _ _ E F) as G. by rewrite str_ltb_irrefl in G.
  - intros a b c. unfold codeunit_le. rewrite !negb_true_iff. intros Hab Hbc.
    destruct (str_ltb c a) eqn:E; [|done]. destruct (str_ltb_cases b c) as [F|[->|F]]; [|congruence..].
    pose proof (str_ltb_trans _ _ _ F E). congruence.
Defined.

(** ** Lists and small parsers *)

Definition parseJsonArray (raw : jsval) : list jsval :=
  match json_parse (to_str raw) with Some (JArr l) => l | _ => [] end.

Definition array_of (v : jsval) : list jsval := match v with JArr l => l | _ => [] end.

Definition nameById (entries id : jsval) : jsval :=
  if negb (truthy id) then JStr []
  else match find_first (fun e => strict_eq e.["id"] id) (array_of entries) with
       | Some e => e.["name"]
       | None => JStr []
       end.

Definition folderName := nameById.

(** [it && typeof it === "object"], the guard of every list loop. *)
Definition objects (l : list jsval) : list jsval := List.filter is_object l.

Definition parseOrganizations (raw : jsval) : list jsval :=
  map (fun o => obj [("id", JText o.["id"]); ("name", JStr (text_or o.["name"] (u "Organization")));
                     ("status", JNum (to_num (jor o.["status"] (jz 0))))])
    (objects (parseJsonArray raw)).

Definition parseStatus (raw : jsval) : jsval :=
  match json_parse (to_str raw) with
  | Some st =>
    if is_object st then
      obj [("authenticated", JBool (negb (strict_eq st.["status"] (JStr (u "unauthenticated")))));
           ("locked", JBool (strict_eq st.["status"] (JStr (u "locked"))));
           ("unlocked", JBool (strict_eq st.["status"] (JStr (u "unlocked"))));
           ("userEmail", JText st.["userEmail"]); ("userId", JText st.["userId"]);
           ("lastSync", JText st.["lastSync"]); ("serverUrl", JText st.["serverUrl"])]
    else JNull
  | None => JNull
  end.

Definition ITEM_TYPES (key : jstr) : option jstr :=
  if str_eqb key (u "1") then Some (u "login")
  else if str_eqb key (u "2") then Some (u "secureNote")
  else if str_eqb key (u "3") then Some (u "card")
  else if str_eqb key (u "4") then Some (u "identity")
  else if str_eqb key (u "5") then Some (u "sshKey")
  else None.

(** The vault's types are numbers, never an inherited member's name. *)
Definition itemTypeName (type : jsval) : jstr := default (u "login") (ITEM_TYPES (to_str type)).

(** The filter chips' glyphs. *)
Definition itemTypeGlyph (type : jsval) : jstr :=
  let t := itemTypeName type in
  if str_eqb t (u "login") then u "󰌋"
  else if str_eqb t (u "secureNote") then u "󰈙"
  else if str_eqb t (u "card") then u "󰿯"
  else if str_eqb t (u "identity") then u ""
  else if str_eqb t (u "sshKey") then u "󰣀"
  else u "󰞀".

Definition itemTypeLabel (type : jsval) : jstr :=
  let t := itemTypeName type in
  if str_eqb t (u "login") then u "Login"
  else if str_eqb t (u "secureNote") then u "Secure Note"
  else if str_eqb t (u "card") then u "Card"
  else if str_eqb t (u "identity") then u "Identity"
  else if str_eqb t (u "sshKey") then u "SSH Key"
  else u "Item".

Definition MAX_LIST_ENTRIES : nat := Z.to_nat 4096.

(** A list, or an array-like object whose length is the server's claim. *)
Definition toList (value : jsval) : list jsval :=
  match value with
  | JArr l => take MAX_LIST_ENTRIES l
  | JObj o =>
    match value.["length"] with
    | JNum (Fin q) =>
      if num_ltb (Fin q) (numz 0) || negb (num_eqb (Fin q) (num_floor (Fin q))) then []
      else let n := Nat.min (Z.to_nat (Qfloor q)) MAX_LIST_ENTRIES in
           map (fun i => jget value (dec_nat i)) (seq 0 n)
    | JNum (Inf false) => map (fun i => jget value (dec_nat i)) (seq 0 MAX_LIST_ENTRIES)
    | _ => []
    end
  | _ => []
  end.

(** ** Attachments *)

Definition ATTACHMENT_UNITS : list jstr := [u "B"; u "KB"; u "MB"; u "GB"; u "TB"].

(** The loop divides at most four times. *)
Fixpoint scale_size (fuel unit_ : nat) (n : num) : num * nat :=
  match fuel with
  | O => (n, unit_)
  | S f => if num_leb (numz 1024) n then scale_size f (S unit_) (num_div n (numz 1024)) else (n, unit_)
  end.

(** [(Math.round(n * 100) / 100).toFixed(2)] without its trailing zeros. *)
Definition two_decimals (n : num) : jstr :=
  match num_round (num_mul n (numz 100)) with
  | Fin q =>
    let m := Z.to_N (Qfloor q) in
    let frac := (m mod 100)%N in
    dec (m / 100) ++
    (if (frac =? 0)%N then []
     else 46%N :: if (frac mod 10 =? 0)%N then dec (frac / 10) else pad_left 2 48 (dec frac))
  | other => num_str other
  end.

Definition formatAttachmentSize (bytes : jsval) : jstr :=
  if is_nullish bytes || str_eqb (trim (to_str bytes)) [] then []
  else
    let n := to_num bytes in
    if negb (is_finite n) || num_ltb n (numz 0) then []
    else
      let '(v, unit_) := scale_size (length ATTACHMENT_UNITS - 1) 0 n in
      (if (unit_ =? 0)%nat then num_str (num_round v) else two_decimals v)
      ++ u " " ++ default [] (ATTACHMENT_UNITS !! unit_).

Definition str_or_else (a b : jstr) : jstr := match a with [] => b | _ => a end.

Definition parseAttachments (raw : jsval) : list jsval :=
  map (fun a => obj [("id", JStr (to_str a.["id"]));
                     ("fileName", JStr (str_or_else (text_or_empty a.["fileName"]) (u "attachment")));
                     ("size", JText a.["size"]);
                     ("sizeName", JStr (str_or_else (text_or_empty a.["sizeName"]) (formatAttachmentSize a.["size"])))])
    (List.filter (fun a => truthy a && truthy a.["id"]) (toList raw)).

Definition is_separator (c : N) : bool := (c =? 47)%N || (c =? 92)%N.
Definition leading_junk (c : N) : bool := is_space c || (c =? 46)%N || (c =? 45)%N.

(** The last position with the property. *)
Fixpoint last_position (p : N -> bool) (s : jstr) : option nat :=
  match s with
  | [] => None
  | c :: t => match last_position p t with
              | Some i => Some (S i)
              | None => if p c then Some 0 else None
              end
  end.

(** replace(/^.*[\\/]/, []): up to the last separator of the first line. *)
Definition drop_directory (s : jstr) : jstr :=
  match last_position is_separator (fst (span (fun c => negb (is_line_end c)) s)) with
  | Some i => drop (S i) s
  | None => s
  end.

Definition inert_unit (c : N) : N := if is_control c || is_separator c then 95%N else c.

Definition MAX_FILE_NAME : nat := 128.

Definition shorten_name (name : jstr) : jstr :=
  if (MAX_FILE_NAME <? length name)%nat then
    let ext := match last_index_of 46 name with
               | Some dot => if (0 <? dot)%nat && (length name - dot <=? 12)%nat then drop dot name else []
               | None => []
               end in
    take (MAX_FILE_NAME - length ext) name ++ ext
  else name.

Definition safeAttachmentFileName (raw : jsval) : jstr :=
  let name := drop_directory (text_or_empty raw) in
  let name := map inert_unit name in
  let name := strip_end is_space (strip_start leading_junk name) in
  str_or_else (shorten_name name) (u "attachment").

Definition parentDirectory (path : jsval) : jstr :=
  let p := text_or_empty path in
  match last_index_of 47 p with
  | None => []
  | Some 0 => u "/"
  | Some cut => take cut p
  end.

Definition baseName (path : jsval) : jstr :=
  let p := text_or_empty path in
  match last_index_of 47 p with
  | None => p
  | Some cut => drop (S cut) p
  end.

(** ** Logins, cards, identities, custom fields *)

Definition loginUris (login : jsval) : list jsval :=
  map (fun e => JStr (to_str e.["uri"]))
    (List.filter (fun e => truthy e && truthy e.["uri"]) (toList login.["uris"])).

(** An integer 0-5, else null. *)
Definition uriMatchValue (m : jsval) : jsval :=
  if is_nullish m || strict_eq m (JStr []) then JNull
  else let n := to_num m in
       if num_eqb n (num_floor n) && num_leb (numz 0) n && num_leb n (numz 5) then JNum n else JNull.

Definition indexed {A} (l : list A) : list (nat * A) := zip (seq 0 (length l)) l.

Definition loginUriEntries (login : jsval) : list jsval :=
  map (fun '(i, e) => obj [("uri", JStr (text_of e.["uri"])); ("match", uriMatchValue e.["match"]);
                           ("sourceIndex", JNum (numn i))])
    (List.filter (fun ie => is_object (snd ie)) (indexed (toList (jand login login.["uris"])))).

Definition cardDetail (card : jsval) : jsval :=
  if truthy card then
    obj [("cardholderName", JText card.["cardholderName"]); ("brand", JText card.["brand"]);
         ("number", JText card.["number"]); ("expMonth", JText card.["expMonth"]);
         ("expYear", JText card.["expYear"]); ("code", JText card.["code"])]
  else JNull.

Definition identity_keys : list string :=
  ["title"; "firstName"; "middleName"; "lastName"; "username"; "company"; "email"; "phone"; "ssn";
   "passportNumber"; "licenseNumber"; "address1"; "address2"; "address3"; "city"; "state"; "postalCode";
   "country"]%string.

Definition identityDetail (identity : jsval) : jsval :=
  if truthy identity then obj (map (fun k => (k, JText identity.[k])) identity_keys) else JNull.

Definition nonEmptyParts (parts : list jsval) : list jstr :=
  List.filter (fun p => negb (str_eqb p [])) (map (fun p => trim (text_or_empty p)) parts).

Definition identityFullName (identity : jsval) : jstr :=
  if truthy identity
  then join (u " ") (nonEmptyParts [identity.["title"]; identity.["firstName"]; identity.["middleName"];
                                    identity.["lastName"]])
  else [].

Definition linked_values (item : jsval) : list (Z * jsval) :=
  let login := jor item.["login"] (JObj []) in
  let card := jor item.["card"] (JObj []) in
  let identity := jor item.["identity"] (JObj []) in
  [(100, login.["username"]); (101, login.["password"]);
   (300, card.["cardholderName"]); (301, card.["expMonth"]); (302, card.["expYear"]);
   (303, card.["code"]); (304, card.["brand"]); (305, card.["number"]);
   (400, identity.["title"]); (401, identity.["middleName"]);
   (402, identity.["address1"]); (403, identity.["address2"]); (404, identity.["address3"]);
   (405, identity.["city"]); (406, identity.["state"]); (407, identity.["postalCode"]);
   (408, identity.["country"]); (409, identity.["company"]); (410, identity.["email"]);
   (411, identity.["phone"]); (412, identity.["ssn"]); (413, identity.["username"]);
   (414, identity.["passportNumber"]); (415, identity.["licenseNumber"]);
   (416, identity.["firstName"]); (417, identity.["lastName"]);
   (418, JStr (identityFullName identity))]%Z.

Definition linkedCustomFieldValue (item linkedId : jsval) : jstr :=
  let id := to_num linkedId in
  match find_first (fun kv => num_eqb id (numz (fst kv))) (linked_values (jor item (JObj []))) with
  | Some (_, v) => text_of v
  | None => []
  end.

Definition linkedCustomFieldIsSensitive (linkedId : jsval) : bool :=
  let id := to_num linkedId in
  existsb (fun z => num_eqb id (numz z)) [101; 303; 305; 412; 414; 415]%Z.

Definition custom_field (item : jsval) (index : nat) (field : jsval) : jsval :=
  let type := to_num (jor field.["type"] (jz 0)) in
  let linkedId := if is_nullish field.["linkedId"] then JNull else JNum (to_num field.["linkedId"]) in
  obj [("name", JText field.["name"]);
       ("index", JNum (numn index));
       ("value", JStr (if num_eqb type (numz 3) then linkedCustomFieldValue item linkedId
                       else text_of field.["value"]));
       ("type", JNum type);
       ("linkedId", linkedId);
       ("sensitive", JBool (num_eqb type (numz 1) || (num_eqb type (numz 3) && linkedCustomFieldIsSensitive linkedId)))].

Definition itemCustomFields (fields_ item : jsval) : list jsval :=
  map (fun '(i, f) => custom_field item i f)
    (List.filter (fun ie => truthy (snd ie) && truthy (snd ie).["name"]) (indexed (toList fields_))).

Definition repromptValue (value : jsval) : num := if num_eqb (to_num value) (numz 1) then numz 1 else numz 0.

(** ** Rows *)

Definition nullable_text (v : jsval) : jsval := if truthy v then JStr (to_str v) else JNull.

(** replace(/^https?:\/\//, []).replace(/\/.*$/, []) *)
Definition strip_scheme (s : jstr) : jstr :=
  if starts_with (u "https://") s then drop 8 s else if starts_with (u "http://") s then drop 7 s else s.

Fixpoint cut_path (s : jstr) : jstr :=
  match s with
  | [] => []
  | c :: t => if (c =? 47)%N && forallb (fun d => negb (is_line_end d)) t then [] else c :: cut_path t
  end.

Definition card_subtitle (card : jsval) : jstr :=
  if truthy card then
    let num_ := text_or_empty card.["number"] in
    let last4 := if (4 <=? length num_)%nat then slice_last 4 num_ else num_ in
    (if truthy card.["brand"] then to_str card.["brand"] ++ u " " else [])
    ++ match last4 with [] => [] | _ => u "•••• " ++ last4 end
  else [].

Definition identity_subtitle (identity : jsval) : jstr :=
  if truthy identity then str_or_else (identityFullName identity) (text_or_empty identity.["email"]) else [].

Definition item_subtitle (it login : jsval) (uris : list jsval) : jstr :=
  let card_text := card_subtitle (jor it.["card"] JNull) in
  let identity_text := identity_subtitle (jor it.["identity"] JNull) in
  if truthy login.["username"] then to_str login.["username"]
  else match uris with
       | uri :: _ => cut_path (strip_scheme (to_str uri))
       | [] =>
         match card_text, identity_text with
         | _ :: _, _ => card_text
         | [], _ :: _ => identity_text
         | [], [] => if strict_eq it.["type"] (jz 2) then u "Secure Note" else []
         end
       end.

Definition held_flag (held : jsval) (k : string) : bool := truthy (jand held (jget held (u k))).

Definition item_row (it : jsval) : jsval :=
  let login := jor it.["login"] (JObj []) in
  let uris := loginUris login in
  let attachments := parseAttachments it.["attachments"] in
  let held := if is_object it.["qsbwHeld"] then it.["qsbwHeld"] else JNull in
  obj [("id", JText it.["id"]);
       ("organizationId", nullable_text it.["organizationId"]);
       ("folderId", nullable_text it.["folderId"]);
       ("name", JStr (text_or it.["name"] (u "Untitled")));
       ("type", JStr (itemTypeName it.["type"]));
       ("typeCode", JNum (to_num (jor it.["type"] (jz 1))));
       ("favorite", JBool (truthy it.["favorite"]));
       ("username", JText login.["username"]);
       ("password", JText login.["password"]);
       ("hasPassword", JBool (truthy login.["password"] || held_flag held "password"));
       ("hasTotp", JBool (truthy login.["totp"] || held_flag held "totp"));
       ("totpKey", JText login.["totp"]);
       ("uris", JArr uris);
       ("reprompt", JNum (repromptValue it.["reprompt"]));
       ("attachments", JArr attachments);
       ("hasAttachments", JBool (negb (length attachments =? 0)%nat));
       ("subtitle", JStr (item_subtitle it login uris));
       ("card", cardDetail it.["card"]);
       ("identity", identityDetail it.["identity"]);
       ("notes", JText it.["notes"]);
       ("hasNotes", JBool (truthy it.["notes"] || held_flag held "notes"));
       ("fields", JArr (if truthy held then itemCustomFields it.["fields"] it else []));
       ("heldFlags", held);
       ("rawObject", if truthy held then JNull else it);
       ("secretsHeld", JBool (truthy held))].

Definition ssh_key_text (it : jsval) (inner outer : list string) : jstr :=
  let key := jor it.["sshKey"] (JObj []) in
  text_or_empty (fold_right (fun v w => jor v w) (JStr [])
    (map (fun k => jget key (u k)) inner ++ map (fun k => jget it (u k)) outer)).

Definition ssh_public_key (it : jsval) : jstr := ssh_key_text it ["publicKey"]%string ["publicKey"]%string.
Definition ssh_fingerprint (it : jsval) : jstr :=
  ssh_key_text it ["fingerprint"; "keyFingerprint"]%string ["fingerprint"; "keyFingerprint"]%string.

Definition ssh_key_row (it : jsval) : jsval :=
  let publicKey := ssh_public_key it in
  let fingerprint := ssh_fingerprint it in
  let raw := obj [("id", JStr (to_str it.["id"])); ("name", JStr (text_or it.["name"] (u "Untitled"))); ("type", jz 5);
                  ("organizationId", nullable_text it.["organizationId"]);
                  ("folderId", nullable_text it.["folderId"]);
                  ("favorite", JBool (truthy it.["favorite"])); ("reprompt", JNum (repromptValue it.["reprompt"]));
                  ("sshKey", obj [("publicKey", JStr publicKey); ("fingerprint", JStr fingerprint)])] in
  obj [("id", JStr (to_str it.["id"])); ("organizationId", raw.["organizationId"]); ("folderId", raw.["folderId"]);
       ("name", raw.["name"]); ("type", JStr (u "sshKey")); ("typeCode", jz 5); ("favorite", raw.["favorite"]);
       ("username", JStr []); ("password", JStr []); ("hasPassword", JBool false); ("hasTotp", JBool false);
       ("totpKey", JStr []); ("uris", JArr []); ("reprompt", raw.["reprompt"]); ("attachments", JArr []);
       ("hasAttachments", JBool false);
       ("subtitle", JStr (str_or_else fingerprint (str_or_else publicKey (u "SSH Key"))));
       ("notes", JStr []); ("publicKey", JStr publicKey); ("fingerprint", JStr fingerprint); ("rawObject", raw)].

Definition ssh_key_rows (keys : jsval) : list jsval :=
  map ssh_key_row (List.filter (fun it => is_object it && truthy it.["id"]) (array_of keys)).

Section Sorted.
Context `{Collation}.

(** compareNames and compareItems, as [<= 0]. *)
Definition compareNames (a b : jsval) : bool := collate_le (to_str a.["name"]) (to_str b.["name"]).

Definition compareItems (a b : jsval) : bool :=
  if strict_eq a.["favorite"] b.["favorite"] then compareNames a b else truthy a.["favorite"].

Definition parseCollections (raw : jsval) : list jsval :=
  sort_by compareNames
    (map (fun c => obj [("id", JStr (to_str c.["id"])); ("name", JStr (text_or c.["name"] (u "Collection")));
                        ("organizationId", JText c.["organizationId"])])
      (List.filter (fun c => is_object c && truthy c.["id"]) (parseJsonArray raw))).

Definition parseFolders (raw : jsval) : list jsval :=
  sort_by compareNames
    (map (fun f => obj [("id", JStr (to_str f.["id"])); ("name", JStr (text_or f.["name"] (u "Folder")))])
      (List.filter (fun f => is_object f && truthy f.["id"]) (parseJsonArray raw))).

Definition parseItems (raw : jsval) : list jsval :=
  let arr := match raw with JArr l => l | _ => parseJsonArray raw end in
  sort_by compareItems (map item_row (objects arr)).

Definition parseSshKeys (keys : jsval) : list jsval := sort_by compareItems (ssh_key_rows keys).

(** [{ items, sshKeys, sshCapability }]; None for null. *)
Record envelope := mkEnvelope { env_items : list jsval; env_sshKeys : list jsval; env_sshCapability : jstr }.

Definition parseSanitizedEnvelope (raw : jsval) : option envelope :=
  match json_parse (to_str raw) with
  | None => None
  | Some e =>
    if negb (is_object e) || negb (is_array e.["items"]) || negb (is_array e.["sshKeys"]) then None
    else
      let expected := if (0 <? length (array_of e.["sshKeys"]))%nat then u "confirmed" else u "unconfirmed" in
      if negb (is_undef e.["sshCapability"]) && negb (strict_eq e.["sshCapability"] (JStr expected)) then None
      else
        let keys := parseSshKeys e.["sshKeys"] in
        Some (mkEnvelope (sort_by compareItems (parseItems e.["items"] ++ keys)) keys expected)
  end.

Definition PENDING_ID_PREFIX : jstr := u "qsbw-pending:".
Definition pendingItemId (seed : jsval) : jstr := PENDING_ID_PREFIX ++ to_str seed.
Definition isPendingItemId (id : jsval) : bool := starts_with PENDING_ID_PREFIX (text_or_empty id).

Definition has_id (id item : jsval) : bool := truthy item && strict_eq item.["id"] id.

Definition findItemById (items id : jsval) : jsval := default JNull (find_first (has_id id) (toList items)).

Definition optimisticItem (payload itemId : jsval) : jsval :=
  if negb (truthy payload) then JNull
  else match json_parse (json_text payload) with
       | Some (JObj o) =>
         match parseItems (JArr [JObj (obj_set (obj_set o (u "id") (JText itemId)) (u "object") (JStr (u "item")))]) with
         | [JObj row] => JObj (obj_set row (u "pending") (JBool true))
         | _ => JNull
         end
       | _ => JNull
       end.

Definition replaceItemById (items id replacement : jsval) : list jsval :=
  let existing := toList items in
  let given := if truthy replacement then [replacement] else [] in
  let out := concat (map (fun e => if has_id id e then given else [e]) existing) in
  sort_by compareItems (if existsb (has_id id) existing then out else out ++ given).

(** None when the panel has to reload the vault. *)
Definition spliceSavedItem (items raw replacingId : jsval) : option (list jsval) :=
  match parseSanitizedEnvelope raw with
  | None => None
  | Some e =>
    match env_items e ++ env_sshKeys e with
    | [one] =>
      if truthy one && truthy one.["id"]
      then Some (replaceItemById items (if truthy replacingId then JStr (to_str replacingId) else one.["id"]) one)
      else None
    | _ => None
    end
  end.

Definition parseSanitizedItems (raw : jsval) : list jsval :=
  match parseSanitizedEnvelope raw with Some e => env_items e | None => [] end.

Record ssh_capability := mkCapability { cap_state : jstr; keyCount : nat; cap_message : jstr }.

Definition defaultSshCapability : ssh_capability :=
  mkCapability (u "unknown") 0 (u "SSH key availability has not been checked yet.").

Definition sshCapabilityOf (parsed : option envelope) : ssh_capability :=
  match parsed with
  | None => defaultSshCapability
  | Some e =>
    let n := length (env_sshKeys e) in
    if str_eqb (env_sshCapability e) (u "confirmed") then
      mkCapability (u "confirmed") n (if (n =? 1)%nat then u "1 SSH key found." else dec_nat n ++ u " SSH keys found.")
    else mkCapability (u "unconfirmed") 0 (u "No SSH keys were returned. Server support remains unconfirmed.")
  end.

Definition inspectSanitizedVault (raw : jsval) : ssh_capability := sshCapabilityOf (parseSanitizedEnvelope raw).

Definition readSanitizedVault (raw : jsval) : list jsval * ssh_capability :=
  (parseSanitizedItems raw, sshCapabilityOf (parseSanitizedEnvelope raw)).
End Sorted.

(** ** The detail view *)

Definition ssh_detail (it : jsval) : jsval :=
  obj [("id", JText it.["id"]); ("organizationId", nullable_text it.["organizationId"]);
       ("folderId", nullable_text it.["folderId"]); ("name", JStr (text_or it.["name"] (u "Untitled")));
       ("type", JStr (u "sshKey")); ("typeCode", jz 5); ("favorite", JBool (truthy it.["favorite"]));
       ("notes", JStr []); ("username", JStr []); ("password", JStr []); ("hasPassword", JBool false);
       ("hasTotp", JBool false); ("totpKey", JStr []); ("uris", JArr []);
       ("reprompt", JNum (repromptValue it.["reprompt"])); ("attachments", JArr []);
       ("hasAttachments", JBool false); ("card", JNull); ("identity", JNull); ("fields", JArr []);
       ("publicKey", JStr (ssh_public_key it)); ("fingerprint", JStr (ssh_fingerprint it)); ("rawObject", it)].

Definition itemDetailFromObject (it : jsval) : jsval :=
  if negb (is_object it) then JNull
  else if num_eqb (to_num it.["type"]) (numz 5) then ssh_detail it
  else
    let login := jor it.["login"] (JObj []) in
    let attachments := parseAttachments it.["attachments"] in
    obj [("id", JText it.["id"]);
         ("organizationId", nullable_text it.["organizationId"]);
         ("folderId", nullable_text it.["folderId"]);
         ("name", JStr (text_or it.["name"] (u "Untitled")));
         ("type", JStr (itemTypeName it.["type"]));
         ("typeCode", JNum (to_num (jor it.["type"] (jz 1))));
         ("favorite", JBool (truthy it.["favorite"]));
         ("notes", JText it.["notes"]);
         ("username", JText login.["username"]);
         ("password", JText login.["password"]);
         ("hasPassword", JBool (truthy login.["password"]));
         ("hasNotes", JBool (truthy it.["notes"]));
         ("hasTotp", JBool (truthy login.["totp"]));
         ("totpKey", JText login.["totp"]);
         ("uris", JArr (loginUris login));
         ("reprompt", JNum (repromptValue it.["reprompt"]));
         ("attachments", JArr attachments);
         ("hasAttachments", JBool (negb (length attachments =? 0)%nat));
         ("card", cardDetail it.["card"]);
         ("identity", identityDetail it.["identity"]);
         ("fields", JArr (itemCustomFields it.["fields"] it));
         ("rawObject", it)].

Definition parseItemDetail (raw : jsval) : jsval :=
  match json_parse (to_str raw) with Some it => itemDetailFromObject it | None => JNull end.

Definition WITHHELD : jsval := JStr [8226%N].

(** [has(flag, value)]: what the helper reported, else what the value shows. *)
Definition secret_present (flags : jsval) (unknown : bool) (flag : string) (value : jsval) : bool :=
  if is_undef (jget flags (u flag)) then unknown || negb (strict_eq value (JStr []))
  else truthy (jget flags (u flag)).

Definition withheld_if (b : bool) : jsval := if b then WITHHELD else JStr [].

Definition public_card (flags : jsval) (unknown : bool) (src : jsval) : jsval :=
  if truthy src then
    let card := cardDetail src in
    obj [("cardholderName", card.["cardholderName"]); ("brand", card.["brand"]);
         ("number", if strict_eq card.["number"] (JStr []) then card.["number"] else WITHHELD);
         ("expMonth", card.["expMonth"]); ("expYear", card.["expYear"]);
         ("code", withheld_if (secret_present flags unknown "cardCode" card.["code"]))]
  else JNull.

Definition identity_numbers : list string := ["ssn"; "passportNumber"; "licenseNumber"]%string.

Definition public_identity (flags : jsval) (unknown : bool) (src : jsval) : jsval :=
  if truthy src then
    let identity := identityDetail src in
    obj (map (fun k => (k, if existsb (String.eqb k) identity_numbers
                           then withheld_if (secret_present flags unknown k (jget identity (u k)))
                           else jget identity (u k))) identity_keys)
  else JNull.

Definition public_field (f : jsval) : jsval :=
  obj [("name", f.["name"]); ("value", if truthy f.["sensitive"] then WITHHELD else f.["value"]); ("type", f.["type"]);
       ("linkedId", f.["linkedId"]); ("sensitive", f.["sensitive"]); ("index", f.["index"])].

Definition publicItemDetail (src : jsval) : jsval :=
  if negb (is_object src) then JNull
  else
    let unknown := truthy src.["secretsHeld"] in
    let flags := if is_object src.["heldFlags"] then src.["heldFlags"] else JObj [] in
    let attachments := toList src.["attachments"] in
    obj [("id", JText src.["id"]);
         ("organizationId", nullable_text src.["organizationId"]);
         ("folderId", nullable_text src.["folderId"]);
         ("name", JStr (text_or src.["name"] (u "Untitled")));
         ("type", src.["type"]);
         ("typeCode", JNum (to_num (jor src.["typeCode"] (jz 1))));
         ("favorite", JBool (truthy src.["favorite"]));
         ("notes", JStr []);
         ("username", JText src.["username"]);
         ("password", JStr []);
         ("hasPassword", JBool (truthy src.["hasPassword"]));
         ("hasNotes", JBool (truthy src.["hasNotes"] || truthy src.["notes"]));
         ("hasTotp", JBool (truthy src.["hasTotp"]));
         ("totpKey", JStr []);
         ("uris", JArr (toList src.["uris"]));
         ("reprompt", JNum (repromptValue src.["reprompt"]));
         ("attachments", JArr attachments);
         ("hasAttachments", JBool (negb (length attachments =? 0)%nat));
         ("card", public_card flags unknown src.["card"]);
         ("identity", public_identity flags unknown src.["identity"]);
         ("fields", JArr (map public_field (toList src.["fields"])));
         ("rawObject", JNull);
         ("secretsWithheld", JBool true)].

(** The last field with the index wins. *)
Definition field_value (fields_ : list jsval) (index : num) (start : jsval) : jsval :=
  fold_left (fun value f => if strict_eq f.["index"] (JNum index) then f.["value"] else value) fields_ start.

Definition detailSecretValue (detail key : jsval) : jsval :=
  if negb (is_object detail) then JNull
  else
    let card := jor detail.["card"] (JObj []) in
    let identity := jor detail.["identity"] (JObj []) in
    let k := to_str key in
    let values := fields [("password", detail.["password"]); ("notes", detail.["notes"]);
                          ("cardNumber", card.["number"]); ("cardCode", card.["code"]); ("ssn", identity.["ssn"]);
                          ("passportNumber", identity.["passportNumber"]);
                          ("licenseNumber", identity.["licenseNumber"])]%string in
    let value := default JUndef (own_get values k) in
    let value := if starts_with (u "customField:") k
                 then field_value (toList detail.["fields"]) (str_to_num (drop 12 k)) value
                 else value in
    if is_nullish value then JNull else JStr (to_str value).

(** ** Search and filters *)

Definition contains (q : jstr) (value : jsval) : bool := includes q (to_lower (text_or_empty value)).

Definition matches_card (q : jstr) (card : jsval) : bool :=
  truthy card &&
  (contains q card.["brand"] || contains q card.["cardholderName"] ||
   let digits_ := List.filter is_digit (text_or_empty card.["number"]) in
   let wanted := List.filter is_digit q in
   (4 <=? length digits_)%nat && includes wanted (slice_last 4 digits_) && negb (str_eqb wanted [])).

Definition matches_identity (q : jstr) (identity : jsval) : bool :=
  truthy identity &&
  (contains q (JStr (identityFullName identity)) || contains q identity.["email"]
   || contains q identity.["username"] || contains q identity.["company"]).

Definition matchesQuery (item query : jsval) : bool :=
  if negb (truthy query) then true
  else
    let q := trim (to_lower (to_str query)) in
    match q with
    | [] => true
    | _ =>
      let notesSearchable := negb (num_eqb (to_num item.["reprompt"]) (numz 1)) in
      contains q item.["name"] || contains q item.["username"] || (notesSearchable && contains q item.["notes"])
      || contains q item.["publicKey"] || contains q item.["fingerprint"]
      || matches_card q item.["card"] || matches_identity q item.["identity"]
      || existsb (contains q) (toList item.["uris"])
    end.

Definition matchesOrganizationFilter (item : jsval) (organization : jstr) : bool :=
  if str_eqb organization (u "personal") then negb (truthy item.["organizationId"])
  else str_eqb organization (u "all") || strict_eq item.["organizationId"] (JStr organization).

Definition matchesFolderFilter (item : jsval) (folder : jstr) : bool :=
  if str_eqb folder (u "none") then negb (truthy item.["folderId"])
  else str_eqb folder (u "all") || strict_eq item.["folderId"] (JStr folder).

Definition matchesCategoryFilter (item : jsval) (category : jstr) : bool :=
  if str_eqb category (u "favorite") then truthy item.["favorite"]
  else str_eqb category (u "all") || str_eqb (to_lower (text_or_empty item.["type"])) (to_lower category).

Definition filterItems (items query category selectedOrg selectedFolder : jsval) : list jsval :=
  let q := trim (to_lower (text_or_empty query)) in
  let cat := to_lower (text_or category (u "all")) in
  let org := text_or selectedOrg (u "all") in
  let folder := text_or selectedFolder (u "all") in
  List.filter (fun it => matchesOrganizationFilter it org && matchesFolderFilter it folder
                         && matchesCategoryFilter it cat && (str_eqb q [] || matchesQuery it (JStr q)))
    (array_of items).

Definition validateItemForm (name organizationId collectionIds customFields : jsval) : jstr :=
  if str_eqb (trim (text_or_empty name)) [] then u "Item title is required"
  else if truthy organizationId && negb (strict_eq organizationId (JStr (u "personal")))
          && negb (strict_eq organizationId (JStr (u "all"))) && (length (array_of collectionIds) =? 0)%nat
  then u "Pick at least one collection for an organization item"
  else match find_first (fun ie => negb (truthy (snd ie)) || str_eqb (trim (text_or_empty (snd ie).["name"])) [])
               (indexed (toList customFields)) with
       | Some (i, _) => u "Custom field " ++ dec_nat (S i) ++ u " needs a label"
       | None => []
       end.

Definition MASK : jstr := u "••••••••".
Definition maskString (str : jsval) : jstr := if truthy str then MASK else [].

(** ** What the properties speak of *)

(** A row the panel built: its favorite flag is a boolean. *)
Definition is_row (r : jsval) : Prop := exists b, r.["favorite"] = JBool b.

(** [agree keys a b]: two objects read alike at the keys. *)
Definition agree (keys : list string) (a b : jsval) : Prop := Forall (fun k => jget a (u k) = jget b (u k)) keys.

(** A secret's presence, the only thing the public detail may tell of it. *)
Definition same_presence (a b : jsval) : Prop := text_or_empty a = [] <-> text_or_empty b = [].

Definition cards_alike (a b : jsval) : Prop :=
  truthy a = truthy b /\ agree ["cardholderName"; "brand"; "expMonth"; "expYear"] a b /\
  same_presence a.["number"] b.["number"] /\ same_presence a.["code"] b.["code"].

Definition identities_alike (a b : jsval) : Prop :=
  truthy a = truthy b /\
  agree (List.filter (fun k => negb (existsb (String.eqb k) identity_numbers)) identity_keys) a b /\
  Forall (fun k => same_presence (jget a (u k)) (jget b (u k))) identity_numbers.

Definition fields_alike (a b : jsval) : Prop :=
  agree ["name"; "type"; "linkedId"; "sensitive"; "index"] a b /\
  (truthy a.["sensitive"] = false -> a.["value"] = b.["value"]).

(** Two details that differ in nothing but the values of their secrets. *)
Record alike (a b : jsval) : Prop := {
  alike_object : is_object a = is_object b;
  alike_public : agree ["id"; "organizationId"; "folderId"; "name"; "type"; "typeCode"; "favorite"; "username";
    "hasPassword"; "hasNotes"; "hasTotp"; "uris"; "reprompt"; "attachments"; "secretsHeld"; "heldFlags"] a b;
  alike_notes : truthy a.["notes"] = truthy b.["notes"];
  alike_card : cards_alike a.["card"] b.["card"];
  alike_identity : identities_alike a.["identity"] b.["identity"];
  alike_fields : Forall2 fields_alike (toList a.["fields"]) (toList b.["fields"])
}.

(** What a search may look at. *)
Record searched_alike (a b : jsval) : Prop := {
  searched_public : agree ["reprompt"; "name"; "username"; "publicKey"; "fingerprint"; "uris"] a b;
  searched_notes : num_eqb (to_num a.["reprompt"]) (numz 1) = true \/ a.["notes"] = b.["notes"];
  searched_card : truthy a.["card"] = truthy b.["card"] /\ agree ["brand"; "cardholderName"] a.["card"] b.["card"];
  searched_number : let digits_ v := List.filter is_digit (text_or_empty v.["card"].["number"]) in
    (4 <=? length (digits_ a))%nat = (4 <=? length (digits_ b))%nat /\
    slice_last 4 (digits_ a) = slice_last 4 (digits_ b);
  searched_identity : truthy a.["identity"] = truthy b.["identity"] /\
    agree ["title"; "firstName"; "middleName"; "lastName"; "email"; "username"; "company"] a.["identity"] b.["identity"]
}.

(** A file name that names one entry of the directory it is saved in. *)
Definition inert_name (s : jstr) : Prop :=
  s <> [] /\ (length s <= MAX_FILE_NAME)%nat /\
  Forall (fun c => is_control c = false /\ is_separator c = false) s /\
  (forall c t, s = c :: t -> leading_junk c = false).

(** ** Lemmas *)

(** Evaluate the reads of object literals. *)
Ltac jobj := unfold obj; jfields.

(** Check the agreement of two concrete objects. *)
Ltac agree_compute :=
  match goal with |- agree ?keys _ _ => let ks := eval vm_compute in keys in change keys with ks end;
  unfold agree; repeat (apply Forall_cons_2; [vm_compute; reflexivity|]); apply Forall_nil_2; exact I.
Ltac presence_compute := vm_compute; split; intros; (discriminate || reflexivity).

(** Turn the agreement of two objects into equations. *)
Ltac use_agree H :=
  unfold agree in H;
  repeat match type of H with
  | Forall _ (_ :: _) => let E := fresh "Eq" in let H' := fresh "H" in
      apply Forall_cons in H as [E H]
  end.

Lemma item_row_is_row it : is_row (item_row it).
Proof. unfold is_row, item_row. eexists. by jobj. Qed.
Lemma ssh_key_row_is_row it : is_row (ssh_key_row it).
Proof. unfold is_row, ssh_key_row. eexists. cbv zeta. by jobj. Qed.
#[export] Hint Resolve item_row_is_row ssh_key_row_is_row : qsbw.

Section SortedFacts.
Context `{Collation}.

Lemma compareItems_total a b : is_row a -> is_row b -> compareItems a b = true \/ compareItems b a = true.
Proof.
  intros [x Ha] [y Hb]. unfold compareItems, compareNames. rewrite Ha, Hb.
  destruct x, y; simpl; auto using collate_total.
Qed.

Lemma compareItems_trans a b c : is_row a -> is_row b -> is_row c ->
  compareItems a b = true -> compareItems b c = true -> compareItems a c = true.
Proof.
  intros [x Ha] [y Hb] [z Hc]. unfold compareItems, compareNames. rewrite Ha, Hb, Hc.
  destruct x, y, z; simpl; eauto using collate_trans; done.
Qed.

Lemma sorted_rows l : Forall is_row l -> in_order compareItems (sort_by compareItems l).
Proof. apply sort_by_in_order; [apply compareItems_total|apply compareItems_trans]. Qed.

Lemma parseItems_perm l : parseItems (JArr l) ≡ₚ map item_row (objects l).
Proof. apply sort_by_perm. Qed.

Lemma parseItems_rows raw : Forall is_row (parseItems raw).
Proof.
  unfold parseItems. rewrite sort_by_perm. apply Forall_map, Forall_true. auto with qsbw.
Qed.

Lemma parseSshKeys_rows keys : Forall is_row (parseSshKeys keys).
Proof. unfold parseSshKeys. rewrite sort_by_perm. apply Forall_map, Forall_true. auto with qsbw. Qed.

Lemma concat_replace_none id given l : Forall (fun e => has_id id e = false) l ->
  concat (map (fun e => if has_id id e then given else [e]) l) = l.
Proof. induction 1 as [|e l He _ IH]; [done|]. simpl. by rewrite He, IH. Qed.

Lemma concat_replace_one id given l :
  StronglySorted (fun a b => has_id id a = true -> has_id id b = false) l ->
  existsb (has_id id) l = true ->
  concat (map (fun e => if has_id id e then given else [e]) l) ≡ₚ given ++ List.filter (fun e => negb (has_id id e)) l.
Proof.
  induction 1 as [|e l Hl IH He]; [done|]. simpl. destruct (has_id id e) eqn:E; simpl; intros Hx.
  - rewrite concat_replace_none; [|rewrite Forall_forall in *; auto]. rewrite bfilter_all; [done|].
    eapply Forall_impl; [exact He|]. intros x Hx'. by rewrite Hx'.
  - rewrite (IH Hx). by rewrite Permutation_middle.
Qed.

End SortedFacts.

Lemma toList_small l : (length l <= MAX_LIST_ENTRIES)%nat -> toList (JArr l) = l.
Proof. intros Hl. simpl. by rewrite take_ge. Qed.

Lemma last_position_spec p s i : last_position p s = Some i -> (i < length s)%nat.
Proof.
  revert i; induction s as [|c s IH]; intros i; simpl; [done|].
  destruct (last_position p s) as [j|]; [intros [= <-]; specialize (IH j eq_refl); lia|].
  destruct (p c); [intros [= <-]; lia|done].
Qed.

Lemma last_index_of_lt c s i : last_index_of c s = Some i -> (i < length s)%nat.
Proof.
  revert i; induction s as [|x s IH]; intros i; simpl; [done|].
  destruct (last_index_of c s) as [j|]; [intros [= <-]; specialize (IH j eq_refl); lia|].
  destruct (x =? c)%N; [intros [= <-]; lia|done].
Qed.

Lemma strip_start_head p s c t : strip_start p s = c :: t -> p c = false.
Proof.
  unfold strip_start. induction s as [|x s IH]; simpl; [done|]. destruct (p x) eqn:E.
  - destruct (span p s). exact IH.
  - intros [= <- <-]. done.
Qed.

Lemma strip_end_head p s c t : strip_end p s = c :: t -> exists t', s = c :: t'.
Proof.
  destruct s as [|x s]; simpl; [done|]. destruct (strip_end p s); [destruct (p x)|]; intros E; simplify_eq; eauto.
Qed.

Lemma strip_start_Forall (Q : N -> Prop) p s : Forall Q s -> Forall Q (strip_start p s).
Proof.
  unfold strip_start. induction 1 as [|c s Hc Hs IH]; simpl; [constructor|].
  destruct (p c); [destruct (span p s); exact IH|by constructor].
Qed.

Lemma inert_unit_ok c : is_control (inert_unit c) = false /\ is_separator (inert_unit c) = false.
Proof.
  unfold inert_unit. destruct (is_control c) eqn:E1; [done|]. destruct (is_separator c) eqn:E2; [done|]. done.
Qed.

Lemma shorten_name_ok (Q : N -> Prop) s : Forall Q s ->
  Forall Q (shorten_name s) /\ (length (shorten_name s) <= MAX_FILE_NAME)%nat /\
  (s <> [] -> shorten_name s <> []) /\ (forall c t, shorten_name s = c :: t -> exists t', s = c :: t').
Proof.
  intros Hs. unfold shorten_name. destruct (Nat.ltb_spec MAX_FILE_NAME (length s)) as [Hl|Hl]; [|split_and!; eauto].
  set (ext := match last_index_of 46 s with Some _ => _ | None => _ end).
  assert (Forall Q ext /\ (length ext <= 12)%nat) as [He Hel].
  { unfold ext. destruct (last_index_of 46 s) as [dot|]; [|split; [constructor|simpl; lia]].
    destruct ((0 <? dot)%nat && (length s - dot <=? 12)%nat) eqn:E; [|split; [constructor|simpl; lia]].
    apply andb_true_iff in E as [_ E]. apply Nat.leb_le in E. rewrite length_drop. split; [|lia].
    by apply Forall_drop. }
  unfold MAX_FILE_NAME in *. split_and!.
  - apply Forall_app. split; [by apply Forall_take|done].
  - rewrite length_app, length_take. lia.
  - intros _ E. apply (f_equal length) in E. rewrite length_app, length_take in E. simpl in E. lia.
  - intros c t E. destruct s as [|x s]; [simpl in Hl; lia|].
    destruct (128 - length ext)%nat eqn:En; [lia|]. simpl in E. exists s. congruence.
Qed.

Lemma envelope_length `{Collation} raw e :
  parseSanitizedEnvelope raw = Some e -> length (env_sshKeys e) <= length (env_items e).
Proof.
  unfold parseSanitizedEnvelope. destruct (json_parse _) as [v|]; [|done].
  destruct (negb (is_object v) || _ || _); [done|]. destruct (negb (is_undef _) && _); [done|]. intros [= <-].
  cbn [env_items env_sshKeys]. rewrite length_sort_by, length_app. lia.
Qed.

(** *** The public detail *)

Lemma presence_eq a b : same_presence a b -> strict_eq (JText a) (JStr []) = strict_eq (JText b) (JStr []).
Proof.
  unfold same_presence, JText. simpl. unfold str_eqb. intros H.
  apply bool_decide_ext. exact H.
Qed.

Lemma withheld_eq flags unknown flag a b : same_presence a b ->
  withheld_if (secret_present flags unknown flag (JText a)) = withheld_if (secret_present flags unknown flag (JText b)).
Proof. intros H. unfold secret_present. by rewrite (presence_eq a b H). Qed.

Lemma withheld_number a b : same_presence a b ->
  (if strict_eq (JText a) (JStr []) then JText a else WITHHELD) = (if strict_eq (JText b) (JStr []) then JText b else WITHHELD).
Proof.
  intros H. rewrite (presence_eq a b H). destruct (strict_eq (JText b) (JStr [])) eqn:E; [|done].
  apply strict_eq_str in E. unfold same_presence in H. apply H in E as E'. unfold JText. by rewrite E, E'.
Qed.

Lemma public_card_alike flags unknown a b : cards_alike a b -> public_card flags unknown a = public_card flags unknown b.
Proof.
  intros (Ht & Hp & Hn & Hc). unfold public_card. rewrite Ht. destruct (truthy b) eqn:Eb; [|done].
  unfold cardDetail. rewrite Ht, Eb. jobj. use_agree Hp.
  rewrite (withheld_eq flags unknown _ _ _ Hc), (withheld_number _ _ Hn). unfold JText. by rewrite Eq, Eq0, Eq1, Eq2.
Qed.

Lemma identity_member k i : In k identity_keys -> truthy i = true -> jget (identityDetail i) (u k) = JText (jget i (u k)).
Proof.
  intros Hk Hi. unfold identityDetail. rewrite Hi. unfold identity_keys in *.
  repeat (destruct Hk as [<-|Hk]; [cbn [map]; by jobj|]). destruct Hk.
Qed.

Lemma public_identity_alike flags unknown a b :
  identities_alike a b -> public_identity flags unknown a = public_identity flags unknown b.
Proof.
  intros (Ht & Hp & Hn). unfold public_identity. rewrite Ht. destruct (truthy b) eqn:Eb; [|done].
  f_equal. apply map_ext_in. intros k Hk. rewrite !identity_member by (done || congruence).
  f_equal. destruct (existsb (String.eqb k) identity_numbers) eqn:E.
  - apply withheld_eq. rewrite List.Forall_forall in Hn. apply Hn.
    apply existsb_exists in E as (k' & Hk' & ->%String.eqb_eq). done.
  - unfold agree in Hp. rewrite List.Forall_forall in Hp. unfold JText.
    rewrite (Hp k); [done|]. apply filter_In. by rewrite E.
Qed.

Lemma public_field_alike a b : fields_alike a b -> public_field a = public_field b.
Proof.
  intros [Hp Hv]. use_agree Hp. unfold public_field. rewrite Eq, Eq0, Eq1, Eq2, Eq3 in *.
  destruct (truthy b.["sensitive"]); [done|]. by rewrite Hv.
Qed.

Lemma safe_name_ok raw : inert_name (safeAttachmentFileName raw).
Proof.
  unfold safeAttachmentFileName. set (s := map inert_unit (drop_directory (text_or_empty raw))).
  assert (Hs : Forall (fun c => is_control c = false /\ is_separator c = false) s).
  { apply Forall_map, Forall_true. exact inert_unit_ok. }
  set (t := strip_end is_space (strip_start leading_junk s)).
  assert (Ht : Forall (fun c => is_control c = false /\ is_separator c = false) t).
  { by apply strip_end_Forall, strip_start_Forall. }
  destruct (shorten_name_ok _ t Ht) as (H1 & H2 & H3 & H4). unfold str_or_else, inert_name.
  destruct (shorten_name t) as [|c r] eqn:E.
  - replace (u "attachment") with [97; 116; 116; 97; 99; 104; 109; 101; 110; 116]%N by by vm_compute.
    split; [done|]. split; [apply Nat.leb_le; by vm_compute|]. split; [by repeat constructor|]. by intros ? ? [= <- _].
  - split; [done|]. split; [done|]. split; [done|]. intros c' t' [= <- <-]. destruct (H4 c r eq_refl) as [t' Et].
    unfold t in Et. apply strip_end_head in Et as [t'' Et]. by apply strip_start_head in Et.
Qed.

(** ** Properties *)

(** The panel's list holds exactly one row per object of the vault's
    output, favorites first and then by name. *)
Theorem parseItems_sorted `{Collation} l :
  parseItems (JArr l) ≡ₚ map item_row (objects l) /\ in_order compareItems (parseItems (JArr l)).
Proof.
  split; [apply parseItems_perm|]. apply sorted_rows, Forall_map, Forall_true. auto with qsbw.
Qed.

(** C29. The view of an item drawn without its secrets depends on none of
    them: two details that differ only in the values of passwords, TOTP keys,
    notes, card numbers and codes, identity numbers and hidden fields, with
    the same ones present, give the same public detail. *)
Theorem publicItemDetail_noninterference a b : alike a b -> publicItemDetail a = publicItemDetail b.
Proof.
  intros [Ho Hp Hn Hc Hi Hf]. use_agree Hp. unfold publicItemDetail. rewrite Ho.
  destruct (negb (is_object b)); [done|]. rewrite Eq, Eq0, Eq1, Eq2, Eq3, Eq4, Eq5, Eq6, Eq7, Eq8, Eq9, Eq10, Eq11,
    Eq12, Eq13, Eq14, Hn. rewrite (public_card_alike _ _ _ _ Hc), (public_identity_alike _ _ _ _ Hi).
  assert (map public_field (toList a.["fields"]) = map public_field (toList b.["fields"])) as ->; [|done].
  induction Hf as [|x y l l' Hxy _ IH]; simpl; [done|]. by rewrite (public_field_alike x y Hxy), IH.
Qed.

Lemma publicItemDetail_noninterference_witness :
  let item p n c := itemDetailFromObject (obj [("id", JStr (u "1")); ("type", jz 3); ("notes", JStr (u n));
    ("login", obj [("username", JStr (u "me")); ("password", JStr (u p))]);
    ("card", obj [("number", JStr (u c)); ("brand", JStr (u "Visa"))])]) in
  publicItemDetail (item "hunter2" "a" "4111")%string = publicItemDetail (item "s3cret" "b" "5500")%string.
Proof.
  intros item. apply publicItemDetail_noninterference. split.
  - by vm_compute.
  - agree_compute.
  - by vm_compute.
  - split; [by vm_compute|]. split; [agree_compute|]. split; presence_compute.
  - split; [by vm_compute|]. split; [agree_compute|]. repeat (apply Forall_cons_2; [presence_compute|]). by apply Forall_nil_2.
  - match goal with |- Forall2 _ ?x ?y =>
      replace x with (@nil jsval) by (by vm_compute); replace y with (@nil jsval) by (by vm_compute) end.
    constructor.
Defined.

(** A search reads what a row shows and nothing else: not the password,
    the TOTP key, the card code or the identity numbers, only the last four
    digits of a card number, and not the notes of an item that asks for the
    master password. *)
Theorem search_noninterference a b query : searched_alike a b -> matchesQuery a query = matchesQuery b query.
Proof.
  intros [Hp Hn [Hc Hca] [Hd Hs] [Hi Hia]]. use_agree Hp. use_agree Hca. use_agree Hia.
  unfold matchesQuery. destruct (truthy query); [|done]. cbn [negb].
  destruct (trim (to_lower (to_str query))) as [|c q]; [done|].
  assert (match_notes : (negb (num_eqb (to_num a.["reprompt"]) (numz 1)) && contains (c :: q) a.["notes"])
    = (negb (num_eqb (to_num b.["reprompt"]) (numz 1)) && contains (c :: q) b.["notes"])).
  { rewrite <- Eq. destruct Hn as [->| ->]; done. }
  rewrite match_notes, Eq0, Eq1, Eq2, Eq3, Eq4. clear match_notes.
  unfold matches_card, matches_identity, identityFullName. rewrite Hc, Hd, Hs, Hi.
  by rewrite Eq5, Eq6, Eq7, Eq8, Eq9, Eq10, Eq11, Eq12, Eq13.
Qed.

Lemma search_noninterference_witness :
  let item n c := obj [("name", JStr (u "Bank")); ("reprompt", jz 1); ("notes", JStr (u n));
                       ("card", obj [("number", JStr (u c))])] in
  matchesQuery (item "pin 1234" "4111000000001111")%string (JStr (u "12"))
  = matchesQuery (item "none" "5500000000001111")%string (JStr (u "12")).
Proof.
  intros item. apply search_noninterference. split.
  - agree_compute.
  - left. by vm_compute.
  - split; [by vm_compute|agree_compute].
  - by vm_compute.
  - split; [by vm_compute|agree_compute].
Defined.

(** A download is saved under one inert name: whatever the vault calls
    the file, the result is not empty, at most 128 characters, has no path
    separator or control character and starts with no dot, dash or space. *)
Theorem safeAttachmentFileName_inert raw : inert_name (safeAttachmentFileName raw).
Proof. apply safe_name_ok. Qed.

(** Replacing a row by id in a list of rows with distinct ids keeps every
    other row, puts the replacement in exactly once (whether the id was there
    or not), removes the row when there is no replacement, and leaves the list
    sorted. *)
Theorem replaceItemById_spec `{Collation} l id r :
  (length l <= MAX_LIST_ENTRIES)%nat -> Forall is_row l -> (truthy r = true -> is_row r) ->
  StronglySorted (fun a b => has_id id a = true -> has_id id b = false) l ->
  replaceItemById (JArr l) id r ≡ₚ
    (if truthy r then [r] else []) ++ List.filter (fun e => negb (has_id id e)) l /\
  in_order compareItems (replaceItemById (JArr l) id r).
Proof.
  intros Hl Hrows Hr Hd. unfold replaceItemById. rewrite toList_small by done.
  set (given := if truthy r then [r] else []).
  assert (Hg : Forall is_row given) by (unfold given; destruct (truthy r); [constructor; [auto|constructor]|constructor]).
  assert (P : (if existsb (has_id id) l then concat (map (fun e => if has_id id e then given else [e]) l)
               else concat (map (fun e => if has_id id e then given else [e]) l) ++ given)
              ≡ₚ given ++ List.filter (fun e => negb (has_id id e)) l).
  { destruct (existsb (has_id id) l) eqn:E; [by apply concat_replace_one|].
    assert (N : Forall (fun e => has_id id e = false) l) by (apply Forall_forall, existsb_false, E).
    rewrite concat_replace_none by done. rewrite bfilter_all; [apply Permutation_app_comm|].
    eapply Forall_impl; [exact N|]. by intros ? ->. }
  split; [rewrite sort_by_perm; exact P|]. apply sorted_rows. rewrite P. apply Forall_app.
  split; [done|]. by apply Forall_bfilter.
Qed.

Lemma replaceItemById_spec_witness :
  let row k := obj [("id", JStr (u k)); ("name", JStr (u k)); ("favorite", JBool false)] in
  replaceItemById (H := codeunit_collation) (JArr [row "b"; row "c"]%string) (JStr (u "b")) (row "a"%string)
  ≡ₚ [row "a"; row "c"]%string.
Proof.
  intros row. refine (proj1 (replaceItemById_spec [row "b"; row "c"]%string (JStr (u "b")) (row "a"%string) _ _ _ _)).
  - simpl. apply Nat.leb_le. by vm_compute.
  - repeat constructor; exists false; by vm_compute.
  - intros _. exists false. by vm_compute.
  - repeat constructor; by vm_compute.
Defined.

(** Reading the sanitized vault fails closed: only a document with both
    lists and a capability flag that does not contradict the key list is
    accepted, and what it yields is sorted, with every key also a row. *)
Theorem parseSanitizedEnvelope_spec `{Collation} raw e : parseSanitizedEnvelope raw = Some e ->
  (exists items keys v, json_parse (to_str raw) = Some v /\ v.["items"] = JArr items /\ v.["sshKeys"] = JArr keys /\
     (v.["sshCapability"] = JUndef \/ v.["sshCapability"] = JStr (env_sshCapability e)) /\
     (env_sshCapability e = u "confirmed" <-> keys <> []) /\
     env_items e ≡ₚ map item_row (objects items) ++ env_sshKeys e) /\
  in_order compareItems (env_items e) /\ in_order compareItems (env_sshKeys e).
Proof.
  unfold parseSanitizedEnvelope. destruct (json_parse (to_str raw)) as [v|]; [|done].
  destruct (negb (is_object v) || _ || _) eqn:E1; [done|].
  destruct (negb (is_undef _) && _) eqn:E2; [done|]. intros [= <-].
  cbn [env_items env_sshKeys env_sshCapability]. bool_hyps.
  destruct (v.["items"]) as [| | | | |items| |] eqn:Ei; try done. destruct (v.["sshKeys"]) as [| | | | |keys| |] eqn:Ek; try done.
  cbn [array_of] in *. split_and!.
  - exists items, keys, v. split_and!; try done.
    + destruct (v.["sshCapability"]) eqn:Ec; simpl in E2; auto; try done.
      right. apply negb_false_iff, str_eqb_eq in E2. by rewrite E2.
    + destruct keys; simpl; [split; [intros E; by apply (f_equal length) in E; vm_compute in E|done]|done].
    + rewrite sort_by_perm. apply Permutation_app_tail, parseItems_perm.
  - apply sorted_rows, Forall_app. split; [apply parseItems_rows|apply parseSshKeys_rows].
  - apply sorted_rows, Forall_map, Forall_true. auto with qsbw.
Qed.

Lemma parseSanitizedEnvelope_spec_witness :
  let raw := JStr (uq "{`items`:[{`id`:`1`,`name`:`b`}],`sshKeys`:[{`id`:`2`,`name`:`a`}]}") in
  match parseSanitizedEnvelope (H := codeunit_collation) raw with
  | Some e => in_order (compareItems (H := codeunit_collation)) (env_items e)
  | None => False
  end.
Proof.
  intros raw. destruct (parseSanitizedEnvelope (H := codeunit_collation) raw) as [e|] eqn:E.
  - exact (proj1 (proj2 (parseSanitizedEnvelope_spec (H := codeunit_collation) raw e E))).
  - vm_compute in E. discriminate E.
Defined.

(** A saved SSH key never splices into the list: its envelope lists the key
    among the items too, so the reader counts it twice and asks for a reload. *)
Lemma spliceSavedItem_ssh_key `{Collation} items raw id e :
  parseSanitizedEnvelope raw = Some e -> env_sshKeys e <> [] -> spliceSavedItem items raw id = None.
Proof.
  intros E Hk. pose proof (envelope_length raw e E) as P. unfold spliceSavedItem. rewrite E.
  destruct (env_sshKeys e) as [|k t]; [done|].
  destruct (env_items e) as [|a [|b r]]; simpl in *; [lia|done|done].
Qed.

(** A list longer than the cap loses rows when one of them is replaced. *)
Lemma replaceItemById_truncates `{Collation} l id : length (replaceItemById (JArr l) id JNull) <= MAX_LIST_ENTRIES.
Proof.
  unfold replaceItemById. rewrite length_sort_by. cbn [truthy]. rewrite app_nil_r.
  assert (G : forall m, length (concat (map (fun e => if has_id id e then [] else [e]) m)) <= length m).
  { induction m as [|x m IH]; simpl; [done|]. rewrite length_app. destruct (has_id id x); simpl; lia. }
  destruct (existsb _ _); (etrans; [apply G|]); cbn [toList]; rewrite length_take; lia.
Qed.
