(* ===== verification/Payload.v ===== *)
(** * Create and edit payloads

    What a save sends to the vault ([src/BitwardenModel.js], "Create and edit
    payloads"): the form written over the stored item. An object the source
    mutates is always a fresh one (a literal or a JSON clone), so the writes
    are modelled by objects passed through [obj_set]. *)

From stdpp Require Import base list numbers strings.
From Stdlib Require Import QArith Qround.
Local Close Scope Q_scope.
From S2P Require Import Prelude.
From S2P Require Import JsValue.
From S2P Require Import Json.
From S2P Require Import Vault.
Local Open Scope js_scope.
Local Open Scope nat_scope.

(** ** Selections *)

Definition selectedOrganizationId (organizationId : jsval) : jsval :=
  if negb (truthy organizationId) || strict_eq organizationId (JStr (u "personal"))
     || strict_eq organizationId (JStr (u "all"))
  then JNull else JStr (to_str organizationId).

Definition selectedFolderId (folderId : jsval) : jsval :=
  if negb (truthy folderId) || strict_eq folderId (JStr (u "all")) || strict_eq folderId (JStr (u "none"))
  then JNull else JStr (to_str folderId).

Definition selectedCollectionIds (collectionIds : jsval) : jsval :=
  match collectionIds with JArr (x :: l) => JArr (x :: l) | _ => JNull end.

(** ** Form values *)

Definition formValue (stored typed : jsval) (clean : option (jstr -> jsval)) : jsval :=
  let value := text_of typed in
  let had := text_of stored in
  if str_eqb value had then (if is_undef stored then JStr value else stored)
  else match clean with Some f => f value | None => JStr value end.

Definition trimmedText (value : jstr) : jsval := JStr (trim value).
Definition trimmedOrNull (value : jstr) : jsval := match trim value with [] => JNull | t => JStr t end.

(** [o[k] = formValue(o[k], typed, clean)] *)
Definition write_value (o : list (jstr * jsval)) (k : string) (typed : jsval) (clean : option (jstr -> jsval)) :
  list (jstr * jsval) :=
  obj_set o (u k) (formValue (obj_get o (u k)) typed clean).

Definition updateLoginFields (login : list (jstr * jsval)) (username password totp : jsval) : list (jstr * jsval) :=
  let login := write_value login "username" username (Some trimmedText) in
  let login := write_value login "password" password None in
  write_value login "totp" totp (Some trimmedOrNull).

Definition editedUris (stored typed : jsval) : jsval :=
  let text := text_of typed in
  let kept := List.filter is_object (toList stored) in
  match kept with
  | [] =>
    match trim text with
    | [] => if is_undef stored then JArr [] else stored
    | t => JArr [obj [("match", JNull); ("uri", JStr t)]]
    end
  | first :: rest =>
    if str_eqb text (text_of first.["uri"]) then JArr kept
    else
      match trim text with
      | [] => JArr rest
      | t =>
        let copied := match first with JObj o => o | _ => [] end in
        let m := if is_undef first.["match"] then JNull else first.["match"] in
        JArr (JObj (obj_set (obj_set copied (u "match") m) (u "uri") (JStr t)) :: rest)
      end
  end.

Definition card_keys : list string := ["cardholderName"; "brand"; "number"; "expMonth"; "expYear"; "code"]%string.

Definition write_keys (keys : list string) (o : list (jstr * jsval)) (f : jsval) : list (jstr * jsval) :=
  fold_left (fun o k => write_value o k (jget f (u k)) (Some trimmedText)) keys o.

Definition updateCardFields (card : list (jstr * jsval)) (fields_ : jsval) : list (jstr * jsval) :=
  write_keys card_keys card (jor fields_ (JObj [])).

Definition updateIdentityFields (identity : list (jstr * jsval)) (fields_ : jsval) : list (jstr * jsval) :=
  write_keys identity_keys identity (jor fields_ (JObj [])).

(** ** Custom fields *)

Definition custom_field_payload (field : jsval) : jsval :=
  let type := to_num field.["type"] in
  let type := if num_ltb type (numz 0) || num_ltb (numz 3) type || is_nan type then numz 0 else type in
  let head := [("name", JStr (to_str field.["name"])); ("type", JNum type)]%string in
  let value v := ("value"%string, v) in
  if num_eqb type (numz 3) then
    obj (head ++ value JNull ::
         if is_nullish field.["linkedId"] then [] else [("linkedId"%string, JNum (to_num field.["linkedId"]))])%list
  else if num_eqb type (numz 2) then
    obj (head ++ [value (JStr (if is_true field.["value"] || str_eqb (to_lower (to_str field.["value"])) (u "true")
                               then u "true" else u "false"))])%list
  else obj (head ++ [value (JStr (text_of field.["value"]))])%list.

Definition customFieldsPayload (fields_ : jsval) : list jsval :=
  map custom_field_payload
    (List.filter (fun f => truthy f && negb (str_eqb (trim (text_or_empty f.["name"])) [])) (toList fields_)).

(** ** The payloads *)

(** The form: the arguments of buildCreatePayload() and buildEditPayload(). *)
Record item_form := mkForm {
  form_name : jsval;
  form_username : jsval;
  form_password : jsval;
  form_totp : jsval;
  form_uri : jsval;
  form_notes : jsval;
  form_favorite : jsval;
  form_organizationId : jsval;
  form_folderId : jsval;
  form_collectionIds : jsval;
  form_typeFields : jsval;
  form_customFields : jsval
}.

Definition set_field (k : string) (v : jsval) (o : list (jstr * jsval)) : list (jstr * jsval) := obj_set o (u k) v.

Definition set_custom_fields (customFields : jsval) (o : list (jstr * jsval)) : list (jstr * jsval) :=
  if is_undef customFields then o else set_field "fields" (JArr (customFieldsPayload customFields)) o.

Definition buildCreatePayload (typeCode : jsval) (f : item_form) : jsval :=
  let is_type z := num_eqb (to_num typeCode) (numz z) in
  if is_type 5%Z then JNull
  else
    let org := selectedOrganizationId (form_organizationId f) in
    let payload := fields [("type", JNum (to_num (jor typeCode (jz 1))));
                           ("name", JStr (trim (text_or (form_name f) (u "Untitled"))));
                           ("notes", JStr (text_of (form_notes f)));
                           ("favorite", JBool (truthy (form_favorite f)));
                           ("organizationId", org); ("folderId", selectedFolderId (form_folderId f))]%string in
    let collections := selectedCollectionIds (form_collectionIds f) in
    let payload := if truthy org && truthy collections then set_field "collectionIds" collections payload else payload in
    let payload :=
      if is_type 1%Z then
        let login := updateLoginFields [] (form_username f) (form_password f) (form_totp f) in
        set_field "login" (JObj (set_field "uris" (editedUris JUndef (form_uri f)) login)) payload
      else if is_type 2%Z then set_field "secureNote" (obj [("type", jz 0)]) payload
      else if is_type 3%Z then set_field "card" (JObj (updateCardFields [] (form_typeFields f))) payload
      else if is_type 4%Z then set_field "identity" (JObj (updateIdentityFields [] (form_typeFields f))) payload
      else payload in
    JObj (set_custom_fields (form_customFields f) payload).

(** JSON.parse(JSON.stringify(v)) *)
Definition json_clone (v : jsval) : jsval := default JNull (json_parse (json_text v)).

Definition object_fields (v : jsval) : list (jstr * jsval) := match v with JObj o => o | _ => [] end.

(** A member as the object to write into, made when it is missing. *)
Definition member_object (o : list (jstr * jsval)) (k : string) : list (jstr * jsval) :=
  object_fields (jor (obj_get o (u k)) (JObj [])).

Definition write_type_fields (f : item_form) (o : list (jstr * jsval)) : list (jstr * jsval) :=
  let type := obj_get o (u "type") in
  if strict_eq type (jz 1) || negb (truthy type) then
    let login := updateLoginFields (member_object o "login") (form_username f) (form_password f) (form_totp f) in
    set_field "login" (JObj (set_field "uris" (editedUris (obj_get login (u "uris")) (form_uri f)) login)) o
  else if strict_eq type (jz 3) && truthy (form_typeFields f) then
    set_field "card" (JObj (updateCardFields (member_object o "card") (form_typeFields f))) o
  else if strict_eq type (jz 4) && truthy (form_typeFields f) then
    set_field "identity" (JObj (updateIdentityFields (member_object o "identity") (form_typeFields f))) o
  else o.

Definition write_collections (f : item_form) (o : list (jstr * jsval)) : list (jstr * jsval) :=
  if truthy (obj_get o (u "organizationId")) then
    set_field "collectionIds"
      (jor (selectedCollectionIds (form_collectionIds f)) (jor (obj_get o (u "collectionIds")) (JArr []))) o
  else obj_delete o (u "collectionIds").

Definition buildEditPayload (existingItem : jsval) (f : item_form) : jsval :=
  let raw := existingItem.["rawObject"] in
  if truthy existingItem &&
     (num_eqb (to_num (jor existingItem.["typeCode"] existingItem.["type"])) (numz 5)
      || (truthy raw && num_eqb (to_num raw.["type"]) (numz 5)))
  then JNull
  else
    let o := if truthy existingItem && truthy raw then object_fields (json_clone raw) else [] in
    let o := write_value o "name" (JStr (text_or (form_name f) (u "Untitled"))) (Some trimmedText) in
    let o := write_value o "notes" (form_notes f) None in
    let o := set_field "favorite" (JBool (truthy (form_favorite f))) o in
    let o := set_field "organizationId" (selectedOrganizationId (form_organizationId f)) o in
    let o := set_field "folderId" (selectedFolderId (form_folderId f)) o in
    let o := write_type_fields f (write_collections f o) in
    JObj (set_custom_fields (form_customFields f) o).

(** ** The form of an edit *)

Definition customFieldBooleanValue (value : jsval) : bool := is_true value || str_eqb (to_lower (to_str value)) (u "true").

Definition form_field (field : jsval) : jsval :=
  obj [("name", JText field.["name"]);
       ("value", if num_eqb (to_num field.["type"]) (numz 2) then JBool (customFieldBooleanValue field.["value"])
                 else JStr (text_of field.["value"]));
       ("type", JNum (to_num (jor field.["type"] (jz 0))));
       ("linkedId", if is_nullish field.["linkedId"] then JNull else JNum (to_num field.["linkedId"]));
       ("revealed", JBool false)].

(** What a loop over the length sees of an array or a text. *)
Definition entries_of (v : jsval) : list jsval :=
  match v with JArr l => l | JStr s => map (fun c => JStr [c]) s | _ => [] end.

Definition copyCustomFieldsForForm (fields_ : jsval) : jsval :=
  JArr (map form_field (List.filter truthy (entries_of (jor fields_ (JArr []))))).

(** loadTypeFields(), read back by formTypeFields(). *)
Definition loaded_fields (keys : list string) (v : jsval) : jsval :=
  obj (map (fun k => (k, JStr (if truthy v then text_or_empty v.[k] else []))) keys).

Definition formTypeFields (formTypeCode item : jsval) : jsval :=
  if strict_eq formTypeCode (jz 3) then loaded_fields card_keys item.["card"]
  else if strict_eq formTypeCode (jz 4) then loaded_fields identity_keys item.["identity"]
  else JNull.

Definition startEditItemNow (item detailPassword : jsval) : item_form :=
  let raw := item.["rawObject"] in
  let login := if truthy raw then raw.["login"] else JNull in
  let of_login (k : string) := if truthy login then login.[k] else JStr [] in
  let blank := JStr [] in
  {| form_name := jor item.["name"] blank;
     form_username := jor item.["username"] blank;
     form_password := jor detailPassword (jor (of_login "password") blank);
     form_totp := jor item.["totpKey"] (jor (of_login "totp") blank);
     form_uri := match loginUriEntries login, array_of item.["uris"] with
                 | e :: _, _ => e.["uri"]
                 | [], first :: _ => first
                 | [], [] => blank
                 end;
     form_notes := jor item.["notes"] blank;
     form_favorite := JBool (truthy item.["favorite"]);
     form_organizationId := jor item.["organizationId"] blank;
     form_folderId := jor item.["folderId"] blank;
     form_collectionIds := if truthy raw && truthy raw.["collectionIds"] then raw.["collectionIds"] else JArr [];
     form_typeFields := formTypeFields (jor item.["typeCode"] (jz 1)) item;
     form_customFields := copyCustomFieldsForForm (if truthy raw && truthy raw.["fields"] then raw.["fields"] else item.["fields"]) |}.

(** ** What the properties speak of *)

(** The members an edit may write. *)
Definition edit_keys : list string :=
  ["name"; "notes"; "favorite"; "organizationId"; "folderId"; "collectionIds"; "login"; "card"; "identity"; "fields"]%string.

(** A member the vault writes as a text or null. *)
Definition text_member (o : list (jstr * jsval)) (k : string) : Prop :=
  own_get o (u k) = Some JNull \/ exists s, own_get o (u k) = Some (JStr s).

(** The websites of a login: null, or a list within what the panel reads. *)
Definition uris_stored (l : list (jstr * jsval)) : Prop :=
  own_get l (u "uris") = Some JNull \/ exists uris, own_get l (u "uris") = Some (JArr uris)
    /\ Forall (fun e => is_object e = true) uris /\ length uris <= MAX_LIST_ENTRIES.

(** The members of an item's own type. *)
Inductive type_members (o : list (jstr * jsval)) : Z -> Prop :=
| members_login l : own_get o (u "login") = Some (JObj l) -> Forall (text_member l) ["username"; "password"; "totp"]%string ->
    uris_stored l -> type_members o 1
| members_note : type_members o 2
| members_card c : own_get o (u "card") = Some (JObj c) -> Forall (text_member c) card_keys -> type_members o 3
| members_identity d : own_get o (u "identity") = Some (JObj d) -> Forall (text_member d) identity_keys -> type_members o 4.

(** An id a form keeps: not one of the words for none and for all. *)
Definition real_id (none id : jstr) : Prop := id <> [] /\ id <> none /\ id <> u "all".

Definition in_organization (o : list (jstr * jsval)) : bool := negb (is_nullish (obj_get o (u "organizationId"))).

(** A stored item of any editable type, with every member the vault writes. *)
Record stored_item (o : list (jstr * jsval)) : Prop := {
  stored_plain : plain (JObj o);
  stored_type : exists z, own_get o (u "type") = Some (jz z) /\ type_members o z;
  stored_name : exists s, own_get o (u "name") = Some (JStr s) /\ s <> [];
  stored_notes : text_member o "notes";
  stored_favorite : exists b, own_get o (u "favorite") = Some (JBool b);
  stored_organization : own_get o (u "organizationId") = Some JNull \/
    exists id ids, own_get o (u "organizationId") = Some (JStr id) /\ real_id (u "personal") id
      /\ own_get o (u "collectionIds") = Some (JArr ids);
  stored_folder : own_get o (u "folderId") = Some JNull \/
    exists id, own_get o (u "folderId") = Some (JStr id) /\ real_id (u "none") id
}.

(** The custom fields of an item; none when it has no such member. *)
Definition has_fields (o : list (jstr * jsval)) (fs : list jsval) : Prop :=
  match own_get o (u "fields") with Some (JArr l) => fs = l | Some JNull | None => fs = [] | _ => False end.

(** A custom field as stored, with any further members, and as a save writes it:
    a text or hidden one with its text, a boolean with "true" or "false", a
    linked one with its id. *)
Inductive field_saved : jsval -> jsval -> Prop :=
| saved_text o name z value s : own_get o (u "name") = Some (JStr name) -> trim name <> [] ->
    own_get o (u "type") = Some (jz z) -> (z = 0 \/ z = 1)%Z ->
    own_get o (u "value") = Some value -> (value = JStr s \/ value = JNull /\ s = []) ->
    field_saved (JObj o) (obj [("name", JStr name); ("type", jz z); ("value", JStr s)])
| saved_boolean o name (b : bool) : own_get o (u "name") = Some (JStr name) -> trim name <> [] ->
    own_get o (u "type") = Some (jz 2) -> own_get o (u "value") = Some (JStr (if b then u "true" else u "false")) ->
    field_saved (JObj o) (obj [("name", JStr name); ("type", jz 2); ("value", JStr (if b then u "true" else u "false"))])
| saved_linked o name z : own_get o (u "name") = Some (JStr name) -> trim name <> [] ->
    own_get o (u "type") = Some (jz 3) -> own_get o (u "linkedId") = Some (jz z) ->
    field_saved (JObj o) (obj [("name", JStr name); ("type", jz 3); ("value", JNull); ("linkedId", jz z)]).

(** The stored item as an untouched form saves it. *)
Definition saved_item (o : list (jstr * jsval)) (saved : list jsval) : list (jstr * jsval) :=
  obj_set (if in_organization o then o else obj_delete o (u "collectionIds")) (u "fields") (JArr saved).

(** The example of the properties below. *)
Definition example_login : list (jstr * jsval) :=
  fields [("username", JStr (u " me ")); ("password", JStr (u " hunter2 ")); ("totp", JNull);
          ("uris", JArr [obj [("match", jz 3); ("uri", JStr (u "https://a.example"))];
                         obj [("match", JNull); ("uri", JStr (u "b.example"))]])]%string.
Definition example_fields : list (jstr * jsval) :=
  fields [("name", JStr (u "PIN")); ("value", JStr (u " 12 ")); ("type", jz 1); ("linkedId", JNull)]%string.
Definition example_item : list (jstr * jsval) :=
  fields [("id", JStr (u "7")); ("organizationId", JNull); ("folderId", JNull); ("type", jz 1); ("name", JStr (u "Site"));
          ("notes", JNull); ("favorite", JBool true); ("fields", JArr [JObj example_fields]);
          ("login", JObj example_login); ("collectionIds", JArr [])]%string.
Definition example_detail : jsval := itemDetailFromObject (JObj example_item).
Definition example_form : item_form := startEditItemNow example_detail example_detail.["password"].

(** ** Lemmas *)

Lemma replace_key_id o k v : own_get o k = Some v -> replace_key o k v = o.
Proof.
  induction o as [|[k' v'] t IH]; simpl; [done|]. destruct (str_eqb k' k).
  - intros [= ->]. done.
  - intros H. by rewrite IH.
Qed.

(** Writing back what is there changes nothing. *)
Lemma obj_set_id o k v : own_get o k = Some v -> obj_set o k v = o.
Proof. intros H. unfold obj_set. rewrite H. by apply replace_key_id. Qed.

Lemma obj_delete_id o k : own_get o k = None -> obj_delete o k = o.
Proof.
  unfold obj_delete. induction o as [|[k' v'] t IH]; simpl; [done|]. destruct (str_eqb k' k); [done|].
  intros H. simpl. by rewrite IH.
Qed.

Lemma obj_get_own o k v : own_get o k = Some v -> obj_get o k = v.
Proof. intros H. unfold obj_get. by rewrite H. Qed.

Lemma formValue_same stored typed clean :
  text_of typed = text_of stored -> is_undef stored = false -> formValue stored typed clean = stored.
Proof. intros Ht Hs. unfold formValue. by rewrite Ht, str_eqb_refl, Hs. Qed.

(** Own members of parsed JSON are never undefined. *)
Lemma plain_member o k v : plain (JObj o) -> own_get o k = Some v -> is_undef v = false.
Proof.
  intros Hp Ho. inversion Hp as [| | | | |o' Hc Hf]; subst. clear Hp Hc.
  induction Hf as [|[k' v'] t Hv _ IH]; simpl in *; [done|].
  destruct (str_eqb k' k); [|by apply IH]. injection Ho as ->. by destruct Hv.
Qed.

Lemma plain_inner o k v : plain (JObj o) -> own_get o k = Some v -> plain v.
Proof.
  intros Hp Ho. inversion Hp as [| | | | |o' Hc Hf]; subst. clear Hp Hc.
  induction Hf as [|[k' v'] t Hv _ IH]; simpl in *; [done|].
  destruct (str_eqb k' k); [|by apply IH]. by injection Ho as <-.
Qed.

Lemma text_member_own o k : text_member o k -> exists v, own_get o (u k) = Some v /\ obj_get o (u k) = v /\ is_undef v = false
  /\ text_of v = text_or_empty v.
Proof. intros [H|[t H]]; eexists; (split; [exact H|]); rewrite (obj_get_own _ _ _ H); (split; [done|]); (split; [done|]); [done|by destruct t]. Qed.

Lemma write_value_id o k typed clean : text_member o k -> text_of typed = text_of (obj_get o (u k)) -> write_value o k typed clean = o.
Proof.
  intros (v & Ho & Hg & Hv & _)%text_member_own Ht. unfold write_value. rewrite formValue_same by congruence. rewrite Hg. by apply obj_set_id.
Qed.

Lemma write_keys_id keys o f : Forall (text_member o) keys -> Forall (fun k => text_of f.[k] = text_of (obj_get o (u k))) keys ->
  write_keys keys o f = o.
Proof.
  unfold write_keys. intros H. induction H as [|k keys Hk _ IH]; intros Hf; [done|]. apply Forall_cons in Hf as [Hf1 Hf].
  cbn [fold_left]. rewrite write_value_id by done. by apply IH.
Qed.

Lemma json_clone_plain v : plain v -> json_clone v = v.
Proof. intros H. unfold json_clone. by rewrite json_text_plain, json_roundtrip. Qed.

Lemma write_value_other o k typed clean k' : u k <> k' -> own_get (write_value o k typed clean) k' = own_get o k'.
Proof. intros H. unfold write_value. rewrite own_get_set. by apply str_eqb_neq in H as ->. Qed.

Lemma set_field_other o k v k' : u k <> k' -> own_get (set_field k v o) k' = own_get o k'.
Proof. intros H. unfold set_field. rewrite own_get_set. by apply str_eqb_neq in H as ->. Qed.

Lemma write_keys_other keys o f k' : Forall (fun k => u k <> k') keys -> own_get (write_keys keys o f) k' = own_get o k'.
Proof.
  unfold write_keys. intros H. revert o. induction H as [|k keys Hk _ IH]; intros o; [done|].
  simpl. rewrite IH. by apply write_value_other.
Qed.

Lemma updateLoginFields_id l f : Forall (text_member l) ["username"; "password"; "totp"]%string ->
  text_of (form_username f) = text_of (obj_get l (u "username")) ->
  text_of (form_password f) = text_of (obj_get l (u "password")) ->
  text_of (form_totp f) = text_of (obj_get l (u "totp")) ->
  updateLoginFields l (form_username f) (form_password f) (form_totp f) = l.
Proof.
  rewrite !Forall_cons. intros (K1 & K2 & K3 & _) H1 H2 H3.
  unfold updateLoginFields. rewrite (write_value_id l "username"), (write_value_id l "password") by done.
  by apply write_value_id.
Qed.

Lemma editedUris_id uris typed :
  Forall (fun e => is_object e = true) uris -> length uris <= MAX_LIST_ENTRIES ->
  text_of typed = match uris with e :: _ => text_of e.["uri"] | [] => [] end ->
  editedUris (JArr uris) typed = JArr uris.
Proof.
  intros Ho Hl Ht. unfold editedUris. rewrite toList_small, bfilter_all by done. rewrite Ht.
  destruct uris as [|e r]; [done|]. by rewrite str_eqb_refl.
Qed.

Lemma text_nonempty v s : text_of v = s -> s <> [] -> text_or (JStr s) (u "Untitled") = s.
Proof. intros <- H. unfold text_or. cbn [truthy to_str]. by destruct (text_of v). Qed.

Lemma plain_fields l :
  Forall (fun kv => index_key (u (fst kv)) = None /\ plain (snd kv)) l -> NoDup (map (fun kv => u (fst kv)) l) ->
  plain (JObj (fields l)).
Proof.
  intros H Hn. unfold fields. constructor; [apply canonical_names|].
  - apply Forall_map. eapply Forall_impl; [exact H|]. by intros ? [? _].
  - by rewrite map_map.
  - apply Forall_map. eapply Forall_impl; [exact H|]. by intros ? [_ ?].
Qed.

(** [solve_plain]: a concrete object literal is plain. *)
Ltac solve_plain :=
  cbn [snd];
  first
    [ assumption | apply plain_null | apply plain_bool | apply plain_str | apply plain_int; vm_compute; reflexivity
    | apply plain_arr; repeat (apply Forall_cons_2; [solve_plain|]); by apply Forall_nil_2
    | apply plain_fields;
      [repeat (apply Forall_cons_2; [split; [by vm_compute|solve_plain]|]); by apply Forall_nil_2
      |by apply (bool_decide_eq_true_1 (NoDup _)); vm_compute] ].

Lemma example_plain : plain (JObj example_item).
Proof. assert (plain (JObj example_login)) by (unfold example_login; solve_plain). unfold example_item. solve_plain. Qed.

(** Steps of an edit that leave a member alone. *)
Lemma write_type_fields_other f o k' :
  Forall (fun k => u k <> k') ["login"; "card"; "identity"]%string -> own_get (write_type_fields f o) k' = own_get o k'.
Proof.
  rewrite !Forall_cons. intros (H1 & H2 & H3 & _). unfold write_type_fields.
  repeat case_match; try done; by apply set_field_other.
Qed.

Lemma write_collections_other f o k' : u "collectionIds" <> k' -> own_get (write_collections f o) k' = own_get o k'.
Proof.
  intros H. unfold write_collections. case_match; [by apply set_field_other|].
  rewrite own_get_delete. by apply str_eqb_neq in H as ->.
Qed.

Lemma set_custom_fields_other c o k' : u "fields" <> k' -> own_get (set_custom_fields c o) k' = own_get o k'.
Proof. intros H. unfold set_custom_fields. case_match; [done|]. by apply set_field_other. Qed.

Lemma trim_nonempty s : trim s <> [] -> exists c t, s = c :: t.
Proof. destruct s; [by intros H; exfalso; apply H; vm_compute|eauto]. Qed.

Lemma own_member o k v : own_get o (u k) = Some v -> (JObj o).[k] = v.
Proof. apply obj_get_own. Qed.

(** A stored custom field is shown in the form, kept, and written as it is saved. *)
Lemma form_field_name o name : own_get o (u "name") = Some (JStr name) -> trim name <> [] -> JText (JObj o).["name"] = JStr name.
Proof. intros E Hn. rewrite (own_member _ _ _ E). by destruct (trim_nonempty name Hn) as (c & t & ->). Qed.

Lemma field_saved_form f g : field_saved f g ->
  truthy f = true /\ truthy (form_field f) && negb (str_eqb (trim (text_or_empty (form_field f).["name"])) []) = true
  /\ custom_field_payload (form_field f) = g.
Proof.
  assert (forall o name, own_get o (u "name") = Some (JStr name) -> trim name <> [] ->
    truthy (form_field (JObj o)) && negb (str_eqb (trim (text_or_empty (form_field (JObj o)).["name"])) []) = true) as Hkept.
  { intros o name En Hn. unfold form_field. rewrite (form_field_name o name En Hn). jobj. cbn [truthy andb].
    destruct (trim_nonempty name Hn) as (c & t & ->). by apply negb_true_iff, str_eqb_neq. }
  destruct 1 as [o name z value s0 En Hn Et Hz Ev Hv|o name b En Hn Et Ev|o name z En Hn Et El];
    (split; [done|]; split; [by eapply Hkept|]); unfold custom_field_payload, form_field; rewrite (form_field_name o name En Hn);
    rewrite (own_member _ _ _ Et); rewrite ?(own_member _ _ _ Ev), ?(own_member _ _ _ El); jobj.
  - destruct Hz as [-> | ->], Hv as [->|[-> ->]]; reflexivity.
  - destruct b; reflexivity.
  - reflexivity.
Qed.

Lemma customFields_saved fs saved : length fs <= MAX_LIST_ENTRIES -> Forall2 field_saved fs saved ->
  customFieldsPayload (copyCustomFieldsForForm (JArr fs)) = saved.
Proof.
  intros Hl H. unfold customFieldsPayload, copyCustomFieldsForForm, jor. cbn [truthy entries_of].
  assert (List.filter truthy fs = fs) as ->.
  { apply bfilter_all. clear Hl. induction H as [|f g fs saved Hf _ IH]; constructor; [|done]. by apply (field_saved_form f g). }
  rewrite toList_small by (by rewrite length_map). clear Hl.
  induction H as [|f g fs saved Hf _ IH]; [done|]. destruct (field_saved_form f g Hf) as (_ & Hk & Hp).
  cbn [map List.filter]. rewrite Hk. cbn [map]. by rewrite Hp, IH.
Qed.

(** *** The form of a stored item, untouched *)

Lemma jor_blank v : jor (JText v) (JStr []) = JText v.
Proof. unfold jor, JText. by destruct (text_or_empty v). Qed.

Lemma text_again v : text_or_empty (JText v) = text_or_empty v.
Proof. unfold JText. by destruct (text_or_empty v). Qed.

Lemma text_member_text o k : text_member o k -> text_of (JText (JObj o).[k]) = text_of (obj_get o (u k)).
Proof. intros (v & _ & E & _ & Ht)%text_member_own. change ((JObj o).[k]) with (obj_get o (u k)). by rewrite E, Ht. Qed.

Lemma jget_map (keys : list string) (g : jstr -> jsval) k : k ∈ keys -> (obj (map (fun k => (k, g (u k))) keys)).[k] = g (u k).
Proof.
  unfold obj. induction keys as [|k' keys IH]; [by intros ?%elem_of_nil|]. intros Hk. cbn [map].
  destruct (decide (u k' = u k)) as [E|E].
  - change (fields ((k', g (u k')) :: ?l)) with ((u k', g (u k')) :: fields l). unfold jget, obj_get. cbn [own_get].
    by rewrite E, str_eqb_refl.
  - apply elem_of_cons in Hk as [->|Hk]; [done|]. rewrite jget_fields_next by (by apply str_eqb_neq). by apply IH.
Qed.

(** A form's text for every key, each that of the stored member. *)
Lemma loaded_texts keys (detail : jsval) c : truthy detail = true -> (forall k, k ∈ keys -> detail.[k] = JText (JObj c).[k]) ->
  Forall (text_member c) keys -> Forall (fun k => text_of (loaded_fields keys detail).[k] = text_of (obj_get c (u k))) keys.
Proof.
  intros Ht Hd H. apply Forall_forall. intros k Hk. unfold loaded_fields. rewrite Ht.
  rewrite (jget_map keys (fun x => JStr (text_or_empty (jget detail x)))), Hd by done.
  rewrite text_again. apply text_member_text. rewrite Forall_forall in H. auto.
Qed.

Lemma card_loaded c : Forall (text_member c) card_keys ->
  Forall (fun k => text_of (loaded_fields card_keys (cardDetail (JObj c))).[k] = text_of (obj_get c (u k))) card_keys.
Proof. apply loaded_texts; [done|]. intros k. apply (jget_map card_keys (fun x => JText (jget (JObj c) x))). Qed.

Lemma identity_loaded d : Forall (text_member d) identity_keys ->
  Forall (fun k => text_of (loaded_fields identity_keys (identityDetail (JObj d))).[k] = text_of (obj_get d (u k))) identity_keys.
Proof. apply loaded_texts; [done|]. intros k. apply (jget_map identity_keys (fun x => JText (jget (JObj d) x))). Qed.

Lemma selected_organization o : stored_item o ->
  selectedOrganizationId (jor (nullable_text (obj_get o (u "organizationId"))) (JStr [])) = obj_get o (u "organizationId").
Proof.
  intros H. destruct (stored_organization _ H) as [E|(id & ids & E & (Hne & Hn & Ha) & _)]; rewrite (obj_get_own _ _ _ E); [by vm_compute|].
  unfold nullable_text, jor, selectedOrganizationId. destruct id as [|c t]; [done|]. cbn [truthy to_str negb orb].
  cbn [strict_eq]. by rewrite (proj2 (str_eqb_neq _ _) Hn), (proj2 (str_eqb_neq _ _) Ha).
Qed.

Lemma selected_folder o : stored_item o ->
  selectedFolderId (jor (nullable_text (obj_get o (u "folderId"))) (JStr [])) = obj_get o (u "folderId").
Proof.
  intros H. destruct (stored_folder _ H) as [E|(id & E & (Hne & Hn & Ha))]; rewrite (obj_get_own _ _ _ E); [by vm_compute|].
  unfold nullable_text, jor, selectedFolderId. destruct id as [|c t]; [done|]. cbn [truthy to_str negb orb].
  cbn [strict_eq]. by rewrite (proj2 (str_eqb_neq _ _) Hn), (proj2 (str_eqb_neq _ _) Ha).
Qed.

(** The websites the form shows, and what a save makes of them. *)
Lemma untouched_uris l : uris_stored l ->
  editedUris (obj_get l (u "uris"))
    (match loginUriEntries (JObj l), loginUris (JObj l) with e :: _, _ => e.["uri"] | [], x :: _ => x | [], [] => JStr [] end)
  = obj_get l (u "uris") /\ own_get l (u "uris") = Some (obj_get l (u "uris")).
Proof.
  intros [E|(uris & E & Ho & Hl)]; rewrite (obj_get_own _ _ _ E); (split; [|done]);
    unfold loginUriEntries, loginUris; change (jand (JObj l) ((JObj l).["uris"])) with (obj_get l (u "uris"));
    change ((JObj l).["uris"]) with (obj_get l (u "uris")); rewrite (obj_get_own _ _ _ E); [by vm_compute|].
  rewrite toList_small by done. destruct uris as [|e uris]; [by vm_compute|]. unfold indexed. cbn [length seq zip zip_with List.filter snd].
  apply Forall_cons in Ho as [He Ho]. rewrite He. cbn [map]. jobj. apply editedUris_id; [by constructor|done|done].
Qed.

Section Untouched.
Context (o : list (jstr * jsval)) (stored : stored_item o) (password : jsval).
Notation detail := (itemDetailFromObject (JObj o)).
Notation form := (startEditItemNow detail password).

Lemma stored_type_cases : exists z, own_get o (u "type") = Some (jz z) /\ type_members o z /\ (z = 1 \/ z = 2 \/ z = 3 \/ z = 4)%Z.
Proof. destruct (stored_type _ stored) as (z & E & H). exists z. split; [done|]. split; [done|]. destruct H; auto. Qed.

Lemma not_ssh_type : num_eqb (to_num (JObj o).["type"]) (numz 5) = false.
Proof. destruct stored_type_cases as (z & E & _ & Hz). rewrite (own_member _ _ _ E). by destruct Hz as [->|[->|[->| ->]]]. Qed.

Ltac in_detail := unfold itemDetailFromObject; change (is_object (JObj o)) with true; cbn [negb]; rewrite not_ssh_type; cbv zeta; jobj.

Lemma detail_truthy : truthy detail = true.
Proof. unfold itemDetailFromObject. change (is_object (JObj o)) with true. cbn [negb]. by rewrite not_ssh_type. Qed.
Lemma detail_raw : detail.["rawObject"] = JObj o.
Proof. by in_detail. Qed.
Lemma detail_typeCode z : own_get o (u "type") = Some (jz z) -> (z = 1 \/ z = 2 \/ z = 3 \/ z = 4)%Z -> detail.["typeCode"] = jz z.
Proof. intros E Hz. in_detail. rewrite (own_member _ _ _ E). by destruct Hz as [->|[->|[->| ->]]]. Qed.

Lemma form_name_stored : JStr (text_or (form_name form) (u "Untitled")) = obj_get o (u "name") /\ text_member o "name".
Proof.
  destruct (stored_name _ stored) as (s & E & Hs). split; [|right; eauto]. cbn [form_name startEditItemNow]. in_detail.
  rewrite (own_member _ _ _ E), (obj_get_own _ _ _ E). by destruct s.
Qed.
Lemma form_notes_stored : text_of (form_notes form) = text_of (obj_get o (u "notes")).
Proof. cbn [form_notes startEditItemNow]. in_detail. rewrite jor_blank. apply text_member_text, (stored_notes _ stored). Qed.
Lemma form_favorite_stored : JBool (truthy (form_favorite form)) = obj_get o (u "favorite").
Proof.
  destruct (stored_favorite _ stored) as [b E]. cbn [form_favorite startEditItemNow]. in_detail.
  rewrite (own_member _ _ _ E), (obj_get_own _ _ _ E). by destruct b.
Qed.
Lemma form_organization_stored : selectedOrganizationId (form_organizationId form) = obj_get o (u "organizationId").
Proof. cbn [form_organizationId startEditItemNow]. in_detail. by apply selected_organization. Qed.
Lemma form_folder_stored : selectedFolderId (form_folderId form) = obj_get o (u "folderId").
Proof. cbn [form_folderId startEditItemNow]. in_detail. by apply selected_folder. Qed.

Lemma collections_stored : write_collections form o = if in_organization o then o else obj_delete o (u "collectionIds").
Proof.
  unfold write_collections, in_organization. destruct (stored_organization _ stored) as [E|(id & ids & E & (Hne & _) & Ec)];
    rewrite (obj_get_own _ _ _ E); [done|]. destruct id as [|c t]; [done|]. cbn [truthy is_nullish negb].
  unfold set_field. apply obj_set_id. rewrite Ec, (obj_get_own _ _ _ Ec). f_equal.
  cbn [form_collectionIds startEditItemNow]. rewrite detail_raw. cbn [truthy andb]. rewrite (own_member _ _ _ Ec). by destruct ids.
Qed.

Lemma form_login_stored l : own_get o (u "login") = Some (JObj l) -> Forall (text_member l) ["username"; "password"; "totp"]%string ->
  (password = detail.["password"] \/ password = JStr []) ->
  text_of (form_username form) = text_of (obj_get l (u "username")) /\ text_of (form_password form) = text_of (obj_get l (u "password"))
  /\ text_of (form_totp form) = text_of (obj_get l (u "totp")).
Proof.
  intros E H Hp. rewrite !Forall_cons in H. destruct H as (Hu & Hw & Ht & _).
  assert (jor ((JObj o).["login"]) (JObj []) = JObj l) as El by by rewrite (own_member _ _ _ E).
  assert (forall k, text_member l k -> text_of (jor (JText (JObj l).[k]) (jor ((JObj l).[k]) (JStr []))) = text_of (obj_get l (u k))) as Hor.
  { intros k Hk. pose proof (text_member_text _ _ Hk) as T. destruct Hk as [Ek|[s Ek]]; rewrite (own_member _ _ _ Ek), (obj_get_own _ _ _ Ek) in *; [done|].
    by destruct s. }
  split_and!; cbn [form_username form_password form_totp startEditItemNow]; rewrite ?detail_raw; cbn [truthy]; rewrite ?(own_member _ _ _ E); cbn [truthy].
  - in_detail. rewrite El, jor_blank. by apply text_member_text.
  - assert (detail.["password"] = JText (JObj l).["password"]) as Ed by (in_detail; by rewrite El).
    destruct Hp as [-> | ->]; [rewrite Ed; by apply Hor|]. unfold jor at 1. cbn [truthy].
    destruct Hw as [Ek|[s Ek]]; rewrite (own_member _ _ _ Ek), (obj_get_own _ _ _ Ek); [done|by destruct s].
  - in_detail. rewrite El. by apply Hor.
Qed.

Lemma form_uri_stored l : own_get o (u "login") = Some (JObj l) -> uris_stored l ->
  editedUris (obj_get l (u "uris")) (form_uri form) = obj_get l (u "uris") /\ own_get l (u "uris") = Some (obj_get l (u "uris")).
Proof.
  intros E H. destruct (untouched_uris l H) as [H1 H2]. split; [|done]. rewrite <- H1 at 2. f_equal.
  cbn [form_uri startEditItemNow]. rewrite detail_raw. cbn [truthy]. rewrite (own_member _ _ _ E).
  assert (detail.["uris"] = JArr (loginUris (JObj l))) as -> by (in_detail; by rewrite (own_member _ _ _ E)). done.
Qed.

(** The members of the item's type are written back as they are, whatever else was written before. *)
Lemma type_fields_stored o' : (password = detail.["password"] \/ password = JStr []) ->
  Forall (fun k => own_get o' (u k) = own_get o (u k)) ["type"; "login"; "card"; "identity"]%string ->
  write_type_fields form o' = o'.
Proof.
  intros Hp H. rewrite !Forall_cons in H. destruct H as (Ht & Hl & Hc & Hi & _). unfold write_type_fields.
  destruct stored_type_cases as (z & E & M & Hz). rewrite (obj_get_own o' _ (jz z)) by congruence.
  pose proof (detail_typeCode z E Hz) as Etc.
  assert (form_typeFields form = formTypeFields (jor (jz z) (jz 1)) detail) as -> by (cbn [form_typeFields startEditItemNow]; by rewrite Etc).
  destruct M as [l El Hm Hu| |c Ec Hm|d Ed Hm].
  - change (strict_eq (jz 1) (jz 1) || negb (truthy (jz 1))) with true. cbv iota zeta.
    unfold member_object. rewrite (obj_get_own o' _ (JObj l)) by congruence. change (object_fields (jor (JObj l) (JObj []))) with l.
    destruct (form_login_stored l El Hm Hp) as (F1 & F2 & F3). rewrite updateLoginFields_id by done.
    destruct (form_uri_stored l El Hu) as [-> F5]. unfold set_field. rewrite (obj_set_id l _ _ F5). apply obj_set_id. congruence.
  - done.
  - change (formTypeFields (jor (jz 3) (jz 1)) detail) with (loaded_fields card_keys detail.["card"]).
    change (strict_eq (jz 3) (jz 1) || negb (truthy (jz 3))) with false. change (strict_eq (jz 3) (jz 3)) with true.
    change (truthy (loaded_fields card_keys _)) with true. cbn [andb]. unfold member_object.
    rewrite (obj_get_own o' _ (JObj c)) by congruence. change (object_fields (jor (JObj c) (JObj []))) with c.
    assert (detail.["card"] = cardDetail (JObj c)) as -> by (in_detail; by rewrite (own_member _ _ _ Ec)).
    unfold updateCardFields. rewrite write_keys_id by (try apply card_loaded; done). unfold set_field. apply obj_set_id. congruence.
  - change (formTypeFields (jor (jz 4) (jz 1)) detail) with (loaded_fields identity_keys detail.["identity"]).
    change (strict_eq (jz 4) (jz 1) || negb (truthy (jz 4))) with false. change (strict_eq (jz 4) (jz 3)) with false.
    change (strict_eq (jz 4) (jz 4)) with true. change (truthy (loaded_fields identity_keys _)) with true. cbn [andb]. unfold member_object.
    rewrite (obj_get_own o' _ (JObj d)) by congruence. change (object_fields (jor (JObj d) (JObj []))) with d.
    assert (detail.["identity"] = identityDetail (JObj d)) as -> by (in_detail; by rewrite (own_member _ _ _ Ed)).
    unfold updateIdentityFields. rewrite write_keys_id by (try apply identity_loaded; done). unfold set_field. apply obj_set_id. congruence.
Qed.

Lemma custom_fields_stored fs saved : has_fields o fs -> length fs <= MAX_LIST_ENTRIES -> Forall2 field_saved fs saved ->
  form_customFields form = copyCustomFieldsForForm (JArr fs) /\ customFieldsPayload (form_customFields form) = saved.
Proof.
  intros Hf Hl H. assert (form_customFields form = copyCustomFieldsForForm (JArr fs)) as E; [|split; [done|rewrite E; by apply customFields_saved]].
  cbn [form_customFields startEditItemNow]. rewrite detail_raw. cbn [truthy andb]. change ((JObj o).["fields"]) with (obj_get o (u "fields")).
  assert (truthy (obj_get o (u "fields")) = false -> itemCustomFields (obj_get o (u "fields")) (JObj o) = [] ->
    copyCustomFieldsForForm (if truthy (obj_get o (u "fields")) then obj_get o (u "fields") else detail.["fields"])
    = copyCustomFieldsForForm (JArr [])) as Hnone by (intros ->; in_detail; change ((JObj o).["fields"]) with (obj_get o (u "fields")); by intros ->).
  unfold has_fields in Hf. destruct (own_get o (u "fields")) as [v|] eqn:E.
  - destruct v; try done; subst fs; rewrite (obj_get_own _ _ _ E) in *; [by apply Hnone|done].
  - subst fs. assert (obj_get o (u "fields") = JUndef) as Eu by (unfold obj_get; rewrite E; by vm_compute). rewrite Eu in *. by apply Hnone.
Qed.
End Untouched.

(** ** Properties *)

(** C37. Saving an item without touching the form writes the stored item back. For a
    login, a secure note, a card or an identity, personal or of an
    organization, the payload built from the form as the panel fills it is the
    stored item with every member in place and byte for byte, edge spaces of
    the password, trailing newlines of the notes and every website's match
    rule included, but for two: a personal item's list of collections is
    dropped; and the custom fields are written anew, each with its name, type
    and value (a linked one with the id it links to), an empty list where
    there were none. The item has the members the vault writes, its texts are
    texts or null, and it has no more websites and custom fields than the
    panel reads. *)
Theorem buildEditPayload_unchanged o fs saved password :
  stored_item o -> has_fields o fs -> length fs <= MAX_LIST_ENTRIES -> Forall2 field_saved fs saved ->
  let item := itemDetailFromObject (JObj o) in
  (password = item.["password"] \/ password = JStr []) ->
  buildEditPayload item (startEditItemNow item password) = JObj (saved_item o saved).
Proof.
  intros Hs Hf Hl Hsaved item Hp. subst item. destruct (stored_type_cases o Hs) as (z & Ez & _ & Hz).
  unfold buildEditPayload. cbv zeta. rewrite detail_truthy, detail_raw, (detail_typeCode o Hs z Ez Hz), (own_member _ _ _ Ez) by done.
  assert (num_eqb (to_num (jor (jz z) (jget (itemDetailFromObject (JObj o)) (u "type")))) (numz 5) = false) as ->
    by (by destruct Hz as [->|[->|[->| ->]]]).
  assert (num_eqb (to_num (jz z)) (numz 5) = false) as -> by (by destruct Hz as [->|[->|[->| ->]]]).
  cbn [truthy andb orb]. rewrite json_clone_plain by apply (stored_plain _ Hs). cbn [object_fields].
  destruct (form_name_stored o Hs password) as [-> Hn]. rewrite (write_value_id o "name") by done.
  rewrite (write_value_id o "notes") by (apply (stored_notes _ Hs) || by apply form_notes_stored).
  rewrite form_favorite_stored, form_organization_stored, form_folder_stored by done. unfold set_field.
  destruct (stored_favorite _ Hs) as [b Eb]. rewrite (obj_get_own _ _ _ Eb), (obj_set_id o _ _ Eb).
  assert (forall k, own_get o (u k) <> None -> obj_set o (u k) (obj_get o (u k)) = o) as Hid.
  { intros k Hk. destruct (own_get o (u k)) as [v|] eqn:E; [|done]. apply obj_set_id. by rewrite (obj_get_own _ _ _ E). }
  rewrite !Hid by (first [destruct (stored_organization _ Hs) as [-> |(? & ? & -> & _)] | destruct (stored_folder _ Hs) as [-> |(? & -> & _)]]; done).
  rewrite collections_stored by done. rewrite type_fields_stored; [|done|done|].
  - destruct (custom_fields_stored o Hs password fs saved Hf Hl Hsaved) as [E1 E2]. unfold set_custom_fields, saved_item.
    rewrite E2. by rewrite E1.
  - destruct (in_organization o); [by repeat constructor|]. by repeat (constructor; [by rewrite own_get_delete|]).
Qed.

Lemma buildEditPayload_unchanged_witness :
  buildEditPayload example_detail example_form
  = JObj (saved_item example_item [obj [("name", JStr (u "PIN")); ("type", jz 1); ("value", JStr (u " 12 "))]]).
Proof.
  apply (buildEditPayload_unchanged example_item [JObj example_fields]); [|by vm_compute|apply Nat.leb_le; by vm_compute| |by left].
  - split.
    + exact example_plain.
    + exists 1%Z. split; [by vm_compute|]. apply (members_login _ example_login); [by vm_compute| |].
      * repeat (apply Forall_cons_2; [first [left; by vm_compute | right; eexists; by vm_compute]|]). by apply Forall_nil_2.
      * right. eexists. split; [unfold example_login, fields; cbn [map fst snd]; reflexivity|].
        split; [by repeat constructor|apply Nat.leb_le; by vm_compute].
    + exists (u "Site"). split; [by vm_compute|by vm_compute].
    + left. by vm_compute.
    + exists true. by vm_compute.
    + left. by vm_compute.
    + left. by vm_compute.
  - constructor; [|constructor]. apply (saved_text example_fields (u "PIN") 1 (JStr (u " 12 ")) (u " 12 ")); try (by vm_compute); [by right|by left].
Defined.

(** An edit writes only the members it edits: every other member of the
    stored item, known to the panel or not, is in the payload as it was. *)
Theorem buildEditPayload_frame item o f p k :
  item.["rawObject"] = JObj o -> plain (JObj o) -> buildEditPayload item f = JObj p -> k ∉ map u edit_keys ->
  own_get p k = own_get o k.
Proof.
  intros Hr Hp E Hk. unfold buildEditPayload in E. rewrite Hr in E. cbn [truthy andb] in E.
  destruct (truthy item) eqn:Ei; [|by destruct item; simpl in Ei; try done; unfold jget, inherited in Hr; repeat case_match].
  cbn [andb] in E. destruct (num_eqb _ _ || num_eqb _ _); [done|]. rewrite json_clone_plain in E by done.
  cbn [object_fields] in E. injection E as <-.
  assert (K : Forall (fun k' => u k' <> k) edit_keys).
  { apply Forall_forall. intros k' Hk' <-. apply Hk. by apply list_elem_of_fmap_2. }
  unfold edit_keys in K. rewrite !Forall_cons in K. destruct K as (K1 & K2 & K3 & K4 & K5 & K6 & K7 & K8 & K9 & K10 & _).
  rewrite set_custom_fields_other, write_type_fields_other, write_collections_other by (rewrite ?Forall_cons; auto).
  rewrite !set_field_other by done. by rewrite !write_value_other.
Qed.

Lemma buildEditPayload_frame_witness :
  match buildEditPayload (obj [("rawObject", JObj example_item)]) example_form with
  | JObj p => own_get p (u "id") = Some (JStr (u "7"))
  | _ => False
  end.
Proof.
  destruct (buildEditPayload (obj [("rawObject", JObj example_item)]) example_form) as [| | | | | |p|] eqn:E;
    try (by vm_compute in E).
  rewrite (buildEditPayload_frame (obj [("rawObject", JObj example_item)]) example_item example_form p (u "id")).
  - by vm_compute.
  - by vm_compute.
  - exact example_plain.
  - exact E.
  - by apply (bool_decide_eq_false_1 (u "id" ∈ map u edit_keys)); vm_compute.
Defined.

(** Editing a login's address changes the first website only: the others
    are kept as they are, the first keeps its match rule (a missing one
    becomes null) and every other member, and it goes only when the field is
    cleared. *)
Theorem editedUris_spec o rest typed :
  Forall (fun e => is_object e = true) rest -> (length rest < MAX_LIST_ENTRIES)%nat ->
  text_of typed <> text_of (obj_get o (u "uri")) ->
  (trim (text_of typed) = [] -> editedUris (JArr (JObj o :: rest)) typed = JArr rest) /\
  (trim (text_of typed) <> [] -> exists o', editedUris (JArr (JObj o :: rest)) typed = JArr (JObj o' :: rest) /\
     obj_get o' (u "uri") = JStr (trim (text_of typed)) /\
     obj_get o' (u "match") = (if is_undef (obj_get o (u "match")) then JNull else obj_get o (u "match")) /\
     forall k, k <> u "uri" -> k <> u "match" -> own_get o' k = own_get o k).
Proof.
  intros Hr Hl Hc. unfold editedUris. rewrite toList_small by (simpl; lia).
  rewrite bfilter_all by (by constructor). apply str_eqb_neq in Hc. cbn [jget]. rewrite Hc. split.
  - by intros ->.
  - intros Ht. destruct (trim (text_of typed)) as [|c t]; [done|]. eexists. split; [reflexivity|].
    split_and!.
    + by rewrite obj_get_set_same.
    + rewrite obj_get_set_other by (by vm_compute). by rewrite obj_get_set_same.
    + intros k H1 H2. rewrite !own_get_set. 
      rewrite (proj2 (str_eqb_neq _ _)) by congruence. by rewrite (proj2 (str_eqb_neq _ _)) by congruence.
Qed.

Lemma editedUris_spec_witness :
  editedUris (JArr [obj [("match", jz 3); ("uri", JStr (u "a.example"))]; obj [("uri", JStr (u "b.example"))]])
    (JStr []) = JArr [obj [("uri", JStr (u "b.example"))]].
Proof.
  refine (proj1 (editedUris_spec (fields [("match", jz 3); ("uri", JStr (u "a.example"))]%string)
                   [obj [("uri", JStr (u "b.example"))]] (JStr []) _ _ _) _).
  - by repeat constructor.
  - apply Nat.ltb_lt. by vm_compute.
  - by vm_compute.
  - by vm_compute.
Defined.
