(* ===== verification/Context.v ===== *)
(** * Context matching

    Which vault items belong to the focused window ([src/BitwardenModel.js],
    "Context matching"): the site a window title spells or implies, and the
    score of an item against it. The compositor's window data and the vault's
    rows are values; the context is a record. The regular expressions are the
    source's, in the syntax of Regex. *)

From stdpp Require Import base list numbers strings.
From S2P Require Import Prelude.
From S2P Require Import JsValue.
From S2P Require Import Regex.
From S2P Require Import Vault.
Local Open Scope nat_scope.
Local Open Scope js_scope.

(** ** Tables *)

(** Labels that carry no identity. *)
Definition GENERIC_LABELS : list jstr :=
  [u "www"; u "www2"; u "web"; u "app"; u "apps"; u "mobile"; u "my"; u "secure"; u "login";
   u "signin"; u "sign"; u "logon"; u "auth"; u "oauth"; u "sso"; u "idp"; u "account";
   u "accounts"; u "portal"; u "admin"; u "dash"; u "dashboard"; u "console"; u "home"; u "welcome";
   u "overview"; u "page"; u "site"; u "online"; u "cloud"; u "server"; u "service"; u "services";
   u "api"; u "cdn"; u "static"; u "assets"; u "local"; u "localhost"; u "localdomain";
   u "internal"; u "intranet"; u "lan"; u "dev"; u "test"; u "staging"; u "prod"; u "the"; u "and";
   u "for"; u "with"; u "your"; u "new"; u "inbox"; u "settings"].

(** Accepted host name suffixes. *)
Definition TLDS : list jstr :=
  [u "com"; u "org"; u "net"; u "edu"; u "gov"; u "mil"; u "int"; u "io"; u "co"; u "ai"; u "app";
   u "dev"; u "me"; u "tv"; u "cc"; u "info"; u "biz"; u "name"; u "pro"; u "xyz"; u "online";
   u "site"; u "shop"; u "store"; u "tech"; u "cloud"; u "page"; u "blog"; u "wiki"; u "news";
   u "media"; u "email"; u "chat"; u "social"; u "games"; u "software"; u "systems"; u "network";
   u "digital"; u "finance"; u "bank"; u "money"; u "health"; u "life"; u "world"; u "space";
   u "link"; u "click"; u "one"; u "run"; u "sh"; u "gg"; u "fm"; u "to"; u "ly"; u "us"; u "uk";
   u "ca"; u "au"; u "nz"; u "de"; u "fr"; u "es"; u "it"; u "nl"; u "be"; u "ch"; u "at"; u "se";
   u "no"; u "dk"; u "fi"; u "pl"; u "cz"; u "pt"; u "ie"; u "gr"; u "ru"; u "ua"; u "tr"; u "il";
   u "in"; u "jp"; u "cn"; u "kr"; u "hk"; u "tw"; u "sg"; u "my"; u "id"; u "th"; u "vn"; u "ph";
   u "br"; u "mx"; u "ar"; u "cl"; u "za"; u "eu"; u "local"; u "lan"; u "home"; u "internal";
   u "arpa"; u "localdomain"].

(** Second-level suffixes, only when a third label follows. *)
Definition MULTI_SLD : list jstr :=
  [u "co"; u "com"; u "net"; u "org"; u "ac"; u "gov"; u "edu"; u "or"; u "ne"].

(** Title words that stand for a different registrable name. *)
Definition BRAND_ALIASES : list (jstr * jstr) :=
  [(u "gmail", u "google");
   (u "googlemail", u "google");
   (u "youtube", u "google");
   (u "hotmail", u "microsoft");
   (u "outlook", u "microsoft");
   (u "live", u "microsoft");
   (u "onedrive", u "microsoft");
   (u "office", u "microsoft");
   (u "microsoft365", u "microsoft");
   (u "icloud", u "apple");
   (u "appleid", u "apple");
   (u "fb", u "facebook");
   (u "messenger", u "facebook");
   (u "instagram", u "facebook")].

(** [TABLE[w]] is truthy: also for the names every object inherits. *)
Definition table_has (t : list jstr) (w : jstr) : bool := existsb (str_eqb w) t || truthy (inherited w).

Definition is_some {A} (o : option A) : bool := match o with Some _ => true | None => false end.

(** ** Expressions *)

Definition case_words (l : list string) : regex := RAlts (map (fun w => RLitI (u w)) l).

Definition BROWSER_CLASS_RE : regex := case_words
  ["chrome"; "chromium"; "firefox"; "brave"; "zen"; "vivaldi"; "edge"; "opera"; "epiphany"; "qutebrowser";
   "librewolf"; "floorp"; "waterfox"; "thorium"; "helium"]%string.
Definition TERMINAL_CLASS_RE : regex := case_words
  ["foot"; "alacritty"; "kitty"; "ghostty"; "terminal"; "konsole"; "wezterm"; "xterm"; "rxvt"; "tilix";
   "st-256color"]%string.
Definition SHELL_CLASS_RE : regex :=
  RSeqs [RStart; case_words ["quickshell"; "omarchy"; "omarchy-shell"; "omarchy-menu"]%string; REnd].

Definition is_host_label_unit (c : N) : bool := is_alnum c || (c =? 45)%N.

Definition REMOTE_SESSION_RE : regex :=
  RSeqs [RAlt RStart RSpace; case_words ["ssh"; "mosh"; "sftp"]%string; RPlus RSpace;
         RStar (RSeqs [RLit (u "-"); RPlus (RChar (not_of is_space)); RPlus RSpace]);
         ROpt (RSeqs [RPlus (RChar (fun c => is_alnum c || one_of (u "_.-") c)); RLit (u "@")]);
         RGroup (RSeq (RPlus (RChar is_host_label_unit))
                      (RPlus (RSeq (RLit (u ".")) (RPlus (RChar is_host_label_unit)))))].

Definition dashes (s : string) : regex := RChar (one_of (u s)).

Definition BROWSER_BRAND_RE : regex :=
  RSeqs [RSpaces; dashes "-—–|·•"; RSpaces;
         RAlts [RLitI (u "Google Chrome"); RLitI (u "Chromium"); RLitI (u "Mozilla Firefox");
                RLitI (u "Firefox Developer Edition"); RLitI (u "Firefox");
                RSeq (RLitI (u "Brave")) (ROpt (RSeq RSpaces (RLitI (u "Browser"))));
                RSeq (RLitI (u "Zen")) (ROpt (RSeq RSpaces (RLitI (u "Browser"))));
                RLitI (u "Vivaldi");
                RSeqs [RLitI (u "Microsoft"); RChar (not_of is_line_end); RLitI [8203%N]; RLitI (u "Edge")];
                RLitI (u "Microsoft Edge"); RLitI (u "Edge");
                RSeq (RLitI (u "Opera")) (ROpt (RSeq RSpaces (RLitI (u "GX"))));
                RLitI (u "LibreWolf"); RLitI (u "Floorp"); RLitI (u "Waterfox"); RLitI (u "Thorium");
                RLitI (u "Helium"); RLitI (u "Epiphany"); RLitI (u "GNOME Web"); RLitI (u "qutebrowser")];
         RSpaces; REnd].

Definition TITLE_SEPARATOR_RE : regex :=
  RAlts [RSeqs [RSpaces; dashes "|·•—–"; RSpaces];
         RSeqs [RPlus RSpace; RLit (u "-"); RPlus RSpace];
         RSeqs [RSpaces; RLit (u "::"); RSpaces]].

Definition MAX_TITLE_CHARS : nat := Z.to_nat 512.

(** ** Titles *)

Definition private_marker : regex :=
  RSeqs [RSpaces; ROpt (dashes "-—–|"); RSpaces; RLit (u "(");
         case_words ["Private Browsing"; "Incognito"; "Private"]%string; RLit (u ")"); RSpaces; REnd].
Definition media_marker : regex :=
  RSeqs [RSpaces; dashes "-—–|"; RSpaces; case_words ["Audio playing"; "Muted"; "Playing"; "Paused"]%string;
         RSpaces; REnd].
Definition bracket_counter : regex :=
  RSeqs [RStart; RSpaces; dashes "(["; RSpaces; RPlus RDigit; ROpt (RLit (u "+")); RSpaces; dashes ")]"; RSpaces].
Definition plain_counter : regex :=
  RSeqs [RStart; RSpaces; RPlus RDigit; RSpaces; dashes "-—–|·"; RSpaces].
Definition is_title_junk (c : N) : bool := is_space c || one_of (u ":·—–|-") c.
Definition leading_verb : regex :=
  RSeqs [RStart;
         case_words ["Sign in to"; "Sign into"; "Sign in"; "Sign In"; "Log in to"; "Log into"; "Log in";
                     "Login to"; "Login"; "Welcome to"; "Welcome back to"; "Welcome"; "Authenticate to";
                     "Authenticate"]%string;
         RBoundary; RStar (RChar is_title_junk)].
Definition leading_junk_re : regex := RSeq RStart (RPlus (RChar is_title_junk)).
Definition trailing_junk_re : regex := RSeq (RPlus (RChar is_title_junk)) REnd.

(** Strip browser chrome: brand suffixes, counters, markers, leading verbs. *)
Definition stripTitleNoise (title : jstr) : jstr :=
  let t0 := trim title in
  let t1 := trim (replace_first BROWSER_BRAND_RE [] t0) in
  let t2 := trim (replace_first private_marker [] t1) in
  let t3 := trim (replace_first media_marker [] t2) in
  let t4 := trim (replace_first bracket_counter [] t3) in
  let t5 := trim (replace_first plain_counter [] t4) in
  let t6 := trim (replace_first leading_verb [] t5) in
  trim (replace_first trailing_junk_re [] (replace_first leading_junk_re [] t6)).

Definition is_token_unit (c : N) : bool := is_digit c || is_lower c.

(** Bare alphanumerics, so that "Home Assistant" and "homeassistant" compare equal. *)
Definition squash (v : jsval) : jstr := remove_units (not_of is_token_unit) (to_lower (text_or_empty v)).

Definition splitSegments (title : jstr) : list jstr :=
  List.filter (fun s => negb (str_eqb s [])) (map trim (split_re TITLE_SEPARATOR_RE title)).

Definition token_step (tokens : list jstr) (word : jstr) : list jstr :=
  let w := trim word in
  if (length w <? 3) then tokens
  else if table_has GENERIC_LABELS w || table_has TLDS w then tokens
  else if all_in is_digit w then tokens
  else if table_has tokens w then tokens       (* seen[w] *)
  else tokens ++ [w].

Definition extractTokens (v : jsval) : list jstr :=
  let clean := replace_all (RPlus (RChar (not_of is_token_unit))) (u " ") (to_lower (text_or_empty v)) in
  fold_left token_step (split_re (RPlus RSpace) clean) [].

(** [BRAND_ALIASES[token]], an inherited member as its text. *)
Definition alias_of (token : jstr) : jstr :=
  match find_first (fun p => str_eqb (fst p) token) BRAND_ALIASES with
  | Some p => snd p
  | None => text_or_empty (inherited token)
  end.

Definition alias_step (tokens out : list jstr) (token : jstr) : list jstr :=
  let alias := alias_of token in
  if negb (str_eqb alias []) && negb (existsb (str_eqb alias) tokens) && negb (table_has out alias)
  then out ++ [alias] else out.

Definition aliasesFor (tokens : list jstr) : list jstr := fold_left (alias_step tokens) tokens [].

(** ** Hosts *)

Record host_info := mkHost {
  host : jstr;
  baseDomain : jstr;
  rootName : option jstr;        (** null for an address *)
  isIp : bool
}.

Definition digits_1_3 : regex := RSeq RDigit (RUpTo 2 RDigit).
Definition ip_re : regex :=
  RSeqs [RStart; digits_1_3; RRep 3 (RSeq (RLit (u ".")) digits_1_3); REnd].
Definition isIpAddress (h : jstr) : bool := test ip_re h.

Definition port_re : regex := RSeqs [RLit (u ":"); RPlus RDigit; REnd].
Definition final_dot_re : regex := RSeq (RLit (u ".")) REnd.

Definition parseHost (h0 : jstr) : option host_info :=
  let h := replace_first final_dot_re [] (replace_first port_re [] (to_lower h0)) in
  if str_eqb h [] then None
  else if isIpAddress h then Some (mkHost h h None true)
  else
    let parts := split_char 46 h in
    if (length parts =? 1) then Some (mkHost h h (parts !! 0) false)
    else
      let suffixCount :=
        if (3 <=? length parts) && table_has MULTI_SLD (default [] (parts !! (length parts - 2))) then 2 else 1 in
      let rootIdx := length parts - suffixCount - 1 in
      Some (mkHost h (join (u ".") (drop rootIdx parts)) (parts !! rootIdx) false).

Definition url_host_re : regex :=
  RSeqs [RStart;
         ROpt (RSeqs [RChar (fun c => is_lower c || is_upper c);
                      RStar (RChar (fun c => is_alnum c || one_of (u "+.-") c)); RLit (u "://")]);
         ROpt (RSeq (RPlus (RChar (fun c => negb (one_of (u "/@") c || is_space c)))) (RLit (u "@")));
         RGroup (RSeq (RPlus (RChar (fun c => is_alnum c || one_of (u "._-") c)))
                      (ROpt (RSeq (RLit (u ":")) (RPlus RDigit))))].

Definition parseDomain (urlStr : jsval) : option host_info :=
  if truthy urlStr then
    m ← exec url_host_re (to_lower (trim (to_str urlStr)));
    parseHost (default [] (m_group m))
  else None.

(** The end of a run of labels: a host when its suffix is known and its
    registrable label names something. *)
Definition host_of_group (group : list jstr) : option host_info :=
  if (length group <? 2) then None
  else if negb (table_has TLDS (default [] (last group))) then None
  else
    parsed ← parseHost (join (u ".") group);
    root ← rootName parsed;
    if (length root <? 2) || table_has GENERIC_LABELS root then None else Some parsed.

Fixpoint scan_labels (labels group : list jstr) : option host_info :=
  match labels with
  | [] => host_of_group group
  | label :: t =>
    if negb (str_eqb label []) then scan_labels t (group ++ [label])
    else match host_of_group group with
         | Some p => Some p
         | None => scan_labels t []
         end
  end.

Fixpoint first_host (runs : list jstr) : option host_info :=
  match runs with
  | [] => None
  | run :: t => match scan_labels (split_char 46 run) [] with
                | Some p => Some p
                | None => first_host t
                end
  end.

Definition is_host_unit (c : N) : bool := is_token_unit c || one_of (u ".-") c.

(** A host name in free text. *)
Definition detectDomainInText (text : jstr) : option host_info :=
  first_host (split_re (RPlus (RChar (not_of is_host_unit))) (to_lower text)).

Definition itemDomains (item : jsval) : list host_info :=
  if truthy item then omap parseDomain (toList item.["uris"]) else [].

Definition escapeRegExp (text : jstr) : jstr :=
  concat (map (fun c => if is_syntax_unit c || (c =? 45)%N then [92%N; c] else [c]) text).

(** [new RegExp(escapeRegExp(text), "i")] *)
Definition escaped_re (text : jstr) : regex := RLitI (default [] (literal_pattern (escapeRegExp text))).

Definition hasWholeWord (haystack word : jstr) : bool :=
  if str_eqb haystack [] || str_eqb word [] then false
  else test (RSeqs [RAlt RStart (RChar (not_of is_alnum)); escaped_re word;
                    RAlt REnd (RChar (not_of is_alnum))]) haystack.

(** ** The focused window *)

(** [c.class || c.initialClass || ""] *)
Definition window_class (w : jsval) : jstr := text_or_empty (jor w.["class"] w.["initialClass"]).

Definition focus_rank (w : jsval) : num :=
  let f := w.["focusHistoryID"] in if is_undef f then numz 999 else to_num f.
(** The comparator's difference is not positive. *)
Definition compareFocus (a b : jsval) : bool := negb (num_ltb (numz 0) (num_sub (focus_rank a) (focus_rank b))).

Definition is_client (c : jsval) : bool :=
  truthy c && negb (strict_eq c.["mapped"] (JBool false)) && negb (str_eqb (trim (window_class c)) []).

(** [null] is None. *)
Definition getActiveWindowFromData (windowData : jsval) : option jsval :=
  if negb (truthy windowData) then None
  else match windowData with
  | JArr l =>
    let clients := sort_by compareFocus (List.filter is_client l) in
    match find_first (fun c => negb (test SHELL_CLASS_RE (window_class c))) clients with
    | Some c => Some c
    | None => head clients
    end
  | _ =>
    if negb (truthy windowData.["class"]) && negb (truthy windowData.["initialClass"])
       && negb (truthy windowData.["title"]) then None
    else if test SHELL_CLASS_RE (window_class windowData) then None
    else Some windowData
  end.

Record window_identity := mkIdentity {
  id_cleanTitle : jstr;
  id_detectedDomain : option host_info;
  id_displayName : jstr;
  id_isBrowser : bool;
  id_isTerminal : bool
}.

Definition windowIdentity (cls title : jstr) : option window_identity :=
  let isBrowser := test BROWSER_CLASS_RE cls in
  let isTerminal := test TERMINAL_CLASS_RE cls in
  if isBrowser then
    let browserTitle := stripTitleNoise title in
    let browserDomain := detectDomainInText browserTitle in
    Some (mkIdentity browserTitle browserDomain
            (match browserDomain with Some d => baseDomain d | None => browserTitle end) isBrowser isTerminal)
  else if isTerminal then
    m ← exec REMOTE_SESSION_RE title;
    let remote := default [] (m_group m) in
    Some (mkIdentity remote (parseHost remote) (u "SSH: " ++ remote) isBrowser isTerminal)
  else
    let appTitle := default [] (head (splitSegments (stripTitleNoise title))) in
    Some (mkIdentity appTitle None (if str_eqb appTitle [] then cls else appTitle) isBrowser isTerminal).

Record context := mkContext {
  cls : jstr;
  clsSquashed : jstr;
  title : jstr;
  rawTitle : jstr;
  matchText : jstr;
  squashedTitle : jstr;
  squashedMatchText : jstr;
  segments : list jstr;
  titleTokens : list jstr;
  aliasTokens : list jstr;
  displayName : jstr;
  detectedDomain : option host_info;
  isBrowser : bool;
  isTerminal : bool
}.

(** The title without the host name it spells. *)
Definition match_text (cleanTitle : jstr) (d : option host_info) : jstr :=
  match d with
  | Some d => trim (replace_all (escaped_re (host d)) (u " ") cleanTitle)
  | None => cleanTitle
  end.

(** The tokens, with the host's registrable name added back. *)
Definition raw_tokens (text : jstr) (d : option host_info) : list jstr :=
  let tokens := extractTokens (JStr text) in
  match d ≫= rootName with
  | Some root =>
    if str_eqb root [] || table_has GENERIC_LABELS root || existsb (str_eqb root) tokens then tokens
    else tokens ++ [root]
  | None => tokens
  end.

Definition shorten (s : jstr) : jstr := if (40 <? length s) then take 37 s ++ u "..." else s.

Definition cleanWindowContext (windowData : jsval) : option context :=
  w ← getActiveWindowFromData windowData;
  let cls := take MAX_TITLE_CHARS (trim (to_lower (window_class w))) in
  let title := take MAX_TITLE_CHARS (trim (text_or_empty (jor w.["title"] w.["initialTitle"]))) in
  if str_eqb cls [] && str_eqb title [] then None
  else
    identity ← windowIdentity cls title;
    let cleanTitle := id_cleanTitle identity in
    let d := id_detectedDomain identity in
    if str_eqb cleanTitle [] && str_eqb cls [] then None
    else
      let matchText := match_text cleanTitle d in
      let rawTokens := raw_tokens matchText d in
      let aliasTokens := aliasesFor rawTokens in
      Some {| cls := cls; clsSquashed := squash (JStr cls); title := cleanTitle; rawTitle := title;
              matchText := matchText; squashedTitle := squash (JStr cleanTitle);
              squashedMatchText := squash (JStr matchText); segments := splitSegments cleanTitle;
              titleTokens := rawTokens ++ aliasTokens; aliasTokens := aliasTokens;
              displayName := shorten (id_displayName identity); detectedDomain := d;
              isBrowser := id_isBrowser identity; isTerminal := id_isTerminal identity |}.

(** ** Scores *)

(** Domain to domain: the loop returns at the first equal host. *)
Fixpoint direct_score (domains : list host_info) (d : host_info) (score : nat) : nat :=
  match domains with
  | [] => score
  | domain :: t =>
    if str_eqb (host domain) (host d) then 100
    else direct_score t d (if negb (str_eqb (baseDomain domain) []) && str_eqb (baseDomain domain) (baseDomain d)
                           then Nat.max score 96 else score)
  end.

Definition directDomainScore (domains : list host_info) (d : option host_info) : nat :=
  match d with Some d => direct_score domains d 0 | None => 0 end.

(** One domain of the item against the title. *)
Definition root_score (ctx : context) (domain : host_info) : nat :=
  match rootName domain with
  | None => 0
  | Some root =>
    if (length root <? 3) || table_has GENERIC_LABELS root || table_has TLDS root then 0
    else if hasWholeWord (matchText ctx) root then 90
    else if (5 <=? length root) && includes root (squashedMatchText ctx) then 88
    else if existsb (str_eqb root) (aliasTokens ctx) then 86
    else 0
  end.

Definition domainTitleScore (domains : list host_info) (ctx : context) : nat :=
  fold_left (fun score d => Nat.max score (root_score ctx d)) domains 0.

Definition itemNameTitleScore (nameSquashed : jstr) (ctx : context) : nat :=
  if (length nameSquashed <? 3) then 0
  else
    let score := if existsb (fun s => str_eqb (squash (JStr s)) nameSquashed) (segments ctx) then 92 else 0 in
    if (5 <=? length nameSquashed) && includes nameSquashed (squashedTitle ctx) then Nat.max score 84 else score.

Definition sharedTitleTokenScore (nameTokens titleTokens : list jstr) : nat :=
  let overlap := length (List.filter (fun t => existsb (str_eqb t) titleTokens) nameTokens) in
  if (0 <? overlap) then 78 + Nat.min overlap 3 * 2 else 0.

Definition is_class_root (ctx : context) (d : host_info) : bool :=
  match rootName d with
  | Some root => (3 <=? length root) && negb (table_has GENERIC_LABELS root) && str_eqb root (clsSquashed ctx)
  | None => false
  end.

Definition nativeAppScore (domains : list host_info) (nameSquashed : jstr) (ctx : context) : nat :=
  if isBrowser ctx || isTerminal ctx || (length (clsSquashed ctx) <? 3) then 0
  else
    let score := if existsb (is_class_root ctx) domains then 92 else 0 in
    if (3 <=? length nameSquashed)
       && (str_eqb nameSquashed (clsSquashed ctx) || includes (clsSquashed ctx) nameSquashed
           || includes nameSquashed (clsSquashed ctx))
    then Nat.max score 88 else score.

(** 0 is no match. *)
Definition matchItem (item : jsval) (ctx : context) : nat :=
  if negb (truthy item) then 0
  else if isTerminal ctx && negb (is_some (detectedDomain ctx)) then 0
  else
    let domains := itemDomains item in
    let nameSquashed := squash item.["name"] in
    let nameTokens := extractTokens item.["name"] in
    let score := directDomainScore domains (detectedDomain ctx) in
    if (score =? 100) then score
    else
      Nat.max (Nat.max (Nat.max (Nat.max score (domainTitleScore domains ctx))
                                (itemNameTitleScore nameSquashed ctx))
                       (sharedTitleTokenScore nameTokens (titleTokens ctx)))
              (nativeAppScore domains nameSquashed ctx).

(** [Boolean(item && (Number(item.typeCode) === 1 || ...))] *)
Definition isLoginItem (item : jsval) : bool :=
  truthy item
  && (num_eqb (to_num item.["typeCode"]) (numz 1) || strict_eq item.["type"] (JStr (u "login"))
      || (is_undef item.["typeCode"] && is_undef item.["type"])).

(** ** What the scores mean *)

(** The bands below a domain hit. *)
Definition word_band (n : nat) : Prop := n = 0 \/ 80 <= n <= 92.

Definition same_host (item : jsval) (ctx : context) : Prop :=
  exists d e, detectedDomain ctx = Some d /\ e ∈ itemDomains item /\ host e = host d.
Definition same_site (item : jsval) (ctx : context) : Prop :=
  exists d e, detectedDomain ctx = Some d /\ e ∈ itemDomains item /\ baseDomain e <> [] /\ baseDomain e = baseDomain d.

(** [b] is [h] itself or its end after a dot. *)
Definition domain_suffix (b h : jstr) : Prop := h = b \/ exists a, h = a ++ 46%N :: b.

(** ** Lemmas *)

Lemma existsb_str s l : existsb (str_eqb s) l = true <-> s ∈ l.
Proof.
  rewrite existsb_exists. setoid_rewrite <- list_elem_of_In. split; [|intros; exists s; auto with qsbw].
  by intros (x & H & ->%str_eqb_eq).
Qed.

Lemma direct_score_spec domains d s : (s = 0 \/ s = 96) ->
  direct_score domains d s
  = if existsb (fun e => str_eqb (host e) (host d)) domains then 100
    else if existsb (fun e => negb (str_eqb (baseDomain e) []) && str_eqb (baseDomain e) (baseDomain d)) domains
         then 96 else s.
Proof.
  revert s; induction domains as [|e t IH]; intros s Hs; simpl; [done|].
  destruct (str_eqb (host e) (host d)); [done|]. destruct (negb _ && _); simpl.
  - rewrite IH by (right; lia). destruct (existsb _ t); [done|]. destruct (existsb _ t); destruct Hs; subst; done.
  - by apply IH.
Qed.

Lemma direct_host domains d : existsb (fun e => str_eqb (host e) (host d)) domains = true <->
  exists e, e ∈ domains /\ host e = host d.
Proof.
  rewrite existsb_exists. setoid_rewrite <- list_elem_of_In. by setoid_rewrite str_eqb_eq.
Qed.

Lemma direct_base domains d :
  existsb (fun e => negb (str_eqb (baseDomain e) []) && str_eqb (baseDomain e) (baseDomain d)) domains = true <->
  exists e, e ∈ domains /\ baseDomain e <> [] /\ baseDomain e = baseDomain d.
Proof.
  rewrite existsb_exists. setoid_rewrite <- list_elem_of_In. setoid_rewrite andb_true_iff.
  setoid_rewrite negb_true_iff. setoid_rewrite str_eqb_neq. by setoid_rewrite str_eqb_eq.
Qed.

Lemma word_band_max a b : word_band a -> word_band b -> word_band (Nat.max a b).
Proof. unfold word_band. lia. Qed.

Lemma root_score_band ctx d : word_band (root_score ctx d).
Proof. unfold root_score. split_ifs; unfold word_band; lia. Qed.

Lemma domainTitleScore_band domains ctx : word_band (domainTitleScore domains ctx).
Proof.
  unfold domainTitleScore. assert (word_band 0) as H by (left; done). revert H. generalize 0.
  induction domains as [|d t IH]; intros s H; simpl; [done|]. apply IH, word_band_max; [done|apply root_score_band].
Qed.

Lemma itemNameTitleScore_band n ctx : word_band (itemNameTitleScore n ctx).
Proof. unfold itemNameTitleScore. split_ifs; unfold word_band; lia. Qed.

Lemma sharedTitleTokenScore_band a b : word_band (sharedTitleTokenScore a b).
Proof. unfold sharedTitleTokenScore. cbv zeta. destruct (Nat.ltb_spec 0 (length (List.filter (fun t => existsb (str_eqb t) b) a))); unfold word_band; lia. Qed.

Lemma nativeAppScore_band domains n ctx : word_band (nativeAppScore domains n ctx).
Proof. unfold nativeAppScore. split_ifs; unfold word_band; lia. Qed.

#[export] Hint Resolve word_band_max domainTitleScore_band itemNameTitleScore_band sharedTitleTokenScore_band
  nativeAppScore_band : qsbw.

(** The score is the domain score topped up with a word score. *)
Lemma matchItem_split item ctx : truthy item = true ->
  exists w, word_band w /\
    matchItem item ctx = match detectedDomain ctx with
                         | None => w
                         | Some d => let s := direct_score (itemDomains item) d 0 in
                                     if s =? 100 then 100 else Nat.max s w
                         end.
Proof.
  intros Ht. unfold matchItem. rewrite Ht. cbn [negb].
  set (w := Nat.max (Nat.max (Nat.max (domainTitleScore (itemDomains item) ctx)
     (itemNameTitleScore (squash item.["name"]) ctx)) (sharedTitleTokenScore (extractTokens item.["name"]) (titleTokens ctx)))
     (nativeAppScore (itemDomains item) (squash item.["name"]) ctx)).
  destruct (detectedDomain ctx) as [d|]; cbn [is_some negb directDomainScore].
  - rewrite andb_false_r. exists w. split; [unfold w; auto 6 with qsbw|]. cbv zeta.
    destruct (Nat.eqb_spec (direct_score (itemDomains item) d 0) 100); [done|]. unfold w. lia.
  - rewrite andb_true_r. destruct (isTerminal ctx); [exists 0; split; [by left|done]|].
    exists w. split; [unfold w; auto 6 with qsbw|]. simpl (0 =? 100). unfold w. lia.
Qed.

(** The score of an item says how it matches: 100 exactly when the title
    spelled one of its hosts, 96 exactly when it spelled another host of the
    same site, and otherwise nothing or a word score of at most 92. A page
    that does not spell a site's name never reaches the domain bands. *)
Theorem matchItem_bands item ctx : truthy item = true ->
  (matchItem item ctx = 100 <-> same_host item ctx)
  /\ (matchItem item ctx = 96 <-> ~ same_host item ctx /\ same_site item ctx)
  /\ (matchItem item ctx = 100 \/ matchItem item ctx = 96 \/ word_band (matchItem item ctx)).
Proof.
  intros (w & Hw & E)%(fun H => matchItem_split item ctx H). unfold same_host, same_site. rewrite !E. clear E.
  destruct (detectedDomain ctx) as [d|]; [|unfold word_band in *; split_and!; [| |by auto]; split; try lia; naive_solver].
  cbv zeta. rewrite direct_score_spec by auto.
  destruct (existsb (fun e => str_eqb (host e) (host d)) (itemDomains item)) eqn:E1.
  - apply direct_host in E1 as (e & ? & ?). split_and!; [|split; [done|]|by left]; [by split; [eauto 6|]|].
    intros [[] _]. eauto 6.
  - assert (~ exists d0 e, Some d = Some d0 /\ e ∈ itemDomains item /\ host e = host d0) as N1.
    { intros (d0 & e & [= <-] & ? & ?). apply not_true_iff_false in E1. apply E1, direct_host. eauto. }
    destruct (existsb (fun e => negb _ && _) (itemDomains item)) eqn:E2.
    + apply direct_base in E2 as (e & ? & ? & ?). replace (Nat.max 96 w) with 96 by (unfold word_band in *; lia).
      simpl. split_and!; [by split|by split; eauto 8|by auto].
    + assert (~ exists d0 e, Some d = Some d0 /\ e ∈ itemDomains item /\ baseDomain e <> [] /\ baseDomain e = baseDomain d0) as N2.
      { intros (d0 & e & [= <-] & ? & ? & ?). apply not_true_iff_false in E2. apply E2, direct_base. eauto. }
      simpl. unfold word_band in *. split_and!; [split; [lia|done]|split; [lia|naive_solver]|by auto].
Qed.

Definition example_item : jsval :=
  obj [("name", JStr (u "Work")); ("uris", JArr [JStr (u "https://accounts.example.co.uk/login")])]%string.
Definition example_window : jsval :=
  obj [("class", JStr (u "firefox")); ("title", JStr (u "Sign in - www.example.co.uk - Mozilla Firefox"))]%string.

Lemma matchItem_bands_witness :
  exists ctx, cleanWindowContext example_window = Some ctx /\ matchItem example_item ctx = 96.
Proof.
  eexists. split; [vm_compute; reflexivity|].
  apply (matchItem_bands example_item _ eq_refl). split.
  - intros (d & e & E1 & E2 & E3). vm_compute in E1. injection E1 as <-.
    vm_compute in E2. apply list_elem_of_singleton in E2. subst e. vm_compute in E3. discriminate E3.
  - eexists _, _. split; [vm_compute; reflexivity|]. split; [vm_compute; left|]. split; [vm_compute; discriminate|vm_compute; reflexivity].
Defined.

Lemma dot_eq : u "." = [46%N].
Proof. by vm_compute. Qed.

Lemma port_anchored p e : rmatch port_re p Some = Some e -> rest e = [].
Proof.
  unfold port_re. cbn [RSeqs fold_right]. intros H. change (rmatch (RLit (u ":")) p
    (fun p1 => rmatch (RPlus RDigit) p1 (fun p2 => rmatch (RSeq REnd REps) p2 Some)) = Some e) in H.
  apply rmatch_suffix in H as (q & _ & H). apply rmatch_suffix in H as (q' & _ & H). by eapply rmatch_end.
Qed.

Lemma dot_anchored p e : rmatch final_dot_re p Some = Some e -> rest e = [].
Proof.
  unfold final_dot_re. intros H.
  change (rmatch (RLit (u ".")) p (fun p1 => rmatch REnd p1 Some) = Some e) in H.
  apply rmatch_suffix in H as (q & _ & H). by apply (rmatch_end q).
Qed.

(** The fields of a parsed host: the host is the text without a port or a final
    dot, and its site is a suffix of it at a dot. *)
Lemma parseHost_spec h0 d : parseHost h0 = Some d ->
  (exists t, to_lower h0 = host d ++ t) /\ host d <> [] /\ domain_suffix (baseDomain d) (host d)
  /\ (forall root, rootName d = Some root -> exists t, baseDomain d = root ++ t /\ (t = [] \/ head t = Some 46%N)).
Proof.
  unfold parseHost. destruct (replace_anchored port_re (to_lower h0) port_anchored) as [t1 E1].
  destruct (replace_anchored final_dot_re (replace_first port_re [] (to_lower h0)) dot_anchored) as [t2 E2].
  set (h := replace_first final_dot_re _ _) in *. destruct (str_eqb h []) eqn:Eh; [done|].
  apply str_eqb_neq in Eh. assert (exists t, to_lower h0 = h ++ t) as Hp.
  { exists (t2 ++ t1). by rewrite app_assoc, <- E2. }
  clearbody h. clear E1 E2. destruct (isIpAddress h); [intros [= <-]; by split_and!; [| |left|]|].
  pose proof (join_split_char 46 h) as J. pose proof (split_on_nonempty (N.eqb 46) h) as Hn. fold (split_char 46 h) in Hn.
  destruct (Nat.eqb_spec (length (split_char 46 h)) 1) as [L|L].
  - intros [= <-]. simpl. destruct (split_char 46 h) as [|w [|]] eqn:Ew; [done| |simpl in L; lia].
    simpl in J. subst w. split_and!; [done|done|by left|]. intros root [= <-]. exists []. rewrite app_nil_r. auto.
  - set (i := _ - _ - 1). assert (i < length (split_char 46 h)) as Hi.
    { assert (length (split_char 46 h) <> 0) by (by destruct (split_char 46 h)). unfold i. destruct (_ && _); lia. }
    intros [= <-]. simpl. rewrite dot_eq. clearbody i. split_and!; [done|done| |].
    + destruct i as [|i]; [left; by rewrite drop_0, J|]. right. exists (join [46%N] (take (S i) (split_char 46 h))).
      rewrite <- J at 1. rewrite <- (take_drop (S i) (split_char 46 h)) at 1. rewrite join_app; [done| |].
      * intros E%(f_equal length). rewrite length_take in E. cbn [length] in E. lia.
      * intros E%(f_equal length). rewrite length_drop in E. cbn [length] in E. lia.
    + intros root Hr. rewrite (drop_S _ _ _ Hr). destruct (drop (S i) (split_char 46 h)) as [|w ws].
      * exists []. rewrite app_nil_r. auto.
      * rewrite join_cons by done. eexists. split; [done|]. by right.
Qed.

Lemma scan_labels_spec labels : forall group d, scan_labels labels group = Some d ->
  exists a found b, group ++ labels = a ++ found ++ b /\ host_of_group found = Some d.
Proof.
  induction labels as [|l t IH]; intros group d; simpl.
  - intros H. exists [], group, []. by rewrite !app_nil_r.
  - destruct (str_eqb l []); simpl.
    + destruct (host_of_group group) as [p|] eqn:E.
      * intros [= <-]. by exists [], group, (l :: t).
      * intros (a & f & b & E1 & E2)%IH. exists (group ++ l :: a), f, b. simpl in E1. split; [|done].
        rewrite <- !app_assoc. simpl. by rewrite E1.
    + intros (a & f & b & E1 & E2)%IH. exists a, f, b. rewrite <- E1, <- app_assoc. done.
Qed.

Lemma join_factor (found a b : list jstr) : found <> [] -> factor_of (join [46%N] found) (join [46%N] (a ++ found ++ b)).
Proof.
  intros Hf. eapply (factor_trans _ (join [46%N] (found ++ b))).
  - destruct b as [|x b]; [rewrite app_nil_r; apply factor_refl|]. rewrite join_app by done. apply factor_prefix.
  - destruct a as [|x a]; [apply factor_refl|]. rewrite (join_app _ (x :: a)); [|done|by intros [? ?]%app_eq_nil].
    exists (join [46%N] (x :: a) ++ [46%N]), []. by rewrite app_nil_r, <- !app_assoc.
Qed.

Lemma host_of_group_spec group d : host_of_group group = Some d ->
  2 <= length group /\ table_has TLDS (default [] (last group)) = true /\ parseHost (join (u ".") group) = Some d
  /\ exists root, rootName d = Some root /\ 2 <= length root /\ table_has GENERIC_LABELS root = false.
Proof.
  unfold host_of_group. destruct (Nat.ltb_spec (length group) 2); [done|].
  destruct (table_has TLDS _); [|done]. cbn [negb]. destruct (parseHost _) as [p|]; [|done]. simpl.
  destruct (rootName p) as [root|] eqn:Er; [|done]. simpl.
  destruct (Nat.ltb_spec (length root) 2); [done|]. destruct (table_has GENERIC_LABELS root) eqn:Eg; [done|]. simpl.
  intros [= <-]. split_and!; try done. by exists root.
Qed.

Lemma first_host_spec runs d : first_host runs = Some d ->
  exists run, run ∈ runs /\ scan_labels (split_char 46 run) [] = Some d.
Proof.
  induction runs as [|r t IH]; simpl; [done|]. destruct (scan_labels _ _) eqn:E.
  - intros [= <-]. exists r. split; [by left|done].
  - intros (x & ? & ?)%IH. exists x. split; [by right|done].
Qed.

(** A host detected in a title is spelled there: it comes from a factor of
    the (lower-cased) title that ends in a known suffix, its site is a suffix
    of that host at a dot, and the registrable name the site starts with has at
    least two letters and is no generic label. *)
Theorem detectDomainInText_spelled text d : detectDomainInText text = Some d ->
  factor_of (host d) (to_lower text) /\ host d <> []
  /\ domain_suffix (baseDomain d) (host d)
  /\ (exists labels, 2 <= length labels /\ table_has TLDS (default [] (last labels)) = true
                     /\ parseHost (join (u ".") labels) = Some d)
  /\ exists root t, rootName d = Some root /\ baseDomain d = root ++ t /\ (t = [] \/ head t = Some 46%N)
                    /\ 2 <= length root /\ table_has GENERIC_LABELS root = false.
Proof.
  intros (run & Hrun & H)%first_host_spec. apply scan_labels_spec in H as (a & f & b & E & Hg).
  apply host_of_group_spec in Hg as (Hl & Ht & Hp & root & Hr & Hrl & Hrg).
  pose proof (parseHost_spec _ _ Hp) as ((t & Hh) & Hne & Hs & Hroot).
  destruct (Hroot _ Hr) as (t' & Hb & Ht'). split_and!; [|done|done|by exists f|by exists root, t'].
  apply split_re_factor in Hrun. rewrite dot_eq in Hh.
  assert (factor_of (join [46%N] f) (to_lower text)) as (x & y & Hf).
  { eapply factor_trans; [|exact Hrun]. rewrite <- (join_split_char 46 run). simpl in E. rewrite E.
    apply join_factor. by destruct f; simpl in Hl; [lia|]. }
  rewrite <- to_lower_idemp, Hf. unfold to_lower in *. rewrite !map_app, Hh. exists (map lower_unit x), (t ++ map lower_unit y).
  by rewrite <- !app_assoc.
Qed.

Lemma detectDomainInText_spelled_witness :
  factor_of (u "accounts.github.com") (to_lower (u "v1.2 of config.json at Accounts.GitHub.com.")).
Proof.
  apply (detectDomainInText_spelled (u "v1.2 of config.json at Accounts.GitHub.com.")
           (mkHost (u "accounts.github.com") (u "github.com") (Some (u "github")) false)).
  vm_compute. reflexivity.
Defined.
