(* ===== verification/Associations.v ===== *)
(** * Learned associations and suggestions

    What the user's picks teach ([src/BitwardenModel.js], "Learned
    associations"), the store they are kept in, and the list of suggestions
    for the focused window (findContextualMatches). The store and its entries
    are the objects the panel writes to the file. *)

From stdpp Require Import base list numbers strings sorting.
From Stdlib Require Import Sorting.Sorted.
From S2P Require Import Prelude.
From S2P Require Import JsValue.
From S2P Require Import Json.
From S2P Require Import Accounts.
From S2P Require Import Regex.
From S2P Require Import Vault.
From S2P Require Import Context.
Local Open Scope nat_scope.
Local Open Scope js_scope.

Definition ASSOC_VERSION : Z := 1.
Definition MAX_ASSOC_BYTES : N := 1024 * 1024.
Definition MAX_ASSOC_WRITE_BYTES : N := MAX_ASSOC_BYTES / 2.

(** ** The store *)

Definition associationsFileName (v : jsval) : jstr :=
  let s := accountSlot v in
  if str_eqb s DEFAULT_ACCOUNT_SLOT then u "associations.json" else u "associations@" ++ s ++ u ".json".

Definition store (version : jsval) (keys : list (jstr * jsval)) : jsval :=
  obj [("version", version); ("keys", JObj keys)]%string.

Definition emptyAssociations : jsval := store (jz ASSOC_VERSION) [].

(** The own properties a [for .. in] walks. *)
Definition own_props (v : jsval) : list (jstr * jsval) := match v with JObj o => o | _ => [] end.

(** [/^prefix[body]$/] *)
Definition prefixed (prefix : string) (body : jstr -> bool) (s : jstr) : bool :=
  starts_with (u prefix) s && body (drop (length (u prefix)) s).

Definition is_word_body (s : jstr) : bool := negb (str_eqb s []) && all_in is_token_unit s.
Definition is_domain_body (s : jstr) : bool :=
  match s with c :: t => is_token_unit c && all_in is_host_unit t | [] => false end.

Definition associationKeyWeight (value : jstr) : nat :=
  if (MAX_TITLE_CHARS + 16 <? length value) then 0
  else if prefixed "domain:" is_domain_body value then 3
  else if prefixed "app:" is_word_body value then 2
  else if prefixed "word:" is_word_body value then 1
  else 0.

Definition entry_object (itemId : jstr) (weight : nat) (count : num) (updated : jstr) (pinned : bool) : jsval :=
  JObj (fields ([("itemId", JStr itemId); ("weight", JNum (numn weight)); ("count", JNum count);
                 ("updated", JStr updated)]%string
                ++ (if pinned then [("pinned"%string, JBool true)] else []))).

(** [/[\x00-\x1f\x7f]/.test(s)] *)
Definition has_control (s : jstr) : bool := existsb is_control s.

Definition clean_count (v : jsval) : num :=
  let count := to_num v in
  let count := if negb (is_finite count) || num_ltb count (numz 1) then numz 1 else count in
  num_min (numz 1000000) (num_floor count).

Definition clean_updated (v : jsval) : jstr :=
  match v with
  | JStr s => if (64 <? length s) || has_control s then [] else s
  | _ => []
  end.

Definition cleanAssociationEntry (key : jstr) (entry : jsval) : option jsval :=
  let weight := associationKeyWeight key in
  if (weight =? 0) || negb (is_object entry) || is_array entry then None
  else match entry.["itemId"] with
  | JStr id =>
    if (length id =? 0) || (256 <? length id) || has_control id then None
    else Some (entry_object id weight (clean_count entry.["count"]) (clean_updated entry.["updated"])
                 (is_true entry.["pinned"]))
  | _ => None
  end.

(** The keys that survive, in order. *)
Definition clean_keys (keys : list (jstr * jsval)) : list (jstr * jsval) :=
  fold_left (fun acc kv => match cleanAssociationEntry (fst kv) (snd kv) with
                           | Some e => obj_set acc (fst kv) e
                           | None => acc
                           end) keys [].

(** None: reading [version] of a file that says [null] throws. *)
Definition parseAssociations (raw : jsval) : option jsval :=
  let s := trim (text_or_empty raw) in
  match json_parse (if str_eqb s [] then u "{}" else s) with
  | None => Some emptyAssociations
  | Some JNull => None
  | Some parsed =>
    let version := to_num (if truthy parsed && is_undef parsed.["version"] then jz ASSOC_VERSION else parsed.["version"]) in
    if negb (is_object parsed) || is_array parsed || negb (num_eqb version (numz ASSOC_VERSION))
       || negb (is_object parsed.["keys"]) || is_array parsed.["keys"]
    then Some emptyAssociations
    else Some (store (jz ASSOC_VERSION) (clean_keys (own_props parsed.["keys"])))
  end.

Definition serializeAssociations (assoc : jsval) : jstr :=
  json_text (if truthy assoc && truthy assoc.["keys"] then assoc else emptyAssociations).

(** ** Keys of a window *)

Record context_key := mkKey { key : jstr; weight : nat }.

(** Strongest first: domain, application, title words. *)
Definition contextKeys (c : option context) (withWords : bool) : list context_key :=
  match c with
  | None => []
  | Some ctx =>
    (match detectedDomain ctx with
     | Some d => if negb (str_eqb (baseDomain d) []) && negb (isIp d)
                 then [mkKey (u "domain:" ++ baseDomain d) 3] else []
     | None => []
     end)
    ++ (if negb (isBrowser ctx) && negb (isTerminal ctx) && (3 <=? length (clsSquashed ctx))
        then [mkKey (u "app:" ++ clsSquashed ctx) 2] else [])
    ++ (if withWords then map (fun t => mkKey (u "word:" ++ t) 1) (titleTokens ctx) else [])
  end.

Definition isWordKey (key : jstr) : bool := starts_with (u "word:") key.

(** Whether a stored entry counts for suggestions. *)
Definition associationEntryCounts (key : jstr) (entry : jsval) : bool :=
  truthy entry && (negb (isWordKey key) || is_true entry.["pinned"]).

(** ** Recording *)

(** The entry written for a key whose stored entry is [existing]. *)
Definition recorded_entry (existing itemId timestamp : jsval) (pinned : bool) (w : nat) : jsval :=
  let same := truthy existing && strict_eq existing.["itemId"] itemId in
  let count := if same then num_add (to_num (jor existing.["count"] (jz 0))) (numz 1) else numz 1 in
  entry_object (to_str itemId) w count (text_or_empty timestamp) (pinned || (same && is_true existing.["pinned"])).

Definition record_key (itemId timestamp : jsval) (pinned : bool) (keys : list (jstr * jsval)) (k : context_key)
  : list (jstr * jsval) :=
  obj_set keys (key k) (recorded_entry (obj_get keys (key k)) itemId timestamp pinned (weight k)).

Definition updated_of (entry : jsval) : jstr := text_or_empty (if truthy entry then entry.["updated"] else entry).

(** Newest first; entries with the same stamp by key, last first. *)
Definition newer_first (a b : jstr * jsval) : bool :=
  let ua := updated_of (snd a) in
  let ub := updated_of (snd b) in
  if negb (str_eqb ua ub) then negb (str_ltb ua ub) else negb (str_ltb (fst a) (fst b)).

Definition entry_cost (kv : jstr * jsval) : N := N.of_nat (length (fst kv) + length (json_text (snd kv)) + 4).

(** The longest prefix within the budget. *)
Fixpoint within_budget (used : N) (all : list (jstr * jsval)) : list (jstr * jsval) :=
  match all with
  | [] => []
  | kv :: t => let used' := (used + entry_cost kv)%N in
               if (MAX_ASSOC_WRITE_BYTES <? used')%N then [] else kv :: within_budget used' t
  end.

Definition copy_props (o : list (jstr * jsval)) : list (jstr * jsval) :=
  fold_left (fun acc kv => obj_set acc (fst kv) (snd kv)) o [].

Definition trimAssociations (assoc : jsval) : jsval :=
  let all := sort_by newer_first (own_props assoc.["keys"]) in
  let kept := within_budget 0 all in
  if (length kept =? length all) then assoc else store assoc.["version"] (copy_props kept).

Definition recordAssociation (assoc : jsval) (c : option context) (itemId timestamp : jsval) (pinned : bool) : jsval :=
  let next := copy_props (own_props assoc.["keys"]) in
  let keys := contextKeys c pinned in
  if (length keys =? 0) || negb (truthy itemId) then store (jz ASSOC_VERSION) next
  else trimAssociations (store (jz ASSOC_VERSION) (fold_left (record_key itemId timestamp pinned) keys next)).

Definition forgetAssociation (assoc : jsval) (c : option context) (itemId : jsval) : jsval :=
  let drop_ := map key (contextKeys c true) in
  let dropped (kv : jstr * jsval) :=
    table_has drop_ (fst kv) && (negb (truthy itemId) || strict_eq (snd kv).["itemId"] itemId) in
  store (jz ASSOC_VERSION) (copy_props (List.filter (fun kv => negb (dropped kv)) (own_props assoc.["keys"]))).

(** ** Reading *)

Definition entry_at (assoc : jsval) (k : jstr) : jsval := jget assoc.["keys"] k.

Definition isAssociated (assoc : jsval) (c : option context) (itemId : jsval) : bool :=
  truthy assoc && is_some c && truthy itemId
  && existsb (fun k => let entry := entry_at assoc (key k) in
                       associationEntryCounts (key k) entry && strict_eq entry.["itemId"] itemId)
             (contextKeys c true).

(** The entries of the window's keys that count, with their weights. *)
Definition counted_entries (assoc : jsval) (c : option context) : list (nat * jsval) :=
  List.filter (fun we => truthy (snd we).["itemId"])
    (omap (fun k => let entry := entry_at assoc (key k) in
                    if associationEntryCounts (key k) entry then Some (weight k, entry) else None)
          (contextKeys c true)).

Definition best_rank (best : list (jstr * jsval)) (we : nat * jsval) : list (jstr * jsval) :=
  let '(w, entry) := we in
  let rank := num_add (numn (w * 1000)) (to_num (jor entry.["count"] (jz 1))) in
  let id := to_str entry.["itemId"] in
  let held := obj_get best id in
  if negb (truthy held) || num_ltb (to_num held) rank then obj_set best id (JNum rank) else best.

Record learned_match := mkLearned { itemId : jstr; rank : num }.

(** The comparator's difference is not positive. *)
Definition higher_rank (a b : learned_match) : bool := negb (num_ltb (numz 0) (num_sub (rank b) (rank a))).

Definition learnedMatchIds (assoc : jsval) (c : option context) : list learned_match :=
  if negb (truthy assoc) || negb (truthy assoc.["keys"]) || negb (is_some c) then []
  else sort_by higher_rank
         (map (fun kv => mkLearned (fst kv) (to_num (snd kv))) (fold_left best_rank (counted_entries assoc c) [])).

(** ** Suggestions *)

Definition MATCH_THRESHOLD : nat := 80.
Definition MAX_SUGGESTIONS : nat := 6.

Record learned := mkLearnedSet { matches : list jsval; ids : list (jstr * jsval) }.

(** [byId]: the last row with the id. *)
Definition by_id (items : list jsval) : list (jstr * jsval) :=
  fold_left (fun acc item => if truthy item && truthy item.["id"] then obj_set acc (to_str item.["id"]) item else acc)
            items [].

Definition learned_step (byId : list (jstr * jsval)) (l : learned) (m : learned_match) : learned :=
  let hit := obj_get byId (itemId m) in
  if truthy hit && isLoginItem hit
  then mkLearnedSet (matches l ++ [hit]) (obj_set (ids l) (to_str hit.["id"]) (JBool true))
  else l.

Definition resolveLearnedMatches (items : list jsval) (assoc : jsval) (ctx : context) : learned :=
  fold_left (learned_step (by_id items)) (learnedMatchIds assoc (Some ctx)) (mkLearnedSet [] []).

Record scored := mkScored { s_item : jsval; s_score : nat; s_index : nat }.

Definition scoreContextualMatches (items : list jsval) (ctx : context) : list scored :=
  omap (fun ii => let '(index, item) := ii in
                  if isLoginItem item then
                    let score := matchItem item ctx in
                    if (MATCH_THRESHOLD <=? score) then Some (mkScored item score index) else None
                  else None)
       (indexed items).

(** The comparator's result is not positive. *)
Definition compareContextualMatches (a b : scored) : bool :=
  if negb (s_score b =? s_score a) then (s_score b <? s_score a)
  else if negb (strict_eq (s_item a).["favorite"] (s_item b).["favorite"]) then truthy (s_item a).["favorite"]
  else (s_index a <=? s_index b).

Record suggestions := mkSuggestions {
  found : list jsval;
  found_context : option context;
  learnedIds : list (jstr * jsval)
}.

Definition no_suggestions : suggestions := mkSuggestions [] None [].

(** The loop that appends scored rows until the list is full. *)
Fixpoint fill_matches (cutoff : nat) (ids : list (jstr * jsval)) (l : list scored) (out : list jsval) : list jsval :=
  match l with
  | [] => out
  | s :: t =>
    if (length out <? MAX_SUGGESTIONS) then
      fill_matches cutoff ids t
        (if (cutoff <=? s_score s) && negb (truthy (obj_get ids (to_str (s_item s).["id"]))) then out ++ [s_item s] else out)
    else out
  end.

Definition score_cutoff (best : nat) : nat := if (96 <=? best) then 96 else Nat.max MATCH_THRESHOLD (best - 8).

Definition findContextualMatches (items windowData associations : jsval) : suggestions :=
  match cleanWindowContext windowData, items with
  | Some ctx, JArr l =>
    if (length l =? 0) then no_suggestions
    else if isTerminal ctx && negb (is_some (detectedDomain ctx)) then no_suggestions
    else if str_eqb (title ctx) [] && negb (is_some (detectedDomain ctx)) && str_eqb (clsSquashed ctx) []
    then no_suggestions
    else
      let learned := resolveLearnedMatches l associations ctx in
      let scored := sort_by compareContextualMatches (scoreContextualMatches l ctx) in
      match scored with
      | [] => if (length (matches learned) =? 0) then no_suggestions
              else mkSuggestions (take MAX_SUGGESTIONS (matches learned)) (Some ctx) (ids learned)
      | best :: _ =>
        let cutoff := score_cutoff (s_score best) in
        mkSuggestions (take MAX_SUGGESTIONS (fill_matches cutoff (ids learned) scored (matches learned)))
          (Some ctx) (ids learned)
      end
  | _, _ => no_suggestions
  end.

(** ** Well-formed stores *)

(** An entry as reading the file leaves it. *)
Inductive entry_ok (k : jstr) : jsval -> Prop :=
| entry_ok_intro id n updated pinned :
    associationKeyWeight k <> 0 ->
    id <> [] -> length id <= 256 -> has_control id = false ->
    (1 <= n <= 1000000)%Z ->
    length updated <= 64 -> has_control updated = false ->
    entry_ok k (entry_object id (associationKeyWeight k) (numz n) updated pinned).

Record keys_ok (keys : list (jstr * jsval)) : Prop := {
  ko_names : NoDup (map fst keys);
  ko_entries : Forall (fun kv => entry_ok (fst kv) (snd kv)) keys
}.

(** The keys of the context are ones the file keeps, and few. *)
Definition keys_kept (c : option context) (pinned : bool) : Prop :=
  Forall (fun k => weight k <> 0 /\ associationKeyWeight (key k) = weight k) (contextKeys c pinned)
  /\ length (contextKeys c pinned) <= 1000.

(** A valid id or stamp of a pick. *)
Definition pick_ok (id stamp : jstr) : Prop :=
  id <> [] /\ length id <= 256 /\ has_control id = false /\ length stamp <= 64 /\ has_control stamp = false.

Definition counts_within (n : Z) (keys : list (jstr * jsval)) : Prop :=
  Forall (fun kv => num_leb (to_num (snd kv).["count"]) (numz n) = true) keys.

(** The stores of a running panel. *)
Inductive assoc_reachable : jsval -> Prop :=
| reach_parsed raw s : parseAssociations raw = Some s -> assoc_reachable s
| reach_recorded s c id stamp pinned :
    assoc_reachable s -> keys_kept c pinned -> pick_ok id stamp ->
    counts_within 990000 (own_props s.["keys"]) ->
    assoc_reachable (recordAssociation s c (JStr id) (JStr stamp) pinned)
| reach_forgotten s c id : assoc_reachable s -> assoc_reachable (forgetAssociation s c id).

(** The entries that count. *)
Definition counting (keys : list (jstr * jsval)) : list (jstr * jsval) :=
  List.filter (fun kv => associationEntryCounts (fst kv) (snd kv)) keys.

(** ** Lemmas *)

Lemma prefixed_head p c t body s : u p = c :: t -> prefixed p body s = true -> exists s', s = c :: s'.
Proof.
  unfold prefixed. intros E. rewrite E. intros [H _]%andb_true_iff. apply starts_with_spec in H as [x ->]. simpl. eauto.
Qed.

Lemma index_key_letter c s : is_digit c = false -> index_key (c :: s) = None.
Proof. intros H. unfold index_key, all_in. simpl. by rewrite H. Qed.

Lemma weight_not_index k : associationKeyWeight k <> 0 -> index_key k = None.
Proof.
  unfold associationKeyWeight. destruct (_ <? _); [done|].
  destruct (prefixed "domain:" _ k) eqn:E1; [|destruct (prefixed "app:" _ k) eqn:E2; [|destruct (prefixed "word:" _ k) eqn:E3; [|done]]]; intros _.
  - eapply prefixed_head in E1 as [s' ->]; [|by vm_compute]. by apply index_key_letter.
  - eapply prefixed_head in E2 as [s' ->]; [|by vm_compute]. by apply index_key_letter.
  - eapply prefixed_head in E3 as [s' ->]; [|by vm_compute]. by apply index_key_letter.
Qed.

Lemma entry_object_get id w n upd pin :
  let e := entry_object id w n upd pin in
  e.["itemId"] = JStr id /\ e.["weight"] = JNum (numn w) /\ e.["count"] = JNum n /\ e.["updated"] = JStr upd
  /\ is_true e.["pinned"] = pin.
Proof. unfold entry_object. destruct pin; simpl app; split_and!; jfields; done. Qed.

Lemma clean_count_ok v : exists n, clean_count v = numz n /\ (1 <= n <= 1000000)%Z.
Proof.
  unfold clean_count. set (c := if _ || _ then _ else _).
  assert (exists q, c = Fin q /\ (1 <= Qround.Qfloor q)%Z) as (q & -> & Hq).
  { unfold c. destruct (to_num v) as [|b|q]; simpl; [by exists (QArith_base.inject_Z 1)..|].
    destruct (num_ltb (Fin q) (numz 1)) eqn:E; [by exists (QArith_base.inject_Z 1)|]. exists q. split; [done|].
    apply num_ltb_false in E; [|done..]. unfold num_leb, numz in E. apply QArith_base.Qle_bool_iff in E.
    apply Qround.Qfloor_resp_le in E. by rewrite Qround.Qfloor_Z in E. }
  change (num_floor (Fin q)) with (numz (Qround.Qfloor q)). rewrite num_min_int. eexists. split; [done|lia].
Qed.

Lemma clean_count_int n : (1 <= n <= 1000000)%Z -> clean_count (JNum (numz n)) = numz n.
Proof.
  intros H. unfold clean_count. cbn [to_num]. rewrite num_ltb_int. simpl. destruct (Z.ltb_spec n 1); [lia|].
  rewrite num_floor_int, num_min_int. f_equal. lia.
Qed.

Lemma clean_updated_ok v : length (clean_updated v) <= 64 /\ has_control (clean_updated v) = false.
Proof.
  unfold clean_updated. destruct v; try (split; [simpl; lia|done]).
  destruct (Nat.ltb_spec 64 (length s)); [split; [simpl; lia|done]|]. destruct (has_control s) eqn:E; simpl; [split; [lia|done]|done].
Qed.

Lemma clean_entry_ok k e c : cleanAssociationEntry k e = Some c -> entry_ok k c.
Proof.
  unfold cleanAssociationEntry. destruct (Nat.eqb_spec (associationKeyWeight k) 0); [done|]. simpl.
  destruct (_ || _); [done|]. destruct (e.["itemId"]) as [| | | |id| | |] eqn:Ei; try done.
  destruct (Nat.eqb_spec (length id) 0); [done|]. destruct (Nat.ltb_spec 256 (length id)); [done|].
  destruct (has_control id) eqn:Ec; [done|]. simpl. intros [= <-].
  destruct (clean_count_ok e.["count"]) as (m & -> & Hm). destruct (clean_updated_ok e.["updated"]).
  constructor; auto. intros ->. simpl in *. lia.
Qed.

Lemma clean_entry_id k c : entry_ok k c -> cleanAssociationEntry k c = Some c.
Proof.
  intros [id n upd pin Hw Hi Hl Hc Hn Hu Huc]. unfold cleanAssociationEntry.
  destruct (entry_object_get id (associationKeyWeight k) (numz n) upd pin) as (-> & _ & -> & -> & ->).
  destruct (Nat.eqb_spec (associationKeyWeight k) 0); [done|]. simpl.
  destruct (Nat.eqb_spec (length id) 0) as [E|_]; [by apply nil_length_inv in E|].
  destruct (Nat.ltb_spec 256 (length id)); [lia|]. rewrite Hc. simpl. rewrite clean_count_int by done.
  unfold clean_updated. destruct (Nat.ltb_spec 64 (length upd)); [lia|]. by rewrite Huc.
Qed.

(** Assigning to an object whose keys are words. *)
Lemma obj_set_names o k v : index_key k = None ->
  map fst (obj_set o k v) = if is_some (own_get o k) then map fst o else map fst o ++ [k].
Proof.
  intros Hk. destruct (own_get o k) eqn:E.
  - unfold obj_set. rewrite E. clear E. induction o as [|[k' v'] t IH]; simpl; [done|].
    destruct (str_eqb k' k); simpl; [done|by rewrite IH].
  - rewrite obj_set_fresh by done. by rewrite map_app.
Qed.

Lemma Forall_obj_set (P : jstr * jsval -> Prop) o k v : index_key k = None -> Forall P o -> P (k, v) -> Forall P (obj_set o k v).
Proof.
  intros Hk Ho Hv. destruct (own_get o k) eqn:E.
  - unfold obj_set. rewrite E. clear E. induction Ho as [|[k' v'] t Hx Ht IH]; simpl; [done|].
    destruct (str_eqb k' k) eqn:E; [|by constructor]. apply str_eqb_eq in E as ->. by constructor.
  - rewrite obj_set_fresh by done. apply Forall_app. split; [done|]. by constructor.
Qed.

Lemma keys_ok_set keys k e : keys_ok keys -> entry_ok k e -> keys_ok (obj_set keys k e).
Proof.
  intros [Hn He] Hk. assert (index_key k = None) as Hi by (destruct Hk; by apply weight_not_index).
  split; [|by apply Forall_obj_set].
  rewrite obj_set_names by done. destruct (own_get keys k) eqn:E; [done|]. apply NoDup_app.
  split; [done|split; [|apply NoDup_singleton]]. apply own_get_none in E. by intros x Hx ->%list_elem_of_singleton.
Qed.

Lemma clean_keys_ok keys : keys_ok (clean_keys keys).
Proof.
  unfold clean_keys. assert (keys_ok []) as H by (split; constructor). revert H. generalize (@nil (jstr * jsval)).
  induction keys as [|[k e] t IH]; intros acc H; simpl; [done|]. apply IH.
  destruct (cleanAssociationEntry k e) eqn:E; [|done]. apply keys_ok_set; [done|by eapply clean_entry_ok].
Qed.

Lemma keys_ok_index keys : keys_ok keys -> Forall (fun kv => index_key (fst kv) = None) keys.
Proof. intros [_ H]. eapply Forall_impl; [exact H|]. intros [k e] []. by apply weight_not_index. Qed.

Lemma clean_keys_id keys : keys_ok keys -> clean_keys keys = keys.
Proof.
  intros H. pose proof (keys_ok_index keys H) as Hi. destruct H as [Hn He].
  rewrite <- (fold_obj_set_fresh keys []) at 2 by done. unfold clean_keys. generalize (@nil (jstr * jsval)).
  clear Hn Hi. induction He as [|[k e] t Hk _ IH]; intros acc; simpl in *; [done|].
  rewrite (clean_entry_id k e Hk). apply IH.
Qed.

Lemma copy_props_id keys : keys_ok keys -> copy_props keys = keys.
Proof. intros H. apply (fold_obj_set_fresh keys []); [by apply keys_ok_index|apply H]. Qed.

Lemma keys_ok_sub keys keys' : keys_ok keys -> NoDup (map fst keys') -> (forall kv, kv ∈ keys' -> kv ∈ keys) -> keys_ok keys'.
Proof.
  intros [_ He] Hn Hs. split; [done|]. apply Forall_forall. intros kv Hkv. rewrite Forall_forall in He. auto.
Qed.

Lemma own_props_store v keys : own_props (store v keys).["keys"] = keys.
Proof. unfold store. jobj. done. Qed.

Lemma parse_ok raw s : parseAssociations raw = Some s -> exists keys, s = store (jz ASSOC_VERSION) keys /\ keys_ok keys.
Proof.
  assert (keys_ok []) as He by (split; constructor).
  unfold parseAssociations. cbv zeta. destruct (json_parse _) as [v|]; [|intros [= <-]; by exists []].
  destruct v; try done; match goal with |- (if ?b then _ else _) = _ -> _ => destruct b end;
    intros [= <-]; eexists; (split; [done|]); done || apply clean_keys_ok.
Qed.

(** Serializing a well-formed store. *)
Lemma entry_plain k e : entry_ok k e -> plain e.
Proof.
  intros [id n upd pin Hw Hi Hl Hc Hn Hu Huc]. unfold entry_object. constructor; [by destruct pin; vm_compute|].
  assert (plain (JNum (numn (associationKeyWeight k)))) as Hp.
  { apply plain_int. unfold associationKeyWeight. split_ifs; simpl; lia. }
  assert (plain (jz n)) by (constructor; lia).
  destruct pin; cbn [app fields map fst snd]; repeat (apply Forall_cons; split); try apply Forall_nil;
    cbn [snd]; done || apply plain_str || apply plain_bool.
Qed.

Lemma store_plain keys : keys_ok keys -> plain (store (jz ASSOC_VERSION) keys).
Proof.
  intros H. constructor; [by vm_compute|]. cbn [fields map fst snd]. repeat (apply Forall_cons; split); [| |constructor].
  - by constructor.
  - constructor; [by apply copy_props_id|]. destruct H as [_ H]. eapply Forall_impl; [exact H|].
    intros [k e]. apply entry_plain.
Qed.

Lemma serialize_store v keys : serializeAssociations (store v keys) = json_text (store v keys).
Proof. unfold serializeAssociations. unfold store at 2. jobj. done. Qed.

Lemma trim_braces s : trim (123%N :: s ++ [125%N]) = 123%N :: s ++ [125%N].
Proof.
  unfold trim. change (trim_start (123%N :: s ++ [125%N])) with ((123%N :: s) ++ [125%N]).
  change (123%N :: s ++ [125%N]) with ((123%N :: s) ++ [125%N]). generalize (123%N :: s). intros t.
  induction t as [|c t IH]; [done|]. simpl. rewrite IH. by destruct t.
Qed.

Lemma parse_serialize keys : keys_ok keys ->
  parseAssociations (JStr (serializeAssociations (store (jz ASSOC_VERSION) keys))) = Some (store (jz ASSOC_VERSION) keys).
Proof.
  intros H. pose proof (store_plain keys H) as P. rewrite serialize_store, json_text_plain by done.
  assert (exists c b, text (store (jz ASSOC_VERSION) keys) = c :: b /\ trim (c :: b) = c :: b) as (c & b & Et & Htrim).
  { unfold store, obj. cbn [text]. eexists _, _. split; [reflexivity|apply trim_braces]. }
  unfold parseAssociations, text_or_empty. rewrite Et. cbn [truthy to_str]. rewrite Htrim.
  change (str_eqb (c :: b) []) with false. cbv iota. rewrite <- Et, json_roundtrip by done.
  assert ((store (jz ASSOC_VERSION) keys).["version"] = jz ASSOC_VERSION) as Ev by (unfold store; jobj; done).
  assert ((store (jz ASSOC_VERSION) keys).["keys"] = JObj keys) as Ek by (unfold store; jobj; done).
  cbv zeta. rewrite Ev, Ek. cbn [own_props]. rewrite clean_keys_id by done. done.
Qed.

Lemma elem_of_within used all kv : kv ∈ within_budget used all -> kv ∈ all.
Proof.
  revert used; induction all as [|x t IH]; intros used; simpl; [done|]. destruct (_ <? _)%N; [by intros ?%elem_of_nil|].
  intros [->|H]%elem_of_cons; [by left|right; eauto].
Qed.

Lemma within_prefix used all : exists t, all = within_budget used all ++ t.
Proof.
  revert used; induction all as [|x t IH]; intros used; simpl; [by exists []|]. destruct (_ <? _)%N; [by eexists|].
  destruct (IH (used + entry_cost x)%N) as [t' E]. exists t'. simpl. by rewrite <- E.
Qed.

(** What trimming leaves: the store, or the kept entries in their order. *)
Lemma trim_ok v keys : keys_ok keys ->
  let kept := within_budget 0 (sort_by newer_first keys) in
  trimAssociations (store v keys)
  = store v (if (length kept =? length keys) then keys else kept)
  /\ keys_ok kept.
Proof.
  intros H. cbv zeta. assert (keys_ok (within_budget 0 (sort_by newer_first keys))) as Hk.
  { eapply keys_ok_sub; [exact H| |].
    - destruct (within_prefix 0 (sort_by newer_first keys)) as [t E].
      pose proof (ko_names _ H) as Hn. rewrite <- (sort_by_perm newer_first keys), E, map_app in Hn.
      by apply NoDup_app in Hn as [Hn _].
    - intros kv Hkv. apply elem_of_within in Hkv. by rewrite elem_of_sort_by in Hkv. }
  split; [|done]. unfold trimAssociations. rewrite own_props_store, length_sort_by.
  destruct (_ =? _); [done|]. rewrite copy_props_id by done. unfold store at 1. jobj. done.
Qed.

Lemma own_get_elem (keys : list (jstr * jsval)) k e : own_get keys k = Some e -> (k, e) ∈ keys.
Proof.
  induction keys as [|[k' e'] t IH]; simpl; [done|]. destruct (str_eqb k' k) eqn:E; [|by right; auto].
  apply str_eqb_eq in E as ->. intros [= ->]. by left.
Qed.

(** The entry a pick writes for one key. *)
Lemma recorded_ok keys k w id stamp pinned n :
  keys_ok keys -> counts_within n keys -> (1 <= n < 1000000)%Z -> pick_ok id stamp ->
  w <> 0 -> associationKeyWeight k = w ->
  let e := recorded_entry (obj_get keys k) (JStr id) (JStr stamp) pinned w in
  entry_ok k e /\ num_leb (to_num e.["count"]) (numz (n + 1)) = true.
Proof.
  intros H Hc Hn (Hi & Hl & Hic & Hu & Huc) Hw <-. cbv zeta. unfold recorded_entry.
  set (same := _ && _). set (pin := pinned || _).
  assert (exists m, (if same then num_add (to_num (jor (obj_get keys k).["count"] (jz 0))) (numz 1) else numz 1) = numz m
                    /\ (1 <= m <= n + 1)%Z) as (m & -> & Hm).
  { unfold same. destruct (truthy (obj_get keys k) && _) eqn:E; [|by exists 1%Z; split; [|lia]].
    unfold obj_get in *. destruct (own_get keys k) as [e|] eqn:Eo; cbn [default] in *.
    - apply own_get_elem in Eo. destruct H as [_ He]. unfold counts_within in Hc. rewrite Forall_forall in He, Hc.
      specialize (He _ Eo). specialize (Hc _ Eo). cbn [fst snd] in *. destruct He as [id' m upd pin' ? ? ? ? Hm ? ?].
      cbn [Datatypes.id] in *.
      destruct (entry_object_get id' (associationKeyWeight k) (numz m) upd pin') as (_ & _ & Ec & _).
      unfold Datatypes.id. rewrite Ec in *. cbn [to_num] in Hc. rewrite num_leb_int in Hc. apply Z.leb_le in Hc.
      unfold jor. cbn [truthy]. rewrite num_truthy_int. destruct (Z.eqb_spec m 0); [lia|]. cbn [negb to_num].
      rewrite num_add_int. exists (m + 1)%Z. split; [done|lia].
    - unfold inherited in E. destruct (existsb _ _); simpl in E; [|done]. by destruct k. }
  destruct (entry_object_get id (associationKeyWeight k) (numz m) stamp pin) as (_ & _ & Ec & _).
  cbn [to_str text_or_empty]. replace (text_or_empty (JStr stamp)) with stamp by (by destruct stamp).
  rewrite Ec. cbn [to_num]. rewrite num_leb_int. split; [|apply Z.leb_le; lia]. by constructor; try lia.
Qed.

Lemma record_fold_ok id stamp pinned ks : pick_ok id stamp ->
  Forall (fun k => weight k <> 0 /\ associationKeyWeight (key k) = weight k) ks ->
  forall keys n, keys_ok keys -> counts_within n keys -> (1 <= n)%Z -> (n + Z.of_nat (length ks) < 1000000)%Z ->
  keys_ok (fold_left (record_key (JStr id) (JStr stamp) pinned) ks keys).
Proof.
  intros Hp Hks. induction Hks as [|k ks [Hw Hk] _ IH]; intros keys n Ho Hc Hn Hb; simpl; [done|].
  simpl length in Hb. destruct (recorded_ok keys (key k) (weight k) id stamp pinned n) as [He Hm]; [done..|lia|done|done|done|].
  apply (IH _ (n + 1)%Z); [by apply keys_ok_set| |lia|lia].
  apply Forall_obj_set; [by destruct He; apply weight_not_index| |done].
  eapply Forall_impl; [exact Hc|]. intros kv H. eapply num_leb_trans; [exact H|]. rewrite num_leb_int. apply Z.leb_le. lia.
Qed.

(** Every store of a running panel is well-formed. *)
Lemma assoc_reachable_ok s : assoc_reachable s -> exists keys, s = store (jz ASSOC_VERSION) keys /\ keys_ok keys.
Proof.
  induction 1 as [raw s H|s c id stamp pinned _ (keys & -> & Hk) [Hks Hl] Hp Hc|s c id _ (keys & -> & Hk)].
  - by eapply parse_ok.
  - rewrite own_props_store in Hc. unfold recordAssociation. rewrite own_props_store, copy_props_id by done.
    destruct (_ || _); [by exists keys|].
    set (all := fold_left _ _ _). assert (keys_ok all) as Ha.
    { apply (record_fold_ok id stamp pinned _ Hp Hks keys 990000); [done|done|lia|lia]. }
    destruct (trim_ok (jz ASSOC_VERSION) all Ha) as [-> Hkept]. eexists. split; [done|]. by destruct (_ =? _).
  - unfold forgetAssociation. rewrite own_props_store. eexists. split; [done|]. rewrite copy_props_id.
    all: apply (keys_ok_sub keys); [done|by apply NoDup_map_bfilter, Hk|by intros kv [? _]%elem_of_bfilter].
Qed.

(** The keys of the store are written without escapes. *)
Definition is_bare (c : N) : bool := in_range 35 91 c || in_range 94 126 c.

Lemma bare_escape c : is_bare c = true -> escape_unit c = [c] /\ is_high c = false /\ is_low c = false.
Proof.
  intros H. assert (c < 128)%N as Hc by (unfold is_bare, in_range in H; apply orb_true_iff in H as [H|H]; bool_hyps; lia).
  assert (forallb (fun n => implb (is_bare (N.of_nat n)) (bool_decide (escape_unit (N.of_nat n) = [N.of_nat n])
            && negb (is_high (N.of_nat n)) && negb (is_low (N.of_nat n)))) (seq 0 128) = true) as G by (vm_compute; reflexivity).
  rewrite forallb_forall in G. specialize (G (N.to_nat c)). rewrite N2Nat.id, H in G. simpl in G.
  assert (In (N.to_nat c) (seq 0 128)) as Hin by (apply in_seq; lia). apply G in Hin. by bool_hyps.
Qed.

Lemma bare_quote s : all_in is_bare s = true -> length (quote s) = length s + 2.
Proof.
  intros H. assert (quote_body s = s) as E.
  { induction s as [|c s IH]; [done|]. unfold all_in in *. simpl in *. apply andb_true_iff in H as [Hc Hs].
    apply bare_escape in Hc as (-> & -> & ->). simpl. by rewrite IH. }
  unfold quote. simpl. rewrite length_app, E. simpl. lia.
Qed.

Lemma prefixed_bare p body s : all_in is_bare (u p) = true -> (forall t, body t = true -> all_in is_bare t = true) ->
  prefixed p body s = true -> all_in is_bare s = true.
Proof.
  unfold prefixed. intros Hp Hb [H1 H2]%andb_true_iff. apply starts_with_spec in H1 as [t ->].
  rewrite drop_app_length in H2. unfold all_in in *. rewrite forallb_app, Hp. by apply Hb.
Qed.

Lemma token_bare c : is_token_unit c = true -> is_bare c = true.
Proof.
  unfold is_token_unit, is_bare, is_digit, is_lower, in_range. intros [H|H]%orb_true_iff; bool_hyps; apply orb_true_iff;
    [left|right]; apply andb_true_iff; split; apply N.leb_le; lia.
Qed.

Lemma host_bare c : is_host_unit c = true -> is_bare c = true.
Proof.
  unfold is_host_unit, one_of. intros [H|H]%orb_true_iff; [by apply token_bare|].
  apply existsb_exists in H as (x & Hx & ->%N.eqb_eq). replace (u ".-") with [46; 45]%N in Hx by (by vm_compute).
  by destruct Hx as [<-|[<-|[]]].
Qed.

Lemma weight_bare k : associationKeyWeight k <> 0 -> all_in is_bare k = true.
Proof.
  assert (forall t, is_word_body t = true -> all_in is_bare t = true) as Hw.
  { unfold is_word_body. intros t [_ H]%andb_true_iff. eapply forallb_impl; [apply token_bare|done]. }
  assert (forall t, is_domain_body t = true -> all_in is_bare t = true) as Hd.
  { intros [|c t]; [done|]. simpl. intros [Hc Ht]%andb_true_iff. unfold all_in. simpl. rewrite token_bare by done.
    simpl. eapply forallb_impl; [apply host_bare|done]. }
  unfold associationKeyWeight. destruct (_ <? _); [done|].
  destruct (prefixed "domain:" _ k) eqn:E1; [intros _; eapply prefixed_bare; [|exact Hd|exact E1]; by vm_compute|].
  destruct (prefixed "app:" _ k) eqn:E2; [intros _; eapply prefixed_bare; [|exact Hw|exact E2]; by vm_compute|].
  destruct (prefixed "word:" _ k) eqn:E3; [intros _; eapply prefixed_bare; [|exact Hw|exact E3]; by vm_compute|done].
Qed.

Definition total_cost (l : list (jstr * jsval)) : N := fold_right N.add 0%N (map entry_cost l).

Lemma total_cost_perm a b : a ≡ₚ b -> total_cost a = total_cost b.
Proof. unfold total_cost. induction 1; simpl; lia. Qed.

Lemma within_cost all : forall used, (used <= MAX_ASSOC_WRITE_BYTES)%N ->
  (used + total_cost (within_budget used all) <= MAX_ASSOC_WRITE_BYTES)%N.
Proof.
  induction all as [|x t IH]; intros used H; simpl; [unfold total_cost; simpl; lia|].
  destruct (N.ltb_spec MAX_ASSOC_WRITE_BYTES (used + entry_cost x)); [unfold total_cost; simpl; lia|].
  specialize (IH (used + entry_cost x)%N ltac:(lia)). unfold total_cost in *. simpl. lia.
Qed.

(** Cut off where the next entry does not fit. *)
Lemma within_maximal all : forall used t, all = within_budget used all ++ t ->
  match t with
  | [] => True
  | kv :: _ => (MAX_ASSOC_WRITE_BYTES < used + total_cost (within_budget used all) + entry_cost kv)%N
  end.
Proof.
  induction all as [|x all IH]; intros used t; simpl; [by intros <-|].
  destruct (N.ltb_spec MAX_ASSOC_WRITE_BYTES (used + entry_cost x)); simpl.
  - intros <-. unfold total_cost. simpl. lia.
  - intros [= E]. specialize (IH _ _ E). destruct t; [done|]. unfold total_cost in *. simpl. lia.
Qed.

(** A written store is its entries and a frame of 23 units. *)
Lemma length_join_comma l : length (join (u ",") l) <= list_sum (map (fun x => length x + 1) l).
Proof.
  rewrite u_comma. induction l as [|x l IH]; [simpl; lia|]. destruct l as [|y l]; [simpl; lia|].
  rewrite join_cons by done. rewrite !length_app. simpl in *. lia.
Qed.

Lemma length_store keys : keys_ok keys ->
  (N.of_nat (length (serializeAssociations (store (jz ASSOC_VERSION) keys))) <= 23 + total_cost keys)%N.
Proof.
  intros H. rewrite serialize_store, json_text_plain by (by apply store_plain).
  assert (Forall (fun kv => plain (snd kv)) keys) as Hp.
  { destruct H as [_ H]. eapply Forall_impl; [exact H|]. intros [k e]. apply entry_plain. }
  unfold store, obj. cbn [fields map fst snd text serializable concat app join jz is_finite numz].
  rewrite members_text by done. cbn [length]. repeat (rewrite length_app; cbn [length]).
  change (length (quote (u "version"))) with 9. change (length (quote (u "keys"))) with 6.
  change (length (if is_finite (numz ASSOC_VERSION) then _ else _)) with 1. change (length (u ",")) with 1.
  match goal with |- context [join _ ?l] => pose proof (length_join_comma l) as Hj end.
  assert (N.of_nat (list_sum (map (fun x => length x + 1) (map (fun kv => quote (fst kv) ++ 58%N :: text (snd kv)) keys)))
          = total_cost keys) as Hc; [|lia].
  clear Hj Hp. destruct H as [_ He]. unfold total_cost. induction He as [|[k e] t Hk _ IH]; [done|].
  cbn [map fold_right list_sum]. rewrite <- IH, Nat2N.inj_add. f_equal. unfold entry_cost. f_equal. cbn [fst snd] in *.
  rewrite json_text_plain by (by eapply entry_plain). rewrite !length_app. cbn [length].
  rewrite bare_quote; [lia|]. destruct Hk. by apply weight_bare.
Qed.

(** The order entries are kept in. *)
Lemma str_ltb_asym a b : str_ltb a b = true -> str_ltb b a = false.
Proof.
  intros H. destruct (str_ltb b a) eqn:G; [|done]. pose proof (str_ltb_trans _ _ _ H G) as F. by rewrite str_ltb_irrefl in F.
Qed.

Lemma newer_first_spec a b : newer_first a b = true <->
  str_ltb (updated_of (snd b)) (updated_of (snd a)) = true
  \/ (updated_of (snd a) = updated_of (snd b) /\ (str_ltb (fst b) (fst a) = true \/ fst a = fst b)).
Proof.
  unfold newer_first. generalize (updated_of (snd a)) (updated_of (snd b)) (fst a) (fst b). clear. intros ua ub ka kb.
  assert (forall x y, negb (str_ltb x y) = true <-> str_ltb y x = true \/ x = y) as G.
  { intros x y. rewrite negb_true_iff. destruct (str_ltb_cases x y) as [H|[->|H]].
    - rewrite H, (str_ltb_asym _ _ H). split; [done|]. intros [?| ->]; [done|by rewrite str_ltb_irrefl in H].
    - rewrite str_ltb_irrefl. naive_solver.
    - rewrite H, (str_ltb_asym _ _ H). naive_solver. }
  destruct (str_eqb ua ub) eqn:E; cbn [negb]; rewrite G.
  - apply str_eqb_eq in E as ->. rewrite str_ltb_irrefl. naive_solver.
  - apply str_eqb_neq in E. naive_solver.
Qed.

Lemma sorted_newest l : in_order newer_first (sort_by newer_first l).
Proof.
  apply (sort_by_in_order newer_first (fun _ => True)); [| |by apply Forall_true].
  - intros a b _ _. rewrite !newer_first_spec.
    destruct (str_ltb_cases (updated_of a.2) (updated_of b.2)) as [?|[?|?]]; [by auto| |by auto].
    destruct (str_ltb_cases a.1 b.1) as [?|[?|?]]; auto 6.
  - intros a b c _ _ _. rewrite !newer_first_spec.
    intros [H1|[E1 H1]] [H2|[E2 H2]]; [left; by eapply str_ltb_trans|left; congruence|left; congruence|right].
    split; [congruence|]. destruct H1 as [H1| ->], H2 as [H2| <-]; auto. left. by eapply str_ltb_trans.
Qed.

(** Context keys name no inherited member. *)
Lemma contextKeys_prefix c pinned k : k ∈ contextKeys c pinned ->
  exists p t, key k = u p ++ t /\ (p = "domain:" \/ p = "app:" \/ (p = "word:" /\ pinned = true))%string.
Proof.
  unfold contextKeys. destruct c as [ctx|]; [|by intros ?%elem_of_nil]. rewrite !elem_of_app. intros [H|[H|H]].
  - destruct (detectedDomain ctx); [|by apply elem_of_nil in H]. destruct (_ && _); [|by apply elem_of_nil in H].
    apply list_elem_of_singleton in H as ->. simpl. eauto 6.
  - destruct (_ && _); [|by apply elem_of_nil in H]. apply list_elem_of_singleton in H as ->. simpl. eauto 7.
  - destruct pinned; [|by apply elem_of_nil in H]. apply list_elem_of_fmap in H as (t & -> & _). simpl. eauto 8.
Qed.

Lemma contextKeys_inherited c pinned k : k ∈ contextKeys c pinned -> inherited (key k) = JUndef.
Proof. intros (p & t & -> & [-> | [-> | [-> _]]])%contextKeys_prefix; by vm_compute. Qed.

Lemma contextKeys_words c k : k ∈ contextKeys c false -> isWordKey (key k) = false.
Proof. intros (p & t & -> & [-> | [-> | [_ ?]]])%contextKeys_prefix; [by vm_compute..|done]. Qed.

Lemma contextKeys_all c pinned k : k ∈ contextKeys c pinned -> k ∈ contextKeys c true.
Proof.
  unfold contextKeys. destruct c; [|done]. rewrite !elem_of_app. intros [H|[H|H]]; auto.
  destruct pinned; [auto|by apply elem_of_nil in H].
Qed.

Lemma entry_at_store v keys k : entry_at (store v keys) k = obj_get keys k.
Proof. unfold entry_at, store. jobj. done. Qed.

Lemma own_get_bfilter (p : jstr * jsval -> bool) keys k : NoDup (map fst keys) ->
  own_get (List.filter p keys) k = match own_get keys k with Some e => if p (k, e) then Some e else None | None => None end.
Proof.
  induction keys as [|[k' e] t IH]; simpl; [done|]. rewrite NoDup_cons. intros [Hk Ht]. destruct (str_eqb k' k) eqn:E.
  - apply str_eqb_eq in E as ->. destruct (p (k, e)) eqn:Ep; simpl; [by rewrite str_eqb_refl|].
    apply own_get_none. intros (x & -> & Hx)%list_elem_of_fmap. apply elem_of_bfilter in Hx as [Hx _].
    apply Hk, list_elem_of_fmap. eauto.
  - destruct (p (k', e)); simpl; [by rewrite E, IH|by apply IH].
Qed.

Lemma elem_of_obj_set o k v kv : kv ∈ obj_set o k v -> kv ∈ o \/ (fst kv = k /\ snd kv = v).
Proof.
  unfold obj_set. destruct (own_get o k).
  - induction o as [|[k' v'] t IH]; simpl; [auto|]. destruct (str_eqb k' k) eqn:E.
    + apply str_eqb_eq in E as ->. intros [->|H]%elem_of_cons; [by right|left; by right].
    + intros [->|H]%elem_of_cons; [left; by left|]. destruct (IH H); [left; by right|auto].
  - induction o as [|[k' v'] t IH]; simpl; [intros ->%list_elem_of_singleton; by right|].
    destruct (key_before k k'); intros [->|H]%elem_of_cons; [by right|by left|left; by left|].
    destruct (IH H); [left; by right|auto].
Qed.

Lemma record_fold_elem id stamp pinned ks : forall keys kv,
  kv ∈ fold_left (record_key id stamp pinned) ks keys -> kv ∈ keys \/ exists k, k ∈ ks /\ fst kv = key k.
Proof.
  induction ks as [|k ks IH]; intros keys kv; simpl; [auto|]. intros [H|(k' & ? & ?)]%IH.
  - apply elem_of_obj_set in H as [?|[? _]]; [auto|]. right. exists k. split; [by left|done].
  - right. exists k'. split; [by right|done].
Qed.

Lemma copy_props_sub o kv : kv ∈ copy_props o -> kv ∈ o.
Proof.
  unfold copy_props. assert (forall acc, kv ∈ fold_left (fun acc kv => obj_set acc (fst kv) (snd kv)) o acc -> kv ∈ acc \/ kv ∈ o) as G.
  { induction o as [|x o IH]; intros acc; simpl; [auto|]. intros [[H|[E1 E2]]%elem_of_obj_set|H]%IH; [auto| |].
    - right. replace kv with x; [by left|]. destruct kv, x. simpl in *. congruence.
    - right. by right. }
  intros [?%elem_of_nil|?]%G; done.
Qed.

Lemma trim_sub v keys kv : kv ∈ own_props (trimAssociations (store v keys)).["keys"] -> kv ∈ keys.
Proof.
  unfold trimAssociations. rewrite own_props_store. destruct (_ =? _); rewrite own_props_store; [done|].
  intros Hk%copy_props_sub%elem_of_within. by rewrite elem_of_sort_by in Hk.
Qed.

Lemma best_rank_ids l : forall best kv, kv ∈ fold_left best_rank l best ->
  fst kv ∈ map fst best \/ exists we, we ∈ l /\ fst kv = to_str (snd we).["itemId"].
Proof.
  induction l as [|[w e] l IH]; intros best kv; simpl; [intros H; left; apply list_elem_of_fmap; eauto|].
  intros [H|(we & ? & ?)]%IH; [|right; exists we; split; [by right|done]].
  unfold best_rank in H. destruct (_ || _); [|by left]. apply list_elem_of_fmap in H as (x & E & Hx).
  apply elem_of_obj_set in Hx as [Hx|[Hx _]]; [left; apply list_elem_of_fmap; eauto|].
  right. exists (w, e). split; [by left|]. cbn [snd]. congruence.
Qed.

(** What a key holds after a pick: an entry of that item, pinned if the pick was. *)
Definition learned_as (id : jstr) (pinned : bool) (e : jsval) : Prop :=
  truthy e = true /\ e.["itemId"] = JStr id /\ (pinned = true -> is_true e.["pinned"] = true).

Lemma record_fold_get id stamp pinned ks : forall keys k,
  (k ∈ map key ks \/ exists e, own_get keys k = Some e /\ learned_as id pinned e) ->
  exists e, own_get (fold_left (record_key (JStr id) stamp pinned) ks keys) k = Some e /\ learned_as id pinned e.
Proof.
  induction ks as [|k0 ks IH]; intros keys k; simpl; [by intros [?%elem_of_nil|?]|].
  intros H. apply IH. destruct (decide (k = key k0)) as [->|Hne].
  - right. unfold record_key. rewrite own_get_set, str_eqb_refl. eexists. split; [done|].
    unfold recorded_entry. match goal with |- learned_as _ _ (entry_object ?a ?b ?c ?d ?e) =>
      destruct (entry_object_get a b c d e) as (E1 & _ & _ & _ & E2) end.
    split_and!; [done|done|]. rewrite E2. by intros ->.
  - destruct H as [[->|?]%elem_of_cons|(e & He & ?)]; [done|by left|]. right. exists e. split; [|done].
    unfold record_key. rewrite own_get_set. replace (str_eqb (key k0) k) with false; [done|].
    symmetry. by apply str_eqb_neq.
Qed.

Lemma within_all all : forall used, (used + total_cost all <= MAX_ASSOC_WRITE_BYTES)%N -> within_budget used all = all.
Proof.
  induction all as [|x t IH]; intros used H; simpl; [done|]. unfold total_cost in *. simpl in H.
  destruct (N.ltb_spec MAX_ASSOC_WRITE_BYTES (used + entry_cost x)); [lia|]. f_equal. apply IH. lia.
Qed.

Lemma trim_within v keys : (total_cost keys <= MAX_ASSOC_WRITE_BYTES)%N -> trimAssociations (store v keys) = store v keys.
Proof.
  intros H. unfold trimAssociations. rewrite own_props_store, within_all, Nat.eqb_refl; [done|].
  by rewrite (total_cost_perm _ _ (sort_by_perm newer_first keys)).
Qed.

Lemma keys_ok_check keys : clean_keys keys = keys -> keys_ok keys.
Proof. intros <-. apply clean_keys_ok. Qed.

(** Learned hits and scored rows. *)
Lemma by_id_elem items k v : own_get (by_id items) k = Some v -> v ∈ items.
Proof.
  unfold by_id. assert (forall acc, (k, v) ∈ fold_left (fun acc item => if truthy item && truthy item.["id"]
      then obj_set acc (to_str item.["id"]) item else acc) items acc -> (k, v) ∈ acc \/ v ∈ items) as G.
  { induction items as [|x l IH]; intros acc; simpl; [auto|]. intros [H|H]%IH; [|right; by right].
    destruct (_ && _); [|by left]. apply elem_of_obj_set in H as [?|[_ E]]; [auto|]. simpl in E. subst. right. left. }
  intros [?%elem_of_nil|?]%own_get_elem%G; done.
Qed.

(** A hit is a login row of the list, or a member every object inherits. *)
Definition learned_hit (items : list jsval) (assoc : jsval) (ctx : context) (m : jsval) : Prop :=
  exists l, l ∈ learnedMatchIds assoc (Some ctx) /\ m = obj_get (by_id items) (itemId l) /\ isLoginItem m = true.

Lemma resolve_hits items assoc ctx m : m ∈ matches (resolveLearnedMatches items assoc ctx) -> learned_hit items assoc ctx m.
Proof.
  unfold resolveLearnedMatches, learned_hit.
  assert (forall ls acc, m ∈ matches (fold_left (learned_step (by_id items)) ls acc) ->
    m ∈ matches acc \/ exists l, l ∈ ls /\ m = obj_get (by_id items) (itemId l) /\ isLoginItem m = true) as G.
  { induction ls as [|l ls IH]; intros acc; simpl; [auto|]. intros [H|(x & Hx & ? & ?)]%IH.
    - unfold learned_step in H. destruct (_ && _) eqn:E; [|auto]. simpl in H. apply elem_of_app in H as [?|H]; [auto|].
      apply list_elem_of_singleton in H as ->. right. exists l. split; [by left|]. apply andb_true_iff in E as [_ ?]. done.
    - right. exists x. split; [by right|done]. }
  intros [?%elem_of_nil|?]%G; done.
Qed.

Lemma fill_matches_elem cutoff ids l : forall out m, m ∈ fill_matches cutoff ids l out ->
  m ∈ out \/ exists s, s ∈ l /\ m = s_item s /\ cutoff <= s_score s.
Proof.
  induction l as [|s t IH]; intros out m; simpl; [auto|]. destruct (_ <? MAX_SUGGESTIONS); [|auto].
  intros [H|(x & ? & ? & ?)]%IH; [|right; exists x; split; [by right|done]].
  destruct (Nat.leb_spec cutoff (s_score s)); simpl in H; [|auto]. destruct (negb _); [|auto].
  apply elem_of_app in H as [?|H]; [auto|]. apply list_elem_of_singleton in H. right. exists s. split; [by left|done].
Qed.

Lemma scored_spec items ctx s : s ∈ scoreContextualMatches items ctx ->
  s_item s ∈ items /\ isLoginItem (s_item s) = true /\ s_score s = matchItem (s_item s) ctx /\ MATCH_THRESHOLD <= s_score s.
Proof.
  unfold scoreContextualMatches, indexed. intros ([i x] & Hi & E)%list_elem_of_omap.
  destruct (isLoginItem x) eqn:El; [|done]. destruct (Nat.leb_spec MATCH_THRESHOLD (matchItem x ctx)); [|done].
  injection E as <-. simpl. split_and!; try done. apply elem_of_zip_r in Hi. done.
Qed.

Lemma scored_complete items ctx x : x ∈ items -> isLoginItem x = true -> MATCH_THRESHOLD <= matchItem x ctx ->
  exists s, s ∈ scoreContextualMatches items ctx /\ s_score s = matchItem x ctx.
Proof.
  intros (i & Hi)%list_elem_of_lookup_1 Hl Hs. exists (mkScored x (matchItem x ctx) i). split; [|done].
  apply list_elem_of_omap. exists (i, x). split.
  - apply (list_elem_of_lookup_2 _ i). unfold indexed. apply lookup_zip_Some. split; [|done].
    apply lookup_seq. split; [done|by eapply lookup_lt_Some].
  - rewrite Hl. cbv zeta. destruct (Nat.leb_spec MATCH_THRESHOLD (matchItem x ctx)); [done|lia].
Qed.

Lemma compare_total a b : is_row (s_item a) -> is_row (s_item b) ->
  compareContextualMatches a b = true \/ compareContextualMatches b a = true.
Proof.
  intros [fa Ha] [fb Hb]. unfold compareContextualMatches. rewrite Ha, Hb. simpl.
  destruct (Nat.eqb_spec (s_score b) (s_score a)), (Nat.eqb_spec (s_score a) (s_score b)); simpl; try lia.
  - destruct fa, fb; simpl; auto; rewrite !Nat.leb_le; lia.
  - rewrite !Nat.ltb_lt. lia.
Qed.

Lemma compare_trans a b c : is_row (s_item a) -> is_row (s_item b) -> is_row (s_item c) ->
  compareContextualMatches a b = true -> compareContextualMatches b c = true -> compareContextualMatches a c = true.
Proof.
  intros [fa Ha] [fb Hb] [fc Hc]. unfold compareContextualMatches. rewrite Ha, Hb, Hc. simpl.
  destruct (Nat.eqb_spec (s_score b) (s_score a)), (Nat.eqb_spec (s_score c) (s_score b)), (Nat.eqb_spec (s_score c) (s_score a));
    simpl; rewrite ?Nat.ltb_lt; try lia; destruct fa, fb, fc; simpl; rewrite ?Nat.leb_le; (done || lia).
Qed.

Lemma matchItem_max item ctx : matchItem item ctx <= 100.
Proof.
  destruct (truthy item) eqn:Ht; [|unfold matchItem; rewrite Ht; simpl; lia].
  destruct (matchItem_split item ctx Ht) as (w & Hw & ->). unfold word_band in Hw.
  destruct (detectedDomain ctx) as [d|]; [|lia]. cbv zeta. rewrite direct_score_spec by auto.
  destruct (existsb _ _); [simpl; lia|]. destruct (existsb _ _); simpl; lia.
Qed.

(** The head of the sorted scores is the best. *)
Lemma best_first items ctx best t : Forall is_row items ->
  sort_by compareContextualMatches (scoreContextualMatches items ctx) = best :: t ->
  forall s, s ∈ scoreContextualMatches items ctx -> s_score s <= s_score best.
Proof.
  intros Hr E s Hs. assert (in_order compareContextualMatches (best :: t)) as Ho.
  { rewrite <- E. apply (sort_by_in_order _ (fun s => is_row (s_item s))).
    - intros a b. apply compare_total.
    - intros a b c. apply compare_trans.
    - apply Forall_forall. intros x Hx. apply scored_spec in Hx as (Hx & _). rewrite Forall_forall in Hr. auto. }
  rewrite <- (elem_of_sort_by compareContextualMatches), E in Hs.
  apply elem_of_cons in Hs as [->|Hs]; [done|].
  apply StronglySorted_inv in Ho as [_ Ho]. rewrite Forall_forall in Ho. specialize (Ho _ Hs).
  unfold compareContextualMatches in Ho.
  destruct (Nat.eqb_spec (s_score s) (s_score best)); simpl in Ho; [lia|]. apply Nat.ltb_lt in Ho. lia.
Qed.

Lemma no_suggestions_ok (c : option context) (Q : jsval -> context -> Prop) :
  length (found no_suggestions) <= MAX_SUGGESTIONS
  /\ (found no_suggestions = [] \/ found_context no_suggestions = c)
  /\ forall m ctx, m ∈ found no_suggestions -> c = Some ctx -> Q m ctx.
Proof. split_and!; [simpl; lia|by left|by intros m ctx ?%elem_of_nil]. Qed.

(** ** Properties *)

(** The learned store survives its file: whatever was read, recorded
    (with valid ids and stamps, for keys the file keeps) or forgotten, the text
    that is written reads back as the same store. *)
Theorem associations_roundtrip s : assoc_reachable s -> parseAssociations (JStr (serializeAssociations s)) = Some s.
Proof. intros (keys & -> & H)%assoc_reachable_ok. by apply parse_serialize. Qed.

Definition example_file : jstr :=
  uq "{`version`:1,`keys`:{`domain:github.com`:{`itemId`:`a`,`count`:2.5,`pinned`:1},`word:github`:{`itemId`:`b`,`pinned`:true},`x`:{}}}".

Definition example_store : jsval := default JNull (parseAssociations (JStr example_file)).

Definition site_context (root : jstr) : context := {|
  cls := u "firefox"; clsSquashed := u "firefox"; title := root; rawTitle := root; matchText := root;
  squashedTitle := root; squashedMatchText := root; segments := [root]; titleTokens := [root]; aliasTokens := [];
  displayName := root; detectedDomain := Some (mkHost (root ++ u ".com") (root ++ u ".com") (Some root) false);
  isBrowser := true; isTerminal := false |}.

Lemma associations_roundtrip_witness :
  exists s, parseAssociations (JStr (serializeAssociations s)) = Some s
            /\ map fst (own_props s.["keys"]) = [u "domain:github.com"; u "word:github"; u "domain:gitlab.com"; u "word:gitlab"].
Proof.
  exists (recordAssociation example_store (Some (site_context (u "gitlab"))) (JStr (u "a")) (JStr (u "2024")) true).
  split; [|vm_compute; reflexivity]. apply associations_roundtrip. apply reach_recorded.
  - apply (reach_parsed (JStr example_file)). vm_compute. reflexivity.
  - split; [|vm_compute; lia]. repeat constructor; vm_compute; (discriminate || reflexivity).
  - repeat split; vm_compute; (discriminate || reflexivity || lia).
  - repeat constructor.
Defined.

(** Trimming keeps the file readable and keeps the newest picks: the
    text of the trimmed store fits the write budget but for its frame, so it is
    well under the cap the file is read back with; what is kept is the longest
    prefix, newest first, that the budget holds. *)
Theorem trimAssociations_budget keys : keys_ok keys ->
  let t := trimAssociations (store (jz ASSOC_VERSION) keys) in
  (N.of_nat (length (serializeAssociations t)) <= MAX_ASSOC_WRITE_BYTES + 23 < MAX_ASSOC_BYTES)%N
  /\ exists kept dropped, own_props t.["keys"] ≡ₚ kept /\ keys ≡ₚ kept ++ dropped
     /\ in_order newer_first (kept ++ dropped)
     /\ match dropped with [] => True | kv :: _ => (MAX_ASSOC_WRITE_BYTES < total_cost kept + entry_cost kv)%N end.
Proof.
  intros H. destruct (trim_ok (jz ASSOC_VERSION) keys H) as [E Hk]. cbv zeta. rewrite E, own_props_store. clear E.
  set (all := sort_by newer_first keys) in *. set (kept := within_budget 0 all) in *.
  pose proof (within_cost all 0 ltac:(done)) as Hc. fold kept in Hc.
  destruct (within_prefix 0 all) as [dropped Ed]. fold kept in Ed.
  assert (keys ≡ₚ kept ++ dropped) as Hp by (rewrite <- Ed; unfold all; by rewrite sort_by_perm).
  assert (length kept = length keys -> keys ≡ₚ kept) as Hall.
  { intros L. rewrite Hp in L. rewrite length_app in L. destruct dropped; [by rewrite app_nil_r in Hp|simpl in L; lia]. }
  set (result := if length kept =? length keys then keys else kept).
  assert (keys_ok result /\ result ≡ₚ kept) as [Hr Hrk].
  { unfold result. destruct (Nat.eqb_spec (length kept) (length keys)); auto. }
  split.
  - pose proof (length_store result Hr) as L. replace (total_cost result) with (total_cost kept) in L.
    + split; [lia|done].
    + apply total_cost_perm. by rewrite Hrk.
  - exists kept, dropped. split_and!; [done|done|by rewrite <- Ed; apply sorted_newest|].
    pose proof (within_maximal all 0 dropped Ed) as M. by destruct dropped.
Qed.

Lemma trimAssociations_budget_witness :
  (N.of_nat (length (serializeAssociations (trimAssociations example_store))) <= MAX_ASSOC_WRITE_BYTES + 23)%N.
Proof.
  apply (trimAssociations_budget (own_props example_store.["keys"])).
  split; [apply (bool_decide_unpack _); vm_compute; reflexivity|].
  repeat constructor; vm_compute; (discriminate || lia || reflexivity).
Defined.

(** C30. The words of a lookalike page's title teach nothing: an ordinary pick
    writes no title word (the key of a browser's window is the domain its title
    names), and stored words count only where the user pinned them -
    the learned matches are those of the store without its unpinned words, and
    each comes from an entry of the window's keys that is a domain, an
    application or a pinned word. *)
Theorem lookalike_safety keys c id stamp : keys_ok keys ->
  let s := store (jz ASSOC_VERSION) keys in
  (forall kv, kv ∈ own_props (recordAssociation s c id stamp false).["keys"] -> isWordKey (fst kv) = true -> kv ∈ keys)
  /\ learnedMatchIds s c
     = learnedMatchIds (store (jz ASSOC_VERSION) (counting keys)) c
  /\ forall m, m ∈ learnedMatchIds s c -> exists k e, k ∈ contextKeys c true /\ (key k, e) ∈ keys
       /\ itemId m = to_str e.["itemId"] /\ (isWordKey (key k) = true -> is_true e.["pinned"] = true).
Proof.
  intros H s. subst s. split_and!.
  - intros kv. unfold recordAssociation. rewrite own_props_store, copy_props_id by done.
    destruct (_ || _); [by rewrite own_props_store|]. intros Hkv%trim_sub Hw.
    apply record_fold_elem in Hkv as [?|(k & Hk & E)]; [done|]. apply contextKeys_words in Hk. congruence.
  - unfold learnedMatchIds. destruct (_ || _) eqn:E1; [by destruct c|].
    replace (negb (truthy (store (jz ASSOC_VERSION) (counting keys))) || _ || _) with false
      by (rewrite <- E1; unfold store; jobj; done).
    enough (counted_entries (store (jz ASSOC_VERSION) keys) c
            = counted_entries (store (jz ASSOC_VERSION) (counting keys)) c) as -> by done.
    unfold counted_entries. f_equal. apply list_omap_ext, Forall2_same_length_lookup_2; [done|].
    intros i k k' Hk Hk'. simplify_eq. rewrite !entry_at_store. unfold obj_get, counting.
    rewrite own_get_bfilter by apply H. apply list_elem_of_lookup_2, contextKeys_inherited in Hk. rewrite Hk.
    destruct (own_get keys (key k)) as [e|]; simpl; [|done].
    destruct (associationEntryCounts (key k) e) eqn:Ec; simpl; [by rewrite Ec|done].
  - intros m. unfold learnedMatchIds. destruct (_ || _); [by intros ?%elem_of_nil|].
    rewrite elem_of_sort_by. intros (kv & -> & Hkv)%list_elem_of_fmap. cbn [itemId].
    apply best_rank_ids in Hkv as [?%elem_of_nil|(we & Hwe & ->)]; [done|].
    apply elem_of_bfilter in Hwe as [Hwe _]. apply list_elem_of_omap in Hwe as (k & Hk & E).
    rewrite entry_at_store in E. cbv zeta in E. destruct (associationEntryCounts _ _) eqn:Ec; [|done]. injection E as <-. cbn [snd].
    unfold associationEntryCounts in Ec. apply andb_true_iff in Ec as [Et Ec]. unfold obj_get in *.
    destruct (own_get keys (key k)) as [e|] eqn:Eo; simpl in *; [|by rewrite (contextKeys_inherited _ _ _ Hk) in Et].
    exists k, e. split_and!; [done|by apply own_get_elem|done|]. intros Hw. by rewrite Hw in Ec.
Qed.

(** A pick is remembered and can be taken back: while the store is within
    its budget, recording an item makes the window resolve to it (when the pick
    has any key to write), every other entry stays as it was, and forgetting
    it leaves nothing of the window that resolves to it. *)
Theorem record_then_forget keys c id stamp pinned :
  keys_ok keys -> id <> [] -> contextKeys c pinned <> [] ->
  let s := store (jz ASSOC_VERSION) keys in
  let all := fold_left (record_key (JStr id) (JStr stamp) pinned) (contextKeys c pinned) keys in
  keys_ok all -> (total_cost all <= MAX_ASSOC_WRITE_BYTES)%N ->
  let s' := recordAssociation s c (JStr id) (JStr stamp) pinned in
  s' = store (jz ASSOC_VERSION) all
  /\ isAssociated s' c (JStr id) = true
  /\ (forall k, k ∉ map key (contextKeys c pinned) -> own_get all k = own_get keys k)
  /\ isAssociated (forgetAssociation s' c (JStr id)) c (JStr id) = false.
Proof.
  intros H Hid Hne s all Hall Hcost s'.
  assert (s' = store (jz ASSOC_VERSION) all) as E.
  { unfold s', recordAssociation, s. rewrite own_props_store, copy_props_id by done.
    destruct (Nat.eqb_spec (length (contextKeys c pinned)) 0) as [L|_]; [by apply nil_length_inv in L|].
    replace (truthy (JStr id)) with true by (by destruct id). cbn [negb orb]. fold all. by apply trim_within. }
  rewrite E. clear E s'. split_and!; [done| | |].
  - destruct (contextKeys c pinned) as [|k0 ks] eqn:Ek; [done|].
    assert (k0 ∈ contextKeys c pinned) as Hk0 by (rewrite Ek; by left).
    destruct (record_fold_get id (JStr stamp) pinned (k0 :: ks) keys (key k0)) as (e & He & Ht & Hi & Hp); [left; by left|].
    fold all in He. unfold isAssociated. apply andb_true_iff. split; [destruct c; [by destruct id|done]|].
    apply existsb_exists. exists k0. split; [by apply list_elem_of_In, (contextKeys_all _ _ _ Hk0)|].
    rewrite entry_at_store. unfold obj_get. rewrite He. simpl. unfold associationEntryCounts. rewrite Ht, Hi. simpl.
    rewrite str_eqb_refl, andb_true_r. destruct pinned; [by rewrite Hp, orb_true_r|].
    by rewrite (contextKeys_words _ _ Hk0).
  - intros k Hk. unfold all. clear -Hk. revert keys. induction (contextKeys c pinned) as [|k0 ks IH]; intros keys; [done|].
    simpl in *. apply not_elem_of_cons in Hk as [Hk0 Hk]. rewrite IH by done. unfold record_key.
    rewrite own_get_set. replace (str_eqb (key k0) k) with false; [done|]. symmetry. by apply str_eqb_neq.
  - unfold isAssociated. apply andb_false_iff. right. apply existsb_false. intros k Hk%list_elem_of_In%list_elem_of_In.
    unfold forgetAssociation. rewrite own_props_store, entry_at_store.
    rewrite copy_props_id by (apply (keys_ok_sub all); [done|by apply NoDup_map_bfilter, Hall|by intros kv [? _]%elem_of_bfilter]).
    unfold obj_get. rewrite own_get_bfilter by apply Hall.
    destruct (own_get all (key k)) as [e|]; simpl; [|by rewrite (contextKeys_inherited _ _ _ Hk)].
    assert (table_has (map key (contextKeys c true)) (key k) = true) as ->.
    { unfold table_has. apply orb_true_iff. left. by apply existsb_str, list_elem_of_fmap_2. }
    replace (match id with [] => false | _ => true end) with true by (by destruct id). simpl.
    destruct (strict_eq e.["itemId"] (JStr id)) eqn:Ei; simpl; [by rewrite (contextKeys_inherited _ _ _ Hk)|].
    by rewrite Ei, andb_false_r.
Qed.

(** Suggestions are at most six login items, learned picks or rows that
    score at least 80; among the scored ones only the strongest band is
    offered: none is more than eight points below any other login row, and as
    soon as one row has a domain hit (96) every scored suggestion is one. *)
Theorem findContextualMatches_spec l w assoc : Forall is_row l ->
  let r := findContextualMatches (JArr l) w assoc in
  length (found r) <= MAX_SUGGESTIONS
  /\ (found r = [] \/ found_context r = cleanWindowContext w)
  /\ forall m ctx, m ∈ found r -> cleanWindowContext w = Some ctx ->
     isLoginItem m = true
     /\ (learned_hit l assoc ctx m
         \/ (m ∈ l /\ MATCH_THRESHOLD <= matchItem m ctx
             /\ forall x, x ∈ l -> isLoginItem x = true ->
                  matchItem x ctx <= matchItem m ctx + 8 /\ (96 <= matchItem x ctx -> 96 <= matchItem m ctx))).
Proof.
  intros Hr. unfold findContextualMatches. destruct (cleanWindowContext w) as [ctx|]; [|apply no_suggestions_ok].
  destruct (_ =? 0); [apply no_suggestions_ok|]. destruct (_ && _); [apply no_suggestions_ok|].
  destruct (_ && _); [apply no_suggestions_ok|].
  cbv zeta. destruct (sort_by _ _) as [|best t] eqn:E.
  - destruct (_ =? 0); [apply no_suggestions_ok|]. split_and!; [apply firstn_le_length|by right|].
    intros m c Hm%elem_of_take [= <-]. destruct Hm as (i & Hm & _). apply list_elem_of_lookup_2, resolve_hits in Hm.
    split; [by destruct Hm as (? & _ & _ & ?)|by left].
  - split_and!; [apply firstn_le_length|by right|]. intros m c Hm%elem_of_take [= <-]. destruct Hm as (i & Hm & _).
    apply list_elem_of_lookup_2, fill_matches_elem in Hm as [Hm|(s & Hs & -> & Hc)].
    { apply resolve_hits in Hm. split; [by destruct Hm as (? & _ & _ & ?)|by left]. }
    pose proof (best_first l ctx best t Hr E) as Hbest.
    rewrite <- E, elem_of_sort_by in Hs. apply scored_spec in Hs as (Hin & Hl & Hscore & Ht).
    split; [done|]. right. rewrite <- Hscore. split_and!; [done|done|]. intros x Hx Hxl.
    assert (matchItem x ctx <= s_score best /\ s_score best <= 100) as [Hb Hmax].
    { assert (best ∈ scoreContextualMatches l ctx) as Hbs.
      { rewrite <- (elem_of_sort_by compareContextualMatches), E. by left. }
      apply scored_spec in Hbs as (_ & _ & Hb & Hbt). split; [|rewrite Hb; apply matchItem_max].
      destruct (le_lt_dec MATCH_THRESHOLD (matchItem x ctx)) as [G|G]; [|lia].
      destruct (scored_complete l ctx x Hx Hxl G) as (s' & Hs' & <-). auto. }
    unfold score_cutoff, MATCH_THRESHOLD in *. destruct (Nat.leb_spec 96 (s_score best)); lia.
Qed.

Definition example_rows : list jsval :=
  [obj [("id", JStr (u "i1")); ("name", JStr (u "GitHub")); ("favorite", JBool false); ("type", JStr (u "login"));
        ("uris", JArr [JStr (u "https://github.com/login")])];
   obj [("id", JStr (u "i2")); ("name", JStr (u "Notes about github")); ("favorite", JBool true); ("type", JStr (u "login"))];
   obj [("id", JStr (u "i3")); ("name", JStr (u "GitHub work")); ("favorite", JBool true); ("type", JStr (u "login"));
        ("uris", JArr [JStr (u "gist.github.com")])]]%string.
Definition example_github : jsval :=
  obj [("class", JStr (u "firefox")); ("title", JStr (u "Sign in to github.com - Mozilla Firefox"))]%string.

Lemma findContextualMatches_spec_witness :
  length (found (findContextualMatches (JArr example_rows) example_github example_store)) <= MAX_SUGGESTIONS
  /\ map (fun m => m.["id"]) (found (findContextualMatches (JArr example_rows) example_github emptyAssociations))
     = [JStr (u "i1"); JStr (u "i3")].
Proof.
  split; [|vm_compute; reflexivity]. apply (findContextualMatches_spec example_rows example_github example_store).
  repeat constructor; eexists; vm_compute; reflexivity.
Defined.

Lemma lookalike_safety_witness :
  learnedMatchIds example_store (Some (site_context (u "github")))
  = learnedMatchIds (store (jz ASSOC_VERSION) (counting (own_props example_store.["keys"]))) (Some (site_context (u "github"))).
Proof.
  apply (lookalike_safety (own_props example_store.["keys"]) (Some (site_context (u "github"))) JUndef JUndef).
  apply keys_ok_check. vm_compute. reflexivity.
Defined.

Lemma record_then_forget_witness :
  isAssociated (recordAssociation example_store (Some (site_context (u "gitlab"))) (JStr (u "a")) (JStr (u "2024")) false)
    (Some (site_context (u "gitlab"))) (JStr (u "a")) = true.
Proof.
  apply (record_then_forget (own_props example_store.["keys"]) (Some (site_context (u "gitlab"))) (u "a") (u "2024") false).
  - apply keys_ok_check. vm_compute. reflexivity.
  - vm_compute. discriminate.
  - vm_compute. discriminate.
  - apply keys_ok_check. vm_compute. reflexivity.
  - apply N.leb_le. vm_compute. reflexivity.
Defined.

(** A file that holds [null] throws instead of reading as no store. *)
Lemma parseAssociations_null : parseAssociations (JStr (u "null")) = None.
Proof. vm_compute. reflexivity. Qed.

Definition hyphen_window : jsval := obj [("class", JStr (u "firefox")); ("title", JStr (u "my-site.com"))]%string.

(** The words of a pinned pick are not all kept: a registrable name with a
    hyphen makes a word key that the file's own check refuses. *)
Lemma hyphen_word_lost :
  let s := recordAssociation emptyAssociations (cleanWindowContext hyphen_window) (JStr (u "a")) (JStr (u "2024")) true in
  map fst (own_props s.["keys"]) = [u "domain:my-site.com"; u "word:my-site"]
  /\ option_map (fun s => map fst (own_props s.["keys"])) (parseAssociations (JStr (serializeAssociations s)))
     = Some [u "domain:my-site.com"].
Proof. vm_compute. split; reflexivity. Qed.
