(* ===== verification/SshAgent.v ===== *)
(** * SSH agent supervisor

    The control protocol with the SSH agent companion and its supervisor in
    [src/BitwardenModel.js]: the lines the panel writes ([agentControlLine] and
    its callers), the reader of the companion's lines ([parseAgentEvent]), the
    restart backoff and the reducer ([sshAgentReduce]) that decides when the
    gate is open. The reducer's in-out arguments [next] and [action] are
    returned as a pair. *)

From stdpp Require Import base list numbers strings.
From Stdlib Require Import QArith Qround.
Local Close Scope Q_scope.
From S2P Require Import Prelude.
From S2P Require Import JsValue.
From S2P Require Import Json.
Local Open Scope Z_scope.

(** ** Constants *)

Definition SSH_AGENT_CONTROL_VERSION : Z := 1.
Definition SSH_AGENT_MAX_LINE_BYTES : nat := Z.to_nat (64 * 1024).
Definition SSH_AGENT_HANDSHAKE_TIMEOUT_MS : Z := 5000.
Definition SSH_AGENT_BACKOFF_BASE_MS : Z := 500.
Definition SSH_AGENT_BACKOFF_MAX_MS : Z := 30000.
Definition SSH_AGENT_MAX_RESTARTS : Z := 5.
Definition sshAgentMaxLineBytes : nat := SSH_AGENT_MAX_LINE_BYTES.
Definition sshAgentMaxRestarts : Z := SSH_AGENT_MAX_RESTARTS.
Definition sshAgentHandshakeTimeoutMs : Z := SSH_AGENT_HANDSHAKE_TIMEOUT_MS.
Definition SSH_AGENT_APPROVAL_WINDOW_MAX_SEC : Z := 900.
Definition SSH_AGENT_HEALTHY_MS : Z := 60 * 1000.
Definition SSH_AGENT_ELSEWHERE_RETRY_MS : Z := 30 * 1000.

Definition SSH_AGENT_EVENT_TYPES : list jstr :=
  [u "ready"; u "unlock_required"; u "approval_required"; u "request_cancelled";
   u "keys_loaded"; u "public_key"; u "locked"; u "load_failed"; u "grants_changed"; u "state_changed"; u "error"].

(** ** Control lines *)

(** The keys of [fields] are written over [v] and [type], as the loop does. *)
Definition control_message (type : string) (extra : list (string * jsval)) : jsval :=
  JObj (fold_left (fun message kv => obj_set message (u (fst kv)) (snd kv)) extra
          [(u "v", jz SSH_AGENT_CONTROL_VERSION); (u "type", JStr (u type))]).

Definition agentControlLine (type : string) (extra : list (string * jsval)) : jstr :=
  json_text (control_message type extra) ++ newline.

Definition agentEpoch (epoch : jsval) : num := floor_or_zero epoch.

Definition sshAgentHelloLine : jstr := agentControlLine "hello" [].
Definition sshAgentShutdownLine : jstr := agentControlLine "shutdown" [].

(** [/^[0-9a-f]{32}$/] *)
Definition LOAD_ID_RE (s : jstr) : bool := (length s =? 32)%nat && all_in is_hex_lower s.

Definition isValidLoadId (value : jsval) : bool :=
  match value with JStr s => LOAD_ID_RE s | _ => false end.

Definition sshAgentLoadBeginLine (epoch loadId : jsval) : jstr :=
  if isValidLoadId loadId
  then agentControlLine "key_load_begin" [("epoch", JNum (agentEpoch epoch)); ("loadId", loadId)]%string
  else [].

Definition sshAgentLoadEndLine (epoch ok : jsval) : jstr :=
  agentControlLine "key_load_end"
    [("epoch", JNum (agentEpoch epoch)); ("status", JStr (if truthy ok then u "ok" else u "failed"))]%string.

Definition sshAgentVaultLockedLine (epoch : jsval) : jstr :=
  agentControlLine "vault_locked" [("epoch", JNum (agentEpoch epoch))]%string.

Definition sshAgentLoggedOutLine : jstr := agentControlLine "vault_logged_out" [].

Definition sshAgentOptionsLine (unlockOnDemand : jsval) : jstr :=
  agentControlLine "options" [("unlockOnDemand", JBool (is_true unlockOnDemand))]%string.

Definition sshAgentRevokeGrantsLine : jstr := agentControlLine "revoke_grants" [].

Definition sshAgentLockHeld (exitCode : jsval) : bool := num_eqb (to_num exitCode) (numz 75).

(** ** The companion's lines *)

(** The bytes of [s] in UTF-8; a high surrogate takes the unit after it along. *)
Fixpoint utf8_count (s : jstr) : nat :=
  match s with
  | [] => 0
  | c :: t =>
    if (c <? 128)%N then 1 + utf8_count t
    else if (c <? 2048)%N then 2 + utf8_count t
    else if is_high c then 4 + match t with [] => 0 | _ :: t' => utf8_count t' end
    else 3 + utf8_count t
  end%nat.

Definition utf8ByteLength (s : jstr) : nat :=
  if (SSH_AGENT_MAX_LINE_BYTES <? length s)%nat then length s else utf8_count s.

Inductive agent_parse := Parsed (message : jsval) | Rejected (code : jstr) (fatal : bool).

(** [if (text.charAt(text.length - 1) === c) text = text.slice(0, text.length - 1)] *)
Definition drop_last_unit (c : N) (s : jstr) : jstr :=
  match last s with
  | Some d => if (d =? c)%N then take (length s - 1) s else s
  | None => s
  end.

Definition nonempty_string (v : jsval) : bool :=
  match v with JStr (_ :: _) => true | _ => false end.

Definition known_type (v : jsval) : bool :=
  match v with JStr s => existsb (str_eqb s) SSH_AGENT_EVENT_TYPES | _ => false end.

Definition parseAgentEvent (line : jsval) : agent_parse :=
  let s := drop_last_unit 13 (drop_last_unit 10 (text_of line)) in
  if str_eqb s [] then Rejected (u "EMPTY") false
  else if (SSH_AGENT_MAX_LINE_BYTES <? utf8ByteLength s)%nat then Rejected (u "LINE_TOO_LONG") true
  else
    match json_parse s with
    | None => Rejected (u "MALFORMED") true
    | Some parsed =>
      if negb (truthy parsed) || negb (typeof_object parsed) || is_array parsed
      then Rejected (u "MALFORMED") true
      else if negb (strict_eq (jget parsed (u "v")) (jz SSH_AGENT_CONTROL_VERSION))
      then Rejected (u "VERSION_MISMATCH") true
      else if negb (known_type (jget parsed (u "type"))) then Rejected (u "UNKNOWN_TYPE") true
      else if strict_eq (jget parsed (u "type")) (JStr (u "ready")) &&
              (negb (nonempty_string (jget parsed (u "socketPath")))
               || negb (nonempty_string (jget parsed (u "fifoPath")))
               || negb (nonempty_string (jget parsed (u "agentVersion"))))
      then Rejected (u "MALFORMED") true
      else Parsed parsed
    end.

(** ** The restart backoff *)

(** Math.pow(2, e); past 2^1023 a double is Infinity, which Math.min treats alike. *)
Definition sshAgentRestartDelayMs (failures : jsval) : num :=
  match num_floor (to_num failures) with
  | Fin q =>
    let n := Qfloor q in
    if n <? 1 then numz SSH_AGENT_BACKOFF_BASE_MS
    else numz (Z.min SSH_AGENT_BACKOFF_MAX_MS (SSH_AGENT_BACKOFF_BASE_MS * 2 ^ (n - 1)))
  | _ => numz SSH_AGENT_BACKOFF_BASE_MS
  end.

(** ** The supervisor *)

Inductive agent_phase :=
| disabled | starting | handshaking | ready | restarting | backoff | elsewhere | failed.

#[export] Instance agent_phase_eq_dec : EqDecision agent_phase.
Proof. solve_decision. Defined.

Record agent_state := mkAgent {
  phase : agent_phase;
  gateOpen : bool;
  socketPath : jsval;
  fifoPath : jsval;
  agentVersion : jsval;
  failures : Z;
  readyAtMs : num;
  errorCode : jstr;
  errorMessage : jstr
}.

(** What the panel is told to do. [restartInMs] is -1 for "no restart". *)
Record agent_action := mkAction {
  start : bool;
  stop : bool;
  writeHello : bool;
  cancelRestart : bool;
  restartInMs : num;
  message : option jsval
}.

Definition sshAgentInitialState : agent_state :=
  mkAgent disabled false (JStr []) (JStr []) (JStr []) 0 (numz 0) [] [].

Definition sshAgentNoAction : agent_action := mkAction false false false false (numz (-1)) None.

Definition SSH_AGENT_ERROR_MESSAGES : list (jstr * jstr) :=
  [(u "MALFORMED", u "The SSH agent helper sent something the panel could not read.");
   (u "LINE_TOO_LONG", u "The SSH agent helper sent an oversized message.");
   (u "VERSION_MISMATCH", u "The SSH agent helper does not match this version of the plugin.");
   (u "UNKNOWN_TYPE", u "The SSH agent helper does not match this version of the plugin.");
   (u "PROTOCOL", u "The SSH agent helper broke its side of the control protocol.");
   (u "HANDSHAKE_TIMEOUT", u "The SSH agent helper did not finish starting up.");
   (u "EXITED", u "The SSH agent helper stopped unexpectedly.");
   (u "CRASH_LOOP", u "The SSH agent helper keeps failing to start, so it has been left off.");
   (u "ELSEWHERE", u "Another process is already serving the SSH agent on this machine -- another Omarchy shell, most likely. This one is standing by and will take over when it stops.")].

(** The codes are the supervisor's own, never an inherited member's name. *)
Definition sshAgentErrorMessage (code : jstr) : jstr :=
  match find_first (fun kv => str_eqb (fst kv) code) SSH_AGENT_ERROR_MESSAGES with
  | Some (_, m) => m
  | None => u "The SSH agent helper stopped unexpectedly."
  end.

Definition set_error (s : agent_state) (code : jstr) : agent_state :=
  mkAgent (phase s) (gateOpen s) (socketPath s) (fifoPath s) (agentVersion s) (failures s) (readyAtMs s)
    code (sshAgentErrorMessage code).
Definition set_phase (s : agent_state) (p : agent_phase) : agent_state :=
  mkAgent p (gateOpen s) (socketPath s) (fifoPath s) (agentVersion s) (failures s) (readyAtMs s)
    (errorCode s) (errorMessage s).
Definition shut_gate (s : agent_state) : agent_state :=
  mkAgent (phase s) false (socketPath s) (fifoPath s) (agentVersion s) (failures s) (readyAtMs s)
    (errorCode s) (errorMessage s).
Definition forget_paths (s : agent_state) : agent_state :=
  mkAgent (phase s) (gateOpen s) (JStr []) (JStr []) (JStr []) (failures s) (readyAtMs s)
    (errorCode s) (errorMessage s).
Definition set_run (s : agent_state) (n : Z) (at_ : num) : agent_state :=
  mkAgent (phase s) (gateOpen s) (socketPath s) (fifoPath s) (agentVersion s) n at_ (errorCode s) (errorMessage s).

Definition with_restart (a : agent_action) (ms : num) : agent_action :=
  mkAction (start a) (stop a) (writeHello a) (cancelRestart a) ms (message a).
Definition with_stop (a : agent_action) : agent_action :=
  mkAction (start a) true (writeHello a) true (restartInMs a) (message a).
Definition with_start (a : agent_action) : agent_action :=
  mkAction true (stop a) (writeHello a) (cancelRestart a) (restartInMs a) (message a).
Definition with_hello (a : agent_action) : agent_action :=
  mkAction (start a) (stop a) true (cancelRestart a) (restartInMs a) (message a).
Definition with_message (a : agent_action) (m : jsval) : agent_action :=
  mkAction (start a) (stop a) (writeHello a) (cancelRestart a) (restartInMs a) (Some m).

Definition sshAgentFailMidRun (next : agent_state) (action : agent_action) (code : jstr) :
  agent_state * agent_action :=
  (set_error (set_phase (shut_gate next) restarting) code, with_stop action).

Definition sshAgentFailOnExit (state next : agent_state) (action : agent_action) (nowMs : num) :
  agent_state * agent_action :=
  let n1 := forget_paths (shut_gate next) in
  let n2 := match errorCode n1 with [] => set_error n1 (u "EXITED") | _ => n1 end in
  let wasHealthy := num_ltb (numz 0) (readyAtMs state) &&
                    num_leb (numz SSH_AGENT_HEALTHY_MS) (num_sub nowMs (readyAtMs state)) in
  let n3 := set_run n2 ((if wasHealthy then 0 else failures state) + 1) (numz 0) in
  if SSH_AGENT_MAX_RESTARTS <? failures n3
  then (set_error (set_phase n3 failed) (u "CRASH_LOOP"), with_restart action (numz (-1)))
  else (set_phase n3 backoff, with_restart action (sshAgentRestartDelayMs (jz (failures n3)))).

(** [ev.kind] with the field it carries. *)
Inductive agent_event :=
| enabled (value : jsval)
| started
| handshakeTimeout
| line (text : jsval)
| exited (lockHeld : jsval)
| restartTimer
| other_kind.

Definition agent_ready (next : agent_state) (m : jsval) (nowMs : num) : agent_state :=
  mkAgent ready true (jget m (u "socketPath")) (jget m (u "fifoPath")) (jget m (u "agentVersion"))
    (failures next) nowMs [] [].

Definition sshAgentReduce (current : agent_state) (ev : agent_event) (now : jsval) : agent_state * agent_action :=
  let nowMs := num_or_zero (to_num now) in
  let next := current in
  let action := sshAgentNoAction in
  let stay := (next, action) in
  let dead := bool_decide (phase current = disabled) || bool_decide (phase current = failed) in
  match ev with
  | enabled value =>
    if negb (truthy value) then
      if bool_decide (phase current = disabled) then stay
      else (sshAgentInitialState, with_stop action)
    else if negb (bool_decide (phase current = disabled)) && negb (bool_decide (phase current = failed)) then stay
    else (set_phase sshAgentInitialState starting, with_start action)
  | _ =>
    if dead then stay
    else
      match ev with
      | started =>
        if bool_decide (phase current = starting) then (set_phase next handshaking, with_hello action) else stay
      | handshakeTimeout =>
        if bool_decide (phase current = starting) || bool_decide (phase current = handshaking)
        then sshAgentFailMidRun next action (u "HANDSHAKE_TIMEOUT") else stay
      | line text =>
        if bool_decide (phase current = handshaking) || bool_decide (phase current = ready) then
          match parseAgentEvent text with
          | Rejected code fatal => if fatal then sshAgentFailMidRun next action code else stay
          | Parsed m =>
            let isReady := strict_eq (jget m (u "type")) (JStr (u "ready")) in
            if negb (Bool.eqb isReady (bool_decide (phase current = handshaking)))
            then sshAgentFailMidRun next action (u "PROTOCOL")
            else if isReady then (agent_ready next m nowMs, action)
            else (next, with_message action m)
          end
        else stay
      | exited lockHeld =>
        if is_true lockHeld && num_eqb (readyAtMs current) (numz 0)
        then (set_error (set_phase (forget_paths (shut_gate next)) elsewhere) (u "ELSEWHERE"),
              with_restart action (numz SSH_AGENT_ELSEWHERE_RETRY_MS))
        else sshAgentFailOnExit current next action nowMs
      | restartTimer =>
        if bool_decide (phase current = backoff) || bool_decide (phase current = elsewhere)
        then (set_phase next starting, with_start action) else stay
      | _ => stay
      end
  end.

(** ** Reachable states *)

(** The events the panel can deliver, each with its clock. *)
Inductive agent_reachable : agent_state -> Prop :=
| agent_initial : agent_reachable sshAgentInitialState
| agent_step s ev now : agent_reachable s -> agent_reachable (fst (sshAgentReduce s ev now)).

(** The phases of a run that has not answered yet, or of none. *)
Definition unstarted (p : agent_phase) : bool :=
  match p with starting | handshaking | backoff | elsewhere => true | _ => false end.

Record agent_ok (s : agent_state) : Prop := {
  ok_gate : gateOpen s = true <-> phase s = ready;
  ok_paths : gateOpen s = true -> nonempty_string (socketPath s) = true /\
               nonempty_string (fifoPath s) = true /\ nonempty_string (agentVersion s) = true;
  ok_failures : 0 <= failures s;
  ok_failed : failures s <= SSH_AGENT_MAX_RESTARTS \/ phase s = failed;
  ok_crash : phase s = failed -> errorCode s = u "CRASH_LOOP";
  ok_disabled : phase s = disabled -> s = sshAgentInitialState;
  ok_not_started : unstarted (phase s) = true -> num_eqb (readyAtMs s) (numz 0) = true
}.

(** What a well-formed companion message is. *)
Definition event_wf (m : jsval) : bool :=
  match m with
  | JObj _ =>
    strict_eq (jget m (u "v")) (jz SSH_AGENT_CONTROL_VERSION) && known_type (jget m (u "type")) &&
    (negb (strict_eq (jget m (u "type")) (JStr (u "ready"))) ||
     nonempty_string (jget m (u "socketPath")) && nonempty_string (jget m (u "fifoPath"))
     && nonempty_string (jget m (u "agentVersion")))
  | _ => false
  end.

Definition live (s : agent_state) : Prop := phase s <> disabled /\ phase s <> failed.

(** The supervisor as a step relation: what each event may do in each phase. *)
Inductive transition (s : agent_state) (now : num) : agent_event -> agent_state * agent_action -> Prop :=
| t_stay ev :
    (match ev with exited _ => ~ live s | _ => True end) -> transition s now ev (s, sshAgentNoAction)
| t_disable v :
    truthy v = false -> transition s now (enabled v) (sshAgentInitialState, with_stop sshAgentNoAction)
| t_enable v :
    truthy v = true -> ~ live s ->
    transition s now (enabled v) (set_phase sshAgentInitialState starting, with_start sshAgentNoAction)
| t_started :
    phase s = starting -> transition s now started (set_phase s handshaking, with_hello sshAgentNoAction)
| t_fail ev code :
    phase s = starting \/ phase s = handshaking \/ phase s = ready -> ev = handshakeTimeout \/ (exists l, ev = line l) ->
    transition s now ev (sshAgentFailMidRun s sshAgentNoAction code)
| t_ready text m :
    phase s = handshaking -> parseAgentEvent text = Parsed m ->
    strict_eq (jget m (u "type")) (JStr (u "ready")) = true ->
    transition s now (line text) (agent_ready s m now, sshAgentNoAction)
| t_message text m :
    phase s = ready -> parseAgentEvent text = Parsed m ->
    transition s now (line text) (s, with_message sshAgentNoAction m)
| t_elsewhere held :
    live s -> is_true held = true -> num_eqb (readyAtMs s) (numz 0) = true ->
    transition s now (exited held)
      (set_error (set_phase (forget_paths (shut_gate s)) elsewhere) (u "ELSEWHERE"),
       with_restart sshAgentNoAction (numz SSH_AGENT_ELSEWHERE_RETRY_MS))
| t_exit held :
    live s -> transition s now (exited held) (sshAgentFailOnExit s s sshAgentNoAction now)
| t_restart :
    phase s = backoff \/ phase s = elsewhere ->
    transition s now restartTimer (set_phase s starting, with_start sshAgentNoAction).

(** A sequence of events with their clocks. *)
Definition sshAgentRun (s : agent_state) (evs : list (agent_event * jsval)) : agent_state :=
  fold_left (fun s e => fst (sshAgentReduce s (fst e) (snd e))) evs s.

(** A companion's answer to [hello], for the examples. *)
Definition ready_line : jstr :=
  uq "{`v`:1,`type`:`ready`,`socketPath`:`/run/s`,`fifoPath`:`/run/f`,`agentVersion`:`0.4`}".

(** A death the supervisor counts, inside the window [lo, lo + 60 s). *)
Definition is_exit (e : agent_event * jsval) : bool := match fst e with exited _ => true | _ => false end.
Definition in_window (lo : Z) (e : agent_event * jsval) : Prop :=
  (exists t, snd e = jz t /\ lo <= t < lo + SSH_AGENT_HEALTHY_MS) /\
  match fst e with enabled _ => False | exited held => is_true held = false | _ => True end.

(** ** Lemmas *)

Lemma parseAgentEvent_wf text m : parseAgentEvent text = Parsed m -> event_wf m = true.
Proof.
  unfold parseAgentEvent. destruct (str_eqb _ []); [done|].
  destruct (SSH_AGENT_MAX_LINE_BYTES <? _)%nat; [done|]. destruct (json_parse _) as [v|]; [|done].
  destruct (negb (truthy v) || _ || _) eqn:E1; [done|].
  destruct (negb (strict_eq (jget v (u "v")) _)) eqn:E2; [done|].
  destruct (negb (known_type _)) eqn:E3; [done|].
  destruct (strict_eq (jget v (u "type")) _ && _) eqn:E4; [done|]. intros [= <-].
  unfold event_wf. apply negb_false_iff in E2, E3.
  destruct v as [| | | | | |o|]; try done.
  rewrite E2, E3. cbn [andb].
  destruct (strict_eq (jget (JObj o) (u "type")) _); [|done]. cbn in *.
  by destruct (nonempty_string _), (nonempty_string _), (nonempty_string _).
Qed.

Lemma event_wf_ready m : event_wf m = true -> strict_eq (jget m (u "type")) (JStr (u "ready")) = true ->
  nonempty_string (jget m (u "socketPath")) = true /\ nonempty_string (jget m (u "fifoPath")) = true /\
  nonempty_string (jget m (u "agentVersion")) = true.
Proof.
  unfold event_wf. destruct m; try done. intros H Hr. rewrite Hr in H. cbn [negb orb] in H. bool_hyps. done.
Qed.

Lemma num_eqb_zero : num_eqb (numz 0) (numz 0) = true.
Proof. done. Qed.
#[export] Hint Resolve num_eqb_zero : qsbw.

(** The phases a rejected test excludes. *)
Ltac phase_cases :=
  repeat match goal with
  | |- context [bool_decide (?a = ?b)] =>
    let E := fresh "Ep" in destruct (bool_decide (a = b)) eqn:E;
    [apply bool_decide_eq_true in E | apply bool_decide_eq_false in E]
  end.

Lemma agent_ok_initial : agent_ok sshAgentInitialState.
Proof. split; simpl; try done. by left. Qed.
#[export] Hint Resolve agent_ok_initial : qsbw.

Lemma failMidRun_ok s a code : agent_ok s -> phase s <> failed -> phase s <> disabled ->
  agent_ok (fst (sshAgentFailMidRun s a code)).
Proof.
  intros [_ _ Hf Hm _ _ _] Hnf _. destruct Hm as [Hm|]; [|done].
  split; simpl; try done; try lia; auto.
Qed.

Lemma failOnExit_ok s a now : agent_ok s -> phase s <> failed -> agent_ok (fst (sshAgentFailOnExit s s a now)).
Proof.
  intros [_ _ Hf Hm _ _ _] Hnf. destruct Hm as [Hm|]; [|done].
  unfold sshAgentFailOnExit. set (n2 := match errorCode _ with [] => _ | _ => _ end).
  set (h := num_ltb _ _ && _). assert (gateOpen n2 = false) as Hg by (unfold n2; simpl; by destruct (errorCode s)).
  destruct (Z.ltb_spec SSH_AGENT_MAX_RESTARTS (failures (set_run n2 ((if h then 0 else failures s) + 1) (numz 0)))) as [H|H];
    split; simpl in *; rewrite ?Hg; try done; try (destruct h; lia); auto.
Qed.

Lemma reduce_transition s ev now :
  transition s (num_or_zero (to_num now)) ev (sshAgentReduce s ev now).
Proof.
  assert (Hlive : phase s <> disabled -> phase s <> failed -> live s) by done.
  unfold sshAgentReduce. destruct ev as [v| | |text|held| |].
  - destruct (truthy v) eqn:Ev; phase_cases; cbn [andb negb]; try (by constructor); constructor; try done;
      intros [? ?]; done.
  - phase_cases; cbn [orb]; by constructor.
  - phase_cases; cbn [orb]; try (by constructor); apply t_fail; auto.
  - destruct (parseAgentEvent text) as [m|code fatal] eqn:Em; [destruct (strict_eq _ _) eqn:Er|destruct fatal];
      phase_cases; cbn [orb negb Bool.eqb]; try congruence; try (by constructor); try (apply t_fail; eauto; fail);
      econstructor; eauto.
  - destruct (is_true held) eqn:Eh, (num_eqb (readyAtMs s) (numz 0)) eqn:En;
      phase_cases; cbn [orb andb]; try (constructor; auto; intros [? ?]; done).
  - phase_cases; cbn [orb]; constructor; auto.
  - phase_cases; cbn [orb]; by constructor.
Qed.

Lemma reduce_ok s ev now : agent_ok s -> agent_ok (fst (sshAgentReduce s ev now)).
Proof.
  intros H. destruct (reduce_transition s ev now); simpl fst; auto with qsbw.
  all: try (pose proof H as [Hg Hp Hf Hm Hc Hd Hr]).
  - split; simpl; try done. by left.
  - destruct Hm as [Hm|]; [|congruence].
    split; simpl; auto; try done; [rewrite Hg; intuition congruence|by rewrite H0 in Hr].
  - apply (failMidRun_ok s sshAgentNoAction code H); intuition congruence.
  - apply event_wf_ready in H2; [|by eapply parseAgentEvent_wf].
    destruct Hm as [Hm|]; [|congruence]. split; simpl; auto; done.
  - destruct Hm as [Hm|]; [|by destruct H0]. split; simpl; auto; done.
  - apply (failOnExit_ok s sshAgentNoAction _ H). by apply H0.
  - destruct Hm as [Hm|]; [|intuition congruence].
    split; simpl; auto; try done; [rewrite Hg; intuition congruence|].
    destruct H0 as [E|E]; by rewrite E in Hr.
Qed.

Lemma reachable_ok s : agent_reachable s -> agent_ok s.
Proof. induction 1; auto using reduce_ok with qsbw. Qed.

Lemma live_not s : ~ live s -> phase s = disabled \/ phase s = failed.
Proof. unfold live. destruct (phase s); intuition congruence. Qed.

Lemma restart_delay_int n :
  sshAgentRestartDelayMs (jz n) =
  numz (if n <? 1 then SSH_AGENT_BACKOFF_BASE_MS
        else Z.min SSH_AGENT_BACKOFF_MAX_MS (SSH_AGENT_BACKOFF_BASE_MS * 2 ^ (n - 1))).
Proof.
  unfold sshAgentRestartDelayMs. cbn [to_num jz]. unfold num_floor, numz. cbn iota. rewrite !Qfloor_Z.
  by destruct (n <? 1).
Qed.

Lemma backoff_range n : SSH_AGENT_BACKOFF_BASE_MS <=
  (if n <? 1 then SSH_AGENT_BACKOFF_BASE_MS
   else Z.min SSH_AGENT_BACKOFF_MAX_MS (SSH_AGENT_BACKOFF_BASE_MS * 2 ^ (n - 1))) <= SSH_AGENT_BACKOFF_MAX_MS.
Proof.
  unfold SSH_AGENT_BACKOFF_BASE_MS, SSH_AGENT_BACKOFF_MAX_MS. destruct (Z.ltb_spec n 1); [lia|].
  pose proof (Z.pow_pos_nonneg 2 (n - 1) ltac:(lia) ltac:(lia)). lia.
Qed.

(** [drop_last_unit] takes off exactly the terminator. *)
Lemma drop_last_unit_app c s : drop_last_unit c (s ++ [c]) = s.
Proof.
  unfold drop_last_unit. rewrite last_snoc, N.eqb_refl, length_app. simpl.
  replace (length s + 1 - 1)%nat with (length s) by lia. by rewrite take_app_length.
Qed.

Lemma drop_last_unit_other c d s : c <> d -> drop_last_unit c (s ++ [d]) = s ++ [d].
Proof. intros H. unfold drop_last_unit. rewrite last_snoc. by destruct (N.eqb_spec d c). Qed.

Lemma text_object_ends o : exists s, text (JObj o) = s ++ [125%N] /\ s <> [].
Proof. cbn [text]. eexists (123%N :: _). split; [by rewrite app_comm_cons|done]. Qed.

(** Inside the window no run is long enough to count as healthy. *)
Definition within (lo : Z) (s : agent_state) : Prop :=
  exists t, readyAtMs s = numz t /\ (t = 0 \/ lo <= t < lo + SSH_AGENT_HEALTHY_MS).

Lemma not_healthy lo s t : 0 < lo -> within lo s -> lo <= t < lo + SSH_AGENT_HEALTHY_MS ->
  num_ltb (numz 0) (readyAtMs s) && num_leb (numz SSH_AGENT_HEALTHY_MS) (num_sub (numz t) (readyAtMs s)) = false.
Proof.
  intros Hlo (r & -> & Hr) Ht. rewrite num_ltb_int. destruct (Z.ltb_spec 0 r); [|done]. cbn [andb].
  rewrite num_sub_int, num_leb_int. apply Z.leb_gt. lia.
Qed.

Lemma window_step lo s e : 0 < lo -> in_window lo e -> within lo s -> phase s <> disabled ->
  let s' := fst (sshAgentReduce s (fst e) (snd e)) in
  within lo s' /\ phase s' <> disabled /\ (phase s = failed -> phase s' = failed) /\
  (phase s' = failed \/ failures s' = failures s + (if is_exit e then 1 else 0)).
Proof.
  intros Hlo [(t & Et & Ht) He] Hw Hd. cbv zeta. destruct e as [ev now]; simpl in *. subst now. unfold is_exit. simpl.
  pose proof (reduce_transition s ev (jz t)) as Htr. cbn [to_num jz] in Htr. rewrite num_or_zero_int in Htr.
  assert (W0 : within lo (set_run s (failures s) (numz 0))) by (exists 0; auto).
  destruct Htr as [ev Hs|v|v|Hs|ev code Hs Hev|text m Hs|text m Hs|held _ Hh|held [Hl Hf]|Hs]; cbn [fst] in *; try done.
  - split_and!; try done. destruct ev; try (right; lia). left. by destruct (live_not _ Hs).
  - split_and!; simpl; [done|done|congruence|right; lia].
  - split_and!; simpl; [done|done|intuition congruence|]. right. destruct Hev as [->|[? ->]]; lia.
  - split_and!; simpl; [exists t; auto|done|congruence|right; lia].
  - split_and!; simpl; [done|done|done|right; lia].
  - congruence.
  - pose proof (not_healthy lo s t Hlo Hw Ht) as NH.
    unfold sshAgentFailOnExit. cbv zeta. rewrite NH.
    destruct (SSH_AGENT_MAX_RESTARTS <? _); cbn [fst]; split_and!; simpl; try done; try (exists 0; by auto); auto.
  - split_and!; simpl; [done|done|intuition congruence|right; lia].
Qed.

Lemma sshAgentRun_cons s e evs :
  sshAgentRun s (e :: evs) = sshAgentRun (fst (sshAgentReduce s (fst e) (snd e))) evs.
Proof. done. Qed.

Lemma window_run lo evs s : 0 < lo -> Forall (in_window lo) evs -> within lo s -> phase s <> disabled ->
  phase (sshAgentRun s evs) = failed \/
  (phase s <> failed /\ failures (sshAgentRun s evs) = failures s + Z.of_nat (length (List.filter is_exit evs))).
Proof.
  intros Hlo Hall. revert s; induction Hall as [|e evs He _ IH]; intros s Hw Hd.
  - destruct (decide (phase s = failed)); [by left|]. right. split; [done|simpl; lia].
  - destruct (window_step lo s e Hlo He Hw Hd) as (Hw' & Hd' & Hf & Hn). rewrite sshAgentRun_cons.
    destruct (IH _ Hw' Hd') as [|[Hnf Hc]]; [by left|right].
    split; [tauto|]. rewrite Hc. destruct Hn as [|Hn]; [done|]. rewrite Hn. simpl List.filter.
    destruct (is_exit e); simpl length; lia.
Qed.

Lemma run_reachable evs s : agent_reachable s -> agent_reachable (sshAgentRun s evs).
Proof. revert s; induction evs as [|e evs IH]; intros s H; [done|]. apply IH. by constructor. Qed.

Lemma control_message_plain type extra :
  NoDup (map u ("v" :: "type" :: map fst extra))%string ->
  Forall (fun kv => index_key (u (fst kv)) = None /\ plain (snd kv)) extra ->
  control_message type extra =
    JObj (fields (("v", jz SSH_AGENT_CONTROL_VERSION) :: ("type", JStr (u type)) :: extra)%string) /\
  plain (control_message type extra).
Proof.
  intros Hn Hf.
  assert (E : control_message type extra =
    JObj (fields (("v", jz SSH_AGENT_CONTROL_VERSION) :: ("type", JStr (u type)) :: extra)%string)).
  { unfold control_message. f_equal.
    pose proof (fold_obj_set_fresh (fields extra) (fields [("v", jz 1); ("type", JStr (u type))]%string)) as F.
    unfold fields in F. rewrite fold_left_fmap in F. apply F.
    - apply Forall_map. eapply Forall_impl; [exact Hf|]. by intros ? [? _].
    - rewrite <- map_app, map_map. simpl in Hn |- *. by rewrite map_map in Hn. }
  split; [exact E|]. rewrite E. constructor.
  - apply canonical_names; [|unfold fields; rewrite map_map; simpl in Hn |- *; by rewrite map_map in Hn].
    repeat (constructor; [by vm_compute|]). apply Forall_map. eapply Forall_impl; [exact Hf|]. by intros ? [? _].
  - repeat (constructor; [by constructor|]). apply Forall_map. eapply Forall_impl; [exact Hf|]. by intros ? [_ ?].
Qed.

Lemma event_wf_accepted o : event_wf (JObj o) = true ->
  (if negb (strict_eq (jget (JObj o) (u "v")) (jz SSH_AGENT_CONTROL_VERSION))
   then Rejected (u "VERSION_MISMATCH") true
   else if negb (known_type (jget (JObj o) (u "type"))) then Rejected (u "UNKNOWN_TYPE") true
   else if strict_eq (jget (JObj o) (u "type")) (JStr (u "ready")) &&
           (negb (nonempty_string (jget (JObj o) (u "socketPath")))
            || negb (nonempty_string (jget (JObj o) (u "fifoPath")))
            || negb (nonempty_string (jget (JObj o) (u "agentVersion"))))
   then Rejected (u "MALFORMED") true
   else Parsed (JObj o)) = Parsed (JObj o).
Proof.
  unfold event_wf. intros H. bool_hyps. rewrite H, H1. cbn [negb].
  destruct (strict_eq (jget (JObj o) (u "type")) _); [|done]. cbn [negb orb] in H0. bool_hyps.
  by rewrite H0, H2, H3.
Qed.

(** What only the switch may do. *)
Definition not_switched (e : agent_event * jsval) : Prop := match fst e with enabled _ => False | _ => True end.

Lemma sshAgentRun_app s a b : sshAgentRun s (a ++ b) = sshAgentRun (sshAgentRun s a) b.
Proof. apply fold_left_app. Qed.

(** The phase "failed" absorbs every event that is not the switch. *)
Lemma failed_absorbing s evs : phase s = failed -> Forall not_switched evs -> sshAgentRun s evs = s.
Proof.
  intros Hs. induction 1 as [|[ev now] evs Hev _ IH]; [done|]. rewrite sshAgentRun_cons.
  assert (fst (sshAgentReduce s ev now) = s) as E; [|by simpl; rewrite E].
  unfold not_switched in Hev. simpl in Hev. unfold sshAgentReduce. rewrite Hs. by destruct ev.
Qed.

(** ** Properties *)

(** C4. In every state the supervisor can reach the gate is open exactly in
    the phase "ready", with a socket, a FIFO and a version that are non-empty
    strings; the failure count stays within the restart cap until the
    supervisor has given up, which it reports as a crash loop; and a disabled
    supervisor has forgotten everything. *)
Theorem sshAgent_invariant s : agent_reachable s ->
  (gateOpen s = true <-> phase s = ready) /\
  (gateOpen s = true -> nonempty_string (socketPath s) = true /\
     nonempty_string (fifoPath s) = true /\ nonempty_string (agentVersion s) = true) /\
  (0 <= failures s /\ (failures s <= SSH_AGENT_MAX_RESTARTS \/ phase s = failed)) /\
  (phase s = failed -> errorCode s = u "CRASH_LOOP") /\
  (phase s = disabled -> s = sshAgentInitialState).
Proof. intros H. destruct (reachable_ok s H). split_and!; auto. Qed.

Lemma sshAgent_invariant_witness :
  let s := sshAgentRun sshAgentInitialState
             [(enabled (JBool true), jz 1); (started, jz 2); (line (JStr ready_line), jz 3)] in
  gateOpen s = true /\ nonempty_string (socketPath s) = true.
Proof.
  intros s. assert (H : agent_reachable s) by repeat constructor.
  assert (G : gateOpen s = true) by by vm_compute.
  split; [exact G|]. apply (proj1 (proj2 (sshAgent_invariant s H)) G).
Defined.

(** Only a well-formed [ready] line answering [hello] opens the gate: any
    other event in any state leaves a shut gate shut. *)
Theorem gate_opens_only_on_ready s ev now :
  gateOpen s = false -> gateOpen (fst (sshAgentReduce s ev now)) = true ->
  exists text m, ev = line text /\ phase s = handshaking /\ parseAgentEvent text = Parsed m /\
    event_wf m = true /\ strict_eq (jget m (u "type")) (JStr (u "ready")) = true /\
    socketPath (fst (sshAgentReduce s ev now)) = jget m (u "socketPath").
Proof.
  intros H. destruct (reduce_transition s ev now) as [| | | | |text m Hs Hm Ht| | |held Hl|]; simpl; try congruence.
  - intros _. exists text, m. split_and!; eauto using parseAgentEvent_wf.
  - unfold sshAgentFailOnExit. destruct (errorCode _); destruct (SSH_AGENT_MAX_RESTARTS <? _); done.
Qed.


Lemma gate_opens_only_on_ready_witness :
  let s := sshAgentRun sshAgentInitialState [(enabled (JBool true), jz 1); (started, jz 2)] in
  exists text m, line (JStr ready_line) = line text /\ phase s = handshaking /\ parseAgentEvent text = Parsed m /\
    event_wf m = true /\ strict_eq (jget m (u "type")) (JStr (u "ready")) = true /\
    socketPath (fst (sshAgentReduce s (line (JStr ready_line)) (jz 3))) = jget m (u "socketPath").
Proof. intros s. apply (gate_opens_only_on_ready s (line (JStr ready_line)) (jz 3)); by vm_compute. Defined.

(** The panel acts only when the phase says so: the helper is started
    exactly on entering "starting" from a phase with no helper, [hello] is
    written only to a helper that just started, a message reaches the panel
    only through an open gate and changes no state, and a restart is scheduled
    only on entering "backoff" or "elsewhere", 500 ms to 30 s ahead. *)
Theorem sshAgentReduce_action s ev now :
  let '(s', a) := sshAgentReduce s ev now in
  (start a = true -> phase s' = starting /\ (phase s = backoff \/ phase s = elsewhere \/ ~ live s)) /\
  (writeHello a = true -> phase s = starting /\ phase s' = handshaking) /\
  (forall m, message a = Some m -> phase s = ready /\ s' = s /\ event_wf m = true) /\
  (restartInMs a = numz (-1) \/
   (phase s' = backoff \/ phase s' = elsewhere) /\
   exists ms, restartInMs a = numz ms /\ SSH_AGENT_BACKOFF_BASE_MS <= ms <= SSH_AGENT_BACKOFF_MAX_MS).
Proof.
  destruct (reduce_transition s ev now) as [| | | | | |text m Hs Hm| |held Hl|Hs]; try (by split_and!; auto).
  - split_and!; simpl; try done; [|by left]. intros ? [= <-]. eauto using parseAgentEvent_wf.
  - split_and!; simpl; try done. right. split; [by right|]. by exists SSH_AGENT_ELSEWHERE_RETRY_MS.
  - unfold sshAgentFailOnExit. cbv zeta. destruct (SSH_AGENT_MAX_RESTARTS <? _); split_and!; simpl; auto; try done.
    right. split; [by left|]. rewrite restart_delay_int. eexists. split; [reflexivity|]. apply backoff_range.
  - split_and!; simpl; try done; [|by left]. intuition.
Qed.

(** A helper that keeps dying is left off: whatever else happens in
    between, once more than [SSH_AGENT_MAX_RESTARTS] deaths in a row fall
    within one minute (none of them a wait for the runtime lock) the
    supervisor has failed, and nothing but the user's switch (no line, timer
    or late exit) brings it back. *)
Theorem crash_loop_fails lo evs s later :
  agent_reachable s -> live s -> readyAtMs s = numz 0 -> 0 < lo -> Forall (in_window lo) evs ->
  SSH_AGENT_MAX_RESTARTS < failures s + Z.of_nat (length (List.filter is_exit evs)) ->
  Forall not_switched later ->
  phase (sshAgentRun s (evs ++ later)) = failed.
Proof.
  intros Hs [Hd _] Hr Hlo Hw Hn Hl. rewrite sshAgentRun_app.
  assert (phase (sshAgentRun s evs) = failed) as F.
  { destruct (window_run lo evs s Hlo Hw) as [|[_ Hc]]; [exists 0; auto|done|done|].
    destruct (ok_failed _ (reachable_ok _ (run_reachable evs s Hs))) as [Hm|]; [lia|done]. }
  by rewrite failed_absorbing.
Qed.

Lemma crash_loop_fails_witness :
  let s := sshAgentRun sshAgentInitialState [(enabled (JBool true), jz 1)] in
  let life := [(started, jz 10); (exited (JBool false), jz 11); (restartTimer, jz 12)] in
  phase (sshAgentRun s (concat (replicate 6 life) ++ life)) = failed.
Proof.
  intros s life.
  assert (W : Forall (in_window 10) (concat (replicate 6 life))).
  { repeat constructor; simpl; try (exists 10; by vm_compute); try (exists 11; by vm_compute); exists 12; by vm_compute. }
  apply (crash_loop_fails 10);
    [repeat constructor|by vm_compute|by vm_compute|lia|exact W|by vm_compute|by repeat constructor].
Defined.

(** Every line the panel writes to the companion is one line of JSON: no
    control character before the final newline, so no field can inject a
    second message, and reading it back gives the version, the type and the
    fields that were sent. *)
Theorem agentControlLine_roundtrip type extra :
  NoDup (map u ("v" :: "type" :: map fst extra))%string ->
  Forall (fun kv => index_key (u (fst kv)) = None /\ plain (snd kv)) extra ->
  exists s, agentControlLine type extra = s ++ newline /\ one_line s /\
    json_parse s = Some (JObj (fields (("v", jz SSH_AGENT_CONTROL_VERSION) :: ("type", JStr (u type)) :: extra)%string)).
Proof.
  intros Hn Hf. pose proof (control_message_plain type extra Hn Hf) as [E P].
  unfold agentControlLine. rewrite (json_text_plain _ P). exists (text (control_message type extra)).
  split_and!; [done|by apply text_one_line|]. rewrite json_roundtrip by done. by rewrite E.
Qed.

Lemma agentControlLine_roundtrip_witness :
  exists s, agentControlLine "approve" [("requestId", jz 7); ("grantSeconds", jz 60)]%string = s ++ newline /\ one_line s /\
    json_parse s = Some (JObj (fields [("v", jz 1); ("type", JStr (u "approve")); ("requestId", jz 7);
                                       ("grantSeconds", jz 60)]%string)).
Proof.
  apply (agentControlLine_roundtrip "approve" [("requestId", jz 7); ("grantSeconds", jz 60)]%string).
  - by apply (bool_decide_eq_true_1 (NoDup _)); vm_compute.
  - repeat constructor.
Defined.

(** The reader accepts what the companion's contract allows and nothing
    else: a line is a message exactly when it is within the byte cap and
    parses to a well-formed version 1 object of a known type; in particular
    any such message, serialized, is read back as itself. *)
Theorem parseAgentEvent_contract :
  (forall m, plain m -> event_wf m = true -> (utf8ByteLength (text m) <= SSH_AGENT_MAX_LINE_BYTES)%nat ->
     parseAgentEvent (JStr (text m ++ newline)) = Parsed m) /\
  (forall l m, parseAgentEvent l = Parsed m -> event_wf m = true) /\
  (forall l code, parseAgentEvent l = Rejected code false -> drop_last_unit 13 (drop_last_unit 10 (text_of l)) = []).
Proof.
  split_and!; [|exact parseAgentEvent_wf|].
  - intros m Hp Hw Hl. unfold parseAgentEvent, text_of. cbn [is_nullish to_str]. unfold newline.
    rewrite drop_last_unit_app. destruct m as [| | | | | |o|]; try done.
    destruct (text_object_ends o) as (b & E & _). rewrite E, drop_last_unit_other by done. rewrite <- E.
    destruct (str_eqb (text (JObj o)) []) eqn:E0; [by apply str_eqb_eq in E0; rewrite E in E0; destruct b|].
    apply Nat.ltb_ge in Hl as ->. rewrite json_roundtrip by done. cbn [truthy typeof_object is_array negb orb].
    apply event_wf_accepted; done.
  - intros l code. unfold parseAgentEvent. destruct (str_eqb _ []) eqn:E0; [by apply str_eqb_eq in E0|].
    by repeat match goal with |- context [match ?x with _ => _ end] => destruct x end.
Qed.
