(* ===== verification/SshApproval.v ===== *)
(** * SSH signing approvals

    What [src/BitwardenModel.js] shows and answers when the companion asks for
    a signature: the escaping and bounding of client-supplied text, the prompt
    view, the queue of prompts, the grants list and its countdown, the cooldown
    after refusals, and the vault lifecycle table ([sshAgentVaultState],
    [sshAgentLifecycleTransition], [sshAgentSetupState]). Messages are JSON
    values read member by member, as the source reads them. *)

From stdpp Require Import base list numbers strings.
From Stdlib Require Import QArith Qround Sorting.Sorted.
Local Close Scope Q_scope.
From S2P Require Import Prelude.
From S2P Require Import JsValue.
From S2P Require Import Json.
From S2P Require Import SshAgent.
Local Open Scope Z_scope.

(** ** Text *)

Definition SSH_AGENT_REQUEST_DEADLINE_MS : Z := 120 * 1000.
Definition sshAgentRequestDeadlineMs : Z := SSH_AGENT_REQUEST_DEADLINE_MS.
Definition SSH_AGENT_MAX_NAME_CHARS : nat := 256.
Definition SSH_AGENT_MAX_PATH_CHARS : nat := 512.
Definition SSH_AGENT_MAX_DETAIL_CHARS : nat := 256.

(** The class of [SSH_AGENT_INVISIBLE_RE]. *)
Definition SSH_AGENT_INVISIBLE_RE (c : N) : bool :=
  in_range 0 31 c || in_range 127 159 c || in_range 8203 8207 c || in_range 8232 8238 c
  || in_range 8294 8297 c || (c =? 65279)%N.

Definition escape_invisible (c : N) : jstr :=
  if SSH_AGENT_INVISIBLE_RE c then u "\u" ++ slice_last 4 (u "0000" ++ digits 16 c) else [c].

Definition visibleText (value : jsval) : jstr := concat (map escape_invisible (text_of value)).

Definition boundedText (value : jsval) (limit : nat) : jstr :=
  let text := visibleText value in
  if (limit <? length text)%nat then take limit text else text.

Definition boundedPath (value : jsval) (limit : nat) : jstr :=
  let text := visibleText value in
  if (limit <? length text)%nat then 8230%N :: drop (length text - (limit - 1)) text else text.

(** A finite whole number, zero or more. *)
Definition isRequestId (value : jsval) : bool :=
  match value with
  | JNum (Fin q) => num_eqb (num_floor (Fin q)) (Fin q) && num_leb (numz 0) (Fin q)
  | _ => false
  end.

Definition sshAgentApproveLine (requestId grantSeconds : jsval) : jstr :=
  if isRequestId requestId then
    let seconds := num_floor (to_num grantSeconds) in
    let seconds := if negb (is_finite seconds) || num_ltb seconds (numz 0) then numz 0 else seconds in
    let seconds := num_min seconds (numz SSH_AGENT_APPROVAL_WINDOW_MAX_SEC) in
    agentControlLine "approve" [("requestId", requestId); ("grantSeconds", JNum seconds)]%string
  else [].

Definition sshAgentDenyLine (requestId : jsval) : jstr :=
  if isRequestId requestId then agentControlLine "deny" [("requestId", requestId)]%string else [].

Definition sshAgentUnlockCancelledLine (requestId : jsval) : jstr :=
  if isRequestId requestId
  then agentControlLine "unlock_cancelled" [("requestId", requestId); ("reason", JStr (u "user-cancelled"))]%string
  else [].

Definition sshAgentRevokeGrantLine (grantId : jsval) : jstr :=
  if isRequestId grantId then agentControlLine "revoke_grant" [("grantId", grantId)]%string else [].

Definition processNameFromPath (processPath : jsval) : jstr :=
  let text := visibleText processPath in
  let name := match last_index_of 47 text with Some cut => drop (S cut) text | None => text end in
  boundedText (JStr name) SSH_AGENT_MAX_NAME_CHARS.

Definition formatDuration (seconds : jsval) : jstr :=
  let total := num_max (numz 0) (floor_or_zero seconds) in
  let minutes := num_floor (num_div total (numz 60)) in
  let rest := num_rem total (numz 60) in
  if num_ltb (numz 0) minutes && num_ltb (numz 0) rest then num_str minutes ++ u "m " ++ num_str rest ++ u "s"
  else if num_ltb (numz 0) minutes then num_str minutes ++ u "m"
  else num_str rest ++ u "s".

(** ** The prompt *)

Definition SSH_AGENT_PROVENANCE_NOTE : jstr :=
  u "Reported by the system, not verified. Only the requesting user was checked.".
Definition SSH_AGENT_FORWARDED_WARNING : jstr :=
  u "Forwarded from a remote host. The program shown is the local ssh relaying it, not the one that will use the signature, so it can only be approved once.".

Definition sshAgentOperationLabel (operation : jstr) (detail : jsval) : jstr :=
  let text := boundedText detail SSH_AGENT_MAX_DETAIL_CHARS in
  if str_eqb operation (u "sshsig") then
    if str_eqb text (u "git") then u "Git commit or tag signature"
    else uq "Signature for `" ++ text ++ uq "`"
  else if str_eqb operation (u "ssh-auth") then u "SSH login as " ++ text
  else if str_eqb operation (u "ssh-sign") then u "Unrecognised data -- approve only if you expect it"
  else [].

Definition sshAgentOperation (value : jsval) : jstr :=
  match value with
  | JStr s => if str_eqb s (u "sshsig") || str_eqb s (u "ssh-auth") || str_eqb s (u "ssh-sign") then s else []
  | _ => []
  end.

Definition is_base64_unit (c : N) : bool := is_alnum c || (c =? 43)%N || (c =? 47)%N.

(** [/^SHA256:[A-Za-z0-9+/]{43}$/] *)
Definition SSH_HOST_KEY_RE (s : jstr) : bool :=
  starts_with (u "SHA256:") s && (length s =? 50)%nat && all_in is_base64_unit (drop 7 s).

Definition sshAgentHostKey (operation : jstr) (hostKey : jsval) : jstr :=
  match hostKey with
  | JStr s => if str_eqb operation (u "ssh-auth") && SSH_HOST_KEY_RE s then s else []
  | _ => []
  end.

Definition sshAgentDestinationLabel (operation hostKey : jstr) : jstr :=
  if negb (str_eqb operation (u "ssh-auth")) then []
  else match hostKey with
       | [] => u "Server not reported by the SSH client"
       | _ => u "Server host key " ++ hostKey
       end.

Record prompt_view := mkPrompt {
  requestId : num;
  keyId : jstr;
  keyName : jstr;
  fingerprint : jstr;
  pid : num;
  processPath : jstr;
  processName : jstr;
  operation : jstr;
  operationLabel : jstr;
  hostKey : jstr;
  destinationLabel : jstr;
  grantOffered : bool;
  grantSeconds : num;
  grantLabel : jstr;
  grantShortLabel : jstr;
  forwardedWarning : jstr;
  provenanceNote : jstr
}.

(** Math.max(0, Math.min(900, Math.floor(Number(w)) || 0)) *)
Definition approval_window (w : jsval) : num :=
  num_max (numz 0) (num_min (numz SSH_AGENT_APPROVAL_WINDOW_MAX_SEC) (floor_or_zero w)).

Definition sshAgentPromptView (message approvalWindowSec : jsval) : prompt_view :=
  let request := jor message (JObj []) in
  let get k := jget request (u k) in
  let window := approval_window approvalWindowSec in
  let forwarded := is_true (get "forwarded"%string) in
  let offered := is_true (get "grantOffered"%string) && num_ltb (numz 0) window && negb forwarded in
  let op := sshAgentOperation (get "operation"%string) in
  let hk := sshAgentHostKey op (get "hostKey"%string) in
  {| requestId := match get "requestId"%string with
                  | JNum n => if isRequestId (JNum n) then n else numz (-1)
                  | _ => numz (-1)
                  end;
     keyId := boundedText (get "keyId"%string) SSH_AGENT_MAX_NAME_CHARS;
     keyName := boundedText (get "keyName"%string) SSH_AGENT_MAX_NAME_CHARS;
     fingerprint := boundedText (get "fingerprint"%string) SSH_AGENT_MAX_NAME_CHARS;
     pid := floor_or_zero (get "pid"%string);
     processPath := boundedPath (get "processPath"%string) SSH_AGENT_MAX_PATH_CHARS;
     processName := processNameFromPath (get "processPath"%string);
     operation := op;
     operationLabel := sshAgentOperationLabel op (get "operationDetail"%string);
     hostKey := hk;
     destinationLabel := sshAgentDestinationLabel op hk;
     grantOffered := offered;
     grantSeconds := if offered then window else numz 0;
     grantLabel := if offered then u "Approve for this program · " ++ formatDuration (JNum window) else [];
     grantShortLabel := if offered then u "Approve " ++ formatDuration (JNum window) else [];
     forwardedWarning := if forwarded then SSH_AGENT_FORWARDED_WARNING else [];
     provenanceNote := SSH_AGENT_PROVENANCE_NOTE |}.

Definition same_request_fields : list string :=
  ["fingerprint"; "pid"; "processPath"; "operation"; "operationDetail"; "hostKey"; "forwarded"; "grantOffered"]%string.

Definition sshAgentSameRequest (a b : jsval) : bool :=
  if negb (truthy a) || negb (truthy b) then false
  else if negb (forallb (fun f => strict_eq (jget a (u f)) (jget b (u f))) same_request_fields) then false
  else nonempty_string (jget a (u "fingerprint")).

(** ** The queue of prompts *)

Definition array_items (v : jsval) : list jsval := match v with JArr l => l | _ => [] end.

(** [typeof maxQueue === "number" && maxQueue > 0 ? maxQueue : 4] *)
Definition queue_cap (maxQueue : jsval) : num :=
  match maxQueue with
  | JNum n => if num_ltb (numz 0) n then n else numz 4
  | _ => numz 4
  end.

Definition has_request_id (id item : jsval) : bool := strict_eq (jget item (u "requestId")) id.

Definition sshAgentEnqueuePrompt (queue message maxQueue : jsval) : list jsval :=
  let list := array_items queue in
  let id := jget message (u "requestId") in
  if negb (truthy message) || negb (isRequestId id) then list
  else if existsb (fun item => truthy item && has_request_id id item) list then list
  else if num_leb (queue_cap maxQueue) (numn (length list)) then list
  else list ++ [message].

Definition sshAgentDequeuePrompt (queue : jsval) : jsval * list jsval :=
  match array_items queue with
  | [] => (JNull, [])
  | next :: remaining => (next, remaining)
  end.

Definition sshAgentRemovePrompt (queue id : jsval) : list jsval :=
  List.filter (fun item => truthy item && negb (has_request_id id item)) (array_items queue).

Definition sshAgentPendingCount (activePrompt queue : jsval) : nat :=
  ((if truthy activePrompt then 1 else 0) + length (array_items queue))%nat.

(** ** Grants *)

Definition grant_view (now : num) (grant : jsval) : jsval :=
  let get k := jget grant (u k) in
  let remaining := num_max (numz 0) (floor_or_zero (get "expiresInSec"%string)) in
  let op := sshAgentOperation (get "operation"%string) in
  let hk := sshAgentHostKey op (get "hostKey"%string) in
  JObj (fields
    [("grantId", get "grantId");
     ("keyName", JStr (boundedText (get "keyName") SSH_AGENT_MAX_NAME_CHARS));
     ("fingerprint", JStr (boundedText (get "fingerprint") SSH_AGENT_MAX_NAME_CHARS));
     ("pid", JNum (floor_or_zero (get "pid")));
     ("processPath", JStr (boundedPath (get "processPath") SSH_AGENT_MAX_PATH_CHARS));
     ("processName", JStr (processNameFromPath (get "processPath")));
     ("operationLabel", JStr (sshAgentOperationLabel op (get "operationDetail")));
     ("hostKey", JStr hk);
     ("expiresAtMs", JNum (num_add now (num_mul remaining (numz 1000))));
     ("remainingSec", JNum remaining);
     ("remainingLabel", JStr (if num_ltb (numz 0) remaining
                              then formatDuration (JNum remaining) ++ u " left" else u "expiring"))]%string).

Definition sshAgentGrantViews (grants nowMs : jsval) : list jsval :=
  let now := num_or_zero (to_num nowMs) in
  map (grant_view now)
    (List.filter (fun g => isRequestId (jget g (u "grantId")))
       (map (fun g => jor g (JObj [])) (array_items grants))).

(** One view at [now]: None when the grant has lapsed. *)
Definition grant_at (now : num) (view : jsval) : option jsval :=
  match view, jget view (u "expiresAtMs") with
  | JObj o, JNum expires =>
    if num_leb now (numz 0) then Some view
    else
      let remaining := num_max (numz 0) (num_ceil (num_div (num_sub expires now) (numz 1000))) in
      if num_leb remaining (numz 0) then None
      else Some (JObj (obj_set (obj_set o (u "remainingSec") (JNum remaining))
                               (u "remainingLabel") (JStr (formatDuration (JNum remaining) ++ u " left"))))
  | _, _ => Some view
  end.

Definition sshAgentGrantsAt (views nowMs : jsval) : list jsval :=
  let now := num_or_zero (to_num nowMs) in
  omap (fun v => grant_at now (jor v (JObj []))) (array_items views).

Definition sshAgentLoadingNote : jstr :=
  u "Loading your SSH keys from the vault. The signing request is still waiting.".

Definition sshAgentShouldPrompt (context : jsval) : bool :=
  is_object context && negb (is_true (jget context (u "screenLocked"))).

(** ** The cooldown *)

Definition SSH_AGENT_COOLDOWN_AFTER : Z := 2.
Definition SSH_AGENT_COOLDOWN_MS : Z := 5 * 60 * 1000.

Record cooldown := mkCooldown { refusals : Z; untilMs : num }.

Definition sshAgentCooldownInitial : cooldown := mkCooldown 0 (numz 0).

Definition sshAgentCooldownAfter (current : cooldown) (outcome : jstr) (nowMs : jsval) : cooldown :=
  let now := num_or_zero (to_num nowMs) in
  if str_eqb outcome (u "approved") || str_eqb outcome (u "resumed") then mkCooldown 0 (numz 0)
  else if negb (str_eqb outcome (u "denied")) && negb (str_eqb outcome (u "timeout"))
  then mkCooldown (refusals current) (untilMs current)
  else
    let n := refusals current + 1 in
    mkCooldown n (if SSH_AGENT_COOLDOWN_AFTER <=? n then num_add now (numz SSH_AGENT_COOLDOWN_MS)
                  else untilMs current).

Definition sshAgentCooldownActive (current : cooldown) (nowMs : jsval) : bool :=
  num_ltb (num_or_zero (to_num nowMs)) (untilMs current).

Definition sshAgentCooldownStatus (current : cooldown) (nowMs : jsval) : bool * num * jstr :=
  let now := num_or_zero (to_num nowMs) in
  if num_leb (untilMs current) now then (false, numz 0, [])
  else
    let remaining := num_ceil (num_div (num_sub (untilMs current) now) (numz 1000)) in
    (true, remaining,
     u "SSH signing requests are being refused after repeated unanswered prompts. Normal service resumes in "
       ++ formatDuration (JNum remaining) ++ u ".").

(** ** The vault lifecycle *)

Definition SSH_AGENT_LOCK_ACK_TIMEOUT_MS : Z := 2000.
Definition sshAgentLockAckTimeoutMs : Z := SSH_AGENT_LOCK_ACK_TIMEOUT_MS.

Definition sshAgentVaultState (context : jsval) : jstr :=
  let ctx := jor context (JObj []) in
  let flag k := truthy (jget ctx (u k)) in
  if negb (flag "enabled"%string) || negb (flag "helperReady"%string) then u "disabled"
  else if negb (flag "loggedIn"%string) then u "logged-out"
  else if flag "loading"%string then u "loading"
  else if flag "unlocked"%string then u "unlocked"
  else if flag "hasPublicCache"%string then u "locked-cached" else u "locked-empty".

Definition SSH_AGENT_LOCK_EVENTS : list jstr := [u "lock"; u "screen-lock"; u "suspend"].
Definition SSH_AGENT_LOGOUT_EVENTS : list jstr := [u "logout"; u "account-change"].
Definition SSH_AGENT_LOAD_EVENTS : list jstr := [u "unlock"; u "sync"; u "startup"].

Record lifecycle_action := mkLifecycle {
  controlLines : list jstr;
  cancelLoad : bool;
  startLoad : bool;
  awaitLockAck : bool;
  stopHelper : bool;
  clearPublic : bool;
  advanceEpoch : bool
}.

Definition is_event (l : list jstr) (event : jstr) : bool := existsb (str_eqb event) l.

Definition sshAgentLifecycleTransition (event : jstr) (context : jsval) : lifecycle_action :=
  let ctx := jor context (JObj []) in
  let live := truthy (jget ctx (u "enabled")) && truthy (jget ctx (u "helperReady")) in
  if str_eqb event (u "disable") || str_eqb event (u "shutdown") then
    {| controlLines := []; cancelLoad := true; startLoad := false; awaitLockAck := false;
       stopHelper := true; clearPublic := true; advanceEpoch := false |}
  else if is_event SSH_AGENT_LOCK_EVENTS event then
    {| controlLines := if live then [sshAgentVaultLockedLine (jget ctx (u "epoch"))] else [];
       cancelLoad := true; startLoad := false; awaitLockAck := live;
       stopHelper := false; clearPublic := false; advanceEpoch := false |}
  else if is_event SSH_AGENT_LOGOUT_EVENTS event then
    {| controlLines := if live then [sshAgentLoggedOutLine] else [];
       cancelLoad := true; startLoad := false; awaitLockAck := false;
       stopHelper := false; clearPublic := true; advanceEpoch := live |}
  else if is_event SSH_AGENT_LOAD_EVENTS event then
    {| controlLines := []; cancelLoad := false; startLoad := live && truthy (jget ctx (u "unlocked"));
       awaitLockAck := false; stopHelper := false; clearPublic := false; advanceEpoch := false |}
  else
    {| controlLines := []; cancelLoad := false; startLoad := false; awaitLockAck := false;
       stopHelper := false; clearPublic := false; advanceEpoch := false |}.

Record setup_state := mkSetup { setup_name : jstr; busy : bool; setup_message : jstr }.

Definition sshAgentSetupState (opts : jsval) : setup_state :=
  let o := jor opts (JObj []) in
  let phase_is s := strict_eq (jget o (u "phase")) (JStr (u s)) in
  if negb (truthy (jget o (u "enabled"))) then
    mkSetup (u "disabled") false
      (u "The SSH agent is off. Your vault works normally; SSH keys stay read-only records.")
  else if negb (truthy (jget o (u "supervisable"))) then
    mkSetup (u "error") false
      (u "The SSH agent needs a per-login runtime directory and could not find one. Without XDG_RUNTIME_DIR it refuses to start rather than use a path it cannot trust.")
  else if phase_is "ready"%string then
    mkSetup (u "enabled") false (u "The SSH agent is running and serving its socket.")
  else if phase_is "starting"%string || phase_is "handshaking"%string then
    mkSetup (u "enabled") true (u "Starting the SSH agent helper...")
  else
    mkSetup (u "error") false
      (sshAgentErrorMessage (match jget o (u "errorCode") with
                             | JStr (c :: t) => c :: t
                             | _ => u "EXITED"
                             end)).

(** ** What the properties speak of *)

(** A queue as the panel builds it: any mix of the three operations. *)
Inductive queue_reachable (cap : jsval) : list jsval -> Prop :=
| queue_empty : queue_reachable cap []
| queue_push q m : queue_reachable cap q -> queue_reachable cap (sshAgentEnqueuePrompt (JArr q) m cap)
| queue_pop q : queue_reachable cap q -> queue_reachable cap (snd (sshAgentDequeuePrompt (JArr q)))
| queue_remove q id : queue_reachable cap q -> queue_reachable cap (sshAgentRemovePrompt (JArr q) id).

(** Two prompts of one request. *)
Definition same_id (a b : jsval) : bool := has_request_id (jget b (u "requestId")) a.

Definition queue_ok (cap : jsval) (q : list jsval) : Prop :=
  Forall (fun m => truthy m = true /\ isRequestId (jget m (u "requestId")) = true) q /\
  StronglySorted (fun a b => same_id a b = false) q /\
  (forall z, cap = jz z -> 0 < z -> Z.of_nat (length q) <= z).

Definition drawable (s : jstr) : Prop := Forall (fun c => SSH_AGENT_INVISIBLE_RE c = false) s.

(** The outcomes of a prompt, with the clock in milliseconds. *)
Definition cooldown_run (evs : list (jstr * Z)) : cooldown :=
  fold_left (fun s e => sshAgentCooldownAfter s (fst e) (jz (snd e))) evs sshAgentCooldownInitial.

Definition is_refusal (o : jstr) : bool := str_eqb o (u "denied") || str_eqb o (u "timeout").
Definition is_reset (o : jstr) : bool := str_eqb o (u "approved") || str_eqb o (u "resumed").

(** The refusals since the last approval, newest first. *)
Fixpoint recent_refusals (newest_first : list (jstr * Z)) : list Z :=
  match newest_first with
  | [] => []
  | (o, t) :: rest =>
    if is_reset o then [] else if is_refusal o then t :: recent_refusals rest else recent_refusals rest
  end.

(** A session of the queue: what was pushed is in the operations, what was
    shown is the output, oldest first. *)
Inductive queue_op := Push (message : jsval) | Pop | Remove (id : jsval).

Definition queue_step (cap : jsval) (st : list jsval * list jsval) (op : queue_op) : list jsval * list jsval :=
  let '(q, shown) := st in
  match op with
  | Push m => (sshAgentEnqueuePrompt (JArr q) m cap, shown)
  | Pop => match q with
           | [] => (q, shown)
           | _ => let '(next, remaining) := sshAgentDequeuePrompt (JArr q) in (remaining, shown ++ [next])
           end
  | Remove id => (sshAgentRemovePrompt (JArr q) id, shown)
  end.

Definition queue_run (cap : jsval) (ops : list queue_op) : list jsval * list jsval :=
  fold_left (queue_step cap) ops ([], []).

Definition pushed (ops : list queue_op) : list jsval :=
  omap (fun op => match op with Push m => Some m | _ => None end) ops.

(** The grants of a message that still run at [t], announced at [t0]. *)
Definition grant_running (t0 t : Z) (g : jsval) : bool :=
  match jget g (u "expiresInSec") with
  | JNum (Fin q) => isRequestId (jget g (u "grantId")) && (t <? t0 + 1000 * Z.max 0 (Qfloor q))
  | _ => false
  end.

(** ** Lemmas *)

Lemma hex_drawable c : is_hex_lower c = true -> SSH_AGENT_INVISIBLE_RE c = false.
Proof.
  unfold is_hex_lower, is_digit, SSH_AGENT_INVISIBLE_RE, in_range.
  rewrite !orb_true_iff, !orb_false_iff, !andb_true_iff, !andb_false_iff, !N.leb_le, !N.leb_gt, N.eqb_neq. lia.
Qed.

Lemma drawable_app a b : drawable (a ++ b) <-> drawable a /\ drawable b.
Proof. apply Forall_app. Qed.
Lemma drawable_take n s : drawable s -> drawable (take n s).
Proof. intros H. rewrite <- (take_drop n s) in H. by apply drawable_app in H as [? _]. Qed.
Lemma drawable_drop n s : drawable s -> drawable (drop n s).
Proof. intros H. rewrite <- (take_drop n s) in H. by apply drawable_app in H as [_ ?]. Qed.

(** A literal with no invisible character. *)
Lemma drawable_literal s : forallb (fun c => negb (SSH_AGENT_INVISIBLE_RE c)) s = true -> drawable s.
Proof.
  rewrite forallb_forall. intros H. apply Forall_forall. intros c Hc.
  apply negb_true_iff, H. by apply list_elem_of_In.
Qed.

Lemma escape_drawable c : drawable (escape_invisible c).
Proof.
  unfold escape_invisible. destruct (SSH_AGENT_INVISIBLE_RE c) eqn:E; [|by repeat constructor].
  apply drawable_app. split; [apply drawable_literal; by vm_compute|]. apply drawable_drop, drawable_app.
  split; [apply drawable_literal; by vm_compute|].
  eapply Forall_impl; [apply digits_hex; lia|]. exact hex_drawable.
Qed.

Lemma visibleText_drawable v : drawable (visibleText v).
Proof.
  unfold visibleText. induction (text_of v) as [|c t IH]; simpl; [constructor|].
  apply drawable_app. split; [apply escape_drawable|done].
Qed.

(** Text with nothing to escape is shown as it is. *)
Lemma visibleText_id s : drawable s -> visibleText (JStr s) = s.
Proof.
  unfold visibleText, text_of. cbn [is_nullish to_str]. induction 1 as [|c s Hc _ IH]; [done|].
  simpl. unfold escape_invisible at 1. by rewrite Hc, IH.
Qed.

Lemma boundedText_ok v n : drawable (boundedText v n) /\ (length (boundedText v n) <= n)%nat.
Proof.
  unfold boundedText. pose proof (visibleText_drawable v). destruct (Nat.ltb_spec n (length (visibleText v))).
  - split; [by apply drawable_take|]. rewrite length_take. lia.
  - done.
Qed.

Lemma boundedPath_ok v n : (0 < n)%nat -> drawable (boundedPath v n) /\ (length (boundedPath v n) <= n)%nat.
Proof.
  intros Hn. unfold boundedPath. pose proof (visibleText_drawable v).
  destruct (Nat.ltb_spec n (length (visibleText v))); [|done]. split.
  - constructor; [done|by apply drawable_drop].
  - cbn [length]. rewrite length_drop. lia.
Qed.

Lemma processName_ok v : drawable (processNameFromPath v) /\ (length (processNameFromPath v) <= SSH_AGENT_MAX_NAME_CHARS)%nat.
Proof. apply boundedText_ok. Qed.

Lemma hostKey_ok op v : drawable (sshAgentHostKey op v) /\ (length (sshAgentHostKey op v) <= 50)%nat.
Proof.
  unfold sshAgentHostKey. assert (drawable [] /\ (length (@nil N) <= 50)%nat) as N0 by (split; [constructor|simpl; lia]).
  destruct v as [| | | |s| | |]; try done. destruct (str_eqb op _ && SSH_HOST_KEY_RE s) eqn:E; [|done].
  apply andb_true_iff in E as [_ E]. unfold SSH_HOST_KEY_RE in E. bool_hyps.
  apply Nat.eqb_eq in H1. split; [|lia]. apply starts_with_spec in H as [r ->].
  replace (u "SHA256:") with [83; 72; 65; 50; 53; 54; 58]%N in * by by vm_compute.
  apply drawable_app. split; [by apply drawable_literal|]. simpl in H0. apply drawable_literal.
  revert H0. apply forallb_impl. intros c Hc.
  unfold is_base64_unit, is_alnum, is_digit, is_lower, is_upper, in_range, SSH_AGENT_INVISIBLE_RE, in_range in *.
  apply negb_true_iff. rewrite !orb_true_iff, !andb_true_iff, !N.leb_le, !N.eqb_eq in Hc.
  rewrite !orb_false_iff, !andb_false_iff, !N.leb_gt, N.eqb_neq. lia.
Qed.

Lemma operationLabel_ok op v :
  drawable (sshAgentOperationLabel op v) /\ (length (sshAgentOperationLabel op v) <= 280)%nat.
Proof.
  unfold sshAgentOperationLabel. destruct (boundedText_ok v SSH_AGENT_MAX_DETAIL_CHARS) as [Hd Hl].
  revert Hd Hl. generalize (boundedText v SSH_AGENT_MAX_DETAIL_CHARS) as s. intros s Hd Hl.
  unfold SSH_AGENT_MAX_DETAIL_CHARS in Hl.
  assert (L : forall l, (forallb (fun c => negb (SSH_AGENT_INVISIBLE_RE c)) l && (length l <=? 280)%nat) = true ->
              drawable l /\ (length l <= 280)%nat).
  { intros l [H1 H2]%andb_true_iff. split; [by apply drawable_literal|by apply Nat.leb_le]. }
  repeat case_match; try (apply L; by vm_compute).
  - split; [rewrite !drawable_app; split_and!; try done; apply drawable_literal; by vm_compute|].
    rewrite !length_app. replace (length (uq "Signature for `")) with 15%nat by by vm_compute.
    replace (length (uq "`")) with 1%nat by by vm_compute. lia.
  - split; [rewrite !drawable_app; split_and!; try done; apply drawable_literal; by vm_compute|].
    rewrite !length_app. replace (length (u "SSH login as ")) with 13%nat by by vm_compute. lia.
Qed.

Lemma destination_ok op hk : drawable hk -> (length hk <= 50)%nat ->
  drawable (sshAgentDestinationLabel op hk) /\ (length (sshAgentDestinationLabel op hk) <= 66)%nat.
Proof.
  intros Hd Hl. unfold sshAgentDestinationLabel. destruct (negb _); [split; [constructor|simpl; lia]|].
  destruct hk as [|c s].
  - split; [apply drawable_literal; by vm_compute|apply Nat.leb_le; by vm_compute].
  - rewrite drawable_app, length_app. replace (length (u "Server host key ")) with 16%nat by by vm_compute.
    split; [|lia]. split; [apply drawable_literal; by vm_compute|done].
Qed.

Lemma approval_window_range w :
  num_leb (numz 0) (approval_window w) = true /\ num_leb (approval_window w) (numz SSH_AGENT_APPROVAL_WINDOW_MAX_SEC) = true.
Proof.
  unfold approval_window. change SSH_AGENT_APPROVAL_WINDOW_MAX_SEC with 900.
  assert (Hz : is_nan (floor_or_zero w) = false) by apply num_or_zero_not_nan.
  assert (is_nan (num_min (numz 900) (floor_or_zero w)) = false /\
          num_leb (num_min (numz 900) (floor_or_zero w)) (numz 900) = true) as [Hn Ha].
  { unfold num_min. rewrite Hz. change (is_nan (numz 900)) with false. cbn [orb].
    destruct (num_leb (numz 900) (floor_or_zero w)) eqn:E; [done|]. split; [done|].
    destruct (num_leb_total (numz 900) (floor_or_zero w) eq_refl Hz); congruence. }
  split; [by apply num_max_lower|]. unfold num_max. rewrite Hn. change (is_nan (numz 0)) with false. cbn [orb].
  by destruct (num_leb (numz 0) _).
Qed.

(** *** The queue *)

Lemma sorted_app_one {A} (R : A -> A -> Prop) l x :
  StronglySorted R l -> Forall (fun y => R y x) l -> StronglySorted R (l ++ [x]).
Proof.
  induction 1 as [|y l Hl IH Hy]; intros Hx; simpl; [by repeat constructor|].
  apply Forall_cons in Hx as [Hyx Hx]. constructor; [auto|]. apply Forall_app. auto.
Qed.

Lemma sorted_bfilter {A} (R : A -> A -> Prop) p l : StronglySorted R l -> StronglySorted R (List.filter p l).
Proof.
  induction 1 as [|y l Hl IH Hy]; simpl; [constructor|]. destruct (p y); [|done].
  constructor; [done|]. by apply Forall_bfilter.
Qed.

Lemma queue_cap_int z : 0 < z -> queue_cap (jz z) = numz z.
Proof. intros H. unfold queue_cap, jz. rewrite num_ltb_int. by destruct (Z.ltb_spec 0 z); [|lia]. Qed.

Lemma enqueue_ok cap q m : queue_ok cap q -> queue_ok cap (sshAgentEnqueuePrompt (JArr q) m cap).
Proof.
  intros (Hv & Hs & Hc). unfold sshAgentEnqueuePrompt. cbn [array_items].
  destruct (negb (truthy m) || negb (isRequestId (jget m (u "requestId")))) eqn:E1; [done|].
  destruct (existsb _ q) eqn:E2; [done|]. destruct (num_leb _ _) eqn:E3; [done|]. bool_hyps.
  split_and!.
  - apply Forall_app. split; [done|]. by repeat constructor.
  - apply sorted_app_one; [done|]. rewrite existsb_false in E2. rewrite !Forall_forall in *. intros x Hx.
    specialize (E2 x Hx). destruct (Hv x Hx) as [Ht _]. rewrite Ht in E2. exact E2.
  - intros z -> Hz. rewrite queue_cap_int in E3 by done. unfold numn in E3. rewrite num_leb_int in E3.
    apply Z.leb_gt in E3. rewrite length_app. simpl. lia.
Qed.

Lemma dequeue_ok cap q : queue_ok cap q -> queue_ok cap (snd (sshAgentDequeuePrompt (JArr q))).
Proof.
  intros (Hv & Hs & Hc). destruct q as [|m q]; [done|]. simpl. split_and!.
  - by apply Forall_cons in Hv as [_ ?].
  - by apply StronglySorted_inv in Hs as [? _].
  - intros z Ez Hz. specialize (Hc z Ez Hz). simpl in Hc. lia.
Qed.

Lemma remove_ok cap q id : queue_ok cap q -> queue_ok cap (sshAgentRemovePrompt (JArr q) id).
Proof.
  intros (Hv & Hs & Hc). unfold sshAgentRemovePrompt. cbn [array_items]. split_and!.
  - by apply Forall_bfilter.
  - by apply sorted_bfilter.
  - intros z Ez Hz. specialize (Hc z Ez Hz). etrans; [apply Nat2Z.inj_le, length_bfilter|done].
Qed.

Lemma bfilter_sublist {A} (p : A -> bool) l : List.filter p l `sublist_of` l.
Proof. induction l as [|x l IH]; simpl; [done|]. destruct (p x); by constructor. Qed.

Lemma queue_run_snoc cap ops op : queue_run cap (ops ++ [op]) = queue_step cap (queue_run cap ops) op.
Proof. unfold queue_run. by rewrite fold_left_app. Qed.

Lemma pushed_app a b : pushed (a ++ b) = pushed a ++ pushed b.
Proof. apply omap_app. Qed.

(** *** The cooldown *)

Lemma cooldown_run_snoc evs o t :
  cooldown_run (evs ++ [(o, t)]) = sshAgentCooldownAfter (cooldown_run evs) o (jz t).
Proof. unfold cooldown_run. by rewrite fold_left_app. Qed.

Lemma cooldown_value evs :
  let r := recent_refusals (rev evs) in
  refusals (cooldown_run evs) = Z.of_nat (length r) /\
  untilMs (cooldown_run evs) =
    match r with t :: _ :: _ => numz (t + SSH_AGENT_COOLDOWN_MS) | _ => numz 0 end.
Proof.
  induction evs as [|[o t] evs [IHr IHu]] using rev_ind; [done|]. cbv zeta in *.
  rewrite cooldown_run_snoc, rev_app_distr. cbn [rev app recent_refusals].
  unfold sshAgentCooldownAfter, is_reset, is_refusal. cbn [to_num jz]. autorewrite with qsnum.
  destruct (str_eqb o (u "approved") || str_eqb o (u "resumed")); [done|].
  destruct (str_eqb o (u "denied")), (str_eqb o (u "timeout")); cbn [orb andb negb]; try done.
  all: cbn [refusals untilMs length]; rewrite IHr; (split; [lia|]); change SSH_AGENT_COOLDOWN_AFTER with 2.
  all: destruct (recent_refusals (rev evs)) as [|t' r]; cbn [length]; [exact IHu|].
  all: rewrite (proj2 (Z.leb_le _ _)) by lia; done.
Qed.

(** *** Grants *)

Lemma grant_view_id now g : jget (grant_view now g) (u "grantId") = jget g (u "grantId").
Proof. unfold grant_view. by jfields. Qed.
Lemma grant_view_expires now g :
  jget (grant_view now g) (u "expiresAtMs")
  = JNum (num_add now (num_mul (num_max (numz 0) (floor_or_zero (jget g (u "expiresInSec")))) (numz 1000))).
Proof. unfold grant_view. by jfields. Qed.

Lemma num_ceil_thousandth z : num_ceil (num_div (numz z) (numz 1000)) = numz (- (- z / 1000)).
Proof.
  unfold num_div, numz. cbn [Qnum inject_Z Z.eqb]. unfold num_ceil, Qceiling.
  f_equal. f_equal. rewrite (Qfloor_comp _ ((- z) # 1000)%Q); [done|].
  rewrite Qred_correct. unfold Qeq, Qdiv, Qinv, Qmult, Qopp. simpl. lia.
Qed.

(** A grant announced at [t0], looked at later: gone exactly when it has run out. *)
Lemma grant_at_view t0 t q g :
  0 < t -> jget g (u "expiresInSec") = JNum (Fin q) ->
  match grant_at (numz t) (grant_view (numz t0) g) with
  | Some v => t < t0 + 1000 * Z.max 0 (Qfloor q) /\ jget v (u "grantId") = jget g (u "grantId")
  | None => t0 + 1000 * Z.max 0 (Qfloor q) <= t
  end.
Proof.
  intros Ht Hg. pose proof (grant_view_expires (numz t0) g) as E. pose proof (grant_view_id (numz t0) g) as I.
  rewrite Hg in E. unfold floor_or_zero in E. cbn [to_num] in E.
  change (num_floor (Fin q)) with (numz (Qfloor q)) in E. autorewrite with qsnum in E.
  unfold grant_at, grant_view in *. rewrite E. clear E. 
  rewrite num_leb_int, (proj2 (Z.leb_gt _ _)) by lia. rewrite num_sub_int, num_ceil_thousandth, num_max_int, num_leb_int.
  set (r := Z.max 0 (Qfloor q)) in *.
  pose proof (Z.div_mod (- (t0 + r * 1000 - t)) 1000 ltac:(lia)) as D.
  pose proof (Z.mod_pos_bound (- (t0 + r * 1000 - t)) 1000 ltac:(lia)) as B.
  destruct (Z.leb_spec (Z.max 0 (- (- (t0 + r * 1000 - t) / 1000))) 0) as [L|L]; [lia|].
  split; [lia|]. rewrite <- I. unfold jget. rewrite !obj_get_set_other; [done|by vm_compute..].
Qed.

(** *** The lifecycle *)

(** The companion is live exactly when the vault state is not "disabled". *)
Lemma live_vaultState ctx :
  truthy (jget (jor ctx (JObj [])) (u "enabled")) && truthy (jget (jor ctx (JObj [])) (u "helperReady")) = true
  <-> sshAgentVaultState ctx <> u "disabled".
Proof.
  unfold sshAgentVaultState. destruct (truthy (jget (jor ctx (JObj [])) (u "enabled"))),
    (truthy (jget (jor ctx (JObj [])) (u "helperReady"))); cbn [andb orb negb]; try (split; [done|tauto]).
  split; [intros _|done]. repeat case_match; by vm_compute.
Qed.

Lemma lock_not_stop event : is_event SSH_AGENT_LOCK_EVENTS event = true ->
  str_eqb event (u "disable") || str_eqb event (u "shutdown") = false.
Proof.
  unfold is_event, SSH_AGENT_LOCK_EVENTS. cbn [existsb]. rewrite !orb_true_iff, !str_eqb_eq.
  intros [->|[->|[->|H]]]; [by vm_compute..|done].
Qed.

Lemma ending_events event :
  is_event (u "disable" :: u "shutdown" :: SSH_AGENT_LOCK_EVENTS ++ SSH_AGENT_LOGOUT_EVENTS) event
  = (str_eqb event (u "disable") || str_eqb event (u "shutdown"))
    || (is_event SSH_AGENT_LOCK_EVENTS event || is_event SSH_AGENT_LOGOUT_EVENTS event).
Proof. unfold is_event. cbn [existsb]. by rewrite existsb_app, orb_assoc. Qed.

(** ** Properties *)

(** A grant is offered only when the companion offered it, a window is
    set and the request is not forwarded; it never lasts longer than 900
    seconds, and a forwarded request carries the warning and no grant. *)
Theorem prompt_grant_safety m w :
  let v := sshAgentPromptView m w in
  let request := jor m (JObj []) in
  (grantOffered v = true ->
     jget request (u "grantOffered") = JBool true /\ jget request (u "forwarded") <> JBool true /\
     num_ltb (numz 0) (grantSeconds v) = true) /\
  num_leb (numz 0) (grantSeconds v) = true /\
  num_leb (grantSeconds v) (numz SSH_AGENT_APPROVAL_WINDOW_MAX_SEC) = true /\
  (grantOffered v = false -> grantSeconds v = numz 0 /\ grantLabel v = [] /\ grantShortLabel v = []) /\
  (jget request (u "forwarded") = JBool true -> grantOffered v = false /\ forwardedWarning v = SSH_AGENT_FORWARDED_WARNING).
Proof.
  cbv zeta. unfold sshAgentPromptView. cbn [grantOffered grantSeconds grantLabel grantShortLabel forwardedWarning].
  set (request := jor m (JObj [])). destruct (approval_window_range w) as [H0 H1].
  destruct (is_true (jget request (u "grantOffered"))) eqn:Eo, (num_ltb (numz 0) (approval_window w)) eqn:Ew,
    (is_true (jget request (u "forwarded"))) eqn:Ef; cbn [andb negb];
    (split_and!; try done; try (intros E; rewrite E in *; done)).
  intros _. split_and!; [|by intros E; rewrite E in Ef|done].
  by destruct (jget request (u "grantOffered")) as [| |[]| | | | |].
Qed.

(** Nothing a client or a vault item supplies can draw an invisible,
    control or direction-changing character on the prompt or overflow it:
    every such field of the view is free of them and bounded. *)
Theorem prompt_text_safe m w :
  let v := sshAgentPromptView m w in
  Forall (fun s => drawable s /\ (length s <= SSH_AGENT_MAX_PATH_CHARS)%nat)
    [keyId v; keyName v; fingerprint v; processPath v; processName v; operationLabel v; hostKey v; destinationLabel v].
Proof.
  cbv zeta. unfold sshAgentPromptView.
  cbn [keyId keyName fingerprint processPath processName operationLabel hostKey destinationLabel].
  assert (W : forall s n, drawable s /\ (length s <= n)%nat -> (n <=? SSH_AGENT_MAX_PATH_CHARS)%nat = true ->
            drawable s /\ (length s <= SSH_AGENT_MAX_PATH_CHARS)%nat).
  { intros s n [Hd Hl] Hn. apply Nat.leb_le in Hn. split; [done|lia]. }
  repeat apply Forall_cons_2; [..|constructor].
  - eapply W; [apply boundedText_ok|by vm_compute].
  - eapply W; [apply boundedText_ok|by vm_compute].
  - eapply W; [apply boundedText_ok|by vm_compute].
  - apply boundedPath_ok. apply Nat.ltb_lt. by vm_compute.
  - eapply W; [apply processName_ok|by vm_compute].
  - eapply W; [apply operationLabel_ok|by vm_compute].
  - eapply W; [apply hostKey_ok|by vm_compute].
  - eapply W; [apply destination_ok; apply hostKey_ok|by vm_compute].
Qed.

(** However prompts arrive, leave and are cancelled, the queue holds only
    answerable prompts, no request twice, and never more than its cap. *)
Theorem prompt_queue_invariant cap q : queue_reachable cap q -> queue_ok cap q.
Proof.
  induction 1; [|by apply enqueue_ok|by apply dequeue_ok|by apply remove_ok].
  split_and!; [constructor|constructor|]. simpl. lia.
Qed.

Lemma prompt_queue_invariant_witness :
  let m k := JObj (fields [("requestId", jz k)]%string) in
  queue_ok (jz 2) (sshAgentEnqueuePrompt (JArr (sshAgentEnqueuePrompt (JArr []) (m 1) (jz 2))) (m 2) (jz 2)).
Proof. intros m. apply prompt_queue_invariant. repeat constructor. Defined.

(** First come, first shown: in every session of the queue the prompts
    shown and those still waiting are, in that order, a subsequence of the
    prompts that arrived; none is invented, repeated or overtaken. *)
Theorem prompt_queue_fifo cap ops :
  snd (queue_run cap ops) ++ fst (queue_run cap ops) `sublist_of` pushed ops.
Proof.
  induction ops as [|op ops IH] using rev_ind; [done|]. rewrite queue_run_snoc, pushed_app.
  destruct (queue_run cap ops) as [q shown]. cbn [fst snd] in IH.
  destruct op as [m| |id]; cbn [queue_step fst snd].
  - unfold sshAgentEnqueuePrompt. cbn [array_items]. simpl omap.
    repeat case_match; try (by apply sublist_inserts_r). rewrite app_assoc. by apply sublist_app.
  - simpl. rewrite app_nil_r. destruct q as [|m q]; [done|]. simpl. by rewrite <- app_assoc.
  - simpl. rewrite app_nil_r. etrans; [|exact IH]. apply sublist_app; [done|apply bfilter_sublist].
Qed.

(** Two refusals in a row pause the prompts for exactly five minutes:
    after any history, the cooldown is active at a time exactly when at least
    two requests were refused since the last approval and the last of them was
    less than five minutes before. *)
Theorem cooldown_spec evs now : 0 <= now ->
  sshAgentCooldownActive (cooldown_run evs) (jz now) = true <->
  exists t t' rest, recent_refusals (rev evs) = t :: t' :: rest /\ now < t + 5 * 60 * 1000.
Proof.
  intros Hn. unfold sshAgentCooldownActive. cbn [to_num jz]. rewrite num_or_zero_int.
  destruct (cooldown_value evs) as [_ ->].
  destruct (recent_refusals (rev evs)) as [|t [|t' r]]; rewrite num_ltb_int, Z.ltb_lt.
  - split; [lia|naive_solver].
  - split; [lia|naive_solver].
  - change SSH_AGENT_COOLDOWN_MS with (5 * 60 * 1000). naive_solver.
Qed.

Lemma cooldown_spec_witness :
  sshAgentCooldownActive (cooldown_run [(u "denied", 10); (u "timeout", 20)]) (jz 30) = true.
Proof. apply (cooldown_spec [(u "denied", 10); (u "timeout", 20)] 30); [lia|]. exists 20, 10, []. by vm_compute. Defined.

(** The grants list ticks down truthfully: of the grants the companion
    announced at [t0], the ones shown at a later [t] are, in order, exactly
    those whose time has not run out. *)
Theorem grants_countdown gs t0 t :
  0 < t -> Forall (fun g => truthy g = true /\ exists q, jget g (u "expiresInSec") = JNum (Fin q)) gs ->
  map (fun v => jget v (u "grantId")) (sshAgentGrantsAt (JArr (sshAgentGrantViews (JArr gs) (jz t0))) (jz t))
  = map (fun g => jget g (u "grantId")) (List.filter (grant_running t0 t) gs).
Proof.
  intros Ht. unfold sshAgentGrantsAt, sshAgentGrantViews. cbn [array_items to_num jz]. rewrite !num_or_zero_int.
  induction 1 as [|g gs [Hg [q Hq]] _ IH]; [done|]. cbn [map List.filter].
  replace (jor g (JObj [])) with g by (unfold jor; by rewrite Hg).
  unfold grant_running at 1. rewrite Hq. destruct (isRequestId (jget g (u "grantId"))); cbn [andb]; [|exact IH].
  cbn [map omap list_omap]. change (jor (grant_view (numz t0) g) (JObj [])) with (grant_view (numz t0) g).
  pose proof (grant_at_view t0 t q g Ht Hq) as V.
  destruct (grant_at (numz t) (grant_view (numz t0) g)) as [v|].
  - destruct V as [V1 V2]. rewrite (proj2 (Z.ltb_lt _ _)) by done. cbn [map]. by rewrite V2, IH.
  - by rewrite (proj2 (Z.ltb_ge _ _)).
Qed.

Lemma grants_countdown_witness :
  let g k s := JObj (fields [("grantId", jz k); ("expiresInSec", jz s)]%string) in
  map (fun v => jget v (u "grantId"))
    (sshAgentGrantsAt (JArr (sshAgentGrantViews (JArr [g 1 5; g 2 60]) (jz 1000))) (jz 7000)) = [jz 2].
Proof.
  intros g. rewrite (grants_countdown [g 1 5; g 2 60] 1000 7000); [by vm_compute|lia|].
  repeat constructor; [by exists 5%Q|by exists 60%Q].
Defined.

(** Keys are loaded only into a live helper of an unlocked vault, and no
    event that ends the key set (a lock, a suspend, a logout, an account
    change, disabling) starts a load: it cancels one. A lock tells a live
    helper so and waits for its answer; with no live helper nothing is
    written. *)
Theorem lifecycle_safe event ctx :
  let a := sshAgentLifecycleTransition event ctx in
  let c := jor ctx (JObj []) in
  let live := truthy (jget c (u "enabled")) && truthy (jget c (u "helperReady")) in
  (startLoad a = true -> live = true /\ truthy (jget c (u "unlocked")) = true /\ cancelLoad a = false /\
                         sshAgentVaultState ctx <> u "disabled") /\
  (is_event (u "disable" :: u "shutdown" :: SSH_AGENT_LOCK_EVENTS ++ SSH_AGENT_LOGOUT_EVENTS) event = true ->
     cancelLoad a = true /\ startLoad a = false) /\
  (awaitLockAck a = true <-> live = true /\ is_event SSH_AGENT_LOCK_EVENTS event = true) /\
  (awaitLockAck a = true -> controlLines a = [sshAgentVaultLockedLine (jget c (u "epoch"))]) /\
  (sshAgentVaultState ctx = u "disabled" -> controlLines a = [] /\ startLoad a = false).
Proof.
  cbv zeta. pose proof (live_vaultState ctx) as V. pose proof (lock_not_stop event) as L.
  rewrite ending_events. unfold sshAgentLifecycleTransition. set (c := jor ctx (JObj [])) in *.
  destruct (truthy (jget c (u "enabled")) && truthy (jget c (u "helperReady"))),
    (str_eqb event (u "disable") || str_eqb event (u "shutdown")), (is_event SSH_AGENT_LOCK_EVENTS event),
    (is_event SSH_AGENT_LOGOUT_EVENTS event), (is_event SSH_AGENT_LOAD_EVENTS event);
    cbn [orb andb controlLines cancelLoad startLoad awaitLockAck]; try (specialize (L eq_refl); discriminate L);
    intuition congruence.
Qed.
