(* ===== verification/Runtime.v ===== *)
(** * Runtime files, routing and helper programs

    Where the panel's programs and files are ([src/BitwardenModel.js], "Client
    routing" and "The bundled helper"): the plugin directory and the helper
    paths under it, the runtime directory, the exit-code results of scripts,
    the UWSM routing fragment, the verdicts on SSH_AUTH_SOCK, the inspection of
    a helper and the lines exchanged with the vault helper. The fragment's
    shell scripts appear twice: as the text that is run, and as what they do to
    the one path they touch. *)

From stdpp Require Import base list numbers strings.
From S2P Require Import Prelude.
From S2P Require Import JsValue.
From S2P Require Import Json.
From S2P Require Import Uri.
From S2P Require Import Regex.
From S2P Require Import Shell.
From S2P Require Import Session.
From S2P Require Import SshAgent.
Local Open Scope nat_scope.
Local Open Scope js_scope.

(** A script with its arguments after the name, run by bash. *)
Definition bash_args (script : jstr) (args : list jstr) : list jstr := [u "bash"; u "-c"; script] ++ args.
Definition bash (script : jstr) : list jstr := bash_args script [].

(** ** Directories *)

(** The loop that drops trailing slashes, but never the first unit. *)
Definition drop_slashes (dir : jstr) : jstr :=
  match dir with c :: t => c :: strip_end (N.eqb 47) t | [] => [] end.

Definition is_dot_segment (s : jstr) : bool := str_eqb s (u ".") || str_eqb s (u "..").

Definition cleanAbsoluteDir (dir : jsval) : jstr :=
  match dir with
  | JStr d =>
    if starts_with (u "/") d then
      let base := drop_slashes d in
      if existsb is_dot_segment (split_char 47 base) then [] else base
    else []
  | _ => []
  end.

(** [/^[a-zA-Z][a-zA-Z0-9+.-]*:/] *)
Definition has_scheme (raw : jstr) : bool :=
  match raw with
  | c :: t => is_letter c && match snd (span is_scheme_unit t) with d :: _ => (d =? 58)%N | [] => false end
  | [] => false
  end.

Definition pluginDirFromUrl (url : jsval) : jstr :=
  match url with
  | JStr raw =>
    if str_eqb raw [] then []
    else
      let file := u "file://" in
      if negb (starts_with file raw) && has_scheme raw then []
      else
        match decodeURIComponent (if starts_with file raw then drop (length file) raw else raw) with
        | Some decoded => cleanAbsoluteDir (JStr decoded)
        | None => []
        end
  | _ => []
  end.

(** [name] in the plugin's runtime directory, or nothing without an absolute one. *)
Definition runtimeFilePath (runtimeDir : jsval) (name : jstr) : jstr :=
  match runtimeDir with
  | JStr d => if starts_with (u "/") d then d ++ u "/" ++ RUNTIME_SUBDIR ++ u "/" ++ name else []
  | _ => []
  end.

Definition sshAgentSocketPath (runtimeDir : jsval) : jstr := runtimeFilePath runtimeDir (u "ssh-agent.sock").
Definition sshAgentFifoPath (runtimeDir : jsval) : jstr := runtimeFilePath runtimeDir (u "ssh-keys.fifo").

Definition sshAgentHelperEnv (runtimeDir : jsval) : option (list (jstr * jsval)) :=
  match runtimeDir with
  | JStr d => if starts_with (u "/") d then Some (fields [("XDG_RUNTIME_DIR", JStr d)]%string) else None
  | _ => None
  end.

Definition sshAgentLockProbeCommand (runtimeDir : jsval) : option (list jstr) :=
  let lock := runtimeFilePath runtimeDir (u "ssh-agent.lock") in
  if str_eqb lock [] then None
  else Some (bash_args (uq "[ -f `$1` ] && [ ! -L `$1` ] || exit 0; exec flock -n -E 75 `$1` true") [u "_"; lock]).

Definition sshAgentRuntimeCleanupCommand (runtimeDir : jsval) : option (list jstr) :=
  let dir := runtimeFilePath runtimeDir [] in
  if str_eqb dir [] then None
  else Some (bash_args
    (uq "d=`${1%/}`; l=`$d/ssh-agent.lock`; "
     ++ uq "[ -d `$d` ] && [ ! -L `$d` ] && [ -f `$l` ] && [ ! -L `$l` ] || exit 0; "
     ++ u "for _ in $(seq 50); do "
     ++ uq "flock -n -E 75 `$l` rm -f -- `$d/ssh-agent.sock` `$d/ssh-keys.fifo` `$l`; "
     ++ uq "[ $? -eq 75 ] || { rmdir -- `$d` 2>/dev/null; exit 0; }; sleep 0.1; done") [u "_"; dir]).

Definition LOAD_ID_ENV : jstr := u "QSBW_LOAD_ID".
Definition loadIdEnvVar : jstr := LOAD_ID_ENV.
Definition loadIdCommand : list jstr :=
  bash (u "LC_ALL=C od -An -tx1 -N16 /dev/urandom 2>/dev/null | tr -d ' " ++ newline ++ u "'").

(** ** Results of scripts *)

(** [String(v)], with undefined and null as nothing. *)
Definition shown (v : jsval) : jstr := if is_nullish v then [] else to_str v.

Definition result (ok : bool) (code message : jstr) : jsval :=
  obj [("ok", JBool ok); ("code", JStr code); ("message", JStr message)].

(** [failureMap] by exit code; [parseSuccess] answers None for null. *)
Definition parseExitCodeResult (exitCode stdout : jsval) (parseSuccess : jstr -> option jsval)
    (failureMap : list (Z * (jstr * jstr))) (defaultFailureMessage : jstr) : jsval :=
  let code := num_floor (to_num exitCode) in
  let failed :=
    match find_first (fun f => num_eqb code (numz (fst f))) failureMap with
    | Some (_, (c, m)) => result false c m
    | None => result false (u "FAILED") defaultFailureMessage
    end in
  if num_eqb code (numz 0) then
    match parseSuccess (trim (shown stdout)) with Some success => success | None => failed end
  else failed.

(** ** The UWSM fragment *)

Definition UWSM_FRAGMENT_REL : jstr := u ".config/uwsm/env.d/50-qs-bitwarden-ssh-agent".
Definition uwsmFragmentDisplayPath : jstr := u "~/" ++ UWSM_FRAGMENT_REL.

Definition uwsmFragmentContent : jstr :=
  u "# Managed by the qs-bitwarden-cli Quickshell plugin." ++ newline
  ++ u "# Routes SSH clients to the Bitwarden agent. Delete this file to stop." ++ newline
  ++ uq "export SSH_AUTH_SOCK=`${XDG_RUNTIME_DIR}/" ++ RUNTIME_SUBDIR ++ uq "/ssh-agent.sock`" ++ newline.

Definition UWSM_EXIT_NO_HOME : Z := 3.
Definition UWSM_EXIT_PARENT : Z := 4.
Definition UWSM_EXIT_SYMLINK : Z := 5.
Definition UWSM_EXIT_FOREIGN : Z := 6.
Definition UWSM_EXIT_WRITE : Z := 7.

(** The text a shell reads back with [$(cat file)]. *)
Definition stripped (s : jstr) : jstr := strip_end (N.eqb 10) s.

Definition uwsmExpectedShell : jstr :=
  u "__want=" ++ shellQuote (JStr (stripped uwsmFragmentContent)) ++ u "; "
  ++ uq "__frag=`$HOME/" ++ UWSM_FRAGMENT_REL ++ uq "`; ".

Definition uwsmForeignShell : jstr := uq "[ ! -f `$__frag` ] || [ `$(cat `$__frag` 2>/dev/null)` != `$__want` ]".

Definition uwsmInspectCommand : list jstr :=
  let script := uq "test -n `${HOME:-}` || { echo no-home; exit 0; }; " ++ uwsmExpectedShell
    ++ uq "if [ -L `$__frag` ]; then echo symlink; exit 0; fi; "
    ++ uq "if [ ! -e `$__frag` ]; then echo absent; exit 0; fi; "
    ++ uq "if [ ! -f `$__frag` ]; then echo foreign; exit 0; fi; "
    ++ uq "if [ ! -r `$__frag` ]; then echo unreadable; exit 0; fi; "
    ++ uq "if [ `$(cat `$__frag`)` = `$__want` ]; then echo managed; else echo foreign; fi" in
  bash (cappedScript script (Some MAX_STDERR_BYTES)).

Definition uwsmWriteCommand : list jstr :=
  let script := uq "test -n `${HOME:-}` || exit " ++ dec_Z UWSM_EXIT_NO_HOME ++ u "; " ++ uwsmExpectedShell
    ++ uq "__dir=`$(dirname `$__frag`)`; " ++ uq "mkdir -p -m 700 `$__dir` || exit " ++ dec_Z UWSM_EXIT_PARENT
    ++ u "; " ++ uq "if [ -L `$__frag` ]; then exit " ++ dec_Z UWSM_EXIT_SYMLINK ++ u "; fi; "
    ++ uq "if [ -e `$__frag` ]; then " ++ u "  if " ++ uwsmForeignShell ++ u "; then exit "
    ++ dec_Z UWSM_EXIT_FOREIGN ++ u "; fi; " ++ u "fi; "
    ++ uq "__tmp=`$(mktemp `$__dir/.50-qs-bitwarden-ssh-agent.XXXXXX`)` || exit " ++ dec_Z UWSM_EXIT_WRITE
    ++ u "; "
    ++ uq "{ printf '%s\n' `$__want` > `$__tmp` && chmod 644 `$__tmp` && mv -f `$__tmp` `$__frag`; } "
    ++ uq "|| { rm -f `$__tmp`; exit " ++ dec_Z UWSM_EXIT_WRITE ++ u "; }; " ++ u "echo written" in
  bash (cappedScript script (Some MAX_STDERR_BYTES)).

Definition uwsmRemoveCommand : list jstr :=
  let script := uq "test -n `${HOME:-}` || exit " ++ dec_Z UWSM_EXIT_NO_HOME ++ u "; " ++ uwsmExpectedShell
    ++ uq "if [ -L `$__frag` ]; then exit " ++ dec_Z UWSM_EXIT_SYMLINK ++ u "; fi; "
    ++ uq "if [ ! -e `$__frag` ]; then echo absent; exit 0; fi; " ++ u "if " ++ uwsmForeignShell
    ++ u "; then exit " ++ dec_Z UWSM_EXIT_FOREIGN ++ u "; fi; " ++ uq "rm -f `$__frag` || exit "
    ++ dec_Z UWSM_EXIT_WRITE ++ u "; " ++ u "echo removed" in
  bash (cappedScript script (Some MAX_STDERR_BYTES)).

(** What is at the fragment's path; only a regular file has contents here. *)
Inductive entry := Absent | Symlink | Other | File (readable : bool) (content : jstr).

(** What a run of a script leaves and reports. *)
Record script_run := mkRun { after : entry; exit_code : Z; stdout_text : jstr }.

(** [$(cat "$__frag")] of a file: without null bytes and final newlines, and
    empty when it cannot be read. *)
Definition cat_text (readable : bool) (content : jstr) : jstr :=
  if readable then stripped (remove_units (N.eqb 0) content) else [].

Definition is_ours (e : entry) : bool :=
  match e with File readable content => str_eqb (cat_text readable content) (stripped uwsmFragmentContent) | _ => false end.

(** uwsmInspectCommand()'s script, with HOME set. *)
Definition uwsm_inspect (e : entry) : jstr :=
  match e with
  | Symlink => u "symlink"
  | Absent => u "absent"
  | Other => u "foreign"
  | File false _ => u "unreadable"
  | File true _ => if is_ours e then u "managed" else u "foreign"
  end.

(** uwsmWriteCommand()'s: [dir_ok] and [write_ok] say whether the directory
    could be made and the temporary file written and renamed. *)
Definition uwsm_write (dir_ok write_ok : bool) (e : entry) : script_run :=
  if negb dir_ok then mkRun e UWSM_EXIT_PARENT []
  else match e with
  | Symlink => mkRun e UWSM_EXIT_SYMLINK []
  | _ =>
    if (match e with Absent => false | _ => negb (is_ours e) end) then mkRun e UWSM_EXIT_FOREIGN []
    else if negb write_ok then mkRun e UWSM_EXIT_WRITE []
    else mkRun (File true (stripped uwsmFragmentContent ++ newline)) 0 (u "written" ++ newline)
  end.

Definition uwsm_remove (rm_ok : bool) (e : entry) : script_run :=
  match e with
  | Symlink => mkRun e UWSM_EXIT_SYMLINK []
  | Absent => mkRun e 0 (u "absent" ++ newline)
  | _ =>
    if negb (is_ours e) then mkRun e UWSM_EXIT_FOREIGN []
    else if negb rm_ok then mkRun e UWSM_EXIT_WRITE [] else mkRun Absent 0 (u "removed" ++ newline)
  end.

Definition fragment_state (state : string) (removable : bool) (message : jstr) : jsval :=
  obj [("state", JStr (u state)); ("removable", JBool removable); ("message", JStr message)].

Definition parseUwsmInspection (raw : jsval) : jsval :=
  let verdict := trim (shown raw) in
  let is_ s := str_eqb verdict (u s) in
  if is_ "managed"%string then
    fragment_state "managed" true (u "Routing is set up. " ++ uwsmFragmentDisplayPath
      ++ u " is the file this plugin wrote, " ++ u "and turning the agent off removes it.")
  else if is_ "absent"%string then
    fragment_state "absent" false (u "No routing file. SSH clients will keep using whatever agent your session already has.")
  else if is_ "symlink"%string then
    fragment_state "symlink" false (uwsmFragmentDisplayPath
      ++ u " is a symlink, so this plugin will not write to it or "
      ++ u "remove it. Replace it with a regular file yourself if you want it managed here.")
  else if is_ "unreadable"%string then
    fragment_state "unreadable" false (uwsmFragmentDisplayPath ++ u " exists but cannot be read, so it is left alone.")
  else if is_ "no-home"%string then
    fragment_state "no-home" false (u "No HOME is set, so there is nowhere to put a routing file.")
  else
    fragment_state "foreign" false (uwsmFragmentDisplayPath ++ u " already exists and is not the file this plugin writes, "
      ++ u "so it is left untouched. Remove or edit it yourself to change routing.").

Definition state_text (v : jsval) : jstr :=
  if truthy v && truthy v.["state"] then to_str v.["state"] else u "unknown".

Definition notice (text_ : jstr) (urgent : bool) : jsval := obj [("text", JStr text_); ("urgent", JBool urgent)].

Definition sshAgentRoutingNotice (fragment routing : jsval) : jsval :=
  let fragmentState := state_text fragment in
  let routingState := state_text routing in
  if str_eqb fragmentState (u "unknown") || str_eqb fragmentState (u "no-home") then notice [] false
  else if negb (str_eqb fragmentState (u "managed")) then
    notice (u "SSH clients are not routed here, and will not be at your next login.") true
  else if negb (str_eqb routingState (u "matches")) then
    notice (u "Routing is written. It takes effect at your next login.") false
  else notice [] false.

Definition UWSM_LOGIN_NOTE : jstr :=
  u "UWSM applies this at your next graphical login, so log out and log back in. "
  ++ u "Restarting the shell is not enough: it cannot change the environment of programs that are already running.".

Definition uwsm_failures : list (Z * (jstr * jstr)) :=
  [(UWSM_EXIT_NO_HOME, (u "NO_HOME", u "No HOME is set, so there is nowhere to put a routing file."));
   (UWSM_EXIT_PARENT, (u "PARENT", u "Could not create " ++ uwsmFragmentDisplayPath ++ u "'s parent directory."));
   (UWSM_EXIT_SYMLINK, (u "SYMLINK", uwsmFragmentDisplayPath ++ u " is a symlink. This plugin will not write through it "
      ++ u "or delete it; sort that path out yourself first."));
   (UWSM_EXIT_FOREIGN, (u "FOREIGN", uwsmFragmentDisplayPath ++ u " already exists and is not this plugin's file, so it was "
      ++ u "left untouched. Remove or edit it yourself to change routing."))].

Definition uwsm_success (out : jstr) : option jsval :=
  if str_eqb out (u "written") then
    Some (result true (u "WRITTEN") (u "Routing file written to " ++ uwsmFragmentDisplayPath ++ u ". " ++ UWSM_LOGIN_NOTE))
  else if str_eqb out (u "removed") then
    Some (result true (u "REMOVED")
      (u "Routing file removed. Programs already running keep the old value until you log out and back in."))
  else if str_eqb out (u "absent") then Some (result true (u "ABSENT") (u "There was no routing file to remove."))
  else None.

Definition parseUwsmActionResult (exitCode stdout : jsval) : jsval :=
  parseExitCodeResult exitCode stdout uwsm_success uwsm_failures (u "Could not update " ++ uwsmFragmentDisplayPath ++ u ".").

(** ** SSH_AUTH_SOCK *)

(** Most specific first, each with its test. *)
Definition SSH_AUTH_SOCK_OWNERS : list (regex * jstr) :=
  [(RAlt (RLitI (u "/gcr/")) (RLitI (u "/keyring/")), u "GNOME Keyring");
   (RLitI (u "1password"), u "1Password");
   (RLitI (u "gpg-agent"), u "GPG Agent");
   (RLitI (u "bitwarden"), u "Bitwarden Desktop");
   (RSeqs [RStart; RLit (u "/tmp/ssh-"); RPlus (RChar (fun c => negb (c =? 47)%N)); RLit (u "/agent.")], u "OpenSSH ssh-agent")].

Definition sshAuthSockTerminalCheck : jstr := uq "echo `$SSH_AUTH_SOCK`; ssh-add -L".

Definition sock_verdict (state : string) (owner message : jstr) : jsval :=
  obj [("state", JStr (u state)); ("owner", JStr owner); ("terminalCheck", JStr sshAuthSockTerminalCheck); ("message", JStr message)].

Definition sshAuthSockDiagnostic (sock runtimeDir : jsval) : jsval :=
  let value := shown sock in
  let ours := sshAgentSocketPath runtimeDir in
  if str_eqb ours [] then
    sock_verdict "unknown" [] (u "Without a runtime directory there is no socket path to compare against.")
  else if str_eqb value [] then
    sock_verdict "unset" [] (u "This session has no SSH_AUTH_SOCK, so SSH clients started from it have no agent yet.")
  else if str_eqb value ours then
    sock_verdict "matches" [] (u "This session points at the Bitwarden agent. Terminals you opened earlier may not; check with:")
  else
    let owner := match find_first (fun o => test (fst o) value) SSH_AUTH_SOCK_OWNERS with Some o => snd o | None => [] end in
    sock_verdict "elsewhere" owner (u "This session points at " ++ (if str_eqb owner [] then u "another agent" else owner)
      ++ u " instead of the Bitwarden agent. Changing that is your choice; check any terminal with:").

(** ** Removing the plugin's data *)

Definition PLUGIN_DATA_EXIT_NO_HOME : Z := 3.

Definition pluginDataRemoveCommand : list jstr :=
  let script := uq "test -n `${HOME:-}` || exit " ++ dec_Z PLUGIN_DATA_EXIT_NO_HOME ++ u "; "
    ++ uq "__state=`${XDG_STATE_HOME:-$HOME/.local/state}/qs-bitwarden-cli`; "
    ++ uq "__data=`${XDG_DATA_HOME:-$HOME/.local/share}/qs-bitwarden-cli`; " ++ u "__done=''; "
    ++ uq "if secret-tool clear service qs-bitwarden-cli 2>/dev/null; then __done=`$__done keyring`; fi; "
    ++ uq "if [ -e `$__state` ]; then rm -rf -- `$__state` && __done=`$__done state`; fi; "
    ++ uq "if [ -d `$__data/accounts` ] && [ ! -L `$__data/accounts` ] "
    ++ uq "&& find `$__data/accounts` -mindepth 1 -maxdepth 1 -type d -name '????????????????' | grep -q .; "
    ++ uq "then __done=`$__done accounts`; fi; "
    ++ uq "if [ -e `$__data` ]; then rm -rf -- `$__data` && __done=`$__done data`; fi; "
    ++ uq "printf 'removed%s\n' `$__done`" in
  bash (cappedScript script (Some MAX_STDERR_BYTES)).

Definition outcome (ok : bool) (message : jstr) : jsval := obj [("ok", JBool ok); ("message", JStr message)].

Definition parsePluginDataRemoval (exitCode stdout : jsval) : jsval :=
  let code := num_floor (to_num exitCode) in
  if num_eqb code (numz PLUGIN_DATA_EXIT_NO_HOME) then outcome false (u "No HOME is set, so there is nothing to clear.")
  else if negb (num_eqb code (numz 0)) then outcome false (u "Could not remove the plugin's stored data.")
  else
    let line := trim (shown stdout) in
    let part (w label : string) := if includes (u w) line then [u label] else [] in
    let cleared := part "keyring"%string "keyring entries"%string ++ part "state"%string "learned suggestions"%string
      ++ part "data"%string "exported public keys"%string
      ++ part "accounts"%string "the sign-ins of accounts added in the panel"%string in
    match cleared with
    | [] => outcome true (u "Nothing was left to remove.")
    | _ => outcome true (u "Removed " ++ join (u ", ") cleared
             ++ u ". Your vault is untouched; run `bw logout` separately if you want that too.")
    end.

(** ** Specifications *)

(** A directory programs may be named under: empty, or absolute, without [.]
    and [..] segments, and with no slash at the end but the root's. *)
Definition safe_dir (d : jstr) : Prop :=
  d = [] \/ (starts_with (u "/") d = true /\ existsb is_dot_segment (split_char 47 d) = false
             /\ (d = u "/" \/ last d <> Some 47%N)).

(** ** Lemmas *)

Lemma strip_end_last p s c : last (strip_end p s) = Some c -> p c = false.
Proof.
  revert c. induction s as [|x s IH]; intros c; simpl; [done|]. destruct (strip_end p s) as [|y t] eqn:E.
  - destruct (p x) eqn:Ex; [done|]. by intros [= <-].
  - intros H. apply IH. by rewrite last_cons_cons in H.
Qed.

Lemma strip_end_idemp p s : strip_end p (strip_end p s) = strip_end p s.
Proof.
  induction s as [|x s IH]; simpl; [done|]. destruct (strip_end p s) as [|y t] eqn:E.
  - destruct (p x) eqn:Ex; simpl; [done|]. by rewrite Ex.
  - cbn [strip_end] in *. by rewrite IH.
Qed.

Lemma drop_slashes_spec d : starts_with (u "/") d = true ->
  starts_with (u "/") (drop_slashes d) = true /\ (drop_slashes d = u "/" \/ last (drop_slashes d) <> Some 47%N)
  /\ drop_slashes (drop_slashes d) = drop_slashes d.
Proof.
  change (u "/") with [47%N]. destruct d as [|c t]; [done|]. cbn [starts_with]. rewrite andb_true_r. intros Hc. apply N.eqb_eq in Hc as <-.
  cbn [drop_slashes starts_with]. split; [done|]. split; [|by rewrite strip_end_idemp].
  destruct (strip_end (N.eqb 47) t) as [|y s] eqn:E; [by left|]. right. rewrite last_cons_cons, <- E.
  intros H. by apply strip_end_last in H.
Qed.

Lemma fragment_written : stripped uwsmFragmentContent ++ newline = uwsmFragmentContent.
Proof. by vm_compute. Qed.

(** ** Properties *)

(** The directory helper programs are run from is never taken from an
    address as it stands: whatever the URL, the result is empty or an absolute
    path without [.] or [..] segments and without a slash at the end, a URL of
    another scheme than file gives nothing, and cleaning a clean directory
    again changes nothing. *)
Theorem pluginDirFromUrl_safe url :
  safe_dir (pluginDirFromUrl url)
  /\ cleanAbsoluteDir (JStr (pluginDirFromUrl url)) = pluginDirFromUrl url
  /\ (forall raw, url = JStr raw -> has_scheme raw = true -> starts_with (u "file://") raw = false -> pluginDirFromUrl url = []).
Proof.
  assert (forall v, safe_dir (cleanAbsoluteDir v) /\ cleanAbsoluteDir (JStr (cleanAbsoluteDir v)) = cleanAbsoluteDir v) as G.
  { intros [| | | |d| | |]; try by split; [left|]. destruct (starts_with (u "/") d) eqn:E.
    2:{ assert (cleanAbsoluteDir (JStr d) = []) as -> by (unfold cleanAbsoluteDir; by rewrite E). by split; [left|]. }
    destruct (existsb is_dot_segment (split_char 47 (drop_slashes d))) eqn:Ed.
    { assert (cleanAbsoluteDir (JStr d) = []) as -> by (unfold cleanAbsoluteDir; by rewrite E, Ed). by split; [left|]. }
    assert (cleanAbsoluteDir (JStr d) = drop_slashes d) as -> by (unfold cleanAbsoluteDir; by rewrite E, Ed).
    destruct (drop_slashes_spec d E) as (Hs & Hl & Hi). split; [right; eauto|].
    unfold cleanAbsoluteDir. by rewrite Hs, Hi, Ed. }
  assert (safe_dir [] /\ cleanAbsoluteDir (JStr []) = []) as G0 by (split; [by left|done]).
  refine ((fun H H' => conj (proj1 H) (conj (proj2 H) H')) _ _).
  - unfold pluginDirFromUrl. destruct url as [| | | |raw| | |]; try exact G0. destruct (str_eqb raw []); [exact G0|].
    cbn zeta. destruct (negb _ && _); [exact G0|]. destruct (decodeURIComponent _); [apply G|exact G0].
  - intros raw -> Hs Hf. unfold pluginDirFromUrl. destruct (str_eqb raw []); [done|]. cbn zeta. by rewrite Hf, Hs.
Qed.

(** Routing touches no file but its own: whatever is at the fragment's
    path, writing leaves it as it was unless the path was free or held this
    plugin's file, removing leaves it unless it was this plugin's file, the
    inspection calls exactly that file removable, and an action is reported as
    done only when its file is there with the plugin's text, or gone. *)
Theorem uwsm_touches_only_its_own e dir_ok write_ok rm_ok :
  let w := uwsm_write dir_ok write_ok e in
  let r := uwsm_remove rm_ok e in
  (parseUwsmInspection (JStr (uwsm_inspect e))).["removable"] = JBool (is_ours e)
  /\ (after w = e \/ ((e = Absent \/ is_ours e = true) /\ after w = File true uwsmFragmentContent))
  /\ (after r = e \/ (is_ours e = true /\ after r = Absent))
  /\ (parseUwsmActionResult (jz (exit_code w)) (JStr (stdout_text w))).["ok"]
     = JBool (dir_ok && write_ok && (match e with Absent => true | _ => is_ours e end))
  /\ (parseUwsmActionResult (jz (exit_code r)) (JStr (stdout_text r))).["ok"]
     = JBool (match e with Absent => true | _ => is_ours e && rm_ok end)
  /\ uwsm_inspect (File true uwsmFragmentContent) = u "managed".
Proof.
  cbn zeta.
  split; [|split; [|split; [|split; [|split]]]]; [| | | | |by vm_compute].
  - destruct e as [| | |rd c]; [by vm_compute..|]. cbn [uwsm_inspect].
    destruct rd; [destruct (is_ours _); by vm_compute|by vm_compute].
  - unfold uwsm_write. rewrite fragment_written. destruct dir_ok; [|by left]. destruct e as [| | |rd c]; [| by left | by left |].
    + destruct write_ok; cbn [negb after]; auto.
    + destruct (is_ours _) eqn:E; cbn [negb after]; [|by left]. destruct write_ok; cbn [negb after]; auto.
  - unfold uwsm_remove. destruct e as [| | |rd c]; [by left..|].
    destruct (is_ours _) eqn:E; cbn [negb after]; [|by left]. destruct rm_ok; cbn [after]; auto.
  - unfold uwsm_write. destruct dir_ok; [|by vm_compute]. destruct e as [| | |rd c]; [destruct write_ok; by vm_compute..|].
    destruct (is_ours _), write_ok; by vm_compute.
  - unfold uwsm_remove. destruct e as [| | |rd c]; [destruct rm_ok; by vm_compute..|]. destruct (is_ours _), rm_ok; by vm_compute.
Qed.
