(* ===== verification/Commands.v ===== *)
(** * Commands

    The scripts the panel runs for signing in, unlocking, the terminal handoff,
    the sleep monitor, the active window, the clipboard and auto-type, and the
    vault's own [bw] commands ([src/BitwardenModel.js]). A command is its
    argument vector; what the panel reads from the process's environment or
    standard input is never in it. The theorems show that a value a user or a
    server chooses reaches the shell only as literal text. *)

From stdpp Require Import base list numbers strings.
From Stdlib Require Import QArith.
Local Close Scope Q_scope.
From S2P Require Import Prelude.
From S2P Require Import JsValue.
From S2P Require Import Json.
From S2P Require Import Regex.
From S2P Require Import Shell.
From S2P Require Import Accounts.
From S2P Require Import Session.
From S2P Require Import Vault.
From S2P Require Import Runtime.
Local Open Scope nat_scope.
Local Open Scope js_scope.

(** ** Names of environment variables and of the accounts' files *)

Definition PASSWORD_ENV : jstr := u "BW_PASSWORD".
Definition CLIENT_ID_ENV : jstr := u "BW_CLIENTID".
Definition CLIENT_SECRET_ENV : jstr := u "BW_CLIENTSECRET".
Definition TWOFACTOR_CODE_ENV : jstr := u "QSBW_CODE".
Definition NOINTERACTION_ENV : jstr := u "BW_NOINTERACTION".
Definition DEVICE_CODE_ENV : jstr := u "QSBW_DEVICE_CODE".
Definition APPDATA_ENV : jstr := u "BITWARDENCLI_APPDATA_DIR".
Definition ACCOUNTS_ENV : jstr := u "QSBW_ACCOUNTS".
Definition MAX_ACCOUNTS_BYTES : Z := 64 * 1024.
Definition ACCOUNTS_DIR : jstr := u "${XDG_DATA_HOME:-$HOME/.local/share}/" ++ ACCOUNTS_SUBDIR.

Definition sessionEnvVar : jstr := SESSION_ENV.
Definition passwordEnvVar : jstr := PASSWORD_ENV.
Definition clientIdEnvVar : jstr := CLIENT_ID_ENV.
Definition clientSecretEnvVar : jstr := CLIENT_SECRET_ENV.
Definition twoFactorCodeEnvVar : jstr := TWOFACTOR_CODE_ENV.
Definition twoFactorCodeFlag : jstr := TWOFACTOR_CODE_FLAG.
Definition noInteractionEnvVar : jstr := NOINTERACTION_ENV.
Definition deviceCodeEnvVar : jstr := DEVICE_CODE_ENV.
Definition defaultAccountSlot : jstr := DEFAULT_ACCOUNT_SLOT.
Definition appDataEnvVar : jstr := APPDATA_ENV.
Definition accountsEnvVar : jstr := ACCOUNTS_ENV.
Definition maxAccounts : nat := MAX_ACCOUNTS.

(** ** Private directories and supervised processes *)

Definition privateDirScript (name : jstr) : jstr :=
  let d := uq "`$" ++ name ++ uq "`" in
  u "if [ -e " ++ d ++ u " ]; then [ -d " ++ d ++ u " ] && [ ! -L " ++ d ++ u " ] || exit 1; "
    ++ u "else (umask 077 && mkdir -p -- " ++ d ++ u ") || exit 1; fi; chmod 700 -- " ++ d ++ u " || exit 1; ".

(** The account's data directory, exported by the script itself. *)
Definition accountAppDataExport (slot : jsval) : jstr :=
  let s := accountSlot slot in
  if str_eqb s DEFAULT_ACCOUNT_SLOT then []
  else u "export " ++ APPDATA_ENV ++ uq "=`" ++ ACCOUNTS_DIR ++ u "/" ++ s ++ uq "`; ".

Definition appDataDirPrelude : jstr :=
  uq "if [ -n `${" ++ APPDATA_ENV ++ uq ":-}` ]; then "
    ++ uq "__acct_parent=`$(dirname -- `$" ++ APPDATA_ENV ++ uq "`)`; "
    ++ uq "if [ -L `$__acct_parent` ]; then exit 1; fi; "
    ++ uq "(umask 077 && mkdir -p -- `$__acct_parent`) || exit 1; "
    ++ uq "__acct_dir=`$" ++ APPDATA_ENV ++ uq "`; " ++ privateDirScript (u "__acct_dir") ++ u "fi; ".

Definition authPasswordFifoName (channel : jstr) : jstr :=
  if str_eqb channel (u "unlock") then u "unlock-password.fifo"
  else if str_eqb channel (u "login") then u "login-password.fifo"
  else [].

Definition supervisedProcessPrelude (cleanupCommand : jstr) : jstr :=
  u "__auth_job=''; " ++ u "__auth_cleanup() { trap - EXIT HUP INT TERM; "
    ++ uq "if [ -n `${__auth_job:-}` ]; then "
    ++ uq "kill -TERM -- `-$__auth_job` 2>/dev/null || true; "
    ++ uq "wait `$__auth_job` 2>/dev/null || true; fi; "
    ++ (if str_eqb cleanupCommand [] then [] else cleanupCommand ++ u "; ")
    ++ u "}; " ++ u "trap '__auth_cleanup' EXIT; " ++ u "trap '__auth_cleanup; exit 143' HUP INT TERM; ".

Definition supervisedProcessRun (command : jstr) : jstr :=
  u "set -m; (" ++ cappedScript command (Some MAX_STDERR_BYTES) ++ u ") & "
    ++ uq "__auth_job=$!; wait `$__auth_job`; __auth_rc=$?; " ++ uq "__auth_job=''; exit `$__auth_rc`".

Definition supervisedProcessCommand (command prelude : jstr) : list jstr :=
  bash (prelude ++ supervisedProcessPrelude [] ++ supervisedProcessRun command).

Definition authFifoPrelude (channel : jstr) : jstr :=
  let fifoName := authPasswordFifoName channel in
  if str_eqb fifoName [] then []
  else uq "test -n `${XDG_RUNTIME_DIR:-}` || exit 1; "
    ++ uq "__auth_dir=`$XDG_RUNTIME_DIR/" ++ RUNTIME_SUBDIR ++ uq "`; "
    ++ privateDirScript (u "__auth_dir")
    ++ uq "__auth_fifo=`$__auth_dir/" ++ fifoName ++ uq "`; "
    ++ uq "rm -f -- `$__auth_fifo`; "
    ++ uq "mkfifo -m 600 -- `$__auth_fifo` || exit 1; "
    ++ supervisedProcessPrelude (uq "rm -f -- `$__auth_fifo`").

Definition supervisedAuthCommand (channel command prelude : jstr) : list jstr :=
  bash (prelude ++ authFifoPrelude channel ++ supervisedProcessRun command).

(** ** Signing in and unlocking *)

Definition statusCommand : list jstr := buildCappedCommand [JStr (u "status")] (Some MAX_STATUS_BYTES) None.

Definition unlockPrewarmCommand : list jstr :=
  supervisedAuthCommand (u "unlock")
    (uq "bw unlock --passwordfile `$__auth_fifo` --raw | head -c " ++ dec_Z MAX_TOKEN_BYTES) [].

(** [--method], for a method [bw] knows. *)
Definition method_flag (method : jsval) : jstr :=
  if isTwoFactorMethod method then u " --method " ++ to_str method else [].

Definition emailLoginPrewarmCommand (email hasCode serverUrl method : jsval) : list jstr :=
  let command := serverConfigPrefix serverUrl
    ++ u "bw login " ++ shellQuote email ++ uq " --passwordfile `$__auth_fifo`"
    ++ method_flag method
    ++ (if truthy hasCode then u " " ++ TWOFACTOR_CODE_FLAG else [])
    ++ u " --raw | head -c " ++ dec_Z MAX_TOKEN_BYTES in
  supervisedAuthCommand (u "login") command appDataDirPrelude.

Definition DEVICE_VERIFICATION_TIMEOUT_S : Z := 60.

Definition deviceVerificationLoginCommand (email serverUrl method : jsval) : list jstr :=
  let command := serverConfigPrefix serverUrl
    ++ uq "printf '%s\n' `$" ++ DEVICE_CODE_ENV ++ uq "` | "
    ++ u "timeout " ++ dec_Z DEVICE_VERIFICATION_TIMEOUT_S ++ u "s bw login " ++ shellQuote email
    ++ uq " --passwordfile `$__auth_fifo`"
    ++ method_flag method
    ++ u " --raw | head -c " ++ dec_Z MAX_TOKEN_BYTES in
  supervisedAuthCommand (u "login") command appDataDirPrelude.

(** [] for an unknown channel. *)
Definition authPasswordWriteCommand (channel : jstr) : list jstr :=
  let fifoName := authPasswordFifoName channel in
  if str_eqb fifoName [] then []
  else bash (uq "test -n `${XDG_RUNTIME_DIR:-}` || exit 1; "
    ++ uq "test -n `${" ++ PASSWORD_ENV ++ uq ":-}` || exit 3; "
    ++ uq "__auth_dir=`$XDG_RUNTIME_DIR/" ++ RUNTIME_SUBDIR ++ uq "`; "
    ++ uq "__auth_fifo=`$__auth_dir/" ++ fifoName ++ uq "`; "
    ++ u "for __auth_wait in {1..200}; do "
    ++ uq "if [ -d `$__auth_dir` ] && [ ! -L `$__auth_dir` ] && [ -p `$__auth_fifo` ] && [ ! -L `$__auth_fifo` ]; then "
    ++ uq "exec timeout 10s bash -c 'printf `%s` `$" ++ PASSWORD_ENV ++ uq "` > `$1`' _ `$__auth_fifo`; "
    ++ u "fi; sleep 0.01; done; exit 1").

Definition apiKeyLoginCommand (serverUrl : jsval) : list jstr :=
  supervisedProcessCommand
    (serverConfigPrefix serverUrl ++ u "bw login --apikey >/dev/null 2>&1 && "
     ++ u "bw unlock --passwordenv " ++ PASSWORD_ENV ++ u " --raw | head -c " ++ dec_Z MAX_TOKEN_BYTES)
    appDataDirPrelude.

Definition logoutCommand : list jstr := [u "bw"; u "logout"].

(** ** The terminal handoff *)

Definition HANDOFF_BASENAME : jstr := u "session-handoff".

(** The script the terminal runs. *)
Definition terminal_script (verb configureServer : jstr) (slot : jsval) : jstr :=
  u "set -u; " ++ accountAppDataExport slot ++ appDataDirPrelude
    ++ uq "d=`${XDG_RUNTIME_DIR:?no XDG_RUNTIME_DIR -- refusing to write a session key}/"
    ++ RUNTIME_SUBDIR ++ uq "`; f=`$d/" ++ HANDOFF_BASENAME ++ uq "`; "
    ++ u "umask 077; " ++ privateDirScript (u "d")
    ++ uq "rm -f -- `$f` || exit 1; "
    ++ configureServer
    ++ u "if bw " ++ verb ++ uq " --raw > `$f` && [ -s `$f` ]; then "
    ++ u "omarchy-shell io.github.elevate08.qs-bitwarden-cli open >/dev/null 2>&1 || true; "
    ++ u "echo; echo 'Done. Returning to the Bitwarden panel...'; sleep 1; "
    ++ uq "else rm -f `$f`; echo; echo 'Not completed -- nothing was handed to the panel.'; "
    ++ u "read -p 'Press enter to close...'; fi".

Definition terminalLoginCommand (mode serverUrl slot : jsval) : list jstr :=
  let verb := if strict_eq mode (JStr (u "unlock")) then u "unlock" else u "login" in
  let configureServer := if str_eqb verb (u "login") then serverConfigPrefix serverUrl else [] in
  let inner := terminal_script verb configureServer slot in
  bash (u "omarchy launch terminal -e bash -c " ++ shellQuote (JStr inner)
    ++ u " || alacritty -e bash -c " ++ shellQuote (JStr inner)).

Definition sessionHandoffReadCommand (expecting : jsval) : list jstr :=
  bash (uq "d=`${XDG_RUNTIME_DIR:-}`; [ -n `$d` ] || exit 0; "
    ++ uq "d=`$d/" ++ RUNTIME_SUBDIR ++ uq "`; "
    ++ uq "[ -d `$d` ] && [ ! -L `$d` ] || exit 0; "
    ++ uq "f=`$d/" ++ HANDOFF_BASENAME ++ uq "`; "
    ++ uq "[ -s `$f` ] && [ -f `$f` ] && [ ! -L `$f` ] || exit 0; "
    ++ (if truthy expecting then u "head -c " ++ dec_Z MAX_HANDOFF_BYTES ++ uq " `$f`; " else [])
    ++ uq "rm -f `$f`").

(** ** Screen lock and sleep *)

Definition screenLockStateCommand : list jstr := bash (u "omarchy-shell lock isLocked 2>/dev/null | head -c 16").

Definition SCREEN_LOCK_POLL_MS : Z := 3000.
Definition screenLockPollMs : Z := SCREEN_LOCK_POLL_MS.

Definition SLEEP_SIGNAL_TOKEN : jstr := u "sleep".
Definition WAKE_SIGNAL_TOKEN : jstr := u "wake".
Definition SLEEP_ACK_TOKEN : jstr := u "ack".
Definition SLEEP_ACK_TIMEOUT_S : Z := 4.
Definition sleepSignalToken : jstr := SLEEP_SIGNAL_TOKEN.
Definition wakeSignalToken : jstr := WAKE_SIGNAL_TOKEN.
Definition sleepAckLine : jstr := SLEEP_ACK_TOKEN ++ newline.
Definition sleepAckTimeoutS : Z := SLEEP_ACK_TIMEOUT_S.

Definition sleepMonitorCommand : list jstr :=
  let monitor := u "gdbus monitor --system --dest org.freedesktop.login1"
    ++ u " --object-path /org/freedesktop/login1 2>/dev/null" in
  let match_ := u "sed -une '/PrepareForSleep (true,/{s/.*/x/p;q}'" in
  let inner := u "exec 3< <(" ++ monitor ++ u "); g=$!; "
    ++ uq "m=`$(" ++ match_ ++ uq " <&3)`; "
    ++ uq "kill `$g` 2>/dev/null; exec 3<&-; "
    ++ uq "[ -n `$m` ] || exit 1; "
    ++ u "while read -r -t 0.05 _; do :; done; "
    ++ u "echo " ++ shellQuote (JStr SLEEP_SIGNAL_TOKEN) ++ u "; "
    ++ u "read -r -t " ++ dec_Z SLEEP_ACK_TIMEOUT_S ++ u " _; exit 0" in
  let script := u "exec 4<> <(:); "
    ++ uq "(while IFS= read -r l; do [ `$l` = " ++ shellQuote (JStr SLEEP_ACK_TOKEN) ++ u " ] && printf '%s\n' "
    ++ shellQuote (JStr SLEEP_ACK_TOKEN) ++ u " >&4; done; kill -KILL -- -$$) <&0 & "
    ++ u "while :; do "
    ++ u "command -v gdbus >/dev/null 2>&1 || { sleep 300; continue; }; "
    ++ u "if systemd-inhibit --what=sleep --mode=delay"
    ++ u " --who=" ++ shellQuote (JStr (u "Bitwarden"))
    ++ u " --why=" ++ shellQuote (JStr (u "Locking the vault before sleep"))
    ++ u " bash -c " ++ shellQuote (JStr inner) ++ u " <&4; then "
    ++ u "echo " ++ shellQuote (JStr WAKE_SIGNAL_TOKEN) ++ u "; "
    ++ u "else sleep 5; fi; "
    ++ u "done" in
  [u "setsid"; u "bash"; u "-c"; script].

Definition activeWindowCommand : list jstr :=
  [u "sh"; u "-c"; uq "hyprctl activewindow -j 2>/dev/null | grep -q '`class`: `[^`]' "
    ++ u "&& (hyprctl activewindow -j 2>/dev/null | head -c 65536) "
    ++ u "|| (hyprctl clients -j 2>/dev/null | head -c 1048576)"].

(** ** The clipboard *)

Definition CLIPBOARD_ENV : jstr := u "QSBW_CLIP".
Definition CLIPBOARD_SENSITIVE_TYPE : jstr := u "x-kde-passwordManagerHint".
Definition clipboardEnvVar : jstr := CLIPBOARD_ENV.

Definition clipboardCopyCommand (clearSec : jsval) : list jstr :=
  let sec := num_floor (to_num clearSec) in
  let copy := if is_finite sec && num_ltb (numz 0) sec
              then u "timeout " ++ num_str sec ++ u "s wl-copy --foreground --sensitive"
              else u "wl-copy --sensitive" in
  bash (u "exec env -u " ++ CLIPBOARD_ENV ++ u " " ++ copy
    ++ uq " < <(printf '%s' `$" ++ CLIPBOARD_ENV ++ uq "`)").

Definition clipboardCopyPlainCommand : list jstr :=
  bash (u "exec env -u " ++ CLIPBOARD_ENV ++ u " wl-copy"
    ++ uq " < <(printf '%s' `$" ++ CLIPBOARD_ENV ++ uq "`)").

Definition clipboardClearSensitiveCommand : list jstr :=
  bash (u "if wl-paste --list-types 2>/dev/null | grep -qx "
    ++ shellQuote (JStr CLIPBOARD_SENSITIVE_TYPE) ++ u "; then wl-copy --clear; fi; exit 0").

(** ** Auto-type *)

Definition AUTO_TYPE_ARM_MS : Z := 30000.
Definition AUTO_TYPE_ANSWER_MS : Z := 15000.
Definition autoTypeArmMs : Z := AUTO_TYPE_ARM_MS.
Definition autoTypeAnswerMs : Z := AUTO_TYPE_ANSWER_MS.

Definition autoTypeCommand : list jstr := bash (u "LC_ALL=C.UTF-8 exec wtype -s 250 -d 12 -").

(** [/[\u0000-\u001f\u007f-\u009f]/] *)
Definition is_typed_control (c : N) : bool := (c <=? 31)%N || in_range 127 159 c.

(** The text, or the reason it is refused. *)
Definition autoTypeText (username password : jsval) : jstr + jstr :=
  let user := text_or_empty username in
  let pass := text_or_empty password in
  if str_eqb pass [] then inl (u "empty")
  else if existsb is_typed_control (user ++ pass) then inl (u "unsafe")
  else inr (if str_eqb user [] then pass else user ++ [9%N] ++ pass).

Definition autoTypeFailureMessage (reason : jsval) : jstr :=
  let r := text_or_empty reason in
  if str_eqb r (u "missing") then u "Auto-type needs wtype, which is not installed"
  else if str_eqb r (u "unsafe") then
    u "Not auto-typed: the username or password holds a line break, tab or other control character"
  else if str_eqb r (u "empty") then u "Not auto-typed: this login has no password"
  else if str_eqb r (u "busy") then u "Not auto-typed: another auto-type is still typing"
  else if str_eqb r (u "not-held") then
    u "Not auto-typed: the vault helper does not hold this item yet; sync and arm it again"
  else if str_eqb r (u "gone") then u "Not auto-typed: the armed item is no longer in the vault"
  else if str_eqb r (u "unread") then u "Not auto-typed: could not read this password"
  else if str_eqb r (u "timeout") then u "Auto-type timed out: the vault helper, wtype or bw did not finish in time"
  else if str_eqb r (u "stopped") then u "Auto-type was stopped by the vault locking"
  else u "Auto-type failed (wtype could not type into the focused window)".

Definition autoTypeFailedNoticeCommand (message : jsval) : list jstr :=
  [u "notify-send"; u "-a"; u "Bitwarden"; u "Auto-type"; text_or_empty message].

(** ** The vault *)

Definition listOrganizationsCommand : list jstr :=
  buildCappedCommand [JStr (u "list"); JStr (u "organizations")] (Some MAX_ORGS_BYTES) None.
Definition listFoldersCommand : list jstr :=
  buildCappedCommand [JStr (u "list"); JStr (u "folders")] (Some MAX_FOLDERS_BYTES) None.
Definition listOrgCollectionsCommand (organizationId : jsval) : list jstr :=
  buildCappedCommand [JStr (u "list"); JStr (u "org-collections"); JStr (u "--organizationid"); JStr (to_str organizationId)]
    (Some MAX_COLLECTIONS_BYTES) None.

Definition FOLDER_ENV : jstr := u "QSBW_FOLDER".
Definition folderEnvVar : jstr := FOLDER_ENV.
Definition folderPayload (name : jsval) : jstr := json_text (obj [("name", JStr (trim (text_or_empty name)))]).

Definition createFolderCommand : list jstr :=
  bash (cappedScript
    (uq "printf '%s' `$" ++ FOLDER_ENV ++ uq "` | " ++ ENCODE_CMD ++ u " | bw create folder | head -c " ++ dec_Z MAX_MISC_BYTES)
    (Some MAX_STDERR_BYTES)).

(** [Number(typeCode) === 5]: an SSH key, which is never read or written. *)
Definition is_ssh_code (typeCode : jsval) : bool := num_eqb (to_num typeCode) (numz 5).

Definition getItemCommand (id typeCode : jsval) : list jstr :=
  if is_ssh_code typeCode then []
  else buildCappedCommand [JStr (u "get"); JStr (u "item"); JStr (u "--"); JStr (to_str id)]
         (Some MAX_DETAIL_BYTES) (Some MAX_STDERR_BYTES).

Definition getPasswordCommand (id typeCode : jsval) : list jstr :=
  if is_ssh_code typeCode then []
  else buildCappedCommand [JStr (u "get"); JStr (u "password"); JStr (u "--raw"); JStr (u "--"); JStr (to_str id)]
         (Some MAX_TOKEN_BYTES) (Some MAX_STDERR_BYTES).

Definition getTotpCommand (id typeCode : jsval) : list jstr :=
  if is_ssh_code typeCode then []
  else buildCappedCommand [JStr (u "get"); JStr (u "totp"); JStr (u "--raw"); JStr (u "--"); JStr (to_str id)]
         (Some MAX_TOKEN_BYTES) None.

Definition deleteItemCommand (itemId typeCode : jsval) : list jstr :=
  if is_ssh_code typeCode then []
  else buildCappedCommand [JStr (u "delete"); JStr (u "item"); JStr (u "--"); JStr (to_str itemId)]
         (Some MAX_MISC_BYTES) (Some MAX_STDERR_BYTES).

Definition syncCommand : list jstr := buildCappedCommand [JStr (u "sync")] (Some MAX_MISC_BYTES) None.
Definition lockCommand : list jstr := buildCappedCommand [JStr (u "lock")] (Some MAX_MISC_BYTES) None.

(** ** The registry's file *)

Definition accountRegistryReadCommand : list jstr :=
  bash (uq "d=`" ++ ACCOUNTS_DIR ++ uq "`; f=`$d/registry.json`; "
    ++ uq "if [ -d `$d` ] && [ ! -L `$d` ] && [ -f `$f` ] && [ ! -L `$f` ]; then "
    ++ u "head -c " ++ dec_Z MAX_ACCOUNTS_BYTES ++ uq " `$f` 2>/dev/null || printf '{}'; else printf '{}'; fi").

Definition accountRegistryWriteCommand : list jstr :=
  bash (uq "set -e; __parent=`$(dirname -- `" ++ ACCOUNTS_DIR ++ uq "`)`; "
    ++ uq "[ ! -L `$__parent` ]; (umask 077 && mkdir -p -- `$__parent`); "
    ++ uq "d=`" ++ ACCOUNTS_DIR ++ uq "`; " ++ privateDirScript (u "d")
    ++ uq "umask 077; tmp=$(mktemp -- `$d/.registry.XXXXXXXX`); "
    ++ uq "trap 'rm -f -- `$tmp`' EXIT HUP INT TERM; "
    ++ uq "printf '%s' `$" ++ ACCOUNTS_ENV ++ uq "` > `$tmp`; chmod 600 `$tmp`; "
    ++ uq "mv -fT -- `$tmp` `$d/registry.json`; trap - EXIT HUP INT TERM").

Definition accountSlotRemoveCommand (slot : jsval) : list jstr :=
  let s := accountSlot slot in
  bash (cappedScript
    (accountAppDataExport (JStr s) ++ u "bw logout >/dev/null 2>&1; "
     ++ (if str_eqb s DEFAULT_ACCOUNT_SLOT then []
         else uq "d=`" ++ ACCOUNTS_DIR ++ uq "`; "
           ++ uq "if [ -d `$d` ] && [ ! -L `$d` ] && [ -e `$d/" ++ s ++ uq "` ]; then rm -rf -- `$d/" ++ s ++ uq "`; fi; ")
     ++ u "exit 0") (Some MAX_STDERR_BYTES)).

(** ** Definitions of the properties *)

(** The script of a [bash -c] command. *)
Definition script_of (command : list jstr) : jstr := nth 2 command [].

(** However the email and the server are spelled, the shell acts on the same units; the values are literal text. *)
Definition login_inert (command : jsval -> jsval -> list jstr) : Prop :=
  (exists l, forall email url, trim url <> [] ->
     Script.reads_as (script_of (command (JStr email) (JStr url))) [email; trim url] l) /\
  (exists l, forall email url, trim url = [] ->
     Script.reads_as (script_of (command (JStr email) (JStr url))) [email] l).

(** Units the shell acts on. *)
Definition acts (s : jstr) : list Script.slot := map (fun c => Script.Fixed (Script.Act c)) s.

(** The script the terminal runs, and the command that opens the terminal: each time the script is one literal word. *)
Definition terminal_inner (mode serverUrl slot : jsval) : jstr :=
  if strict_eq mode (JStr (u "unlock")) then terminal_script (u "unlock") [] slot
  else terminal_script (u "login") (serverConfigPrefix serverUrl) slot.
Definition terminal_reading : list Script.slot :=
  acts (u "omarchy launch terminal -e bash -c ") ++ [Script.Value 0] ++ acts (u " || alacritty -e bash -c ") ++ [Script.Value 0].

(** ** Lemmas *)

Lemma method_flag_cases method :
  method_flag method = [] \/ method_flag method = u " --method 0" \/ method_flag method = u " --method 1"
  \/ method_flag method = u " --method 3".
Proof.
  unfold method_flag. destruct (isTwoFactorMethod method) eqn:E; [|by left]. right.
  destruct (isTwoFactorMethod_spec _ E) as (n & z & -> & Hn & Hz). destruct n as [| |q]; try done.
  unfold num_eqb, numz in Hn. apply QArith_base.Qeq_bool_eq in Hn.
  assert (to_str (JNum (Fin q)) = dec_Z z) as ->.
  { change (to_str (JNum (Fin q))) with (num_str (Fin q)). unfold num_str. apply Qreduction.Qred_complete in Hn. rewrite Hn, Qred_inject_Z. done. }
  destruct Hz as [-> | [-> | -> ] ]; [left|right; left|right; right]; by vm_compute.
Qed.

Lemma config_prefix_text url : trim url <> [] ->
  serverConfigPrefix (JStr url) = u "bw config server " ++ shellQuote (JStr (trim url)) ++ u " >/dev/null 2>&1 && ".
Proof.
  intros H. unfold serverConfigPrefix. replace (text_or_empty (JStr url)) with url by (by destruct url).
  by rewrite (proj2 (str_eqb_neq _ _) H).
Qed.

Lemma config_prefix_none url : trim url = [] -> serverConfigPrefix (JStr url) = [].
Proof.
  intros H. unfold serverConfigPrefix. replace (text_or_empty (JStr url)) with url by (by destruct url).
  by rewrite H, str_eqb_refl.
Qed.

(** [unquote]: regroups a script so that the quoted values stand alone. *)
Ltac spell_template := unfold Script.render, Script.value_at; cbn [map concat nth]; rewrite ?app_nil_r, <- ?app_assoc; reflexivity.

(** A command [bw] runs in the background, as the script around it. *)
Definition around_run (head_ : jstr) (cmd : list Script.piece) : list Script.piece :=
  Script.Text (head_ ++ u "set -m; (" ++ uq "exec 2> >(head -c " ++ dec_Z MAX_STDERR_BYTES ++ u " >&2); set -o pipefail; ")
  :: cmd ++ [Script.Text (newline ++ u "__rc=$?" ++ newline ++ uq "case `$__rc` in 141) __rc=0 ;; esac" ++ newline ++ uq "exit `$__rc`"
     ++ u ") & " ++ uq "__auth_job=$!; wait `$__auth_job`; __auth_rc=$?; " ++ uq "__auth_job=''; exit `$__auth_rc`")].

Lemma supervised_render env head_ cmd :
  head_ ++ supervisedProcessRun (Script.render env cmd) = Script.render env (around_run head_ cmd).
Proof.
  unfold around_run, Script.render. cbn [map concat]. rewrite map_app, concat_app. cbn [map concat]. rewrite app_nil_r.
  unfold supervisedProcessRun, cappedScript. change (cap_given (Some MAX_STDERR_BYTES)) with true. cbn iota.
  cbn [default]. change (uq "exec 2> >(head -c ") with (u "exec 2> >(head -c ").
  change (u " >&2); set -o pipefail; ") with (u " >&2); " ++ u "set -o pipefail; ").
  rewrite <- ?app_assoc. reflexivity.
Qed.

Definition login_template (url : bool) (before after : jstr) : list Script.piece :=
  if url then [Script.Text (u "bw config server "); Script.Hole 1; Script.Text (u " >/dev/null 2>&1 && " ++ before);
               Script.Hole 0; Script.Text after]
  else [Script.Text before; Script.Hole 0; Script.Text after].

Lemma login_command (command : jsval -> jsval -> list jstr) head_ before after :
  (forall email url, script_of (command (JStr email) (JStr url))
     = head_ ++ supervisedProcessRun (serverConfigPrefix (JStr url) ++ before ++ shellQuote (JStr email) ++ after)) ->
  is_Some (Script.read_template [] Script.Normal (around_run head_ (login_template true before after))) ->
  is_Some (Script.read_template [] Script.Normal (around_run head_ (login_template false before after))) ->
  login_inert command.
Proof.
  intros Hc [l Hl] [l' Hl']. split; [exists l|exists l']; intros email url Hu; rewrite Hc.
  - rewrite config_prefix_text by done. eapply template_run; [|exact Hl]. rewrite <- supervised_render. do 2 f_equal.
    unfold login_template. spell_template.
  - rewrite config_prefix_none by done. eapply template_run; [|exact Hl']. rewrite <- supervised_render. do 2 f_equal.
    unfold login_template. spell_template.
Qed.

Lemma email_login_inert hasCode method : login_inert (fun email url => emailLoginPrewarmCommand email hasCode url method).
Proof.
  apply (login_command _ (appDataDirPrelude ++ authFifoPrelude (u "login")) (u "bw login ")
    (uq " --passwordfile `$__auth_fifo`" ++ method_flag method ++ (if truthy hasCode then u " " ++ TWOFACTOR_CODE_FLAG else [])
     ++ u " --raw | head -c " ++ dec_Z MAX_TOKEN_BYTES)).
  - intros email url. unfold emailLoginPrewarmCommand, supervisedAuthCommand, bash, bash_args, script_of. cbn [nth app].
    by rewrite <- ?app_assoc.
  - destruct (method_flag_cases method) as [-> | [-> | [-> | -> ] ] ]; destruct (truthy hasCode); vm_compute; by eexists.
  - destruct (method_flag_cases method) as [-> | [-> | [-> | -> ] ] ]; destruct (truthy hasCode); vm_compute; by eexists.
Qed.

Lemma device_login_inert method : login_inert (fun email url => deviceVerificationLoginCommand email url method).
Proof.
  apply (login_command _ (appDataDirPrelude ++ authFifoPrelude (u "login"))
    (uq "printf '%s\n' `$" ++ DEVICE_CODE_ENV ++ uq "` | " ++ u "timeout " ++ dec_Z DEVICE_VERIFICATION_TIMEOUT_S ++ u "s bw login ")
    (uq " --passwordfile `$__auth_fifo`" ++ method_flag method ++ u " --raw | head -c " ++ dec_Z MAX_TOKEN_BYTES)).
  - intros email url. unfold deviceVerificationLoginCommand, supervisedAuthCommand, bash, bash_args, script_of. cbn [nth app].
    by rewrite <- ?app_assoc.
  - destruct (method_flag_cases method) as [-> | [-> | [-> | -> ] ] ]; vm_compute; by eexists.
  - destruct (method_flag_cases method) as [-> | [-> | [-> | -> ] ] ]; vm_compute; by eexists.
Qed.

(** A word of letters and digits is read as it is, whatever quotes it is in. *)
Lemma fold_word s stk pre : all_in is_alnum s = true ->
  fold_left Script.read_unit s (Script.mkReader stk Script.Normal pre) = Script.mkReader stk Script.Normal (pre ++ map Script.Act s).
Proof.
  revert pre; induction s as [|c s IH]; intros pre; [simpl; by rewrite app_nil_r|].
  unfold all_in. cbn [forallb]. intros [Hc Hs]%andb_true_iff. cbn [fold_left map].
  assert (Script.read_unit (Script.mkReader stk Script.Normal pre) c = Script.mkReader stk Script.Normal (pre ++ [Script.Act c])) as ->.
  { unfold Script.read_unit, Script.emit. cbn [Script.stack Script.lex_mode Script.tokens].
    assert (forall k, is_alnum k = false -> (c =? k)%N = false) as Hne.
    { intros k Hk. apply N.eqb_neq. intros ->. congruence. }
    rewrite !Hne by (by vm_compute). destruct stk as [|[|] stk]; reflexivity. }
  rewrite IH by done. by rewrite <- app_assoc.
Qed.

Lemma read_word a s b r stk : all_in is_alnum s = true ->
  Script.lex_mode (fold_left Script.read_unit a (Script.mkReader stk Script.Normal [])) = Script.Normal ->
  is_Some (Script.read_template (Script.stack (fold_left Script.read_unit a (Script.mkReader stk Script.Normal []))) Script.Normal (Script.Text b :: r)) ->
  is_Some (Script.read_template stk Script.Normal (Script.Text (a ++ s ++ b) :: r)).
Proof.
  intros Hs Hm. cbn [Script.read_template]. rewrite !fold_left_app.
  destruct (fold_left Script.read_unit a (Script.mkReader stk Script.Normal [])) as [stk' m' pre]. cbn [Script.lex_mode Script.stack] in *.
  subst m'. rewrite (fold_word s) by done. rewrite (fold_tokens b _ _ (pre ++ _)). cbv zeta. cbn [Script.stack Script.lex_mode].
  by rewrite !fmap_is_Some.
Qed.

Lemma hex_alnum s : all_in is_hex_lower s = true -> all_in is_alnum s = true.
Proof.
  unfold all_in. rewrite !forallb_forall. intros H c Hc. specialize (H c Hc).
  unfold is_hex_lower, is_alnum, is_lower, in_range in *. apply orb_true_iff in H as [H|H]; [by rewrite H|].
  bool_hyps. assert ((97 <=? c)%N && (c <=? 122)%N = true) as -> by (rewrite andb_true_iff, !N.leb_le; lia). by rewrite orb_true_r.
Qed.

Lemma slot_cases slot : accountSlot slot = DEFAULT_ACCOUNT_SLOT \/ all_in is_alnum (accountSlot slot) = true.
Proof.
  unfold accountSlot. destruct slot as [| | | |s| | |]; try by left. destruct (isAccountSlot s) eqn:E; [|by left].
  unfold isAccountSlot in E. apply orb_true_iff in E as [E|E]; [left; by apply str_eqb_eq|right].
  unfold ACCOUNT_SLOT_RE in E. apply andb_true_iff in E as [_ E]. by apply hex_alnum.
Qed.

(** The terminal's script around the server's configuration. *)
Definition terminal_rest : jstr :=
  appDataDirPrelude
    ++ uq "d=`${XDG_RUNTIME_DIR:?no XDG_RUNTIME_DIR -- refusing to write a session key}/"
    ++ RUNTIME_SUBDIR ++ uq "`; f=`$d/" ++ HANDOFF_BASENAME ++ uq "`; "
    ++ u "umask 077; " ++ privateDirScript (u "d")
    ++ uq "rm -f -- `$f` || exit 1; ".

Definition terminal_before (slot : jsval) : jstr := u "set -u; " ++ accountAppDataExport slot ++ terminal_rest.

Definition terminal_after (verb : jstr) : jstr :=
  u "if bw " ++ verb ++ uq " --raw > `$f` && [ -s `$f` ]; then "
    ++ u "omarchy-shell io.github.elevate08.qs-bitwarden-cli open >/dev/null 2>&1 || true; "
    ++ u "echo; echo 'Done. Returning to the Bitwarden panel...'; sleep 1; "
    ++ uq "else rm -f `$f`; echo; echo 'Not completed -- nothing was handed to the panel.'; "
    ++ u "read -p 'Press enter to close...'; fi".

Lemma terminal_split verb configureServer slot :
  terminal_script verb configureServer slot = terminal_before slot ++ configureServer ++ terminal_after verb.
Proof. unfold terminal_script, terminal_before, terminal_rest, terminal_after. by rewrite <- ?app_assoc. Qed.

Lemma terminal_template slot r b :
  is_Some (Script.read_template [] Script.Normal (Script.Text ((u "set -u; " ++ [] ++ terminal_rest) ++ b) :: r)) ->
  is_Some (Script.read_template [Script.Double] Script.Normal
    (Script.Text (uq "`; " ++ terminal_rest ++ b) :: r)) ->
  is_Some (Script.read_template [] Script.Normal (Script.Text (terminal_before slot ++ b) :: r)).
Proof.
  intros Hd Hs. unfold terminal_before, accountAppDataExport. destruct (slot_cases slot) as [E|E].
  - rewrite E, str_eqb_refl. exact Hd.
  - destruct (str_eqb (accountSlot slot) DEFAULT_ACCOUNT_SLOT) eqn:E1.
    { exact Hd. }
    generalize dependent (accountSlot slot). intros s Es E1.
    pose proof (read_word (u "set -u; " ++ u "export " ++ APPDATA_ENV ++ uq "=`" ++ ACCOUNTS_DIR ++ u "/") s
      (uq "`; " ++ terminal_rest ++ b) r [] Es) as G.
    rewrite <- ?app_assoc in *. apply G; [by vm_compute|exact Hs].
Qed.

Lemma terminal_inner_reads slot :
  (exists l, forall url, trim url <> [] ->
     Script.reads_as (terminal_script (u "login") (serverConfigPrefix (JStr url)) slot) [trim url] l) /\
  (forall verb, verb = u "login" \/ verb = u "unlock" -> exists l, Script.reads_as (terminal_script verb [] slot) [] l).
Proof.
  split.
  - destruct (terminal_template slot [Script.Hole 0; Script.Text (u " >/dev/null 2>&1 && " ++ terminal_after (u "login"))]
      (u "bw config server ")) as [l Hl]; [vm_compute; by eexists|vm_compute; by eexists|].
    exists l. intros url Hu. eapply template_run; [|exact Hl]. rewrite terminal_split, config_prefix_text by done. spell_template.
  - intros verb Hv. destruct (terminal_template slot [] (terminal_after verb)) as [l Hl];
      [destruct Hv as [-> | ->]; vm_compute; by eexists|destruct Hv as [-> | ->]; vm_compute; by eexists|].
    exists l. eapply template_run; [|exact Hl]. rewrite terminal_split. spell_template.
Qed.

Lemma terminal_outer_reads mode serverUrl slot :
  Script.reads_as (script_of (terminalLoginCommand mode serverUrl slot)) [terminal_inner mode serverUrl slot] terminal_reading.
Proof.
  eapply (template_run [_] _ [Script.Text (u "omarchy launch terminal -e bash -c "); Script.Hole 0;
    Script.Text (u " || alacritty -e bash -c "); Script.Hole 0]); [|vm_compute; reflexivity].
  unfold terminalLoginCommand, terminal_inner, bash, bash_args, script_of. cbn [nth app].
  assert (str_eqb (u "unlock") (u "login") = false) as E by (by vm_compute).
  destruct (strict_eq mode (JStr (u "unlock"))); rewrite ?E, ?str_eqb_refl; spell_template.
Qed.

Lemma api_key_reads :
  (exists l, forall url, trim url <> [] -> Script.reads_as (script_of (apiKeyLoginCommand (JStr url))) [trim url] l) /\
  (exists l, forall url, trim url = [] -> Script.reads_as (script_of (apiKeyLoginCommand (JStr url))) [] l).
Proof.
  set (after := u "bw login --apikey >/dev/null 2>&1 && " ++ u "bw unlock --passwordenv " ++ PASSWORD_ENV
                ++ u " --raw | head -c " ++ dec_Z MAX_TOKEN_BYTES).
  set (head_ := appDataDirPrelude ++ supervisedProcessPrelude []).
  assert (forall url, script_of (apiKeyLoginCommand (JStr url)) = head_ ++ supervisedProcessRun (serverConfigPrefix (JStr url) ++ after)) as E.
  { intros url. unfold apiKeyLoginCommand, supervisedProcessCommand, bash, bash_args, script_of. cbn [nth app].
    unfold head_. by rewrite <- ?app_assoc. }
  assert (is_Some (Script.read_template [] Script.Normal (around_run head_
    [Script.Text (u "bw config server "); Script.Hole 0; Script.Text (u " >/dev/null 2>&1 && " ++ after)]))) as [l Hl]
    by (vm_compute; by eexists).
  assert (is_Some (Script.read_template [] Script.Normal (around_run head_ [Script.Text after]))) as [l' Hl'] by (vm_compute; by eexists).
  split; [exists l|exists l']; intros url Hu; rewrite E.
  - rewrite config_prefix_text by done. eapply template_run; [|exact Hl]. rewrite <- supervised_render. do 2 f_equal. spell_template.
  - rewrite config_prefix_none by done. eapply template_run; [|exact Hl']. rewrite <- supervised_render. unfold Script.render. cbn [map concat app]. by rewrite app_nil_r.
Qed.

Lemma typed_text_ok username password t : autoTypeText username password = inr t ->
  t = (let user := text_or_empty username in if str_eqb user [] then [] else user ++ [9%N]) ++ text_or_empty password
  /\ Forall (fun c => is_typed_control c = false) (text_or_empty username ++ text_or_empty password)
  /\ text_or_empty password <> [].
Proof.
  unfold autoTypeText. destruct (str_eqb (text_or_empty password) []) eqn:E1; [done|].
  destruct (existsb _ _) eqn:E2; [done|]. intros [= <-]. split_and!.
  - cbv zeta. by destruct (str_eqb (text_or_empty username) []); rewrite <- ?app_assoc.
  - apply Forall_forall. by apply existsb_false.
  - intros H. by rewrite H, str_eqb_refl in E1.
Qed.

(** ** Properties *)

(** C31. Nothing a user types or a server chooses can change what a sign-in script
    does: whatever the email and the server's address hold, the shell acts on
    the same units and reads each value as literal text, for the email login,
    the login that answers a device verification and the API key login. The
    command that opens a terminal is always the same, its inner script one
    literal word of it, twice; and that inner script reads the address as
    literal text in turn, when it holds it. *)
Theorem sign_in_scripts_inert hasCode method mode slot :
  login_inert (fun email url => emailLoginPrewarmCommand email hasCode url method) /\
  login_inert (fun email url => deviceVerificationLoginCommand email url method) /\
  ((exists l, forall url, trim url <> [] -> Script.reads_as (script_of (apiKeyLoginCommand (JStr url))) [trim url] l) /\
   (exists l, forall url, trim url = [] -> Script.reads_as (script_of (apiKeyLoginCommand (JStr url))) [] l)) /\
  (forall serverUrl, Script.reads_as (script_of (terminalLoginCommand mode serverUrl slot)) [terminal_inner mode serverUrl slot] terminal_reading) /\
  (exists l, forall url, trim url <> [] ->
     Script.reads_as (terminal_script (u "login") (serverConfigPrefix (JStr url)) slot) [trim url] l) /\
  (exists l, forall url, trim url = [] -> Script.reads_as (terminal_script (u "login") (serverConfigPrefix (JStr url)) slot) [] l) /\
  (exists l, Script.reads_as (terminal_script (u "unlock") [] slot) [] l).
Proof.
  split_and!.
  - apply email_login_inert.
  - apply device_login_inert.
  - apply api_key_reads.
  - apply api_key_reads.
  - intros serverUrl. apply terminal_outer_reads.
  - apply terminal_inner_reads.
  - destruct (proj2 (terminal_inner_reads slot) (u "login")) as [l Hl]; [by left|]. exists l. intros url Hu. by rewrite config_prefix_none.
  - apply terminal_inner_reads. by right.
Qed.
