(* ===== verification/Sanitize.v ===== *)
(** * The sanitized vault

    How decrypted ciphers reach the panel ([src/BitwardenModel.js]: the jq
    filters, the strict JSON validator and the list and save pipelines). [bw]
    prints whole ciphers, SSH private keys included; what the panel reads has
    passed a byte cap, a strict JSON parse and a jq filter that keeps ordinary
    items whole and SSH keys as public rows only.

    The filters appear as the text jq runs and as functions on JSON values with
    jq's semantics: an object has only its own members, and an expression can
    raise an error. The pipelines appear as the scripts and as what they print
    and exit with, given what [bw] printed. jq itself is a parameter: how it
    reads and prints a value, its number syntax, and whether [//] catches an
    error of its left side (it differs between releases). *)

From stdpp Require Import base list numbers strings.
From S2P Require Import Prelude.
From S2P Require Import JsValue.
From S2P Require Import Json.
From S2P Require Import Uri.
From S2P Require Import Shell.
From S2P Require Import Dependencies.
From S2P Require Import Vault.
From S2P Require Import Payload.
From S2P Require Import Runtime.
From S2P Require Import Commands.
Local Open Scope nat_scope.
Local Open Scope js_scope.

(** ** The filters, as jq runs them *)

Definition JQ_ITEM_HELPERS : list jstr := [
  uq "def string_or_empty: if type == `string` then . else `` end;";
  uq "def string_or_null: if type == `string` then . else null end;";
  uq "def bool_or_false: if type == `boolean` then . else false end;";
  u "def reprompt_or_zero: if . == 0 or . == 1 then . else 0 end;";
  u "def item_type: try (.type | tonumber) catch null;";
  u "def ordinary_type: item_type as $t | ($t == 1 or $t == 2 or $t == 3 or $t == 4);";
  u "def ssh_type: item_type == 5;"].

Definition SANITIZED_ITEMS_FILTER : jstr := join newline (JQ_ITEM_HELPERS ++ [
  uq "if type != `array` then";
  uq "  error(`expected one item array`)";
  uq "elif any(.[] | objects | select(ordinary_type); has(`sshKey`)) then";
  uq "  error(`ordinary item carries an SSH key subtree`)";
  u "else";
  u "  {";
  uq "    sshCapability: (if any(.[] | objects; ssh_type) then `confirmed` else `unconfirmed` end),";
  u "    items: [.[] | objects | select(ordinary_type)],";
  u "    sshKeys: [.[] | objects | select(ssh_type) | {";
  u "      id: (.id | string_or_empty),";
  u "      name: (.name | string_or_empty),";
  u "      type: 5,";
  u "      organizationId: (.organizationId | string_or_null),";
  u "      folderId: (.folderId | string_or_null),";
  u "      favorite: (.favorite | bool_or_false),";
  u "      reprompt: (.reprompt | reprompt_or_zero),";
  u "      publicKey: ((try (.sshKey.publicKey // .publicKey) catch null) | string_or_empty),";
  u "      fingerprint: ((try (.sshKey.fingerprint // .sshKey.keyFingerprint // .fingerprint // .keyFingerprint) catch null) | string_or_empty)";
  u "    }]";
  u "  }";
  u "end"]).

Definition AGENT_KEYS_FILTER : jstr := join newline (JQ_ITEM_HELPERS ++ [
  uq "if type != `array` then";
  uq "  error(`expected one item array`)";
  u "else";
  u "  {";
  uq "    loadId: ($ENV.QSBW_LOAD_ID // ``),";
  u "    items: [.[] | objects | select(ssh_type)";
  u "      | select((.reprompt | reprompt_or_zero) == 0)";
  u "      | {";
  u "        itemId: (.id | string_or_empty),";
  u "        name: (.name | string_or_empty),";
  u "        privateKeyB64: ((try (.sshKey.privateKey // .privateKey) catch null) | string_or_empty | @base64),";
  u "        publicKey: ((try (.sshKey.publicKey // .publicKey) catch null) | string_or_empty),";
  u "        fingerprint: ((try (.sshKey.fingerprint // .sshKey.keyFingerprint // .fingerprint // .keyFingerprint) catch null) | string_or_empty),";
  u "        requiresReprompt: false";
  u "      }";
  uq "      | select(.privateKeyB64 != ``)]";
  u "  }";
  u "end"]).

(** ** The filters, as functions *)

Class Jq := {
  jq_number : jstr -> option num;
  jq_alt_catches : bool;
  jq_read : list N -> option jsval;
  jq_print : jsval -> list N
}.

Section Filters.
Context `{Jq}.

(** [v.k]: null has no members, anything but an object raises an error. *)
Definition jq_index (v : jsval) (k : jstr) : option jsval :=
  match v with
  | JObj o => Some (default JNull (own_get o k))
  | JNull => Some JNull
  | _ => None
  end.

Definition jq_has (k : jstr) (v : jsval) : bool :=
  match v with JObj o => bool_decide (is_Some (own_get o k)) | _ => false end.

Definition is_plain_object (v : jsval) : bool := match v with JObj _ => true | _ => false end.
Definition jq_objects (l : list jsval) : list jsval := List.filter is_plain_object l.

Definition tonumber (v : jsval) : option num :=
  match v with JNum n => Some n | JStr s => jq_number s | _ => None end.

Definition jq_is (v : jsval) (z : Z) : bool := match v with JNum n => num_eqb n (numz z) | _ => false end.

Definition string_or_empty (v : jsval) : jsval := match v with JStr _ => v | _ => JStr [] end.
Definition string_or_null (v : jsval) : jsval := match v with JStr _ => v | _ => JNull end.
Definition bool_or_false (v : jsval) : jsval := match v with JBool _ => v | _ => JBool false end.
Definition reprompt_or_zero (v : jsval) : jsval := if jq_is v 0 || jq_is v 1 then v else jz 0.

(** None is jq's null: no type, or one that is not a number. *)
Definition item_type (it : jsval) : option num := t ← jq_index it (u "type"); tonumber t.

Definition item_type_in (codes : list Z) (it : jsval) : bool :=
  match item_type it with Some n => existsb (fun z => num_eqb n (numz z)) codes | None => false end.

Definition ordinary_type (it : jsval) : bool := item_type_in [1; 2; 3; 4]%Z it.
Definition ssh_type (it : jsval) : bool := item_type_in [5]%Z it.

(** [a // b]: what [a] yields unless it is null or false. *)
Definition jq_alt (a b : option jsval) : option jsval :=
  match a with
  | Some (JNull | JBool false) => b
  | Some v => Some v
  | None => if jq_alt_catches then b else None
  end.

Fixpoint jq_alts (l : list (option jsval)) : option jsval :=
  match l with
  | [] => None
  | [a] => a
  | a :: r => jq_alt a (jq_alts r)
  end.

(** [.sshKey.k] *)
Definition ssh_member (k : jstr) (it : jsval) : option jsval := s ← jq_index it (u "sshKey"); jq_index s k.

(** [(try (..) catch null) | string_or_empty] *)
Definition filter_text (a : option jsval) : jsval := string_or_empty (default JNull a).

Definition filter_publicKey (it : jsval) : jsval :=
  filter_text (jq_alts [ssh_member (u "publicKey") it; jq_index it (u "publicKey")]).
Definition filter_fingerprint (it : jsval) : jsval :=
  filter_text (jq_alts [ssh_member (u "fingerprint") it; ssh_member (u "keyFingerprint") it;
                    jq_index it (u "fingerprint"); jq_index it (u "keyFingerprint")]).
Definition filter_privateKey (it : jsval) : jsval :=
  filter_text (jq_alts [ssh_member (u "privateKey") it; jq_index it (u "privateKey")]).

(** A member of an item, which is an object. *)
Definition member (it : jsval) (k : jstr) : jsval := default JNull (jq_index it k).

Definition public_row (it : jsval) : jsval :=
  obj [("id", string_or_empty (member it (u "id")));
       ("name", string_or_empty (member it (u "name")));
       ("type", jz 5);
       ("organizationId", string_or_null (member it (u "organizationId")));
       ("folderId", string_or_null (member it (u "folderId")));
       ("favorite", bool_or_false (member it (u "favorite")));
       ("reprompt", reprompt_or_zero (member it (u "reprompt")));
       ("publicKey", filter_publicKey it);
       ("fingerprint", filter_fingerprint it)].

(** [SANITIZED_ITEMS_FILTER]; None is an error, jq's exit 5. *)
Definition sanitize (v : jsval) : option jsval :=
  match v with
  | JArr l =>
    let items := jq_objects l in
    if existsb (jq_has (u "sshKey")) (List.filter ordinary_type items) then None
    else Some (obj [("sshCapability", JStr (if existsb ssh_type items then u "confirmed" else u "unconfirmed"));
                    ("items", JArr (List.filter ordinary_type items));
                    ("sshKeys", JArr (map public_row (List.filter ssh_type items)))])
  | _ => None
  end.

(** [@base64]: the bytes of the text, by groups of three. *)
Definition base64_unit (n : N) : N :=
  (if n <? 26 then 65 + n else if n <? 52 then 71 + n else if n <? 62 then n - 4 else if n =? 62 then 43 else 47)%N.

Fixpoint base64 (l : list N) : jstr :=
  match l with
  | [] => []
  | [a] => [base64_unit (a / 4); base64_unit (a mod 4 * 16); 61; 61]
  | [a; b] => [base64_unit (a / 4); base64_unit (a mod 4 * 16 + b / 16); base64_unit (b mod 16 * 4); 61]
  | a :: b :: c :: r =>
    base64_unit (a / 4) :: base64_unit (a mod 4 * 16 + b / 16) :: base64_unit (b mod 16 * 4 + c / 64)
      :: base64_unit (c mod 64) :: base64 r
  end%N.

Definition text_base64 (v : jsval) : jsval := match v with JStr s => JStr (base64 (default [] (utf8_encode s))) | _ => v end.

Definition agent_row (it : jsval) : jsval :=
  obj [("itemId", string_or_empty (member it (u "id")));
       ("name", string_or_empty (member it (u "name")));
       ("privateKeyB64", text_base64 (filter_privateKey it));
       ("publicKey", filter_publicKey it);
       ("fingerprint", filter_fingerprint it);
       ("requiresReprompt", JBool false)].

Definition no_reprompt (it : jsval) : bool := jq_is (reprompt_or_zero (member it (u "reprompt"))) 0.
Definition has_private_key (row : jsval) : bool := negb (strict_eq row.["privateKeyB64"] (JStr [])).

(** [AGENT_KEYS_FILTER]; [loadId] is [QSBW_LOAD_ID] of the environment. *)
Definition agent_keys (loadId : option jstr) (v : jsval) : option jsval :=
  match v with
  | JArr l =>
    Some (obj [("loadId", JStr (default [] loadId));
               ("items", JArr (List.filter has_private_key
                  (map agent_row (List.filter no_reprompt (List.filter ssh_type (jq_objects l))))))])
  | _ => None
  end.
End Filters.

(** ** The validator *)

Definition strictJsonStdinScript (rejectExpr writeStmt : jstr) : jstr :=
  join newline [
    u "const maxBytes = Number(process.argv[1]);";
    u "const chunks = [];";
    u "let byteLength = 0;";
    uq "process.stdin.on(`data`, function (chunk) {";
    u "  byteLength += chunk.length;";
    u "  chunks.push(chunk);";
    u "});";
    uq "process.stdin.on(`end`, function () {";
    u "  if (byteLength > maxBytes) process.exit(1);";
    u "  const raw = Buffer.concat(chunks, byteLength);";
    u "  try {";
    uq "    const decoder = new (require(`util`).TextDecoder)(`utf-8`, { fatal: true });";
    u "    const parsed = JSON.parse(decoder.decode(raw));";
    u "    if (" ++ rejectExpr ++ u ") process.exit(1);";
    u "  } catch (error) {";
    u "    process.exit(1);";
    u "  }";
    u "  " ++ writeStmt;
    u "});"].

Definition STRICT_JSON_PASSTHROUGH : jstr :=
  strictJsonStdinScript (u "!Array.isArray(parsed)") (u "process.stdout.write(raw);").

Definition STRICT_JSON_ONE_OBJECT : jstr :=
  strictJsonStdinScript (uq "parsed === null || typeof parsed !== `object` || Array.isArray(parsed)")
    (uq "process.stdout.write(`[`); process.stdout.write(raw); process.stdout.write(`]`);").

(** The fatal UTF-8 decoder: strict UTF-8, without a leading byte order mark. *)
Definition decode_utf8 (raw : list N) : option jstr :=
  match decodeURIComponent (concat (map encode_byte raw)) with
  | Some (65279 :: t)%N => Some t
  | r => r
  end.

Definition byte_length (l : list N) : N := N.of_nat (length l).

(** What the validator passes on; None where it exits 1. *)
Definition strict_json (reject : jsval -> bool) (max : N) (raw : list N) : option (list N) :=
  if (max <? byte_length raw)%N then None
  else match t ← decode_utf8 raw; json_parse t with
       | Some v => if reject v then None else Some raw
       | None => None
       end.

Definition strict_passthrough (max : N) (raw : list N) : option (list N) := strict_json (fun v => negb (is_array v)) max raw.
Definition strict_one_object (max : N) (raw : list N) : option (list N) :=
  (fun r => 91 :: r ++ [93])%N <$> strict_json (fun v => negb (is_plain_object v)) max raw.

(** ** The pipelines *)

Definition SAVED_UNSANITIZED_MARKER : jstr := u "__QSBW_SAVED_UNSANITIZED__".
Definition savedUnsanitizedMarker : jstr := SAVED_UNSANITIZED_MARKER.

Definition agent_fifo_writer : jstr :=
  join newline [
    uq "const fs = require(`fs`);";
    u "let fd = null;";
    u "try {";
    u "  const flags = fs.constants.O_RDWR | fs.constants.O_NOFOLLOW;";
    u "  const opened = fs.openSync(process.argv[1], flags);";
    u "  const stat = fs.fstatSync(opened);";
    u "  if ((stat.mode & fs.constants.S_IFMT) === fs.constants.S_IFIFO) fd = opened;";
    u "  else fs.closeSync(opened);";
    u "} catch (error) {}";
    uq "process.stdin.on(`data`, function (chunk) {";
    u "  if (fd === null) return;";
    u "  try {";
    u "    let offset = 0;";
    u "    while (offset < chunk.length) offset += fs.writeSync(fd, chunk, offset);";
    u "  } catch (error) { try { fs.closeSync(fd); } catch (ignored) {}; fd = null; }";
    u "});";
    uq "process.stdin.on(`end`, function () { if (fd !== null) fs.closeSync(fd); });"].

Definition agentBranchScript : jstr :=
  let inner := uq "__qsbw_fifo=`$XDG_RUNTIME_DIR/" ++ RUNTIME_SUBDIR ++ uq "/ssh-keys.fifo`; "
    ++ uq "if [ -p `$__qsbw_fifo` ]; then "
    ++ u "timeout 10 jq -c " ++ shellQuote (JStr AGENT_KEYS_FILTER) ++ u " 2>/dev/null | timeout 10 node -e "
    ++ shellQuote (JStr agent_fifo_writer) ++ uq " `$__qsbw_fifo` 2>/dev/null || true; "
    ++ u "fi; "
    ++ u "cat >/dev/null 2>&1 || true" in
  u "tee >(" ++ inner ++ u ") | ".

Definition sanitizedListCommand (agentBranch : bool) : list jstr :=
  let maxPlusOne := dec_Z (MAX_ITEMS_BYTES + 1) in
  let script := u "export LC_ALL=C BW_NOINTERACTION=true; set -o pipefail; "
    ++ u "__qsbw_items=$({ bw list items | head -c " ++ maxPlusOne
    ++ u " | node -e " ++ shellQuote (JStr STRICT_JSON_PASSTHROUGH) ++ u " " ++ dec_Z MAX_ITEMS_BYTES
    ++ u " | " ++ (if agentBranch then agentBranchScript else [])
    ++ u "jq -c " ++ shellQuote (JStr SANITIZED_ITEMS_FILTER)
    ++ u " | head -c " ++ maxPlusOne ++ u "; } 2>/dev/null)" ++ newline
    ++ u "__rc=$?" ++ newline
    ++ uq "if [ `$__rc` -ne 0 ] || [ `${#__qsbw_items}` -gt " ++ dec_Z MAX_ITEMS_BYTES ++ u " ]; then" ++ newline
    ++ u "  printf '%s\n' " ++ shellQuote (JStr SANITIZED_LIST_ERROR) ++ u " >&2" ++ newline
    ++ u "  exit 1" ++ newline
    ++ u "fi" ++ newline
    ++ uq "printf '%s' `$__qsbw_items`" in
  if agentBranch then supervisedProcessCommand script [] else bash script.

Definition ITEM_ENV : jstr := u "QSBW_ITEM".
Definition itemEnvVar : jstr := ITEM_ENV.

Definition savePipelineScript (saveCommand : jstr) : list jstr :=
  let maxPlusOne := dec_Z (MAX_MISC_BYTES + 1) in
  bash (u "exec 2> >(head -c " ++ dec_Z MAX_STDERR_BYTES ++ u " >&2); "
    ++ u "export LC_ALL=C BW_NOINTERACTION=true; set -o pipefail; "
    ++ uq "__qsbw_saved=$(printf '%s' `$" ++ ITEM_ENV ++ uq "` | " ++ ENCODE_CMD
    ++ u " | " ++ saveCommand ++ u " | head -c " ++ maxPlusOne ++ u ")" ++ newline
    ++ u "__rc=$?" ++ newline
    ++ uq "case `$__rc` in 141) __rc=0 ;; esac" ++ newline
    ++ uq "if [ `$__rc` -ne 0 ]; then exit `$__rc`; fi" ++ newline
    ++ uq "__qsbw_env=$({ printf '%s' `$__qsbw_saved`"
    ++ u " | node -e " ++ shellQuote (JStr STRICT_JSON_ONE_OBJECT) ++ u " " ++ dec_Z MAX_MISC_BYTES
    ++ u " | jq -c " ++ shellQuote (JStr SANITIZED_ITEMS_FILTER)
    ++ u " | head -c " ++ maxPlusOne ++ u "; } 2>/dev/null)" ++ newline
    ++ uq "if [ $? -ne 0 ] || [ -z `$__qsbw_env` ] || [ `${#__qsbw_env}` -gt " ++ dec_Z MAX_MISC_BYTES ++ u " ]; then" ++ newline
    ++ u "  printf '%s' " ++ shellQuote (JStr SAVED_UNSANITIZED_MARKER) ++ newline
    ++ u "  exit 0" ++ newline
    ++ u "fi" ++ newline
    ++ uq "printf '%s' `$__qsbw_env`").

Definition createItemCommand (itemData : jsval) : list jstr :=
  let orgArg := if truthy itemData && truthy itemData.["organizationId"]
                then u " --organizationid " ++ shellQuote itemData.["organizationId"] else [] in
  savePipelineScript (u "bw create item" ++ orgArg).

Definition editItemCommand (itemId typeCode : jsval) : list jstr :=
  if is_ssh_code typeCode then []
  else savePipelineScript (u "bw edit item -- " ++ shellQuote itemId).

Section Pipelines.
Context `{Jq}.

(** What a process printed, and the status of its pipeline. *)
Record bw_run := mkRun { out : list N; status : Z }.

(** [head -c n] *)
Fixpoint head_c (n : N) (l : list N) : list N :=
  match l with
  | [] => []
  | b :: t => if (n =? 0)%N then [] else b :: head_c (N.pred n) t
  end.

(** [$( .. )]: NUL bytes and trailing newlines are dropped. *)
Definition substitution (l : list N) : list N := strip_end (N.eqb 10) (List.filter (fun b => negb (b =? 0)%N) l).

(** [jq -c filter | head -c n]; None for an error. *)
Definition jq_run (filter : jsval -> option jsval) (n : N) (raw : list N) : option (list N) :=
  (fun e => head_c n (jq_print e ++ [10%N])) <$> (v ← jq_read raw; filter v).

(** The list's script: what it prints, or None for exit 1 with the fixed error. *)
Definition sanitized_list (max : N) (bw : bw_run) : option (list N) :=
  if negb (status bw =? 0)%Z then None
  else match raw ← strict_passthrough max (head_c (max + 1) (out bw)); jq_run sanitize (max + 1) raw with
       | Some o => let items := substitution o in if (max <? byte_length items)%N then None else Some items
       | None => None
       end.

(** What the agent's branch of the list's [tee] writes to the FIFO. *)
Definition agent_branch (max : N) (loadId : option jstr) (bw : bw_run) : option (list N) :=
  raw ← strict_passthrough max (head_c (max + 1) (out bw));
  (fun e => jq_print e ++ [10%N]) <$> (v ← jq_read raw; agent_keys loadId v).

(** The save's script: its exit status and what it prints. *)
Definition save_pipeline (max : N) (saved : bw_run) : Z * list N :=
  let rc := if (status saved =? 141)%Z then 0%Z else status saved in
  if negb (rc =? 0)%Z then (rc, [])
  else
    let text := substitution (head_c (max + 1) (out saved)) in
    let env := match raw ← strict_one_object max text; jq_run sanitize (max + 1) raw with
               | Some o => substitution o
               | None => []
               end in
    if bool_decide (env = []) || (max <? byte_length env)%N then (0%Z, SAVED_UNSANITIZED_MARKER)
    else (0%Z, env).
End Pipelines.


(** ** Definitions of the properties *)

(** What the panel may see of an SSH key's item, and of its [sshKey] member. *)
Definition PUBLIC_MEMBERS : list jstr :=
  [u "type"; u "id"; u "name"; u "organizationId"; u "folderId"; u "favorite"; u "reprompt";
   u "publicKey"; u "fingerprint"; u "keyFingerprint"].
Definition PUBLIC_KEY_MEMBERS : list jstr := [u "publicKey"; u "fingerprint"; u "keyFingerprint"].

Definition agree_at (keys : list jstr) (o o' : list (jstr * jsval)) : Prop :=
  Forall (fun k => own_get o k = own_get o' k) keys.

Definition key_alike (a b : option jsval) : Prop :=
  a = b \/ exists s s', a = Some (JObj s) /\ b = Some (JObj s') /\ agree_at PUBLIC_KEY_MEMBERS s s'.

(** The same item, or two SSH keys alike in what is public: anything else may differ. *)
Inductive item_alike `{Jq} : jsval -> jsval -> Prop :=
| alike_same v : item_alike v v
| alike_ssh o o' : ssh_type (JObj o) = true -> agree_at PUBLIC_MEMBERS o o' ->
    key_alike (own_get o (u "sshKey")) (own_get o' (u "sshKey")) -> item_alike (JObj o) (JObj o').

(** What jq documents of its input and output: it reads strict JSON as JSON.parse does, and [-c] prints a value on
    one line, control characters escaped, as JSON text that reads back as the value. *)
Class JqLaws (jq : Jq) : Prop := {
  jq_print_line v : Forall (fun b => 32 <= b)%N (jq_print v);
  jq_print_text v : plain v -> exists t, utf8_encode t = Some (jq_print v) /\ json_parse t = Some v;
  jq_read_json t raw v : Forall (fun c => c < 65536)%N t -> utf8_encode t = Some raw -> json_parse t = Some v -> plain v ->
    jq_read raw = Some v
}.

(** jq as a function: strict JSON in, JSON.stringify's text out. *)
#[export] Instance reference_jq : Jq := {|
  jq_number s := match str_to_num s with NaN => None | n => Some n end;
  jq_alt_catches := true;
  jq_read raw := t ← decode_utf8 raw; json_parse t;
  jq_print v := List.filter (fun b => 32 <=? b)%N (default [] (utf8_encode (text v)))
|}.

(** A standard base64 decoder. *)
Definition base64_value (c : N) : option N :=
  (if is_upper c then Some (c - 65) else if is_lower c then Some (c - 71) else if is_digit c then Some (c + 4)
   else if c =? 43 then Some 62 else if c =? 47 then Some 63 else None)%N.

Fixpoint base64_decode (s : jstr) : option (list N) :=
  match s with
  | [] => Some []
  | [p; q; r; t] =>
    v ← base64_value p; w ← base64_value q;
    if (r =? 61)%N then Some [v * 4 + w / 16]%N
    else x ← base64_value r;
      if (t =? 61)%N then Some [v * 4 + w / 16; w mod 16 * 16 + x / 4]%N
      else y ← base64_value t; Some [v * 4 + w / 16; w mod 16 * 16 + x / 4; x mod 4 * 64 + y]%N
  | p :: q :: r :: t :: rest =>
    v ← base64_value p; w ← base64_value q; x ← base64_value r; y ← base64_value t;
    (fun l => [v * 4 + w / 16; w mod 16 * 16 + x / 4; x mod 4 * 64 + y]%N ++ l) <$> base64_decode rest
  | _ => None
  end.

(** What the agent is to be sent, written from the item alone: a text is that of
    the first of its places (the members of [sshKey], then the item's own) that
    holds anything but null or false. *)
Definition present (v : jsval) : bool := match v with JNull | JBool false => false | _ => true end.

Definition places `{Jq} (o : list (jstr * jsval)) (names : list jstr) : list jsval :=
  match own_get o (u "sshKey") with
  | Some (JObj key) => omap (own_get key) names ++ omap (own_get o) names
  | None | Some JNull => omap (own_get o) names
  | Some _ => if jq_alt_catches then omap (own_get o) names else []
  end.

Definition text_in (v : option jsval) : jstr := match v with Some (JStr s) => s | _ => [] end.
Definition stored_text `{Jq} (o : list (jstr * jsval)) (names : list jstr) : jstr := text_in (find_first present (places o names)).
Definition stored_key `{Jq} (o : list (jstr * jsval)) : jstr := stored_text o [u "privateKey"].

Definition asks_again (o : list (jstr * jsval)) : bool :=
  match own_get o (u "reprompt") with Some (JNum n) => num_eqb n (numz 1) | _ => false end.

Definition is_ssh_key `{Jq} (o : list (jstr * jsval)) : bool :=
  match own_get o (u "type") with
  | Some (JNum n) => num_eqb n (numz 5)
  | Some (JStr s) => match jq_number s with Some n => num_eqb n (numz 5) | None => false end
  | _ => false
  end.

(** The SSH keys of a list that may be used unattended, each in its place. *)
Definition unattended `{Jq} (v : jsval) : option (list (jstr * jsval)) :=
  match v with
  | JObj o => if is_ssh_key o && negb (asks_again o) && negb (str_eqb (stored_key o) []) then Some o else None
  | _ => None
  end.

(** The row of a key: its bytes in base64, and its public members. *)
Definition row_of `{Jq} (o : list (jstr * jsval)) (row : jsval) : Prop :=
  exists bytes b64, utf8_encode (stored_key o) = Some bytes /\ base64_decode b64 = Some bytes
    /\ row = obj [("itemId", JStr (text_in (own_get o (u "id")))); ("name", JStr (text_in (own_get o (u "name"))));
                  ("privateKeyB64", JStr b64); ("publicKey", JStr (stored_text o [u "publicKey"]));
                  ("fingerprint", JStr (stored_text o [u "fingerprint"; u "keyFingerprint"])); ("requiresReprompt", JBool false)].

(** ** Lemmas *)

Lemma base64_value_unit n : (n < 64)%N -> base64_value (base64_unit n) = Some n /\ (base64_unit n =? 61)%N = false.
Proof.
  intros H. assert (forallb (fun k => bool_decide (base64_value (base64_unit (N.of_nat k)) = Some (N.of_nat k))
    && negb (base64_unit (N.of_nat k) =? 61)%N) (seq 0 64) = true) as F by (vm_compute; reflexivity).
  rewrite forallb_forall in F. specialize (F (N.to_nat n)). rewrite N2Nat.id in F.
  assert (In (N.to_nat n) (seq 0 64)) as Hin by (apply in_seq; lia). apply F in Hin. bool_hyps. auto.
Qed.

Lemma base64_parts a b : (a < 256)%N -> (b < 256)%N ->
  (a / 4 < 64)%N /\ (a mod 4 * 16 + b / 16 < 64)%N /\ (b mod 16 * 4 < 64)%N
  /\ (a / 4 * 4 + (a mod 4 * 16 + b / 16) / 16 = a)%N /\ ((a mod 4 * 16 + b / 16) mod 16 = b / 16)%N
  /\ (b / 16 * 16 + b mod 16 = b)%N.
Proof.
  intros Ha Hb. pose proof (N.div_mod a 4 ltac:(lia)). pose proof (N.div_mod b 16 ltac:(lia)).
  pose proof (N.mod_lt a 4 ltac:(lia)). pose proof (N.mod_lt b 16 ltac:(lia)).
  assert (b / 16 < 16)%N by (apply N.Div0.div_lt_upper_bound; lia).
  assert (a / 4 < 64)%N by (apply N.Div0.div_lt_upper_bound; lia).
  rewrite N.div_add_l by lia. rewrite (N.div_small (b / 16)) by lia.
  rewrite (N.add_comm (_ * 16)), N.Div0.mod_add, (N.mod_small (b / 16)) by lia. repeat split; lia.
Qed.

Lemma base64_third b c : (b < 256)%N -> (c < 256)%N ->
  (b mod 16 * 4 + c / 64 < 64)%N /\ (c mod 64 < 64)%N
  /\ ((b mod 16 * 4 + c / 64) / 4 = b mod 16)%N /\ ((b mod 16 * 4 + c / 64) mod 4 * 64 + c mod 64 = c)%N.
Proof.
  intros Hb Hc. pose proof (N.div_mod c 64 ltac:(lia)). pose proof (N.mod_lt c 64 ltac:(lia)). pose proof (N.mod_lt b 16 ltac:(lia)).
  assert (c / 64 < 4)%N by (apply N.Div0.div_lt_upper_bound; lia).
  rewrite N.div_add_l by lia. rewrite (N.div_small (c / 64)) by lia.
  rewrite (N.add_comm (_ * 4)), N.Div0.mod_add, (N.mod_small (c / 64)) by lia. repeat split; lia.
Qed.

Lemma list_ind3 {A} (P : list A -> Prop) : P [] -> (forall a, P [a]) -> (forall a b, P [a; b]) ->
  (forall a b c l, P l -> P (a :: b :: c :: l)) -> forall l, P l.
Proof.
  intros H0 H1 H2 H3. fix IH 1. intros [|a [|b [|c l]]]; [exact H0|apply H1|apply H2|apply H3, IH].
Qed.

Lemma base64_roundtrip l : Forall (fun b => b < 256)%N l -> base64_decode (base64 l) = Some l.
Proof.
  induction l as [|a|a b|a b c l IH] using list_ind3; intros Hl; [done|..].
  - apply Forall_cons in Hl as [Ha _]. destruct (base64_parts a 0 Ha ltac:(lia)) as (P1 & P2 & _ & P4 & _).
    rewrite N.add_0_r in P2, P4. cbn [base64 base64_decode].
    rewrite (proj1 (base64_value_unit _ P1)), (proj1 (base64_value_unit _ P2)). cbn [mbind option_bind]. simpl (61 =? 61)%N.
    cbn iota. by rewrite P4.
  - apply Forall_cons in Hl as [Ha Hl]. apply Forall_cons in Hl as [Hb _].
    destruct (base64_parts a b Ha Hb) as (P1 & P2 & P3 & P4 & P5 & P6). cbn [base64 base64_decode].
    rewrite (proj1 (base64_value_unit _ P1)), (proj1 (base64_value_unit _ P2)), (proj1 (base64_value_unit _ P3)),
      (proj2 (base64_value_unit _ P3)). cbn [mbind option_bind]. simpl (61 =? 61)%N. cbn iota.
    rewrite P4, P5, N.div_mul by lia. by rewrite P6.
  - apply Forall_cons in Hl as [Ha Hl]. apply Forall_cons in Hl as [Hb Hl]. apply Forall_cons in Hl as [Hc Hl].
    destruct (base64_parts a b Ha Hb) as (P1 & P2 & _ & P4 & P5 & P6).
    destruct (base64_third b c Hb Hc) as (Q1 & Q2 & Q3 & Q4). specialize (IH Hl).
    cbn [base64]. destruct (base64 l) as [|p r] eqn:El.
    + destruct l as [|? [|? [|? ?]]]; try done. cbn [base64_decode].
      rewrite (proj1 (base64_value_unit _ P1)), (proj1 (base64_value_unit _ P2)), (proj1 (base64_value_unit _ Q1)),
        (proj2 (base64_value_unit _ Q1)), (proj1 (base64_value_unit _ Q2)), (proj2 (base64_value_unit _ Q2)).
      cbn [mbind option_bind]. by rewrite P4, P5, Q3, P6, Q4.
    + cbn [base64_decode]. rewrite (proj1 (base64_value_unit _ P1)), (proj1 (base64_value_unit _ P2)), (proj1 (base64_value_unit _ Q1)),
        (proj1 (base64_value_unit _ Q2)). cbn [mbind option_bind]. cbn [base64_decode] in IH. rewrite IH. cbn [fmap option_fmap option_map app].
      by rewrite P4, P5, Q3, P6, Q4.
Qed.

Lemma agree_get keys o o' k : agree_at keys o o' -> k ∈ keys -> own_get o k = own_get o' k.
Proof. intros H Hk. unfold agree_at in H. rewrite Forall_forall in H. auto. Qed.

(** [member_in]: a key is one of a list of literals. *)
Ltac member_in := apply (bool_decide_eq_true_1 (_ ∈ _)); vm_compute; reflexivity.

Section Facts.
Context `{jq : Jq}.

Lemma jq_index_alike o o' k : agree_at PUBLIC_MEMBERS o o' -> k ∈ PUBLIC_MEMBERS ->
  jq_index (JObj o) k = jq_index (JObj o') k.
Proof. intros H Hk. cbn [jq_index]. by rewrite (agree_get _ _ _ _ H Hk). Qed.

Lemma ssh_member_alike o o' k : key_alike (own_get o (u "sshKey")) (own_get o' (u "sshKey")) -> k ∈ PUBLIC_KEY_MEMBERS ->
  ssh_member k (JObj o) = ssh_member k (JObj o').
Proof.
  intros Hs Hk. unfold ssh_member. cbn [jq_index mbind option_bind]. destruct Hs as [-> |(s & s' & -> & -> & Hs)]; [done|].
  cbn. by rewrite (agree_get _ _ _ _ Hs Hk).
Qed.

Lemma ssh_not_ordinary it : ssh_type it = true -> ordinary_type it = false.
Proof.
  unfold ssh_type, ordinary_type, item_type_in. destruct (item_type it) as [n|]; [|done]. cbn [existsb]. rewrite orb_false_r. intros H.
  destruct n as [| |q]; try done. unfold num_eqb, numz in *. apply QArith_base.Qeq_bool_eq in H.
  rewrite !orb_false_iff. repeat split; try done; apply not_true_iff_false; intros E; apply QArith_base.Qeq_bool_eq in E;
    rewrite H in E; by vm_compute in E.
Qed.

Lemma alike_type o o' : agree_at PUBLIC_MEMBERS o o' -> item_type (JObj o) = item_type (JObj o').
Proof. intros H. unfold item_type. rewrite (jq_index_alike o o' _ H); [done|member_in]. Qed.

Lemma public_row_alike o o' : agree_at PUBLIC_MEMBERS o o' -> key_alike (own_get o (u "sshKey")) (own_get o' (u "sshKey")) ->
  public_row (JObj o) = public_row (JObj o').
Proof.
  intros H Hs. unfold public_row, member, filter_publicKey, filter_fingerprint.
  rewrite !(jq_index_alike o o' _ H) by member_in. rewrite !(ssh_member_alike o o' _ Hs) by member_in. done.
Qed.
End Facts.

Section Properties.
Context `{jq : Jq}.

(** What the sanitizer computes from a list whose items are alike is the same. *)
Lemma alike_lists l l' : Forall2 item_alike l l' ->
  List.filter ordinary_type (jq_objects l) = List.filter ordinary_type (jq_objects l')
  /\ map public_row (List.filter ssh_type (jq_objects l)) = map public_row (List.filter ssh_type (jq_objects l'))
  /\ existsb ssh_type (jq_objects l) = existsb ssh_type (jq_objects l').
Proof.
  unfold jq_objects. induction 1 as [|a b l l' Hab _ (IH1 & IH2 & IH3)]; [done|].
  destruct Hab as [v|o o' Hs Ho Hk].
  - cbn [List.filter]. destruct (is_plain_object v); [|done]. cbn [List.filter existsb].
    rewrite IH1, IH3. split_and!; [done| |done]. destruct (ssh_type v); cbn [map]; by rewrite IH2.
  - cbn [List.filter is_plain_object existsb].
    assert (ssh_type (JObj o') = true) as Hs' by (unfold ssh_type, item_type_in in *; by rewrite <- (alike_type o o' Ho)).
    rewrite Hs, Hs', (ssh_not_ordinary _ Hs), (ssh_not_ordinary _ Hs'). cbn [map orb].
    rewrite (public_row_alike o o' Ho Hk), IH2. auto.
Qed.

Lemma sanitize_alike l l' : Forall2 item_alike l l' -> sanitize (JArr l) = sanitize (JArr l').
Proof. intros H. destruct (alike_lists l l' H) as (E1 & E2 & E3). unfold sanitize. by rewrite E1, E2, E3. Qed.

(** *** The bytes of a pipeline *)

Lemma head_c_all l n : (byte_length l <= n)%N -> head_c n l = l.
Proof.
  unfold byte_length. revert n; induction l as [|b l IH]; intros n Hn; [done|]. cbn [head_c length] in *.
  destruct (N.eqb_spec n 0); [lia|]. rewrite IH; [done|lia].
Qed.

Lemma head_c_over l n : (n < byte_length l)%N -> byte_length (head_c n l) = n.
Proof.
  unfold byte_length. revert n; induction l as [|b l IH]; intros n Hn; cbn [head_c length] in *; [lia|].
  destruct (N.eqb_spec n 0); [simpl; lia|]. cbn [length]. rewrite Nat2N.inj_succ, IH by lia. lia.
Qed.

Lemma head_c_app l n x : byte_length l = n -> head_c n (l ++ x) = l.
Proof.
  unfold byte_length. revert n; induction l as [|b l IH]; intros n Hn; cbn [app length] in *; [subst; by destruct x|].
  cbn [head_c]. destruct (N.eqb_spec n 0); [lia|]. rewrite IH by lia. done.
Qed.

Definition visible (l : list N) : Prop := Forall (fun b => 32 <= b)%N l.

Lemma substitution_visible l : visible l -> substitution l = l.
Proof.
  unfold visible, substitution. induction 1 as [|b l Hb Hl IH]; [done|]. cbn [List.filter].
  destruct (N.eqb_spec b 0); [lia|]. cbn [negb strip_end]. rewrite IH. destruct (N.eqb_spec 10 b); [lia|]. by destruct l.
Qed.

Lemma substitution_line l : visible l -> substitution (l ++ [10%N]) = l.
Proof.
  unfold visible, substitution. intros H. rewrite List.filter_app.
  assert (List.filter (fun b => negb (b =? 0)%N) l = l) as ->.
  { induction H as [|b l Hb Hl IH]; [done|]. cbn [List.filter]. destruct (N.eqb_spec b 0); [lia|]. cbn [negb]. by rewrite IH. }
  change (List.filter (fun b => negb (b =? 0)%N) [10%N]) with [10%N].
  induction H as [|b l Hb Hl IH]; [done|]. cbn [app strip_end]. rewrite IH. destruct (N.eqb_spec 10 b); [lia|]. by destruct l.
Qed.

Lemma visible_head n l : visible l -> visible (head_c n l).
Proof. unfold visible. intros H. revert n; induction H; intros n; simpl; [done|]. destruct (n =? 0)%N; constructor; auto. Qed.

(** What a capped jq prints survives the shell exactly when it is within the cap. *)
Lemma capped_output e max : visible (jq_print e) ->
  let o := substitution (head_c (max + 1) (jq_print e ++ [10%N])) in
  if (max <? byte_length (jq_print e))%N then (max <? byte_length o)%N = true else o = jq_print e.
Proof.
  intros Hv. cbv zeta. destruct (N.ltb_spec max (byte_length (jq_print e))) as [Hlt|Hle].
  - assert (exists x, head_c (max + 1) (jq_print e ++ [10%N]) = x /\ visible x /\ byte_length x = (max + 1)%N) as (x & -> & Hx & El).
    { eexists. split; [reflexivity|]. destruct (N.eq_dec (byte_length (jq_print e)) (max + 1)%N) as [E|E].
      - by rewrite (head_c_app _ _ _ E).
      - assert (head_c (max + 1) (jq_print e ++ [10%N]) = head_c (max + 1) (jq_print e)) as ->.
        { assert (G : forall l n, (n < byte_length l)%N -> head_c n (l ++ [10%N]) = head_c n l); [|apply G; lia].
          clear. unfold byte_length. induction l as [|b l IH]; intros n Hn; cbn [app head_c length] in *; [lia|].
          destruct (N.eqb_spec n 0); [done|]. by rewrite IH by lia. }
        split; [by apply visible_head|]. apply head_c_over. lia. }
    rewrite substitution_visible, El by done. apply N.ltb_lt. lia.
  - rewrite head_c_all; [by apply substitution_line|].
    unfold byte_length in *. rewrite length_app. simpl. lia.
Qed.
End Properties.

(** *** Plain values *)

Section Envelope.
Context `{jq : Jq}.

Lemma plain_own_get o k v : plain (JObj o) -> own_get o k = Some v -> plain v.
Proof.
  intros Hp H. inversion Hp as [| | | | |? _ Ho]; subst. clear Hp. induction o as [|[k' v'] o IH]; [done|].
  apply Forall_cons in Ho as [Hv Ho]. cbn [own_get] in H. destruct (str_eqb k' k); [naive_solver|auto].
Qed.

Lemma plain_filter_member it k : plain it -> plain (member it k).
Proof.
  intros H. unfold member. destruct it as [| | | | | |o|]; cbn [jq_index]; try (cbn; constructor).
  destruct (own_get o k) as [v|] eqn:E; cbn; [by eapply plain_own_get|constructor].
Qed.

Lemma text_of_str a : exists s, filter_text a = JStr s.
Proof. unfold filter_text. destruct (default JNull a); by eexists. Qed.

Lemma public_row_plain it : plain it -> plain (public_row it).
Proof.
  intros Hit. unfold public_row, filter_publicKey, filter_fingerprint.
  destruct (text_of_str (jq_alts [ssh_member (u "publicKey") it; jq_index it (u "publicKey")])) as [pk ->].
  destruct (text_of_str (jq_alts [ssh_member (u "fingerprint") it; ssh_member (u "keyFingerprint") it;
    jq_index it (u "fingerprint"); jq_index it (u "keyFingerprint")])) as [fp ->].
  pose proof (plain_filter_member it (u "reprompt") Hit) as Hr.
  constructor; [by vm_compute|]. unfold fields. cbn [map fst snd].
  repeat match goal with |- Forall _ (_ :: _) => constructor; cbn [snd] end; try constructor.
  all: try (match goal with |- context [member ?x ?k] => destruct (member x k) end; constructor).
  - lia.
  - unfold reprompt_or_zero. destruct (jq_is _ 0 || jq_is _ 1); [done|constructor; lia].
Qed.

Lemma filter_elem {A} (p : A -> bool) l x : In x (List.filter p l) <-> In x l /\ p x = true.
Proof. apply filter_In. Qed.

Lemma plain_items l p : plain (JArr l) -> Forall plain (List.filter p (jq_objects l)).
Proof.
  intros H. inversion H as [| | | |? Hl|]; subst. rewrite Forall_forall in *. unfold jq_objects.
  intros x [[Hx _]%filter_In _]%list_elem_of_In%filter_In. apply Hl. by apply list_elem_of_In.
Qed.

Lemma sanitize_plain l e : plain (JArr l) -> sanitize (JArr l) = Some e -> plain e.
Proof.
  intros H. unfold sanitize. destruct (existsb (jq_has _) _); [done|]. intros [= <-].
  pose proof (plain_items l ordinary_type H) as H1. pose proof (plain_items l ssh_type H) as H2.
  generalize dependent (List.filter ordinary_type (jq_objects l)). intros ordinary H1.
  generalize dependent (List.filter ssh_type (jq_objects l)). intros keys H2.
  constructor; [by vm_compute|]. unfold fields. cbn [map fst snd].
  repeat (constructor; cbn [snd]); [done|]. apply Forall_fmap. eapply Forall_impl; [exact H2|]. apply public_row_plain.
Qed.

(** *** The validator on JSON *)

Lemma json_no_bom t : json_parse (65279%N :: t) = None.
Proof. done. Qed.

Lemma decode_utf8_encode t raw v : utf8_encode t = Some raw -> Forall (fun c => c < 65536)%N t -> json_parse t = Some v ->
  decode_utf8 raw = Some t.
Proof.
  intros He Ht Hv. unfold decode_utf8.
  assert (decodeURIComponent (concat (map encode_byte raw)) = Some t) as ->.
  { apply decodeURIComponent_encode; [done|]. unfold encodeURIComponent. by rewrite He. }
  destruct t as [|c t]; [done|]. destruct (N.eq_dec c 65279%N) as [->|Hc]; [by rewrite json_no_bom in Hv|].
  destruct c as [|p]; [done|]. repeat (destruct p as [p|p|]; try done).
Qed.

Lemma strict_json_accepts reject max t raw v : utf8_encode t = Some raw -> Forall (fun c => c < 65536)%N t ->
  json_parse t = Some v -> reject v = false -> (byte_length raw <= max)%N -> strict_json reject max raw = Some raw.
Proof.
  intros He Ht Hv Hr Hl. unfold strict_json. destruct (N.ltb_spec max (byte_length raw)); [lia|].
  rewrite (decode_utf8_encode t raw v He Ht Hv). cbn [mbind option_bind]. by rewrite Hv, Hr.
Qed.

Lemma strict_json_sound reject max raw r : strict_json reject max raw = Some r ->
  r = raw /\ (byte_length raw <= max)%N /\ exists t v, decode_utf8 raw = Some t /\ json_parse t = Some v /\ reject v = false.
Proof.
  unfold strict_json. destruct (N.ltb_spec max (byte_length raw)); [done|].
  destruct (decode_utf8 raw) as [t|] eqn:Ed; [|done]. cbn [mbind option_bind]. destruct (json_parse t) as [v|] eqn:Ej; [|done].
  destruct (reject v) eqn:Er; [done|]. intros [= <-]. split; [done|]. split; [done|]. eauto.
Qed.

(** A cap that is met was never reached. *)
Lemma head_c_within l max : (byte_length (head_c (max + 1) l) <= max)%N -> head_c (max + 1) l = l /\ (byte_length l <= max)%N.
Proof.
  intros H. destruct (N.ltb_spec (max + 1) (byte_length l)) as [Hl|Hl].
  - rewrite head_c_over in H by done. lia.
  - rewrite head_c_all in * by done. auto.
Qed.

(** *** The panel's reader on what the filter prints *)

Lemma existsb_filter {A} (p : A -> bool) l : existsb p l = (0 <? length (List.filter p l)).
Proof. induction l as [|x l IH]; [done|]. cbn [existsb List.filter]. destruct (p x); [done|exact IH]. Qed.

Lemma objects_items l p : objects (List.filter p (jq_objects l)) = List.filter p (jq_objects l).
Proof.
  unfold objects, jq_objects. induction l as [|v l IH]; [done|]. cbn [List.filter].
  destruct v; cbn [is_plain_object]; try exact IH. cbn [List.filter]. destruct (p (JObj o)); [|exact IH].
  cbn [List.filter]. change (is_object (JObj o)) with true. cbn iota. by rewrite IH.
Qed.

Lemma envelope_reads `{Collation} l e t : sanitize (JArr l) = Some e -> json_parse t = Some e ->
  exists env, parseSanitizedEnvelope (JStr t) = Some env
    /\ env_items env ≡ₚ map item_row (List.filter ordinary_type (jq_objects l)) ++ env_sshKeys env
    /\ env_sshKeys env ≡ₚ ssh_key_rows (JArr (map public_row (List.filter ssh_type (jq_objects l))))
    /\ env_sshCapability env = (if existsb ssh_type (jq_objects l) then u "confirmed" else u "unconfirmed").
Proof.
  intros Hs Hj. unfold sanitize in Hs. destruct (existsb (jq_has _) _); [done|]. injection Hs as <-.
  unfold parseSanitizedEnvelope. change (json_parse t) with (json_parse (to_str (JStr t))) in Hj. rewrite Hj. clear Hj.
  rewrite existsb_filter. pose proof (objects_items l ordinary_type) as Ho.
  generalize dependent (List.filter ordinary_type (jq_objects l)). intros ordinary Ho.
  generalize (List.filter ssh_type (jq_objects l)). intros keys.
  jobj. change (is_object (JObj _)) with true. cbn [negb orb is_array array_of is_undef]. rewrite length_map.
  replace (strict_eq (JStr (if 0 <? length keys then u "confirmed" else u "unconfirmed"))
    (JStr (if 0 <? length keys then u "confirmed" else u "unconfirmed"))) with true
    by (symmetry; by apply strict_eq_str).
  cbn [negb andb]. eexists. split; [reflexivity|]. cbn [env_items env_sshKeys env_sshCapability]. split_and!; [| |done].
  - rewrite sort_by_perm. apply Permutation_app_tail. rewrite parseItems_perm. by rewrite Ho.
  - unfold parseSshKeys. by rewrite sort_by_perm.
Qed.
End Envelope.

(** *** The save's splice *)

Lemma Forall_brackets l : Forall (fun c => c < 65536)%N l -> Forall (fun c => c < 65536)%N (91 :: join (u ",") [l] ++ [93])%N.
Proof. intros H. constructor; [lia|]. apply Forall_app. split; [exact H|repeat constructor; lia]. Qed.

Section Saves.
Context `{jq : Jq}.

Lemma one_object_reads max t raw o : utf8_encode t = Some raw -> Forall (fun c => c < 65536)%N t ->
  json_parse t = Some (JObj o) -> (byte_length raw <= max)%N -> strict_one_object max raw = Some (91 :: raw ++ [93])%N.
Proof.
  intros He Ht Hj Hl. unfold strict_one_object.
  by rewrite (strict_json_accepts _ max t raw (JObj o) He Ht Hj eq_refl Hl).
Qed.

(** What the filter makes of one ordinary item. *)
Definition one_item_envelope (o : list (jstr * jsval)) : jsval :=
  obj [("sshCapability", JStr (u "unconfirmed")); ("items", JArr [JObj o]); ("sshKeys", JArr [])].

Lemma sanitize_one o : ordinary_type (JObj o) = true -> own_get o (u "sshKey") = None ->
  sanitize (JArr [JObj o]) = Some (one_item_envelope o).
Proof.
  intros Hord Hns. unfold sanitize. cbn [jq_objects List.filter is_plain_object]. rewrite Hord.
  destruct (ssh_type (JObj o)) eqn:E; [by rewrite (ssh_not_ordinary _ E) in Hord|].
  cbn [List.filter existsb map]. rewrite E. cbn [jq_has orb]. by rewrite Hns.
Qed.

Lemma splice_one `{Collation} o id items replacing t : ordinary_type (JObj o) = true -> own_get o (u "sshKey") = None ->
  own_get o (u "id") = Some (JStr id) -> id <> [] -> json_parse t = Some (one_item_envelope o) ->
  spliceSavedItem items (JStr t) replacing
  = Some (replaceItemById items (if truthy replacing then JStr (to_str replacing) else JStr id) (item_row (JObj o))).
Proof.
  intros Hord Hns Hid Hne Hj. destruct (envelope_reads _ _ t (sanitize_one o Hord Hns) Hj) as (env & Henv & Hi & Hk & _).
  unfold spliceSavedItem. rewrite Henv. cbn [jq_objects List.filter is_plain_object] in Hi, Hk. rewrite Hord in Hi.
  destruct (ssh_type (JObj o)) eqn:E; [by rewrite (ssh_not_ordinary _ E) in Hord|]. cbn [map] in Hi, Hk.
  apply Permutation_nil_r in Hk. rewrite Hk, app_nil_r in *. apply Permutation_singleton_r in Hi. rewrite Hi.
  assert ((item_row (JObj o)).["id"] = JStr id) as Erow.
  { unfold item_row. cbv zeta. jobj. unfold JText, jget, obj_get. rewrite Hid. by destruct id. }
  rewrite Erow. assert (truthy (item_row (JObj o)) = true) as -> by done. by destruct id.
Qed.

(** Bracketed, the item's text is that of a list. *)
Lemma bracketed o raw : plain (JObj o) -> utf8_encode (text (JObj o)) = Some raw ->
  utf8_encode (text (JArr [JObj o])) = Some (91 :: raw ++ [93])%N /\ json_parse (text (JArr [JObj o])) = Some (JArr [JObj o]).
Proof.
  intros Hp He. assert (plain (JArr [JObj o])) as Hpa by (constructor; by constructor). split; [|by apply json_roundtrip].
  change (text (JArr [JObj o])) with ([91]%N ++ text (JObj o) ++ [93]%N).
  apply (utf8_app [91]%N _ [91]%N); [done|]. by apply utf8_app.
Qed.

Lemma save_prints_envelope `{!JqLaws jq} max o raw : utf8_encode (text (JObj o)) = Some raw ->
  Forall (fun c => c < 65536)%N (text (JObj o)) -> plain (JObj o) ->
  sanitize (JArr [JObj o]) = Some (one_item_envelope o) ->
  (byte_length raw <= max)%N -> (byte_length (jq_print (one_item_envelope o)) <= max)%N ->
  save_pipeline max (mkRun (raw ++ [10%N]) 0) = (0%Z, jq_print (one_item_envelope o)).
Proof.
  intros He Ht Hp Es Hl Hle. unfold save_pipeline. cbn [status out Z.eqb negb].
  assert (substitution (head_c (max + 1) (raw ++ [10%N])) = raw) as ->.
  { rewrite head_c_all; [apply substitution_line; by eapply encode_one_line, He; apply text_one_line|].
    unfold byte_length in *. rewrite length_app. simpl. lia. }
  destruct (bracketed o raw Hp He) as [He' Hj'].
  rewrite (one_object_reads max _ raw o He Ht (json_roundtrip _ Hp) Hl). cbn [mbind option_bind]. unfold jq_run.
  rewrite (jq_read_json _ _ _ (Forall_brackets _ Ht) He' Hj') by (constructor; by constructor).
  cbn [mbind option_bind]. rewrite Es. cbn [fmap option_fmap option_map].
  pose proof (capped_output (one_item_envelope o) max (jq_print_line _)) as Hc. cbv zeta in Hc.
  rewrite (proj2 (N.ltb_ge _ _) Hle) in Hc. rewrite Hc, (proj2 (N.ltb_ge _ _) Hle), orb_false_r.
  rewrite bool_decide_eq_false_2; [done|]. intros E.
  assert (plain (JArr [JObj o])) as Hpa by (constructor; by constructor).
  destruct (jq_print_text _ (sanitize_plain _ _ Hpa Es)) as (t & E1 & E2).
  rewrite E in E1. apply utf8_encode_nil in E1 as ->. by vm_compute in E2.
Qed.

Lemma save_pipeline_failed max saved : status saved <> 0%Z -> status saved <> 141%Z ->
  save_pipeline max saved = (status saved, []).
Proof.
  intros H0 H1. unfold save_pipeline. destruct (Z.eqb_spec (status saved) 141); [done|].
  by destruct (Z.eqb_spec (status saved) 0).
Qed.
End Saves.

(** ** Properties *)

(** *** The agent's rows *)

Section AgentRows.
Context `{jq : Jq}.

Lemma jq_is_inj v a b : jq_is v a = true -> jq_is v b = (a =? b)%Z.
Proof. destruct v; try done. apply num_eqb_numz. Qed.

Lemma no_reprompt_spec it : no_reprompt it = true <-> jq_is (member it (u "reprompt")) 1 = false.
Proof.
  unfold no_reprompt, reprompt_or_zero. generalize (member it (u "reprompt")). intros v.
  destruct (jq_is v 0) eqn:E0; cbn [orb].
  - by rewrite (jq_is_inj _ _ 1 E0), E0.
  - destruct (jq_is v 1) eqn:E1; [|done]. by rewrite E0.
Qed.

Lemma is_ssh_key_type o : ssh_type (JObj o) = is_ssh_key o.
Proof.
  unfold ssh_type, item_type_in, item_type, is_ssh_key. cbn [jq_index mbind option_bind]. destruct (own_get o (u "type")) as [[]|]; cbn; try done.
  - by rewrite orb_false_r.
  - destruct (jq_number _); [by rewrite orb_false_r|done].
Qed.

Lemma asks_again_reprompt o : no_reprompt (JObj o) = negb (asks_again o).
Proof.
  apply eq_true_iff_eq. rewrite no_reprompt_spec, negb_true_iff. unfold asks_again, member. cbn [jq_index default from_option id].
  destruct (own_get o (u "reprompt")) as [[]|]; done.
Qed.

(** jq's alternatives are the first place that holds something. *)
Lemma alts_first (l : list (option jsval)) : l <> [] ->
  filter_text (jq_alts (map (fun a => Some (default JNull a)) l)) = JStr (text_in (find_first present (omap id l))).
Proof.
  induction l as [|a [|b l] IH]; intros H; [done| |].
  - destruct a as [[| |[]| | | | |]|]; reflexivity.
  - change (jq_alts (map (fun a => Some (default JNull a)) (a :: b :: l)))
      with (jq_alt (Some (default JNull a)) (jq_alts (map (fun a => Some (default JNull a)) (b :: l)))).
    specialize (IH ltac:(done)). revert IH. generalize (jq_alts (map (fun a => Some (default JNull a)) (b :: l))). intros rest IH.
    destruct a as [[| |[]| | | | |]|]; cbn; try exact IH; reflexivity.
Qed.

Lemma alts_skip (a : option jsval) (names : list jstr) rest : rest <> [] -> (forall b, jq_alt a b = b) ->
  jq_alts (map (fun _ => a) names ++ rest) = jq_alts rest.
Proof.
  intros Hr Ha. induction names as [|k names IH]; [done|]. cbn [map app]. rewrite <- IH. cbn [jq_alts].
  destruct (map (fun _ => a) names ++ rest) eqn:E; [|apply Ha]. by apply app_eq_nil in E as [_ E].
Qed.

Lemma omap_id_map {A B} (f : A -> option B) l : omap id (map f l) = omap f l.
Proof. induction l as [|x l IH]; [done|]. cbn. destruct (f x); cbn; by rewrite IH. Qed.

Lemma own_alts o (names : list jstr) : names <> [] ->
  filter_text (jq_alts (map (jq_index (JObj o)) names)) = JStr (text_in (find_first present (omap (own_get o) names))).
Proof.
  intros H. rewrite <- omap_id_map, <- alts_first by (by destruct names). by rewrite map_map.
Qed.

Lemma alts_stored o names : names <> [] ->
  filter_text (jq_alts (map (fun k => ssh_member k (JObj o)) names ++ map (jq_index (JObj o)) names)) = JStr (stored_text o names).
Proof.
  intros Hn. assert (map (jq_index (JObj o)) names <> []) as Hr by (by destruct names). unfold stored_text, places, ssh_member.
  cbn [jq_index mbind option_bind]. destruct (own_get o (u "sshKey")) as [v|] eqn:E; cbn [default from_option id mbind option_bind].
  2: { cbn [jq_index]. rewrite alts_skip by done. by apply own_alts. }
  assert (forall b, jq_alt (Some JNull) b = b) as Hnull by done.
  assert (jq_index v = (fun _ => None) ->
    filter_text (jq_alts (map (fun k => jq_index v k) names ++ map (jq_index (JObj o)) names))
    = JStr (text_in (find_first present (if jq_alt_catches then omap (own_get o) names else [])))) as Hbad.
  { intros ->. destruct jq_alt_catches eqn:Ec; [rewrite alts_skip; [by apply own_alts|done|cbn; by rewrite Ec]|].
    destruct names as [|k names]; [done|]. cbn [map app]. destruct (map _ names ++ _) as [|x r] eqn:Er; [by apply app_eq_nil in Er as [_ ?]|].
    cbn [jq_alts]. unfold jq_alt at 1. by rewrite Ec. }
  destruct v as [| | | | | |key|]; try (by apply Hbad); [by rewrite (alts_skip (Some JNull)), own_alts|].
  assert (omap (own_get key) names ++ omap (own_get o) names = omap id (map (own_get key) names ++ map (own_get o) names)) as ->
    by (by rewrite omap_app, !omap_id_map).
  rewrite <- alts_first by (by destruct names). by rewrite map_app, !map_map.
Qed.

Lemma places_one o k : filter_text (jq_alts [ssh_member k (JObj o); jq_index (JObj o) k]) = JStr (stored_text o [k]).
Proof. by rewrite <- alts_stored. Qed.

Lemma places_two o k k' :
  filter_text (jq_alts [ssh_member k (JObj o); ssh_member k' (JObj o); jq_index (JObj o) k; jq_index (JObj o) k'])
  = JStr (stored_text o [k; k']).
Proof. by rewrite <- alts_stored. Qed.

Lemma own_text o k : string_or_empty (member (JObj o) k) = JStr (text_in (own_get o k)).
Proof. unfold member. cbn [jq_index default from_option id]. by destruct (own_get o k) as [[]|]. Qed.

Lemma agent_row_of o bytes : utf8_encode (stored_key o) = Some bytes ->
  agent_row (JObj o) = obj [("itemId", JStr (text_in (own_get o (u "id")))); ("name", JStr (text_in (own_get o (u "name"))));
                  ("privateKeyB64", JStr (base64 bytes)); ("publicKey", JStr (stored_text o [u "publicKey"]));
                  ("fingerprint", JStr (stored_text o [u "fingerprint"; u "keyFingerprint"])); ("requiresReprompt", JBool false)].
Proof.
  intros Hb. unfold agent_row, filter_privateKey, filter_publicKey, filter_fingerprint. rewrite !own_text, !places_one, places_two.
  cbn [text_base64]. fold (stored_key o). by rewrite Hb.
Qed.

Lemma has_private_key_of o bytes : utf8_encode (stored_key o) = Some bytes ->
  has_private_key (agent_row (JObj o)) = negb (str_eqb (stored_key o) []).
Proof.
  intros Hb. rewrite (agent_row_of o bytes Hb). unfold has_private_key. jobj. f_equal. apply eq_true_iff_eq. rewrite !str_eqb_eq. split.
  - intros E. destruct bytes as [|a [|b [|c r]]]; try done. by apply utf8_encode_nil in Hb.
  - intros E. rewrite E in Hb. injection Hb as <-. done.
Qed.

Lemma agent_rows l :
  Forall (fun o => Forall (fun c => c < 65536)%N (stored_key o) /\ is_Some (utf8_encode (stored_key o))) (omap unattended l) ->
  Forall2 row_of (omap unattended l)
    (List.filter has_private_key (map agent_row (List.filter no_reprompt (List.filter ssh_type (jq_objects l))))).
Proof.
  unfold jq_objects. induction l as [|v l IH]; [constructor|]. intros Hk. cbn [omap list_omap List.filter] in *.
  destruct v as [| | | | | |o|]; cbn [unattended is_plain_object] in *; try (by apply IH). cbn [List.filter]. rewrite is_ssh_key_type.
  destruct (is_ssh_key o); cbn [andb List.filter] in *; [|by apply IH]. rewrite asks_again_reprompt.
  destruct (asks_again o); cbn [negb andb map List.filter] in *; [by apply IH|].
  destruct (str_eqb (stored_key o) []) eqn:Ee; cbn [negb] in *.
  - apply str_eqb_eq in Ee as E0. rewrite (has_private_key_of o []) by (by rewrite E0). rewrite Ee. by apply IH.
  - apply Forall_cons in Hk as [[Hu [bytes Hb]] Hk]. rewrite (has_private_key_of o bytes Hb), Ee. constructor; [|by apply IH].
    exists bytes, (base64 bytes). split_and!; [done| |by apply agent_row_of]. apply base64_roundtrip. by eapply utf8_encode_bytes.
Qed.

Lemma row_of_plain o row : row_of o row -> plain row.
Proof.
  intros (bytes & b64 & _ & _ & ->). constructor; [by vm_compute|]. unfold fields. cbn [map fst snd]. by repeat constructor.
Qed.

Lemma agent_envelope_plain loadId rows : Forall plain rows -> plain (obj [("loadId", JStr loadId); ("items", JArr rows)]).
Proof.
  intros H. constructor; [by vm_compute|]. unfold fields. cbn [map fst snd]. repeat constructor. exact H.
Qed.
End AgentRows.

Section Theorems.
Context `{jq : Jq} `{!JqLaws jq}.

(** C1. Nothing private of an SSH key reaches the panel. Let two runs of [bw]
    list vaults that differ only in their SSH keys, and there in anything but
    the public members (the private key, notes, custom fields, ..). If both
    outputs are within the byte cap and read as one strict JSON array, the list's
    script prints the same bytes for both, or fails for both. *)
Theorem list_hides_private_keys max bw bw' raw raw' l l' :
  status bw = status bw' ->
  strict_passthrough max (head_c (max + 1) (out bw)) = Some raw -> jq_read raw = Some (JArr l) ->
  strict_passthrough max (head_c (max + 1) (out bw')) = Some raw' -> jq_read raw' = Some (JArr l') ->
  Forall2 item_alike l l' ->
  sanitized_list max bw = sanitized_list max bw'.
Proof.
  intros Hs Hp Hr Hp' Hr' Ha. unfold sanitized_list. rewrite Hs, Hp, Hp'. cbn [mbind option_bind]. unfold jq_run.
  rewrite Hr, Hr'. cbn [mbind option_bind]. by rewrite (sanitize_alike l l' Ha).
Qed.

(** The list's script prints nothing but what the filter made of a whole,
    strict JSON array: a failure of [bw], an output past the cap, invalid
    UTF-8, JSON extensions, another kind of value, an ordinary item with an SSH
    key subtree and a result past the cap all end in the fixed error. *)
Theorem list_prints_only_sanitized max bw s : sanitized_list max bw = Some s ->
  status bw = 0%Z /\ (byte_length (out bw) <= max)%N
  /\ (exists t l, decode_utf8 (out bw) = Some t /\ json_parse t = Some (JArr l))
  /\ exists l e, jq_read (out bw) = Some (JArr l) /\ sanitize (JArr l) = Some e /\ s = jq_print e /\ (byte_length s <= max)%N
     /\ Forall (fun it => jq_has (u "sshKey") it = false) (List.filter ordinary_type (jq_objects l)).
Proof.
  unfold sanitized_list. destruct (Z.eqb_spec (status bw) 0) as [Hs|]; [|done]. cbn [negb].
  destruct (strict_passthrough _ _) as [raw|] eqn:Ep; [|done]. cbn [mbind option_bind].
  destruct (strict_json_sound _ _ _ _ Ep) as (-> & Hb & t & v & Hd & Hj & Hr).
  destruct (head_c_within _ _ Hb) as [E Hl]. rewrite E in *. unfold jq_run.
  destruct (jq_read (out bw)) as [w|] eqn:Er; [|done]. cbn [mbind option_bind].
  destruct (sanitize w) as [e|] eqn:Es; [|done]. cbn [fmap option_fmap option_map].
  pose proof (capped_output e max (jq_print_line e)) as Hc. cbv zeta in Hc.
  destruct (max <? byte_length (jq_print e))%N eqn:Em; [by rewrite Hc|]. rewrite Hc, Em. intros [= <-].
  split; [done|]. split; [done|]. destruct v as [| | | | |l0| |]; try done.
  split; [by exists t, l0|]. destruct w as [| | | | |l| |]; try done. exists l, e. split_and!; try done; [by apply N.ltb_ge|].
  unfold sanitize in Es. destruct (existsb (jq_has _) _) eqn:Ex; [done|]. apply Forall_forall. by apply existsb_false.
Qed.

(** C6. The whole way from [bw] to the panel. When [bw] prints the list as JSON
    within the cap, the script fails only because an ordinary item carries an
    SSH key subtree or because the result is past the cap; otherwise what it
    prints is an envelope the panel accepts, whose items are the rows of all
    ordinary items and of the SSH keys' public rows, and whose capability says
    whether there are SSH keys. *)
Theorem list_reaches_panel `{Collation} max t raw l :
  utf8_encode t = Some raw -> Forall (fun c => c < 65536)%N t -> json_parse t = Some (JArr l) -> plain (JArr l) ->
  (byte_length raw <= max)%N ->
  match sanitized_list max (mkRun raw 0) with
  | None => existsb (jq_has (u "sshKey")) (List.filter ordinary_type (jq_objects l)) = true
            \/ exists e, sanitize (JArr l) = Some e /\ (max < byte_length (jq_print e))%N
  | Some stdout => exists printed env, utf8_encode printed = Some stdout /\ parseSanitizedEnvelope (JStr printed) = Some env
      /\ env_items env ≡ₚ map item_row (List.filter ordinary_type (jq_objects l)) ++ env_sshKeys env
      /\ env_sshKeys env ≡ₚ ssh_key_rows (JArr (map public_row (List.filter ssh_type (jq_objects l))))
      /\ env_sshCapability env = (if existsb ssh_type (jq_objects l) then u "confirmed" else u "unconfirmed")
  end.
Proof.
  intros He Ht Hj Hp Hl. unfold sanitized_list. cbn [status out Z.eqb negb].
  rewrite head_c_all by lia. unfold strict_passthrough.
  rewrite (strict_json_accepts _ max t raw (JArr l) He Ht Hj eq_refl Hl). cbn [mbind option_bind]. unfold jq_run.
  rewrite (jq_read_json t raw _ Ht He Hj Hp). cbn [mbind option_bind].
  destruct (sanitize (JArr l)) as [e|] eqn:Es.
  - cbn [fmap option_fmap option_map]. pose proof (capped_output e max (jq_print_line e)) as Hc. cbv zeta in Hc.
    destruct (max <? byte_length (jq_print e))%N eqn:Em.
    + rewrite Hc. right. exists e. split; [done|]. by apply N.ltb_lt.
    + rewrite Hc, Em. destruct (jq_print_text e (sanitize_plain l e Hp Es)) as (printed & E1 & E2).
      destruct (envelope_reads l e printed Es E2) as (env & Henv). exists printed, env. tauto.
  - left. unfold sanitize in Es. by destruct (existsb (jq_has _) _).
Qed.

(** C11. The agent's branch sends exactly the SSH keys it may use unattended. When
    [bw] prints the list as JSON within the cap, the branch writes one line: an
    envelope of the load's nonce and one row for each object of type 5 whose
    reprompt is not 1 and whose private key (that of [sshKey], or else the
    item's own) is not empty, in the order of the list and as often as it is
    there. A row carries the key's bytes in base64, which decode to them, and
    nothing else of the item but its id, its name, its public key and its
    fingerprint. The keys sent must be text that UTF-8 can write. *)
Theorem agent_sends_only_eligible max loadId t raw st l :
  utf8_encode t = Some raw -> Forall (fun c => c < 65536)%N t -> json_parse t = Some (JArr l) -> plain (JArr l) ->
  (byte_length raw <= max)%N ->
  Forall (fun o => Forall (fun c => c < 65536)%N (stored_key o) /\ is_Some (utf8_encode (stored_key o))) (omap unattended l) ->
  exists line printed rows, agent_branch max loadId (mkRun raw st) = Some (line ++ [10%N])
    /\ Forall (fun b => 32 <= b)%N line /\ utf8_encode printed = Some line
    /\ json_parse printed = Some (obj [("loadId", JStr (default [] loadId)); ("items", JArr rows)])
    /\ Forall2 row_of (omap unattended l) rows.
Proof.
  intros He Ht Hj Hp Hl Hk. unfold agent_branch. cbn [out]. rewrite head_c_all by lia. unfold strict_passthrough.
  rewrite (strict_json_accepts _ max t raw (JArr l) He Ht Hj eq_refl Hl). cbn [mbind option_bind].
  rewrite (jq_read_json t raw _ Ht He Hj Hp). cbn [mbind option_bind]. unfold agent_keys. cbn [fmap option_fmap option_map].
  match goal with |- context [("items", JArr ?r)] => set (rows := r) end.
  pose proof (agent_rows l Hk) as Hrows. fold rows in Hrows.
  destruct (jq_print_text (obj [("loadId", JStr (default [] loadId)); ("items", JArr rows)])) as (printed & E1 & E2).
  { apply agent_envelope_plain. eapply Forall2_Forall_r; [exact Hrows|]. apply Forall_true. intros o row. by apply row_of_plain. }
  eexists _, printed, rows. split_and!; try done. apply jq_print_line.
Qed.

(** C12. A stored item is never reported as a failure, and a failure never as
    stored. If [bw] fails, the save's script exits with its status and prints
    nothing; if [bw] stored the item, the script exits 0 and prints either the
    marker that makes the panel reload or the sanitized envelope of what [bw]
    printed. *)
Theorem save_reports_the_save max saved :
  (status saved <> 0%Z -> status saved <> 141%Z -> save_pipeline max saved = (status saved, [])) /\
  (status saved = 0%Z \/ status saved = 141%Z ->
   exists text, save_pipeline max saved = (0%Z, text) /\
     (text = SAVED_UNSANITIZED_MARKER \/
      exists v e raw, sanitize v = Some e /\ text = jq_print e /\ (byte_length text <= max)%N /\ text <> []
        /\ strict_one_object max (substitution (head_c (max + 1) (out saved))) = Some raw /\ jq_read raw = Some v)).
Proof.
  split; [apply save_pipeline_failed|]. intros Hs. unfold save_pipeline.
  replace (if (status saved =? 141)%Z then 0%Z else status saved) with 0%Z by (by destruct Hs as [-> | ->]).
  cbn [Z.eqb negb]. set (text := substitution _).
  destruct (strict_one_object max text) as [raw|] eqn:Eo; [|eexists; split; [reflexivity|by left]]. cbn [mbind option_bind].
  unfold jq_run. destruct (jq_read raw) as [v|] eqn:Er; [|eexists; split; [reflexivity|by left]]. cbn [mbind option_bind].
  destruct (sanitize v) as [e|] eqn:Es; [|eexists; split; [reflexivity|by left]]. cbn [fmap option_fmap option_map].
  pose proof (capped_output e max (jq_print_line e)) as Hc. cbv zeta in Hc.
  destruct (max <? byte_length (jq_print e))%N eqn:Em.
  - rewrite Hc, orb_true_r. eexists. split; [reflexivity|by left].
  - rewrite Hc, Em, orb_false_r. case_bool_decide as Hb; [eexists; split; [reflexivity|by left]|].
    eexists. split; [reflexivity|]. right. exists v, e, raw. split_and!; try done. by apply N.ltb_ge.
Qed.

(** A saved item reaches the list. When the cipher [bw] prints after a save
    is an ordinary item within the caps, as JSON.stringify writes it, the
    script's output splices into the panel's list: the row of exactly that item
    replaces the one it was saved over, or joins the list; and the marker never
    splices. *)
Theorem save_splices `{Collation} max raw o id items replacing :
  utf8_encode (text (JObj o)) = Some raw -> Forall (fun c => c < 65536)%N (text (JObj o)) -> plain (JObj o) ->
  ordinary_type (JObj o) = true -> own_get o (u "sshKey") = None -> own_get o (u "id") = Some (JStr id) -> id <> [] ->
  (byte_length raw <= max)%N ->
  (forall e, sanitize (JArr [JObj o]) = Some e -> (byte_length (jq_print e) <= max)%N) ->
  spliceSavedItem items (JStr SAVED_UNSANITIZED_MARKER) replacing = None /\
  exists printed stdout, save_pipeline max (mkRun (raw ++ [10%N]) 0) = (0%Z, stdout) /\ utf8_encode printed = Some stdout
    /\ spliceSavedItem items (JStr printed) replacing
       = Some (replaceItemById items (if truthy replacing then JStr (to_str replacing) else JStr id) (item_row (JObj o))).
Proof.
  intros He Ht Hp Hord Hns Hid Hne Hl Hout. split; [done|].
  pose proof (sanitize_one o Hord Hns) as Es. pose proof (Hout _ Es) as Hle.
  assert (plain (JArr [JObj o])) as Hpa by (constructor; by constructor).
  destruct (jq_print_text _ (sanitize_plain _ _ Hpa Es)) as (printed & E1 & E2).
  exists printed, (jq_print (one_item_envelope o)). split_and!; [|done|].
  - by apply save_prints_envelope.
  - eapply splice_one; [exact Hord|exact Hns|exact Hid|exact Hne|exact E2].
Qed.
End Theorems.

(** *** The laws hold of the reference *)

Lemma visible_filter l : Forall (fun b => 32 <= b)%N l -> List.filter (fun b => 32 <=? b)%N l = l.
Proof. induction 1 as [|b l Hb Hl IH]; [done|]. cbn [List.filter]. destruct (N.leb_spec 32 b); [by rewrite IH|lia]. Qed.

#[export] Instance reference_jq_laws : JqLaws reference_jq.
Proof.
  split.
  - intros v. apply Forall_forall. intros b Hb. unfold jq_print, reference_jq in Hb.
    apply list_elem_of_In, filter_In in Hb as [_ Hb]. by apply N.leb_le.
  - intros v Hv. exists (text v). split; [|by apply json_roundtrip]. unfold jq_print, reference_jq.
    destruct (text_encodes v Hv) as [l Hl]. rewrite Hl. cbn [default from_option id].
    rewrite visible_filter; [done|]. eapply encode_one_line; [|exact Hl]. by apply text_one_line.
  - intros t raw v Ht He Hj _. unfold jq_read, reference_jq. rewrite (decode_utf8_encode t raw v He Ht Hj). exact Hj.
Qed.

(** *** Witnesses *)

Definition vault_login : list (jstr * jsval) :=
  fields [("id", JStr (u "a1")); ("name", JStr (u "Mail")); ("type", jz 1); ("login", obj [("username", JStr (u "me"))])].
Definition example_key (private notes : jstr) : list (jstr * jsval) :=
  fields [("id", JStr (u "b2")); ("name", JStr (u "server")); ("type", jz 5); ("notes", JStr notes);
          ("sshKey", obj [("privateKey", JStr private); ("publicKey", JStr (u "ssh-ed25519 AAAA"))])].
Definition example_vault (private notes : jstr) : list jsval := [JObj vault_login; JObj (example_key private notes)].
Definition example_output (private notes : jstr) : list N := default [] (utf8_encode (text (JArr (example_vault private notes)))).

Lemma example_vault_plain private notes : plain (JArr (example_vault private notes)).
Proof. unfold example_vault, vault_login, example_key, obj. solve_plain. Qed.

Definition run_one : bw_run := mkRun (example_output (u "secret one") (u "x")) 0.
Definition run_two : bw_run := mkRun (example_output (u "another secret") (u "y")) 0.

Lemma example_alike : Forall2 item_alike (example_vault (u "secret one") (u "x")) (example_vault (u "another secret") (u "y")).
Proof.
  constructor; [apply alike_same|]. constructor; [|constructor]. apply alike_ssh.
  - by vm_compute.
  - unfold PUBLIC_MEMBERS, agree_at. repeat (apply Forall_cons_2; [by vm_compute|]). by apply Forall_nil_2.
  - right. do 2 eexists. split; [reflexivity|]. split; [reflexivity|].
    unfold PUBLIC_KEY_MEMBERS, agree_at. repeat (apply Forall_cons_2; [by vm_compute|]). by apply Forall_nil_2.
Qed.

Lemma list_hides_private_keys_witness :
  run_one <> run_two /\ sanitized_list 4096 run_one <> None /\ sanitized_list 4096 run_one = sanitized_list 4096 run_two.
Proof.
  split; [by vm_compute|]. split; [by vm_compute|].
  eapply (list_hides_private_keys 4096 run_one run_two (out run_one) (out run_two)
    (example_vault (u "secret one") (u "x")) (example_vault (u "another secret") (u "y"))).
  - reflexivity.
  - by vm_compute.
  - by vm_compute.
  - by vm_compute.
  - by vm_compute.
  - apply example_alike.
Defined.

Lemma list_prints_only_sanitized_witness :
  match sanitized_list 4096 run_one with
  | Some s => (byte_length s <= 4096)%N /\ (byte_length (out run_one) <= 4096)%N
  | None => False
  end.
Proof.
  destruct (sanitized_list 4096 run_one) as [s|] eqn:E; [|by vm_compute in E].
  destruct (list_prints_only_sanitized 4096 run_one s E) as (_ & H & _ & l & e & _ & _ & _ & H' & _). by split.
Defined.

Lemma list_reaches_panel_witness :
  match sanitized_list 4096 run_one with
  | Some stdout => exists printed env, utf8_encode printed = Some stdout
      /\ parseSanitizedEnvelope (H := codeunit_collation) (JStr printed) = Some env /\ env_sshCapability env = u "confirmed"
  | None => False
  end.
Proof.
  pose proof (list_reaches_panel (H := codeunit_collation) 4096 (text (JArr (example_vault (u "secret one") (u "x")))) (out run_one)
    (example_vault (u "secret one") (u "x")) ltac:(by vm_compute)
    ltac:(apply (bool_decide_eq_true_1 (Forall (fun c => c < 65536)%N _)); by vm_compute) ltac:(by vm_compute)
    (example_vault_plain _ _) ltac:(by vm_compute)) as G.
  change (mkRun (out run_one) 0) with run_one in G. destruct (sanitized_list 4096 run_one) as [s|] eqn:E; [|by vm_compute in E].
  destruct G as (printed & env & H1 & H2 & _ & _ & H3). exists printed, env. split_and!; [done|done|]. rewrite H3. by vm_compute.
Defined.

Lemma agent_sends_only_eligible_witness :
  exists line printed row, agent_branch 4096 (Some (u "nonce")) run_one = Some (line ++ [10%N])
    /\ json_parse printed = Some (obj [("loadId", JStr (u "nonce")); ("items", JArr [row])])
    /\ row_of (example_key (u "secret one") (u "x")) row.
Proof.
  assert (omap unattended (example_vault (u "secret one") (u "x")) = [example_key (u "secret one") (u "x")]) as El by (by vm_compute).
  destruct (agent_sends_only_eligible 4096 (Some (u "nonce")) (text (JArr (example_vault (u "secret one") (u "x")))) (out run_one) 0
    (example_vault (u "secret one") (u "x")) ltac:(by vm_compute)
    ltac:(apply (bool_decide_eq_true_1 (Forall (fun c => c < 65536)%N _)); by vm_compute) ltac:(by vm_compute)
    (example_vault_plain _ _) ltac:(by vm_compute)) as (line & printed & rows & H1 & _ & _ & H4 & H5).
  - rewrite El. constructor; [|constructor]. split; [apply (bool_decide_eq_true_1 (Forall (fun c => c < 65536)%N _)); by vm_compute|].
    vm_compute. by eexists.
  - rewrite El in H5. inversion H5 as [|o row r1 r2 Hrow Hnil]; subst. inversion Hnil; subst. exists line, printed, row. by split_and!.
Defined.

Definition saved_login : bw_run := mkRun (default [] (utf8_encode (text (JObj vault_login))) ++ [10%N]) 0.

Lemma save_reports_the_save_witness :
  exists printed, save_pipeline 4096 saved_login = (0%Z, printed) /\ printed <> SAVED_UNSANITIZED_MARKER.
Proof.
  destruct (proj2 (save_reports_the_save 4096 saved_login) (or_introl eq_refl)) as (printed & E & _).
  exists printed. split; [exact E|]. vm_compute in E. injection E as <-. by vm_compute.
Defined.

Lemma save_splices_witness :
  exists printed row, spliceSavedItem (H := codeunit_collation) (JArr []) (JStr printed) JNull = Some [row].
Proof.
  destruct (save_splices (H := codeunit_collation) 4096 (default [] (utf8_encode (text (JObj vault_login)))) vault_login
    (u "a1") (JArr []) JNull) as (_ & printed & stdout & _ & _ & E).
  - by vm_compute.
  - apply (bool_decide_eq_true_1 (Forall (fun c => c < 65536)%N _)); by vm_compute.
  - unfold vault_login, obj. solve_plain.
  - by vm_compute.
  - by vm_compute.
  - by vm_compute.
  - by vm_compute.
  - by vm_compute.
  - intros e He. rewrite sanitize_one in He by (by vm_compute). injection He as <-. by vm_compute.
  - exists printed. rewrite E. eexists. reflexivity.
Defined.
