(* ===== verification/Keyring.v ===== *)
(** * The keyring

    The plugin's entries in the secret service ([src/BitwardenModel.js],
    "Remembered session", "Legacy quick-unlock entries", "Clear everything on
    logout", and the keyring scripts at the top of the file), the accounts'
    files on disk and the scripts that retire an account. Each script appears as
    the text that is run; the session's store and lookup and the logout's
    clearing also as what they do to the keyring, which is a parameter with the
    operations of [secret-tool]. *)

From stdpp Require Import base list numbers strings.
From S2P Require Import Prelude.
From S2P Require Import JsValue.
From S2P Require Import Json.
From S2P Require Import Shell.
From S2P Require Import Accounts.
From S2P Require Import Session.
From S2P Require Import Context.
From S2P Require Import Associations.
From S2P Require Import Runtime.
From S2P Require Import Commands.
Local Open Scope nat_scope.

(** ** Entries *)

Definition KEYRING_ACCOUNT : jstr := u "session".
Definition KEYRING_MASTER : jstr := u "master_password".
Definition KEYRING_FIDO : jstr := u "fido_password".
Definition KEYRING_SECRET_ENV : jstr := u "QSBW_SECRET".
Definition KEYRING_PIN : jstr := u "pin_blob".
Definition KEYRING_ENVELOPE : jstr := u "unlock_envelope".
Definition KEYRING_SESSION_COLLECTION : jstr := u "session".
Definition BOOT_ID_PATH : jstr := u "/proc/sys/kernel/random/boot_id".
Definition keyringSecretEnvVar : jstr := KEYRING_SECRET_ENV.

Definition keyringAttributes (account : jstr) : jstr :=
  u " service " ++ shellQuote (JStr KEYRING_SERVICE) ++ u " account " ++ shellQuote (JStr account).

Definition keyringStoreScript (label account : jstr) : jstr :=
  uq "printf '%s' `$" ++ KEYRING_SECRET_ENV ++ uq "` | secret-tool store --label=" ++ shellQuote (JStr label)
    ++ keyringAttributes account.

Definition keyringReadScript (account : jstr) : jstr :=
  u "secret-tool lookup" ++ keyringAttributes account ++ u " 2>/dev/null | head -c " ++ dec_Z MAX_TOKEN_BYTES.

Definition keyringLookupEntryCommand (account : jstr) : list jstr :=
  bash (cappedScript
    (u "stored=$(" ++ keyringReadScript account ++ u "); "
     ++ uq "__lookup_rc=$?; [ `$__lookup_rc` -eq 0 ] || exit `$__lookup_rc`; "
     ++ uq "printf '%s' `$stored`") None).

Definition keyringClearEntryCommand (account : jstr) : list jstr :=
  [u "secret-tool"; u "clear"; u "service"; KEYRING_SERVICE; u "account"; account].

Definition keyringClearEntryScript (account : jstr) : jstr :=
  u "__clear_error=$(secret-tool clear" ++ keyringAttributes account
    ++ uq " 2>&1 >/dev/null; __status=$?; printf '.'; exit `$__status`); __clear_rc=$?; __clear_error=`${__clear_error%.}`; "
    ++ uq "[ `$__clear_rc` -eq 0 ] || { [ `$__clear_rc` -eq 1 ] && [ -z `$__clear_error` ]; }".

Definition keyringHasEntryCommand (account : jstr) : list jstr :=
  bash (u "if secret-tool lookup" ++ keyringAttributes account ++ u " >/dev/null 2>&1; then echo yes; else echo no; fi").

(** ** The remembered session *)

Definition keyringStoreCommand (slot : jsval) : list jstr :=
  let attrs := keyringAttributes (keyringEntryName KEYRING_ACCOUNT slot) in
  bash (uq "store() { printf '%s %s' `$(cat " ++ shellQuote (JStr BOOT_ID_PATH) ++ uq ")` `$"
    ++ KEYRING_SECRET_ENV ++ uq "` | secret-tool store `$@` --label="
    ++ shellQuote (JStr (u "Bitwarden Vault Session")) ++ attrs ++ u "; }; "
    ++ u "store --collection=" ++ shellQuote (JStr KEYRING_SESSION_COLLECTION) ++ u " 2>/dev/null || store").

Definition keyringLookupCommand (slot : jsval) : list jstr :=
  let attrs := keyringAttributes (keyringEntryName KEYRING_ACCOUNT slot) in
  bash (cappedScript
    (u "boot=$(cat " ++ shellQuote (JStr BOOT_ID_PATH) ++ u " 2>/dev/null | head -c 128) || exit 0; "
     ++ uq "[ -n `$boot` ] || exit 0; "
     ++ u "stored=$(secret-tool lookup" ++ attrs ++ u " 2>/dev/null | head -c " ++ dec_Z MAX_TOKEN_BYTES ++ u ") || exit 0; "
     ++ uq "case `$stored` in "
     ++ uq "`$boot `?*) printf '%s' `${stored#* }` ;; "
     ++ uq "*) [ -n `$stored` ] && secret-tool clear" ++ attrs ++ u " >/dev/null 2>&1 ;; "
     ++ u "esac; exit 0") None).

Definition keyringClearCommand (slot : jsval) : list jstr :=
  let attrs := keyringAttributes (keyringEntryName KEYRING_ACCOUNT slot) in
  bash (u "secret-tool clear" ++ attrs ++ u " >/dev/null 2>&1; "
    ++ u "__left=$(secret-tool search" ++ attrs ++ u " 2>/dev/null | wc -c | tr -d '[:space:]'); "
    ++ uq "[ `${__left:-0}` = 0 ]").

(** ** Legacy entries *)

Definition keyringLookupMasterPasswordCommand (slot : jsval) : list jstr :=
  keyringLookupEntryCommand (keyringEntryName KEYRING_MASTER slot).
Definition keyringClearMasterPasswordCommand (slot : jsval) : list jstr :=
  keyringClearEntryCommand (keyringEntryName KEYRING_MASTER slot).
Definition keyringHasMasterPasswordCommand (slot : jsval) : list jstr :=
  keyringHasEntryCommand (keyringEntryName KEYRING_MASTER slot).
Definition keyringClearFidoPasswordCommand (slot : jsval) : list jstr :=
  keyringClearEntryCommand (keyringEntryName KEYRING_FIDO slot).
Definition keyringHasFidoPasswordCommand (slot : jsval) : list jstr :=
  keyringHasEntryCommand (keyringEntryName KEYRING_FIDO slot).
Definition keyringClearPinCommand (slot : jsval) : list jstr :=
  keyringClearEntryCommand (keyringEntryName KEYRING_PIN slot).
Definition keyringHasPinCommand (slot : jsval) : list jstr :=
  keyringHasEntryCommand (keyringEntryName KEYRING_PIN slot).

(** ** Logging out *)

Definition KEYRING_ALL_ACCOUNTS : list jstr :=
  [KEYRING_ACCOUNT; KEYRING_ENVELOPE; KEYRING_MASTER; KEYRING_FIDO; KEYRING_PIN].

Definition keyringSearchStateScript (account resultVar : jstr) : jstr :=
  let attrs := keyringAttributes account in
  resultVar ++ u "=$(secret-tool search --all" ++ attrs
    ++ u " 2>/dev/null | wc -c | tr -d '[:space:]'; "
    ++ uq "__keyring_pipe=(`${PIPESTATUS[@]}`); "
    ++ uq "printf ':%s' `${__keyring_pipe[0]}`); ".

(** One entry's step of the logout's script. *)
Definition clear_entry_script (slot : jsval) (base : jstr) : jstr :=
  let entry := keyringEntryName base slot in
  let attrs := keyringAttributes entry in
  keyringSearchStateScript entry (u "__keyring_before")
    ++ u "__keyring_count=${__keyring_before%%:*}; "
    ++ u "__keyring_search_rc=${__keyring_before##*:}; "
    ++ uq "if [ `$__keyring_search_rc` -ne 0 ]; then rc=1; "
    ++ uq "elif [ `$__keyring_count` -gt 0 ]; then "
    ++ u "secret-tool search --all --unlock" ++ attrs ++ u " >/dev/null 2>&1 || true; "
    ++ u "secret-tool clear" ++ attrs ++ u " >/dev/null 2>&1 || true; "
    ++ keyringSearchStateScript entry (u "__keyring_after")
    ++ u "__keyring_count=${__keyring_after%%:*}; "
    ++ u "__keyring_search_rc=${__keyring_after##*:}; "
    ++ uq "if [ `$__keyring_search_rc` -ne 0 ] || [ `$__keyring_count` -ne 0 ]; then rc=1; fi; fi; ".

Definition keyringClearAllCommand (slot : jsval) : list jstr :=
  bash (u "rc=0; " ++ concat (map (clear_entry_script slot) KEYRING_ALL_ACCOUNTS) ++ uq "exit `$rc`").

(** ** An account's files *)

Definition ASSOC_DIR : jstr := u "${XDG_STATE_HOME:-$HOME/.local/state}/qs-bitwarden-cli".

Definition associationsReadCommand (slot : jsval) : list jstr :=
  bash (uq "d=`" ++ ASSOC_DIR ++ uq "`; f=`$d/" ++ associationsFileName slot ++ uq "`; "
    ++ uq "if [ -d `$d` ] && [ ! -L `$d` ] && [ -f `$f` ] && [ ! -L `$f` ]; then "
    ++ u "head -c " ++ dec MAX_ASSOC_BYTES ++ uq " `$f` 2>/dev/null || printf '{}'; else printf '{}'; fi").

Definition associationsWriteCommand (slot : jsval) : list jstr :=
  bash (uq "set -e; d=`" ++ ASSOC_DIR ++ uq "`; "
    ++ privateDirScript (u "d")
    ++ uq "umask 077; tmp=$(mktemp -- `$d/.associations.XXXXXXXX`); "
    ++ uq "trap 'rm -f -- `$tmp`' EXIT HUP INT TERM; "
    ++ u "head -c " ++ dec (MAX_ASSOC_BYTES + 1) ++ uq " > `$tmp`; "
    ++ uq "[ `$(wc -c < `$tmp`)` -le " ++ dec MAX_ASSOC_BYTES ++ uq " ]; chmod 600 `$tmp`; "
    ++ uq "mv -fT -- `$tmp` `$d/" ++ associationsFileName slot ++ uq "`; trap - EXIT HUP INT TERM").

Definition associationsClearCommand (slot : jsval) : list jstr :=
  bash (uq "d=`" ++ ASSOC_DIR ++ uq "`; "
    ++ uq "if [ -d `$d` ] && [ ! -L `$d` ]; then rm -f -- `$d/" ++ associationsFileName slot ++ uq "` 2>/dev/null; fi; exit 0").

(** A [bash -c] command as a step of another script. *)
Definition nestedScript (cmd : list jstr) : jstr := u "bash -c " ++ shellQuote (JStr (nth 2 cmd [])).

Definition accountSlotRetireCommand (slot : jsval) : list jstr :=
  let s := JStr (accountSlot slot) in
  bash (nestedScript (keyringClearAllCommand s) ++ u "; "
    ++ nestedScript (associationsClearCommand s) ++ u "; "
    ++ nestedScript (accountSlotRemoveCommand s)).

(** ** What the scripts do

    [lookup] prints a secret, None when there is none to print, and [fails] tells
    a lookup that reports an error; [store] is None when it fails; [search] is the
    number of bytes a search prints, None when it fails; [unlock] says nothing
    about its success, and [cleared] tells a [clear] that exits 0, or 1 without a
    diagnostic. *)
Class SecretService := {
  keyring : Type;
  st_lookup : keyring -> jstr -> option jstr;
  st_fails : keyring -> jstr -> bool;
  st_store : keyring -> jstr -> jstr -> option keyring;
  st_search : keyring -> jstr -> option N;
  st_unlock : keyring -> jstr -> keyring;
  st_clear : keyring -> jstr -> keyring;
  st_cleared : keyring -> jstr -> bool
}.

(** Attributes match exactly: an operation on one entry leaves the others alone, and a stored secret is found. *)
Class SecretServiceLaws (s : SecretService) : Prop := {
  st_lookup_store k a v k' : st_store k a v = Some k' -> st_lookup k' a = Some v;
  st_lookup_store_other k a b v k' : st_store k a v = Some k' -> a <> b -> st_lookup k' b = st_lookup k b;
  st_lookup_clear_other k a b : a <> b -> st_lookup (st_clear k a) b = st_lookup k b;
  st_search_clear_other k a b : a <> b -> st_search (st_clear k a) b = st_search k b;
  st_lookup_unlock_other k a b : a <> b -> st_lookup (st_unlock k a) b = st_lookup k b;
  st_search_unlock_other k a b : a <> b -> st_search (st_unlock k a) b = st_search k b;
  st_fails_store_other k a b v k' : st_store k a v = Some k' -> a <> b -> st_fails k' b = st_fails k b;
  st_fails_clear_other k a b : a <> b -> st_fails (st_clear k a) b = st_fails k b
}.

Section Effects.
Context `{SecretService}.

(** keyringClearEntryScript: its status and the keyring it leaves. *)
Definition clear_reported (k : keyring) (a : jstr) : bool * keyring := (st_cleared k a, st_clear k a).

(** [$( .. )] without NULs. *)
Definition command_text (s : jstr) : jstr := strip_end (N.eqb 10) s.

Definition session_entry (boot token : jstr) : jstr := command_text boot ++ u " " ++ token.

(** keyringStoreCommand, with the boot id's file and the token of the environment; None when it fails. *)
Definition store_session (k : keyring) (slot : jsval) (bootFile token : jstr) : option keyring :=
  st_store k (keyringEntryName KEYRING_ACCOUNT slot) (session_entry bootFile token).

(** [${stored#* }]: what follows the first blank, or everything. *)
Definition after_blank (s : jstr) : jstr :=
  match index_of (u " ") s with Some i => drop (S i) s | None => s end.

(** keyringLookupCommand: what it prints and the keyring it leaves. *)
Definition lookup_session (k : keyring) (slot : jsval) (bootFile : option jstr) : jstr * keyring :=
  let entry := keyringEntryName KEYRING_ACCOUNT slot in
  match bootFile with
  | None => ([], k)
  | Some file =>
    let boot := command_text (take 128 file) in
    if str_eqb boot [] then ([], k)
    else match st_lookup k entry with
         | None => ([], k)
         | Some secret =>
           let stored := command_text (take (Z.to_nat MAX_TOKEN_BYTES) secret) in
           if starts_with (boot ++ u " ") stored && (length boot + 1 <? length stored)
           then (after_blank stored, k)
           else ([], if str_eqb stored [] then k else st_clear k entry)
         end
  end.

(** One entry of the logout: the exit status so far and the keyring. *)
Definition clear_entry (slot : jsval) (st : Z * keyring) (base : jstr) : Z * keyring :=
  let '(rc, k) := st in
  let entry := keyringEntryName base slot in
  match st_search k entry with
  | None => (1%Z, k)
  | Some n =>
    if (0 <? n)%N then
      let k1 := st_clear (st_unlock k entry) entry in
      match st_search k1 entry with
      | Some 0%N => (rc, k1)
      | _ => (1%Z, k1)
      end
    else (rc, k)
  end.

Definition clear_all (slot : jsval) (k : keyring) : Z * keyring :=
  fold_left (clear_entry slot) KEYRING_ALL_ACCOUNTS (0%Z, k).
End Effects.

(** ** Lemmas *)

Lemma entry_slot base slot : keyringEntryName base slot = keyringEntryName base (JStr (accountSlot slot)).
Proof. unfold keyringEntryName. by rewrite accountSlot_id by apply accountSlot_valid. Qed.

Lemma base_no_at base : base ∈ KEYRING_ALL_ACCOUNTS -> 64%N ∉ base.
Proof.
  unfold KEYRING_ALL_ACCOUNTS. rewrite !elem_of_cons, elem_of_nil.
  intros [-> |[-> |[-> |[-> |[-> |[]]]]]]; apply (bool_decide_eq_false_1 (64%N ∈ _)); by vm_compute.
Qed.

(** Different entries or different accounts: different names. *)
Lemma entries_differ b c s t : b ∈ KEYRING_ALL_ACCOUNTS -> c ∈ KEYRING_ALL_ACCOUNTS ->
  b <> c \/ accountSlot s <> accountSlot t -> keyringEntryName b s <> keyringEntryName c t.
Proof.
  intros Hb Hc Hne E. rewrite (entry_slot b s), (entry_slot c t) in E.
  destruct (keyringEntryName_inj b c (accountSlot s) (accountSlot t)) as [-> Est]; try done;
    try apply accountSlot_valid; try by apply base_no_at. destruct Hne; congruence.
Qed.

Lemma entries_NoDup slot : NoDup (map (fun b => keyringEntryName b slot) KEYRING_ALL_ACCOUNTS).
Proof.
  assert (NoDup KEYRING_ALL_ACCOUNTS) as Hn by (apply (bool_decide_eq_true_1 (NoDup _)); by vm_compute).
  assert (forall l, (forall x, x ∈ l -> x ∈ KEYRING_ALL_ACCOUNTS) -> NoDup l -> NoDup (map (fun b => keyringEntryName b slot) l)) as G.
  { induction l as [|b l IH]; intros Hin Hl; cbn [map]; [constructor|]. apply NoDup_cons in Hl as [Hb Hl].
    apply NoDup_cons. split; [|apply IH; [intros x Hx; apply Hin; by right|done]].
    intros (c & E & Hc)%list_elem_of_fmap. assert (b <> c) by congruence.
    eapply entries_differ; [apply Hin; by left|apply Hin; right; exact Hc|by left|exact E]. }
  by apply G.
Qed.

Lemma command_text_id s : command_text s = s <-> (forall t, s <> t ++ [10%N]).
Proof.
  unfold command_text. split.
  - intros E t ->. assert (L : length (strip_end (N.eqb 10) (t ++ [10%N])) <= length t); [|rewrite E, length_app in L; simpl in L; lia].
    clear. induction t as [|c t IH]; [done|]. cbn [app strip_end length]. destruct (strip_end (N.eqb 10) (t ++ [10%N])) eqn:E1.
    + destruct (10 =? c)%N; simpl; lia.
    + cbn [length] in *. lia.
  - induction s as [|c s IH]; intros H; [done|]. cbn [strip_end]. rewrite IH by (intros t ->; by apply (H (c :: t))).
    destruct s as [|d s]; [|done]. destruct (N.eqb_spec 10 c) as [<-|]; [by destruct (H [])|done].
Qed.

Lemma starts_with_app p s : starts_with p (p ++ s) = true.
Proof. induction p as [|c p IH]; [done|]. cbn [app starts_with]. by rewrite N.eqb_refl, IH. Qed.

Lemma starts_with_blank b t : starts_with (b ++ [32%N]) (b ++ 32%N :: t) = true.
Proof. rewrite (cons_middle 32%N b t), app_assoc. apply starts_with_app. Qed.

Lemma blank_unit : u " " = [32%N].
Proof. by vm_compute. Qed.

(** Two words before a blank are the same if one text starts with the other's. *)
Lemma starts_with_word a b t : 32%N ∉ a -> 32%N ∉ b -> starts_with (a ++ [32%N]) (b ++ 32%N :: t) = true -> a = b.
Proof.
  revert b; induction a as [|c a IH]; intros b Ha Hb; destruct b as [|d b]; cbn [app starts_with]; [done|..].
  - intros H. apply andb_true_iff in H as [E _]. apply N.eqb_eq in E as <-. destruct Hb. by left.
  - intros H. apply andb_true_iff in H as [E _]. apply N.eqb_eq in E as ->. destruct Ha. by left.
  - intros H. apply andb_true_iff in H as [E H]. apply N.eqb_eq in E as ->. f_equal.
    apply IH; [|by intros ?; apply Hb; right|done]. intros ?. apply Ha. by right.
Qed.

Lemma index_of_blank b t : 32%N ∉ b -> index_of [32%N] (b ++ 32%N :: t) = Some (length b).
Proof.
  induction b as [|c b IH]; intros Hb; [done|]. cbn [app index_of starts_with length].
  destruct (N.eqb_spec 32 c) as [<-|]; [destruct Hb; by left|]. cbn [andb].
  rewrite IH; [done|]. intros ?. apply Hb. by right.
Qed.

Section Facts.
Context `{s : SecretService} `{!SecretServiceLaws s}.

Lemma clear_entry_rc slot st base : st.1 = 1%Z -> (clear_entry slot st base).1 = 1%Z.
Proof.
  destruct st as [rc k]. cbn [fst]. intros ->. unfold clear_entry. destruct (st_search k _) as [n|]; [|done].
  destruct (0 <? n)%N; [|done]. by destruct (st_search _ _) as [[|p]|].
Qed.

Lemma clear_all_rc slot l st : st.1 = 1%Z -> (fold_left (clear_entry slot) l st).1 = 1%Z.
Proof. revert st; induction l as [|b l IH]; intros st H; [done|]. apply IH. by apply clear_entry_rc. Qed.

Lemma clear_entry_other slot st base name : keyringEntryName base slot <> name ->
  st_search (clear_entry slot st base).2 name = st_search st.2 name /\ st_lookup (clear_entry slot st base).2 name = st_lookup st.2 name.
Proof.
  intros Hne. destruct st as [rc k]. unfold clear_entry. cbn [snd].
  assert (st_search (st_clear (st_unlock k (keyringEntryName base slot)) (keyringEntryName base slot)) name = st_search k name
    /\ st_lookup (st_clear (st_unlock k (keyringEntryName base slot)) (keyringEntryName base slot)) name = st_lookup k name) as [E1 E2].
  { rewrite st_search_clear_other, st_search_unlock_other by done. by rewrite st_lookup_clear_other, st_lookup_unlock_other. }
  destruct (st_search k (keyringEntryName base slot)) as [n|]; [|done]. destruct (0 <? n)%N; [|done]. by destruct (st_search _ (keyringEntryName base slot)) as [[|p]|].
Qed.

Lemma clear_all_other slot l st name : name ∉ map (fun b => keyringEntryName b slot) l ->
  st_search (fold_left (clear_entry slot) l st).2 name = st_search st.2 name
  /\ st_lookup (fold_left (clear_entry slot) l st).2 name = st_lookup st.2 name.
Proof.
  revert st; induction l as [|b l IH]; intros st Hn; [done|]. cbn [map fold_left] in *. rewrite not_elem_of_cons in Hn.
  destruct Hn as [Hb Hl]. destruct (IH (clear_entry slot st b) Hl) as [-> ->]. apply clear_entry_other. congruence.
Qed.

Lemma clear_entry_cleared slot st base : (clear_entry slot st base).1 = 0%Z ->
  st_search (clear_entry slot st base).2 (keyringEntryName base slot) = Some 0%N.
Proof.
  destruct st as [rc k]. unfold clear_entry. destruct (st_search k _) as [n|] eqn:E; [|done].
  destruct (N.ltb_spec 0 n) as [Hn|Hn].
  - by destruct (st_search (st_clear _ _) (keyringEntryName base slot)) as [[|p]|] eqn:E1.
  - intros _. cbn [snd]. rewrite E. f_equal. lia.
Qed.

Lemma clear_entry_code slot st base : st.1 = 0%Z \/ st.1 = 1%Z -> (clear_entry slot st base).1 = 0%Z \/ (clear_entry slot st base).1 = 1%Z.
Proof.
  destruct st as [rc k]. unfold clear_entry. intros H. destruct (st_search k _) as [n|]; [|auto]. destruct (0 <? n)%N; [|auto].
  destruct (st_search _ _) as [[|p]|]; auto.
Qed.

Lemma clear_all_cleared slot l st base : NoDup (map (fun b => keyringEntryName b slot) l) -> base ∈ l -> st.1 = 0%Z \/ st.1 = 1%Z ->
  (fold_left (clear_entry slot) l st).1 = 0%Z ->
  st_search (fold_left (clear_entry slot) l st).2 (keyringEntryName base slot) = Some 0%N.
Proof.
  revert st; induction l as [|b l IH]; intros st Hn Hb H01 Hrc; [by apply elem_of_nil in Hb|]. cbn [map fold_left] in *.
  apply NoDup_cons in Hn as [Hnb Hn]. pose proof (clear_entry_code slot st b H01) as Hcode.
  apply elem_of_cons in Hb as [-> |Hb]; [|by apply IH].
  rewrite (proj1 (clear_all_other slot l _ _ Hnb)). apply clear_entry_cleared.
  destruct Hcode as [E|E]; [done|]. by rewrite (clear_all_rc slot l _ E) in Hrc.
Qed.
End Facts.

(** ** Properties *)

Section Theorems.
Context `{s : SecretService} `{!SecretServiceLaws s}.

(** C10. A remembered session is read back only by the boot that stored it. After
    storing a token under a boot id, a lookup in the same boot prints exactly
    the token and changes nothing; a lookup under any other boot id prints
    nothing and clears the entry; and no entry of another account is touched by
    the store. The boot id is the text of a file of at most 128 characters and
    has no space, the token has no newline at its end, and both fit the 4096
    bytes that a lookup reads. *)
Theorem remembered_session k slot file token :
  let boot := command_text file in
  boot <> [] -> 32%N ∉ boot -> length file <= 128 -> token <> [] -> command_text token = token ->
  length (session_entry file token) <= 4096 -> forall k', store_session k slot file token = Some k' ->
  lookup_session k' slot (Some file) = (token, k')
  /\ (forall other, command_text (take 128 other) <> [] -> 32%N ∉ command_text (take 128 other) ->
       command_text (take 128 other) <> boot ->
       lookup_session k' slot (Some other) = ([], st_clear k' (keyringEntryName KEYRING_ACCOUNT slot)))
  /\ (forall base slot', base ∈ KEYRING_ALL_ACCOUNTS -> accountSlot slot <> accountSlot slot' ->
       st_lookup k' (keyringEntryName base slot') = st_lookup k (keyringEntryName base slot')).
Proof.
  intros boot Hb Hs Hl Ht Hc Hmax k' Hk.
  assert (session_entry file token = boot ++ 32%N :: token) as Ee by (unfold session_entry; by rewrite blank_unit).
  assert (command_text (take (Z.to_nat MAX_TOKEN_BYTES) (boot ++ 32%N :: token)) = boot ++ 32%N :: token) as Estored.
  { rewrite take_ge by (rewrite <- Ee; exact Hmax). apply command_text_id. intros t E.
    destruct token as [|c r] using rev_ind; [done|]. rewrite (cons_middle 32%N), !app_assoc in E. apply app_inj_2 in E as [_ [= ->]]; [|done].
    by eapply (proj1 (command_text_id _) Hc). }
  assert (st_lookup k' (keyringEntryName KEYRING_ACCOUNT slot) = Some (boot ++ 32%N :: token)) as Elook.
  { rewrite <- Ee. by eapply st_lookup_store. }
  split_and!.
  - unfold lookup_session. rewrite take_ge by done. fold boot. rewrite (proj2 (str_eqb_neq _ _) Hb), Elook, Estored, blank_unit.
    rewrite starts_with_blank. cbn [andb]. rewrite !length_app. cbn [length].
    destruct token as [|c r]; [done|]. cbn [length]. rewrite (proj2 (Nat.ltb_lt _ _)) by lia. f_equal.
    unfold after_blank. rewrite blank_unit. cbn [app]. rewrite index_of_blank by done.
    by rewrite drop_app_ge, Nat.sub_succ_l, Nat.sub_diag by lia.
  - intros other Ho Hos Hne. unfold lookup_session. rewrite (proj2 (str_eqb_neq _ _) Ho), Elook, Estored, blank_unit.
    destruct (starts_with _ _) eqn:E; [by apply starts_with_word in E|]. cbn [andb].
    destruct (str_eqb _ []) eqn:E1; [apply str_eqb_eq in E1; by destruct boot|done].
  - intros base slot' Hbase Hne. eapply st_lookup_store_other; [exact Hk|].
    apply entries_differ; [|done|by right]. unfold KEYRING_ALL_ACCOUNTS. by left.
Qed.

(** C15. A logout that reports success left nothing behind, and never touches another
    account. When the clearing script exits 0, a search for each of the
    account's entries (session, envelope and the legacy ones) finds nothing; and
    whatever it exits with, every other entry, those of other accounts included,
    is found and read as before. *)
Theorem clear_all_complete slot k :
  ((clear_all slot k).1 = 0%Z ->
   forall base, base ∈ KEYRING_ALL_ACCOUNTS -> st_search (clear_all slot k).2 (keyringEntryName base slot) = Some 0%N)
  /\ (forall name, name ∉ map (fun b => keyringEntryName b slot) KEYRING_ALL_ACCOUNTS ->
       st_search (clear_all slot k).2 name = st_search k name /\ st_lookup (clear_all slot k).2 name = st_lookup k name)
  /\ (forall base slot', base ∈ KEYRING_ALL_ACCOUNTS -> accountSlot slot <> accountSlot slot' ->
       st_lookup (clear_all slot k).2 (keyringEntryName base slot') = st_lookup k (keyringEntryName base slot')).
Proof.
  assert (O : forall name, name ∉ map (fun b => keyringEntryName b slot) KEYRING_ALL_ACCOUNTS ->
    st_search (clear_all slot k).2 name = st_search k name /\ st_lookup (clear_all slot k).2 name = st_lookup k name).
  { intros name Hn. by apply (clear_all_other slot _ (0%Z, k)). }
  split; [|split; [exact O|]].
  - intros Hrc base Hb. apply clear_all_cleared; [apply entries_NoDup|done|by left|done].
  - intros base slot' Hb Hne. apply O. intros (c & E & Hc)%list_elem_of_fmap. symmetry in E.
    eapply entries_differ; [exact Hc|exact Hb|by right|exact E].
Qed.
End Theorems.

(** *** A reference service, and witnesses *)

Definition entry_of (k : list (jstr * jstr)) (a : jstr) : option jstr := snd <$> find_first (fun e => str_eqb (fst e) a) k.
Definition without_entry (k : list (jstr * jstr)) (a : jstr) : list (jstr * jstr) := List.filter (fun e => negb (str_eqb (fst e) a)) k.

#[export] Instance reference_service : SecretService := {|
  keyring := list (jstr * jstr);
  st_lookup := entry_of;
  st_fails k a := false;
  st_store k a v := Some ((a, v) :: without_entry k a);
  st_search k a := Some (match entry_of k a with Some v => N.of_nat (S (length v)) | None => 0%N end);
  st_unlock k a := k;
  st_clear := without_entry;
  st_cleared k a := true
|}.

Lemma entry_of_without k a b : a <> b -> entry_of (without_entry k a) b = entry_of k b.
Proof.
  intros Hne. unfold entry_of, without_entry. induction k as [|[c v] k IH]; [done|]. cbn [List.filter fst].
  destruct (str_eqb c a) eqn:E; cbn [negb find_first fst].
  - apply str_eqb_eq in E as ->. by rewrite (proj2 (str_eqb_neq _ _) Hne).
  - by destruct (str_eqb c b).
Qed.

#[export] Instance reference_service_laws : SecretServiceLaws reference_service.
Proof.
  assert (S : forall k a b v, a <> b -> entry_of ((a, v) :: without_entry k a) b = entry_of k b).
  { intros k a b v Hne. rewrite <- (entry_of_without k a b Hne). unfold entry_of. cbn [find_first fst].
    by rewrite (proj2 (str_eqb_neq _ _) Hne). }
  split; cbn [st_lookup st_store st_clear st_search st_unlock keyring reference_service]; intros; simplify_eq; auto.
  - unfold entry_of. cbn [find_first fst]. by rewrite str_eqb_refl.
  - by apply entry_of_without.
  - by rewrite entry_of_without.
Qed.

Lemma remembered_session_witness :
  let file := u "a1b2-c3" ++ newline in
  match store_session (H := reference_service) [] (JStr (u "default")) file (u "token==") with
  | Some k => lookup_session k (JStr (u "default")) (Some file) = (u "token==", k)
  | None => False
  end.
Proof.
  intros file. destruct (store_session _ _ _ _) as [k|] eqn:E; [|by vm_compute in E].
  apply (remembered_session (s := reference_service) [] (JStr (u "default")) file (u "token==")).
  - by vm_compute.
  - apply (bool_decide_eq_false_1 (32%N ∈ _)); by vm_compute.
  - apply (bool_decide_eq_true_1 (length file <= 128)); by vm_compute.
  - by vm_compute.
  - by vm_compute.
  - apply (bool_decide_eq_true_1 (length (session_entry file (u "token==")) <= 4096)); by vm_compute.
  - exact E.
Defined.

Lemma clear_all_complete_witness :
  let k := default [] (store_session (H := reference_service) [] (JStr (u "default")) (u "boot") (u "token")) in
  st_search (SecretService := reference_service) k (keyringEntryName KEYRING_ACCOUNT (JStr (u "default"))) <> Some 0%N /\
  st_search (clear_all (JStr (u "default")) k).2 (keyringEntryName KEYRING_ACCOUNT (JStr (u "default"))) = Some 0%N.
Proof.
  intros k. split; [by vm_compute|].
  apply (proj1 (clear_all_complete (s := reference_service) (JStr (u "default")) k)); [by vm_compute|].
  apply (bool_decide_eq_true_1 (KEYRING_ACCOUNT ∈ KEYRING_ALL_ACCOUNTS)). by vm_compute.
Defined.
