(* ===== verification/Envelope.v ===== *)
(** * The quick-unlock envelope

    One keyring entry per account holds the master password, encrypted once,
    with a way in per enabled method ([src/BitwardenModel.js], "The quick-unlock
    envelope in the keyring", "Removing a method from every account" and "FIDO2
    through hmac-secret"). Every command is a script: here is the text that is
    run, with the arguments each builder refuses; [Unlock] has what the scripts
    do to the keyring. *)

From stdpp Require Import base list numbers strings.
From S2P Require Import Prelude.
From S2P Require Import JsValue.
From S2P Require Import Json.
From S2P Require Import Regex.
From S2P Require Import Shell.
From S2P Require Import Accounts.
From S2P Require Import Session.
From S2P Require Import Vault.
From S2P Require Import Runtime.
From S2P Require Import Commands.
From S2P Require Import Keyring.
Local Open Scope nat_scope.
Local Open Scope js_scope.

(** ** Names, limits and exit statuses *)

Definition PIN_ENV : jstr := u "QSBW_PIN".
Definition ENVELOPE_LABEL : jstr := u "Bitwarden quick unlock (encrypted)".
Definition ENVELOPE_CREDENTIAL_NAME : jstr := u "qs-bitwarden-unlock".
Definition NEW_SECRET_ENV : jstr := u "QSBW_NEW_SECRET".
Definition FIDO_HMAC_ENV : jstr := u "QSBW_FIDO_HMAC".
Definition FIDO_SALT_ENV : jstr := u "QSBW_FIDO_SALT".
Definition MAX_ENVELOPE_SEALED_BYTES : Z := 256 * 1024.
Definition ENVELOPE_ACCOUNT_ID_ENV : jstr := u "QSBW_ACCOUNT_ID".
Definition ENVELOPE_SERVER_ENV : jstr := u "QSBW_SERVER".

Record argon2_params := mkArgon2 { argon2_m : Z; argon2_t : Z; argon2_p : Z }.
Definition ENVELOPE_ARGON2 : argon2_params := mkArgon2 262144 4 1.

Definition EXIT_absent : Z := 10.
Definition EXIT_unseal : Z := 11.
Definition EXIT_kdf : Z := 12.
Definition EXIT_store : Z := 13.
Definition EXIT_verify : Z := 14.
Definition ENVELOPE_EXIT : jsval :=
  obj [("absent", jz EXIT_absent); ("unseal", jz EXIT_unseal); ("kdf", jz EXIT_kdf); ("store", jz EXIT_store); ("verify", jz EXIT_verify)].

Definition envelopeNewSecretEnvVar : jstr := NEW_SECRET_ENV.
Definition envelopeExitCodes : jsval := ENVELOPE_EXIT.

(** [/^[A-Za-z0-9+/]+={0,2}$/] *)
Definition is_base64_unit (c : N) : bool := is_alnum c || one_of (u "+/") c.
Definition ENVELOPE_BASE64_RE (s : jstr) : bool :=
  let '(body, pad) := span is_base64_unit s in
  negb (str_eqb body []) && all_in (N.eqb 61) pad && (length pad <=? 2).

Definition envelopeRefused : list jstr := bash (u "exit 2").

(** [isAccountSlot] of any value. *)
Definition is_slot_value (v : jsval) : bool := strict_eq v (JStr DEFAULT_ACCOUNT_SLOT) || ACCOUNT_SLOT_RE (to_str v).

(** [typeof tool === _ && tool.charAt(0) === _]: an absolute path. *)
Definition absolute_path (v : jsval) : bool := match v with JStr (c :: _) => (c =? 47)%N | _ => false end.

Definition envelopeArgsOk (tool account : jsval) : bool :=
  absolute_path tool && truthy account
  && is_string account.["id"] && negb (strict_eq account.["id"] (JStr []))
  && is_string account.["server"]
  && (is_undef account.["slot"] || is_slot_value account.["slot"])
  && negb (existsb is_control (to_str account.["id"] ++ to_str account.["server"])).

Definition envelopeAccountEnv (account : jsval) : list (jstr * jstr) :=
  [(ENVELOPE_ACCOUNT_ID_ENV, if truthy account then text_or_empty account.["id"] else []);
   (ENVELOPE_SERVER_ENV, if truthy account then text_or_empty account.["server"] else [])].

(** ** Scripts *)

(** What every envelope script starts with. *)
Definition envelopePrelude (tool slot : jsval) : jstr :=
  let attrs := keyringAttributes (keyringEntryName KEYRING_ENVELOPE slot) in
  u "__tool=" ++ shellQuote tool ++ u "; "
    ++ u "__name=" ++ shellQuote (JStr ENVELOPE_CREDENTIAL_NAME) ++ u "; "
    ++ u "__lookup() { secret-tool lookup" ++ attrs ++ u " 2>/dev/null | head -c " ++ dec_Z MAX_ENVELOPE_SEALED_BYTES ++ u "; }; "
    ++ uq "__unseal() { printf '%s' `$1` | systemd-creds --user decrypt --name=`$__name` - - 2>/dev/null; }; "
    ++ u "__seal() { (set -o pipefail; "
    ++ uq "systemd-creds --user encrypt --name=`$__name` - - 2>/dev/null | tr -d '\n\r'); }; "
    ++ uq "__kdf() { printf '%s' `$1` | argon2 `$2` -id -t `$3` -k `$4` -p `$5` -l 32 -r 2>/dev/null; }; "
    ++ u "__salt() { head -c 16 /dev/urandom | base64 -w0; }; "
    ++ u "__load() { "
    ++ uq "__sealed=`$(__lookup)`; [ -n `$__sealed` ] || exit " ++ dec_Z EXIT_absent ++ u "; "
    ++ uq "__summary=`$(__unseal `$__sealed` | `$__tool` inspect)` || exit " ++ dec_Z EXIT_unseal ++ u "; }; "
    ++ uq "__params() { printf '%s' `$__summary` | jq -r `$1`' // empty | `\(.salt) \(.t) \(.m) \(.p)`'; }; "
    ++ uq "__wrap_key() { local __line __s __t __m __p; __line=`$(__params `$1`)`; "
    ++ uq "[ -n `$__line` ] || exit 7; read -r __s __t __m __p <<< `$__line`; "
    ++ uq "__kdf `$2` `$__s` `$__t` `$__m` `$__p` || exit " ++ dec_Z EXIT_kdf ++ u "; }; "
    ++ uq "__verify_account() { __unseal `$__new` | `$__tool` inspect "
    ++ u "| " ++ ENVELOPE_ACCOUNT_ID_ENV ++ uq "=`$1` " ++ ENVELOPE_SERVER_ENV ++ uq "=`$2` "
    ++ u "jq -e '.account.id == $ENV." ++ ENVELOPE_ACCOUNT_ID_ENV ++ u " and .account.server == $ENV." ++ ENVELOPE_SERVER_ENV ++ u "' "
    ++ u ">/dev/null || exit " ++ dec_Z EXIT_verify ++ u "; }; "
    ++ uq "__verify_opens() { cmp -s <(printf '%s' `$1`) "
    ++ uq "<(__unseal `$__new` | QSBW_UNLOCK_KEY=`$__vk` `$__tool` open `${@:2}`) "
    ++ u "|| exit " ++ dec_Z EXIT_verify ++ u "; }; "
    ++ uq "__store() { printf '%s' `$__new` | secret-tool store --label=" ++ shellQuote (JStr ENVELOPE_LABEL)
    ++ attrs ++ u " || exit " ++ dec_Z EXIT_store ++ u "; }; ".

Definition envelopeArgon2Args (saltVar : jstr) : jstr :=
  uq " --salt `$" ++ saltVar ++ uq "` --m " ++ dec_Z (argon2_m ENVELOPE_ARGON2)
    ++ u " --t " ++ dec_Z (argon2_t ENVELOPE_ARGON2) ++ u " --p " ++ dec_Z (argon2_p ENVELOPE_ARGON2).

Definition envelopeNewKey (secretExpr saltVar : jstr) : jstr :=
  u "__kdf " ++ secretExpr ++ uq " `$" ++ saltVar ++ uq "` " ++ dec_Z (argon2_t ENVELOPE_ARGON2) ++ u " "
    ++ dec_Z (argon2_m ENVELOPE_ARGON2) ++ u " " ++ dec_Z (argon2_p ENVELOPE_ARGON2).

(** A script of the envelope, capped. *)
Definition envelope_command (script : jstr) : list jstr := bash (cappedScript script (Some MAX_STDERR_BYTES)).

Definition unlockEnvelopeInspectCommand (tool slot : jsval) : list jstr :=
  if negb (absolute_path tool) then envelopeRefused
  else envelope_command (envelopePrelude tool slot ++ uq "__load; printf '%s' `$__summary`").

Definition kind_is (k : string) (op : jsval) : bool := strict_eq op.["kind"] (JStr (u k)).
Definition kind_text (op : jsval) : jstr := to_str op.["kind"].

(** A credential id that may be put in a script. *)
Definition cred_ok (op : jsval) : bool := ENVELOPE_BASE64_RE (text_or_empty op.["cred"]).

(** The variable the secret of a typed method is in. *)
Definition typed_env (via : jsval) : jstr := if kind_is "master" via then KEYRING_SECRET_ENV else PIN_ENV.

Definition unlockEnvelopeOpenCommand (tool account via : jsval) : list jstr :=
  if negb (envelopeArgsOk tool account) || negb (truthy via) then envelopeRefused
  else
    let open := uq "`$__tool` open" in
    let start := envelopePrelude tool account.["slot"] ++ u "__load; " in
    let finish script := envelope_command (start ++ script ++ u " | head -c " ++ dec_Z MAX_TOKEN_BYTES) in
    if kind_is "master" via || kind_is "pin" via then
      finish (uq "__k=`$(__wrap_key '." ++ kind_text via ++ uq "' `$" ++ typed_env via ++ uq "`)` || exit $?; "
        ++ uq "__unseal `$__sealed` | QSBW_UNLOCK_KEY=`$__k` " ++ open ++ u " --via " ++ kind_text via)
    else if kind_is "fingerprint" via then
      finish (uq "__unseal `$__sealed` | " ++ open ++ u " --via fingerprint")
    else if kind_is "fido" via && cred_ok via then
      finish (uq "__unseal `$__sealed` | QSBW_UNLOCK_KEY=`$" ++ FIDO_HMAC_ENV ++ uq "` " ++ open
        ++ u " --via fido --cred " ++ shellQuote via.["cred"])
    else envelopeRefused.

Definition unlockEnvelopeCreateCommand (tool account : jsval) : list jstr :=
  if negb (envelopeArgsOk tool account) then envelopeRefused
  else envelope_command (envelopePrelude tool account.["slot"]
    ++ uq "__s=`$(__salt)`; "
    ++ uq "__k=`$(" ++ envelopeNewKey (uq "`$" ++ KEYRING_SECRET_ENV ++ uq "`") (u "__s") ++ uq ")` || exit "
    ++ dec_Z EXIT_kdf ++ u "; "
    ++ uq "__new=`$(QSBW_UNLOCK_PASSWORD=`$" ++ KEYRING_SECRET_ENV ++ uq "` QSBW_UNLOCK_NEW_KEY=`$__k` "
    ++ uq "`$__tool` create" ++ envelopeArgon2Args (u "__s") ++ uq " | __seal)` "
    ++ u "|| exit $?; "
    ++ uq "__verify_account `$" ++ ENVELOPE_ACCOUNT_ID_ENV ++ uq "` `$" ++ ENVELOPE_SERVER_ENV ++ uq "`; "
    ++ uq "__vk=`$__k`; __verify_opens `$" ++ KEYRING_SECRET_ENV ++ uq "`"
    ++ u " --via master; "
    ++ u "__store").

(** One change of the envelope: what runs first, the tool's arguments with its environment, and the check of the way
    just written. *)
Record change := mkChange { pre : jstr; transform : jstr; verifyOpen : jstr }.

Definition masterKey : jstr := uq "__mk=`$(__wrap_key '.master' `$" ++ KEYRING_SECRET_ENV ++ uq "`)` || exit $?; ".

Definition add_fido (op : jsval) : option change :=
  let fromEnv := truthy op.["saltFromEnv"] in
  let saltArg := if fromEnv then uq "`$" ++ FIDO_SALT_ENV ++ uq "`" else shellQuote op.["salt"] in
  if negb (cred_ok op)
     || (negb fromEnv && negb (ENVELOPE_BASE64_RE (text_or_empty op.["salt"])))
     || negb (truthy op.["rp"]) || existsb is_control (to_str op.["rp"]) then None
  else Some (mkChange masterKey
    (uq "QSBW_UNLOCK_KEY=`$__mk` QSBW_UNLOCK_NEW_KEY=`$" ++ FIDO_HMAC_ENV ++ uq "` `$__tool` add"
     ++ u " --auth master --method fido --cred " ++ shellQuote op.["cred"] ++ u " --rp " ++ shellQuote op.["rp"]
     ++ u " --fido-salt " ++ saltArg)
    (uq "__vk=`$" ++ FIDO_HMAC_ENV ++ uq "`; __verify_opens `$" ++ KEYRING_SECRET_ENV ++ uq "`"
     ++ u " --via fido --cred " ++ shellQuote op.["cred"] ++ u "; ")).

Definition remove_method (op : jsval) : option change :=
  let method := op.["method"] in
  if strict_eq method (JStr (u "pin")) || strict_eq method (JStr (u "fingerprint")) then
    Some (mkChange [] (uq "`$__tool` remove --method " ++ to_str method) [])
  else if strict_eq method (JStr (u "fido")) && cred_ok op then
    Some (mkChange [] (uq "`$__tool` remove --method fido --cred " ++ shellQuote op.["cred"]) [])
  else None.

Definition rotate (auth : jsval) : option change :=
  let typed := kind_is "master" auth || kind_is "pin" auth in
  let fido := kind_is "fido" auth && cred_ok auth in
  if negb typed && negb fido && negb (kind_is "fingerprint" auth) then None
  else
    let authPre := if typed then uq "__ak=`$(__wrap_key '." ++ kind_text auth ++ uq "' `$" ++ typed_env auth ++ uq "`)` || exit $?; " else [] in
    let authArgs := if typed then uq "QSBW_UNLOCK_KEY=`$__ak` "
                    else if fido then uq "QSBW_UNLOCK_KEY=`$" ++ FIDO_HMAC_ENV ++ uq "` " else [] in
    Some (mkChange
      (authPre ++ uq "__s=`$(__salt)`; "
       ++ uq "__nk=`$(" ++ envelopeNewKey (uq "`$" ++ NEW_SECRET_ENV ++ uq "`") (u "__s") ++ uq ")` || exit " ++ dec_Z EXIT_kdf ++ u "; ")
      (authArgs ++ uq "QSBW_UNLOCK_PASSWORD=`$" ++ NEW_SECRET_ENV ++ uq "` QSBW_UNLOCK_NEW_KEY=`$__nk` "
       ++ uq "`$__tool` rotate --auth " ++ kind_text auth
       ++ (if kind_is "fido" auth then u " --auth-cred " ++ shellQuote auth.["cred"] else [])
       ++ envelopeArgon2Args (u "__s"))
      (uq "__vk=`$__nk`; __verify_opens `$" ++ NEW_SECRET_ENV ++ uq "` --via master; ")).

(** The change an operation makes; None where it is refused. *)
Definition change_of (op : jsval) : option change :=
  if kind_is "add-pin" op then
    Some (mkChange
      (masterKey ++ uq "__s=`$(__salt)`; "
       ++ uq "__pk=`$(" ++ envelopeNewKey (uq "`$" ++ PIN_ENV ++ uq "`") (u "__s") ++ uq ")` || exit " ++ dec_Z EXIT_kdf ++ u "; ")
      (uq "QSBW_UNLOCK_KEY=`$__mk` QSBW_UNLOCK_NEW_KEY=`$__pk` `$__tool` add"
       ++ u " --auth master --method pin" ++ envelopeArgon2Args (u "__s"))
      (uq "__vk=`$__pk`; __verify_opens `$" ++ KEYRING_SECRET_ENV ++ uq "` --via pin; "))
  else if kind_is "add-fingerprint" op then
    Some (mkChange masterKey (uq "QSBW_UNLOCK_KEY=`$__mk` `$__tool` add --auth master --method fingerprint")
      (uq "__vk=''; __verify_opens `$" ++ KEYRING_SECRET_ENV ++ uq "` --via fingerprint; "))
  else if kind_is "add-fido" op then add_fido op
  else if kind_is "remove" op then remove_method op
  else if kind_is "mark-stale" op then Some (mkChange [] (uq "`$__tool` mark-stale") [])
  else if kind_is "rotate" op && truthy op.["auth"] then rotate op.["auth"]
  else None.

Definition unlockEnvelopeUpdateCommand (tool account op : jsval) : list jstr :=
  if negb (envelopeArgsOk tool account) || negb (truthy op) then envelopeRefused
  else if kind_is "delete" op then
    envelope_command (keyringClearEntryScript (keyringEntryName KEYRING_ENVELOPE account.["slot"]) ++ u " || exit 1")
  else match change_of op with
       | None => envelopeRefused
       | Some c =>
         envelope_command (envelopePrelude tool account.["slot"] ++ u "__load; " ++ pre c
           ++ uq "__new=`$(__unseal `$__sealed` | " ++ transform c ++ uq " | __seal)` || exit $?; "
           ++ uq "__verify_account `$" ++ ENVELOPE_ACCOUNT_ID_ENV ++ uq "` `$" ++ ENVELOPE_SERVER_ENV ++ uq "`; "
           ++ verifyOpen c
           ++ u "__store")
       end.

(** ** Repairing what older versions stored *)

(** The entries to look at, each once. *)
Definition repair_names (slots : jsval) : list jstr :=
  fold_left (fun names slot =>
    if is_slot_value slot then
      let name := keyringEntryName KEYRING_ENVELOPE slot in
      if existsb (str_eqb name) names then names else names ++ [name]
    else names) (JStr DEFAULT_ACCOUNT_SLOT :: array_of slots) [].

Definition keyringRepairCommand (pluginDir slots : jsval) : list jstr :=
  if negb (absolute_path pluginDir) then envelopeRefused
  else envelope_command (u "__n=0; "
    ++ u "for __a in " ++ join (u " ") (map (fun n => shellQuote (JStr n)) (repair_names slots)) ++ u "; do "
    ++ uq "__v=`$(secret-tool lookup service " ++ shellQuote (JStr KEYRING_SERVICE) ++ uq " account `$__a` 2>/dev/null "
    ++ u "| head -c " ++ dec_Z MAX_ENVELOPE_SEALED_BYTES ++ uq ")` || continue; "
    ++ uq "case `$__v` in *$'\n'*|*$'\r'*) ;; *) continue ;; esac; "
    ++ uq "__j=`$(printf '%s' `$__v` | tr -d '\n\r')`; __v=''; "
    ++ uq "if printf '%s' `$__j` | systemd-creds --user decrypt --name=" ++ shellQuote (JStr ENVELOPE_CREDENTIAL_NAME)
    ++ uq " - - >/dev/null 2>&1 && printf '%s' `$__j` | secret-tool store --label=" ++ shellQuote (JStr ENVELOPE_LABEL)
    ++ u " service " ++ shellQuote (JStr KEYRING_SERVICE) ++ uq " account `$__a`; "
    ++ uq "then __n=$((__n + 1)); else echo `rejoin_failed=$__a`; fi; __j=''; "
    ++ u "done; "
    ++ uq "echo `rejoined=$__n`; "
    ++ u "bash " ++ shellQuote (JStr (strip_end (N.eqb 47) (to_str pluginDir) ++ u "/scripts/repair-keyring.sh")) ++ u " --auto").

Record keyring_repair := mkRepair { rejoined : num; rejoinFailed : list jstr; repair_file : jstr }.

(** The leading decimal digits of a text, after blanks and a sign, as [parseInt(text, 10) || 0]. *)
Definition parse_int_or_zero (s : jstr) : num :=
  let t := trim_start s in
  let '(neg, r) := match t with 43%N :: r => (false, r) | 45%N :: r => (true, r) | _ => (false, t) end in
  match fst (span is_digit r) with
  | [] => numz 0
  | ds => let z := Z.of_N (value_of_digits ds) in numz (if neg : bool then (- z)%Z else z)
  end.

(** A line [key=value] of the repair's output; the value holds no line terminator. *)
Definition repair_value (key : string) (line : jstr) : option jstr :=
  let prefix := u key ++ u "=" in
  if starts_with prefix line then
    let v := drop (length prefix) line in
    if existsb is_line_end v then None else Some v
  else None.

Definition drop_cr (line : jstr) : jstr :=
  match last line with Some 13%N => take (length line - 1) line | _ => line end.

Definition repair_line (st : keyring_repair) (raw : jstr) : keyring_repair :=
  let line := drop_cr raw in
  match repair_value "rejoined" line with
  | Some v => mkRepair (num_max (numz 0) (parse_int_or_zero v)) (rejoinFailed st) (repair_file st)
  | None =>
    match repair_value "rejoin_failed" line with
    | Some v => mkRepair (rejoined st) (rejoinFailed st ++ [v]) (repair_file st)
    | None =>
      match repair_value "file" line with
      | Some v =>
        if existsb (str_eqb v) [u "skipped"; u "clean"; u "repaired"; u "failed"]
        then mkRepair (rejoined st) (rejoinFailed st) v else st
      | None => st
      end
    end
  end.

Definition parseKeyringRepair (raw : jsval) : keyring_repair :=
  fold_left repair_line (split_char 10 (text_or_empty raw)) (mkRepair (numz 0) [] (u "failed")).

Definition repairedKeyringNoticeCommand : list jstr :=
  [u "notify-send"; u "-a"; u "Bitwarden"; u "Keyring repaired";
   u "Restart the computer to get your saved passwords and keys back."].

(** ** Removing a method from every account *)

(** The three methods the panel passes by name. *)
Inductive unlock_method := MethodPin | MethodFingerprint | MethodFido.

Definition method_of (v : jsval) : option unlock_method :=
  if strict_eq v (JStr (u "pin")) then Some MethodPin
  else if strict_eq v (JStr (u "fingerprint")) then Some MethodFingerprint
  else if strict_eq v (JStr (u "fido")) then Some MethodFido
  else None.

Definition method_name (m : unlock_method) : jstr :=
  match m with MethodPin => u "pin" | MethodFingerprint => u "fingerprint" | MethodFido => u "fido" end.

Definition LEGACY_ENTRY_FOR_METHOD (m : unlock_method) : jstr :=
  match m with MethodPin => KEYRING_PIN | MethodFingerprint => KEYRING_MASTER | MethodFido => KEYRING_FIDO end.

Definition MAX_PURGE_ROUNDS : nat := 17.

Definition envelopeMethodPurgeScript (tool slot : jsval) (method : unlock_method) : list jstr :=
  let entry := keyringEntryName KEYRING_ENVELOPE slot in
  let present := match method with
    | MethodPin => u ".pin != null"
    | MethodFingerprint => u ".fingerprint == true"
    | MethodFido => u "(.fido | length) > 0"
    end in
  envelope_command (envelopePrelude tool slot
    ++ u "for __round in $(seq 1 " ++ dec_nat MAX_PURGE_ROUNDS ++ u "); do "
    ++ uq "__lookup_result=`$({ __sealed=`$(secret-tool lookup" ++ keyringAttributes entry
    ++ u " 2>&3 | head -c " ++ dec_Z MAX_ENVELOPE_SEALED_BYTES ++ uq ")`; __lookup_rc=$?; "
    ++ uq "printf '\n%s:%s' `$__lookup_rc` `$(printf '%s' `$__sealed` | base64 -w0)`; } 3>&1)`; "
    ++ uq "__lookup_data=`${__lookup_result##*$'\n'}`; __lookup_error=`${__lookup_result%$'\n'*}`; "
    ++ uq "__lookup_rc=`${__lookup_data%%:*}`; [ -z `$__lookup_error` ] || exit 1; "
    ++ uq "__sealed=`$(printf '%s' `${__lookup_data#*:}` | base64 -d)` || exit 1; "
    ++ uq "if [ `$__lookup_rc` -eq 1 ] && [ -z `$__sealed` ]; then exit 0; fi; "
    ++ uq "[ `$__lookup_rc` -eq 0 ] && [ -n `$__sealed` ] || exit 1; "
    ++ uq "__summary=`$(__unseal `$__sealed` | `$__tool` inspect)` || exit " ++ dec_Z EXIT_unseal ++ u "; "
    ++ uq "printf '%s' `$__summary` | jq -e " ++ shellQuote (JStr present) ++ u " >/dev/null; __present_rc=$?; "
    ++ uq "case `$__present_rc` in 0) ;; 1) exit 0 ;; *) exit 1 ;; esac; "
    ++ (match method with
        | MethodFingerprint => keyringClearEntryScript entry ++ u " || exit 1; exit 0; "
        | _ =>
          uq "__id=`$(printf '%s' `$__summary` | jq -r '.account.id')`; "
          ++ uq "__server=`$(printf '%s' `$__summary` | jq -r '.account.server')`; "
          ++ (match method with
              | MethodFido =>
                uq "__c=`$(printf '%s' `$__summary` | jq -r '.fido[0].cred // empty')`; "
                ++ uq "case `$__c` in ''|*[!A-Za-z0-9+/=]*) exit 4 ;; esac; "
                ++ uq "__new=`$(__unseal `$__sealed` | `$__tool` remove --method fido --cred `$__c` | __seal)` || exit $?; "
              | _ => uq "__new=`$(__unseal `$__sealed` | `$__tool` remove --method " ++ method_name method ++ uq " | __seal)` || exit $?; "
              end)
          ++ uq "__verify_account `$__id` `$__server`; __store; "
        end)
    ++ u "done; exit 8").

(** The slots to purge, each once. *)
Definition purge_slots (slots : jsval) : list jstr :=
  fold_left (fun l v => match v with
    | JStr s => if isAccountSlot s && negb (existsb (str_eqb s) l) then l ++ [s] else l
    | _ => l
    end) (array_of slots) [].

Definition quickUnlockPurgeCommand (tool slots method : jsval) : list jstr :=
  match (if absolute_path tool then method_of method else None) with
  | None => envelopeRefused
  | Some m =>
    bash (u "rc=0; "
      ++ concat (map (fun s => nestedScript (envelopeMethodPurgeScript tool (JStr s) m) ++ u " || rc=1; "
                   ++ keyringClearEntryScript (keyringEntryName (LEGACY_ENTRY_FOR_METHOD m) (JStr s)) ++ u " || rc=1; ")
                 (purge_slots slots))
      ++ uq "exit `$rc`")
  end.

(** ** Checks *)

Definition master_via : jsval := obj [("kind", JStr (u "master"))].

Definition same_command (a b : list jstr) : bool := bool_decide (nth 2 a [] = nth 2 b []).

Definition unlockEnvelopeCheckCommand (tool account : jsval) : list jstr :=
  let open := unlockEnvelopeOpenCommand tool account master_via in
  if same_command open envelopeRefused then envelopeRefused
  else bash (nestedScript open ++ u " >/dev/null").

Definition quickUnlockPrereqCommand : list jstr :=
  bash (u "if command -v argon2 >/dev/null 2>&1; then echo argon2=1; else echo argon2=0; fi; "
    ++ u "if printf probe | systemd-creds --user encrypt --name=qs-bitwarden-probe - - >/dev/null 2>&1; "
    ++ u "then echo creds=1; else echo creds=0; fi").

Record unlock_prereqs := mkPrereqs { has_argon2 : bool; has_creds : bool; prereqs_ready : bool; prereqs_message : jstr }.

(** [/^word$/m]: a whole line of the text. *)
Definition has_line (word text : jstr) : bool := existsb (str_eqb word) (split_on is_line_end text).

Definition parseQuickUnlockPrereqs (raw : jsval) : unlock_prereqs :=
  let text := text_or_empty raw in
  let argon2 := has_line (u "argon2=1") text in
  let creds := has_line (u "creds=1") text in
  let message :=
    if negb argon2 then
      u "Quick unlock needs `argon2`, which comes with the Bitwarden CLI package. " ++ u "Reinstall bitwarden-cli."
    else if negb creds then
      u "Quick unlock needs `systemd-creds --user` (systemd 256 or later) to seal the "
        ++ u "stored password to this machine, and it is not working here."
    else [] in
  mkPrereqs argon2 creds (argon2 && creds) message.

Definition bwVerifyPasswordCommand : list jstr :=
  envelope_command (u "bw unlock --passwordenv " ++ KEYRING_SECRET_ENV ++ u " --raw 2>/dev/null | head -c " ++ dec_Z MAX_TOKEN_BYTES).

(** ** Migrating legacy entries *)

Definition MIGRATION_none : Z := 20.
Definition MIGRATION_mismatch : Z := 21.
Definition LEGACY_MIGRATION_EXIT : jsval := obj [("none", jz MIGRATION_none); ("mismatch", jz MIGRATION_mismatch)].
Definition legacyMigrationExitCodes : jsval := LEGACY_MIGRATION_EXIT.

Definition legacyMigrationCommand (tool account : jsval) (legacyAccount : jstr) (addOp : jsval) (passwordFromKeyring : bool) : list jstr :=
  if negb (envelopeArgsOk tool account) then envelopeRefused
  else
    let entry := keyringEntryName legacyAccount account.["slot"] in
    envelope_command
      ((if passwordFromKeyring then
          uq "__pw=`$(" ++ keyringReadScript entry ++ uq ")`; "
          ++ uq "[ -n `$__pw` ] || exit " ++ dec_Z MIGRATION_none ++ u "; "
          ++ u "export " ++ KEYRING_SECRET_ENV ++ uq "=`$__pw`; unset __pw; "
        else uq "[ -n `${" ++ KEYRING_SECRET_ENV ++ uq ":-}` ] || exit " ++ dec_Z MIGRATION_none ++ u "; ")
       ++ nestedScript (unlockEnvelopeOpenCommand tool account master_via) ++ u " >/dev/null; __rc=$?; "
       ++ uq "case `$__rc` in "
       ++ u "0) ;; "
       ++ dec_Z EXIT_absent ++ u "|6|" ++ dec_Z EXIT_unseal ++ u ") "
       ++ nestedScript (unlockEnvelopeCreateCommand tool account) ++ u " || exit $? ;; "
       ++ u "3) exit " ++ dec_Z MIGRATION_mismatch ++ u " ;; "
       ++ uq "*) exit `$__rc` ;; esac; "
       ++ nestedScript (unlockEnvelopeUpdateCommand tool account addOp) ++ u " || exit $?; "
       ++ u "secret-tool clear" ++ keyringAttributes entry
       ++ u " >/dev/null 2>&1; exit 0").

Definition legacyFingerprintMigrationCommand (tool account : jsval) : list jstr :=
  legacyMigrationCommand tool account KEYRING_MASTER (obj [("kind", JStr (u "add-fingerprint"))]) true.
Definition legacyPinMigrationCommand (tool account : jsval) : list jstr :=
  legacyMigrationCommand tool account KEYRING_PIN (obj [("kind", JStr (u "add-pin"))]) false.

(** ** FIDO2 *)

Definition FIDO_assert : Z := 31.
Definition FIDO_noSecret : Z := 32.
Definition FIDO_legacyUsed : Z := 40.
Definition FIDO_EXIT : jsval := obj [("assert", jz FIDO_assert); ("noSecret", jz FIDO_noSecret); ("legacyUsed", jz FIDO_legacyUsed)].
Definition fidoExitCodes : jsval := FIDO_EXIT.

(** A text with a prefix and at least one more unit, all of a class. *)
Definition prefixed_by (prefix : jstr) (p : N -> bool) (v : jsval) : bool :=
  match v with
  | JStr s => starts_with prefix s && (length prefix <? length s) && all_in p (drop (length prefix) s)
  | _ => false
  end.

Definition fidoTargetOk (target : jsval) : bool :=
  truthy target
  && prefixed_by (u "/dev/") (fun c => is_alnum c || one_of (u "_./-") c) target.["device"]
  && ENVELOPE_BASE64_RE (text_or_empty target.["cred"])
  && prefixed_by (u "pam://") (fun c => is_alnum c || one_of (u ".-") c) target.["rp"].

Definition fidoAssertScript (target : jsval) (saltExpr : jstr) : jstr :=
  uq "__cdh=`$(head -c 32 /dev/urandom | base64 -w0)`; "
    ++ uq "__out=`$(printf '%s\n%s\n%s\n%s\n' `$__cdh` " ++ shellQuote target.["rp"] ++ u " "
    ++ shellQuote target.["cred"] ++ u " " ++ saltExpr ++ u " | timeout 45 fido2-assert -G -h "
    ++ shellQuote target.["device"] ++ uq " 2>/dev/null)` || exit " ++ dec_Z FIDO_assert ++ u "; "
    ++ uq "__hmac=`$(printf '%s\n' `$__out` | sed -n 5p)`; unset __out; "
    ++ uq "[ -n `$__hmac` ] || exit " ++ dec_Z FIDO_noSecret ++ u "; "
    ++ u "export " ++ FIDO_HMAC_ENV ++ uq "=`$__hmac`; unset __hmac; ".

Definition fidoNewSaltScript : jstr := u "export " ++ FIDO_SALT_ENV ++ uq "=`$(head -c 32 /dev/urandom | base64 -w0)`; ".

Definition fido_via (target : jsval) : jsval := obj [("kind", JStr (u "fido")); ("cred", target.["cred"])].
Definition fido_add (target : jsval) : jsval :=
  obj [("kind", JStr (u "add-fido")); ("cred", target.["cred"]); ("rp", target.["rp"]); ("saltFromEnv", JBool true)].

Definition fidoUnlockCommand (tool account target : jsval) : list jstr :=
  if negb (envelopeArgsOk tool account) || negb (fidoTargetOk target)
     || negb (ENVELOPE_BASE64_RE (text_or_empty target.["salt"])) then envelopeRefused
  else envelope_command (fidoAssertScript target (shellQuote target.["salt"])
    ++ nestedScript (unlockEnvelopeOpenCommand tool account (fido_via target))).

Definition fidoEnrollCommand (tool account target : jsval) : list jstr :=
  if negb (envelopeArgsOk tool account) || negb (fidoTargetOk target) then envelopeRefused
  else envelope_command (fidoNewSaltScript ++ fidoAssertScript target (uq "`$" ++ FIDO_SALT_ENV ++ uq "`")
    ++ nestedScript (unlockEnvelopeUpdateCommand tool account (fido_add target))).

Definition fidoLegacyUnlockCommand (tool account target : jsval) : list jstr :=
  if negb (envelopeArgsOk tool account) || negb (fidoTargetOk target) then envelopeRefused
  else
    let migrate := legacyMigrationCommand tool account KEYRING_FIDO (fido_add target) false in
    envelope_command (uq "__pw=`$(" ++ keyringReadScript (keyringEntryName KEYRING_FIDO account.["slot"]) ++ uq ")`; "
      ++ uq "[ -n `$__pw` ] || exit " ++ dec_Z MIGRATION_none ++ u "; "
      ++ fidoNewSaltScript ++ fidoAssertScript target (uq "`$" ++ FIDO_SALT_ENV ++ uq "`")
      ++ u "export " ++ KEYRING_SECRET_ENV ++ uq "=`$__pw`; "
      ++ u "if " ++ nestedScript migrate ++ u " >/dev/null; then "
      ++ nestedScript (unlockEnvelopeOpenCommand tool account (fido_via target))
      ++ u " && exit 0; fi; "
      ++ uq "printf '%s' `$__pw`; exit " ++ dec_Z FIDO_legacyUsed).
