(* ===== verification/Unlock.v ===== *)
(** * What the envelope's scripts do

    The scripts of [Envelope] as operations on the keyring: opening, creating
    and changing an account's envelope, joining one stored with line breaks,
    removing a method from every account and moving a legacy entry into the
    envelope, statement by statement in the order the scripts run them.

    [secret-tool], [systemd-creds], [argon2], [jq] and the unlock tool are
    parameters: [SecretService] from [Keyring], and [Unlock] here. An entry
    longer than [MAX_ENVELOPE_SEALED_BYTES] is read cut. *)

From stdpp Require Import base list numbers strings.
From S2P Require Import Prelude.
From S2P Require Import JsValue.
From S2P Require Import Json.
From S2P Require Import Shell.
From S2P Require Import Accounts.
From S2P Require Import Session.
From S2P Require Import Commands.
From S2P Require Import Keyring.
From S2P Require Import Envelope.
Local Open Scope nat_scope.
Local Open Scope js_scope.

(** ** Parameters

    A process is its exit status and what it prints, given its input. *)
Notation process := (jstr -> Z * jstr).

(** [systemd-creds], the unlock tool with its environment and arguments, [argon2] with its arguments, [fido2-assert]
    with its device, the keyring file's repair script, and what jq prints of
    the tool's summary: a wrap's parameters as words, the account when both its members are strings, those members
    printed, whether a method is there (None when jq fails), and the first FIDO2 credential. *)
Class Unlock := {
  creds_decrypt : process;
  creds_encrypt : process;
  unlock_tool : list (jstr * jstr) -> list jstr -> process;
  argon2 : list jstr -> process;
  summary_params : jstr -> jstr -> jstr;
  summary_account : jstr -> option (jstr * jstr);
  summary_id : jstr -> jstr;
  summary_server : jstr -> jstr;
  summary_has : unlock_method -> jstr -> option bool;
  summary_first_cred : jstr -> jstr;
  fido2_assert : jstr -> process;
  repair_file_script : process
}.

Inductive via := ViaMaster | ViaPin | ViaFingerprint | ViaFido (cred : jstr).

(** The operations of unlockEnvelopeUpdateCommand but for "delete"; the salt of AddFido is None when it comes from
    the environment. *)
Inductive envelope_op :=
| AddPin
| AddFingerprint
| AddFido (cred rp : jstr) (fido_salt : option jstr)
| RemoveMethod (m : unlock_method) (cred : jstr)
| MarkStale
| Rotate (auth : via).

Definition via_of (v : jsval) : option via :=
  if kind_is "master" v then Some ViaMaster
  else if kind_is "pin" v then Some ViaPin
  else if kind_is "fingerprint" v then Some ViaFingerprint
  else if kind_is "fido" v && cred_ok v then Some (ViaFido (to_str v.["cred"]))
  else None.

Definition op_of (op : jsval) : option envelope_op :=
  if kind_is "add-pin" op then Some AddPin
  else if kind_is "add-fingerprint" op then Some AddFingerprint
  else if kind_is "add-fido" op then
    (fun _ => AddFido (to_str op.["cred"]) (to_str op.["rp"]) (if truthy op.["saltFromEnv"] then None else Some (to_str op.["salt"]))) <$> add_fido op
  else if kind_is "remove" op then
    match remove_method op, method_of op.["method"] with
    | Some _, Some m => Some (RemoveMethod m (to_str op.["cred"]))
    | _, _ => None
    end
  else if kind_is "mark-stale" op then Some MarkStale
  else if kind_is "rotate" op && truthy op.["auth"] then Rotate <$> via_of op.["auth"]
  else None.

(** What the environment of a command holds. *)
Record secrets := mkSecrets { secret : jstr; pin : jstr; new_secret : jstr; hmac : jstr; env_salt : jstr }.

Record envelope_account := mkEnvelopeAccount { account_id : jstr; account_server : jstr; account_slot : jsval }.

Section Effects.
Context `{SecretService} `{Unlock}.

(** [p | q] under pipefail: the status of the last one that fails. *)
Definition pipe (p q : process) : process := fun input =>
  let '(c1, o1) := p input in
  let '(c2, o2) := q o1 in
  (if (c2 =? 0)%Z then c1 else c2, o2).

(** [x="$( .. )" || exit code]; [code] gets the status. *)
Definition capture (p : Z * jstr) (code : Z -> Z) : Z + jstr :=
  if (fst p =? 0)%Z then inr (command_text (snd p)) else inl (code (fst p)).

Definition script_bind {A B} (x : Z + A) (f : A -> Z + B) : Z + B := match x with inl c => inl c | inr a => f a end.

Definition envelope_entry (a : envelope_account) : jstr := keyringEntryName KEYRING_ENVELOPE (account_slot a).

(** [tr -d] of line breaks. *)
Definition is_break (b : N) : bool := (b =? 10)%N || (b =? 13)%N.
Definition join_lines (v : jstr) : jstr := List.filter (fun b => negb (is_break b)) v.

(** [__seal]: the sealed bytes on one line. *)
Definition sealer : process := fun input =>
  let '(c, o) := creds_encrypt input in (c, join_lines o).

Definition inspect : process := pipe creds_decrypt (unlock_tool [] [u "inspect"]).

Definition load (k : keyring) (a : envelope_account) : Z + (jstr * jstr) :=
  let sealed := command_text (match st_lookup k (envelope_entry a) with
                              | Some s => take (Z.to_nat MAX_ENVELOPE_SEALED_BYTES) s | None => [] end) in
  if str_eqb sealed [] then inl EXIT_absent
  else script_bind (capture (inspect sealed) (fun _ => EXIT_unseal)) (fun summary => inr (sealed, summary)).

(** [__wrap_key]: the key of a wrap in the envelope. *)
Definition wrap_key (summary path key_secret : jstr) : Z + jstr :=
  let line := command_text (summary_params path summary) in
  if str_eqb line [] then inl 7%Z
  else capture (argon2 (split_char 32 line) key_secret) (fun _ => EXIT_kdf).

(** The key of a new wrap. *)
Definition new_words (salt : jstr) : list jstr :=
  [salt; dec_Z (argon2_t ENVELOPE_ARGON2); dec_Z (argon2_m ENVELOPE_ARGON2); dec_Z (argon2_p ENVELOPE_ARGON2)].
Definition new_key (salt key_secret : jstr) : Z + jstr := capture (argon2 (new_words salt) key_secret) (fun _ => EXIT_kdf).

Definition key_env (key : jstr) : list (jstr * jstr) := [(u "QSBW_UNLOCK_KEY", key)].
Definition new_key_env (key : jstr) : list (jstr * jstr) := [(u "QSBW_UNLOCK_NEW_KEY", key)].
Definition password_env (password : jstr) : list (jstr * jstr) := [(u "QSBW_UNLOCK_PASSWORD", password)].

Definition via_name (v : via) : jstr :=
  match v with ViaMaster => u "master" | ViaPin => u "pin" | ViaFingerprint => u "fingerprint" | ViaFido _ => u "fido" end.
Definition via_args (v : via) : list jstr :=
  [u "--via"; via_name v] ++ match v with ViaFido c => [u "--cred"; c] | _ => [] end.
Definition salt_args (salt : jstr) : list jstr :=
  [u "--salt"; salt; u "--m"; dec_Z (argon2_m ENVELOPE_ARGON2); u "--t"; dec_Z (argon2_t ENVELOPE_ARGON2);
   u "--p"; dec_Z (argon2_p ENVELOPE_ARGON2)].

(** The environment and the arguments of the tool, and the way just written with its key and the password it must
    give. *)
Record plan := mkPlan { tool_env : list (jstr * jstr); tool_args : list jstr; opens_with : option (via * jstr * jstr) }.

Definition master_key (summary : jstr) (s : secrets) : Z + jstr := wrap_key summary (u ".master") (secret s).

Definition prepare (op : envelope_op) (s : secrets) (salt summary : jstr) : Z + plan :=
  match op with
  | AddPin =>
    script_bind (master_key summary s) (fun mk => script_bind (new_key salt (pin s)) (fun pk =>
      inr (mkPlan (key_env mk ++ new_key_env pk) ([u "add"; u "--auth"; u "master"; u "--method"; u "pin"] ++ salt_args salt)
             (Some (ViaPin, pk, secret s)))))
  | AddFingerprint =>
    script_bind (master_key summary s) (fun mk =>
      inr (mkPlan (key_env mk) [u "add"; u "--auth"; u "master"; u "--method"; u "fingerprint"] (Some (ViaFingerprint, [], secret s))))
  | AddFido cred rp fido_salt =>
    script_bind (master_key summary s) (fun mk =>
      inr (mkPlan (key_env mk ++ new_key_env (hmac s))
             [u "add"; u "--auth"; u "master"; u "--method"; u "fido"; u "--cred"; cred; u "--rp"; rp;
              u "--fido-salt"; default (env_salt s) fido_salt] (Some (ViaFido cred, hmac s, secret s))))
  | RemoveMethod MethodFido cred => inr (mkPlan [] [u "remove"; u "--method"; u "fido"; u "--cred"; cred] None)
  | RemoveMethod m _ => inr (mkPlan [] [u "remove"; u "--method"; method_name m] None)
  | MarkStale => inr (mkPlan [] [u "mark-stale"] None)
  | Rotate auth =>
    script_bind (match auth with
                 | ViaMaster => script_bind (wrap_key summary (u ".master") (secret s)) (fun key => inr (key_env key))
                 | ViaPin => script_bind (wrap_key summary (u ".pin") (pin s)) (fun key => inr (key_env key))
                 | ViaFido _ => inr (key_env (hmac s))
                 | ViaFingerprint => inr []
                 end) (fun env => script_bind (new_key salt (new_secret s)) (fun nk =>
      inr (mkPlan (env ++ password_env (new_secret s) ++ new_key_env nk)
             ([u "rotate"; u "--auth"; via_name auth]
              ++ match auth with ViaFido c => [u "--auth-cred"; c] | _ => [] end ++ salt_args salt)
             (Some (ViaMaster, nk, new_secret s)))))
  end.

(** [__verify_account] *)
Definition verify_account (new : jstr) (a : envelope_account) : Z + unit :=
  let '(c, summary) := inspect new in
  if (c =? 0)%Z && bool_decide (summary_account summary = Some (account_id a, account_server a)) then inr tt else inl EXIT_verify.

Definition opener (v : via) (key : jstr) : process := pipe creds_decrypt (unlock_tool (key_env key) (u "open" :: via_args v)).

(** [__verify_opens]: the bytes decide, not a status. *)
Definition verify_opens (new : jstr) (w : option (via * jstr * jstr)) : Z + unit :=
  match w with
  | None => inr tt
  | Some (v, key, password) => if str_eqb (snd (opener v key new)) password then inr tt else inl EXIT_verify
  end.

Definition store_new (k : keyring) (a : envelope_account) (new : jstr) : Z + keyring :=
  match st_store k (envelope_entry a) new with Some k' => inr k' | None => inl EXIT_store end.

(** The end of every write: check the new envelope, then store it. *)
Definition commit (k : keyring) (a : envelope_account) (w : option (via * jstr * jstr)) (new : jstr) : Z + keyring :=
  script_bind (verify_account new a) (fun _ => script_bind (verify_opens new w) (fun _ => store_new k a new)).

Definition finish (k : keyring) (r : Z + keyring) : Z * keyring := match r with inl c => (c, k) | inr k' => (0%Z, k') end.

Definition update_envelope (k : keyring) (a : envelope_account) (op : envelope_op) (s : secrets) (salt : jstr) : Z * keyring :=
  finish k
    (script_bind (load k a) (fun '(sealed, summary) =>
     script_bind (prepare op s salt summary) (fun p =>
     script_bind (capture (pipe creds_decrypt (pipe (unlock_tool (tool_env p) (tool_args p)) sealer) sealed) (fun c => c))
       (commit k a (opens_with p))))).

Definition create_envelope (k : keyring) (a : envelope_account) (s : secrets) (salt : jstr) : Z * keyring :=
  finish k
    (script_bind (new_key salt (secret s)) (fun key =>
     script_bind (capture (pipe (unlock_tool (password_env (secret s) ++ new_key_env key) ([u "create"] ++ salt_args salt)) sealer [])
                    (fun c => c))
       (commit k a (Some (ViaMaster, key, secret s))))).

(** unlockEnvelopeOpenCommand: the status and what it prints. *)
Definition open_key (summary : jstr) (v : via) (s : secrets) : Z + list (jstr * jstr) :=
  match v with
  | ViaMaster => script_bind (wrap_key summary (u ".master") (secret s)) (fun key => inr (key_env key))
  | ViaPin => script_bind (wrap_key summary (u ".pin") (pin s)) (fun key => inr (key_env key))
  | ViaFido _ => inr (key_env (hmac s))
  | ViaFingerprint => inr []
  end.

Definition open_envelope (k : keyring) (a : envelope_account) (v : via) (s : secrets) : Z * jstr :=
  match script_bind (load k a) (fun '(sealed, summary) => script_bind (open_key summary v s) (fun env => inr (sealed, env))) with
  | inl c => (c, [])
  | inr (sealed, env) =>
    let '(c, o) := pipe creds_decrypt (unlock_tool env (u "open" :: via_args v)) sealed in
    (if (c =? 141)%Z then 0%Z else c, take (Z.to_nat MAX_TOKEN_BYTES) o)
  end.

(** The migration's secrets: the legacy entry's password, or the one in the environment; None when there is none. *)
Definition migration_secrets (k : keyring) (entry : jstr) (fromKeyring : bool) (s : secrets) : option secrets :=
  let password := if fromKeyring
    then command_text (match st_lookup k entry with Some p => take (Z.to_nat MAX_TOKEN_BYTES) p | None => [] end)
    else secret s in
  if str_eqb password [] then None else Some (mkSecrets password (pin s) (new_secret s) (hmac s) (env_salt s)).

(** legacyMigrationCommand; the salts are those of the two writes. *)
Definition migrate_legacy (k : keyring) (a : envelope_account) (legacy : jstr) (op : envelope_op) (fromKeyring : bool)
    (s : secrets) (salt1 salt2 : jstr) : Z * keyring :=
  let entry := keyringEntryName legacy (account_slot a) in
  match migration_secrets k entry fromKeyring s with
  | None => (MIGRATION_none, k)
  | Some s' =>
    let rc := fst (open_envelope k a ViaMaster s') in
    let '(c1, k1) :=
      if (rc =? 0)%Z then (0%Z, k)
      else if existsb (Z.eqb rc) [EXIT_absent; 6; EXIT_unseal]%Z then create_envelope k a s' salt1
      else if (rc =? 3)%Z then (MIGRATION_mismatch, k)
      else (rc, k) in
    if negb (c1 =? 0)%Z then (c1, k1)
    else
      let '(c2, k2) := update_envelope k1 a op s' salt2 in
      if negb (c2 =? 0)%Z then (c2, k2) else (0%Z, st_clear k2 entry)
  end.
(** The operation "delete" of unlockEnvelopeUpdateCommand. *)
Definition delete_envelope (k : keyring) (a : envelope_account) : Z * keyring :=
  let '(ok, k') := clear_reported k (envelope_entry a) in (if ok : bool then 0%Z else 1%Z, k').

(** unlockEnvelopeCheckCommand *)
Definition check_password (k : keyring) (a : envelope_account) (s : secrets) : Z := fst (open_envelope k a ViaMaster s).

(** *** Joining an envelope stored with line breaks *)


(** One entry of keyringRepairCommand: the counter, the lines printed and the keyring. *)
Definition rejoin_entry (st : nat * list jstr * keyring) (entry : jstr) : nat * list jstr * keyring :=
  let '(n, printed, k) := st in
  if st_fails k entry then st
  else match st_lookup k entry with
  | None => st
  | Some stored =>
    let v := command_text (take (Z.to_nat MAX_ENVELOPE_SEALED_BYTES) stored) in
    if negb (existsb is_break v) then st
    else
      let joined := join_lines v in
      match (if (fst (creds_decrypt joined) =? 0)%Z then st_store k entry joined else None) with
      | Some k' => (S n, printed, k')
      | None => (n, printed ++ [u "rejoin_failed=" ++ entry], k)
      end
  end.

Definition repair_keyring (k : keyring) (names : list jstr) : jstr * keyring :=
  let '(n, printed, k') := fold_left rejoin_entry names (0, [], k) in
  (concat (map (fun l => l ++ newline) (printed ++ [u "rejoined=" ++ dec_nat n])) ++ snd (repair_file_script []), k').

(** *** Removing a method *)

Definition is_cred_char (c : N) : bool := is_base64_unit c || (c =? 61)%N.

Definition remove_args (m : unlock_method) (summary : jstr) : Z + list jstr :=
  match m with
  | MethodFido =>
    let c := command_text (summary_first_cred summary) in
    if str_eqb c [] || negb (forallb is_cred_char c) then inl 4%Z
    else inr [u "remove"; u "--method"; u "fido"; u "--cred"; c]
  | _ => inr [u "remove"; u "--method"; method_name m]
  end.

(** The envelope without the method, checked against the account the old one names and stored. *)
Definition purge_write (k : keyring) (slot : jsval) (m : unlock_method) (sealed summary : jstr) : Z + keyring :=
  let a := mkEnvelopeAccount (command_text (summary_id summary)) (command_text (summary_server summary)) slot in
  script_bind (remove_args m summary) (fun args =>
  script_bind (capture (pipe creds_decrypt (pipe (unlock_tool [] args) sealer) sealed) (fun c => c))
    (commit k a None)).

(** One round of envelopeMethodPurgeScript: the exit, or the keyring of the next round. *)
Definition purge_round (k : keyring) (slot : jsval) (m : unlock_method) : (Z * keyring) + keyring :=
  let entry := keyringEntryName KEYRING_ENVELOPE slot in
  if st_fails k entry then inl (1%Z, k)
  else match st_lookup k entry with
  | None => inl (0%Z, k)
  | Some stored =>
    let sealed := command_text (take (Z.to_nat MAX_ENVELOPE_SEALED_BYTES) stored) in
    if str_eqb sealed [] then inl (1%Z, k)
    else match capture (inspect sealed) (fun _ => EXIT_unseal) with
    | inl c => inl (c, k)
    | inr summary =>
      match summary_has m summary with
      | None => inl (1%Z, k)
      | Some false => inl (0%Z, k)
      | Some true =>
        match m with
        | MethodFingerprint => let '(ok, k') := clear_reported k entry in inl (if ok : bool then 0%Z else 1%Z, k')
        | _ => match purge_write k slot m sealed summary with inl c => inl (c, k) | inr k' => inr k' end
        end
      end
    end
  end.

Fixpoint purge_rounds (rounds : nat) (k : keyring) (slot : jsval) (m : unlock_method) : Z * keyring :=
  match rounds with
  | 0 => (8%Z, k)
  | S n => match purge_round k slot m with inl r => r | inr k' => purge_rounds n k' slot m end
  end.

Definition envelope_method_purge : keyring -> jsval -> unlock_method -> Z * keyring := purge_rounds MAX_PURGE_ROUNDS.

(** One slot of quickUnlockPurgeCommand, then its legacy entry. *)
Definition purge_slot (m : unlock_method) (st : Z * keyring) (slot : jsval) : Z * keyring :=
  let '(rc, k) := st in
  let '(c, k1) := envelope_method_purge k slot m in
  let '(ok, k2) := clear_reported k1 (keyringEntryName (LEGACY_ENTRY_FOR_METHOD m) slot) in
  (if (c =? 0)%Z && ok then rc else 1%Z, k2).

Definition quick_unlock_purge (k : keyring) (slots : list jsval) (m : unlock_method) : Z * keyring :=
  fold_left (purge_slot m) slots (0%Z, k).

(** *** FIDO2 *)

Record fido_key := mkFidoKey { fk_device : jstr; fk_cred : jstr; fk_rp : jstr }.

(** fidoAssertScript, with the random client data hash: the hmac-secret is the fifth line. *)
Definition fido_secret (key : fido_key) (hash salt : jstr) : Z + jstr :=
  let request := concat (map (fun l => l ++ newline) [hash; fk_rp key; fk_cred key; salt]) in
  script_bind (capture (fido2_assert (fk_device key) request) (fun _ => FIDO_assert)) (fun out =>
    let secret := nth 4 (split_char 10 out) [] in
    if str_eqb secret [] then inl FIDO_noSecret else inr secret).

Definition with_hmac (s : secrets) (h fidoSalt : jstr) : secrets := mkSecrets (secret s) (pin s) (new_secret s) h fidoSalt.
Definition with_password (s : secrets) (p : jstr) : secrets := mkSecrets p (pin s) (new_secret s) (hmac s) (env_salt s).

(** fidoUnlockCommand *)
Definition fido_unlock (k : keyring) (a : envelope_account) (key : fido_key) (s : secrets) (hash salt : jstr) : Z * jstr :=
  match fido_secret key hash salt with
  | inl c => (c, [])
  | inr h => open_envelope k a (ViaFido (fk_cred key)) (with_hmac s h (env_salt s))
  end.

(** fidoEnrollCommand; [fresh] is the new FIDO salt. *)
Definition fido_enroll (k : keyring) (a : envelope_account) (key : fido_key) (s : secrets) (hash fresh salt : jstr) : Z * keyring :=
  match fido_secret key hash fresh with
  | inl c => (c, k)
  | inr h => update_envelope k a (AddFido (fk_cred key) (fk_rp key) None) (with_hmac s h fresh) salt
  end.

(** fidoLegacyUnlockCommand: the status, what it prints and the keyring. *)
Definition fido_legacy_unlock (k : keyring) (a : envelope_account) (key : fido_key) (s : secrets) (hash fresh salt1 salt2 : jstr)
    : Z * jstr * keyring :=
  let entry := keyringEntryName KEYRING_FIDO (account_slot a) in
  let password := command_text (match st_lookup k entry with Some p => take (Z.to_nat MAX_TOKEN_BYTES) p | None => [] end) in
  if str_eqb password [] then (MIGRATION_none, [], k)
  else match fido_secret key hash fresh with
  | inl c => (c, [], k)
  | inr h =>
    let s' := with_password (with_hmac s h fresh) password in
    let '(rc, k') := migrate_legacy k a KEYRING_FIDO (AddFido (fk_cred key) (fk_rp key) None) false s' salt1 salt2 in
    let '(opened, printed) := if (rc =? 0)%Z then open_envelope k' a (ViaFido (fk_cred key)) s' else (1%Z, []) in
    if (opened =? 0)%Z then (0%Z, printed, k') else (FIDO_legacyUsed, printed ++ password, k')
  end.
End Effects.

(** ** Lemmas *)

(** *** Postconditions of the scripts' sequencing *)

Lemma bind_inr {A B} (x : Z + A) (f : A -> Z + B) b : script_bind x f = inr b -> exists a, x = inr a /\ f a = inr b.
Proof. destruct x as [c|a]; [done|]. eauto. Qed.

Lemma capture_inr r code t : capture r code = inr t -> r.1 = 0%Z /\ t = command_text r.2.
Proof. unfold capture. destruct (Z.eqb_spec (fst r) 0); [|done]. intros [= <-]. done. Qed.

(** A script that stops does not exit 0. *)
Definition fails_nonzero {A} (x : Z + A) : Prop := forall c, x = inl c -> c <> 0%Z.

Lemma fails_bind {A B} (x : Z + A) (f : A -> Z + B) :
  fails_nonzero x -> (forall a, x = inr a -> fails_nonzero (f a)) -> fails_nonzero (script_bind x f).
Proof. intros Hx Hf. destruct x as [c|a]; intros d; cbn [script_bind]; [intros [= <-]; by apply Hx|by apply Hf]. Qed.

Lemma fails_capture r code : (forall c, c <> 0%Z -> code c <> 0%Z) -> fails_nonzero (capture r code).
Proof. intros Hcode c. unfold capture. destruct (Z.eqb_spec (fst r) 0); [done|]. intros [= <-]. by apply Hcode. Qed.

Lemma fails_inr {A} (a : A) : fails_nonzero (inr a : Z + A).
Proof. done. Qed.

Lemma fails_inl {A} c : c <> 0%Z -> fails_nonzero (inl c : Z + A).
Proof. by intros ? ? [= <-]. Qed.

Create HintDb script.
#[export] Hint Resolve fails_bind fails_capture fails_inr : script.
#[export] Hint Extern 1 (fails_nonzero (inl _)) => (apply fails_inl; by vm_compute) : script.
#[export] Hint Extern 2 (fails_nonzero (capture _ _)) => (apply fails_capture; intros; first [assumption | by vm_compute]) : script.

Definition one_line (s : jstr) : Prop := Forall (fun b => is_break b = false) s.

Lemma one_line_command_text s : one_line s -> command_text s = s.
Proof.
  intros H. apply command_text_id. intros t ->. unfold one_line in H. rewrite Forall_app, Forall_cons in H. by destruct H as (_ & E & _).
Qed.

Lemma join_lines_one s : one_line (join_lines s).
Proof. apply Forall_forall. intros b [_ Hb]%elem_of_bfilter. by apply negb_true_iff. Qed.

Section Steps.
Context `{s : SecretService} `{!SecretServiceLaws s} `{T : Unlock}.

Lemma pipe_output (P : jstr -> Prop) p q x : (forall y, P (q y).2) -> P (pipe p q x).2.
Proof. intros Hq. unfold pipe. destruct (p x) as [c1 o1]. specialize (Hq o1). by destruct (q o1). Qed.

Lemma sealer_one_line x : one_line (sealer x).2.
Proof. unfold sealer. destruct (creds_encrypt x). cbn [snd]. apply join_lines_one. Qed.

Lemma sealed_one_line p q x code new : capture (pipe p (pipe q sealer) x) code = inr new -> one_line new.
Proof.
  intros [_ ->]%capture_inr. apply strip_end_Forall, (pipe_output one_line). intros y. apply pipe_output, sealer_one_line.
Qed.

Lemma created_one_line q x code new : capture (pipe q sealer x) code = inr new -> one_line new.
Proof. intros [_ ->]%capture_inr. apply strip_end_Forall, (pipe_output one_line), sealer_one_line. Qed.

Lemma commit_inr k a w new k' : commit k a w new = inr k' ->
  (exists summary, inspect new = (0%Z, summary) /\ summary_account summary = Some (account_id a, account_server a))
  /\ (forall v key password, w = Some (v, key, password) -> (opener v key new).2 = password)
  /\ st_store k (envelope_entry a) new = Some k'.
Proof.
  unfold commit. intros ([] & Hv & ([] & Ho & Hs)%bind_inr)%bind_inr. split_and!.
  - unfold verify_account in Hv. destruct (inspect new) as [c summary]. destruct (Z.eqb_spec c 0) as [-> |]; [|done].
    exists summary. split; [done|]. by destruct (bool_decide_reflect (summary_account summary = Some (account_id a, account_server a))).
  - intros v key password ->. unfold verify_opens in Ho. destruct (str_eqb _ password) eqn:E; [|done]. by apply str_eqb_eq in E.
  - unfold store_new in Hs. by destruct (st_store k (envelope_entry a) new); simplify_eq.
Qed.

Lemma commit_fails k a w new : fails_nonzero (commit k a w new).
Proof.
  unfold commit. apply fails_bind; [|intros [] _; apply fails_bind; [|intros [] _]].
  - unfold verify_account. destruct (inspect new). destruct (_ && _); auto with script.
  - unfold verify_opens. destruct w as [[[v key] password]|]; [|auto with script]. destruct (str_eqb _ _); auto with script.
  - unfold store_new. destruct (st_store _ _ _); auto with script.
Qed.

Lemma load_fails k a : fails_nonzero (load k a).
Proof. unfold load. destruct (str_eqb _ []); [auto with script|]. apply fails_bind; auto with script. Qed.

Lemma wrap_key_fails summary path key : fails_nonzero (wrap_key summary path key).
Proof. unfold wrap_key. destruct (str_eqb _ []); auto with script. Qed.

Lemma new_key_fails salt key : fails_nonzero (new_key salt key).
Proof. unfold new_key. auto with script. Qed.

#[local] Hint Resolve commit_fails load_fails wrap_key_fails new_key_fails : script.

Lemma prepare_fails op sec salt summary : fails_nonzero (prepare op sec salt summary).
Proof.
  destruct op as [| |cred rp fs|[] cred| |auth]; cbn [prepare]; auto with script.
  - apply fails_bind; [apply wrap_key_fails|]. intros. apply fails_bind; auto with script.
  - apply fails_bind; [apply wrap_key_fails|]. auto with script.
  - apply fails_bind; [apply wrap_key_fails|]. auto with script.
  - apply fails_bind; [destruct auth; auto with script; apply fails_bind; auto with script|]. intros. apply fails_bind; auto with script.
Qed.
End Steps.

(** *** Writes *)

(** The way an operation adds or renews, with the password it must give and the path of its parameters. *)
Definition way_written (op : envelope_op) : option via :=
  match op with
  | AddPin => Some ViaPin
  | AddFingerprint => Some ViaFingerprint
  | AddFido cred _ _ => Some (ViaFido cred)
  | Rotate _ => Some ViaMaster
  | RemoveMethod _ _ | MarkStale => None
  end.

Definition password_kept (op : envelope_op) (s : secrets) : jstr :=
  match op with Rotate _ => new_secret s | _ => secret s end.

Section Writes.
Context `{s : SecretService} `{!SecretServiceLaws s} `{T : Unlock}.

(** What a write leaves: the new envelope on one line, readable, of this account, and nothing else changed. *)
Record written (k k' : keyring) (a : envelope_account) (new : jstr) : Prop := mkWritten {
  written_stored : st_lookup k' (envelope_entry a) = Some new;
  written_line : one_line new;
  written_account : exists summary, inspect new = (0%Z, summary) /\ summary_account summary = Some (account_id a, account_server a);
  written_frame : forall name, name <> envelope_entry a -> st_lookup k' name = st_lookup k name;
  written_fails : forall name, name <> envelope_entry a -> st_fails k' name = st_fails k name
}.

Lemma commit_written k a w new k' : one_line new -> commit k a w new = inr k' -> written k k' a new.
Proof.
  intros Hl (Ha & _ & Hs)%commit_inr. split; [by eapply st_lookup_store|done|done| |].
  - intros name Hne. eapply st_lookup_store_other; eauto.
  - intros name Hne. eapply st_fails_store_other; eauto.
Qed.

(** The plan of an operation names its way, the key of that way and the password. *)
Lemma prepare_way op sec salt summary p : prepare op sec salt summary = inr p ->
  match way_written op with
  | None => opens_with p = None
  | Some v => exists key, opens_with p = Some (v, key, password_kept op sec)
      /\ match op with
         | AddPin => new_key salt (pin sec) = inr key
         | AddFido _ _ _ => key = hmac sec
         | Rotate _ => new_key salt (new_secret sec) = inr key
         | _ => key = []
         end
  end.
Proof.
  destruct op as [| |cred rp fs|[] cred| |auth]; cbn [prepare way_written password_kept]; intros H; simplify_eq/=; try done.
  - apply bind_inr in H as (mk & _ & (pk & Hk & [= <-])%bind_inr). eauto.
  - apply bind_inr in H as (mk & _ & [= <-]). eauto.
  - apply bind_inr in H as (mk & _ & [= <-]). eauto.
  - apply bind_inr in H as (env & _ & (nk & Hk & [= <-])%bind_inr). eauto.
Qed.

(** Either the update stops, with a status other than 0 and the keyring as it was, or it exits 0 after these steps. *)
Lemma update_cases k a op sec salt :
  ((update_envelope k a op sec salt).1 <> 0%Z /\ (update_envelope k a op sec salt).2 = k)
  \/ exists sealed summary p new, load k a = inr (sealed, summary) /\ prepare op sec salt summary = inr p /\ one_line new
      /\ capture (pipe creds_decrypt (pipe (unlock_tool (tool_env p) (tool_args p)) sealer) sealed) (fun c => c) = inr new
      /\ commit k a (opens_with p) new = inr (update_envelope k a op sec salt).2 /\ (update_envelope k a op sec salt).1 = 0%Z.
Proof.
  unfold update_envelope. match goal with |- context [finish k ?x] => destruct x as [c|k1] eqn:E end; cbn [finish fst snd].
  - left. split; [|done]. revert c E. apply fails_bind; [apply load_fails|]. intros [sealed summary] _. apply fails_bind; [apply prepare_fails|].
    intros p _. apply fails_bind; [by apply fails_capture|]. intros new _. apply commit_fails.
  - right. apply bind_inr in E as ([sealed summary] & Hl & (p & Hp & (new & Hn & Hc)%bind_inr)%bind_inr).
    exists sealed, summary, p, new. split_and!; try done. by eapply sealed_one_line.
Qed.

Lemma create_cases k a sec salt :
  ((create_envelope k a sec salt).1 <> 0%Z /\ (create_envelope k a sec salt).2 = k)
  \/ exists key new, new_key salt (secret sec) = inr key /\ one_line new
      /\ commit k a (Some (ViaMaster, key, secret sec)) new = inr (create_envelope k a sec salt).2 /\ (create_envelope k a sec salt).1 = 0%Z.
Proof.
  unfold create_envelope. match goal with |- context [finish k ?x] => destruct x as [c|k1] eqn:E end; cbn [finish fst snd].
  - left. split; [|done]. revert c E. apply fails_bind; [apply new_key_fails|]. intros key _.
    apply fails_bind; [by apply fails_capture|]. intros new _. apply commit_fails.
  - right. apply bind_inr in E as (key & Hk & (new & Hn & Hc)%bind_inr). exists key, new. split_and!; try done.
    by eapply created_one_line.
Qed.

(** Reading back an entry that was just written. *)
Lemma load_written k k' a new : written k k' a new -> new <> [] -> (length new <= Z.to_nat MAX_ENVELOPE_SEALED_BYTES)%nat ->
  load k' a = inr (new, command_text (inspect new).2).
Proof.
  intros [Hs Hl (summary & Hi & _) _ _] Hne Hlen. unfold load. rewrite Hs, take_ge, one_line_command_text by done.
  rewrite (proj2 (str_eqb_neq _ _) Hne). by rewrite Hi.
Qed.
End Writes.

(** *** The operations and their scripts *)

Lemma via_of_rotate v : is_Some (rotate v) <-> is_Some (via_of v).
Proof.
  unfold rotate, via_of. destruct (kind_is "master" v); [by split; eauto|]. destruct (kind_is "pin" v); [by split; eauto|].
  destruct (kind_is "fingerprint" v); cbn [orb andb negb]; [rewrite andb_false_r; by split; eauto|].
  destruct (kind_is "fido" v && cred_ok v); split; intros [? ?]; eauto; done.
Qed.

Lemma method_of_remove op : is_Some (remove_method op) -> is_Some (method_of op.["method"]).
Proof.
  unfold remove_method, method_of. destruct (strict_eq _ (JStr (u "pin"))); [eauto|]. destruct (strict_eq _ (JStr (u "fingerprint"))); [eauto|].
  cbn [orb]. destruct (strict_eq _ (JStr (u "fido"))); [eauto|]. by intros [? ?].
Qed.

(** The operations performed are those whose script is built. *)
Lemma op_of_change op : is_Some (op_of op) <-> is_Some (change_of op).
Proof.
  unfold op_of, change_of. destruct (kind_is "add-pin" op); [by split; eauto|]. destruct (kind_is "add-fingerprint" op); [by split; eauto|].
  destruct (kind_is "add-fido" op); [by rewrite fmap_is_Some|].
  destruct (kind_is "remove" op).
  { split.
    - destruct (remove_method op); [eauto|by intros [? ?]].
    - intros H. destruct (method_of_remove op H) as [m ->]. destruct H as [c ->]. eauto. }
  destruct (kind_is "mark-stale" op); [by split; eauto|].
  destruct (kind_is "rotate" op && _); [by rewrite fmap_is_Some, via_of_rotate|]. split; intros [? ?]; done.
Qed.

(** *** Purging *)

Section Purge.
Context `{s : SecretService} `{!SecretServiceLaws s} `{T : Unlock}.

(** What a purge that exits 0 may leave: no envelope, or one that no longer has the method. *)
Definition method_gone (k : keyring) (slot : jsval) (m : unlock_method) : Prop :=
  let entry := keyringEntryName KEYRING_ENVELOPE slot in
  st_fails k entry = false /\
  (st_lookup k entry = None
   \/ exists sealed summary, load k (mkEnvelopeAccount [] [] slot) = inr (sealed, summary) /\ summary_has m summary = Some false).

(** Writing the envelope without the method. *)
Lemma purge_write_spec k slot m sealed summary :
  match purge_write k slot m sealed summary with
  | inl c => c <> 0%Z
  | inr k' => exists new,
      written k k' (mkEnvelopeAccount (command_text (summary_id summary)) (command_text (summary_server summary)) slot) new
  end.
Proof.
  destruct (purge_write k slot m sealed summary) as [c|k'] eqn:E.
  - revert c E. unfold purge_write. apply fails_bind.
    { unfold remove_args. destruct m; auto with script. destruct (_ || _); auto with script. }
    intros args _. apply fails_bind; [by apply fails_capture|]. intros new _. apply commit_fails.
  - apply bind_inr in E as (args & _ & (new & Hn & Hc)%bind_inr). exists new.
    eapply commit_written; [by eapply sealed_one_line|exact Hc].
Qed.

(** How a round can end. *)
Lemma purge_round_spec k slot m :
  match purge_round k slot m with
  | inl (c, k') =>
    (k' = k /\ (c = 0%Z -> method_gone k slot m))
    \/ (m = MethodFingerprint /\ k' = st_clear k (keyringEntryName KEYRING_ENVELOPE slot)
        /\ (c = 0%Z -> st_cleared k (keyringEntryName KEYRING_ENVELOPE slot) = true))
  | inr k' => m <> MethodFingerprint /\ exists sealed summary new,
      load k (mkEnvelopeAccount [] [] slot) = inr (sealed, summary) /\ summary_has m summary = Some true
      /\ written k k' (mkEnvelopeAccount (command_text (summary_id summary)) (command_text (summary_server summary)) slot) new
  end.
Proof.
  unfold purge_round. set (entry := keyringEntryName KEYRING_ENVELOPE slot).
  destruct (st_fails k entry) eqn:Ef; [by left|]. destruct (st_lookup k entry) as [stored|] eqn:El; [|left; split; [done|]; by repeat split; [|left]].
  assert (load k (mkEnvelopeAccount [] [] slot) = let sealed := command_text (take (Z.to_nat MAX_ENVELOPE_SEALED_BYTES) stored) in
    if str_eqb sealed [] then inl EXIT_absent else script_bind (capture (inspect sealed) (fun _ => EXIT_unseal)) (fun summary => inr (sealed, summary)))
    as Hload by (unfold load, envelope_entry; cbn [account_slot]; fold entry; by rewrite El).
  cbn zeta in Hload. revert Hload. generalize (command_text (take (Z.to_nat MAX_ENVELOPE_SEALED_BYTES) stored)). intros sealed Hload.
  destruct (str_eqb sealed []) eqn:Ee; [by left|]. destruct (capture (inspect sealed) _) as [c|summary] eqn:Ec.
  { left. split; [done|]. intros ->. exfalso. eapply (fails_capture (inspect sealed) (fun _ => EXIT_unseal)); [by intros|exact Ec|done]. }
  cbn [script_bind] in Hload. destruct (summary_has m summary) as [[]|] eqn:Eh; [|left; split; [done|]; intros _; split; [done|right]; eauto|by left].
  pose proof (purge_write_spec k slot m sealed summary) as W.
  destruct m; [| |]; try (destruct (purge_write _ _ _ _ _) as [c|k']; [by left|destruct W as [new W]; split; [done|]; eauto 6]).
  unfold clear_reported. right. split; [done|]. split; [done|]. by destruct (st_cleared k entry).
Qed.

(** What the whole command guarantees of a slot: the method is gone, or the envelope that had it was cleared. *)
Definition purged (k : keyring) (slot : jsval) (m : unlock_method) : Prop :=
  let entry := keyringEntryName KEYRING_ENVELOPE slot in
  method_gone k slot m
  \/ (m = MethodFingerprint /\ exists k0, st_cleared k0 entry = true
      /\ st_lookup k entry = st_lookup (st_clear k0 entry) entry /\ st_fails k entry = st_fails (st_clear k0 entry) entry).

(** [purged] depends on the slot's entry alone. *)
Lemma purged_frame k k' slot m :
  st_lookup k' (keyringEntryName KEYRING_ENVELOPE slot) = st_lookup k (keyringEntryName KEYRING_ENVELOPE slot) ->
  st_fails k' (keyringEntryName KEYRING_ENVELOPE slot) = st_fails k (keyringEntryName KEYRING_ENVELOPE slot) ->
  purged k slot m -> purged k' slot m.
Proof.
  intros El Ef. unfold purged, method_gone, load, envelope_entry. cbn [account_slot]. by rewrite El, Ef.
Qed.

(** Nothing but the entry's own state changes. *)
Definition same_elsewhere (entry : jstr) (k k' : keyring) : Prop :=
  forall name, name <> entry -> st_lookup k' name = st_lookup k name /\ st_fails k' name = st_fails k name.

#[export] Instance same_elsewhere_preorder entry : PreOrder (same_elsewhere entry).
Proof.
  split; [by intros k name|]. intros k1 k2 k3 H1 H2 name Hne. destruct (H1 name Hne), (H2 name Hne). split; congruence.
Qed.

Lemma same_elsewhere_clear k entry : same_elsewhere entry k (st_clear k entry).
Proof. intros name Hne. split; [by apply st_lookup_clear_other|by apply st_fails_clear_other]. Qed.

Lemma purge_rounds_spec n k slot m :
  same_elsewhere (keyringEntryName KEYRING_ENVELOPE slot) k (purge_rounds n k slot m).2
  /\ ((purge_rounds n k slot m).1 = 0%Z -> purged (purge_rounds n k slot m).2 slot m).
Proof.
  revert k; induction n as [|n IH]; intros k; cbn [purge_rounds]; [done|].
  pose proof (purge_round_spec k slot m) as R. destruct (purge_round k slot m) as [[c k']|k']; cbn [fst snd].
  - destruct R as [[-> Hc]|(-> & -> & Hc)]; [split; [done|]; intros ->; left; auto|].
    split; [apply same_elsewhere_clear|]. intros ->. right. eauto 6.
  - destruct R as (_ & sealed & summary & new & _ & _ & W). destruct (IH k') as [F G]. split; [|exact G].
    etrans; [|exact F]. intros name Hne. split; [by apply (written_frame _ _ _ _ W)|by apply (written_fails _ _ _ _ W)].
Qed.
End Purge.

(** The slots of a purge are distinct valid account slots. *)
Lemma purge_slots_ok v : NoDup (purge_slots v) /\ Forall (fun s => isAccountSlot s = true) (purge_slots v).
Proof.
  unfold purge_slots. set (f := fun (l : list jstr) (v : jsval) => _).
  assert (forall vs l, NoDup l /\ Forall (fun s => isAccountSlot s = true) l ->
    NoDup (fold_left f vs l) /\ Forall (fun s => isAccountSlot s = true) (fold_left f vs l)) as G.
  { induction vs as [|x vs IH]; intros l Hl; [done|]. cbn [fold_left]. apply IH. unfold f. destruct x; try done. split_ifs; [|done].
    bool_hyps. destruct Hl as [Hn Hf]. split.
    - apply NoDup_app. split; [done|]. split; [|apply NoDup_singleton]. intros y Hy ->%list_elem_of_singleton.
      match goal with H : existsb _ _ = false |- _ => rewrite existsb_false in H; specialize (H _ Hy) end. by rewrite str_eqb_refl in *.
    - apply Forall_app. split; [done|by constructor]. }
  apply G. split; constructor.
Qed.

Section PurgeAll.
Context `{s : SecretService} `{!SecretServiceLaws s} `{T : Unlock}.

Lemma envelope_base : KEYRING_ENVELOPE ∈ KEYRING_ALL_ACCOUNTS.
Proof. apply (bool_decide_eq_true_1 (_ ∈ _)). by vm_compute. Qed.

Lemma legacy_base m : LEGACY_ENTRY_FOR_METHOD m ∈ KEYRING_ALL_ACCOUNTS /\ LEGACY_ENTRY_FOR_METHOD m <> KEYRING_ENVELOPE.
Proof. split; [apply (bool_decide_eq_true_1 (_ ∈ _))|]; destruct m; by vm_compute. Qed.

(** The state of the entries of slots other than those purged. *)
Definition same_but (m : unlock_method) (slots : list jsval) (k k' : keyring) : Prop :=
  forall name, (forall v, v ∈ slots -> name <> keyringEntryName KEYRING_ENVELOPE v /\ name <> keyringEntryName (LEGACY_ENTRY_FOR_METHOD m) v) ->
    st_lookup k' name = st_lookup k name /\ st_fails k' name = st_fails k name.

Lemma purge_slot_spec m rc k slot : let r := purge_slot m (rc, k) slot in
  same_but m [slot] k r.2 /\ (r.1 = rc \/ r.1 = 1%Z) /\ (rc = 0%Z -> r.1 = 0%Z -> purged r.2 slot m).
Proof.
  cbn zeta. unfold purge_slot, clear_reported. destruct (purge_rounds_spec MAX_PURGE_ROUNDS k slot m) as [F G].
  change (purge_rounds MAX_PURGE_ROUNDS k slot m) with (envelope_method_purge k slot m) in F, G.
  destruct (envelope_method_purge k slot m) as [c k1]. cbn [fst snd] in *.
  pose proof (same_elsewhere_clear k1 (keyringEntryName (LEGACY_ENTRY_FOR_METHOD m) slot)) as F2. split_and!.
  - intros name Hn. destruct (Hn slot ltac:(by left)) as [H1 H2].
    destruct (F name H1), (F2 name H2). split; congruence.
  - destruct (_ && _); auto.
  - intros -> H. destruct (Z.eqb_spec c 0) as [-> |]; [|done]. destruct (legacy_base m) as [Hb Hne].
    assert (keyringEntryName KEYRING_ENVELOPE slot <> keyringEntryName (LEGACY_ENTRY_FOR_METHOD m) slot) as Hd
      by (apply entries_differ; [apply envelope_base|done|left; congruence]).
    destruct (F2 _ Hd). eapply purged_frame; [| |by apply G]; done.
Qed.

Lemma purge_fold m slots rc k : let r := fold_left (purge_slot m) slots (rc, k) in
  same_but m slots k r.2 /\ (rc = 1%Z -> r.1 = 1%Z).
Proof.
  revert rc k; induction slots as [|v slots IH]; intros rc k; cbn [fold_left]; [split; [by intros name|done]|].
  destruct (purge_slot_spec m rc k v) as (F & Hrc & _). destruct (purge_slot m (rc, k) v) as [rc1 k1]. cbn [fst snd] in *.
  destruct (IH rc1 k1) as [F2 Hrc2]. split.
  - intros name Hn. destruct (F2 name) as [-> ->]; [intros w Hw; apply Hn; by right|]. apply F.
    intros w ->%list_elem_of_singleton. apply Hn. by left.
  - intros ->. apply Hrc2. by destruct Hrc.
Qed.

Lemma purge_fold_purged m slots rc k slot : NoDup (map accountSlot slots) -> slot ∈ slots -> rc = 0%Z \/ rc = 1%Z ->
  (fold_left (purge_slot m) slots (rc, k)).1 = 0%Z -> purged (fold_left (purge_slot m) slots (rc, k)).2 slot m.
Proof.
  revert rc k; induction slots as [|v slots IH]; intros rc k Hn Hs H01 H0; [by apply elem_of_nil in Hs|]. cbn [fold_left map] in *.
  apply NoDup_cons in Hn as [Hv Hn]. destruct (purge_slot_spec m rc k v) as (_ & Hrc & Hp).
  destruct (purge_slot m (rc, k) v) as [rc1 k1]. cbn [fst snd] in *. destruct (purge_fold m slots rc1 k1) as [F Hone].
  assert (rc1 = 0%Z) as -> by (destruct H01 as [-> | ->], Hrc as [-> | ->]; try done; by rewrite Hone in H0).
  assert (rc = 0%Z) as -> by (by destruct Hrc).
  apply elem_of_cons in Hs as [-> |Hs]; [|by apply IH; auto].
  assert (forall w, w ∈ slots -> accountSlot v <> accountSlot w) as Hd.
  { intros w Hw E. apply Hv, list_elem_of_fmap. eauto. }
  destruct (F (keyringEntryName KEYRING_ENVELOPE v)) as [El Ef].
  { intros w Hw. split; apply entries_differ; auto using envelope_base; apply legacy_base. }
  eapply purged_frame; [exact El|exact Ef|auto].
Qed.
End PurgeAll.

(** ** Properties *)

Section Theorems.
Context `{s : SecretService} `{!SecretServiceLaws s} `{T : Unlock}.

(** C2. Every write of the envelope stores last. When an update or a creation exits
    with an error, the keyring is as it was. When it exits 0, the account's entry
    holds a new envelope, on one line, that decrypts to an envelope of this
    account and gives exactly the password through the way just written, and
    no other entry changed. *)
Theorem writes_commit_last k a op sec salt :
  let update := update_envelope k a op sec salt in
  let create := create_envelope k a sec salt in
  (update.1 <> 0%Z -> update.2 = k)
  /\ (update.1 = 0%Z -> exists new, written k update.2 a new
       /\ forall v, way_written op = Some v -> exists key, (opener v key new).2 = password_kept op sec)
  /\ (create.1 <> 0%Z -> create.2 = k)
  /\ (create.1 = 0%Z -> exists new, written k create.2 a new
       /\ exists key, new_key salt (secret sec) = inr key /\ (opener ViaMaster key new).2 = secret sec).
Proof.
  cbn zeta. split_and!.
  - by destruct (update_cases k a op sec salt) as [[? ?]|(? & ? & ? & ? & _ & _ & _ & _ & _ & ?)].
  - destruct (update_cases k a op sec salt) as [[Hrc _]|(sealed & summary & p & new & _ & Hp & Hl & _ & Hc & _)]; [done|]. intros _.
    exists new. split; [by eapply commit_written|]. intros v Hv. apply prepare_way in Hp. rewrite Hv in Hp.
    destruct Hp as (vk & Ev & _). exists vk. by eapply (proj1 (proj2 (commit_inr _ _ _ _ _ Hc))).
  - by destruct (create_cases k a sec salt) as [[? ?]|(? & ? & _ & _ & _ & ?)].
  - destruct (create_cases k a sec salt) as [[Hrc _]|(key & new & Hkey & Hl & Hc & _)]; [done|]. intros _.
    exists new. split; [by eapply commit_written|]. exists key. split; [done|]. by eapply (proj1 (proj2 (commit_inr _ _ _ _ _ Hc))).
Qed.

(** What is asked for at unlock is what was enrolled. *)
Definition same_answer (op : envelope_op) (s s' : secrets) : Prop :=
  match op with
  | AddPin => pin s' = pin s
  | AddFido _ _ _ => hmac s' = hmac s
  | Rotate _ => secret s' = new_secret s
  | _ => False
  end.

(** The value of a flag of the tool, whose arguments after the command are names and values in turn. *)
Fixpoint flag (name : string) (flags : list jstr) : option jstr :=
  match flags with
  | n :: v :: more => if str_eqb n (u "--" ++ u name) then Some v else flag name more
  | _ => None
  end.

(** The wrap whose Argon2 parameters a command of the tool writes. *)
Definition kdf_wrap (args : list jstr) : option jstr :=
  if str_eqb (nth 0 args []) (u "create") || str_eqb (nth 0 args []) (u "rotate") then Some (u ".master")
  else if str_eqb (nth 0 args []) (u "add") && bool_decide (flag "method" (drop 1 args) = Some (u "pin")) then Some (u ".pin")
  else None.

(** What is documented of the programs: a sealed credential has bytes, and opens
    joined on one line to what was sealed; a wrap the tool writes is listed by
    its inspection with the parameters of the flags it was called with, as
    four words. *)
Class UnlockLaws := {
  seal_opens x o : creds_encrypt x = (0%Z, o) -> join_lines o <> [] /\ creds_decrypt (join_lines o) = (0%Z, x);
  tool_lists env args input out path summary salt m t p :
    unlock_tool env args input = (0%Z, out) -> kdf_wrap args = Some path ->
    flag "salt" (drop 1 args) = Some salt -> flag "m" (drop 1 args) = Some (dec_Z m) ->
    flag "t" (drop 1 args) = Some (dec_Z t) -> flag "p" (drop 1 args) = Some (dec_Z p) ->
    unlock_tool [] [u "inspect"] out = (0%Z, summary) ->
    split_char 32 (command_text (summary_params path (command_text summary))) = [salt; dec_Z t; dec_Z m; dec_Z p]
}.

(** The path of the parameters an unlock derives its key with. *)
Definition kdf_path (v : via) : option jstr :=
  match v with ViaMaster => Some (u ".master") | ViaPin => Some (u ".pin") | ViaFingerprint | ViaFido _ => None end.

(** The tool is told the parameters the new key was derived with. *)
Lemma prepare_flags op sec salt summary p v path : prepare op sec salt summary = inr p ->
  way_written op = Some v -> kdf_path v = Some path ->
  kdf_wrap (tool_args p) = Some path /\ flag "salt" (drop 1 (tool_args p)) = Some salt
  /\ flag "m" (drop 1 (tool_args p)) = Some (dec_Z (argon2_m ENVELOPE_ARGON2))
  /\ flag "t" (drop 1 (tool_args p)) = Some (dec_Z (argon2_t ENVELOPE_ARGON2))
  /\ flag "p" (drop 1 (tool_args p)) = Some (dec_Z (argon2_p ENVELOPE_ARGON2)).
Proof.
  destruct op as [| |cred rp fs|[] cred| |auth]; cbn [prepare way_written]; intros H Hv Hp; simplify_eq/=.
  - apply bind_inr in H as (mk & _ & (pk & _ & [= <-])%bind_inr). split_and!; reflexivity.
  - apply bind_inr in H as (env & _ & (nk & _ & [= <-])%bind_inr). destruct auth; split_and!; reflexivity.
Qed.

(** The stored bytes are what the tool printed, sealed. *)
Lemma changed_seals `{!UnlockLaws} sealed env args new : 
  capture (pipe creds_decrypt (pipe (unlock_tool env args) sealer) sealed) (fun c => c) = inr new ->
  exists input out, unlock_tool env args input = (0%Z, out) /\ creds_decrypt new = (0%Z, out) /\ new <> [].
Proof.
  intros [Hc ->]%capture_inr. unfold pipe, sealer in *. destruct (creds_decrypt sealed) as [c1 input]. destruct (unlock_tool env args input) as [c2 out] eqn:Et.
  destruct (creds_encrypt out) as [c3 o] eqn:Es. cbn [fst snd] in *. destruct (Z.eqb_spec c3 0) as [-> |]; [|by destruct (Z.eqb_spec c3 0)].
  destruct (Z.eqb_spec c2 0) as [-> |]; [|by destruct (Z.eqb_spec c2 0)]. destruct (seal_opens _ _ Es) as [Hne Ho].
  rewrite one_line_command_text by apply join_lines_one. eauto.
Qed.

(** The key of a wrap listed with the parameters of a new one is derived as the new one was. *)
Lemma wrap_key_new summary path salt answer :
  split_char 32 (command_text (summary_params path summary)) = new_words salt -> wrap_key summary path answer = new_key salt answer.
Proof.
  intros E. unfold wrap_key. rewrite E. destruct (str_eqb _ []) eqn:E1; [apply str_eqb_eq in E1; by rewrite E1 in E|done].
Qed.

(** C3. An enrolled way in opens. After adding a PIN or a FIDO2 key, or changing the
    master password, an unlock through that way with the same answer prints
    exactly the password the update was given: the whole chain of deriving the
    key, telling the tool the parameters, sealing, storing, looking up,
    decrypting, reading the parameters and deriving the key again.
    The new envelope and the password must be within the script's caps; what is
    relied on of the programs ([UnlockLaws]) is that a sealed credential opens
    to what was sealed, and that the tool lists a wrap it wrote with the
    parameters of its flags. *)
Theorem enrolled_opens `{!UnlockLaws} k a op v sec sec' salt new :
  (update_envelope k a op sec salt).1 = 0%Z -> way_written op = Some v -> same_answer op sec sec' ->
  let k' := (update_envelope k a op sec salt).2 in
  st_lookup k' (envelope_entry a) = Some new -> length new <= Z.to_nat MAX_ENVELOPE_SEALED_BYTES ->
  length (password_kept op sec) <= Z.to_nat MAX_TOKEN_BYTES ->
  (open_envelope k' a v sec').2 = password_kept op sec.
Proof.
  intros Hrc Hv Hans k' Hnew Hlen Hmax. subst k'.
  destruct (update_cases k a op sec salt) as [[? _]|(sealed & summary & p & new1 & _ & Hp & Hl & Hn & Hc & _)]; [done|].
  pose proof (commit_written _ _ _ _ _ Hl Hc) as W. assert (new1 = new) as -> by (rewrite (written_stored _ _ _ _ W) in Hnew; congruence).
  destruct (changed_seals _ _ _ _ Hn) as (input & out & Ht & Hd & Hne).
  pose proof (prepare_way _ _ _ _ _ Hp) as Hway. rewrite Hv in Hway. destruct Hway as (key & Ew & Hkey).
  pose proof (proj1 (proj2 (commit_inr _ _ _ _ _ Hc)) _ _ _ Ew) as Hopen.
  unfold open_envelope. rewrite (load_written _ _ _ _ W Hne Hlen). cbn [script_bind].
  destruct (written_account _ _ _ _ W) as (listed & Hi & _). rewrite Hi. cbn [snd].
  assert (unlock_tool [] [u "inspect"] out = (0%Z, listed)) as Hlist.
  { unfold inspect, pipe in Hi. rewrite Hd in Hi. destruct (unlock_tool [] [u "inspect"] out) as [c o]. by destruct (Z.eqb_spec c 0); simplify_eq. }
  assert (forall path, kdf_path v = Some path -> split_char 32 (command_text (summary_params path (command_text listed))) = new_words salt) as Hpar.
  { intros path Hpath. destruct (prepare_flags _ _ _ _ _ _ _ Hp Hv Hpath) as (? & ? & ? & ? & ?). by apply (tool_lists _ _ _ _ path listed salt _ _ _ Ht). }
  assert (open_key (command_text listed) v sec' = inr (key_env key)) as ->.
  { destruct op; cbn in Hv, Hans, Hkey |- *; simplify_eq; cbn [open_key]; rewrite ?(wrap_key_new _ _ salt _ (Hpar _ eq_refl)), ?Hans, ?Hkey; done. }
  unfold opener in Hopen. cbn [script_bind]. destruct (pipe _ _ new) as [c o]. cbn [snd] in *. by rewrite Hopen, take_ge.
Qed.

(** C14. Turning a method off reaches every account. When the command exits 0, each of
    its accounts has no envelope or one without the method (for the fingerprint:
    or a whole envelope that was cleared); whatever it exits with, entries of
    accounts not named, and entries for other purposes, read as before. *)
Theorem purge_complete k slots m :
  let list := map JStr (purge_slots slots) in
  let r := quick_unlock_purge k list m in
  (r.1 = 0%Z -> forall slot, slot ∈ purge_slots slots -> purged r.2 (JStr slot) m) /\ same_but m list k r.2.
Proof.
  cbn zeta. destruct (purge_slots_ok slots) as [Hn Hv]. split; [|apply purge_fold].
  intros Hrc slot Hs. apply purge_fold_purged; [|by apply list_elem_of_fmap_2|by left|done].
  assert (map accountSlot (map JStr (purge_slots slots)) = purge_slots slots) as ->; [|done].
  clear Hn Hs Hrc. induction Hv as [|x l Hx _ IH]; [done|]. cbn [map]. by rewrite IH, accountSlot_id.
Qed.

(** Seventeen rounds are enough. If no envelope holds more than sixteen wraps of a
    method and each removal that is stored leaves fewer of them, the loop ends in
    a round of its own, never by running out of rounds. *)
Theorem purge_terminates slot m (wraps : keyring -> nat) k :
  (forall k1 k2, purge_round k1 slot m = inr k2 -> wraps k2 < wraps k1) -> wraps k <= 16 ->
  exists k0 r, purge_round k0 slot m = inl r /\ envelope_method_purge k slot m = r.
Proof.
  intros Hless Hmax. unfold envelope_method_purge. assert (wraps k < MAX_PURGE_ROUNDS) as Hk by (unfold MAX_PURGE_ROUNDS; lia).
  revert Hk. generalize MAX_PURGE_ROUNDS. clear Hmax. intros n. revert k; induction n as [|n IH]; intros k Hk; [lia|].
  cbn [purge_rounds]. destruct (purge_round k slot m) as [r|k'] eqn:E; [eauto|]. apply IH. specialize (Hless _ _ E). lia.
Qed.
End Theorems.

Section Migration.
Context `{s : SecretService} `{!SecretServiceLaws s} `{T : Unlock}.

(** C7. No legacy password is deleted before its envelope is proven. When the
    migration of a legacy entry exits with an error, the entry reads as before.
    When it exits 0, the account's envelope is stored on one line, decrypts to
    this account's and gives exactly the legacy password through the new way in. *)
Theorem legacy_migration_safe k a legacy op v fromKeyring sec salt1 salt2 :
  legacy ∈ KEYRING_ALL_ACCOUNTS -> legacy <> KEYRING_ENVELOPE -> way_written op = Some v ->
  let entry := keyringEntryName legacy (account_slot a) in
  let r := migrate_legacy k a legacy op fromKeyring sec salt1 salt2 in
  (r.1 <> 0%Z -> st_lookup r.2 entry = st_lookup k entry)
  /\ (r.1 = 0%Z -> exists sec' k1 new key, migration_secrets k entry fromKeyring sec = Some sec'
       /\ written k1 (update_envelope k1 a op sec' salt2).2 a new /\ st_lookup r.2 (envelope_entry a) = Some new
       /\ (opener v key new).2 = password_kept op sec').
Proof.
  intros Hb Hne Hv entry r. assert (entry <> envelope_entry a) as Hd
    by (apply entries_differ; [done|apply envelope_base|by left]).
  subst r. unfold migrate_legacy. fold entry. destruct (migration_secrets k entry fromKeyring sec) as [sec'|]; [|done].
  match goal with |- context [match ?x with (c1, k1) => if negb (c1 =? 0)%Z then _ else _ end] => destruct x as [c1 k1] eqn:E1 end.
  assert (st_lookup k1 entry = st_lookup k entry) as Hk1.
  { destruct (_ =? 0)%Z; [by simplify_eq|]. destruct (existsb _ _); [|destruct (_ =? 3)%Z; by simplify_eq].
    destruct (create_cases k a sec' salt1) as [[_ Hk]|(key & new & _ & Hl & Hc & _)]; rewrite E1 in *; cbn [snd] in *; [by subst|].
    by apply (written_frame _ _ _ _ (commit_written _ _ _ _ _ Hl Hc)). }
  destruct (Z.eqb_spec c1 0) as [-> |]; cbn [negb fst snd]; [|done].
  destruct (update_cases k1 a op sec' salt2) as [[Hrc Hk]|(sealed & summary & p & new & _ & Hp & Hl & _ & Hc & Hrc)];
    destruct (update_envelope k1 a op sec' salt2) as [c2 k2] eqn:E2; cbn [fst snd] in *.
  - subst k2. rewrite (proj2 (Z.eqb_neq _ _) Hrc). by cbn.
  - subst c2. cbn. split; [done|]. intros _. apply prepare_way in Hp. rewrite Hv in Hp. destruct Hp as (key & Ew & _).
    pose proof (commit_written _ _ _ _ _ Hl Hc) as W. exists sec', k1, new, key. rewrite E2. split_and!; try done.
    + rewrite st_lookup_clear_other by done. by apply W.
    + by eapply (proj1 (proj2 (commit_inr _ _ _ _ _ Hc))).
Qed.

(** C16. A FIDO2 unlock of a legacy entry always gives the password or an error before
    it touches anything. Once the key has answered, the command exits 0 with what
    the new envelope gave, or exits 40 having printed the legacy password last;
    before that, nothing is printed and the keyring is as it was. *)
Theorem fido_legacy_never_locks_out k a key sec hash fresh salt1 salt2 :
  let r := fido_legacy_unlock k a key sec hash fresh salt1 salt2 in
  let entry := keyringEntryName KEYRING_FIDO (account_slot a) in
  (r.1.1 = 0%Z /\ exists sec', migration_secrets k entry true sec = Some sec' /\ exists h, fido_secret key hash fresh = inr h
     /\ open_envelope r.2 a (ViaFido (fk_cred key)) (with_hmac sec' h fresh) = (0%Z, r.1.2))
  \/ (r.1.1 = FIDO_legacyUsed /\ exists sec' printed, migration_secrets k entry true sec = Some sec' /\ r.1.2 = printed ++ secret sec')
  \/ (r.1.2 = [] /\ r.2 = k /\ (migration_secrets k entry true sec = None \/ exists c, fido_secret key hash fresh = inl c)).
Proof.
  cbn zeta. unfold fido_legacy_unlock, migration_secrets. set (entry := keyringEntryName KEYRING_FIDO (account_slot a)).
  generalize (command_text (match st_lookup k entry with Some p => take (Z.to_nat MAX_TOKEN_BYTES) p | None => [] end)). intros password.
  destruct (str_eqb password []); [right; right; by auto|]. destruct (fido_secret key hash fresh) as [c|h]; [right; right; eauto|].
  destruct (migrate_legacy _ _ _ _ _ _ _ _) as [rc k']. destruct (if (rc =? 0)%Z then _ else _) as [opened printed] eqn:Eo.
  destruct (Z.eqb_spec opened 0) as [-> |]; cbn [fst snd].
  - left. split; [done|]. eexists. split; [done|]. exists h. split; [done|]. destruct (rc =? 0)%Z; [|done]. exact Eo.
  - right. left. split; [done|]. eexists _, printed. split; [done|]. done.
Qed.
End Migration.

(** *** Joining envelopes stored with line breaks *)

(** The value an entry serves when it holds a line break. *)
Definition broken_value `{SecretService} (k : keyring) (entry : jstr) : option jstr :=
  if st_fails k entry then None
  else match st_lookup k entry with
  | None => None
  | Some stored =>
    let v := command_text (take (Z.to_nat MAX_ENVELOPE_SEALED_BYTES) stored) in
    if existsb is_break v then Some v else None
  end.

Definition failed_line (entry : jstr) : jstr := u "rejoin_failed=" ++ entry.

Section Repair.
Context `{s : SecretService} `{!SecretServiceLaws s} `{T : Unlock}.

Lemma rejoin_entry_cases n printed k entry :
  match broken_value k entry with
  | None => rejoin_entry (n, printed, k) entry = (n, printed, k)
  | Some v =>
    rejoin_entry (n, printed, k) entry = (n, printed ++ [failed_line entry], k)
    \/ (creds_decrypt (join_lines v)).1 = 0%Z /\ exists k', st_store k entry (join_lines v) = Some k'
       /\ rejoin_entry (n, printed, k) entry = (S n, printed, k')
  end.
Proof.
  unfold rejoin_entry, broken_value. destruct (st_fails k entry); [done|]. destruct (st_lookup k entry) as [stored|]; [|done].
  cbn zeta. generalize (command_text (take (Z.to_nat MAX_ENVELOPE_SEALED_BYTES) stored)). intros v.
  destruct (existsb is_break v); cbn [negb]; [|done]. destruct (Z.eqb_spec (creds_decrypt (join_lines v)).1 0) as [E|]; [|by left].
  destruct (st_store k entry (join_lines v)) as [k'|] eqn:Es; [|by left]. right. eauto.
Qed.

(** What the loop did to an entry that held a line break: joined it, or listed it. *)
Definition rejoin_outcome (k k' : keyring) (failed : list jstr) (entry : jstr) : Prop :=
  match broken_value k entry with
  | None => st_lookup k' entry = st_lookup k entry /\ entry ∉ failed
  | Some v => (entry ∈ failed /\ st_lookup k' entry = st_lookup k entry)
              \/ (entry ∉ failed /\ st_lookup k' entry = Some (join_lines v) /\ (creds_decrypt (join_lines v)).1 = 0%Z)
  end.

Lemma broken_value_frame k k' entry : st_lookup k' entry = st_lookup k entry -> st_fails k' entry = st_fails k entry ->
  broken_value k' entry = broken_value k entry.
Proof. intros El Ef. unfold broken_value. by rewrite El, Ef. Qed.

Lemma rejoin_fold names n printed k : NoDup names ->
  exists joined failed k', fold_left rejoin_entry names (n, printed, k) = (n + joined, printed ++ map failed_line failed, k')
    /\ failed ⊆ names /\ joined + length failed = length (omap (broken_value k) names)
    /\ Forall (rejoin_outcome k k' failed) names
    /\ forall name, name ∉ names -> st_lookup k' name = st_lookup k name /\ st_fails k' name = st_fails k name.
Proof.
  intros Hn. revert n printed k; induction Hn as [|e names He _ IH]; intros n printed k; cbn [fold_left].
  { exists 0, [], k. rewrite app_nil_r, Nat.add_0_r. split_and!; try done. }
  (* the rest of the loop from the keyring this step leaves *)
  assert (forall n1 printed1 k1, (forall name, name <> e -> st_lookup k1 name = st_lookup k name /\ st_fails k1 name = st_fails k name) ->
    exists joined failed k', fold_left rejoin_entry names (n1, printed1, k1) = (n1 + joined, printed1 ++ map failed_line failed, k')
    /\ failed ⊆ names /\ joined + length failed = length (omap (broken_value k) names)
    /\ Forall (fun x => forall more, x ∉ more -> rejoin_outcome k k' (more ++ failed) x) names
    /\ (forall name, name ∉ names -> st_lookup k' name = st_lookup k1 name /\ st_fails k' name = st_fails k1 name)) as R.
  { intros n1 printed1 k1 F. destruct (IH n1 printed1 k1) as (joined & failed & k' & Ef & Hsub & Hlen & Hall & Fr).
    assert (forall x, x ∈ names -> x <> e) as Hx by (intros x Hx ->; done).
    assert (forall x, x ∈ names -> broken_value k1 x = broken_value k x) as Hb by (intros x H%Hx; by apply broken_value_frame; apply F).
    exists joined, failed, k'. split_and!; try done.
    - rewrite Hlen. f_equal. clear -Hb. induction names as [|x l IHl]; [done|]. cbn. rewrite Hb by by left. rewrite IHl; [done|].
      intros y Hy. apply Hb. by right.
    - rewrite Forall_forall in *. intros x Hin more Hm. specialize (Hall x Hin). unfold rejoin_outcome in *.
      rewrite <- (Hb x Hin). destruct (F x (Hx x Hin)) as [<- _]. destruct (broken_value k1 x); rewrite elem_of_app; intuition. }
  pose proof (rejoin_entry_cases n printed k e) as C. destruct (broken_value k e) as [v|] eqn:Eb; [destruct C as [C|(Hd & k1 & Hst & C)]|].
  - rewrite C. destruct (R n (printed ++ [failed_line e]) k) as (joined & failed & k' & Ef & Hsub & Hlen & Hall & Fr); [done|].
    exists joined, (e :: failed), k'. rewrite Ef, <- app_assoc. split_and!; try done.
    + intros x [-> |Hx]%elem_of_cons; [by left|right; auto].
    + cbn. rewrite Eb. cbn. lia.
    + constructor; [unfold rejoin_outcome; rewrite Eb; left; split; [by left|by apply Fr]|].
      rewrite Forall_forall in *. intros x Hx. apply (Hall x Hx [e]). intros ->%list_elem_of_singleton. done.
    + intros name [H1 H2]%not_elem_of_cons. by apply Fr.
  - rewrite C. assert (forall name, name <> e -> st_lookup k1 name = st_lookup k name /\ st_fails k1 name = st_fails k name) as F
      by (intros name Hne; split; [eapply st_lookup_store_other|eapply st_fails_store_other]; eauto).
    destruct (R (S n) printed k1 F) as (joined & failed & k' & Ef & Hsub & Hlen & Hall & Fr).
    exists (S joined), failed, k'. rewrite Ef, Nat.add_succ_r. split_and!; try done.
    + intros x Hx. right. auto.
    + cbn. rewrite Eb. cbn. lia.
    + constructor; [unfold rejoin_outcome; rewrite Eb; right; split; [by intros H%Hsub|]; split; [|done]|].
      { rewrite (proj1 (Fr e He)). by eapply st_lookup_store. }
      rewrite Forall_forall in *. intros x Hx. apply (Hall x Hx []). apply not_elem_of_nil.
    + intros name [H1 H2]%not_elem_of_cons. destruct (Fr name H2) as [-> ->]. by apply F.
  - rewrite C. destruct (R n printed k) as (joined & failed & k' & Ef & Hsub & Hlen & Hall & Fr); [done|].
    exists joined, failed, k'. rewrite Ef. split_and!; try done.
    + intros x Hx. right. auto.
    + cbn. by rewrite Eb.
    + constructor; [unfold rejoin_outcome; rewrite Eb; split; [by apply Fr|by intros H%Hsub]|].
      rewrite Forall_forall in *. intros x Hx. apply (Hall x Hx []). apply not_elem_of_nil.
    + intros name [H1 H2]%not_elem_of_cons. by apply Fr.
Qed.
End Repair.

(** *** Reading the repair's report *)

Lemma keep_no_line_end name : forallb (fun c => negb (is_line_end c)) name = true -> existsb is_line_end name = false /\ drop_cr name = name.
Proof.
  intros H. split.
  - apply existsb_false. intros c Hc. rewrite forallb_forall in H. specialize (H c ltac:(by apply list_elem_of_In)). by apply negb_true_iff.
  - unfold drop_cr. destruct (last name) as [c|] eqn:E; [|done]. rewrite forallb_forall in H.
    specialize (H c ltac:(by apply list_elem_of_In, last_Some_elem_of)). destruct (N.eqb_spec c 13) as [-> |Hne]; [by vm_compute in H|].
    destruct c as [|p]; [done|]. repeat (destruct p as [p|p|]; try done).
Qed.

Lemma split_lines lines rest : Forall (fun l => 10%N ∉ l) lines ->
  split_char 10 (concat (map (fun l => l ++ newline) lines) ++ rest) = lines ++ split_char 10 rest.
Proof.
  induction 1 as [|l lines Hl _ IH]; [done|]. cbn [map concat app]. unfold newline at 1. rewrite <- !app_assoc. cbn [app].
  rewrite split_char_line, IH. cbn [app]. unfold split_char. rewrite split_on_none; [done|].
  apply forallb_forall. intros c Hc%list_elem_of_In. apply negb_true_iff, N.eqb_neq. congruence.
Qed.

Definition no_line_end (l : jstr) : bool := forallb (fun c => negb (is_line_end c)) l.

Lemma no_line_end_app a b : no_line_end (a ++ b) = no_line_end a && no_line_end b.
Proof. apply forallb_app. Qed.

Lemma repair_value_own key v : no_line_end v = true -> repair_value key (u key ++ u "=" ++ v) = Some v.
Proof.
  intros H. unfold repair_value. rewrite (app_assoc (u key)), starts_with_app, drop_app_length. by rewrite (proj1 (keep_no_line_end _ H)).
Qed.

Lemma repair_line_failed st e : no_line_end e = true ->
  repair_line st (failed_line e) = mkRepair (rejoined st) (rejoinFailed st ++ [e]) (repair_file st).
Proof.
  intros H. unfold repair_line, failed_line. change (u "rejoin_failed=" ++ e) with (u "rejoin_failed" ++ u "=" ++ e).
  rewrite (proj2 (keep_no_line_end (u "rejoin_failed" ++ u "=" ++ e) ltac:(by rewrite !no_line_end_app, H))).
  rewrite repair_value_own by done. assert (repair_value "rejoined" (u "rejoin_failed" ++ u "=" ++ e) = None) as -> by reflexivity. done.
Qed.

Lemma repair_lines_failed failed st : Forall (fun e => no_line_end e = true) failed ->
  fold_left repair_line (map failed_line failed) st = mkRepair (rejoined st) (rejoinFailed st ++ failed) (repair_file st).
Proof.
  intros H. revert st; induction H as [|e failed He _ IH]; intros st; cbn [map fold_left]; [by destruct st; rewrite app_nil_r|].
  rewrite repair_line_failed, IH by done. cbn [rejoined rejoinFailed repair_file]. by rewrite <- app_assoc.
Qed.

Lemma digits_no_line_end l : forallb is_digit l = true -> no_line_end l = true.
Proof.
  apply forallb_impl. intros c Hc. apply negb_true_iff. unfold is_line_end, is_digit, in_range in *. bool_hyps.
  rewrite !orb_false_iff, !N.eqb_neq. lia.
Qed.

Lemma parse_int_dec n : parse_int_or_zero (dec n) = numz (Z.of_N n).
Proof.
  unfold parse_int_or_zero. pose proof (dec_digits n) as D. pose proof (value_of_dec n) as V. revert D V.
  assert (dec n <> []) as Hne by apply dec_nonempty. revert Hne. generalize (dec n). intros [|c t] Hne D V; [done|].
  assert (is_digit c = true) as Hc by (cbn in D; by apply andb_true_iff in D as [? _]).
  assert (trim_start (c :: t) = c :: t) as -> by (cbn [trim_start]; pose proof (digit_not_space _ Hc) as Hs; apply negb_true_iff in Hs; by rewrite Hs).
  assert (span is_digit (c :: t) = (c :: t, [])) as Es by (rewrite <- (app_nil_r (c :: t)) at 1; by apply span_app).
  unfold is_digit, in_range in Hc. bool_hyps.
  assert (c <> 43%N /\ c <> 45%N) as [H43 H45] by lia.
  assert ((match c :: t with 43%N :: r => (false, r) | 45%N :: r => (true, r) | _ => (false, c :: t) end) = (false, c :: t)) as ->.
  { destruct c as [|p]; [done|]. repeat (destruct p as [p|p|]; try done). }
  rewrite Es. cbn [fst]. by rewrite V.
Qed.

Lemma repair_line_rejoined st n : repair_line st (u "rejoined=" ++ dec_nat n) = mkRepair (numz (Z.of_nat n)) (rejoinFailed st) (repair_file st).
Proof.
  unfold repair_line. change (u "rejoined=" ++ dec_nat n) with (u "rejoined" ++ u "=" ++ dec_nat n).
  assert (no_line_end (dec_nat n) = true) as D by apply digits_no_line_end, dec_digits.
  rewrite (proj2 (keep_no_line_end (u "rejoined" ++ u "=" ++ dec_nat n) ltac:(by rewrite !no_line_end_app, D))).
  rewrite repair_value_own by done. unfold dec_nat. rewrite parse_int_dec, num_max_int. repeat f_equal. lia.
Qed.

Lemma repair_line_file st status : status ∈ [u "skipped"; u "clean"; u "repaired"; u "failed"] ->
  fold_left repair_line (split_char 10 (u "file=" ++ status ++ newline)) st = mkRepair (rejoined st) (rejoinFailed st) status.
Proof. destruct st as [a b c]. rewrite !elem_of_cons, elem_of_nil. intros [-> |[-> |[-> |[-> |[]]]]]; reflexivity. Qed.

Lemma slot_no_line_end x : isAccountSlot x = true -> no_line_end x = true.
Proof.
  unfold isAccountSlot, ACCOUNT_SLOT_RE. intros [->%str_eqb_eq|[_ H]%andb_true_iff]%orb_true_iff; [by vm_compute|].
  revert H. apply forallb_impl. intros c Hc. apply negb_true_iff. unfold is_line_end, is_hex_lower, is_digit, in_range in *.
  rewrite !orb_false_iff, !N.eqb_neq. apply orb_true_iff in Hc as [Hc|Hc]; bool_hyps; lia.
Qed.

Lemma entry_no_line_end slot : no_line_end (keyringEntryName KEYRING_ENVELOPE slot) = true.
Proof.
  unfold keyringEntryName. destruct (str_eqb _ _); [by vm_compute|]. rewrite !no_line_end_app.
  by rewrite (slot_no_line_end _ (accountSlot_valid slot)).
Qed.

Lemma repair_names_ok v : NoDup (repair_names v) /\ Forall (fun e => no_line_end e = true) (repair_names v).
Proof.
  unfold repair_names. match goal with |- context [fold_left ?f _ []] => set (g := f) end.
  assert (forall vs l, NoDup l /\ Forall (fun e => no_line_end e = true) l ->
    NoDup (fold_left g vs l) /\ Forall (fun e => no_line_end e = true) (fold_left g vs l)) as G.
  { induction vs as [|x vs IH]; intros l Hl; [done|]. cbn [fold_left]. apply IH. unfold g. cbn zeta. split_ifs; try done. destruct Hl as [Hn Hf]. split.
    - apply NoDup_app. split; [done|]. split; [|apply NoDup_singleton]. intros y Hy ->%list_elem_of_singleton.
      match goal with H : existsb _ _ = false |- _ => rewrite existsb_false in H; specialize (H _ Hy) end. by rewrite str_eqb_refl in *.
    - apply Forall_app. split; [done|]. constructor; [|constructor]. apply entry_no_line_end. }
  apply G. split; constructor.
Qed.

Lemma text_or_empty_str x : text_or_empty (JStr x) = x.
Proof. by destruct x. Qed.

Section Report.
Context `{s : SecretService} `{!SecretServiceLaws s} `{T : Unlock}.

(** The start-up repair joins what it can and reports the rest. Every envelope
    that held a line break is stored again as its bytes without line breaks,
    after those were seen to decrypt, or keeps its value and is named in the
    report; every other entry is untouched. What the panel reads from the
    report is the number of envelopes joined, the entries that failed and the
    status of the keyring file. *)
Theorem repair_reported k slots status :
  (repair_file_script []).2 = u "file=" ++ status ++ newline -> status ∈ [u "skipped"; u "clean"; u "repaired"; u "failed"] ->
  let names := repair_names slots in
  let '(output, k') := repair_keyring k names in
  let report := parseKeyringRepair (JStr output) in
  Forall (rejoin_outcome k k' (rejoinFailed report)) names
  /\ rejoinFailed report ⊆ names
  /\ rejoined report = numz (Z.of_nat (length (omap (broken_value k) names)) - Z.of_nat (length (rejoinFailed report)))
  /\ repair_file report = status
  /\ (forall name, name ∉ names -> st_lookup k' name = st_lookup k name).
Proof.
  intros Hfile Hst names. destruct (repair_names_ok slots) as [Hn Hl]. fold names in Hn, Hl. unfold repair_keyring.
  destruct (rejoin_fold names 0 [] k Hn) as (n & failed & k' & -> & Hsub & Hlen & Hall & Fr).
  cbn [app Nat.add]. rewrite Hfile. unfold parseKeyringRepair.
  assert (Forall (fun e => no_line_end e = true) failed) as Hf by (rewrite Forall_forall in *; auto).
  assert (forall l, no_line_end l = true -> 10%N ∉ l) as H10.
  { unfold no_line_end. intros l H Hin%list_elem_of_In. rewrite forallb_forall in H. by specialize (H _ Hin). }
  assert (Forall (fun l => 10%N ∉ l) (map failed_line failed ++ [u "rejoined=" ++ dec_nat n])) as H10s.
  { apply Forall_app. split; [|constructor; [|constructor]].
    - apply Forall_fmap. eapply Forall_impl; [exact Hf|]. intros e He. apply H10. cbn. unfold failed_line. by rewrite no_line_end_app, He.
    - apply H10. rewrite no_line_end_app. unfold dec_nat. by rewrite (digits_no_line_end _ (dec_digits _)). }
  rewrite text_or_empty_str, split_lines, !fold_left_app, repair_lines_failed by done. cbn [fold_left]. rewrite repair_line_rejoined, repair_line_file by done.
  cbn [rejoined rejoinFailed repair_file app]. split_and!; try done; [by f_equal; lia|]. intros name Hne. by apply Fr.
Qed.
End Report.

(** *** A reference tool, and witnesses

    Envelopes in the clear: account, password, and for each wrap its key and
    its Argon2 parameters, with unit separators between them. *)

Record clear_wrap := mkWrap { cw_key : jstr; cw_words : jstr }.
Record clear_envelope := mkClear { ce_id : jstr; ce_server : jstr; ce_password : jstr; ce_master : clear_wrap; ce_pin : clear_wrap }.

Definition no_wrap : clear_wrap := mkWrap [] [].

Definition clear_fields (e : clear_envelope) : list jstr :=
  [ce_id e; ce_server e; ce_password e; cw_key (ce_master e); cw_words (ce_master e); cw_key (ce_pin e); cw_words (ce_pin e); u "end"].
Definition write_envelope (e : clear_envelope) : Z * jstr :=
  if existsb (existsb (N.eqb 31)) (clear_fields e) then (5%Z, []) else (0%Z, join [31%N] (clear_fields e)).
Definition read_envelope (x : jstr) : option clear_envelope :=
  match split_char 31 x with [a; b; c; d; e; f; g; _] => Some (mkClear a b c (mkWrap d e) (mkWrap f g)) | _ => None end.

Definition env_value (env : list (jstr * jstr)) (name : string) : jstr :=
  match find_first (fun e => str_eqb (fst e) (u name)) env with Some e => snd e | None => [] end.

(** The key of a way, or none. *)
Definition clear_key (e : clear_envelope) (via : jstr) : jstr :=
  if str_eqb via (u "master") then cw_key (ce_master e) else if str_eqb via (u "pin") then cw_key (ce_pin e) else [].

(** The parameters of the flags; none when one is missing or is not a word. *)
Definition is_word (w : jstr) : bool := forallb (fun c => 32 <? c)%N w.
Definition clear_words (flags : list jstr) : option jstr :=
  match flag "salt" flags, flag "m" flags, flag "t" flags, flag "p" flags with
  | Some s, Some m, Some t, Some p => if forallb is_word [s; t; m; p] then Some (join [32%N] [s; t; m; p]) else None
  | _, _, _, _ => None
  end.
Definition with_words (flags : list jstr) (change : jstr -> clear_envelope) : Z * jstr :=
  match clear_words flags with Some w => write_envelope (change w) | None => (2%Z, []) end.

Definition clear_tool (env : list (jstr * jstr)) (args : list jstr) (input : jstr) : Z * jstr :=
  let key := env_value env "QSBW_UNLOCK_KEY" in
  let new := mkWrap (env_value env "QSBW_UNLOCK_NEW_KEY") in
  let password := env_value env "QSBW_UNLOCK_PASSWORD" in
  let verb := nth 0 args [] in
  let flags := drop 1 args in
  if str_eqb verb (u "create") then
    with_words flags (fun w => mkClear (u "user") (u "https://vault.bitwarden.com") password (new w) no_wrap)
  else match read_envelope input with
  | None => (4%Z, [])
  | Some e =>
    let auth := str_eqb (clear_key e (default [] (flag "auth" flags))) key in
    if str_eqb verb (u "inspect") then (0%Z, input)
    else if str_eqb verb (u "open") then
      let k := clear_key e (default [] (flag "via" flags)) in
      if str_eqb k [] then (7%Z, []) else if str_eqb k key then (0%Z, ce_password e) else (3%Z, [])
    else if str_eqb verb (u "add") then
      if auth && bool_decide (flag "method" flags = Some (u "pin"))
      then with_words flags (fun w => mkClear (ce_id e) (ce_server e) (ce_password e) (ce_master e) (new w))
      else (3%Z, [])
    else if str_eqb verb (u "rotate") then
      if auth then with_words flags (fun w => mkClear (ce_id e) (ce_server e) password (new w) (ce_pin e)) else (3%Z, [])
    else if str_eqb verb (u "remove") then write_envelope (mkClear (ce_id e) (ce_server e) (ce_password e) (ce_master e) no_wrap)
    else (8%Z, [])
  end.

Definition clear_field (f : clear_envelope -> jstr) (summary : jstr) : jstr :=
  match read_envelope summary with Some e => f e | None => [] end.

#[export] Instance clear_unlock : Unlock := {|
  creds_decrypt x := (0%Z, x);
  creds_encrypt x := if existsb is_break x || str_eqb x [] then (1%Z, []) else (0%Z, x);
  unlock_tool := clear_tool;
  argon2 words key := (0%Z, u "k" ++ join [32%N] (key :: words) ++ newline);
  summary_params path summary :=
    clear_field (fun e => cw_words (if str_eqb path (u ".master") then ce_master e else ce_pin e)) summary ++ newline;
  summary_account summary := (fun e => (ce_id e, ce_server e)) <$> read_envelope summary;
  summary_id := clear_field ce_id;
  summary_server := clear_field ce_server;
  summary_has m summary := Some (match m with MethodPin => negb (str_eqb (clear_field (fun e => cw_key (ce_pin e)) summary) []) | _ => false end);
  summary_first_cred summary := [];
  fido2_assert device input := (1%Z, []);
  repair_file_script input := (0%Z, u "file=clean" ++ newline)
|}.

Lemma read_write e out : write_envelope e = (0%Z, out) -> read_envelope out = Some e /\ command_text out = out.
Proof.
  unfold write_envelope. destruct (existsb _ (clear_fields e)) eqn:E; [done|]. intros H.
  assert (out = join [31%N] (clear_fields e)) as -> by congruence. split.
  - unfold read_envelope. rewrite split_char_join; [by destruct e as [? ? ? [] []]|done|].
    apply Forall_forall. intros w Hw H31. rewrite existsb_false in E. specialize (E w Hw).
    rewrite existsb_false in E. by specialize (E 31%N H31).
  - apply command_text_id. intros t. unfold clear_fields. do 7 (rewrite join_cons by done). cbn [join]. rewrite !app_assoc.
    intros [=E1]%(f_equal last). by rewrite !last_app in E1.
Qed.

Lemma command_text_line w : one_line w -> command_text (w ++ newline) = w.
Proof.
  intros H. unfold command_text. induction H as [|c w Hc _ IH]; [done|]. cbn [app strip_end]. rewrite IH.
  destruct w; [|done]. unfold is_break in Hc. apply orb_false_iff in Hc as [Hc _]. by rewrite N.eqb_sym, Hc.
Qed.

Lemma Forall_join (P : N -> Prop) sep l : Forall P sep -> Forall (Forall P) l -> Forall P (join sep l).
Proof.
  intros Hs. induction 1 as [|x l Hx Hl IH]; [constructor|]. destruct l as [|y l]; [done|]. rewrite join_cons by done. by rewrite !Forall_app.
Qed.

Lemma is_word_units w c : is_word w = true -> c ∈ w -> (32 < c)%N.
Proof. unfold is_word. intros H Hc%list_elem_of_In. rewrite forallb_forall in H. by apply N.ltb_lt, H. Qed.

Lemma clear_words_read flags w salt m t p : clear_words flags = Some w ->
  flag "salt" flags = Some salt -> flag "m" flags = Some m -> flag "t" flags = Some t -> flag "p" flags = Some p ->
  split_char 32 (command_text (w ++ newline)) = [salt; t; m; p].
Proof.
  unfold clear_words. intros Hw Hs Hm Ht Hp. rewrite Hs, Hm, Ht, Hp in Hw. destruct (forallb is_word _) eqn:E; [|done].
  assert (w = join [32%N] [salt; t; m; p]) as -> by congruence. clear Hw.
  assert (forall x, x ∈ [salt; t; m; p] -> is_word x = true) as W by (intros x Hx%list_elem_of_In; rewrite forallb_forall in E; auto).
  rewrite command_text_line, split_char_join; [done|done| |].
  - apply Forall_forall. intros x Hx%W H32. pose proof (is_word_units _ _ Hx H32). lia.
  - apply Forall_forall. intros c Hc. unfold is_break. apply orb_false_iff. rewrite !N.eqb_neq.
    assert (32 <= c)%N; [|lia]. revert c Hc. apply Forall_forall, Forall_join; [by repeat constructor|]. apply Forall_forall.
    intros x Hx%W. apply Forall_forall. intros c Hc%(is_word_units _ _ Hx). lia.
Qed.

(** Comparisons of two literals. *)
Ltac eval_verbs := repeat match goal with |- context [str_eqb (u ?a) (u ?b)] =>
  let r := eval vm_compute in (str_eqb (u a) (u b)) in replace (str_eqb (u a) (u b)) with r by by vm_compute end; cbn [orb andb].

(** What a command that names a wrap prints is an envelope with the parameters of its flags in that wrap. *)
Lemma clear_tool_words env args input out path : clear_tool env args input = (0%Z, out) -> kdf_wrap args = Some path ->
  exists e w, write_envelope e = (0%Z, out) /\ clear_words (drop 1 args) = Some w
    /\ cw_words (if str_eqb path (u ".master") then ce_master e else ce_pin e) = w.
Proof.
  assert (forall flags change, with_words flags change = (0%Z, out) -> exists w, clear_words flags = Some w /\ write_envelope (change w) = (0%Z, out)) as Hw.
  { intros flags change. unfold with_words. destruct (clear_words flags); [eauto|done]. }
  unfold clear_tool, kdf_wrap. generalize (nth 0 args []), (drop 1 args). intros verb flags H. revert H.
  destruct (str_eqb verb (u "create")) eqn:Ec; cbn [orb].
  { intros (w & ? & ?)%Hw [= <-]. eauto. }
  destruct (read_envelope input) as [e|]; [|done]. destruct (str_eqb verb (u "rotate")) eqn:Er; cbn [orb].
  { apply str_eqb_eq in Er as ->. eval_verbs. destruct (str_eqb (clear_key _ _) _); [|done]. intros (w & ? & ?)%Hw [= <-]. eauto. }
  destruct (str_eqb verb (u "add")) eqn:Ea; cbn [andb]; [|done]. apply str_eqb_eq in Ea as ->.
  eval_verbs.
  destruct (bool_decide (flag "method" flags = Some (u "pin"))); [|done]. rewrite andb_true_r. destruct (str_eqb (clear_key _ _) _); [|done].
  intros (w & ? & ?)%Hw [= <-]. eauto.
Qed.

#[export] Instance clear_unlock_laws : UnlockLaws (T := clear_unlock).
Proof.
  split.
  - intros x o. cbn. destruct (existsb is_break x) eqn:Eb; [done|]. destruct (str_eqb x []) eqn:En; [done|]. intros [= <-].
    assert (join_lines x = x) as ->.
    { apply bfilter_all. rewrite existsb_false in Eb. apply Forall_forall. intros b Hb. by rewrite (Eb b Hb). }
    split; [by apply str_eqb_neq|done].
  - intros env args input out path summary salt m t p Ht Hp Hs Hm Htt Hpp. cbn [unlock_tool clear_unlock summary_params] in *.
    destruct (clear_tool_words _ _ _ _ _ Ht Hp) as (e & w & He & Hw & Ew). destruct (read_write _ _ He) as [Hr Hc].
    unfold clear_tool. cbn [nth]. eval_verbs. rewrite Hr. intros [= <-]. rewrite Hc. unfold clear_field. rewrite Hr, Ew. by eapply clear_words_read.
Qed.

Definition ref_account : envelope_account := mkEnvelopeAccount (u "user") (u "https://vault.bitwarden.com") (JStr (u "default")).
Definition ref_secrets : secrets := mkSecrets (u "correct horse") (u "4821") [] [] [].
Definition ref_salt : jstr := u "c2FsdA==".
Definition ref_keyring : list (jstr * jstr) :=
  (create_envelope (H := reference_service) (H0 := clear_unlock) [] ref_account ref_secrets ref_salt).2.
Definition ref_enrolled : list (jstr * jstr) :=
  (update_envelope (H := reference_service) (H0 := clear_unlock) ref_keyring ref_account AddPin ref_secrets ref_salt).2.

Lemma writes_commit_last_witness :
  let r := update_envelope (H := reference_service) (H0 := clear_unlock) ref_keyring ref_account AddPin ref_secrets ref_salt in
  r.1 = 0%Z /\ exists new, st_lookup (SecretService := reference_service) r.2 (envelope_entry ref_account) = Some new.
Proof.
  pose proof (writes_commit_last (s := reference_service) (T := clear_unlock) ref_keyring ref_account AddPin ref_secrets ref_salt) as (_ & H & _).
  cbn zeta. assert ((update_envelope (H := reference_service) (H0 := clear_unlock) ref_keyring ref_account AddPin ref_secrets ref_salt).1 = 0%Z) as E by (by vm_compute).
  split; [exact E|]. destruct (H E) as (new & W & _). exists new. apply W.
Defined.

Lemma enrolled_opens_witness :
  (open_envelope (H := reference_service) (H0 := clear_unlock) ref_enrolled ref_account ViaPin (mkSecrets [] (u "4821") [] [] [])).2 = u "correct horse".
Proof.
  apply (enrolled_opens (s := reference_service) (T := clear_unlock) ref_keyring ref_account AddPin ViaPin ref_secrets
    (mkSecrets [] (u "4821") [] [] []) ref_salt (default [] (entry_of ref_enrolled (envelope_entry ref_account)))).
  5: rewrite <- (Nat2Z.id (length _)); apply Z2Nat.inj_le; [lia|done|]; apply Z.leb_le.
  6: rewrite <- (Nat2Z.id (length _)); apply Z2Nat.inj_le; [lia|done|]; apply Z.leb_le.
  all: by vm_compute.
Defined.

Lemma purge_complete_witness :
  let r := quick_unlock_purge (H := reference_service) (H0 := clear_unlock) ref_enrolled (map JStr (purge_slots (JArr [JStr (u "default")]))) MethodPin in
  r.1 = 0%Z /\ purged (s := reference_service) (T := clear_unlock) r.2 (JStr (u "default")) MethodPin.
Proof.
  cbn zeta. match goal with |- ?a = _ /\ _ => assert (a = 0%Z) as E by (by vm_compute) end. split; [exact E|].
  apply (proj1 (purge_complete (s := reference_service) (T := clear_unlock) ref_enrolled (JArr [JStr (u "default")]) MethodPin) E).
  apply (bool_decide_eq_true_1 (u "default" ∈ purge_slots (JArr [JStr (u "default")]))). by vm_compute.
Defined.

Lemma legacy_migration_safe_witness :
  let k := [(KEYRING_PIN, u "old blob")] in
  let r := migrate_legacy (H := reference_service) (H0 := clear_unlock) k ref_account KEYRING_PIN AddPin false ref_secrets ref_salt ref_salt in
  r.1 = 0%Z /\ exists new, st_lookup (SecretService := reference_service) r.2 (envelope_entry ref_account) = Some new.
Proof.
  intros k r. assert (r.1 = 0%Z) as E by (by vm_compute). split; [exact E|].
  destruct (legacy_migration_safe (s := reference_service) (T := clear_unlock) k ref_account KEYRING_PIN AddPin ViaPin false ref_secrets ref_salt ref_salt)
    as [_ H]; [apply (bool_decide_eq_true_1 (_ ∈ _)); by vm_compute|by vm_compute|done|].
  destruct (H E) as (sec' & k1 & new & key & _ & _ & Hn & _). exists new. exact Hn.
Defined.

Lemma repair_reported_witness :
  let k := [(KEYRING_ENVELOPE, u "sealed" ++ newline ++ u "bytes")] in
  let '(output, k') := repair_keyring (H := reference_service) (H0 := clear_unlock) k (repair_names JUndef) in
  st_lookup (SecretService := reference_service) k' KEYRING_ENVELOPE = Some (u "sealedbytes")
  /\ repair_file (parseKeyringRepair (JStr output)) = u "clean".
Proof.
  intros k. pose proof (repair_reported (s := reference_service) (T := clear_unlock) k JUndef (u "clean") eq_refl) as H.
  cbn zeta in H. destruct (repair_keyring _ _) as [output k'] eqn:E. split.
  - vm_compute in E. by injection E as _ <-.
  - apply H. apply (bool_decide_eq_true_1 (_ ∈ _)). by vm_compute.
Defined.

(** A tool whose envelopes are a byte and one more for each wrap. *)
#[export] Instance counting_unlock : Unlock := {|
  creds_decrypt x := (0%Z, x);
  creds_encrypt x := (0%Z, x);
  unlock_tool env args x := (0%Z, if str_eqb (nth 0 args []) (u "remove") then drop 1 x else x);
  argon2 words key := (0%Z, key);
  summary_params path summary := [];
  summary_account summary := Some ([], []);
  summary_id summary := [];
  summary_server summary := [];
  summary_has m summary := Some (1 <? length summary);
  summary_first_cred summary := u "AA==";
  fido2_assert device input := (1%Z, []);
  repair_file_script input := (1%Z, [])
|}.

Lemma length_strip_end p x : length (strip_end p x) <= length x.
Proof. induction x as [|c t IH]; [done|]. cbn [strip_end]. destruct (strip_end p t); [destruct (p c)|]; cbn [length] in *; lia. Qed.

Definition wraps_of (k : list (jstr * jstr)) : nat := length (default [] (entry_of k (keyringEntryName KEYRING_ENVELOPE (JStr (u "default"))))).

Lemma counting_write k slot sealed summary k2 : let entry := keyringEntryName KEYRING_ENVELOPE slot in
  purge_write (H := reference_service) (H0 := counting_unlock) k slot MethodFido sealed summary = inr k2 ->
  length (default [] (entry_of k2 entry)) <= length sealed - 1.
Proof.
  intros entry (args & Ha & (new & [_ Hn]%capture_inr & Hc)%bind_inr)%bind_inr.
  assert (nth 0 args [] = u "remove") as Hr by (vm_compute in Ha; by injection Ha as <-).
  apply commit_inr in Hc as (_ & _ & Hst). cbn in Hst. injection Hst as <-. unfold entry_of. cbn [find_first fst]. rewrite str_eqb_refl.
  cbn [default snd fmap option_fmap option_map from_option]. rewrite Hn. cbn. rewrite Hr, str_eqb_refl. cbn [snd].
  etrans; [apply length_strip_end|]. etrans; [apply length_bfilter|]. by rewrite length_drop.
Qed.

Lemma counting_decreases k1 k2 :
  purge_round (H := reference_service) (H0 := counting_unlock) k1 (JStr (u "default")) MethodFido = inr k2 -> wraps_of k2 < wraps_of k1.
Proof.
  unfold purge_round, wraps_of. generalize (Z.to_nat MAX_ENVELOPE_SEALED_BYTES). intros most. cbn [st_fails st_lookup reference_service]. cbn zeta.
  set (entry := keyringEntryName KEYRING_ENVELOPE (JStr (u "default"))).
  destruct (entry_of k1 entry) as [stored|] eqn:E; [|done]. cbn [default from_option].
  assert (length (command_text (take most stored)) <= length stored) as L
    by (etrans; [apply length_strip_end|]; rewrite length_take; lia).
  revert L. generalize (command_text (take most stored)). intros sealed L.
  destruct (str_eqb sealed []) eqn:Es; [done|]. apply str_eqb_neq in Es. destruct (capture _ _) as [c|summary]; [done|].
  cbn [summary_has counting_unlock]. destruct (1 <? length summary); [|done].
  pose proof (counting_write k1 (JStr (u "default")) sealed summary k2) as W. cbn zeta in W. fold entry in W.
  destruct (purge_write _ _ _ _ _) as [c|k'] eqn:Ew; [done|]. intros [= <-]. specialize (W eq_refl). destruct sealed; [done|]. cbn [length id] in *. lia.
Qed.

Lemma purge_terminates_witness :
  let k := [(KEYRING_ENVELOPE, u "e123")] in
  (envelope_method_purge (H := reference_service) (H0 := counting_unlock) k (JStr (u "default")) MethodFido).1 = 0%Z
  /\ exists k0 r, purge_round (H := reference_service) (H0 := counting_unlock) k0 (JStr (u "default")) MethodFido = inl r
    /\ envelope_method_purge (H := reference_service) (H0 := counting_unlock) k (JStr (u "default")) MethodFido = r.
Proof.
  intros k. split; [by vm_compute|].
  apply (purge_terminates (s := reference_service) (T := counting_unlock) (JStr (u "default")) MethodFido wraps_of).
  - exact counting_decreases.
  - apply (proj1 (Nat.leb_le _ _)). by vm_compute.
Defined.
