(* ===== verification/Pinentry.v ===== *)
(** * Typed secrets

    The PIN's rules, and the master password and PIN typed into the plugin's own
    pinentry ([src/BitwardenModel.js], "PIN" and "Typed secrets in a pinentry").
    The Assuan client is a shell script: here its text, and what it does, with
    the pinentry as the successive outcomes of the script's reads and the number
    of its writes that succeed. *)

From stdpp Require Import base list numbers strings.
From S2P Require Import Prelude.
From S2P Require Import JsValue.
From S2P Require Import Regex.
From S2P Require Import Shell.
From S2P Require Import Accounts.
From S2P Require Import Runtime.
From S2P Require Import Commands.
From S2P Require Import Keyring.
From S2P Require Import Envelope.
Local Open Scope nat_scope.
Local Open Scope js_scope.

(** ** The PIN *)

Definition PIN_ITERATIONS : Z := 600000.
Definition PIN_MIN_LENGTH : nat := 6.
Definition PIN_RECOMMENDED_LENGTH : nat := 8.
Definition PIN_UNLOCK_MIN_LENGTH : nat := 4.
Definition pinEnvVar : jstr := PIN_ENV.
Definition pinMinLength : nat := PIN_MIN_LENGTH.
Definition pinRecommendedLength : nat := PIN_RECOMMENDED_LENGTH.
Definition pinUnlockMinLength : nat := PIN_UNLOCK_MIN_LENGTH.

Definition validatePin (pin confirm : jsval) : jstr :=
  let p := text_or_empty pin in
  if length p <? PIN_MIN_LENGTH then u "PIN must be at least " ++ dec_nat PIN_MIN_LENGTH ++ u " digits"
  else if negb (negb (str_eqb p []) && all_in is_digit p) then u "PIN must contain only digits"
  else if negb (is_undef confirm) && negb (str_eqb (text_or_empty confirm) p) then u "PINs do not match"
  else [].

Definition PIN_GUESSES_PER_SECOND : Z := 17.

(** The divisions are exact here and rounded in the source; no length of a PIN is near a bound or a tie. *)
Definition pinGuessTime (length : nat) : jstr :=
  let seconds := num_div (numz (10 ^ Z.of_nat length)) (numz PIN_GUESSES_PER_SECOND) in
  let minutes := num_div seconds (numz 60) in
  let hours := num_div seconds (numz 3600) in
  let days := num_div hours (numz 24) in
  if num_ltb minutes (numz 90) then u "about " ++ num_str (num_max (numz 1) (num_round minutes)) ++ u " minutes"
  else if num_ltb hours (numz 48) then u "about " ++ num_str (num_round hours) ++ u " hours"
  else if num_ltb days (numz 60) then u "about " ++ num_str (num_round days) ++ u " days"
  else if num_ltb days (numz 730) then u "about " ++ num_str (num_round (num_div days (Fin (QArith_base.Qmake 3044 100)))) ++ u " months"
  else u "about " ++ num_str (num_round (num_div days (Fin (QArith_base.Qmake 36525 100)))) ++ u " years".

(** Digits in groups of three, as [toLocaleString] writes a whole number. *)
Fixpoint grouped (fuel : nat) (ds : jstr) : jstr :=
  match fuel with
  | O => ds
  | S f => if length ds <=? 3 then ds else grouped f (take (length ds - 3) ds) ++ u "," ++ drop (length ds - 3) ds
  end.

Definition locale_string (n : N) : jstr := grouped (length (dec n)) (dec n).

Definition pinWeakWarning (pin : jsval) : jstr :=
  let p := text_or_empty pin in
  if (length p <? PIN_MIN_LENGTH) || (PIN_RECOMMENDED_LENGTH <=? length p) then []
  else
    let combinations := locale_string (10 ^ N.of_nat (length p)) in
    u "A " ++ dec_nat (length p) ++ u "-digit PIN is only " ++ combinations ++ u " combinations: a program running "
      ++ u "as you can copy the stored item and try every PIN in " ++ pinGuessTime (length p)
      ++ u " on a 16-thread laptop. Use " ++ dec_nat PIN_RECOMMENDED_LENGTH ++ u " or more: "
      ++ dec_nat PIN_RECOMMENDED_LENGTH ++ u " digits is " ++ pinGuessTime PIN_RECOMMENDED_LENGTH ++ u ".".

Definition isPinWeak (pin : jsval) : bool := negb (str_eqb (pinWeakWarning pin) []).

Definition pinUnlockCommand (slot : jsval) : list jstr :=
  bash (cappedScript
    (u "secret-tool lookup" ++ keyringAttributes (keyringEntryName KEYRING_PIN slot) ++ u " 2>/dev/null | head -c 8192"
     ++ u " | openssl enc -d -aes-256-cbc -pbkdf2 -iter " ++ dec_Z PIN_ITERATIONS
     ++ u " -md sha256 -pass env:" ++ PIN_ENV ++ u " -base64 -A | head -c " ++ dec_Z MAX_TOKEN_BYTES) None).

(** ** The pinentry *)

Definition OMARCHY_PINENTRY_FILE : jstr := u "pinentry/omarchy-pinentry".
Definition PINENTRY_RESOLVE : jstr :=
  uq "__prog=`$1`; if [ -z `$__prog` ] || [ ! -x `$__prog` ]"
    ++ uq " || ! `$__prog` --check >/dev/null 2>&1; then __prog=``; fi".
Definition PINENTRY_TEXT_MAX : nat := 400.
Definition PINENTRY_DESC_ENV : jstr := u "QSBW_PE_DESC".
Definition PINENTRY_ERR_ENV : jstr := u "QSBW_PE_ERR".
Definition PINENTRY_TIMEOUT_S : Z := 120.
Definition PINENTRY_GIVE_UP_S : Z := PINENTRY_TIMEOUT_S + 30.

Record pinentry_exit := mkPinentryExit { pe_cancelled : Z; pe_empty : Z; pe_failed : Z; pe_short : Z; pe_missing : Z }.
Definition PINENTRY_EXIT : pinentry_exit := mkPinentryExit 1 3 4 5 127.
Definition pinentryExitCodes : pinentry_exit :=
  mkPinentryExit (pe_cancelled PINENTRY_EXIT) (pe_empty PINENTRY_EXIT) (pe_failed PINENTRY_EXIT) (pe_short PINENTRY_EXIT) (pe_missing PINENTRY_EXIT).

Definition PINENTRY_SCRIPT : jstr := join newline [
  uq "__title=`$2`; __prompt=`$3`; __min=`${4:-0}`";
  uq "__desc=`$" ++ PINENTRY_DESC_ENV ++ uq "`; __err=`$" ++ PINENTRY_ERR_ENV ++ uq "`";
  u "unset " ++ PINENTRY_DESC_ENV ++ u " " ++ PINENTRY_ERR_ENV;
  PINENTRY_RESOLVE;
  uq "[ -n `$__prog` ] || exit " ++ dec_Z (pe_missing PINENTRY_EXIT);
  uq "__enc() { __e=`$1`; __e=`${__e//%/%25}`; __e=`${__e//$'\r'/%0D}`; __e=`${__e//$'\n'/%0A}`; }";
  uq "coproc PE { exec `$__prog` 2>/dev/null; }";
  uq "__pid=`$PE_PID`";
  uq "trap 'kill `$__pid` 2>/dev/null' EXIT";
  u "trap '' PIPE";
  uq "__reply() { while IFS= read -r -t `$1` -u `${PE[0]}` __l; do";
  uq "  case `$__l` in OK|OK\ *) return 0 ;; ERR|ERR\ *) return 1 ;; esac";
  u "done; return 2; }";
  uq "__ask() { printf '%s\n' `$1` >&`${PE[1]}` || exit " ++ dec_Z (pe_failed PINENTRY_EXIT) ++ u "; __reply 30; }";
  u "__reply 10 || exit " ++ dec_Z (pe_failed PINENTRY_EXIT);
  uq "__enc `$__title`; __ask `SETTITLE $__e`";
  uq "__enc `$__desc`; __ask `SETDESC $__e`";
  uq "__enc `$__prompt`; __ask `SETPROMPT $__e`";
  uq "if [ -n `$__err` ]; then __enc `$__err`; __ask `SETERROR $__e`; fi";
  uq "__ask `SETTIMEOUT " ++ dec_Z PINENTRY_TIMEOUT_S ++ uq "`";
  uq "printf 'GETPIN\n' >&`${PE[1]}` || exit " ++ dec_Z (pe_failed PINENTRY_EXIT);
  u "__d=''";
  u "while IFS= read -r -t " ++ dec_Z PINENTRY_GIVE_UP_S ++ uq " -u `${PE[0]}` __l; do";
  uq "  case `$__l` in";
  uq "    'D '*) __d=`$__d${__l:2}` ;;";
  u "    OK|OK\ *)";
  uq "      printf 'BYE\n' >&`${PE[1]}`";
  uq "      [ -n `$__d` ] || exit " ++ dec_Z (pe_empty PINENTRY_EXIT);
  uq "      __n=$(LC_ALL=C.UTF-8; __t=`${__d//[^%]/}`; echo $(( ${#__d} - 2 * ${#__t} )))";
  uq "      if [[ `$__min` =~ ^[0-9]+$ ]] && (( __n < __min )); then exit " ++ dec_Z (pe_short PINENTRY_EXIT) ++ u "; fi";
  uq "      printf '%s' `$__d`; exit 0 ;;";
  u "    ERR|ERR\ *)";
  uq "      __c=`${__l#ERR }`; __c=`${__c%% *}`";
  uq "      if [[ `$__c` =~ ^[0-9]+$ ]] && (( (10#$__c & 65535) == 99 || (10#$__c & 65535) == 62 )); then exit " ++ dec_Z (pe_cancelled PINENTRY_EXIT) ++ u "; fi";
  u "      exit " ++ dec_Z (pe_failed PINENTRY_EXIT) ++ u " ;;";
  u "  esac";
  u "done";
  u "exit " ++ dec_Z (pe_failed PINENTRY_EXIT)].

Definition pinentryFailedNotice : jstr := u "The unlock prompt stopped before answering. Try again, or type it here instead.".

Definition pinentryMissingNotice : jstr :=
  u "The unlock prompt cannot open here (it needs quickshell, node and a Wayland display)."
    ++ u " Typed here, it stays in the shell's memory until the shell restarts.".

Definition WRONG_MASTER_PASSWORD : list regex :=
  [RLitI (u "invalid master password"); RLitI (u "the decryption operation failed"); RLitI (u "the provided key is not the expected type")].

Definition isWrongMasterPassword (stderrText : jsval) : bool :=
  let text := text_or_empty stderrText in existsb (fun pattern => test pattern text) WRONG_MASTER_PASSWORD.

(** [/\u001b\[[0-9;]*m/g] *)
Definition ansi_colour : regex := RSeqs [RLit [27%N]; RLit (u "["); RStar (RChar (fun c => is_digit c || (c =? 59)%N)); RLit (u "m")].

(** [/^\s*(ERROR|WARN|INFO|DEBUG|TRACE)\s+bitwarden_\w+(::\w+)*\s*:/] *)
Definition sdk_log_line : regex :=
  RSeqs [RStart; RSpaces; RAlts [RLit (u "ERROR"); RLit (u "WARN"); RLit (u "INFO"); RLit (u "DEBUG"); RLit (u "TRACE")];
         RPlus RSpace; RLit (u "bitwarden_"); RPlus (RChar is_word_unit);
         RStar (RSeq (RLit (u "::")) (RPlus (RChar is_word_unit))); RSpaces; RLit (u ":")].

Definition bwErrorText (stderrText : jsval) : jstr :=
  join newline (List.filter (fun l => negb (str_eqb l []))
    (map trim (List.filter (fun line => negb (test sdk_log_line line))
      (split_char 10 (replace_all ansi_colour [] (text_or_empty stderrText)))))).

Definition pinentryText (value : jsval) : jstr := take PINENTRY_TEXT_MAX (remove_units (N.eqb 0) (text_of value)).

Definition omarchyPinentryPath (pluginDir : jsval) : jstr :=
  let dir := cleanAbsoluteDir pluginDir in
  if str_eqb dir [] then [] else (if str_eqb dir (u "/") then [] else dir) ++ u "/" ++ OMARCHY_PINENTRY_FILE.

Definition bundledPinentry (path : jsval) : jstr :=
  match path with
  | JStr s => if is_absolute s && negb (existsb (N.eqb 0) s) then s else []
  | _ => []
  end.

Definition pinentryCommand (frontend opts : jsval) : list jstr :=
  let o := jor opts (obj []) in
  [u "bash"; u "-c"; PINENTRY_SCRIPT; u "_"; bundledPinentry frontend; pinentryText o.["title"]; pinentryText o.["prompt"];
   num_str (num_max (numz 0) (num_floor (num_or_zero (to_num o.["minLength"]))))].

Definition pinentryEnvironment (opts : jsval) : list (jstr * jstr) :=
  let o := jor opts (obj []) in
  [(PINENTRY_DESC_ENV, pinentryText o.["description"]); (PINENTRY_ERR_ENV, pinentryText o.["error"])].

Definition pinentryProbeCommand (frontend : jsval) : list jstr :=
  [u "bash"; u "-c"; PINENTRY_RESOLVE ++ uq "; [ -n `$__prog` ] && echo found || echo missing"; u "_"; bundledPinentry frontend].

Definition pinentryProbeMissing (exitCode stdoutText : jsval) : bool :=
  strict_eq exitCode (jz 0) && str_eqb (trim (text_or_empty stdoutText)) (u "missing").

Definition typedSecretEntry (o : jsval) : jstr :=
  if negb (truthy o.["usePinentry"]) || truthy o.["missing"] || truthy o.["declined"] then u "field"
  else if strict_eq o.["helperState"] (JStr (u "active")) then u "pinentry"
  else if strict_eq o.["helperState"] (JStr (u "fallback")) then u "field"
  else u "wait".

Definition pinentryDescription (purpose email : jsval) : jstr :=
  let who := trim (text_or_empty email) in
  let suffix := if str_eqb who [] then [] else u " for " ++ who in
  if strict_eq purpose (JStr (u "pin")) then u "Enter the PIN that unlocks Bitwarden" ++ suffix
  else if strict_eq purpose (JStr (u "reprompt")) then u "Confirm your Bitwarden master password" ++ suffix
  else u "Unlock Bitwarden" ++ suffix.

Definition pinentryPrompt (purpose : jsval) : jstr :=
  if strict_eq purpose (JStr (u "pin")) then u "PIN:" else u "Master password:".

(** ** What the script does *)

(** The pinentry's side of a run: the outcome of each read, a line or nothing
    (the program gone, or silent for the time allowed), how many writes succeed,
    and the lines written so far. *)
Record dialogue := mkDialogue { reads : list (option jstr); writes : nat; sent : list jstr }.

(** A step of the script: it goes on with a value, or exits with a status and what it printed. *)
Definition step (A : Type) : Type := dialogue -> ((Z * jstr) + A) * dialogue.

Definition go {A} (a : A) : step A := fun d => (inr a, d).
Definition quit {A} (status : Z) (output : jstr) : step A := fun d => (inl (status, output), d).
Definition andthen {A B} (m : step A) (f : A -> step B) : step B := fun d =>
  match m d with (inl e, d') => (inl e, d') | (inr a, d') => f a d' end.

Declare Scope step_scope.
Delimit Scope step_scope with step.
Notation "x <~ m ;; f" := (andthen m (fun x => f)) (at level 100, m at level 99, right associativity) : step_scope.
Notation "m ;;; f" := (andthen m (fun _ => f)) (at level 100, right associativity) : step_scope.
Local Open Scope step_scope.

Definition exit_failed {A} : step A := quit (pe_failed PINENTRY_EXIT) [].

(** [__enc] *)
Definition enc_unit (c : N) : jstr :=
  if (c =? 37)%N then u "%25" else if (c =? 13)%N then u "%0D" else if (c =? 10)%N then u "%0A" else [c].
Definition enc (s : jstr) : jstr := concat (map enc_unit s).

(** A write to the pinentry. *)
Definition write (line : jstr) (otherwise : step unit) : step unit := fun d =>
  match writes d with
  | O => otherwise d
  | S n => (inr tt, mkDialogue (reads d) n (sent d ++ [line]))
  end.

Definition is_reply (word line : jstr) : bool := str_eqb line word || starts_with (word ++ u " ") line.

(** [__reply]: 0, 1 or 2; lines of other kinds are passed over. *)
Fixpoint next_reply (l : list (option jstr)) : Z * list (option jstr) :=
  match l with
  | [] => (2%Z, [])
  | None :: t => (2%Z, t)
  | Some line :: t =>
    if is_reply (u "OK") line then (0%Z, t) else if is_reply (u "ERR") line then (1%Z, t) else next_reply t
  end.

Definition reply : step Z := fun d => let '(r, t) := next_reply (reads d) in (inr r, mkDialogue t (writes d) (sent d)).

(** [__ask]: its own status is not looked at. *)
Definition ask (line : jstr) : step Z := write line exit_failed ;;; reply.

(** The length of what was typed. *)
Definition is_low_surrogate (c : N) : bool := in_range 56320 57343 c.
Definition answer_length (d : jstr) : Z :=
  (Z.of_nat (length (List.filter (fun c => negb (is_low_surrogate c)) d)) - 2 * Z.of_nat (length (List.filter (N.eqb 37) d)))%Z.

Definition too_short (min d : jstr) : bool :=
  negb (str_eqb min []) && all_in is_digit min && (answer_length d <? Z.of_N (value_of_digits min))%Z.

(** The status of an error line: GPG_ERR_CANCELED and GPG_ERR_TIMEOUT are cancels, whatever their source. *)
Definition error_code (line : jstr) : jstr :=
  fst (span (fun c => negb (c =? 32)%N) (if starts_with (u "ERR ") line then drop 4 line else line)).
Definition error_status (line : jstr) : Z :=
  let c := error_code line in
  if negb (str_eqb c []) && all_in is_digit c
     && (let low := N.land (value_of_digits c) 65535 in (low =? 99)%N || (low =? 62)%N)
  then pe_cancelled PINENTRY_EXIT else pe_failed PINENTRY_EXIT.

(** The answer: data lines up to OK. The exit, whether it was an OK, and the reads left. *)
Fixpoint answer_loop (min d : jstr) (l : list (option jstr)) : (Z * jstr) * bool * list (option jstr) :=
  match l with
  | [] => (pe_failed PINENTRY_EXIT, [], false, [])
  | None :: t => (pe_failed PINENTRY_EXIT, [], false, t)
  | Some line :: t =>
    if starts_with (u "D ") line then answer_loop min (d ++ drop 2 line) t
    else if is_reply (u "OK") line then
      (if str_eqb d [] then (pe_empty PINENTRY_EXIT, []) else if too_short min d then (pe_short PINENTRY_EXIT, []) else (0%Z, d), true, t)
    else if is_reply (u "ERR") line then (error_status line, [], false, t)
    else answer_loop min d t
  end.

(** On OK the script says BYE, whether or not that can still be written. *)
Definition answer (min : jstr) : step unit := fun d =>
  let '(e, ok, t) := answer_loop min [] (reads d) in
  let said := mkDialogue t (writes d) (sent d) in
  (inl e, if ok : bool then snd (write (u "BYE") (go tt) said) else said).

(** The script, from its greeting to the answer. *)
Definition prompt_script (title desc prompt err min : jstr) : step unit :=
  greeted <~ reply ;;
  (if (greeted =? 0)%Z then go tt else exit_failed) ;;;
  ask (u "SETTITLE " ++ enc title) ;;;
  ask (u "SETDESC " ++ enc desc) ;;;
  ask (u "SETPROMPT " ++ enc prompt) ;;;
  (if str_eqb err [] then go tt else (ask (u "SETERROR " ++ enc err) ;;; go tt)) ;;;
  ask (u "SETTIMEOUT " ++ dec_Z PINENTRY_TIMEOUT_S) ;;;
  write (u "GETPIN") exit_failed ;;;
  answer min.

(** The command run by a shell where [check] tells a frontend that is executable and passes its own check. *)
Definition run_pinentry (check : jstr -> bool) (command : list jstr) (env : list (jstr * jstr))
    (pinentry : list (option jstr)) (writable : nat) : (Z * jstr) * list jstr :=
  let arg i := nth (3 + i) command [] in
  let var name := default [] (snd <$> find_first (fun e => str_eqb (fst e) name) env) in
  if negb (negb (str_eqb (arg 1) []) && check (arg 1)) then ((pe_missing PINENTRY_EXIT, []), [])
  else
    match prompt_script (arg 2) (var PINENTRY_DESC_ENV) (arg 3) (var PINENTRY_ERR_ENV) (arg 4) (mkDialogue pinentry writable []) with
    | (inl e, d) => (e, sent d)
    | (inr _, d) => ((pe_failed PINENTRY_EXIT, []), sent d)
    end.

(** ** Lemmas *)

(** *** The lines of a run

    [sends m ls]: whatever the pinentry does, [m] writes the lines [ls] in order,
    all of them if it goes on. *)
Definition sends {A} (m : step A) (ls : list jstr) : Prop :=
  forall d, exists p, sent (m d).2 = sent d ++ p /\ p `prefix_of` ls /\ (forall a, (m d).1 = inr a -> p = ls).

Lemma sends_go {A} (a : A) : sends (go a) [].
Proof. intros d. exists []. rewrite app_nil_r. split_and!; [done|done|done]. Qed.

Lemma sends_quit {A} c o ls : sends (quit c o : step A) ls.
Proof. intros d. exists []. rewrite app_nil_r. split_and!; [done|apply prefix_nil|done]. Qed.

Lemma sends_andthen {A B} (m : step A) (f : A -> step B) l1 l2 :
  sends m l1 -> (forall a, sends (f a) l2) -> sends (andthen m f) (l1 ++ l2).
Proof.
  intros Hm Hf d. unfold andthen. destruct (Hm d) as (p & Ep & Hp & Hgo). destruct (m d) as [[e|a] d1]; cbn [fst snd] in *.
  - exists p. split_and!; [done|by apply prefix_app_r|done].
  - destruct (Hf a d1) as (q & Eq & Hq & Hgo2). rewrite (Hgo a eq_refl) in *. exists (l1 ++ q).
    rewrite Eq, Ep, <- app_assoc. split_and!; [done|by apply prefix_app|]. intros b Hb. by rewrite (Hgo2 b Hb).
Qed.

Lemma sends_write line : sends (write line exit_failed) [line].
Proof.
  intros d. unfold write. destruct (writes d); cbn.
  - exists []. rewrite app_nil_r. split_and!; [done|apply prefix_nil|done].
  - exists [line]. done.
Qed.

Lemma sends_reply : sends reply [].
Proof. intros d. unfold reply. destruct (next_reply (reads d)). exists []. cbn. by rewrite app_nil_r. Qed.

Lemma sends_ask line : sends (ask line) [line].
Proof. change [line] with ([line] ++ []). apply sends_andthen; [apply sends_write|intros; apply sends_reply]. Qed.

Lemma sends_answer min : sends (answer min) [u "BYE"].
Proof.
  intros d. unfold answer. destruct (answer_loop min [] (reads d)) as [[e ok] t]. destruct ok; cbn.
  - unfold write. cbn. destruct (writes d); cbn; [exists []|exists [u "BYE"]]; split_and!; try done; [by rewrite app_nil_r|apply prefix_nil].
  - exists []. split_and!; [by rewrite app_nil_r|apply prefix_nil|done].
Qed.

#[export] Hint Resolve sends_go sends_quit sends_ask sends_write sends_reply sends_answer sends_andthen : script.

(** The lines of a run that ends with an answer. *)
Definition commands (title desc prompt err : jstr) : list jstr :=
  [u "SETTITLE " ++ enc title; u "SETDESC " ++ enc desc; u "SETPROMPT " ++ enc prompt]
  ++ (if str_eqb err [] then [] else [u "SETERROR " ++ enc err])
  ++ [u "SETTIMEOUT 120"; u "GETPIN"; u "BYE"].

Lemma prompt_script_sends title desc prompt err min : sends (prompt_script title desc prompt err min) (commands title desc prompt err).
Proof.
  unfold prompt_script, commands.
  change (sends (andthen reply (fun greeted => andthen (if (greeted =? 0)%Z then go tt else exit_failed) (fun _ =>
    andthen (ask (u "SETTITLE " ++ enc title)) (fun _ => andthen (ask (u "SETDESC " ++ enc desc)) (fun _ =>
    andthen (ask (u "SETPROMPT " ++ enc prompt)) (fun _ =>
    andthen (if str_eqb err [] then go tt else andthen (ask (u "SETERROR " ++ enc err)) (fun _ => go tt)) (fun _ =>
    andthen (ask (u "SETTIMEOUT " ++ dec_Z PINENTRY_TIMEOUT_S)) (fun _ => andthen (write (u "GETPIN") exit_failed) (fun _ => answer min)))))))))
    ([] ++ [] ++ [u "SETTITLE " ++ enc title] ++ [u "SETDESC " ++ enc desc] ++ [u "SETPROMPT " ++ enc prompt]
     ++ (if str_eqb err [] then [] else [u "SETERROR " ++ enc err]) ++ [u "SETTIMEOUT " ++ dec_Z PINENTRY_TIMEOUT_S] ++ [u "GETPIN"] ++ [u "BYE"])).
  repeat first [apply sends_andthen; [auto with script|intros]|by auto with script].
  all: try (destruct (_ =? 0)%Z; [apply sends_go|apply sends_quit]).
  all: destruct (str_eqb err []); [apply sends_go|].
  all: change [u "SETERROR " ++ enc err] with ([u "SETERROR " ++ enc err] ++ []); auto with script.
Qed.

(** *** Encoding *)

Definition one_line_unit (c : N) : bool := negb ((c =? 10) || (c =? 13))%N.

Lemma enc_one_line s : forallb one_line_unit (enc s) = true.
Proof.
  unfold enc. induction s as [|c s IH]; [done|]. cbn [map concat]. rewrite forallb_app, IH, andb_true_r. unfold enc_unit.
  destruct (c =? 37)%N; [by vm_compute|]. destruct (c =? 13)%N eqn:E13; [by vm_compute|]. destruct (c =? 10)%N eqn:E10; [by vm_compute|].
  cbn. unfold one_line_unit. by rewrite E10, E13.
Qed.

(** Assuan's decoding: a percent sign with two hexadecimal digits stands for one unit. *)
Fixpoint assuan_decode (s : jstr) : jstr :=
  match s with
  | 37%N :: a :: b :: t => value_radix 16 [a; b] :: assuan_decode t
  | c :: t => c :: assuan_decode t
  | [] => []
  end.

Lemma decode_enc s : assuan_decode (enc s) = s.
Proof.
  unfold enc. induction s as [|c s IH]; [done|]. cbn [map concat]. revert IH. generalize (concat (map enc_unit s)). intros t IH. unfold enc_unit.
  destruct (N.eqb_spec c 37) as [-> |H37]; [|destruct (N.eqb_spec c 13) as [-> |_]; [|destruct (N.eqb_spec c 10) as [-> |_]]].
  - rewrite <- IH. reflexivity.
  - rewrite <- IH. reflexivity.
  - rewrite <- IH. reflexivity.
  - cbn [app]. transitivity (c :: assuan_decode t); [|by rewrite IH].
    cbn [assuan_decode]. destruct c as [|p]; [done|]. repeat (destruct p as [p|p|]; try done).
Qed.

(** *** The answer *)

Definition payload (line : jstr) : jstr := if starts_with (u "D ") line then drop 2 line else [].

(** A line that does not end the answer. *)
Definition goes_on (line : jstr) : bool := starts_with (u "D ") line || negb (is_reply (u "OK") line || is_reply (u "ERR") line).

(** What the reads of an answer must have been for the script to print it. *)
Record answered (min printed : jstr) (l : list (option jstr)) : Prop := mkAnswered {
  answered_reads : exists lines ok left_, l = map Some lines ++ Some ok :: left_ /\ is_reply (u "OK") ok = true
    /\ Forall (fun line => goes_on line = true) lines /\ printed = concat (map payload lines);
  answered_nonempty : printed <> [];
  answered_long : too_short min printed = false
}.

Lemma error_status_nonzero line : error_status line <> 0%Z.
Proof. unfold error_status. by destruct (_ && _). Qed.

Lemma answer_loop_spec min d l : let '(e, ok, t) := answer_loop min d l in
  (e.1 <> 0%Z -> e.2 = [])
  /\ (e.1 = 0%Z -> exists lines okline, l = map Some lines ++ Some okline :: t /\ is_reply (u "OK") okline = true
       /\ Forall (fun line => goes_on line = true) lines /\ e.2 = d ++ concat (map payload lines)
       /\ e.2 <> [] /\ too_short min e.2 = false).
Proof.
  revert d; induction l as [|[line|] l IH]; intros d; cbn [answer_loop]; [done| |done].
  assert (forall d', d' = d ++ payload line -> goes_on line = true -> let '(e, ok, t) := answer_loop min d' l in
    (e.1 <> 0%Z -> e.2 = [])
    /\ (e.1 = 0%Z -> exists lines okline, Some line :: l = map Some lines ++ Some okline :: t /\ is_reply (u "OK") okline = true
       /\ Forall (fun line => goes_on line = true) lines /\ e.2 = d ++ concat (map payload lines)
       /\ e.2 <> [] /\ too_short min e.2 = false)) as G.
  { intros d' -> Hg. specialize (IH (d ++ payload line)). destruct (answer_loop min (d ++ payload line) l) as [[e ok] t].
    destruct IH as [H1 H2]. split; [done|]. intros H0. destruct (H2 H0) as (lines & okline & -> & Hok & Hl & Hp & Hne & Hs).
    exists (line :: lines), okline. split_and!; try done; [by constructor|]. cbn [map concat]. by rewrite Hp, <- app_assoc. }
  destruct (starts_with (u "D ") line) eqn:Ed.
  - apply G; unfold payload, goes_on; by rewrite Ed.
  - destruct (is_reply (u "OK") line) eqn:Eok.
    + destruct (str_eqb d []) eqn:E0; [done|]. destruct (too_short min d) eqn:Es; [done|]. split; [done|]. intros _.
      exists [], line. cbn. rewrite app_nil_r. apply str_eqb_neq in E0. done.
    + destruct (is_reply (u "ERR") line) eqn:Ee; [split; [done|intros H; by apply error_status_nonzero in H]|].
      apply G; unfold payload, goes_on; rewrite Ed, ?Eok, ?Ee; [by rewrite app_nil_r|done].
Qed.

(** Before the answer, the script only goes on or exits as failed, and reads from the front. *)
Definition quiet {A} (m : step A) : Prop :=
  forall d, (forall e, (m d).1 = inl e -> e = (pe_failed PINENTRY_EXIT, [])) /\ reads (m d).2 `suffix_of` reads d.

Lemma next_reply_suffix l : (next_reply l).2 `suffix_of` l.
Proof.
  induction l as [|[line|] l IH]; cbn [next_reply]; [done| |by apply suffix_cons_r].
  destruct (is_reply (u "OK") line); [by apply suffix_cons_r|]. destruct (is_reply (u "ERR") line); by apply suffix_cons_r.
Qed.

Lemma quiet_reply : quiet reply.
Proof. intros d. unfold reply. pose proof (next_reply_suffix (reads d)) as H. by destruct (next_reply (reads d)). Qed.

Lemma quiet_write line : quiet (write line exit_failed).
Proof. intros d. unfold write. destruct (writes d); cbn; [split; [by intros e [= <-]|done]|done]. Qed.

Lemma quiet_go {A} (a : A) : quiet (go a).
Proof. done. Qed.

Lemma quiet_failed {A} : quiet (exit_failed : step A).
Proof. split; [by intros e [= <-]|done]. Qed.

Lemma quiet_andthen {A B} (m : step A) (f : A -> step B) : quiet m -> (forall a, quiet (f a)) -> quiet (andthen m f).
Proof.
  intros Hm Hf d. unfold andthen. destruct (Hm d) as [H1 H2]. destruct (m d) as [[e|a] d1]; cbn [fst snd] in *.
  - split; [by intros e' [= <-]; apply H1|done].
  - destruct (Hf a d1). split; [done|]. by etrans.
Qed.

#[export] Hint Resolve quiet_reply quiet_write quiet_go quiet_failed quiet_andthen : script.

(** After quiet steps, an exit that is not a failure is that of the last step, on the reads left. *)
Lemma quiet_then {A B} (m : step A) (f : A -> step B) d e : quiet m -> (andthen m f d).1 = inl e ->
  e = (pe_failed PINENTRY_EXIT, []) \/ exists a d', (f a d').1 = inl e /\ reads d' `suffix_of` reads d.
Proof.
  intros Hm He. unfold andthen in He. destruct (Hm d) as [H1 H2]. destruct (m d) as [[e'|a] d1]; cbn [fst snd] in *.
  - left. injection He as <-. by apply H1.
  - right. eauto.
Qed.

Lemma prompt_script_answer title desc prompt err min d e : (prompt_script title desc prompt err min d).1 = inl e ->
  e = (pe_failed PINENTRY_EXIT, []) \/ exists d', (answer min d').1 = inl e /\ reads d' `suffix_of` reads d.
Proof.
  unfold prompt_script. intros H.
  assert (quiet (A := Z) reply) as Q0 by auto with script.
  assert (forall line, quiet (ask line)) as Qa by (intros; unfold ask; auto with script).
  repeat (apply quiet_then in H; [destruct H as [H|(? & ? & H & ?)]; [by left|]|]).
  all: try (by auto with script).
  - right. eexists. split; [exact H|]. repeat (etrans; [eassumption|]). done.
  - destruct (str_eqb err []); auto with script.
  - destruct (_ =? 0)%Z; auto with script.
Qed.

(** ** Properties *)

(** C8. Nothing typed by a user or a server steers the prompt. Whatever the pinentry
    answers and wherever it stops reading, the script writes to it a prefix of the
    fixed sequence SETTITLE, SETDESC, SETPROMPT, SETERROR (when there is an error),
    SETTIMEOUT, GETPIN, BYE, each on a line of its own whatever the title, the
    description (which names the account), the prompt and the error hold; and a
    pinentry that decodes Assuan's escapes reads each of them back exactly. *)
Theorem pinentry_no_injection check frontend opts pinentry writable :
  let o := jor opts (obj []) in
  let '(_, lines) := run_pinentry check (pinentryCommand frontend opts) (pinentryEnvironment opts) pinentry writable in
  let text name := pinentryText o.[name] in
  lines `prefix_of` commands (text "title") (text "description") (text "prompt") (text "error")
  /\ Forall (fun l => forallb one_line_unit l = true) lines
  /\ (forall name, assuan_decode (enc (text name)) = text name).
Proof.
  cbn zeta. set (o := jor opts (obj [])). destruct (run_pinentry _ _ _ _ _) as [e lines] eqn:E.
  assert (lines `prefix_of` commands (pinentryText o.["title"]) (pinentryText o.["description"]) (pinentryText o.["prompt"]) (pinentryText o.["error"])) as Hp.
  { unfold run_pinentry in E. destruct (negb _); [injection E as _ <-; apply prefix_nil|].
    destruct (prompt_script_sends (pinentryText o.["title"]) (pinentryText o.["description"]) (pinentryText o.["prompt"]) (pinentryText o.["error"])
      (nth 7 (pinentryCommand frontend opts) []) (mkDialogue pinentry writable [])) as (p & Es & Hp & _).
    unfold pinentryCommand, pinentryEnvironment in *. fold o in E, Es. cbn in E, Es.
    destruct (prompt_script _ _ _ _ _ _) as [[r|r] d]; cbn [snd] in Es; injection E as _ <-; by rewrite Es. }
  split; [exact Hp|]. split; [|intros; apply decode_enc].
  assert (Forall (fun l => forallb one_line_unit l = true) (commands (pinentryText o.["title"]) (pinentryText o.["description"])
    (pinentryText o.["prompt"]) (pinentryText o.["error"]))) as Hc.
  { unfold commands. destruct (str_eqb _ []); repeat constructor; rewrite ?forallb_app, ?enc_one_line; by vm_compute. }
  destruct Hp as [rest Hr]. rewrite Hr in Hc. by apply Forall_app in Hc as [Hc _].
Qed.

(** The script prints an answer or nothing. It exits 0 only when the reads ended
    with data lines and an OK, and then prints exactly those lines' data, which is
    not empty and not shorter than the minimum asked for; with any other status
    (a cancel, an error, silence, a pinentry that is missing or gone) it prints
    nothing. *)
Theorem pinentry_answer check frontend opts pinentry writable :
  let command := pinentryCommand frontend opts in
  let '(e, _) := run_pinentry check command (pinentryEnvironment opts) pinentry writable in
  (e.1 = 0%Z -> exists l, l `suffix_of` pinentry /\ answered (nth 7 command []) e.2 l) /\ (e.1 <> 0%Z -> e.2 = []).
Proof.
  cbn zeta. destruct (run_pinentry _ _ _ _ _) as [e lines] eqn:E. unfold run_pinentry in E.
  destruct (negb _); [injection E as <- _; done|].
  change (nth (3 + 4) (pinentryCommand frontend opts) []) with (nth 7 (pinentryCommand frontend opts) []) in E.
  revert E. generalize (nth 7 (pinentryCommand frontend opts) []). intros min E.
  match type of E with match ?x with _ => _ end = _ => destruct x as [[r|r] d] eqn:Er end; injection E as <- _; [|done].
  apply (f_equal fst), prompt_script_answer in Er. destruct Er as [-> |(d' & Ha & Hsuf)]; [done|].
  unfold answer in Ha. pose proof (answer_loop_spec min [] (reads d')) as Hs.
  destruct (answer_loop min [] (reads d')) as [[e ok] t]. injection Ha as ->. destruct Hs as [H1 H2]. split; [|exact H1].
  intros H0. destruct (H2 H0) as (ls & okline & El & Hok & Hl & Hp & Hne & Hsh). exists (reads d'). split; [exact Hsuf|].
  split; [|done|done]. exists ls, okline, t. done.
Qed.

(** A dismissed prompt is told from a broken one. An error line with a GPG error
    code is a cancel exactly when the code in its low sixteen bits is CANCELED or
    TIMEOUT, whatever source the rest names and however it is described. *)
Theorem pinentry_cancel source code text : (code < 65536)%N ->
  error_status (u "ERR " ++ dec (source * 65536 + code) ++ u " " ++ text)
  = if (code =? 99)%N || (code =? 62)%N then pe_cancelled PINENTRY_EXIT else pe_failed PINENTRY_EXIT.
Proof.
  intros Hc. unfold error_status. set (n := (source * 65536 + code)%N).
  assert (error_code (u "ERR " ++ dec n ++ u " " ++ text) = dec n) as ->.
  { unfold error_code. assert (starts_with (u "ERR ") (u "ERR " ++ dec n ++ u " " ++ text) = true) as -> by apply starts_with_app.
    rewrite (drop_app_length (u "ERR ") _). rewrite blank_unit.
    assert (forallb (fun c => negb (c =? 32)%N) (dec n) = true) as Hd.
    { eapply forallb_impl; [|apply dec_digits]. intros c Hd. apply negb_true_iff, N.eqb_neq. unfold is_digit, in_range in Hd. bool_hyps. lia. }
    rewrite (span_app _ (dec n) ([32%N] ++ text)); [done|done|]. by intros c t' [= <- _]. }
  rewrite (proj2 (str_eqb_neq _ _) (dec_nonempty n)). unfold all_in. rewrite dec_digits, value_of_dec. cbn [negb andb].
  assert (N.land n 65535 = code) as ->; [|done]. change 65535%N with (N.ones 16). rewrite N.land_ones. subst n.
  rewrite N.add_comm, N.Div0.mod_add. by apply N.mod_small.
Qed.

(** *** Witnesses *)

Definition example_opts : jsval :=
  obj [("title", JStr (u "Bitwarden")); ("prompt", JStr (u "PIN:")); ("description", JStr (u "100% me" ++ newline ++ u "BYE")); ("minLength", jz 4)].
Definition example_frontend : jsval := JStr (u "/plugin/pinentry/omarchy-pinentry").
Definition example_replies : list (option jstr) :=
  map Some [u "OK Pleased to meet you"; u "OK"; u "OK"; u "OK"; u "OK"; u "S INQUIRE"; u "D 12%25"; u "D 4"; u "OK"].

Lemma pinentry_no_injection_witness :
  run_pinentry (fun _ => true) (pinentryCommand example_frontend example_opts) (pinentryEnvironment example_opts) example_replies 10
    = ((0%Z, u "12%254"), [u "SETTITLE Bitwarden"; u "SETDESC 100%25 me%0ABYE"; u "SETPROMPT PIN:"; u "SETTIMEOUT 120"; u "GETPIN"; u "BYE"])
  /\ assuan_decode (u "100%25 me%0ABYE") = u "100% me" ++ newline ++ u "BYE".
Proof.
  split; [by vm_compute|].
  pose proof (pinentry_no_injection (fun _ => true) example_frontend example_opts example_replies 10) as H. cbn zeta in H.
  destruct (run_pinentry _ _ _ _ _) as [e lines]. destruct H as (_ & _ & H). exact (H "description"%string).
Defined.

Lemma pinentry_answer_witness :
  exists l, l `suffix_of` example_replies /\ answered (u "4") (u "12%254") l.
Proof.
  pose proof (pinentry_answer (fun _ => true) example_frontend example_opts example_replies 10) as H. cbn zeta in H.
  replace (run_pinentry _ _ _ _ _) with ((0%Z, u "12%254"), [u "SETTITLE Bitwarden"; u "SETDESC 100%25 me%0ABYE"; u "SETPROMPT PIN:"; u "SETTIMEOUT 120"; u "GETPIN"; u "BYE"]) in H
    by (by vm_compute).
  exact (proj1 H eq_refl).
Defined.

Lemma pinentry_cancel_witness :
  error_status (u "ERR 83886179 Operation cancelled") = 1%Z /\ error_status (u "ERR " ++ dec (1280 * 65536 + 99) ++ u " " ++ u "cancelled") = 1%Z.
Proof. split; [by vm_compute|]. rewrite (pinentry_cancel 1280 99); by vm_compute. Defined.

Example pin_warning : pinWeakWarning (JStr (u "123456"))
  = u "A 6-digit PIN is only 1,000,000 combinations: a program running as you can copy the stored item and try every PIN in about 16 hours on a 16-thread laptop. Use 8 or more: 8 digits is about 2 months.".
Proof. by vm_compute. Qed.
