(* ===== verification/Attachments.v ===== *)
(** * Attachments

    Saving an attachment into the download folder and opening it
    ([src/BitwardenModel.js], "Attachments"). The two small Node programs and
    the shell scripts around them appear as texts; the program that claims a
    name appears also as a transition system over a directory that other
    programs change at the same time, and the download script as a function of
    what its tools answer. *)

From stdpp Require Import base list numbers strings gmap.
From S2P Require Import Prelude.
From S2P Require Import JsValue.
From S2P Require Import Regex.
From S2P Require Import Shell.
From S2P Require Import Accounts.
From S2P Require Import Vault.
From S2P Require Import Runtime.
From S2P Require Import Commands.
From S2P Require Import Keyring.
Local Open Scope nat_scope.
Local Open Scope js_scope.

(** ** Names and limits *)

Definition MAX_ATTACHMENT_BYTES : Z := 512 * 1024 * 1024.
Definition ATTACHMENT_TIMEOUT_SECS : Z := 900.
Definition ATTACHMENT_FREE_SLACK_BYTES : Z := 64 * 1024 * 1024.
Definition ATTACHMENT_NAME_ENV : jstr := u "QSBW_ATTACHMENT_NAME".
Definition attachmentNameEnvVar : jstr := ATTACHMENT_NAME_ENV.
Definition attachmentDownloadEnv (fileName : jsval) : list (jstr * jstr) := [(ATTACHMENT_NAME_ENV, safeAttachmentFileName fileName)].
Definition OPEN_PATH_ENV : jstr := u "QSBW_OPEN_PATH".
Definition openPathEnvVar : jstr := OPEN_PATH_ENV.

(** ** Texts *)

Definition ATTACHMENT_CLAIM_SCRIPT : jstr := join newline [
  uq "const fs = require(`fs`);";
  u "const dir = process.argv[1], tmp = process.argv[2];";
  u "const name = process.env." ++ ATTACHMENT_NAME_ENV ++ uq " || ``;";
  u "const done = p => { process.stdout.write(p); process.exit(0); };";
  uq "const fail = m => { process.stderr.write(m + `\n`); process.exit(1); };";
  uq "if (!name || /[\/\0]/.test(name) || name === `.` || name === `..`) fail(`Invalid attachment name.`);";
  uq "const dot = name.lastIndexOf(`.`);";
  u "const stem = dot >= 0 ? name.slice(0, dot) : name;";
  uq "const ext = dot >= 0 ? name.slice(dot) : ``;";
  u "let hardlink = true, cand = null, fd = null, busy = false, stopped = false;";
  u "const abandon = code => {";
  u "  let emptied = true;";
  u "  try { fs.ftruncateSync(fd, 0); } catch (e) { emptied = false; }";
  u "  const left = cand.slice(dir.length + 1);";
  uq "  if (code !== 143) process.stderr.write(`Could not save into the download folder; ` + (emptied";
  uq "    ? `an empty ` + left + ` was left there.`";
  uq "    : left + ` there may still hold part of the attachment.`) + `\n`);";
  u "  process.exit(code);";
  u "};";
  uq "for (const sig of [`SIGTERM`, `SIGHUP`, `SIGINT`]) process.on(sig, () => {";
  u "  if (fd === null) process.exit(143);";
  u "  stopped = true;";
  u "  if (!busy) abandon(143);";
  u "});";
  u "for (let n = 0; n <= 999 && cand === null; n++) {";
  uq "  const c = dir + `/` + (n === 0 ? name : stem + ` (` + n + `)` + ext);";
  u "  if (hardlink) {";
  u "    try { fs.linkSync(tmp, c); done(c); }";
  uq "    catch (e) { if (e.code === `EEXIST`) continue; hardlink = false; }";
  u "  }";
  uq "  try { fd = fs.openSync(c, `wx`); cand = c; }";
  uq "  catch (e) { if (e.code !== `EEXIST`) fail(`Could not save into the download folder.`); }";
  u "}";
  uq "if (cand === null) fail(`Could not find a free name in the download folder.`);";
  u "let src;";
  uq "try { src = fs.openSync(tmp, `r`); } catch (e) { abandon(1); }";
  u "const buf = Buffer.allocUnsafe(1 << 20);";
  u "const pump = () => {";
  u "  busy = true;";
  u "  fs.read(src, buf, 0, buf.length, null, (e, got) => {";
  u "    busy = false;";
  u "    if (stopped) return abandon(143);";
  u "    if (e) return abandon(1);";
  u "    if (got === 0) return done(cand);";
  u "    put(0, got);";
  u "  });";
  u "};";
  u "const put = (off, got) => {";
  u "  busy = true;";
  u "  fs.write(fd, buf, off, got - off, null, (e, wrote) => {";
  u "    busy = false;";
  u "    if (stopped) return abandon(143);";
  u "    if (e) return abandon(1);";
  u "    if (off + wrote < got) put(off + wrote, got); else pump();";
  u "  });";
  u "};";
  u "pump();"].

(** The declared size in bytes, as the script gets it: nothing for a size that is not known. *)
Definition size_known (declaredSize : jsval) : bool :=
  negb (is_undef declaredSize) && negb (strict_eq declaredSize JNull) && negb (str_eqb (trim (to_str declaredSize)) [])
  && is_finite (to_num declaredSize) && num_leb (numz 0) (to_num declaredSize).

Definition wanted_bytes (declaredSize : jsval) : Z :=
  let want := if size_known declaredSize then match num_floor (to_num declaredSize) with Fin q => QArith_base.Qnum q | _ => 0%Z end else 0%Z in
  if (MAX_ATTACHMENT_BYTES <? want)%Z then (MAX_ATTACHMENT_BYTES + 1)%Z else want.

(** [Math.ceil] of bytes in kilobytes. *)
Definition kilobytes (bytes : Z) : Z := ((bytes + 1023) / 1024)%Z.

Definition need_kb (declaredSize : jsval) : Z :=
  kilobytes ((if size_known declaredSize then wanted_bytes declaredSize else MAX_ATTACHMENT_BYTES) + ATTACHMENT_FREE_SLACK_BYTES).

Definition max_mb : Z := (MAX_ATTACHMENT_BYTES / (1024 * 1024))%Z.

Definition attachmentDownloadCommand (attachmentId itemId declaredSize : jsval) : list jstr :=
  let maxBytes := MAX_ATTACHMENT_BYTES in
  supervisedProcessCommand (join newline [
    u "set -e";
    u "umask 077";
    u "exec 2> >(head -c " ++ dec_Z MAX_STDERR_BYTES ++ u " >&2)";
    u "max=" ++ dec_Z maxBytes;
    u "want=" ++ dec_Z (wanted_bytes declaredSize);
    uq "dir=`$(xdg-user-dir DOWNLOAD 2>/dev/null || true)`";
    uq "if [ -z `$dir` ] || [ `$dir` = `$HOME` ]; then dir=`$HOME/Downloads`; fi";
    uq "mkdir -p -- `$dir`";
    uq "if [ `$want` -gt `$max` ]; then";
    u "  echo 'Attachment is larger than the " ++ dec_Z max_mb ++ u " MB download limit.' >&2; exit 1";
    u "fi";
    uq "avail=$(df -Pk -- `$dir` 2>/dev/null | awk 'NR==2 {print $4}')";
    uq "case `$avail` in ''|*[!0-9]*) avail='' ;; esac";
    uq "if [ -n `$avail` ] && [ `$avail` -lt " ++ dec_Z (need_kb declaredSize) ++ u " ]; then";
    u "  echo 'Not enough free space in the download folder.' >&2; exit 1";
    u "fi";
    uq "work=$(mktemp -d -- `$dir/.qsbw-XXXXXXXX`)";
    uq "trap 'rm -rf -- `$work`' EXIT HUP INT TERM";
    uq "tmp=`$work/part`";
    u "rc=0";
    u "( ulimit -f " ++ dec_Z (kilobytes maxBytes) ++ u "; exec timeout " ++ dec_Z ATTACHMENT_TIMEOUT_SECS ++ u "s bw get attachment --itemid "
      ++ shellQuote itemId ++ uq " --output `$tmp` -- " ++ shellQuote attachmentId ++ u " >/dev/null ) || rc=$?";
    uq "if [ `$rc` -ne 0 ]; then";
    uq "  case `$rc` in";
    u "    124) echo 'Download timed out.' >&2 ;;";
    u "    153) echo 'Attachment exceeded the " ++ dec_Z max_mb ++ u " MB download limit.' >&2 ;;";
    u "  esac";
    u "  exit 1";
    u "fi";
    uq "got=$(wc -c < `$tmp` 2>/dev/null || echo 0)";
    uq "if [ `$got` -gt `$max` ]; then";
    u "  echo 'Attachment exceeded the " ++ dec_Z max_mb ++ u " MB download limit.' >&2; exit 1";
    u "fi";
    u "out=$(node -e " ++ shellQuote (JStr ATTACHMENT_CLAIM_SCRIPT) ++ uq " `$dir` `$tmp`)";
    uq "printf %s `$out` | head -c 4096"]) [].

Definition OPEN_LINK_SCRIPT : jstr := join newline [
  uq "const fs = require(`fs`);";
  u "const target = process.env." ++ OPEN_PATH_ENV ++ uq " || ``;";
  uq "if (target.charAt(0) !== `/` || target.indexOf(`\0`) !== -1) process.exit(1);";
  uq "const base = target.slice(target.lastIndexOf(`/`) + 1), dot = base.lastIndexOf(`.`);";
  uq "const ext = dot > 0 && /^\.[A-Za-z0-9]{1,10}$/.test(base.slice(dot)) ? base.slice(dot) : ``;";
  uq "const link = fs.mkdtempSync(process.argv[1] + `/`) + `/attachment` + ext;";
  u "fs.symlinkSync(target, link);";
  u "process.stdout.write(link);"].

Definition attachmentOpenCommand : list jstr :=
  bash (uq "set -e; umask 077; test -n `${XDG_RUNTIME_DIR:-}`; "
    ++ uq "__dir=`$XDG_RUNTIME_DIR/" ++ RUNTIME_SUBDIR ++ uq "`; " ++ privateDirScript (u "__dir")
    ++ uq "__open=`$__dir/open`; " ++ privateDirScript (u "__open")
    ++ u "__link=$(node -e " ++ shellQuote (JStr OPEN_LINK_SCRIPT) ++ uq " `$__open`); "
    ++ u "if command -v gio >/dev/null 2>&1; then exec env -u " ++ OPEN_PATH_ENV ++ uq " gio open `$__link`; fi; "
    ++ u "exec env -u " ++ OPEN_PATH_ENV ++ uq " xdg-open `$__link`").

(** ** Claiming a name

    The download folder as names with the files they stand for, and the files'
    contents; names are looked up one at a time, so two names may stand for one
    file. *)
Definition file_id : Type := positive.
Record folder := mkFolder { entries : gmap jstr file_id; contents : gmap file_id jstr }.

Definition valid_name (name : jstr) : bool :=
  negb (str_eqb name []) && negb (existsb (fun c => (c =? 47) || (c =? 0))%N name)
  && negb (str_eqb name (u ".")) && negb (str_eqb name (u "..")).

Definition name_stem (name : jstr) : jstr := match last_index_of 46 name with Some i => take i name | None => name end.
Definition name_ext (name : jstr) : jstr := match last_index_of 46 name with Some i => drop i name | None => [] end.

(** The name of the n-th try. *)
Definition candidate_name (name : jstr) (n : nat) : jstr :=
  match n with O => name | _ => name_stem name ++ u " (" ++ dec_nat n ++ u ")" ++ name_ext name end.

Definition MAX_TRIES : nat := 999.
Definition CHUNK : nat := 2 ^ 20.

(** Where the program is. While it copies it has a file of its own, open under a name; an exit tells whether that
    file was emptied. *)
Inductive claim_state :=
| Claiming (n : nat) (hardlink : bool)
| OpeningSource (cand : jstr) (fd : file_id)
| Reading (cand : jstr) (fd : file_id) (pos : nat) (stopped : bool)
| Writing (cand : jstr) (fd : file_id) (pos : nat) (chunk : jstr) (off : nat) (stopped : bool)
| Done (cand : jstr) (file : file_id)
| Refused (message : jstr)
| Abandoned (code : Z) (cand : jstr) (fd : file_id) (emptied : bool).

Definition not_saved : jstr := u "Could not save into the download folder.".
Definition no_free_name : jstr := u "Could not find a free name in the download folder.".

(** The exit status and what is printed, on stdout and on stderr. *)
Definition claim_result (dir : jstr) (s : claim_state) : option (Z * jstr * jstr) :=
  match s with
  | Done cand _ => Some (0%Z, dir ++ u "/" ++ cand, [])
  | Refused message => Some (1%Z, [], message ++ newline)
  | Abandoned code cand _ emptied =>
    Some (code, [], if (code =? 143)%Z then [] else
      u "Could not save into the download folder; "
      ++ (if emptied then u "an empty " ++ cand ++ u " was left there."
          else cand ++ u " there may still hold part of the attachment.") ++ newline)
  | _ => None
  end.

Definition claim_start (name : jstr) : claim_state :=
  if valid_name name then Claiming 0 true else Refused (u "Invalid attachment name.").

(** Bytes written at a position of a file. *)
Definition write_at (pos : nat) (bytes old : jstr) : jstr :=
  take pos old ++ replicate (pos - length old) 0%N ++ bytes ++ drop (pos + length bytes) old.

(** [abandon]: the file is truncated, or that fails. *)
Inductive claim_abandon (i : file_id) : folder -> folder -> bool -> Prop :=
| emptied f old : contents f !! i = Some old -> claim_abandon i f (mkFolder (entries f) (<[i := []]> (contents f))) true
| not_emptied f : claim_abandon i f f false.

(** One step of the program, for an attachment staged in the file [tmp]. *)
Inductive claim_step (name : jstr) (tmp : file_id) : folder * claim_state -> folder * claim_state -> Prop :=
| link_made f n : n <= MAX_TRIES -> entries f !! candidate_name name n = None ->
    claim_step name tmp (f, Claiming n true)
      (mkFolder (<[candidate_name name n := tmp]> (entries f)) (contents f), Done (candidate_name name n) tmp)
| link_taken f n i : n <= MAX_TRIES -> entries f !! candidate_name name n = Some i ->
    claim_step name tmp (f, Claiming n true) (f, Claiming (S n) true)
| link_refused f n : n <= MAX_TRIES -> claim_step name tmp (f, Claiming n true) (f, Claiming n false)
| created f n i : n <= MAX_TRIES -> entries f !! candidate_name name n = None -> contents f !! i = None ->
    claim_step name tmp (f, Claiming n false)
      (mkFolder (<[candidate_name name n := i]> (entries f)) (<[i := []]> (contents f)), OpeningSource (candidate_name name n) i)
| name_taken f n i : n <= MAX_TRIES -> entries f !! candidate_name name n = Some i ->
    claim_step name tmp (f, Claiming n false) (f, Claiming (S n) false)
| not_created f n : n <= MAX_TRIES -> claim_step name tmp (f, Claiming n false) (f, Refused not_saved)
| no_name_left f n h : MAX_TRIES < n -> claim_step name tmp (f, Claiming n h) (f, Refused no_free_name)
| source_opened f c i : claim_step name tmp (f, OpeningSource c i) (f, Reading c i 0 false)
| source_refused f c i f' e : claim_abandon i f f' e -> claim_step name tmp (f, OpeningSource c i) (f', Abandoned 1 c i e)
| read_bytes f c i pos data k : contents f !! tmp = Some data -> k <= CHUNK -> take k (drop pos data) <> [] ->
    claim_step name tmp (f, Reading c i pos false)
      (f, Writing c i (pos + length (take k (drop pos data))) (take k (drop pos data)) 0 false)
| read_end f c i pos data : contents f !! tmp = Some data -> drop pos data = [] ->
    claim_step name tmp (f, Reading c i pos false) (f, Done c i)
| read_failed f c i pos f' e : claim_abandon i f f' e -> claim_step name tmp (f, Reading c i pos false) (f', Abandoned 1 c i e)
| read_stopped f c i pos f' e : claim_abandon i f f' e -> claim_step name tmp (f, Reading c i pos true) (f', Abandoned 143 c i e)
| write_made f c i pos chunk off w old : contents f !! i = Some old -> off + w < length chunk ->
    claim_step name tmp (f, Writing c i pos chunk off false)
      (mkFolder (entries f) (<[i := write_at (pos - length chunk + off) (take w (drop off chunk)) old]> (contents f)),
       Writing c i pos chunk (off + w) false)
| write_last f c i pos chunk off w old : contents f !! i = Some old -> off + w = length chunk ->
    claim_step name tmp (f, Writing c i pos chunk off false)
      (mkFolder (entries f) (<[i := write_at (pos - length chunk + off) (take w (drop off chunk)) old]> (contents f)),
       Reading c i pos false)
| write_failed f c i pos chunk off f' e : claim_abandon i f f' e ->
    claim_step name tmp (f, Writing c i pos chunk off false) (f', Abandoned 1 c i e)
| write_stopped f c i pos chunk off w old f' e : contents f !! i = Some old -> off + w <= length chunk ->
    claim_abandon i (mkFolder (entries f) (<[i := write_at (pos - length chunk + off) (take w (drop off chunk)) old]> (contents f))) f' e ->
    claim_step name tmp (f, Writing c i pos chunk off true) (f', Abandoned 143 c i e)
| write_failed_stopped f c i pos chunk off f' e : claim_abandon i f f' e ->
    claim_step name tmp (f, Writing c i pos chunk off true) (f', Abandoned 143 c i e).

(** A cancelling signal: noted while a read or a write is in flight. *)
Definition signalled (s : claim_state) : claim_state :=
  match s with
  | Reading c i pos _ => Reading c i pos true
  | Writing c i pos chunk off _ => Writing c i pos chunk off true
  | _ => s
  end.

Definition own_file (s : claim_state) : option file_id :=
  match s with
  | OpeningSource _ i | Reading _ i _ _ | Writing _ i _ _ _ _ | Abandoned _ _ i _ => Some i
  | Done _ i => Some i
  | _ => None
  end.

(** Other programs: they rename, remove and add names, and write, create and delete files, but for the staged file,
    the one being copied to, and the files [kept], which they do not delete. *)
Definition others_step (tmp : file_id) (kept : gset file_id) (f f' : folder) (s : claim_state) : Prop :=
  contents f' !! tmp = contents f !! tmp
  /\ (forall i, own_file s = Some i -> contents f' !! i = contents f !! i)
  /\ (forall i, i ∈ kept -> is_Some (contents f !! i) -> is_Some (contents f' !! i)).

(** The runs: steps of the program, of other programs, and signals, in any order. *)
Inductive claim_run (name : jstr) (tmp : file_id) (kept : gset file_id) (start : folder) : folder * claim_state -> Prop :=
| run_start : claim_run name tmp kept start (start, claim_start name)
| run_step s s' : claim_run name tmp kept start s -> claim_step name tmp s s' -> claim_run name tmp kept start s'
| run_others f f' s : claim_run name tmp kept start (f, s) -> others_step tmp kept f f' s -> claim_run name tmp kept start (f', s)
| run_signal f s : claim_run name tmp kept start (f, s) -> claim_run name tmp kept start (f, signalled s).

(** ** Lemmas *)

(** *** Names *)

Lemma candidate_inj name n m : candidate_name name n = candidate_name name m -> n = m.
Proof.
  assert (length name = length (name_stem name) + length (name_ext name)) as Hname.
  { rewrite <- length_app. f_equal. unfold name_stem, name_ext. destruct (last_index_of 46 name); [by rewrite take_drop|by rewrite app_nil_r]. }
  assert (forall k, length (candidate_name name (S k)) > length name) as Hlong.
  { intros k. cbn [candidate_name]. rewrite !length_app. change (length (u " (")) with 2. lia. }
  destruct n as [|n], m as [|m]; intros E; [done| | |].
  - specialize (Hlong m). rewrite <- E in Hlong. cbn in Hlong. lia.
  - specialize (Hlong n). rewrite E in Hlong. cbn in Hlong. lia.
  - cbn [candidate_name] in E. apply app_inv_head, app_inv_head in E. rewrite !(app_assoc (dec_nat _)) in E.
    apply app_inv_tail, app_inv_tail in E. unfold dec_nat in E. apply dec_inj in E. lia.
Qed.

Definition plain_name (c : N) : bool := negb ((c =? 47) || (c =? 0))%N.

Lemma valid_plain name : valid_name name = true -> forallb plain_name name = true.
Proof.
  unfold valid_name. intros H. bool_hyps. rewrite forallb_forall. intros c Hc%list_elem_of_In. unfold plain_name. apply negb_true_iff.
  match goal with H : existsb _ _ = false |- _ => rewrite existsb_false in H; by apply H end.
Qed.

Lemma candidate_plain name n : forallb plain_name name = true -> forallb plain_name (candidate_name name n) = true.
Proof.
  intros H. destruct n as [|n]; [done|]. cbn [candidate_name]. rewrite !forallb_app.
  assert (forallb plain_name (name_stem name) = true) as -> by (unfold name_stem; destruct (last_index_of 46 name); [by apply forallb_firstn|done]).
  assert (forallb plain_name (name_ext name) = true) as ->.
  { unfold name_ext. destruct (last_index_of 46 name) as [i|]; [|done]. rewrite <- (take_drop i name), forallb_app in H. by bool_hyps. }
  assert (forallb plain_name (dec_nat (S n)) = true) as ->; [|by vm_compute].
  eapply forallb_impl; [|apply dec_digits]. intros c Hc. unfold plain_name, is_digit, in_range in *. bool_hyps.
  apply negb_true_iff, orb_false_iff. rewrite !N.eqb_neq. lia.
Qed.

(** *** Contents *)

Lemma write_at_end pos bytes old : length old = pos -> write_at pos bytes old = old ++ bytes.
Proof.
  intros <-. unfold write_at. rewrite take_ge, Nat.sub_diag by done. cbn [replicate app]. rewrite drop_ge by lia. by rewrite app_nil_r.
Qed.

(** Writing the next bytes of the source after those already copied. *)
Lemma write_next pos w data : pos <= length data -> write_at pos (take w (drop pos data)) (take pos data) = take (pos + w) data.
Proof. intros H. rewrite write_at_end by (rewrite length_take; lia). by rewrite take_take_drop. Qed.

Section Run.
Context (name : jstr) (tmp : file_id) (kept : gset file_id) (start : folder) (data : jstr).

(** The file the program writes to. *)
Definition written_file (s : claim_state) : option file_id := match s with Done _ _ => None | _ => own_file s end.

Definition candidate (c : jstr) : Prop := exists n, n <= MAX_TRIES /\ c = candidate_name name n.

(** What each state knows of the copy: what is written so far is the beginning of the attachment. *)
Definition state_ok (f : folder) (s : claim_state) : Prop :=
  match s with
  | Claiming n _ => valid_name name = true
  | OpeningSource c i => candidate c /\ valid_name name = true /\ contents f !! i = Some []
  | Reading c i pos _ => candidate c /\ valid_name name = true /\ pos <= length data /\ contents f !! i = Some (take pos data)
  | Writing c i pos chunk off _ => candidate c /\ valid_name name = true
      /\ length chunk <= pos /\ pos <= length data /\ chunk = take (length chunk) (drop (pos - length chunk) data)
      /\ off < length chunk /\ contents f !! i = Some (take (pos - length chunk + off) data)
  | Done c i => candidate c /\ valid_name name = true /\ contents f !! i = Some data
  | Refused m => m ∈ [not_saved; no_free_name] \/ (valid_name name = false /\ m = u "Invalid attachment name.")
  | Abandoned code c i e => candidate c /\ valid_name name = true /\ (code = 1%Z \/ code = 143%Z) /\ (e = true -> contents f !! i = Some [])
  end.

(** What holds throughout a run. *)
Record claim_inv (f : folder) (s : claim_state) : Prop := mkClaimInv {
  inv_staged : contents f !! tmp = Some data;
  inv_kept : forall i, i ∈ kept -> is_Some (contents f !! i);
  inv_own : forall i, written_file s = Some i -> i ∉ kept /\ i <> tmp;
  inv_state : state_ok f s
}.

(** What a step leaves alone. *)
Definition untouched (own : option file_id) (f f' : folder) : Prop :=
  entries f ⊆ entries f' /\ forall i, own <> Some i -> is_Some (contents f !! i) -> contents f' !! i = contents f !! i.

Lemma abandon_untouched i f f' e : claim_abandon i f f' e -> untouched (Some i) f f' /\ (e = true -> contents f' !! i = Some []).
Proof.
  intros [f0 old H|f0]; (split; [split; [done|]|]); try done; cbn.
  - intros j Hj _. by rewrite lookup_insert_ne by congruence.
  - by rewrite lookup_insert_eq.
Qed.

Lemma untouched_write i f bytes : untouched (Some i) f (mkFolder (entries f) (<[i := bytes]> (contents f))).
Proof. split; [done|]. intros j Hj _. cbn. by rewrite lookup_insert_ne by congruence. Qed.

Lemma step_untouched f s f' s' : claim_step name tmp (f, s) (f', s') ->
  entries f ⊆ entries f' /\ forall i, written_file s <> Some i -> is_Some (contents f !! i) -> contents f' !! i = contents f !! i.
Proof.
  inversion 1; subst; cbn [entries contents]; try done.
  - split; [by apply insert_subseteq|done].
  - split; [by apply insert_subseteq|]. intros j _ Hj. apply lookup_insert_ne. intros ->. destruct Hj. congruence.
  - match goal with H : claim_abandon _ _ _ _ |- _ => apply abandon_untouched in H as [? _] end. done.
  - match goal with H : claim_abandon _ _ _ _ |- _ => apply abandon_untouched in H as [? _] end. done.
  - match goal with H : claim_abandon _ _ _ _ |- _ => apply abandon_untouched in H as [? _] end. done.
  - by apply untouched_write.
  - by apply untouched_write.
  - match goal with H : claim_abandon _ _ _ _ |- _ => apply abandon_untouched in H as [? _] end. done.
  - match goal with H : claim_abandon _ _ _ _ |- _ => apply abandon_untouched in H as [[H1 H2] _] end. split; [done|].
    intros j Hj Hs. cbn [written_file own_file] in Hj. rewrite H2; cbn; rewrite ?lookup_insert_ne by congruence; done.
  - match goal with H : claim_abandon _ _ _ _ |- _ => apply abandon_untouched in H as [? _] end. done.
Qed.
End Run.

(** The part of a chunk not yet written is what comes next in the source. *)
Lemma chunk_next (chunk data : jstr) b off w : chunk = take (length chunk) (drop b data) -> off + w <= length chunk ->
  take w (drop off chunk) = take w (drop (b + off) data).
Proof.
  intros E Hle. rewrite E. rewrite skipn_firstn_comm, take_take, drop_drop, Nat.min_l by lia. done.
Qed.

Lemma take_length_take {A} k (l : list A) : take k l = take (length (take k l)) l.
Proof. rewrite length_take. destruct (decide (k <= length l)); [by rewrite Nat.min_l|]. rewrite Nat.min_r, (take_ge l k), (take_ge l) by lia. done. Qed.

Section Invariant.
Context (name : jstr) (tmp : file_id) (kept : gset file_id) (data : jstr).

#[local] Notation Inv := (claim_inv name tmp kept data).

(** What is kept, and the staged file, outlive a step. *)
Lemma step_keeps f s f' s' : Inv f s -> claim_step name tmp (f, s) (f', s') ->
  contents f' !! tmp = Some data /\ (forall i, i ∈ kept -> contents f' !! i = contents f !! i) /\ (forall i, i ∈ kept -> is_Some (contents f' !! i)).
Proof.
  intros [Ht Hk Ho _] Hstep. destruct (step_untouched _ _ _ _ _ _ Hstep) as [_ U].
  assert (forall i, i ∈ kept -> contents f' !! i = contents f !! i) as K.
  { intros i Hi. apply U; [|by apply Hk]. intros E. by destruct (Ho i E). }
  split_and!; [|exact K|intros i Hi; rewrite K; auto].
  rewrite U; [done| |by rewrite Ht]. intros E. by destruct (Ho tmp E).
Qed.

(** The state's own part of the invariant. *)
Lemma step_state f s f' s' : Inv f s -> claim_step name tmp (f, s) (f', s') ->
  contents f' !! tmp = Some data ->
  (forall i, written_file s' = Some i -> i ∉ kept /\ i <> tmp) /\
  state_ok name data f' s'.
Proof.
  intros [Ht Hk Ho Hs] Hstep Ht'. inversion Hstep; subst; cbn [written_file own_file contents entries state_ok] in *.
  all: try (match goal with H : claim_abandon _ _ _ _ |- _ => apply abandon_untouched in H as [_ H] end).
  all: try (destruct_and? Hs; split_and!; eauto; fail).
  - split_and!; try done. by exists n.
  - split; [|split_and!; [by exists n|done|by rewrite lookup_insert_eq]]. intros j [= <-]. split; [|congruence]. intros Hj. destruct (Hk _ Hj). congruence.
  - split; [done|]. left. by left.
  - split; [done|]. left. right. by left.
  - destruct Hs as (? & ? & ?). split_and!; try done; lia.
  - match goal with H : contents _ !! tmp = Some ?d, H0 : contents _ !! tmp = Some data |- _ => assert (d = data) as -> by congruence end.
    destruct Hs as (? & ? & ? & ?). set (chunk := take k (drop pos data)) in *.
    assert (length chunk <= length data - pos) by (subst chunk; rewrite length_take, length_drop; lia).
    rewrite Nat.add_sub, Nat.add_0_r. assert (length chunk <> 0) by (intros E%length_zero_iff_nil; done). split_and!; try done; try lia. subst chunk. apply take_length_take.
  - destruct Hs as (? & ? & ? & Hc). split_and!; try done. rewrite Hc. f_equal. apply take_ge.
    match goal with H : contents _ !! tmp = Some ?d, H0 : drop pos ?d = [] |- _ => apply (f_equal length) in H0; rewrite length_drop in H0; cbn in H0;
      assert (d = data) as -> by congruence end. lia.
  - destruct Hs as (? & ? & ? & ? & Hch & ? & Hc). split_and!; try done; try lia. rewrite lookup_insert_eq. f_equal.
    rewrite Hc in *. simplify_eq. rewrite (chunk_next chunk data (pos - length chunk) off w), Nat.add_assoc by (done || lia). apply write_next. lia.
  - destruct Hs as (? & ? & ? & ? & Hch & ? & Hc). split_and!; try done; try lia. rewrite lookup_insert_eq. f_equal.
    rewrite Hc in *. simplify_eq. rewrite (chunk_next chunk data (pos - length chunk) off w) by (done || lia).
    rewrite write_next by lia. f_equal. lia.
Qed.

Lemma inv_step f s f' s' : Inv f s -> claim_step name tmp (f, s) (f', s') -> Inv f' s'.
Proof.
  intros HI Hstep. destruct (step_keeps _ _ _ _ HI Hstep) as (Ht & _ & Hk). destruct (step_state _ _ _ _ HI Hstep Ht). by split.
Qed.

Lemma inv_others f f' s : Inv f s -> others_step tmp kept f f' s -> Inv f' s.
Proof.
  intros [Ht Hk Ho Hs] (Et & Eo & Ek). split; [congruence|by intros i Hi; apply Ek, Hk|done|].
  destruct s as [| | | |c i| |]; cbn [state_ok own_file] in *; try done.
  all: destruct_and! Hs; split_and!; try done; rewrite Eo by done; auto.
Qed.

Lemma inv_signal f s : Inv f s -> Inv f (signalled s).
Proof. intros [Ht Hk Ho Hs]. destruct s; by split. Qed.

Lemma inv_run start s : contents start !! tmp = Some data -> (forall i, i ∈ kept -> is_Some (contents start !! i)) ->
  claim_run name tmp kept start s -> Inv s.1 s.2.
Proof.
  intros Ht Hk. induction 1 as [|[f s] [f' s'] _ IH Hstep|f f' s _ IH Ho|f s _ IH]; cbn [fst snd] in *.
  - split; [done|done| |]; unfold claim_start; destruct (valid_name name) eqn:E; cbn [written_file own_file state_ok]; try done; auto.
  - by eapply inv_step.
  - by eapply inv_others.
  - by apply inv_signal.
Qed.
End Invariant.

(** *** Steps left *)

(** Names to try, then bytes to read and to write. *)
Definition claim_weight (data : jstr) (s : claim_state) : nat :=
  match s with
  | Claiming n h => 2 * length data + 3 + 2 * (S (S MAX_TRIES) - n) + (if h : bool then 1 else 0)
  | OpeningSource _ _ => 2 * length data + 2
  | Reading _ _ pos _ => 2 * (length data - pos) + 1
  | Writing _ _ pos chunk off _ => 2 * (length data - pos) + (length chunk - off) + 1
  | Done _ _ | Refused _ | Abandoned _ _ _ _ => 0
  end.

Lemma weight_signalled data s : claim_weight data (signalled s) = claim_weight data s.
Proof. by destruct s. Qed.

(** *** The saved name *)

Lemma safe_name_valid raw : valid_name (safeAttachmentFileName raw) = true.
Proof.
  destruct (safe_name_ok raw) as (Hne & _ & Hf & Hl). revert Hne Hf Hl. generalize (safeAttachmentFileName raw). intros s Hne Hf Hl.
  unfold valid_name. rewrite (proj2 (str_eqb_neq _ _) Hne). cbn [negb andb].
  assert (existsb (fun c => (c =? 47) || (c =? 0))%N s = false) as ->.
  { apply existsb_false. intros c Hc. rewrite Forall_forall in Hf. destruct (Hf c Hc) as [H1 H2].
    apply orb_false_iff. split; apply N.eqb_neq; intros ->; [by vm_compute in H2|by vm_compute in H1]. }
  assert (forall t, s <> 46%N :: t) as Hdot by (intros t ->; by specialize (Hl _ _ eq_refl)).
  change (u ".") with [46%N]. change (u "..") with [46%N; 46%N].
  by rewrite (proj2 (str_eqb_neq s [46%N]) (Hdot [])), (proj2 (str_eqb_neq s [46%N; 46%N]) (Hdot [46%N])).
Qed.

(** ** Downloading and opening *)

(** What the tools of the download script answer: the folder's setting and the home directory, whether the folders
    could be made, the free kilobytes when they are known, the status of the transfer, the bytes received, and what
    the claim printed. *)
Record transfer := mkTransfer {
  xdg_dir : jstr; home_dir : jstr; folders_made : bool; free_kb : option Z; bw_status : Z; received : Z;
  claimed : jstr -> Z * jstr * jstr
}.

Definition download_dir (t : transfer) : jstr :=
  if str_eqb (xdg_dir t) [] || str_eqb (xdg_dir t) (home_dir t) then home_dir t ++ u "/Downloads" else xdg_dir t.

Definition too_large : jstr := u "Attachment exceeded the " ++ dec_Z max_mb ++ u " MB download limit." ++ newline.

(** The status, stdout and stderr of attachmentDownloadCommand. *)
Definition download (declaredSize : jsval) (t : transfer) : Z * jstr * jstr :=
  if negb (folders_made t) then (1%Z, [], [])
  else if (MAX_ATTACHMENT_BYTES <? wanted_bytes declaredSize)%Z
  then (1%Z, [], u "Attachment is larger than the " ++ dec_Z max_mb ++ u " MB download limit." ++ newline)
  else if (match free_kb t with Some avail => (avail <? need_kb declaredSize)%Z | None => false end)
  then (1%Z, [], u "Not enough free space in the download folder." ++ newline)
  else if negb (bw_status t =? 0)%Z
  then (1%Z, [], if (bw_status t =? 124)%Z then u "Download timed out." ++ newline else if (bw_status t =? 153)%Z then too_large else [])
  else if (MAX_ATTACHMENT_BYTES <? received t)%Z then (1%Z, [], too_large)
  else
    let '(c, out, err) := claimed t (download_dir t) in
    if (c =? 0)%Z then (0%Z, take 4096 (command_text out), err) else (c, [], err).

(** The name of the link an attachment is opened through, None when the path is refused. *)
Definition link_name (target : jstr) : option jstr :=
  if is_absolute target && negb (existsb (N.eqb 0) target) then
    let base := match last_index_of 47 target with Some i => drop (S i) target | None => target end in
    let ext := match last_index_of 46 base with
               | Some (S i) =>
                 match drop (S i) base with
                 | 46%N :: t => if (1 <=? length t) && (length t <=? 10) && all_in is_alnum t then 46%N :: t else []
                 | _ => []
                 end
               | _ => []
               end in
    Some (u "attachment" ++ ext)
  else None.

(** ** Properties *)

Section Properties.
Context (raw : jsval) (tmp : file_id) (kept : gset file_id) (start : folder) (data : jstr).
Context (Hstaged : contents start !! tmp = Some data) (Hkept : forall i, i ∈ kept -> is_Some (contents start !! i)).

#[local] Notation name := (safeAttachmentFileName raw).

(** C9. Saving an attachment never overwrites anything. Whatever the vault calls the
    file, and whatever other programs do in the folder meanwhile, no step of the
    claim renames or removes an entry, replaces what a name stands for, or
    changes a file other than the one it created itself: every file that was
    there, and the staged one, keep their contents. *)
Theorem claim_never_overwrites f s f' s' :
  claim_run name tmp kept start (f, s) -> claim_step name tmp (f, s) (f', s') ->
  entries f ⊆ entries f' /\ contents f' !! tmp = contents f !! tmp /\ forall i, i ∈ kept -> contents f' !! i = contents f !! i.
Proof.
  intros Hrun Hstep. pose proof (inv_run _ _ _ _ _ _ Hstaged Hkept Hrun) as HI. cbn [fst snd] in HI.
  destruct (step_keeps _ _ _ _ _ _ _ _ HI Hstep) as (Ht & Hk & _). destruct (step_untouched _ _ _ _ _ _ Hstep) as [He _].
  split_and!; [done|by rewrite Ht, (inv_staged _ _ _ _ _ _ HI)|done].
Qed.

(** What the claim reports is what is in the folder. When it exits 0 it printed
    the path of one of its thousand candidate names, directly inside the folder,
    and the file it put there holds the whole attachment; when it stops after
    having created a file, it exits 1 or 143 and printed no path, and unless it
    says otherwise the file is empty; and it never refuses the name. *)
Theorem claim_outcome dir f s code out err :
  claim_run name tmp kept start (f, s) -> claim_result dir s = Some (code, out, err) ->
  match s with
  | Done c i => code = 0%Z /\ err = [] /\ out = dir ++ u "/" ++ c /\ contents f !! i = Some data
      /\ (exists n, n <= MAX_TRIES /\ c = candidate_name name n) /\ forallb plain_name c = true
  | Abandoned _ c i e => (code = 1%Z \/ code = 143%Z) /\ out = [] /\ (e = true -> contents f !! i = Some [])
  | Refused m => code = 1%Z /\ out = [] /\ m ∈ [not_saved; no_free_name]
  | _ => False
  end.
Proof.
  intros Hrun Hr. pose proof (inv_run _ _ _ _ _ _ Hstaged Hkept Hrun) as [_ _ _ Hs]. cbn [fst snd] in Hs.
  destruct s as [| | | |c i|m|c0 c i e]; cbn [claim_result state_ok] in *; simplify_eq.
  - destruct Hs as ((n & Hn & ->) & Hv & Hc). split_and!; eauto. by apply candidate_plain, valid_plain.
  - destruct Hs as [Hm|[Hv _]]; [done|]. by rewrite safe_name_valid in Hv.
  - by destruct Hs as (_ & _ & Hc & He).
Qed.

(** The claim ends. Each of its steps, other than a write that wrote nothing and
    is tried again, leaves fewer names to try and fewer bytes to copy; other
    programs and signals change nothing of that. *)
Theorem claim_progress f s f' s' :
  claim_run name tmp kept start (f, s) -> claim_step name tmp (f, s) (f', s') ->
  claim_weight data s' < claim_weight data s \/ s' = s.
Proof.
  intros Hrun Hstep. pose proof (inv_run _ _ _ _ _ _ Hstaged Hkept Hrun) as HI. cbn [fst snd] in HI.
  pose proof (inv_state _ _ _ _ _ _ HI) as Hs. pose proof (inv_staged _ _ _ _ _ _ HI) as Ht.
  inversion Hstep; subst; cbn [claim_weight state_ok] in *; try (left; lia).
  - left. match goal with H : contents _ !! tmp = Some ?d, H0 : contents _ !! tmp = Some data |- _ => assert (d = data) as -> by congruence end.
    assert (length (take k (drop pos data)) <> 0) by (intros E%length_zero_iff_nil; done).
    assert (length (take k (drop pos data)) <= length data - pos) by (rewrite length_take, length_drop; lia). lia.
  - destruct w as [|w]; [right; by rewrite Nat.add_0_r|left; lia].
Qed.
End Properties.

(** C39. A download that is reported stayed within the limits. When the script exits 0
    the declared size, if it is known, and the bytes received are at most 512 MB,
    the folder had room for the file and the reserve when its free space is
    known, and what is printed is at most 4096 characters of the claimed path
    (the script cuts at 4096 bytes, which is the same for a path in ASCII). *)
Theorem download_bounded declaredSize t out err :
  download declaredSize t = (0%Z, out, err) ->
  (size_known declaredSize = true -> num_leb (num_floor (to_num declaredSize)) (numz MAX_ATTACHMENT_BYTES) = true)
  /\ (received t <= MAX_ATTACHMENT_BYTES)%Z /\ bw_status t = 0%Z
  /\ (forall avail, free_kb t = Some avail -> (wanted_bytes declaredSize + ATTACHMENT_FREE_SLACK_BYTES <= avail * 1024)%Z)
  /\ exists path, claimed t (download_dir t) = (0%Z, path, err) /\ out = take 4096 (command_text path).
Proof.
  unfold download. destruct (folders_made t); [|done]. cbn [negb].
  destruct (Z.ltb_spec MAX_ATTACHMENT_BYTES (wanted_bytes declaredSize)) as [|Hw]; [done|].
  destruct (match free_kb t with Some avail => _ | None => _ end) eqn:Ef; [done|]. destruct (Z.eqb_spec (bw_status t) 0) as [Eb|]; [|done]. cbn [negb].
  destruct (Z.ltb_spec MAX_ATTACHMENT_BYTES (received t)) as [|Hr]; [done|]. destruct (claimed t (download_dir t)) as [[c path] e] eqn:Ec.
  destruct (Z.eqb_spec c 0) as [-> |Hc]; [|congruence]. intros [= <- <-]. split_and!; try done; [| |by exists path].
  - intros Hk. unfold wanted_bytes in Hw. cbv zeta in Hw. rewrite Hk in Hw. destruct (to_num declaredSize) as [|b|q] eqn:En;
      [unfold size_known in Hk; rewrite En in Hk; by rewrite !andb_false_r in Hk..|].
    change (num_floor (Fin q)) with (Fin (QArith_base.inject_Z (Qround.Qfloor q))) in *. unfold numz in *. change (QArith_base.Qnum (QArith_base.inject_Z (Qround.Qfloor q))) with (Qround.Qfloor q) in Hw.
    destruct (Z.ltb_spec MAX_ATTACHMENT_BYTES (Qround.Qfloor q)); [lia|]. cbn [num_leb]. apply QArith_base.Qle_bool_iff. by rewrite <- QArith_base.Zle_Qle.
  - intros avail Ea. rewrite Ea in Ef. apply Z.ltb_ge in Ef. unfold need_kb, kilobytes in Ef.
    destruct (size_known declaredSize) eqn:Ek.
    + revert Ef. generalize (wanted_bytes declaredSize). intros w Ef. unfold ATTACHMENT_FREE_SLACK_BYTES in *. pose proof (Z.mul_succ_div_gt (w + 64 * 1024 * 1024 + 1023) 1024 ltac:(lia)). lia.
    + assert (wanted_bytes declaredSize = 0%Z) as -> by (unfold wanted_bytes; by rewrite Ek).
      pose proof (Z.mul_succ_div_gt (MAX_ATTACHMENT_BYTES + ATTACHMENT_FREE_SLACK_BYTES + 1023) 1024 ltac:(lia)).
      unfold ATTACHMENT_FREE_SLACK_BYTES, MAX_ATTACHMENT_BYTES in *. lia.
Qed.

(** The program an attachment is opened with, and everything that can list its
    arguments, learn no name. The link is called "attachment", followed by at most
    a dot and ten letters or digits. *)
Theorem link_name_neutral target link : link_name target = Some link ->
  exists ext, link = u "attachment" ++ ext /\ length ext <= 11 /\ (ext = [] \/ exists t, ext = 46%N :: t /\ forallb is_alnum t = true).
Proof.
  unfold link_name. destruct (_ && _); [|done]. intros [= <-]. eexists. split; [done|].
  destruct (last_index_of 46 _) as [[|i]|]; [cbn; auto with lia| |cbn; auto with lia].
  destruct (drop (S i) _) as [|c t]; [cbn; auto with lia|].
  destruct (N.eq_dec c 46%N) as [-> |Hc].
  - destruct (_ && _ && all_in is_alnum t) eqn:E; [|cbn; auto with lia]. bool_hyps. split.
    + cbn. match goal with H : (length t <=? 10) = true |- _ => apply Nat.leb_le in H end. lia.
    + right. eauto.
  - destruct c as [|p]; [cbn; auto with lia|]. by repeat (destruct p as [p|p|]; try (cbn; auto with lia)).
Qed.

(** *** Witnesses *)

Definition example_name : jsval := JStr (u "notes.txt").
Definition example_folder : folder :=
  mkFolder {[u "notes.txt" := 2%positive]} (<[1%positive := u "the attachment"]> {[2%positive := u "someone else's"]}).

Lemma example_run : claim_run (safeAttachmentFileName example_name) 1%positive {[2%positive]} example_folder (example_folder, Claiming 1 true).
Proof.
  eapply run_step; [apply run_start|]. change (claim_start (safeAttachmentFileName example_name)) with (Claiming 0 true).
  apply (link_taken _ _ _ 0 2%positive); [unfold MAX_TRIES; lia|by vm_compute].
Qed.

Lemma example_step : claim_step (safeAttachmentFileName example_name) 1%positive (example_folder, Claiming 1 true)
  (mkFolder (<[candidate_name (safeAttachmentFileName example_name) 1 := 1%positive]> (entries example_folder)) (contents example_folder),
   Done (candidate_name (safeAttachmentFileName example_name) 1) 1%positive).
Proof. apply link_made; [unfold MAX_TRIES; lia|by vm_compute]. Qed.

Lemma example_kept i : i ∈ ({[2%positive]} : gset file_id) -> is_Some (contents example_folder !! i).
Proof. intros ->%elem_of_singleton. by eexists. Qed.

Lemma claim_never_overwrites_witness :
  entries example_folder ⊆ <[candidate_name (safeAttachmentFileName example_name) 1 := 1%positive]> (entries example_folder).
Proof.
  apply (claim_never_overwrites example_name 1%positive {[2%positive]} example_folder (u "the attachment") ltac:(by vm_compute) example_kept
    _ _ _ _ example_run example_step).
Defined.

Lemma claim_outcome_witness :
  claim_result (u "/home/me/Downloads") (Done (u "notes (1).txt") 1%positive) = Some (0%Z, u "/home/me/Downloads/notes (1).txt", [])
  /\ forallb plain_name (candidate_name (safeAttachmentFileName example_name) 1) = true.
Proof.
  split; [by vm_compute|].
  apply (claim_outcome example_name 1%positive {[2%positive]} example_folder (u "the attachment") ltac:(by vm_compute) example_kept
    (u "/home/me/Downloads") _ (Done (candidate_name (safeAttachmentFileName example_name) 1) 1%positive) 0%Z
    (u "/home/me/Downloads/" ++ candidate_name (safeAttachmentFileName example_name) 1) []
    (run_step _ _ _ _ _ _ example_run example_step) eq_refl).
Defined.

Lemma claim_progress_witness :
  claim_weight (u "the attachment") (Done (candidate_name (safeAttachmentFileName example_name) 1) 1%positive)
    < claim_weight (u "the attachment") (Claiming 1 true)
  \/ Done (candidate_name (safeAttachmentFileName example_name) 1) 1%positive = Claiming 1 true.
Proof.
  exact (claim_progress example_name 1%positive {[2%positive]} example_folder (u "the attachment") ltac:(by vm_compute) example_kept
    _ _ _ _ example_run example_step).
Defined.

Definition example_transfer : transfer :=
  mkTransfer [] (u "/home/me") true (Some 1000000%Z) 0 1234 (fun dir => (0%Z, dir ++ u "/notes.txt", [])).

Lemma download_bounded_witness :
  download (jz 1234) example_transfer = (0%Z, u "/home/me/Downloads/notes.txt", []) /\ (received example_transfer <= MAX_ATTACHMENT_BYTES)%Z.
Proof.
  assert (download (jz 1234) example_transfer = (0%Z, u "/home/me/Downloads/notes.txt", [])) as E.
  { unfold download. generalize (Nat.le_refl 4096). intros _. by vm_compute. }
  split; [exact E|]. exact (proj1 (proj2 (download_bounded (jz 1234) example_transfer _ _ E))).
Defined.

Lemma link_name_neutral_witness : exists ext, u "attachment.pdf" = u "attachment" ++ ext /\ length ext <= 11.
Proof.
  destruct (link_name_neutral (u "/home/me/Downloads/Salary (1).pdf") (u "attachment.pdf") ltac:(by vm_compute)) as (ext & E & Hl & _).
  exists ext. split; [exact E|exact Hl].
Defined.
