(* ===== verification/Fido.v ===== *)
(** * FIDO2 keys

    [src/FidoModel.js]: the probe that finds which plugged-in key holds which
    registered credential, the reader of its output, and the hand-off to the
    system's setup. The probe's script appears as a text, and as a function of
    what the machine answers. *)

From stdpp Require Import base list numbers strings.
From S2P Require Import Prelude.
From S2P Require Import JsValue.
From S2P Require Import Regex.
From S2P Require Import Shell.
From S2P Require Import Runtime.
From S2P Require Import Keyring.
From S2P Require Import Envelope.
From S2P Require Import Unlock.
Local Open Scope nat_scope.
Local Open Scope js_scope.

Definition FIDO_AUTHFILE : jstr := u "/etc/fido2/fido2".
Definition FIDO_MAX_PROBE_BYTES : nat := 4096.

Definition fidoSetupCommand : list jstr :=
  [u "omarchy"; u "launch"; u "floating"; u "terminal"; u "with"; u "presentation"; u "omarchy setup security fido2"].

Definition fidoRemoveCommand : list jstr :=
  [u "omarchy"; u "launch"; u "floating"; u "terminal"; u "with"; u "presentation"; u "omarchy remove security fido2"].

Definition fidoProbeCommand : list jstr :=
  let auth := u "'" ++ FIDO_AUTHFILE ++ u "'" in
  let script :=
    u "if command -v fido2-assert >/dev/null 2>&1 && command -v fido2-token >/dev/null 2>&1; "
    ++ u "then echo fido_installed=1; else echo fido_installed=0; fi; "
    ++ u "if [ -f " ++ auth ++ u " ] && [ -s " ++ auth ++ u " ] && [ ! -L " ++ auth ++ u " ]; then echo fido_registered=1; else echo fido_registered=0; fi; "
    ++ uq "__devs=`$(fido2-token -L 2>/dev/null | cut -d: -f1)`; "
    ++ uq "if command -v fido2-token >/dev/null 2>&1 && [ -n `$__devs` ]; then echo fido_token=1; else echo fido_token=0; fi; "
    ++ uq "__rp=`pam://$(hostname 2>/dev/null)`; printf 'rp=%s\n' `$__rp`; "
    ++ u "[ -f " ++ auth ++ u " ] && [ ! -L " ++ auth ++ u " ] || exit 0; "
    ++ uq "__line=`$(awk -F: -v u=`$(id -un)` '$1 == u { print; exit }' " ++ auth ++ uq ")`; "
    ++ uq "[ -n `$__line` ] || exit 0; "
    ++ uq "IFS=: read -r -a __parts <<< `$__line`; "
    ++ uq "for __entry in `${__parts[@]:1}`; do "
    ++ uq "  __cred=`${__entry%%,*}`; __opts=`${__entry##*,}`; __at=-; "
    ++ uq "  case `$__cred` in ''|*[!A-Za-z0-9+/=]*) continue ;; esac; "
    ++ u "  for __dev in $__devs; do "
    ++ uq "    if printf '%s\n%s\n%s\n' `$(head -c 32 /dev/urandom | base64 -w0)` `$__rp` `$__cred` "
    ++ uq "      | timeout 5 fido2-assert -G -t up=false `$__dev` >/dev/null 2>&1; then __at=`$__dev`; break; fi; "
    ++ u "  done; "
    ++ uq "  printf 'cred=%s|%s|%s\n' `$__cred` `$__opts` `$__at`; "
    ++ u "done" in
  bash (u "{ " ++ script ++ u "; } | head -c " ++ dec_nat FIDO_MAX_PROBE_BYTES).

(** ** Reading the probe *)

Record fido_cred := mkFidoCred { fc_cred : jstr; fc_options : jstr; fc_device : jstr; needsPin : bool }.

Record fido_probe := mkFidoProbe {
  installed : bool; registered : bool; tokenPresent : bool; fp_rp : jstr; credentials : list fido_cred;
  usable : list fido_cred; pinOnly : bool; fp_ready : bool; applicable : bool
}.

(** [/^[A-Za-z0-9+/]+={0,2}$/] *)
Definition is_cred_id (s : jstr) : bool := ENVELOPE_BASE64_RE s.

(** [/\+(pin|verification)\b/] *)
Definition pin_option : regex := RSeqs [RLit (u "+"); RAlts [RLit (u "pin"); RLit (u "verification")]; RBoundary].

(** [/^pam:\/\/[A-Za-z0-9.-]+$/] *)
Definition is_rp (s : jstr) : bool :=
  starts_with (u "pam://") s
  && (let host := drop (length (u "pam://")) s in negb (str_eqb host []) && all_in (fun c => is_alnum c || one_of (u ".-") c) host).

(** A line [key=value]: its key and its trimmed value. *)
Definition probe_line (raw : jstr) : option (jstr * jstr) :=
  let line := trim raw in
  match index_of (u "=") line with
  | Some (S i) => Some (take (S i) line, trim (drop (S (S i)) line))
  | _ => None
  end.

Definition cred_line (value : jstr) : option fido_cred :=
  match split_char 124 value with
  | [id; options; device] =>
    if is_cred_id id
    then Some (mkFidoCred id options (if str_eqb device (u "-") then [] else device) (test pin_option options))
    else None
  | _ => None
  end.

(** The credentials of the lines, and the last value of each other key. *)
Definition probe_creds (lines : list (jstr * jstr)) : list fido_cred :=
  omap (fun '(k, v) => if str_eqb k (u "cred") then cred_line v else None) lines.
Definition probe_found (lines : list (jstr * jstr)) (key : string) : jstr :=
  fold_left (fun v '(k, w) => if str_eqb k (u key) then w else v) lines [].

Definition parseFidoProbe (raw : jsval) : fido_probe :=
  let lines := omap probe_line (split_char 10 (text_of raw)) in
  let creds := probe_creds lines in
  let yes key := str_eqb (probe_found lines key) (u "1") in
  let rp := if is_rp (probe_found lines "rp") then probe_found lines "rp" else [] in
  let usable := List.filter (fun c => negb (str_eqb (fc_device c) []) && negb (needsPin c)) creds in
  let pinOnly := existsb (fun c => negb (str_eqb (fc_device c) []) && needsPin c) creds && match usable with [] => true | _ => false end in
  mkFidoProbe (yes "fido_installed") (yes "fido_registered") (yes "fido_token") rp creds usable pinOnly
    (yes "fido_installed" && yes "fido_registered" && yes "fido_token" && negb (str_eqb rp []) && match usable with [] => false | _ => true end)
    (yes "fido_installed" || yes "fido_registered" || yes "fido_token").

(** ** What the probe prints

    The machine: the tools installed, the authfile as a regular file and its
    size, the devices as words, the host's name, the user's registrations after
    the user's name, and the keys that answer for a credential. *)
Record machine := mkMachine {
  has_assert : bool; has_token : bool; auth_file : bool; auth_link : bool; auth_empty : bool;
  devices : list jstr; hostname : jstr; entries_of_user : list jstr; answers : jstr -> jstr -> bool
}.

Definition flag (key : string) (b : bool) : jstr := u key ++ u "=" ++ (if b then u "1" else u "0").

(** [${entry%%,*}] and [${entry##*,}] *)
Definition before_comma (s : jstr) : jstr := fst (span (fun c => negb (c =? 44)%N) s).
Definition after_comma (s : jstr) : jstr := match last_index_of 44 s with Some i => drop (S i) s | None => s end.

(** The line of a registration, None for one whose credential is not base64. *)
Definition entry_line (m : machine) (entry : jstr) : option jstr :=
  let cred := before_comma entry in
  if str_eqb cred [] || negb (forallb is_cred_char cred) then None
  else
    let at_ := match find_first (fun d => answers m d cred) (devices m) with Some d => d | None => u "-" end in
    Some (u "cred=" ++ cred ++ u "|" ++ after_comma entry ++ u "|" ++ at_).

Definition probe_output (m : machine) : jstr :=
  let line l := l ++ newline in
  let file := auth_file m && negb (auth_link m) in
  take FIDO_MAX_PROBE_BYTES
    (line (flag "fido_installed" (has_assert m && has_token m))
     ++ line (flag "fido_registered" (file && negb (auth_empty m)))
     ++ line (flag "fido_token" (has_token m && match devices m with [] => false | _ => true end))
     ++ line (u "rp=pam://" ++ hostname m)
     ++ (if file then concat (map line (omap (entry_line m) (entries_of_user m))) else [])).

(** ** Lemmas *)

(** A text of the probe's fields: no white space, no bar. *)
Definition field_unit (c : N) : bool := negb (is_space c) && negb (c =? 124)%N.
Definition field (s : jstr) : bool := forallb field_unit s.

Lemma field_app a b : field (a ++ b) = field a && field b.
Proof. apply forallb_app. Qed.

Lemma field_no_space s : field s = true -> forallb (fun c => negb (is_space c)) s = true.
Proof. apply forallb_impl. intros c H. unfold field_unit in H. by bool_hyps; apply negb_true_iff. Qed.

Lemma no_space_app a b : forallb (fun c => negb (is_space c)) (a ++ b) = forallb (fun c => negb (is_space c)) a && forallb (fun c => negb (is_space c)) b.
Proof. apply forallb_app. Qed.

Lemma no_space_no_newline s : forallb (fun c => negb (is_space c)) s = true -> 10%N ∉ s.
Proof. intros H Hin%list_elem_of_In. rewrite forallb_forall in H. by specialize (H _ Hin). Qed.

Lemma split_bar a b c : field a = true -> field b = true -> field c = true ->
  split_char 124 (a ++ u "|" ++ b ++ u "|" ++ c) = [a; b; c].
Proof.
  intros Ha Hb Hc. change (u "|") with [124%N]. unfold split_char.
  assert (forall s, field s = true -> forallb (fun d => negb (124 =? d)%N) s = true) as G.
  { intros s. apply forallb_impl. intros d H. unfold field_unit in H. bool_hyps. by rewrite N.eqb_sym; apply negb_true_iff. }
  cbn [app]. rewrite split_on_app, split_on_app, split_on_none by auto. done.
Qed.

Lemma cred_id_chars s : is_cred_id s = true -> s <> [] /\ forallb is_cred_char s = true.
Proof.
  unfold is_cred_id, ENVELOPE_BASE64_RE. pose proof (span_spec is_base64_unit s) as [Es Hs].
  destruct (span is_base64_unit s) as [body pad]. cbn [fst snd] in *. intros H. bool_hyps. split.
  - intros ->. by destruct body.
  - rewrite Es, forallb_app. apply andb_true_iff. split; (eapply forallb_impl; [|eassumption]); intros c Hc; unfold is_cred_char.
    + by rewrite Hc.
    + apply N.eqb_eq in Hc as <-. by rewrite orb_true_r.
Qed.

Lemma cred_char_field s : forallb is_cred_char s = true -> field s = true.
Proof.
  apply forallb_impl. intros c H. unfold is_cred_char, is_base64_unit, field_unit, is_alnum, is_digit, is_lower, is_upper, in_range in *.
  assert (c = 43 \/ c = 47 \/ c = 61 \/ (48 <= c <= 57) \/ (97 <= c <= 122) \/ (65 <= c <= 90))%N as Hc.
  { unfold one_of in H. change (u "+/") with [43; 47]%N in H. cbn [existsb] in H.
    rewrite !orb_true_iff, !andb_true_iff, !N.leb_le, !N.eqb_eq in H. destruct_or! H; first [lia|done]. }
  apply andb_true_iff. split; apply negb_true_iff; [|apply N.eqb_neq; lia].
  destruct (is_space c) eqn:E; [|done]. unfold is_space, in_range in E. rewrite !orb_true_iff, !andb_true_iff, !N.leb_le, !N.eqb_eq in E. lia.
Qed.

(** The machine's answers hold no white space and no bar. *)
Record plain_machine (m : machine) : Prop := mkPlain {
  plain_host : forallb (fun c => is_alnum c || one_of (u ".-") c) (hostname m) = true;
  plain_host_some : hostname m <> [];
  plain_devices : Forall (fun d => field d = true /\ d <> [] /\ d <> u "-") (devices m);
  plain_entries : Forall (fun e => field (after_comma e) = true) (entries_of_user m)
}.

(** The registrations that may be used, each with the first key that answers for it. *)
Definition registration (m : machine) (entry : jstr) : option fido_cred :=
  let cred := before_comma entry in
  if is_cred_id cred
  then Some (mkFidoCred cred (after_comma entry) (default [] (find_first (fun d => answers m d cred) (devices m))) (test pin_option (after_comma entry)))
  else None.

Lemma probe_line_plain (key : string) v : forallb (fun c => negb (is_space c)) (u key ++ u "=" ++ v) = true ->
  index_of (u "=") (u key ++ u "=" ++ v) = Some (length (u key)) -> length (u key) <> 0 ->
  probe_line (u key ++ u "=" ++ v) = Some (u key, v).
Proof.
  intros Hs Hi Hn. unfold probe_line. rewrite trim_id, Hi by done. destruct (length (u key)) as [|i] eqn:El; [done|].
  rewrite <- El at 1. rewrite take_app_length. f_equal. f_equal.
  change (u "=" ++ v) with (61%N :: v) in *. rewrite drop_app_ge by lia. replace (S (S i) - length (u key)) with 1 by lia. cbn [drop].
  apply trim_id. rewrite forallb_app in Hs. cbn [forallb] in Hs. by bool_hyps.
Qed.

Lemma entry_line_read m e l : plain_machine m -> field (after_comma e) = true -> entry_line m e = Some l ->
  10%N ∉ l /\ exists v, probe_line l = Some (u "cred", v) /\ cred_line v = registration m e.
Proof.
  intros Hm Ho. unfold entry_line, registration. set (cred := before_comma e). destruct (_ || _) eqn:E; [done|]. intros [= <-].
  bool_hyps. assert (field cred = true) as Hc by (by apply cred_char_field).
  set (at_ := match find_first _ _ with Some d => d | None => _ end).
  assert (field at_ = true /\ (if str_eqb at_ (u "-") then [] else at_) = default [] (find_first (fun d => answers m d cred) (devices m))) as [Ha Hd].
  { subst at_. destruct (find_first _ _) as [d|] eqn:Ed; [|by vm_compute]. apply find_first_some in Ed as [Hin _].
    destruct (proj1 (Forall_forall _ _) (plain_devices _ Hm) d Hin) as (Hf & _ & Hne). split; [done|]. by rewrite (proj2 (str_eqb_neq _ _) Hne). }
  set (rest := cred ++ u "|" ++ after_comma e ++ u "|" ++ at_).
  change (u "cred=" ++ rest) with (u "cred" ++ u "=" ++ rest).
  assert (forallb (fun c => negb (is_space c)) (u "cred" ++ u "=" ++ rest) = true) as Hns.
  { subst rest. rewrite !no_space_app. rewrite (field_no_space cred), (field_no_space (after_comma e)), (field_no_space at_) by done. by vm_compute. }
  split; [by apply no_space_no_newline|]. exists rest. split; [by apply (probe_line_plain "cred" rest)|].
  unfold cred_line. subst rest. rewrite split_bar by done. destruct (is_cred_id cred); [|done]. by rewrite Hd.
Qed.

Lemma registration_printed m e : entry_line m e = None -> registration m e = None.
Proof.
  unfold entry_line, registration. destruct (_ || _) eqn:E; [|done]. intros _. destruct (is_cred_id _) eqn:Ec; [|done].
  apply cred_id_chars in Ec as [Hne Hc]. apply orb_true_iff in E as [E|E]; [by apply str_eqb_eq in E|]. by rewrite Hc in E.
Qed.

(** Reading the lines of the registrations gives the registrations. *)
Lemma creds_of_entries m es : plain_machine m -> Forall (fun e => field (after_comma e) = true) es ->
  probe_creds (omap probe_line (omap (entry_line m) es)) = omap (registration m) es.
Proof.
  intros Hm. induction 1 as [|e es He _ IH]; [done|]. cbn [omap list_omap].
  destruct (entry_line m e) as [l|] eqn:El; [|by rewrite (registration_printed m e El)].
  destruct (entry_line_read m e l Hm He El) as (_ & v & Hv & Hc). cbn [omap list_omap]. rewrite Hv. unfold probe_creds in *.
  cbn [omap list_omap]. change (str_eqb (u "cred") (u "cred")) with true. cbv iota. rewrite Hc. destruct (registration m e); by rewrite IH.
Qed.

Definition registrations_readable (m : machine) : bool := auth_file m && negb (auth_link m).

(** The lines of the probe, before the cap. *)
Definition probe_lines (m : machine) : list jstr :=
  [flag "fido_installed" (has_assert m && has_token m);
   flag "fido_registered" (registrations_readable m && negb (auth_empty m));
   flag "fido_token" (has_token m && match devices m with [] => false | _ => true end);
   u "rp=pam://" ++ hostname m]
  ++ (if registrations_readable m then omap (entry_line m) (entries_of_user m) else []).

Lemma probe_output_lines m : probe_output m = take FIDO_MAX_PROBE_BYTES (concat (map (fun l => l ++ newline) (probe_lines m))).
Proof.
  unfold probe_output, probe_lines, registrations_readable. f_equal. rewrite map_app, concat_app. cbn [map concat]. rewrite <- !app_assoc.
  do 4 f_equal. by destruct (auth_file m && negb (auth_link m)).
Qed.

Lemma host_no_space m : plain_machine m -> forallb (fun c => negb (is_space c)) (hostname m) = true.
Proof.
  intros Hm. eapply forallb_impl; [|exact (plain_host _ Hm)]. intros c H. apply negb_true_iff. destruct (is_space c) eqn:E; [|done].
  unfold is_alnum, is_digit, is_lower, is_upper, is_space, in_range, one_of in *. change (u ".-") with [46; 45]%N in H. cbn [existsb] in H.
  rewrite !orb_true_iff, !andb_true_iff, !N.leb_le, !N.eqb_eq in *. destruct_or! H; try lia; done.
Qed.

Lemma probe_lines_one_line m : plain_machine m -> Forall (fun l => 10%N ∉ l) (probe_lines m).
Proof.
  intros Hm. unfold probe_lines, flag. apply Forall_app. split.
  - repeat apply Forall_cons_2; [| | | |by apply Forall_nil_2]; apply no_space_no_newline; rewrite !no_space_app.
    1-3: match goal with |- context [if ?b then u "1" else u "0"] => destruct b end; by vm_compute.
    rewrite (host_no_space m Hm). by vm_compute.
  - destruct (registrations_readable m); [|constructor]. apply Forall_forall. intros l Hl. apply list_elem_of_omap in Hl as (e & He & El).
    eapply entry_line_read; [exact Hm| |exact El]. exact (proj1 (Forall_forall _ _) (plain_entries _ Hm) e He).
Qed.

Lemma flag_line key b : forallb (fun c => negb (is_space c)) (u key ++ u "=") = true -> index_of (u "=") (flag key b) = Some (length (u key)) ->
  length (u key) <> 0 -> probe_line (flag key b) = Some (u key, if b then u "1" else u "0").
Proof.
  intros Hs Hi Hn. apply probe_line_plain; [|done|done]. rewrite app_assoc, no_space_app, Hs. by destruct b.
Qed.

(** The lines of the registrations have no other key. *)
Lemma entries_found m es key x : plain_machine m -> Forall (fun e => field (after_comma e) = true) es -> u key <> u "cred" ->
  fold_left (fun v '(k, w) => if str_eqb k (u key) then w else v) (omap probe_line (omap (entry_line m) es)) x = x.
Proof.
  intros Hm He Hk. induction He as [|e es He _ IH]; [done|]. cbn [omap list_omap]. destruct (entry_line m e) as [l|] eqn:El; [|done].
  destruct (entry_line_read m e l Hm He El) as (_ & v & Hv & _). cbn [omap list_omap]. rewrite Hv. cbn [fold_left].
  by rewrite (proj2 (str_eqb_neq _ _)) by congruence.
Qed.

(** ** Properties *)

(** What the panel knows of the keys is what the machine answered. For a machine
    whose names hold no white space and no bar, and a probe that fits its cap, the
    reader gives back: whether the tools, a readable registration and a key are
    there; the relying party of the host; every registered credential with its
    options and the first plugged-in key that answered for it; as usable exactly
    those with a key and without a PIN, and ready exactly when all of it is there
    and some credential is usable. *)
Theorem fido_probe_roundtrip m :
  plain_machine m -> length (concat (map (fun l => l ++ newline) (probe_lines m))) <= FIDO_MAX_PROBE_BYTES ->
  let p := parseFidoProbe (JStr (probe_output m)) in
  let creds := if registrations_readable m then omap (registration m) (entries_of_user m) else [] in
  credentials p = creds
  /\ usable p = List.filter (fun c => negb (str_eqb (fc_device c) []) && negb (needsPin c)) creds
  /\ (installed p, registered p, tokenPresent p)
     = (has_assert m && has_token m, registrations_readable m && negb (auth_empty m), has_token m && match devices m with [] => false | _ => true end)
  /\ fp_rp p = u "pam://" ++ hostname m
  /\ fp_ready p = installed p && registered p && tokenPresent p && match usable p with [] => false | _ => true end.
Proof.
  intros Hm Hlen p creds. subst p. unfold parseFidoProbe. cbn [text_of to_str is_nullish]. rewrite probe_output_lines, take_ge by done.
  rewrite <- (app_nil_r (concat _)), split_lines by (by apply probe_lines_one_line).
  set (es := if registrations_readable m then entries_of_user m else []).
  assert (Forall (fun e => field (after_comma e) = true) es) as Hes by (subst es; destruct (registrations_readable m); [apply Hm|constructor]).
  assert (creds = omap (registration m) es) as -> by (subst creds es; by destruct (registrations_readable m)).
  assert (probe_lines m = [flag "fido_installed" (has_assert m && has_token m);
    flag "fido_registered" (registrations_readable m && negb (auth_empty m));
    flag "fido_token" (has_token m && match devices m with [] => false | _ => true end); u "rp=pam://" ++ hostname m] ++ omap (entry_line m) es) as ->
    by (unfold probe_lines; subst es; by destruct (registrations_readable m)).
  rewrite !omap_app. cbn [omap list_omap]. change (probe_line []) with (@None (jstr * jstr)). cbv iota. rewrite app_nil_r.
  rewrite !flag_line by (by vm_compute || done). change (u "rp=pam://" ++ hostname m) with (u "rp" ++ u "=" ++ (u "pam://" ++ hostname m)).
  rewrite (probe_line_plain "rp") by first [reflexivity|done|rewrite !no_space_app, (host_no_space m Hm); by vm_compute].
  generalize (has_assert m && has_token m) (registrations_readable m && negb (auth_empty m))
    (has_token m && match devices m with [] => false | _ => true end). intros b1 b2 b3.
  set (four := [(u "fido_installed", if b1 then u "1" else u "0"); (u "fido_registered", if b2 then u "1" else u "0");
    (u "fido_token", if b3 then u "1" else u "0"); (u "rp", u "pam://" ++ hostname m)]).
  match goal with |- context [probe_creds ?l] => change l with (four ++ omap probe_line (omap (entry_line m) es)) end.
  assert (probe_creds (four ++ omap probe_line (omap (entry_line m) es)) = omap (registration m) es) as ->.
  { unfold probe_creds. rewrite omap_app. fold (probe_creds (omap probe_line (omap (entry_line m) es))). by rewrite creds_of_entries. }
  assert (forall key, u key <> u "cred" -> probe_found (four ++ omap probe_line (omap (entry_line m) es)) key
    = fold_left (fun v '(k, w) => if str_eqb k (u key) then w else v) four []) as Hf.
  { intros key Hk. unfold probe_found. rewrite fold_left_app. by apply entries_found. }
  rewrite !Hf by (by vm_compute). clear Hf.
  assert (is_rp (u "pam://" ++ hostname m) = true) as Hrp.
  { unfold is_rp. rewrite starts_with_app, drop_app_length, (proj2 (str_eqb_neq _ _) (plain_host_some _ Hm)). apply (plain_host _ Hm). }
  assert (fold_left (fun v '(k, w) => if str_eqb k (u "rp") then w else v) four [] = u "pam://" ++ hostname m) as -> by done.
  rewrite Hrp. cbn [installed registered tokenPresent fp_rp credentials usable fp_ready].
  assert (forall b : bool, str_eqb (if b then u "1" else u "0") (u "1") = b) as Hb by (intros []; by vm_compute).
  assert (fold_left (fun v '(k, w) => if str_eqb k (u "fido_installed") then w else v) four [] = if b1 then u "1" else u "0") as -> by done.
  assert (fold_left (fun v '(k, w) => if str_eqb k (u "fido_registered") then w else v) four [] = if b2 then u "1" else u "0") as -> by done.
  assert (fold_left (fun v '(k, w) => if str_eqb k (u "fido_token") then w else v) four [] = if b3 then u "1" else u "0") as -> by done.
  rewrite !Hb. split_and!; try done.
  assert (str_eqb (u "pam://" ++ hostname m) [] = false) as -> by done. by rewrite andb_true_r.
Qed.

Definition example_machine : machine :=
  mkMachine true true true false false [u "/dev/hidraw0"; u "/dev/hidraw1"] (u "desk")
    [u "QUJD,key1,es256,+presence"; u "REVG,key2,es256,+presence+pin"; u "*,x,es256,+presence"]
    (fun dev cred => str_eqb dev (u "/dev/hidraw1") && str_eqb cred (u "QUJD")).

Lemma fido_probe_roundtrip_witness :
  let p := parseFidoProbe (JStr (probe_output example_machine)) in
  fp_ready p = true /\ credentials p = [mkFidoCred (u "QUJD") (u "+presence") (u "/dev/hidraw1") false;
                                        mkFidoCred (u "REVG") (u "+presence+pin") [] true].
Proof.
  assert (plain_machine example_machine) as Hm.
  { split; [by vm_compute|by vm_compute| |]; repeat constructor; by vm_compute. }
  destruct (fido_probe_roundtrip example_machine Hm) as (Hc & _ & _ & _ & Hr); [apply Nat.leb_le; by vm_compute|].
  split; [by vm_compute|]. etrans; [exact Hc|]. by vm_compute.
Defined.
