(* ===== verification/Hooks.v ===== *)
(** * The programs preloaded into [bw]

    [src/bw-login-code.js] and [src/bw-fast-exit.js], which [bwNodeOptions] puts
    in front of every Node program started by a command of the panel: the first
    puts the two-step code into the arguments of [bw login] only, the second
    ends [bw] as soon as it has answered. A process is its arguments and its
    environment; [realpathSync] is a parameter. *)

From stdpp Require Import base list numbers strings.
From S2P Require Import Prelude.
From S2P Require Import JsValue.
From S2P Require Import Regex.
From S2P Require Import Shell.
From S2P Require Import Session.
From S2P Require Import Commands.
Local Open Scope nat_scope.

(** ** Whose process it is *)

Record process := mkProcess { argv : list jstr; env : list (jstr * jstr) }.

(** [/[\\/]@bitwarden[\\/]cli[\\/]build[\\/]bw\.js$/] *)
Definition separator : regex := RChar (fun c => (c =? 92)%N || (c =? 47)%N).
Definition bw_entry : regex :=
  RSeqs [separator; RLit (u "@bitwarden"); separator; RLit (u "cli"); separator; RLit (u "build"); separator; RLit (u "bw.js"); REnd].

(** The program's own path, None when it cannot be resolved. *)
Definition is_bw (realpath : jstr -> option jstr) (p : process) : bool :=
  match realpath (nth 1 (argv p) []) with Some entry => test bw_entry entry | None => false end.

(** ** bw-login-code.js *)

Definition FLAG : jstr := u "--qsbw-code-from-env".
Definition ENV : jstr := u "QSBW_CODE".

(** [indexOf(word, 2)] *)
Fixpoint position_of (word : jstr) (l : list jstr) : option nat :=
  match l with
  | [] => None
  | w :: t => if str_eqb w word then Some 0 else S <$> position_of word t
  end.
Definition flag_at (args : list jstr) : option nat := (fun i => i + 2) <$> position_of FLAG (drop 2 args).

Definition env_get (e : list (jstr * jstr)) (name : jstr) : option jstr := snd <$> find_first (fun b => str_eqb (fst b) name) e.
Definition env_delete (e : list (jstr * jstr)) (name : jstr) : list (jstr * jstr) := List.filter (fun b => negb (str_eqb (fst b) name)) e.

Definition login_code_hook (realpath : jstr -> option jstr) (p : process) : process :=
  match flag_at (argv p) with
  | None => p
  | Some at_ =>
    if negb (is_bw realpath p) then p
    else if negb (bool_decide (argv p !! 2 = Some (u "login"))) then p
    else
      let env' := env_delete (env p) ENV in
      match env_get (env p) ENV with
      | Some ((_ :: _) as code) => mkProcess (<[at_ := u "--code=" ++ code]> (argv p)) env'
      | _ => mkProcess (argv p) env'
      end
  end.

(** ** bw-fast-exit.js *)

(** The first argument that is no option. *)
Definition is_option (a : jstr) : bool := match a with c :: _ => (c =? 45)%N | [] => false end.
Definition is_serve (p : process) : bool :=
  match find_first (fun a => negb (is_option a)) (drop 2 (argv p)) with Some a => str_eqb a (u "serve") | None => false end.

Definition polls (realpath : jstr -> option jstr) (p : process) : bool := is_bw realpath p && negb (is_serve p).

(** The exit codes the poll finds, one tick after the other: the process exits with the first that is set, after its
    output is flushed; None while it goes on by itself. *)
Fixpoint fast_exit (ticks : list (option Z)) : option Z :=
  match ticks with
  | [] => None
  | Some code :: _ => Some code
  | None :: t => fast_exit t
  end.

Definition fast_exit_hook (realpath : jstr -> option jstr) (p : process) (ticks : list (option Z)) : option Z :=
  if polls realpath p then fast_exit ticks else None.

(** ** Lemmas *)

Lemma position_of_lookup word l i : position_of word l = Some i -> l !! i = Some word.
Proof.
  revert i; induction l as [|w l IH]; intros i; cbn [position_of]; [done|]. destruct (str_eqb w word) eqn:E.
  - intros [= <-]. apply str_eqb_eq in E as ->. done.
  - intros (j & Hj & ->)%fmap_Some. cbn. by apply IH.
Qed.

Lemma flag_at_lookup args at_ : flag_at args = Some at_ -> args !! at_ = Some FLAG /\ 2 <= at_.
Proof.
  unfold flag_at. intros (i & Hi & ->)%fmap_Some. apply position_of_lookup in Hi. rewrite lookup_drop in Hi.
  split; [|lia]. rewrite Nat.add_comm. exact Hi.
Qed.

Lemma env_get_delete e name : env_get (env_delete e name) name = None.
Proof.
  unfold env_get, env_delete. apply fmap_None, find_first_none, Forall_forall. intros b [_ Hb]%elem_of_bfilter. by apply negb_true_iff.
Qed.

Lemma env_get_delete_other e name other : name <> other -> env_get (env_delete e name) other = env_get e other.
Proof.
  intros Hne. unfold env_get, env_delete. f_equal. induction e as [|[n v] e IH]; [done|]. cbn [List.filter fst].
  destruct (str_eqb n name) eqn:E; cbn [negb find_first fst]; [|by destruct (str_eqb n other)].
  apply str_eqb_eq in E as ->. by rewrite (proj2 (str_eqb_neq _ _) Hne).
Qed.

(** ** Properties *)

(** C13. The two-step code reaches the login of the Bitwarden CLI and nothing else. Any
    other program, any other command of [bw], and a login without the
    placeholder, run with the arguments and the environment they were given. In
    the login, the placeholder alone is replaced, by one argument made of
    [--code=] and the code, and the code is gone from the environment, so that no
    program [bw] starts inherits it; without a code the placeholder stays, which
    [bw] refuses. *)
Theorem login_code_reaches_login realpath p :
  let p' := login_code_hook realpath p in
  let login := is_bw realpath p && bool_decide (argv p !! 2 = Some (u "login")) in
  (login = false \/ flag_at (argv p) = None -> p' = p)
  /\ (forall at_, login = true -> flag_at (argv p) = Some at_ ->
      env_get (env p') ENV = None
      /\ (forall name, name <> ENV -> env_get (env p') name = env_get (env p) name)
      /\ length (argv p') = length (argv p)
      /\ (forall i, i <> at_ -> argv p' !! i = argv p !! i)
      /\ argv p' !! at_ = Some (match env_get (env p) ENV with Some (c :: t) => u "--code=" ++ c :: t | _ => FLAG end)).
Proof.
  cbn zeta. unfold login_code_hook. split.
  - intros [H|H]; [|by rewrite H]. destruct (flag_at (argv p)) as [at_|]; [|done]. destruct (is_bw realpath p); cbn [negb andb] in *; [|done]. by rewrite H.
  - intros at_ Hl Hf. rewrite Hf. apply andb_true_iff in Hl as [-> ->]. cbn [negb]. destruct (flag_at_lookup _ _ Hf) as [Hat _].
    pose proof (lookup_lt_Some _ _ _ Hat) as Hlt.
    destruct (env_get (env p) ENV) as [[|c t]|]; cbn [argv env];
      (split; [apply env_get_delete|]; split; [intros name Hne; by apply env_get_delete_other|]); [done| |done].
    split; [by rewrite length_insert|]. split; [intros i Hi; by rewrite list_lookup_insert_ne by congruence|]. by rewrite (list_lookup_insert_eq _ _ _ Hlt).
Qed.

(** Ending early never changes an answer. The fast exit only ends the Bitwarden
    CLI itself, never a server it runs, and only with an exit code that the
    command has set: the first one seen. *)
Theorem fast_exit_own_code realpath p ticks code :
  fast_exit_hook realpath p ticks = Some code ->
  is_bw realpath p = true /\ is_serve p = false /\ exists before after, ticks = before ++ Some code :: after /\ Forall (fun t => t = None) before.
Proof.
  unfold fast_exit_hook, polls. destruct (is_bw realpath p); [|done]. destruct (is_serve p); [done|]. cbn [andb negb]. intros H. split; [done|]. split; [done|].
  induction ticks as [|[c|] t IH]; cbn [fast_exit] in H; [done| |].
  - injection H as ->. by exists [], t.
  - destruct (IH H) as (b & a & -> & Hb). exists (None :: b), a. split; [done|by constructor].
Qed.

Definition example_realpath (path : jstr) : option jstr :=
  if str_eqb path (u "/usr/bin/bw") then Some (u "/usr/lib/node_modules/@bitwarden/cli/build/bw.js") else Some path.
Definition example_login : process :=
  mkProcess [u "/usr/bin/node"; u "/usr/bin/bw"; u "login"; u "me@example.com"; u "--method"; u "0"; TWOFACTOR_CODE_FLAG; u "--raw"]
    [(TWOFACTOR_CODE_ENV, u "-1"); (u "HOME", u "/home/me")].

Lemma login_code_reaches_login_witness :
  argv (login_code_hook example_realpath example_login) !! 6 = Some (u "--code=-1") /\ env_get (env (login_code_hook example_realpath example_login)) ENV = None.
Proof.
  destruct (login_code_reaches_login example_realpath example_login) as [_ H].
  destruct (H 6) as (He & _ & _ & _ & Ha); [by vm_compute|by vm_compute|]. split; [exact Ha|exact He].
Defined.

Lemma fast_exit_own_code_witness :
  is_serve (mkProcess [u "/usr/bin/node"; u "/usr/bin/bw"; u "--session"; u "list"] []) = false.
Proof.
  apply (fast_exit_own_code example_realpath (mkProcess [u "/usr/bin/node"; u "/usr/bin/bw"; u "--session"; u "list"] []) [None; Some 1%Z; Some 0%Z] 1%Z).
  by vm_compute.
Defined.
