(* ===== verification/Helpers.v ===== *)
(** * The bundled helpers

    The shipped helper programs ([src/BitwardenModel.js], "The bundled helper",
    "The quick-unlock tool" and "The vault helper"): where they are, the
    inspection that must pass before one is launched, and the lines exchanged
    with the vault helper. The inspection's shell script appears as the text
    that is run and as what it decides from the facts it tests. *)

From stdpp Require Import base list numbers strings.
From S2P Require Import Prelude.
From S2P Require Import JsValue.
From S2P Require Import Json.
From S2P Require Import Shell.
From S2P Require Import Session.
From S2P Require Import SshAgent.
From S2P Require Import Runtime.
Local Open Scope nat_scope.
Local Open Scope js_scope.

(** ** Where a helper is *)

Definition SSH_AGENT_BUNDLED_RELATIVE : jstr := u "bin/x86_64-linux/qs-bitwarden-ssh-agent".
Definition SSH_AGENT_SUMS_RELATIVE : jstr := u "bin/SHA256SUMS".
Definition SSH_AGENT_DEVELOPMENT_RELATIVE : jstr := u "agent/target/debug/qs-bitwarden-ssh-agent".
Definition UNLOCK_KEY_ENVELOPE_VERSION : Z := 1.
Definition UNLOCK_KEY_CLI_VERSION : Z := 2.
Definition UNLOCK_KEY_BUNDLED_RELATIVE : jstr := u "bin/x86_64-linux/qs-bitwarden-unlock-key".
Definition UNLOCK_KEY_DEVELOPMENT_RELATIVE : jstr := u "unlock-key/target/debug/qs-bitwarden-unlock-key".
Definition VAULT_HELPER_PROTOCOL : Z := 1.
Definition VAULT_HELPER_BUNDLED_RELATIVE : jstr := u "bin/x86_64-linux/qs-bitwarden-vault".
Definition VAULT_HELPER_DEVELOPMENT_RELATIVE : jstr := u "vault/target/debug/qs-bitwarden-vault".

Record helper_spec := mkSpec { spec_name : jstr; spec_bundled : jstr; spec_development : jstr; protocolSed : jstr }.

Definition SSH_AGENT_HELPER_SPEC : helper_spec :=
  mkSpec (u "qs-bitwarden-ssh-agent") SSH_AGENT_BUNDLED_RELATIVE SSH_AGENT_DEVELOPMENT_RELATIVE
    (u "s/.*protocol \([0-9]*\).*/\1/p").
Definition UNLOCK_KEY_SPEC : helper_spec :=
  mkSpec (u "qs-bitwarden-unlock-key") UNLOCK_KEY_BUNDLED_RELATIVE UNLOCK_KEY_DEVELOPMENT_RELATIVE
    (u "s/.*cli v\([0-9]*\).*/\1/p").
Definition VAULT_HELPER_SPEC : helper_spec :=
  mkSpec (u "qs-bitwarden-vault") VAULT_HELPER_BUNDLED_RELATIVE VAULT_HELPER_DEVELOPMENT_RELATIVE
    (u "s/.*protocol \([0-9]*\).*/\1/p").

Definition helperCandidates (pluginDir : jsval) (spec : helper_spec) : list (jstr * jstr) :=
  let root := cleanAbsoluteDir pluginDir in
  if str_eqb root [] then []
  else [(u "bundled", root ++ u "/" ++ spec_bundled spec); (u "development", root ++ u "/" ++ spec_development spec)].

Definition helperPath (pluginDir : jsval) (spec : helper_spec) (source : jsval) : jstr :=
  match find_first (fun c => strict_eq (JStr (fst c)) source) (helperCandidates pluginDir spec) with
  | Some c => snd c
  | None => []
  end.

Definition sshAgentHelperCommand (pluginDir source : jsval) : list jstr :=
  let path := helperPath pluginDir SSH_AGENT_HELPER_SPEC source in if str_eqb path [] then [] else [path].
Definition vaultHelperPath (pluginDir source : jsval) : jstr := helperPath pluginDir VAULT_HELPER_SPEC source.
Definition unlockKeyPath (pluginDir source : jsval) : jstr := helperPath pluginDir UNLOCK_KEY_SPEC source.

Definition sshAgentDevelopmentHelperWarning (helper : jsval) : jstr :=
  let checksum := if truthy helper && truthy helper.["checksum"] then helper.["checksum"] else JStr (u "unchecked") in
  (if strict_eq checksum (JStr (u "mismatch"))
   then u "The shipped helper failed its checksum, so a locally built one is serving your SSH keys."
   else u "A locally built helper is serving your SSH keys, not the shipped one.")
  ++ u " It carries no recorded digest and no build provenance. "
  ++ u "Reinstall the plugin to restore the shipped helper before trusting a signature from it.".

Definition sshAgentHelperSourceLabel (source : jsval) : jstr :=
  if strict_eq source (JStr (u "bundled")) then u "the helper shipped with this plugin"
  else if strict_eq source (JStr (u "development")) then u "a locally built development helper, not the shipped artifact"
  else [].

(** ** The inspection script *)

(** [spec.bundled.replace(/^bin\//, [])] and the escaped dots of its sums line. *)
Definition sums_path (spec : helper_spec) : jstr :=
  let b := spec_bundled spec in if starts_with (u "bin/") b then drop 4 b else b.
Definition escape_dots (s : jstr) : jstr := concat (map (fun c => if (c =? 46)%N then [92; 46]%N else [c]) s).

Definition helperInspectCommand (pluginDir : jsval) (spec : helper_spec) : list jstr :=
  let root := cleanAbsoluteDir pluginDir in
  if str_eqb root [] then bash (u "echo state=missing")
  else
    let sumsLine := u "^[0-9a-f]{64}  " ++ escape_dots (sums_path spec) ++ u "$" in
    let script := u "__root=" ++ shellQuote (JStr root) ++ u "; " ++ uq "__report() { printf '%s\n' `$@`; exit 0; }; "
        ++ u "__found=''; " ++ u "for __pair in " ++ shellQuote (JStr (u "bundled:" ++ spec_bundled spec)) ++ u " "
        ++ shellQuote (JStr (u "development:" ++ spec_development spec)) ++ u "; do "
        ++ uq "  __source=`${__pair%%:*}`; __rel=`${__pair#*:}`; __bin=`$__root/$__rel`; "
        ++ uq "  [ -e `$__bin` ] || continue; " ++ uq "  __found=`$__source`; "
        ++ uq "  [ -f `$__bin` ] || { __state=not-a-file; continue; }; "
        ++ uq "  [ -x `$__bin` ] || { __state=not-executable; continue; }; "
        ++ uq "  __magic=`$(head -c 4 -- `$__bin` 2>/dev/null | od -An -tx1 | tr -d ' \n')`; "
        ++ uq "  [ `$__magic` = `7f454c46` ] || { __state=not-elf; continue; }; "
        ++ uq "  __arch=`$(od -An -tx1 -j 18 -N 1 -- `$__bin` 2>/dev/null | tr -d ' \n')`; "
        ++ uq "  [ `$__arch` = `3e` ] || { __state=wrong-architecture; continue; }; "
        ++ u "  __checksum=unchecked; " ++ uq "  if [ `$__source` = bundled ] && [ -f `$__root/"
        ++ SSH_AGENT_SUMS_RELATIVE ++ uq "` ]; then " ++ uq "    __line=`$(grep -E " ++ shellQuote (JStr sumsLine)
        ++ uq " `$__root/" ++ SSH_AGENT_SUMS_RELATIVE ++ uq "` | head -1)`; "
        ++ uq "    if [ -n `$__line` ] && ( cd `$__root/bin` && printf '%s\n' `$__line` | sha256sum -c --status ) 2>/dev/null; then "
        ++ u "      __checksum=match; "
        ++ u "    else __checksum=mismatch; __state=checksum-mismatch; continue; fi; " ++ u "  fi; "
        ++ uq "  __version=`$(timeout 5 `$__bin` --version 2>/dev/null | head -c 200)`; "
        ++ uq "  case `$__version` in *" ++ shellQuote (JStr (spec_name spec ++ u " "))
        ++ u "*) ;; *) __state=no-version; continue;; esac; "
        ++ uq "  __semver=`$(printf '%s' `$__version` | sed -n "
        ++ shellQuote (JStr (u "s/.*" ++ spec_name spec ++ u " \([0-9.]*\).*/\1/p")) ++ uq ")`; "
        ++ uq "  __proto=`$(printf '%s' `$__version` | sed -n " ++ shellQuote (JStr (protocolSed spec))
        ++ uq ")`; " ++ uq "  if timeout 20 `$__bin` --self-test >/dev/null 2>&1; then __self=pass; "
        ++ u "  else __self=fail; __state=self-test-failed; continue; fi; "
        ++ uq "  __report state=ok `source=$__source` `version=$__semver` `protocol=$__proto` "
        ++ uq "`checksum=$__checksum` `selfTest=$__self`; " ++ u "done; "
        ++ uq "if [ -z `$__found` ]; then __report state=missing; fi; "
        ++ uq "__report `state=${__state:-unusable}` `source=$__found` "
        ++ uq "`checksum=${__checksum:-unchecked}` `selfTest=${__self:-}`" in
      bash (cappedScript script (Some MAX_STDERR_BYTES)).

Definition sshAgentHelperInspectCommand (pluginDir : jsval) : list jstr := helperInspectCommand pluginDir SSH_AGENT_HELPER_SPEC.
Definition unlockKeyInspectCommand (pluginDir : jsval) : list jstr := helperInspectCommand pluginDir UNLOCK_KEY_SPEC.
Definition vaultHelperInspectCommand (pluginDir : jsval) : list jstr := helperInspectCommand pluginDir VAULT_HELPER_SPEC.

(** What the script finds at a candidate's path: the tests it makes, in order,
    and the two texts sed reads off the reported version. *)
Record candidate := mkCandidate {
  c_exists : bool; c_regular : bool; c_executable : bool; c_elf : bool; c_x86_64 : bool;
  c_listed : bool;        (** its SHA256SUMS line is there and matches *)
  c_named : bool;         (** --version names the program *)
  c_self_test : bool; c_semver : jstr; c_protocol : jstr }.

(** The script's variables; __found starts empty, __state and __checksum unset. *)
Record inspecting := mkInspecting { i_found : jstr; i_state : jstr; i_checksum : jstr; i_self : jstr }.

Definition report_lines (fields : list (string * jstr)) : jstr :=
  concat (map (fun kv => u (fst kv) ++ u "=" ++ snd kv ++ newline) fields).

(** One turn of the loop: the report that ends it, or the variables it leaves. *)
Definition inspect_one (sums_present : bool) (s : inspecting) (source : jstr) (c : candidate) : jstr + inspecting :=
  if negb (c_exists c) then inr s
  else
    let fail checksum self state := inr (mkInspecting source (u state) checksum self) in
    if negb (c_regular c) then fail (i_checksum s) (i_self s) "not-a-file"%string
    else if negb (c_executable c) then fail (i_checksum s) (i_self s) "not-executable"%string
    else if negb (c_elf c) then fail (i_checksum s) (i_self s) "not-elf"%string
    else if negb (c_x86_64 c) then fail (i_checksum s) (i_self s) "wrong-architecture"%string
    else
      let checked := str_eqb source (u "bundled") && sums_present in
      if checked && negb (c_listed c) then fail (u "mismatch") (i_self s) "checksum-mismatch"%string
      else
        let checksum := if checked then u "match" else u "unchecked" in
        if negb (c_named c) then fail checksum (i_self s) "no-version"%string
        else if negb (c_self_test c) then fail checksum (u "fail") "self-test-failed"%string
        else inl (report_lines [("state", u "ok"); ("source", source); ("version", c_semver c); ("protocol", c_protocol c);
                                ("checksum", checksum); ("selfTest", u "pass")]%string).

Fixpoint inspect_loop (sums_present : bool) (s : inspecting) (candidates : list (jstr * candidate)) : jstr :=
  match candidates with
  | [] =>
    if str_eqb (i_found s) [] then report_lines [("state", u "missing")]%string
    else
      let or_else v d := if str_eqb v [] then u d else v in
      report_lines [("state", or_else (i_state s) "unusable"%string); ("source", i_found s);
                    ("checksum", or_else (i_checksum s) "unchecked"%string); ("selfTest", i_self s)]%string
  | (source, c) :: t =>
    match inspect_one sums_present s source c with inl report => report | inr s' => inspect_loop sums_present s' t end
  end.

(** What the script prints. *)
Definition inspection (sums_present : bool) (bundled development : candidate) : jstr :=
  inspect_loop sums_present (mkInspecting [] [] [] []) [(u "bundled", bundled); (u "development", development)].

(** ** Reading the inspection *)

Definition uninspectedHelper : jsval :=
  obj [("state", JStr (u "unknown")); ("source", JStr []); ("version", JStr []); ("protocol", jz 0);
       ("checksum", JStr (u "unchecked")); ("selfTest", JStr []); ("message", JStr [])].

Definition no_helper : list (jstr * jsval) :=
  fields [("state", JStr (u "missing")); ("source", JStr []); ("version", JStr []); ("protocol", jz 0);
          ("checksum", JStr (u "unchecked")); ("selfTest", JStr [])]%string.

(** Writing a text to [__proto__] is ignored. *)
Definition read_line (o : list (jstr * jsval)) (line : jstr) : list (jstr * jsval) :=
  match index_of (u "=") line with
  | Some (S n) =>
    let key := take (S n) line in
    let value := JStr (drop (S (S n)) line) in
    if str_eqb key (u "protocol") then obj_set o key (JNum (floor_or_zero value))
    else if is_undef (obj_get o key) || str_eqb key (u "__proto__") then o else obj_set o key value
  | _ => o
  end.

Definition parseHelperInspection (raw : jsval) (expectedProtocol : Z) (messages : list (jstr * jsval)) : jsval :=
  let o := fold_left read_line (split_char 10 (shown raw)) no_helper in
  let o := if strict_eq (obj_get o (u "state")) (JStr (u "ok")) && negb (strict_eq (obj_get o (u "protocol")) (jz expectedProtocol))
           then obj_set o (u "state") (JStr (u "protocol-mismatch")) else o in
  let state := obj_get o (u "state") in
  let message := if strict_eq state (JStr (u "ok")) then JStr []
                 else jor (obj_get messages (to_str state)) (obj_get messages (u "unusable")) in
  JObj (obj_set o (u "message") message).

Definition helperMessages (noun manifest protocolMismatch : jstr) : list (jstr * jsval) :=
  let the := u "The " ++ noun in
  let m text_ := JStr (the ++ text_) in
  fields
    [("missing"%string, m (u " was not found. A release ships one; a source checkout needs "
        ++ u "`cargo build --manifest-path " ++ manifest ++ u " --locked`."));
     ("not-a-file"%string, m (u " path is not a file."));
     ("not-executable"%string, m (u " is not executable. A clone from an archive can drop " ++ u "file modes; `chmod +x` on it is enough."));
     ("not-elf"%string, m (u " is not a program. A partial clone, or Git LFS leaving a " ++ u "placeholder, both look like this."));
     ("wrong-architecture"%string, m (u " was built for a different architecture. This " ++ u "release ships x86_64 only."));
     ("checksum-mismatch"%string, m (u " does not match its recorded checksum. That usually "
        ++ u "means a stale binary after an update, or an incomplete clone."));
     ("no-version"%string, m (u " did not report a usable version."));
     ("self-test-failed"%string, m (u " failed its own self-test on this machine."));
     ("protocol-mismatch"%string, m (u " " ++ protocolMismatch ++ u " than this version of the plugin. "
        ++ u "Reinstall the plugin so both come from the same release."));
     ("unusable"%string, m (u " could not be used."))].

Definition SSH_AGENT_HELPER_MESSAGES : list (jstr * jsval) :=
  helperMessages (u "SSH agent helper") (u "agent/Cargo.toml") (u "speaks a different control protocol").
Definition UNLOCK_KEY_MESSAGES : list (jstr * jsval) :=
  helperMessages (u "quick-unlock tool") (u "unlock-key/Cargo.toml") (u "uses a different command interface").
Definition VAULT_HELPER_MESSAGES : list (jstr * jsval) :=
  helperMessages (u "vault helper") (u "vault/Cargo.toml") (u "speaks a different protocol").

Definition parseSshAgentHelperInspection (raw : jsval) : jsval :=
  parseHelperInspection raw SSH_AGENT_CONTROL_VERSION SSH_AGENT_HELPER_MESSAGES.
Definition parseUnlockKeyInspection (raw : jsval) : jsval :=
  parseHelperInspection raw UNLOCK_KEY_CLI_VERSION UNLOCK_KEY_MESSAGES.
Definition parseVaultHelperInspection (raw : jsval) : jsval :=
  parseHelperInspection raw VAULT_HELPER_PROTOCOL VAULT_HELPER_MESSAGES.

Definition helperReady (inspection : jsval) : bool := truthy inspection && strict_eq inspection.["state"] (JStr (u "ok")).

(** ** The vault helper *)

Definition VAULT_HELD_SESSION : jstr := u "HELD-BY-QS-BITWARDEN-VAULT-HELPER-SESSION".
Definition vaultHeldSession : jstr := VAULT_HELD_SESSION.

Definition HELD_SECRET_PREFIX : jstr := 0%N :: u "qsbw-held:".
Definition heldSecretRef (name : jsval) : jstr := HELD_SECRET_PREFIX ++ to_str name.
Definition heldSecretName (value : jsval) : jstr :=
  match value with
  | JStr t => if starts_with HELD_SECRET_PREFIX t then drop (length HELD_SECRET_PREFIX) t else []
  | _ => []
  end.

Definition helper_reason (reason : jsval) : jstr :=
  let r := trim (text_or_empty reason) in if str_eqb r [] then u "the vault helper is unavailable." else r.

Definition vaultHelperWarning (reason : jsval) : jstr :=
  u "Crash protection is off: " ++ helper_reason reason
  ++ u " The vault is held in the shell, so a shell crash could write it to a core dump.".

Definition vaultHelperUnavailableWarning (reason : jsval) : jstr :=
  u "The vault stays locked: " ++ helper_reason reason
  ++ u " Click here to check again. To hold the vault in the shell instead, without crash protection,"
  ++ u " set allowVaultWithoutHelper in shell.json.".

Definition helper_message (type : string) (fields_ : list (jstr * jsval)) : jsval :=
  JObj (fold_left (fun o kv => obj_set o (fst kv) (snd kv)) fields_
          (fields [("type", JStr (u type)); ("v", jz VAULT_HELPER_PROTOCOL)]%string)).

Definition vaultHelperLine (type : string) (fields_ : list (jstr * jsval)) : jstr :=
  json_text (helper_message type fields_) ++ newline.

(** Only strings, or null to unset, reach the helper's environment. *)
Definition env_value (v : jsval) : jsval := if is_nullish v then JNull else JStr (to_str v).
Definition vaultEnv (env : jsval) : list (jstr * jsval) :=
  fold_left (fun o kv => obj_set o (fst kv) (env_value (snd kv))) (enumerated env) [].

Definition exec_fields (id argv env inject capture stdin : jsval) : list (jstr * jsval) :=
  fields [("id", id); ("argv", argv); ("env", JObj (vaultEnv (jor env (JObj [])))); ("inject", jor inject (JObj []));
          ("capture", jor capture (JStr (u "plain")))]%string
  ++ (if is_nullish stdin || strict_eq stdin (JStr []) then [] else fields [("stdin", JStr (to_str stdin))]%string).

Definition vaultExecLine (id argv env inject capture stdin : jsval) : jstr :=
  vaultHelperLine "exec" (exec_fields id argv env inject capture stdin).

(** A reply, or nothing when the line is not one. *)
Definition parseVaultHelperLine (line : jsval) : option jsval :=
  match json_parse (text_or_empty line) with
  | Some message => if is_object message && is_string message.["type"] then Some message else None
  | None => None
  end.

Definition QUICK_UNLOCK_SETTINGS : list jstr := [u "fingerprintUnlock"; u "pinUnlock"; u "fidoUnlock"].
Definition isQuickUnlockSetting (key : jsval) : bool := existsb (str_eqb (to_str key)) QUICK_UNLOCK_SETTINGS.

(** ** Specifications *)

(** The first line of a text. *)
Definition first_line (s : jstr) : jstr := hd [] (split_char 10 s).

(** One field of a report: a value's later lines, which have no [=], are skipped. *)
Definition read_field (o : list (jstr * jsval)) (kv : string * jstr) : list (jstr * jsval) :=
  read_line o (u (fst kv) ++ u "=" ++ first_line (snd kv)).

(** A key is text without [=] and newlines, a value text without [=]: what
    [sed -n s/.../\1/p] prints for the version and protocol patterns is digits,
    dots and newlines. *)
Definition plain_key (k : string) : bool := forallb (fun c => negb (c =? 61)%N && negb (c =? 10)%N) (u k).
Definition plain_value (v : jstr) : bool := forallb (fun c => negb (c =? 61)%N) v.

(** What every inspected file must pass; the checksum only when the sums are there. *)
Definition passes (sums_present : bool) (source : jstr) (c : candidate) : bool :=
  c_exists c && c_regular c && c_executable c && c_elf c && c_x86_64 c
  && (negb (str_eqb source (u "bundled") && sums_present) || c_listed c) && c_named c && c_self_test c.

(** The script's variables while no candidate has passed. *)
Definition no_pass (s : inspecting) : Prop :=
  str_eqb (i_state s) (u "ok") = false
  /\ forallb plain_value [i_state s; i_found s; i_checksum s; i_self s] = true
  /\ first_line (i_state s) = i_state s.

Definition failures : list string :=
  ["not-a-file"; "not-executable"; "not-elf"; "wrong-architecture"; "checksum-mismatch"; "no-version"; "self-test-failed"]%string.

Definition failure_ok (state : string) : bool :=
  negb (str_eqb (u state) (u "ok")) && plain_value (u state) && str_eqb (first_line (u state)) (u state).

(** A shipped helper whose checksum does not match, beside a good local build. *)
Definition example_bundled : candidate := mkCandidate true true true true true false true true (u "0.17.0") (u "1").
Definition example_development : candidate := mkCandidate true true true true true false true true (u "0.17.0") (u "1").

(** ** Lemmas *)

Lemma index_of_after w t : forallb (fun c => negb (c =? 61)%N) w = true -> index_of (u "=") (w ++ 61%N :: t) = Some (length w).
Proof.
  change (u "=") with [61%N]. induction w as [|x w IH]; [done|]. cbn [forallb]. intros [Hx Hw]%andb_true_iff.
  cbn [app index_of starts_with length]. rewrite N.eqb_sym. apply negb_true_iff in Hx as ->. cbn [andb]. by rewrite (IH Hw).
Qed.

Lemma read_line_skip o line : forallb (fun c => negb (c =? 61)%N) line = true -> read_line o line = o.
Proof.
  intros H. unfold read_line. destruct (index_of (u "=") line) as [i|] eqn:E; [|done].
  apply index_of_spec in E as (a & b & -> & _). rewrite !forallb_app in H. by rewrite andb_comm in H.
Qed.

Lemma fold_skip l o : Forall (fun line => forallb (fun c => negb (c =? 61)%N) line = true) l -> fold_left read_line l o = o.
Proof. induction 1 as [|x l Hx _ IH]; [done|]. simpl. by rewrite (read_line_skip o x Hx). Qed.

Lemma split_forall (q : N -> bool) c s : forallb q s = true -> Forall (fun w => forallb q w = true) (split_char c s).
Proof.
  unfold split_char. induction s as [|x s IH]; [by repeat constructor|]. simpl. intros [Hx Hs]%andb_true_iff.
  specialize (IH Hs). destruct (c =? x)%N; [by constructor|].
  destruct (split_on (N.eqb c) s) as [|w l]; [repeat constructor; simpl; by rewrite Hx|].
  apply Forall_cons in IH as [Hw Hl]. constructor; [|done]. simpl. by rewrite Hx, Hw.
Qed.

Lemma read_report fs o :
  forallb (fun kv => plain_key (fst kv) && plain_value (snd kv)) fs = true ->
  fold_left read_line (split_char 10 (report_lines fs)) o = fold_left read_field fs o.
Proof.
  revert o. induction fs as [|[k v] fs IH]; intros o; [done|]. cbn [forallb fst snd]. rewrite !andb_true_iff. intros [[Hk Hv] Hfs].
  unfold report_lines. cbn [map concat fst snd]. rewrite <- !app_assoc. unfold newline. cbn [app].
  assert (split_char 10 (u k ++ u "=" ++ v ++ 10%N :: concat (map (fun kv => u kv.1 ++ u "=" ++ kv.2 ++ [10%N]) fs))
    = (u k ++ u "=" ++ first_line v) :: tl (split_char 10 v) ++ split_char 10 (report_lines fs)) as ->.
  { rewrite !app_assoc, split_char_line. 
    assert (split_char 10 ((u k ++ u "=") ++ v) = ((u k ++ u "=") ++ first_line v) :: tl (split_char 10 v)) as ->; [|by rewrite <- app_assoc].
    assert (forallb (fun c => negb (10 =? c)%N) (u k ++ u "=") = true) as H.
    { rewrite forallb_app, andb_true_iff. split; [|done]. unfold plain_key in Hk. revert Hk. apply forallb_impl.
      intros c. rewrite andb_true_iff, (N.eqb_sym 10). tauto. }
    revert H. generalize (u k ++ u "="). unfold first_line, split_char. intros w. induction w as [|x w IHw]; simpl.
    - pose proof (split_on_nonempty (N.eqb 10) v). by destruct (split_on (N.eqb 10) v).
    - intros [Hx%negb_true_iff Hw]%andb_true_iff. rewrite Hx, (IHw Hw). done. }
  cbn [fold_left]. rewrite fold_left_app, (fold_skip (tl _)).
  - exact (IH _ Hfs).
  - apply (split_forall _ 10) in Hv. pose proof (split_on_nonempty (N.eqb 10) v). unfold split_char in *.
    destruct (split_on (N.eqb 10) v); [done|]. by apply Forall_cons in Hv as [_ ?].
Qed.

Lemma read_line_field o k v : plain_key k = true ->
  read_line o (u k ++ u "=" ++ v) =
  if str_eqb (u k) [] then o
  else if str_eqb (u k) (u "protocol") then obj_set o (u k) (JNum (floor_or_zero (JStr v)))
  else if is_undef (obj_get o (u k)) || str_eqb (u k) (u "__proto__") then o else obj_set o (u k) (JStr v).
Proof.
  intros Hk. unfold read_line. change (u "=") with [61%N]. cbn [app].
  rewrite index_of_after by (revert Hk; apply forallb_impl; intros c [? _]%andb_true_iff; done).
  destruct (u k) as [|x t]; [done|]. cbn [length].
  assert (forall (s : jstr), take (S (length t)) (x :: t ++ s) = x :: t) as Ht by (intros s; simpl; f_equal; apply take_app_length).
  assert (drop (S (S (length t))) ((x :: t) ++ 61%N :: v) = v) as ->.
  { cbn [app drop]. change (61%N :: v) with ([61%N] ++ v). rewrite app_assoc. apply drop_app_length'. rewrite length_app. simpl. lia. }
  cbn [app]. by rewrite Ht.
Qed.

Lemma fail_no_pass source checksum self state : plain_value source = true -> plain_value checksum = true -> plain_value self = true ->
  In state failures -> no_pass (mkInspecting source (u state) checksum self).
Proof.
  intros Hsource Hck Hse Hst.
  assert (forallb failure_ok failures = true) as H by (vm_compute; reflexivity).
  rewrite forallb_forall in H. apply H in Hst. unfold failure_ok in Hst. bool_hyps.
  repeat split; cbn [i_state i_found i_checksum i_self forallb]; [done| |by apply str_eqb_eq].
  rewrite !andb_true_iff; auto.
Qed.

Lemma inspect_one_spec sums s source c : no_pass s -> plain_value source = true ->
  if passes sums source c
  then exists checksum, plain_value checksum = true /\ inspect_one sums s source c =
    inl (report_lines [("state", u "ok"); ("source", source); ("version", c_semver c); ("protocol", c_protocol c);
                       ("checksum", checksum); ("selfTest", u "pass")]%string)
  else exists s', no_pass s' /\ inspect_one sums s source c = inr s'.
Proof.
  intros Hs Hsource. pose proof Hs as (_ & Hp & _). cbn [forallb] in Hp. bool_hyps.
  unfold passes, inspect_one. destruct c as [ex re xe el ar li na se sv pr]. cbn.
  assert (forall checksum self state, plain_value checksum = true -> plain_value self = true -> In state failures ->
    exists s', no_pass s' /\ @inr jstr _ (mkInspecting source (u state) checksum self) = inr s') as F.
  { intros ck sf st Hck Hse Hst. exists (mkInspecting source (u st) ck sf). split; [by apply fail_no_pass|reflexivity]. }
  destruct ex; [|by exists s]. cbn.
  destruct re; [|apply F; [done|done|cbn; tauto]]. destruct xe; [|apply F; [done|done|cbn; tauto]].
  destruct el; [|apply F; [done|done|cbn; tauto]]. destruct ar; [|apply F; [done|done|cbn; tauto]]. cbn.
  destruct (str_eqb source (u "bundled") && sums); cbn.
  - destruct li; cbn; [|apply F; [done|done|cbn; tauto]]. destruct na; cbn; [|apply F; [done|done|cbn; tauto]].
    destruct se; cbn; [|apply F; [done|done|cbn; tauto]]. by exists (u "match").
  - destruct na; cbn; [|apply F; [done|done|cbn; tauto]].
    destruct se; cbn; [|apply F; [done|done|cbn; tauto]]. by exists (u "unchecked").
Qed.

Lemma first_line_ok : first_line (u "ok") = u "ok".
Proof. by vm_compute. Qed.
Lemma first_line_pass : first_line (u "pass") = u "pass".
Proof. by vm_compute. Qed.

Lemma read_ok_fields source sv pr checksum :
  plain_value source = true -> plain_value checksum = true -> plain_value sv = true -> plain_value pr = true ->
  fold_left read_line (split_char 10 (report_lines [("state", u "ok"); ("source", source); ("version", sv); ("protocol", pr);
                       ("checksum", checksum); ("selfTest", u "pass")]%string)) no_helper
  = fields [("state", JStr (u "ok")); ("source", JStr (first_line source)); ("version", JStr (first_line sv));
      ("protocol", JNum (floor_or_zero (JStr (first_line pr)))); ("checksum", JStr (first_line checksum)); ("selfTest", JStr (u "pass"))]%string.
Proof.
  intros Hso Hck Hsv Hpr.
  rewrite read_report by (cbn [forallb fst snd]; rewrite Hso, Hck, Hsv, Hpr; vm_compute; reflexivity).
  cbn [fold_left]. unfold read_field. cbn [fst snd]. rewrite !read_line_field by (vm_compute; reflexivity).
  rewrite first_line_ok, first_line_pass.
  generalize (floor_or_zero (JStr (first_line pr))).
  generalize (first_line source) (first_line sv) (first_line checksum). intros so v ck m.
  by vm_compute.
Qed.

Lemma read_fail_fields state source checksum self :
  plain_value state = true -> plain_value source = true -> plain_value checksum = true -> plain_value self = true ->
  fold_left read_line (split_char 10 (report_lines [("state", state); ("source", source); ("checksum", checksum);
                       ("selfTest", self)]%string)) no_helper
  = fields [("state", JStr (first_line state)); ("source", JStr (first_line source)); ("version", JStr []); ("protocol", jz 0);
      ("checksum", JStr (first_line checksum)); ("selfTest", JStr (first_line self))]%string.
Proof.
  intros Hso Hck Hsv Hpr.
  rewrite read_report by (cbn [forallb fst snd]; rewrite Hso, Hck, Hsv, Hpr; vm_compute; reflexivity).
  cbn [fold_left]. unfold read_field. cbn [fst snd]. rewrite !read_line_field by (vm_compute; reflexivity).
  generalize (first_line state) (first_line source) (first_line checksum) (first_line self). intros st so ck sf.
  by vm_compute.
Qed.


Lemma read_ok source sv pr checksum p msgs :
  plain_value source = true -> plain_value checksum = true -> plain_value sv = true -> plain_value pr = true ->
  let v := parseHelperInspection (JStr (report_lines [("state", u "ok"); ("source", source); ("version", sv); ("protocol", pr);
                       ("checksum", checksum); ("selfTest", u "pass")]%string)) p msgs in
  helperReady v = num_eqb (floor_or_zero (JStr (first_line pr))) (numz p) /\ v.["source"] = JStr (first_line source).
Proof.
  intros Hso Hck Hsv Hpr. unfold parseHelperInspection, shown. cbn [is_nullish to_str]. rewrite read_ok_fields by done.
  generalize (floor_or_zero (JStr (first_line pr))) (first_line source) (first_line sv) (first_line checksum).
  intros m so v ck. unfold helperReady. set (o := fields _).
  assert (obj_get o (u "protocol") = JNum m) as -> by (subst o; by vm_compute).
  assert (obj_get o (u "state") = JStr (u "ok")) as Hstate by (subst o; by vm_compute). rewrite Hstate.
  assert (strict_eq (JStr (u "ok")) (JStr (u "ok")) = true) as -> by by vm_compute.
  cbn [strict_eq andb jz]. destruct (num_eqb m (numz p)); cbn [negb].
  all: unfold jget; rewrite ?(obj_get_set_other _ (u "message")) by by vm_compute.
  - rewrite Hstate. split; [by vm_compute|]. subst o. by vm_compute.
  - rewrite obj_get_set_same, (obj_get_set_other _ (u "state")) by by vm_compute. split; [by vm_compute|]. subst o. by vm_compute.
Qed.

Lemma read_fail state source checksum self p msgs :
  str_eqb (first_line state) (u "ok") = false ->
  plain_value state = true -> plain_value source = true -> plain_value checksum = true -> plain_value self = true ->
  helperReady (parseHelperInspection (JStr (report_lines [("state", state); ("source", source); ("checksum", checksum);
                       ("selfTest", self)]%string)) p msgs) = false.
Proof.
  intros Hst H1 H2 H3 H4. unfold parseHelperInspection, shown. cbn [is_nullish to_str]. rewrite read_fail_fields by done.
  revert Hst. generalize (first_line state) (first_line source) (first_line checksum) (first_line self). intros st so ck sf Hst.
  unfold helperReady. set (o := fields _).
  assert (obj_get o (u "state") = JStr st) as Hstate by (subst o; by vm_compute). rewrite Hstate.
  cbn [strict_eq]. rewrite Hst. cbn [andb].
  unfold jget; rewrite (obj_get_set_other _ (u "message")), Hstate by by vm_compute. cbn [strict_eq]. by rewrite Hst, andb_false_r.
Qed.

Lemma inspection_pass sums bundled development :
  let candidates := [(u "bundled", bundled); (u "development", development)] in
  match find_first (fun sc => passes sums (fst sc) (snd sc)) candidates with
  | Some (source, c) => exists checksum, plain_value checksum = true /\ inspection sums bundled development =
      report_lines [("state", u "ok"); ("source", source); ("version", c_semver c); ("protocol", c_protocol c);
                    ("checksum", checksum); ("selfTest", u "pass")]%string
  | None => exists state source checksum self, str_eqb (first_line state) (u "ok") = false
      /\ forallb plain_value [state; source; checksum; self] = true
      /\ (inspection sums bundled development = report_lines [("state", state); ("source", source); ("checksum", checksum); ("selfTest", self)]%string
          \/ inspection sums bundled development = report_lines [("state", u "missing")]%string)
  end.
Proof.
  cbn zeta. unfold inspection.
  assert (no_pass (mkInspecting [] [] [] [])) as H0 by (repeat split; by vm_compute).
  cbn [find_first fst snd inspect_loop].
  pose proof (inspect_one_spec sums _ (u "bundled") bundled H0 (eq_refl true)) as B.
  destruct (passes sums (u "bundled") bundled); [destruct B as (ck & Hck & ->); by exists ck|].
  destruct B as (s1 & H1 & ->).
  pose proof (inspect_one_spec sums _ (u "development") development H1 (eq_refl true)) as D.
  destruct (passes sums (u "development") development); [destruct D as (ck & Hck & ->); by exists ck|].
  destruct D as (s2 & (Hn & Hp & Hf) & ->). cbn [forallb] in Hp. bool_hyps.
  exists (if str_eqb (i_state s2) [] then u "unusable" else i_state s2), (i_found s2),
    (if str_eqb (i_checksum s2) [] then u "unchecked" else i_checksum s2), (i_self s2).
  split; [|split].
  - destruct (str_eqb (i_state s2) []); [by vm_compute|]. by rewrite Hf.
  - cbn [forallb]. rewrite !andb_true_iff. split_and!; try done; case_match; try done; by vm_compute.
  - destruct (str_eqb (i_found s2) []); [by right|by left].
Qed.

(** ** Properties *)

(** A helper is taken as ready to launch exactly when a candidate file
    passed every test of the inspection - it exists, is a regular executable
    ELF file for x86-64, matches its recorded checksum when it is the shipped
    one and the sums are there, names itself, and passes its self-test - and
    the first line of the protocol it reports is the one the plugin speaks.
    The shipped one is preferred, and the path launched is the checked one. *)
Theorem helper_ready_checked sums bundled development p messages
    (Hb : forallb plain_value [c_semver bundled; c_protocol bundled] = true)
    (Hd : forallb plain_value [c_semver development; c_protocol development] = true) :
  let v := parseHelperInspection (JStr (inspection sums bundled development)) p messages in
  match find_first (fun sc => passes sums (fst sc) (snd sc)) [(u "bundled", bundled); (u "development", development)] with
  | Some (source, c) =>
    helperReady v = num_eqb (floor_or_zero (JStr (first_line (c_protocol c)))) (numz p)
    /\ (forall dir spec, cleanAbsoluteDir dir <> [] ->
        helperPath dir spec v.["source"] =
        cleanAbsoluteDir dir ++ u "/" ++ (if str_eqb source (u "bundled") then spec_bundled spec else spec_development spec))
  | None => helperReady v = false
  end.
Proof.
  cbn [forallb] in Hb, Hd. bool_hyps. cbn zeta.
  pose proof (inspection_pass sums bundled development) as I. cbn zeta in I.
  destruct (find_first _ _) as [[source c]|] eqn:F.
  - destruct I as (ck & Hck & ->). apply find_first_some in F as [F _].
    assert ((source = u "bundled" /\ c = bundled) \/ (source = u "development" /\ c = development)) as [[-> ->]|[-> ->]].
    { rewrite !elem_of_cons, elem_of_nil in F. destruct F as [[= -> ->]|[[= -> ->]|[]]]; auto. }
    all: edestruct read_ok as [E1 E2]; [| | | |split; [exact E1|rewrite E2]]; try done.
    all: intros dir spec Hdir; unfold helperPath, helperCandidates; destruct (str_eqb _ []) eqn:E;
      [by apply str_eqb_eq in E|]; by vm_compute.
  - destruct I as (st & so & ck & sf & Hst & Hall & [->| ->]); [|by vm_compute].
    cbn [forallb] in Hall. bool_hyps. by apply read_fail.
Qed.

Lemma helper_ready_checked_witness :
  helperReady (parseHelperInspection (JStr (inspection true example_bundled example_development)) 1 VAULT_HELPER_MESSAGES) = true.
Proof.
  pose proof (helper_ready_checked true example_bundled example_development 1 VAULT_HELPER_MESSAGES
    ltac:(vm_compute; reflexivity) ltac:(vm_compute; reflexivity)) as H.
  cbv zeta in H. revert H.
  assert (find_first (fun sc => passes true (fst sc) (snd sc)) [(u "bundled", example_bundled); (u "development", example_development)]
    = Some (u "development", example_development)) as -> by (vm_compute; reflexivity).
  intros [-> _]. vm_compute. reflexivity.
Defined.
