(* ===== verification/Keybind.v ===== *)
(** * The auto-type keybinding

    The key that runs auto-type ([src/BitwardenModel.js], "Auto-type
    keybinding"): the chord the user types, the binds Hyprland reports, what
    bindings.lua holds, the row of the settings screen, and the two scripts
    that append and remove the plugin's own line. A script appears as the text
    that is run and as what it does to the one file it changes. *)

From stdpp Require Import base list numbers strings.
From S2P Require Import Prelude.
From S2P Require Import JsValue.
From S2P Require Import Json.
From S2P Require Import Regex.
From S2P Require Import Shell.
From S2P Require Import Session.
From S2P Require Import Dependencies.
From S2P Require Import Runtime.
Local Open Scope nat_scope.
Local Open Scope js_scope.

Definition AUTO_TYPE_IPC_COMMAND : jstr := u "omarchy-shell io.github.elevate08.qs-bitwarden-cli autoType".
Definition AUTO_TYPE_BIND_DESCRIPTION : jstr := u "Bitwarden auto-type".
Definition AUTO_TYPE_BIND_COMMENT : jstr := u "-- Added by the qs-bitwarden-cli plugin (Settings > General > Auto-type logins).".
Definition AUTO_TYPE_BINDINGS_REL : jstr := u ".config/hypr/bindings.lua".
Definition AUTO_TYPE_HYPRLAND_REL : jstr := u ".config/hypr/hyprland.lua".
Definition AUTO_TYPE_CHORD_SUGGESTIONS : list jstr := [u "SUPER + CTRL + BACKSLASH"; u "SUPER + ALT + A"; u "SUPER + ALT + BACKSLASH"].
Definition first_suggestion : jstr := hd [] AUTO_TYPE_CHORD_SUGGESTIONS.
Definition CHORD_MODIFIER_BITS : list (jstr * Z) := [(u "SUPER", 64); (u "SHIFT", 1); (u "CTRL", 4); (u "ALT", 8)]%Z.
Definition CHORD_MODIFIER_ORDER : list jstr := [u "SUPER"; u "SHIFT"; u "CTRL"; u "ALT"].
Definition CHORD_MAX_LENGTH : nat := 64.
Definition AUTO_TYPE_BINDINGS_READ_BYTES : Z := 262144.
Definition HYPR_BINDS_READ_BYTES : Z := 4194304.

Definition autoTypeBindingsDisplayPath : jstr := u "~/" ++ AUTO_TYPE_BINDINGS_REL.
Definition autoTypeChordSuggestions : list jstr := AUTO_TYPE_CHORD_SUGGESTIONS.

(** ** The chord *)

Record chord_result := mkChord { c_ok : bool; chord : jstr; modmask : Z; key : jstr; c_message : jstr }.

Definition chord_fail (message : jstr) : chord_result := mkChord false [] 0 [] message.

Definition modifier_bit (name : jstr) : option Z := snd <$> find_first (fun m => str_eqb (fst m) name) CHORD_MODIFIER_BITS.

Definition is_chord_unit (c : N) : bool := is_alnum c || (c =? 95)%N || (c =? 43)%N || (c =? 32)%N.

(** The first loop: the parts trimmed, or why one of them is no name. *)
Fixpoint chord_parts (parts : list jstr) : jstr + list jstr :=
  match parts with
  | [] => inr []
  | p :: t =>
    let p := trim p in
    if str_eqb p [] then inl (u "Put one key name between each +.")
    else if existsb is_space p then inl (u "Join the modifiers and the key with +, as in " ++ first_suggestion ++ u ".")
    else match chord_parts t with inl m => inl m | inr ps => inr (p :: ps) end
  end.

(** The second loop over the modifiers: the names and the mask so far. *)
Fixpoint chord_mods (parts : list jstr) (mods : list jstr) (mask : Z) : jstr + (list jstr * Z) :=
  match parts with
  | [] => inr (mods, mask)
  | p :: t =>
    let name := to_upper p in
    let name := if str_eqb name (u "CONTROL") then u "CTRL" else name in
    match modifier_bit name with
    | None => inl (uq "`" ++ p ++ uq "` is not a modifier; use SUPER, SHIFT, CTRL or ALT.")
    | Some bit =>
      if negb (Z.land mask bit =? 0)%Z then inl (name ++ u " is in there twice.")
      else chord_mods t (mods ++ [name]) (Z.lor mask bit)
    end
  end.

(** [/^XF86/i] *)
Definition is_xf86 (key : jstr) : bool := test (RSeq RStart (RLitI (u "XF86"))) key.
Definition normal_key (key : jstr) : jstr := if is_xf86 key then u "XF86" ++ drop 4 key else to_upper key.

Definition autoTypeChord (raw : jsval) : chord_result :=
  let text := shown raw in
  if str_eqb (trim text) [] then chord_fail (u "Type a key combination, such as " ++ first_suggestion ++ u ".")
  else if CHORD_MAX_LENGTH <? length text then chord_fail (u "That is too long for a key combination.")
  else if negb (forallb is_chord_unit text) then
    chord_fail (u "Use only letters, digits, _ and +, as in " ++ first_suggestion ++ u ".")
  else
    match chord_parts (split_char 43 text) with
    | inl message => chord_fail message
    | inr parts =>
      if length parts <? 2 then chord_fail (u "Hold SUPER, CTRL or ALT with the key, as in " ++ first_suggestion ++ u ".")
      else
        let pressed := List.last parts [] in
        match chord_mods (List.removelast parts) [] 0 with
        | inl message => chord_fail message
        | inr (mods, mask) =>
          let upperKey := to_upper pressed in
          if bool_decide (is_Some (modifier_bit upperKey)) || str_eqb upperKey (u "CONTROL") then
            chord_fail (u "End with the key to press, after the modifiers.")
          else if (Z.land mask (64 + 4 + 8) =? 0)%Z then
            chord_fail (u "Hold SUPER, CTRL or ALT with the key, so ordinary typing never sets it off.")
          else mkChord true (join (u " + ") (mods ++ [normal_key pressed])) mask (normal_key pressed) []
        end
    end.

(** ** Hyprland's binds *)

Record hypr_bind := mkBind {
  b_modmask : num; b_key : jstr; b_description : jstr; b_dispatcher : jstr; b_arg : jstr; b_submap : jstr; b_mouse : bool }.

Definition chordFromHyprBind (bind : hypr_bind) : jstr :=
  if str_eqb (b_key bind) [] then []
  else
    let mask := num_int32 (num_or_zero (b_modmask bind)) in
    let held name := match modifier_bit name with Some bit => negb (Z.land mask bit =? 0)%Z | None => false end in
    join (u " + ") (List.filter held CHORD_MODIFIER_ORDER ++ [b_key bind]).

Definition hyprBindHasChord (bind : hypr_bind) (parsed : chord_result) : bool :=
  c_ok parsed && negb (b_mouse bind || negb (str_eqb (b_submap bind) []))
  && num_eqb (num_or_zero (b_modmask bind)) (numz (modmask parsed))
  && str_eqb (to_upper (b_key bind)) (to_upper (key parsed)).

Definition text_member (v : jsval) (k : string) : jstr := match jget v (u k) with JStr t => t | _ => [] end.

Definition hypr_bind_of (b : jsval) : option hypr_bind :=
  if is_object b then
    Some (mkBind (floor_or_zero b.["modmask"]) (text_member b "key") (text_member b "description") (text_member b "dispatcher")
            (text_member b "arg") (text_member b "submap") (is_true b.["mouse"]))
  else None.

Definition parseHyprBinds (raw : jsval) : option (list hypr_bind) :=
  let text := trim (shown raw) in
  if str_eqb text [] then None
  else match json_parse text with
       | Some (JArr data) => Some (omap hypr_bind_of data)
       | _ => None
       end.

(** [/io\.github\.elevate08\.qs-bitwarden-cli\s+autoType(?![A-Za-z0-9_])/] *)
Definition auto_type_re (space : N -> bool) : regex :=
  RSeqs [RLit (u "io.github.elevate08.qs-bitwarden-cli"); RPlus (RChar space); RLit (u "autoType");
         RAhead (fun c => match c with Some c => negb (is_word_unit c) | None => true end)].

Definition isAutoTypeCommand (text : jstr) : bool := test (auto_type_re is_space) text.

Definition runs_exec (dispatcher : jstr) : bool := starts_with (u "exec") dispatcher.

Definition hyprBindRunsAutoType (bind : hypr_bind) : bool :=
  runs_exec (b_dispatcher bind) && isAutoTypeCommand (b_arg bind) || str_eqb (b_description bind) AUTO_TYPE_BIND_DESCRIPTION.

(** ** The plugin's line, and bindings.lua *)

Definition autoTypeBindLine (raw : jsval) : jstr :=
  let parsed := autoTypeChord raw in
  if c_ok parsed then
    uq "o.bind(`" ++ chord parsed ++ uq "`, `" ++ AUTO_TYPE_BIND_DESCRIPTION ++ uq "`, `" ++ AUTO_TYPE_IPC_COMMAND ++ uq "`)"
  else [].

Definition autoTypeBindComment : jstr := AUTO_TYPE_BIND_COMMENT.

Definition RQuote : regex := RChar (N.eqb 34).
Definition RPlainText : regex := RStar (RChar (fun c => negb (c =? 34)%N && negb (c =? 92)%N)).
(** Text of a Lua string with its escapes. *)
Definition RLuaText : regex :=
  RStar (RAlt (RChar (fun c => negb (c =? 34)%N && negb (c =? 92)%N)) (RSeq (RChar (N.eqb 92)) (RChar (not_of is_line_end)))).
Definition RComma : regex := RSeqs [RSpaces; RChar (N.eqb 44); RSpaces].

(** The expression of an o.bind() line, with its capturing group number [g] captured. *)
Definition bindRe (g : nat) : regex :=
  let group n r := if n =? g then RGroup r else r in
  RSeqs [RStart; RSpaces; RLit (u "o.bind("); RSpaces; RQuote; group 1 RPlainText; RQuote; RComma;
         RAlt (RLit (u "nil")) (RSeqs [RQuote; group 2 RLuaText; RQuote]); RComma; RQuote; group 3 RLuaText; RQuote].

Definition chordRe : regex :=
  RSeqs [RStart; RSpaces; RAlt (RLit (u "o")) (RLit (u "hl")); RLit (u ".bind("); RSpaces; RQuote; RGroup RPlainText; RQuote].

Definition group_text (r : regex) (line : jstr) : option jstr := m ← exec r line; m_group m.

Record lua_bind := mkLuaBind { l_chord : jstr; l_description : jstr; l_command : jstr; l_line : nat }.
Record auto_line := mkAutoLine { a_chord : jstr; a_description : jstr; a_line : nat; a_ours : bool }.
Record bindings := mkBindings {
  binds : list lua_bind; autoType : option auto_line; autoTypeCount : nat; removable : bool; removableChord : jstr }.

(** The line without a carriage return at its end. *)
Definition strip_cr (line : jstr) : jstr :=
  match last line with Some c => if (c =? 13)%N then take (length line - 1) line else line | None => line end.

(** [/^\s*--/] *)
Definition is_lua_comment (line : jstr) : bool := starts_with (u "--") (trim_start line).

Record lua_scan := mkScan { s_binds : list lua_bind; s_auto : option auto_line; s_count : nat; s_pairs : nat; s_chord : jstr }.

Definition lua_bind_at (line : jstr) (n : nat) : option lua_bind :=
  if test (bindRe 0) line then
    Some (mkLuaBind (default [] (group_text (bindRe 1) line)) (default [] (group_text (bindRe 2) line))
            (default [] (group_text (bindRe 3) line)) n)
  else None.

(** One turn of the loop, with the line before it. *)
Definition lua_step (s : lua_scan) (previous : option jstr) (raw_line : jstr) (n : nat) : lua_scan :=
  let line := strip_cr raw_line in
  if is_lua_comment line then s
  else
    let m := lua_bind_at line n in
    let s := match m with
             | Some b => mkScan (s_binds s ++ [b]) (s_auto s) (s_count s) (s_pairs s) (s_chord s)
             | None => s
             end in
    if negb (isAutoTypeCommand line) then s
    else
      let c := group_text chordRe line in
      let parsed := autoTypeChord (JStr (default [] c)) in
      let ours := match previous with Some p => str_eqb (strip_cr p) AUTO_TYPE_BIND_COMMENT | None => false end
                  && c_ok parsed && str_eqb line (autoTypeBindLine (JStr (chord parsed))) in
      mkScan (s_binds s)
        (match s_auto s with
         | Some a => Some a
         | None => Some (mkAutoLine (if c_ok parsed then chord parsed else default [] c)
                           (match m with Some b => l_description b | None => [] end) n ours)
         end)
        (S (s_count s)) (if ours then S (s_pairs s) else s_pairs s) (if ours then chord parsed else s_chord s).

Fixpoint lua_loop (s : lua_scan) (previous : option jstr) (lines : list jstr) (n : nat) : lua_scan :=
  match lines with
  | [] => s
  | line :: t => lua_loop (lua_step s previous line n) (Some line) t (S n)
  end.

Definition parseBindingsLua (text : jsval) : bindings :=
  let s := lua_loop (mkScan [] None 0 0 []) None (split_char 10 (shown text)) 1 in
  mkBindings (s_binds s) (s_auto s) (s_count s) (s_pairs s =? 1) (if s_pairs s =? 1 then s_chord s else []).

(** ** The inspection *)

Definition hyprlandLoadsBindingsShell : jstr :=
  u "grep -Eq "
    ++ shellQuote (JStr (uq "^[[:space:]]*require[[:space:]]*\(?[[:space:]]*[`']hypr\.bindings[`']"))
    ++ uq " -- `$__main` 2>/dev/null".

Definition autoTypeKeybindInspectCommand : list jstr :=
  let filter := uq "if type == `array` then [.[] | {modmask, key, description, dispatcher, arg, submap, mouse}] else empty end" in
  let script := uq "test -n `${HOME:-}` || { echo home=0; exit 0; }; echo home=1; " ++ uq "__f=`$HOME/"
    ++ AUTO_TYPE_BINDINGS_REL ++ uq "`; __main=`$HOME/" ++ AUTO_TYPE_HYPRLAND_REL ++ uq "`; "
    ++ u "if command -v hyprctl >/dev/null 2>&1 " ++ u "&& __b=$(hyprctl binds -j 2>/dev/null | head -c "
    ++ dec_Z HYPR_BINDS_READ_BYTES ++ u " | jq -c " ++ shellQuote (JStr filter) ++ u " 2>/dev/null) "
    ++ uq "&& [ -n `$__b` ]; then printf 'binds=%s\n' `$__b`; else echo binds=; fi; " ++ u "if "
    ++ hyprlandLoadsBindingsShell ++ u "; then echo requires=1; else echo requires=0; fi; "
    ++ uq "if [ ! -e `$__f` ] && [ ! -L `$__f` ]; then echo file=absent; "
    ++ uq "elif [ ! -f `$__f` ] || [ ! -r `$__f` ]; then echo file=unusable; "
    ++ u "else echo file=present; echo ---; head -c " ++ dec_Z AUTO_TYPE_BINDINGS_READ_BYTES
    ++ uq " -- `$__f`; fi" in
  bash (cappedScript script (Some MAX_STDERR_BYTES)).

Record keybind_inspection := mkKeybindInspection {
  k_home : bool; k_binds : option (list hypr_bind); k_requires : bool; k_file : jstr; k_bindings : bindings }.

Definition parseAutoTypeKeybindInspection (raw : jsval) : option keybind_inspection :=
  let text := shown raw in
  let cut := index_of (newline ++ u "---" ++ newline) text in
  let found := probeFields (JStr (match cut with Some n => take n text | None => text end)) in
  if is_undef (obj_get found (u "home")) then None
  else
    let file := text_or_empty (obj_get found (u "file")) in
    Some (mkKeybindInspection (strict_eq (obj_get found (u "home")) (JStr (u "1"))) (parseHyprBinds (obj_get found (u "binds")))
            (strict_eq (obj_get found (u "requires")) (JStr (u "1")))
            (if existsb (str_eqb file) [u "present"; u "absent"; u "unusable"] then file else u "unusable")
            (parseBindingsLua (JStr (match cut with Some n => drop (n + 5) text | None => [] end)))).

(** ** The keybinding row *)

Record keybind_state := mkKeybindState {
  checked : bool; bound : bool; k_chord : jstr; k_live : bool; k_removable : bool; k_removableChord : jstr;
  hyprctl : bool; live_binds : list hypr_bind; fileBinds : list lua_bind; canRegister : bool;
  status : jstr; detail : jstr; blocked : jstr; setupNote : jstr }.

Definition with_row (s : keybind_state) (canRegister : bool) (status detail blocked setupNote : jstr) : keybind_state :=
  mkKeybindState (checked s) (bound s) (k_chord s) (k_live s) (k_removable s) (k_removableChord s) (hyprctl s) (live_binds s)
    (fileBinds s) canRegister status detail blocked setupNote.

Definition with_bound (s : keybind_state) (chord : jstr) (live removable : bool) (removableChord detail : jstr) : keybind_state :=
  mkKeybindState (checked s) true chord live removable removableChord (hyprctl s) (live_binds s) (fileBinds s)
    (canRegister s) (status s) detail (blocked s) (setupNote s).

Definition unchecked_keybind : keybind_state :=
  mkKeybindState false false [] false false [] false [] [] false (u "Checking the keybinding...") [] [] [].

(** The line in bindings.lua that runs auto-type, live when Hyprland has it. *)
Definition hit_state (s : keybind_state) (parsed : bindings) (hit : auto_line) : keybind_state :=
  let hitChord := autoTypeChord (JStr (a_chord hit)) in
  let live := existsb (fun b => hyprBindHasChord b hitChord
                && (hyprBindRunsAutoType b || str_eqb (b_description b) (a_description hit))) (live_binds s) in
  let where_ := autoTypeBindingsDisplayPath in
  let n := dec_nat (a_line hit) in
  let detail :=
    (if removable parsed && (autoTypeCount parsed =? 1)
     then u "Added by this plugin on line " ++ n ++ u " of " ++ where_ ++ u "."
     else u "Set on line " ++ n ++ u " of " ++ where_ ++ u "; change or remove it there.")
    ++ (if 1 <? autoTypeCount parsed then u " " ++ dec_nat (autoTypeCount parsed) ++ u " lines there run auto-type." else [])
    ++ (if hyprctl s && negb live
        then u " Hyprland has not loaded it yet: save the file again or run hyprctl reload." else []) in
  with_bound s (a_chord hit) live (removable parsed) (removableChord parsed) detail.

Definition outside_state (s : keybind_state) (live : hypr_bind) : keybind_state :=
  with_bound s (chordFromHyprBind live) true (k_removable s) (k_removableChord s)
    (u "Set outside " ++ autoTypeBindingsDisplayPath ++ u "; change or remove it where you added it.").

(** What a registration would do to the file, when nothing is bound. *)
Definition unbound_state (s : keybind_state) (inspection : keybind_inspection) : keybind_state :=
  let where_ := autoTypeBindingsDisplayPath in
  let absent := str_eqb (k_file inspection) (u "absent") in
  let row can detail blocked := with_row s can (status s) detail blocked (setupNote s) in
  if negb (k_home inspection) then
    row (canRegister s) (detail s) (u "No HOME is set, so there is no " ++ where_ ++ u " to add it to.")
  else if str_eqb (k_file inspection) (u "present") then row true (detail s) (blocked s)
  else if absent && k_requires inspection then
    row true (where_ ++ u " does not exist yet; registering creates it, and your hyprland.lua already loads it.") (blocked s)
  else if absent then
    row (canRegister s) (detail s) (u "Your ~/" ++ AUTO_TYPE_HYPRLAND_REL ++ u " does not load " ++ where_
      ++ u ", so the plugin will not create it. Copy the line and add it where your bindings live.")
  else
    row (canRegister s) (detail s) (where_ ++ u " is not a regular file this plugin can read, so it is left alone. "
      ++ u "Copy the line and add it yourself.").

Definition given_or (a : jstr) (b : jstr) : jstr := match a with [] => b | _ => a end.

Definition autoTypeKeybindState (inspection : option keybind_inspection) : keybind_state :=
  match inspection with
  | None => unchecked_keybind
  | Some i =>
    let parsed := k_bindings i in
    let s := mkKeybindState true false [] false false [] (bool_decide (is_Some (k_binds i))) (default [] (k_binds i)) (binds parsed)
               false (u "No keybinding yet") [] []
               (u "No keybinding yet: register one under Settings > General > Auto-type logins.") in
    let s := match autoType parsed with
             | Some hit => hit_state s parsed hit
             | None => match find_first hyprBindRunsAutoType (live_binds s) with
                       | Some live => outside_state s live
                       | None => s
                       end
             end in
    if bound s then
      with_row s (canRegister s)
        (match k_chord s with [] => u "Bound to a key" | c => u "Bound to " ++ c end) (detail s) (blocked s)
        (u "Keybinding: " ++ given_or (k_chord s) (u "set") ++ u ".")
    else unbound_state s i
  end.

(** ** The chord field *)

Record chord_check := mkCheck { ok : bool; chk_chord : jstr; chk_line : jstr; chk_message : jstr; chk_note : jstr }.

Definition same_chord (a b : chord_result) : bool :=
  c_ok a && (modmask a =? modmask b)%Z && str_eqb (to_upper (key a)) (to_upper (key b)).

(** The last line of bindings.lua with the chord. *)
Definition file_holder (parsed : chord_result) (fileBinds : list lua_bind) : option lua_bind :=
  fold_left (fun holder b => if same_chord (autoTypeChord (JStr (l_chord b))) parsed then Some b else holder) fileBinds None.

Definition taken (out : chord_check) (holder : option hypr_bind) (fileHolder : option lua_bind) : chord_check :=
  let from_file f := match fileHolder with Some b => f b | None => [] end in
  let label := match holder with
               | Some h => given_or (b_description h) (from_file l_description)
               | None => from_file l_description
               end in
  let command := match holder with
                 | Some h => if runs_exec (b_dispatcher h) then given_or (b_arg h) (from_file l_command) else from_file l_command
                 | None => from_file l_command
                 end in
  let refuse m := mkCheck false (chk_chord out) (chk_line out) m (chk_note out) in
  if (match holder with Some h => hyprBindRunsAutoType h | None => false end) || isAutoTypeCommand command
  then refuse (chk_chord out ++ u " already runs auto-type.")
  else refuse (chk_chord out ++ u " is already bound"
    ++ (match label with [] => [] | _ => uq " to `" ++ label ++ uq "`" end)
    ++ (match command with
        | [] => match label with [] => u " to another command" | _ => [] end
        | _ => u " (" ++ command ++ u ")"
        end)
    ++ u ". Pick another key, or unbind that one in " ++ autoTypeBindingsDisplayPath ++ u " first.").

Definition autoTypeChordCheck (text : jsval) (state : option keybind_state) : chord_check :=
  let parsed := autoTypeChord text in
  if negb (c_ok parsed) then mkCheck false [] [] (c_message parsed) []
  else
    let out note := mkCheck true (chord parsed) (autoTypeBindLine (JStr (chord parsed))) [] note in
    let fileHolder := file_holder parsed (match state with Some s => fileBinds s | None => [] end) in
    match state with
    | Some s =>
      if hyprctl s then
        match find_first (fun b => hyprBindHasChord b parsed) (live_binds s) with
        | None => out []
        | Some h => taken (out []) (Some h) fileHolder
        end
      else
        let out := out (if checked s then u "hyprctl is not available, so only " ++ autoTypeBindingsDisplayPath
                          ++ u " was checked for this key." else []) in
        match fileHolder with None => out | Some _ => taken out None fileHolder end
    | None => match fileHolder with None => out [] | Some _ => taken (out []) None fileHolder end
    end.

Definition autoTypeChordSuggestion (state : option keybind_state) : jstr :=
  match find_first (fun c => ok (autoTypeChordCheck (JStr c) state)) AUTO_TYPE_CHORD_SUGGESTIONS with
  | Some c => c
  | None => first_suggestion
  end.

(** ** The scripts *)

Definition KEYBIND_EXIT_NO_HOME : Z := 3.
Definition KEYBIND_EXIT_FILE : Z := 4.
Definition KEYBIND_EXIT_BOUND : Z := 5.
Definition KEYBIND_EXIT_NOT_LOADED : Z := 6.
Definition KEYBIND_EXIT_WRITE : Z := 7.
Definition KEYBIND_EXIT_NOT_OURS : Z := 8.

Definition keybindApplyShell : jstr :=
  u "if command -v hyprctl >/dev/null 2>&1; then "
    ++ u "if hyprctl reload config-only >/dev/null 2>&1; then echo reloaded; "
    ++ u "__err=$(hyprctl configerrors -j 2>/dev/null | jq -r '.[]? | strings | select(length > 0)' 2>/dev/null "
    ++ u "| head -n 3 | tr -d '\000-\010\013-\037' | tr '\n' ' ' | head -c 400); "
    ++ uq "[ -z `$__err` ] || printf 'errors=%s\n' `$__err`; " ++ u "else echo reload-failed; fi; "
    ++ u "else echo no-hyprctl; fi".

Definition autoTypeKeybindRegisterCommand (chord : jsval) : list jstr :=
  let line := autoTypeBindLine chord in
  if str_eqb line [] then [] else
  let script := uq "test -n `${HOME:-}` || exit " ++ dec_Z KEYBIND_EXIT_NO_HOME ++ u "; " ++ uq "__f=`$HOME/"
    ++ AUTO_TYPE_BINDINGS_REL ++ uq "`; __main=`$HOME/" ++ AUTO_TYPE_HYPRLAND_REL ++ uq "`; "
    ++ uq "if [ -e `$__f` ] || [ -L `$__f` ]; then "
    ++ uq "[ -f `$__f` ] && [ -r `$__f` ] && [ -w `$__f` ] || exit " ++ dec_Z KEYBIND_EXIT_FILE ++ u "; "
    ++ uq "if grep -v '^[[:space:]]*--' -- `$__f` | grep -Eq "
    ++ shellQuote (JStr (u "io\.github\.elevate08\.qs-bitwarden-cli[[:space:]]+autoType([^A-Za-z0-9_]|$)"))
    ++ u "; then exit " ++ dec_Z KEYBIND_EXIT_BOUND ++ u "; fi; " ++ u "else " ++ hyprlandLoadsBindingsShell
    ++ u " || exit " ++ dec_Z KEYBIND_EXIT_NOT_LOADED ++ u "; fi; "
    ++ uq "__sep=''; if [ -s `$__f` ]; then __sep='\n'; "
    ++ uq "[ -z `$(tail -c 1 -- `$__f`)` ] || __sep='\n\n'; fi; "
    ++ uq "printf '%b%s\n%s\n' `$__sep` `$2` `$1` >> `$__f` || exit " ++ dec_Z KEYBIND_EXIT_WRITE ++ u "; "
    ++ u "echo appended; " ++ keybindApplyShell in
  bash_args (cappedScript script (Some MAX_STDERR_BYTES)) [u "qsbw-keybind"; line; AUTO_TYPE_BIND_COMMENT].

Definition autoTypeKeybindRemoveCommand (chord : jsval) : list jstr :=
  let line := autoTypeBindLine chord in
  if str_eqb line [] then [] else
  let awk := u "{ a[NR] = $0 } END { n = 0; "
    ++ uq "for (i = 1; i < NR; i++) if (a[i] == ENVIRON[`QSBW_NOTE`] && a[i + 1] == ENVIRON[`QSBW_LINE`]) { n++; at = i }; "
    ++ uq "if (n != 1) exit 1; blank = (at > 1 && a[at - 1] == ``) ? at - 1 : 0; "
    ++ u "for (i = 1; i <= NR; i++) if (i != at && i != at + 1 && i != blank) print a[i] }" in
  let script := uq "test -n `${HOME:-}` || exit " ++ dec_Z KEYBIND_EXIT_NO_HOME ++ u "; " ++ uq "__f=`$HOME/"
    ++ AUTO_TYPE_BINDINGS_REL ++ uq "`; " ++ uq "[ -f `$__f` ] && [ -r `$__f` ] && [ -w `$__f` ] || exit "
    ++ dec_Z KEYBIND_EXIT_FILE ++ u "; " ++ uq "__real=$(readlink -f -- `$__f`) && [ -n `$__real` ] || exit "
    ++ dec_Z KEYBIND_EXIT_FILE ++ u "; "
    ++ uq "__tmp=$(mktemp -- `$(dirname -- `$__real`)/.bindings.lua.XXXXXX`) || exit "
    ++ dec_Z KEYBIND_EXIT_WRITE ++ u "; " ++ uq "QSBW_LINE=`$1` QSBW_NOTE=`$2` awk " ++ shellQuote (JStr awk)
    ++ uq " `$__real` > `$__tmp`; __awk=$?; " ++ uq "if [ `$__awk` -eq 1 ]; then rm -f -- `$__tmp`; exit "
    ++ dec_Z KEYBIND_EXIT_NOT_OURS ++ u "; fi; " ++ uq "if [ `$__awk` -ne 0 ]; then rm -f -- `$__tmp`; exit "
    ++ dec_Z KEYBIND_EXIT_WRITE ++ u "; fi; " ++ uq "chmod --reference=`$__real` -- `$__tmp` 2>/dev/null; "
    ++ uq "mv -f -- `$__tmp` `$__real` || { rm -f -- `$__tmp`; exit " ++ dec_Z KEYBIND_EXIT_WRITE ++ u "; }; "
    ++ u "echo removed; " ++ keybindApplyShell in
  bash_args (cappedScript script (Some MAX_STDERR_BYTES)) [u "qsbw-keybind"; line; AUTO_TYPE_BIND_COMMENT].

(** What bindings.lua is to the scripts, HOME being set: not there, no regular
    file that can be read and written, or its text. *)
Inductive lua_file := NoFile | Unusable | Text (text : jstr).

(** What a run leaves and its exit code. *)
Record lua_run := mkLuaRun { file_after : lua_file; lua_exit : Z }.

(** Lines as grep and awk see them: a newline at the end ends the last one. *)
Definition records (text : jstr) : list jstr :=
  let l := split_char 10 text in if str_eqb (List.last l []) [] then List.removelast l else l.

Definition unrecords (lines : list jstr) : jstr := concat (map (fun l => l ++ newline) lines).

(** [[:space:]] *)
Definition is_posix_space (c : N) : bool := in_range 9 13 c || (c =? 32)%N.

(** The two greps of the register script. *)
Definition comment_line (line : jstr) : bool := starts_with (u "--") (strip_start is_posix_space line).
Definition already_bound (text : jstr) : bool :=
  existsb (test (auto_type_re is_posix_space)) (List.filter (fun l => negb (comment_line l)) (records text)).

(** [__sep]: a NUL or newline at the end leaves [$(tail -c 1)] empty. *)
Definition separator (text : jstr) : jstr :=
  match last text with
  | None => []
  | Some c => if (c =? 10)%N || (c =? 0)%N then newline else newline ++ newline
  end.

Definition append_pair (line text : jstr) : jstr :=
  text ++ separator text ++ AUTO_TYPE_BIND_COMMENT ++ newline ++ line ++ newline.

(** The register script: [loads] says whether hyprland.lua requires the file,
    [write_ok] whether the append succeeds. *)
Definition keybind_register (loads write_ok : bool) (line : jstr) (f : lua_file) : lua_run :=
  match f with
  | Unusable => mkLuaRun f KEYBIND_EXIT_FILE
  | Text text =>
    if already_bound text then mkLuaRun f KEYBIND_EXIT_BOUND
    else if write_ok then mkLuaRun (Text (append_pair line text)) 0 else mkLuaRun f KEYBIND_EXIT_WRITE
  | NoFile =>
    if negb loads then mkLuaRun f KEYBIND_EXIT_NOT_LOADED
    else if write_ok then mkLuaRun (Text (append_pair line [])) 0 else mkLuaRun f KEYBIND_EXIT_WRITE
  end.

(** The awk program, with the records' positions from 0: where the pairs are,
    and the records kept when there is exactly one. *)
Definition pair_at (note line : jstr) (a : list jstr) (i : nat) : bool :=
  match a !! i, a !! S i with Some x, Some y => str_eqb x note && str_eqb y line | _, _ => false end.

Definition pair_positions (note line : jstr) (a : list jstr) : list nat :=
  List.filter (pair_at note line a) (seq 0 (length a - 1)).

Definition without_pair (a : list jstr) (at_ : nat) : list jstr :=
  let blank := match at_ with S b => str_eqb (default [] (a !! b)) [] | O => false end in
  take (if blank then at_ - 1 else at_) a ++ drop (at_ + 2) a.

Definition awk_remove (note line text : jstr) : option jstr :=
  let a := records text in
  match pair_positions note line a with
  | [at_] => Some (unrecords (without_pair a at_))
  | _ => None
  end.

(** The remove script; [mktemp_ok]: a temporary file can be made beside it,
    [rename_ok]: it can be written and renamed. *)
Definition keybind_remove (mktemp_ok rename_ok : bool) (line : jstr) (f : lua_file) : lua_run :=
  match f with
  | Text text =>
    if negb mktemp_ok then mkLuaRun f KEYBIND_EXIT_WRITE
    else match awk_remove AUTO_TYPE_BIND_COMMENT line text with
         | None => mkLuaRun f KEYBIND_EXIT_NOT_OURS
         | Some rest => if rename_ok then mkLuaRun (Text rest) 0 else mkLuaRun f KEYBIND_EXIT_WRITE
         end
  | _ => mkLuaRun f KEYBIND_EXIT_FILE
  end.

(** ** The result *)

Definition keybind_failures : list (Z * (jstr * jstr)) :=
  let where_ := autoTypeBindingsDisplayPath in
  [(KEYBIND_EXIT_NO_HOME, (u "NO_HOME", u "No HOME is set, so there is no " ++ where_ ++ u "."));
   (KEYBIND_EXIT_FILE, (u "FILE", where_ ++ u " is not a regular file this plugin can read and write, so it was left alone."));
   (KEYBIND_EXIT_BOUND, (u "BOUND", where_ ++ u " already has a line that runs auto-type, so nothing was added."));
   (KEYBIND_EXIT_NOT_LOADED, (u "NOT_LOADED",
      where_ ++ u " does not exist and your hyprland.lua does not load it, so it was not created. "
      ++ u "Copy the line and add it where your bindings live."));
   (KEYBIND_EXIT_WRITE, (u "WRITE", u "Could not write " ++ where_ ++ u "."));
   (KEYBIND_EXIT_NOT_OURS, (u "NOT_OURS",
      u "The line this plugin added is no longer there exactly as written, so nothing was removed. "
      ++ u "Edit " ++ where_ ++ u " yourself."))].

(** The last line's text after the prefix. *)
Definition config_errors (lines : list jstr) : jstr :=
  fold_left (fun errors line => if starts_with (u "errors=") line then trim (drop 7 line) else errors) lines [].

Definition keybind_success (chord : jstr) (out : jstr) : option jsval :=
  match split_char 10 out with
  | action :: lines =>
    let appended := str_eqb action (u "appended") in
    if negb appended && negb (str_eqb action (u "removed")) then None
    else
      let applied := existsb (str_eqb (u "reloaded")) lines in
      let errors := config_errors lines in
      let message :=
        if appended then
          if applied then u "Registered " ++ chord ++ u ". Arm a login, then press it in the window to type into."
          else u "Added " ++ chord ++ u " to " ++ autoTypeBindingsDisplayPath
                 ++ u ". Hyprland uses it once it reloads its config (hyprctl reload)."
        else if applied then u "Removed the keybinding this plugin added."
        else u "Removed the keybinding this plugin added. Hyprland drops it once it reloads its config (hyprctl reload)." in
      let message := if str_eqb errors [] then message else message ++ u " Hyprland reports a config error: " ++ errors in
      Some (obj [("ok", JBool true); ("code", JStr (u (if appended then "APPENDED" else "REMOVED"))); ("message", JStr message);
                 ("warning", JBool (negb (str_eqb errors [])))])
  | [] => None
  end.

Definition parseAutoTypeKeybindResult (exitCode stdout chord : jsval) : jsval :=
  parseExitCodeResult exitCode stdout (keybind_success (text_or_empty chord)) keybind_failures
    (u "Could not update " ++ autoTypeBindingsDisplayPath ++ u ".").

(** ** Specifications *)

(** What is left of a name once it is one: not empty, no spaces, no +. *)
Definition name_ok (w : jstr) : bool := negb (str_eqb w []) && forallb is_word_unit w.

Definition padding (s : jstr) : Prop := s = [] \/ s = [32%N].

(** The modifiers read so far: no name twice, and the mask holds their bits. *)
Definition mods_ok (mods : list jstr) (mask : Z) : Prop :=
  NoDup mods /\ Forall (fun n => n ∈ CHORD_MODIFIER_ORDER) mods
  /\ forall name bit, modifier_bit name = Some bit -> (Z.land mask bit <> 0%Z <-> name ∈ mods).

(** What a chord that is accepted is made of. *)
Record chord_made (r : chord_result) (mods : list jstr) (pressed : jstr) : Prop := {
  made_mods : mods_ok mods (modmask r);
  made_again : forall m0, chord_mods mods m0 0 = inr (m0 ++ mods, modmask r);
  made_some : mods <> [];
  made_key : name_ok pressed = true;
  made_no_mod : bool_decide (is_Some (modifier_bit (to_upper pressed))) || str_eqb (to_upper pressed) (u "CONTROL") = false;
  made_held : (Z.land (modmask r) (64 + 4 + 8) =? 0)%Z = false;
  made_result : r = mkChord true (join (u " + ") (mods ++ [normal_key pressed])) (modmask r) (normal_key pressed) [] }.

(** The text of the plugin's line. *)
Definition bind_text (c : jstr) : jstr :=
  uq "o.bind(`" ++ c ++ uq "`, `" ++ AUTO_TYPE_BIND_DESCRIPTION ++ uq "`, `" ++ AUTO_TYPE_IPC_COMMAND ++ uq "`)".

(** The lines before the pair. *)
Definition lines_before (text : jstr) : list jstr :=
  match text with
  | [] => []
  | _ => split_char 10 text ++ (if str_eqb (separator text) newline then [] else [[]])
  end.

(** ** Lemmas *)

Lemma word_not_space c : is_word_unit c = true -> is_space c = false /\ (43 =? c)%N = false.
Proof.
  unfold is_word_unit, is_alnum, is_digit, is_lower, is_upper, in_range. intros H.
  assert (33 <= c /\ c <> 43 /\ c < 128)%N as (H1 & H2 & H3).
  { repeat (apply orb_true_iff in H as [H|H]); rewrite ?andb_true_iff, ?N.leb_le, ?N.eqb_eq in H; lia. }
  split; [|by apply N.eqb_neq; intros <-]. unfold is_space, in_range.
  rewrite !orb_false_iff, !andb_false_iff, !N.eqb_neq, !N.leb_gt. lia.
Qed.

Lemma trim_start_word c t : is_space c = false -> trim_start (c :: t) = c :: t.
Proof. intros H. simpl. by rewrite H. Qed.

Lemma strip_end_word p w : w <> [] -> forallb (fun c => negb (p c)) w = true -> strip_end p w = w.
Proof.
  induction w as [|c w IH]; [done|]. cbn [forallb]. intros _ [Hc Hw]%andb_true_iff. apply negb_true_iff in Hc.
  cbn [strip_end]. destruct w as [|d w]; [simpl; by rewrite Hc|]. by rewrite (IH ltac:(done) Hw).
Qed.

Lemma strip_end_space p w c : p c = true -> strip_end p (w ++ [c]) = strip_end p w.
Proof.
  intros Hc. induction w as [|d w IH]; simpl; [by rewrite Hc|]. by rewrite IH.
Qed.

Lemma word_units w : name_ok w = true -> w <> [] /\ forallb (fun c => negb (is_space c)) w = true
  /\ forallb (fun c => negb (43 =? c)%N) w = true /\ exists c t, w = c :: t /\ is_space c = false.
Proof.
  unfold name_ok. intros [H1 H2]%andb_true_iff. apply negb_true_iff, str_eqb_neq in H1. split; [done|].
  split; [|split]; [revert H2; apply forallb_impl; intros c Hc; apply word_not_space in Hc as [? ?]; by apply negb_true_iff..|].
  destruct w as [|c t]; [done|]. exists c, t. split; [done|]. cbn [forallb] in H2. apply andb_true_iff in H2 as [H2 _].
  by destruct (word_not_space c H2).
Qed.

Lemma trim_word pre w suf : padding pre -> padding suf -> name_ok w = true -> trim (pre ++ w ++ suf) = w.
Proof.
  intros Hp Hs Hw. apply word_units in Hw as (Hne & Hsp & _ & (c & t & E & Hc)).
  assert (trim (w ++ suf) = w) as G.
  { unfold trim. subst w. cbn [app]. rewrite trim_start_word by done. destruct Hs as [->| ->].
    - rewrite app_nil_r. by apply strip_end_word.
    - change (c :: t ++ [32%N]) with ((c :: t) ++ [32%N]). rewrite strip_end_space by done. by apply strip_end_word. }
  destruct Hp as [->| ->]; [done|]. unfold trim in *. cbn [app trim_start]. done.
Qed.

Lemma join_plus_cons x l : l <> [] -> join (u " + ") (x :: l) = x ++ [32; 43; 32]%N ++ join (u " + ") l.
Proof. intros H. by rewrite join_cons. Qed.

(** The parts of a joined chord are its names. *)
Lemma chord_parts_join pre l : padding pre -> l <> [] -> Forall (fun w => name_ok w = true) l ->
  chord_parts (split_char 43 (pre ++ join (u " + ") l)) = inr l.
Proof.
  intros Hp Hne Hl. revert pre Hp Hne. induction Hl as [|w l Hw Hl IH]; intros pre Hp Hne; [done|].
  pose proof (word_units w Hw) as (Hwne & Hsp & Hplus & _).
  assert (forall suf, padding suf -> forallb (fun c => negb (43 =? c)%N) (pre ++ w ++ suf) = true) as Hun.
  { intros suf Hs. rewrite !forallb_app, Hplus, andb_true_iff. destruct Hp as [->| ->], Hs as [->| ->]; done. }
  assert (forall suf rest, padding suf ->
    chord_parts ((pre ++ w ++ suf) :: rest) = match chord_parts rest with inl m => inl m | inr ps => inr (w :: ps) end) as Hstep.
  { intros suf rest Hs. cbn [chord_parts]. rewrite trim_word by done. apply str_eqb_neq in Hwne as ->.
    assert (existsb is_space w = false) as ->; [|done].
    apply existsb_false. intros c Hc. rewrite forallb_forall in Hsp. by apply negb_true_iff, Hsp, list_elem_of_In. }
  destruct l as [|w' l].
  - cbn [join]. rewrite <- (app_nil_r w). unfold split_char. rewrite (split_on_none (N.eqb 43)) by (apply Hun; by left).
    rewrite Hstep by by left. cbn [chord_parts]. by rewrite app_nil_r.
  - rewrite join_plus_cons by done. change ([32; 43; 32]%N ++ join (u " + ") (w' :: l)) with ([32]%N ++ 43%N :: ([32]%N ++ join (u " + ") (w' :: l))).
    rewrite !app_assoc, <- (app_assoc pre). unfold split_char. rewrite (split_on_app (N.eqb 43)) by (apply Hun || done; by right).
    rewrite Hstep by by right. 
    pose proof (IH [32]%N ltac:(by right) ltac:(done)) as E. unfold split_char in E. by rewrite E.
Qed.

Lemma order_names : forallb (fun n => name_ok n && str_eqb (to_upper n) n && negb (str_eqb n (u "CONTROL"))
  && bool_decide (is_Some (modifier_bit n)) && forallb is_chord_unit n) CHORD_MODIFIER_ORDER = true.
Proof. by vm_compute. Qed.

Lemma modifier_bit_order name bit : modifier_bit name = Some bit -> name ∈ CHORD_MODIFIER_ORDER.
Proof.
  unfold modifier_bit. destruct (find_first _ _) as [[n b]|] eqn:E; [|done]. intros _.
  apply find_first_some in E as [E H]. apply str_eqb_eq in H as <-. cbn [fst]. unfold CHORD_MODIFIER_BITS, CHORD_MODIFIER_ORDER in *.
  repeat (apply elem_of_cons in E as [[= -> ->]|E]; [rewrite !elem_of_cons; auto 10|]). by apply elem_of_nil in E.
Qed.

Lemma modifier_cases (P : jstr -> Z -> Prop) :
  P (u "SUPER") 64%Z -> P (u "SHIFT") 1%Z -> P (u "CTRL") 4%Z -> P (u "ALT") 8%Z ->
  forall name bit, modifier_bit name = Some bit -> P name bit.
Proof.
  intros H1 H2 H3 H4 name bit. unfold modifier_bit, CHORD_MODIFIER_BITS. cbn [find_first fst snd].
  repeat match goal with |- context [str_eqb ?a name] => destruct (str_eqb a name) eqn:?; cbn [fmap option_fmap option_map snd];
    [match goal with H : str_eqb a name = true |- _ => apply str_eqb_eq in H as <- end; by intros [= <-]|] end. done.
Qed.

Lemma mods_ok_step mods mask name bit :
  mods_ok mods mask -> modifier_bit name = Some bit -> Z.land mask bit = 0%Z -> mods_ok (mods ++ [name]) (Z.lor mask bit).
Proof.
  intros (Hn & Ho & Hm) Hb Hz. assert (name ∉ mods) as Hni by (intros Hin; by apply (Hm _ _ Hb) in Hin).
  split; [|split].
  - apply NoDup_app. repeat split; [done| |apply NoDup_singleton]. intros x Hx ->%list_elem_of_singleton. done.
  - apply Forall_app. split; [done|]. constructor; [by eapply modifier_bit_order|constructor].
  - intros name' bit' Hb'. rewrite elem_of_app, list_elem_of_singleton, <- (Hm _ _ Hb').
    rewrite Z.land_lor_distr_l, Z.lor_eq_0_iff.
    assert (Z.land bit bit' = 0%Z <-> name' <> name) as Hd.
    { revert name bit Hb Hz Hni. revert name' bit' Hb'.
      apply (modifier_cases (fun n' b' => forall n b, modifier_bit n = Some b -> Z.land mask b = 0%Z -> n ∉ mods -> (Z.land b b' = 0%Z <-> n' <> n)));
      intros n b Hb _ _; revert n b Hb;
      apply (modifier_cases (fun n b => Z.land b _ = 0%Z <-> _ <> n)); vm_compute; split; congruence. }
    destruct (decide (name' = name)) as [->|Hne]; [|tauto]. tauto.
Qed.

Lemma chord_mods_spec parts : forall mods mask mods' mask', chord_mods parts mods mask = inr (mods', mask') -> mods_ok mods mask ->
  mods_ok mods' mask' /\ exists names, mods' = mods ++ names /\ length names = length parts /\
    forall m0, chord_mods names m0 mask = inr (m0 ++ names, mask').
Proof.
  induction parts as [|p parts IH]; intros mods mask mods' mask'; cbn [chord_mods].
  - intros [= <- <-] H. split; [done|]. exists []. split; [by rewrite app_nil_r|]. split; [done|]. intros m0. cbn [chord_mods]. by rewrite app_nil_r.
  - set (name := if str_eqb (to_upper p) (u "CONTROL") then u "CTRL" else to_upper p).
    destruct (modifier_bit name) as [bit|] eqn:Eb; [|done]. destruct (Z.eqb_spec (Z.land mask bit) 0) as [Hz|]; cbn [negb]; [|done].
    intros H Hok. apply IH in H as (Hok' & names & -> & Hl & Hr); [|by eapply mods_ok_step]. split; [done|].
    exists (name :: names). split; [by rewrite <- app_assoc|]. split; [cbn [length]; by rewrite Hl|]. intros m0. cbn [chord_mods].
    pose proof (modifier_bit_order _ _ Eb) as Hin. pose proof order_names as Ho. rewrite forallb_forall in Ho.
    apply list_elem_of_In, Ho in Hin. bool_hyps.
    match goal with H : str_eqb (to_upper name) name = true |- _ => apply str_eqb_eq in H as -> end.
    match goal with H : str_eqb name (u "CONTROL") = false |- _ => rewrite H end.
    rewrite Eb, Hz. cbn [Z.eqb negb]. by rewrite Hr, <- app_assoc.
Qed.

Lemma xf86_spec k : is_xf86 k = str_eqb (to_upper (take 4 k)) (u "XF86").
Proof.
  unfold is_xf86. destruct (test _ k) eqn:E; symmetry.
  - apply test_prefix in E as (a & b & -> & Ha). apply spells_litI in Ha. apply str_eqb_eq.
    assert (length a = 4) as Hl by (apply (f_equal length) in Ha; by rewrite !length_map in Ha).
    rewrite take_app_length' by done. unfold to_upper. rewrite Ha. by vm_compute.
  - apply str_eqb_neq. intros H. apply not_true_iff_false in E. apply E. clear E.
    destruct k as [|c1 [|c2 [|c3 [|c4 k]]]]; try (by apply (f_equal length) in H; vm_compute in H).
    cbn [take to_upper map] in H. change (u "XF86") with [88; 70; 56; 54]%N in *. injection H as H1 H2 H3 H4.
    unfold test, exec. cbn [search rmatch before rest RLitI fold_right]. unfold fold_eq. rewrite H1, H2, H3, H4.
    cbn. done.
Qed.

Lemma upper_unit_cases c : (upper_unit c = c /\ (c < 97 \/ 122 < c)%N) \/ (upper_unit c = (c - 32)%N /\ ((97 <= c <= 122) \/ (224 <= c <= 254))%N).
Proof.
  unfold upper_unit, is_lower, in_range. destruct (_ || _) eqn:E.
  - right. split; [done|]. rewrite ?orb_true_iff, ?andb_true_iff, ?N.leb_le in E. tauto.
  - left. split; [done|]. apply orb_false_iff in E as [E _]. apply andb_false_iff in E. rewrite !N.leb_gt in E. lia.
Qed.

Lemma upper_word c : is_word_unit c = true -> is_word_unit (upper_unit c) = true.
Proof.
  unfold is_word_unit, is_alnum, is_digit, is_lower, is_upper, in_range.
  rewrite !orb_true_iff, !andb_true_iff, !N.leb_le, !N.eqb_eq. destruct (upper_unit_cases c) as [[-> ?]|[-> ?]]; lia.
Qed.
Lemma upper_unit_idemp c : upper_unit (upper_unit c) = upper_unit c.
Proof.
  destruct (upper_unit_cases c) as [[E ?]|[E ?]]; [by rewrite !E|].
  destruct (upper_unit_cases (upper_unit c)) as [[-> ?]|[-> ?]]; rewrite E in *; lia.
Qed.
Lemma to_upper_idemp s : to_upper (to_upper s) = to_upper s.
Proof. unfold to_upper. rewrite map_map. apply map_ext. intros. apply upper_unit_idemp. Qed.

Lemma normal_key_spec k : name_ok k = true ->
  name_ok (normal_key k) = true /\ normal_key (normal_key k) = normal_key k /\ to_upper (normal_key k) = to_upper k.
Proof.
  unfold name_ok. intros [H1 H2]%andb_true_iff. destruct (is_xf86 k) eqn:E.
  - assert (normal_key k = u "XF86" ++ drop 4 k) as -> by (unfold normal_key; by rewrite E).
    rewrite xf86_spec in E. apply str_eqb_eq in E.
    assert (is_xf86 (u "XF86" ++ drop 4 k) = true) as Hx by (rewrite xf86_spec; by vm_compute).
    split; [|split].
    + apply andb_true_iff. split; [by vm_compute|]. rewrite forallb_app. apply andb_true_iff. split; [by vm_compute|].
      rewrite forallb_forall in *. intros c Hc. apply H2. rewrite <- (take_drop 4 k). apply in_or_app. by right.
    + unfold normal_key. by rewrite Hx.
    + rewrite <- (take_drop 4 k) at 2. unfold to_upper. rewrite !map_app. f_equal. unfold to_upper in E. rewrite E. by vm_compute.
  - assert (normal_key k = to_upper k) as -> by (unfold normal_key; by rewrite E).
    assert (is_xf86 (to_upper k) = false) as Hx.
    { rewrite xf86_spec in *. unfold to_upper in *. rewrite firstn_map, map_map, (map_ext _ upper_unit) by apply upper_unit_idemp. done. }
    split; [|split].
    + apply andb_true_iff. split; [by destruct k|]. unfold to_upper. rewrite forallb_forall in *. intros c Hc.
      apply in_map_iff in Hc as (d & <- & Hd). apply upper_word. auto.
    + unfold normal_key. rewrite Hx. apply to_upper_idemp.
    + apply to_upper_idemp.
Qed.

Lemma split_char_units (q : N -> bool) c s : forallb q s = true ->
  Forall (fun w => forallb (fun d => q d && negb (c =? d)%N) w = true) (split_char c s).
Proof.
  unfold split_char. induction s as [|x s IH]; [by repeat constructor|]. simpl. intros [Hx Hs]%andb_true_iff.
  specialize (IH Hs). destruct (c =? x)%N eqn:E; [by constructor|].
  destruct (split_on (N.eqb c) s) as [|w l]; [repeat constructor; simpl; by rewrite Hx, E|].
  apply Forall_cons in IH as [Hw Hl]. constructor; [|done]. simpl. by rewrite Hx, E, Hw.
Qed.

Lemma chord_parts_names parts ps : chord_parts parts = inr ps ->
  Forall (fun w => forallb (fun d => is_chord_unit d && negb (43 =? d)%N) w = true) parts -> Forall (fun w => name_ok w = true) ps.
Proof.
  revert ps. induction parts as [|p parts IH]; intros ps; cbn [chord_parts]; [intros [= <-]; constructor|].
  destruct (str_eqb (trim p) []) eqn:E1; [done|]. destruct (existsb is_space (trim p)) eqn:E2; [done|].
  destruct (chord_parts parts) as [m|ps'] eqn:E3; [done|]. intros [= <-] [Hp Ht]%Forall_cons. constructor; [|by apply IH].
  unfold name_ok. rewrite E1. cbn [negb andb]. apply (trim_forall _ p) in Hp. rewrite forallb_forall in *. intros c Hc.
  specialize (Hp c Hc). rewrite existsb_false in E2. specialize (E2 c ltac:(by apply list_elem_of_In)).
  revert Hp E2. unfold is_chord_unit, is_word_unit. destruct (is_alnum c), (c =? 95)%N; try done. cbn [orb].
  rewrite (N.eqb_sym 43). destruct (c =? 43)%N; [done|]. cbn [orb negb andb]. rewrite andb_true_r. intros ->%N.eqb_eq. done.
Qed.

Lemma chord_made_of raw : c_ok (autoTypeChord raw) = true -> exists mods pressed, chord_made (autoTypeChord raw) mods pressed.
Proof.
  unfold autoTypeChord. set (text := shown raw).
  destruct (str_eqb (trim text) []); [done|]. destruct (CHORD_MAX_LENGTH <? length text); [done|].
  destruct (forallb is_chord_unit text) eqn:Eu; [|done]. cbn [negb].
  destruct (chord_parts (split_char 43 text)) as [m|parts] eqn:Ep; [done|].
  apply chord_parts_names in Ep; [|by apply split_char_units].
  destruct (length parts <? 2) eqn:El; [done|]. apply Nat.ltb_ge in El.
  assert (parts <> []) as Hne by (intros ->; simpl in El; lia).
  pose proof (app_removelast_last [] Hne) as Hsplit. set (pressed := List.last parts []) in *.
  destruct (chord_mods (List.removelast parts) [] 0) as [m|[mods mask]] eqn:Em; [done|].
  destruct (bool_decide _ || _) eqn:Eb; [done|]. destruct (Z.land mask _ =? 0)%Z eqn:Eh; [done|]. intros _.
  assert (mods_ok [] 0) as H0.
  { split; [constructor|]. split; [constructor|]. intros name bit H. split; [done|by intros ?%elem_of_nil]. }
  apply (chord_mods_spec _ _ _ _ _) in Em as (Hok & names & E & Hl & Hr); [|done]. cbn [app] in E. subst names.
  exists mods, pressed. constructor; try done.
  - destruct mods; [|done]. rewrite Hsplit, length_app in El. simpl in El, Hl. lia.
  - rewrite Hsplit in Ep. apply Forall_app in Ep as [_ Ep]. by apply Forall_cons in Ep as [Ep _].
Qed.

Lemma names_units l : l <> [] -> Forall (fun w => name_ok w = true) l -> 
  forallb is_chord_unit (join (u " + ") l) = true /\ exists c t, join (u " + ") l = c :: t /\ is_space c = false.
Proof.
  intros Hne Hl. split.
  - clear Hne. induction Hl as [|w l Hw Hl IH]; [done|].
    assert (forallb is_chord_unit w = true) as Hu.
    { unfold name_ok in Hw. apply andb_true_iff in Hw as [_ Hw]. revert Hw. apply forallb_impl. intros c.
      unfold is_word_unit, is_chord_unit. by destruct (is_alnum c), (c =? 95)%N. }
    destruct l as [|w' l]; [done|]. rewrite join_plus_cons by done. rewrite !forallb_app, Hu, IH. done.
  - destruct Hl as [|w l Hw Hl]; [done|]. apply word_units in Hw as (_ & _ & _ & c & t & -> & Hc).
    destruct l; [by exists c, t|]. rewrite join_plus_cons by done. cbn [app]. eauto.
Qed.

Lemma mods_names mods mask : mods_ok mods mask -> Forall (fun w => name_ok w = true) mods.
Proof.
  intros (_ & H & _). eapply Forall_impl; [exact H|]. intros n Hn. pose proof order_names as Ho. rewrite forallb_forall in Ho.
  apply list_elem_of_In, Ho in Hn. by bool_hyps.
Qed.

Lemma chord_again r mods pressed : chord_made r mods pressed -> length (chord r) <= CHORD_MAX_LENGTH -> autoTypeChord (JStr (chord r)) = r.
Proof.
  intros [Hm Ha Hs Hk Hn Hh Hr] Hl. assert (chord r = join (u " + ") (mods ++ [normal_key pressed])) as Ec by (by rewrite Hr). rewrite Ec in *.
  destruct (normal_key_spec _ Hk) as (Hk1 & Hk2 & Hk3).
  assert (Forall (fun w => name_ok w = true) (mods ++ [normal_key pressed])) as Hw.
  { apply Forall_app. split; [by eapply mods_names|by repeat constructor]. }
  assert (mods ++ [normal_key pressed] <> []) as Hne by by destruct mods.
  unfold autoTypeChord, shown. cbn [is_nullish to_str].
  destruct (names_units _ Hne Hw) as [Hu (c & t & Et & Hc)].
  assert (str_eqb (trim (join (u " + ") (mods ++ [normal_key pressed]))) [] = false) as ->.
  { rewrite Et. apply str_eqb_neq. unfold trim. cbn [trim_start]. rewrite Hc. cbn [strip_end]. destruct (strip_end is_space t); [by rewrite Hc|done]. }
  assert (CHORD_MAX_LENGTH <? length (join (u " + ") (mods ++ [normal_key pressed])) = false) as -> by by apply Nat.ltb_ge.
  rewrite Hu. cbn [negb]. pose proof (chord_parts_join [] _ ltac:(by left) Hne Hw) as E. cbn [app] in E. rewrite E.
  rewrite length_app. cbn [length]. assert (length mods + 1 <? 2 = false) as -> by (apply Nat.ltb_ge; destruct mods; simpl; [done|lia]).
  rewrite last_last, removelast_last, Ha. cbn [app]. rewrite Hk2, Hk3, Hn, Hh. by symmetry.
Qed.

Lemma last_split_char c s d : (c =? d)%N = false -> List.last (split_char c (s ++ [d])) [] <> [].
Proof.
  unfold split_char. intros Hd. induction s as [|x s IH]; simpl; [by rewrite Hd|].
  pose proof (split_on_nonempty (N.eqb c) (s ++ [d])) as Hn.
  destruct (c =? x)%N; [by destruct (split_on (N.eqb c) (s ++ [d]))|].
  destruct (split_on (N.eqb c) (s ++ [d])) as [|w l]; [done|]. destruct l; [done|]. exact IH.
Qed.

(** A match at some place is found there or earlier. *)
Lemma search_complete r a : forall prev b i, (forall p, is_Some (rmatch r (mkPos p b None) Some)) -> is_Some (search r prev (a ++ b) i).
Proof.
  induction a as [|c a IH]; intros prev b i H; cbn [app].
  - destruct (H prev) as [e He]. destruct b; cbn [search]; rewrite He; eauto.
  - cbn [search]. destruct (rmatch r _ Some); eauto.
Qed.

Lemma rmatch_star_units q w b t g k e : forallb q w = true -> match t with c :: _ => q c = false | [] => True end ->
  (forall b', k (mkPos b' t g) = Some e) -> rmatch (RStar (RChar q)) (mkPos b (w ++ t) g) k = Some e.
Proof.
  intros Hw Ht Hk. cbn [rmatch rest].
  pose proof (le_n (length (w ++ t))) as Hn. revert Hn. generalize (length (w ++ t)) at 2 3. intros n. revert n b.
  induction w as [|c w IH]; intros n b Hn.
  - destruct n as [|n]; [apply Hk|]. cbn [app rest]. destruct t as [|c t]; [apply Hk|]. rewrite Ht. apply Hk.
  - cbn [forallb] in Hw. apply andb_true_iff in Hw as [Hc Hw]. destruct n as [|n]; [cbn in Hn; lia|].
    cbn [app rest group before] in *. rewrite Hc. cbn [length] in *.
    assert (length (w ++ t) <? S (length (w ++ t)) = true) as -> by (apply Nat.ltb_lt; lia).
    rewrite (IH Hw n (Some c)) by lia. done.
Qed.

(** What an o.bind() line with a plain chord is read as. *)
Lemma chord_prefix tail k :
  rmatch (RSeqs [RStart; RSpaces; RAlt (RLit (u "o")) (RLit (u "hl")); RLit (u ".bind("); RSpaces; RQuote])
    (mkPos None (uq "o.bind(`" ++ tail) None) (fun p => k p) = k (mkPos (Some 34%N) tail None).
Proof. vm_compute. by destruct (k _). Qed.

Lemma chord_group c t : forallb (fun x => negb (x =? 34)%N && negb (x =? 92)%N) c = true ->
  group_text chordRe (uq "o.bind(`" ++ c ++ 34%N :: t) = Some c.
Proof.
  intros Hc. unfold group_text, exec.
  assert (exists e, rmatch chordRe (mkPos None (uq "o.bind(`" ++ c ++ 34%N :: t) None) Some = Some e /\ group e = Some c) as (e & He & Hg).
  { set (k := fun p => rmatch (RSeqs [RGroup RPlainText; RQuote]) p Some).
    change (rmatch chordRe (mkPos None (uq "o.bind(`" ++ c ++ 34%N :: t) None) Some) with
      (rmatch (RSeqs [RStart; RSpaces; RAlt (RLit (u "o")) (RLit (u "hl")); RLit (u ".bind("); RSpaces; RQuote])
        (mkPos None (uq "o.bind(`" ++ (c ++ 34%N :: t)) None) (fun p => k p)).
    rewrite chord_prefix. unfold k. cbn [RSeqs fold_right]. cbn [rmatch]. eexists. split.
    - apply rmatch_star_units; [exact Hc|done|]. intros b'. cbn [rest]. cbv beta. unfold RQuote. cbn. reflexivity.
    - cbn [group]. rewrite length_app. f_equal. cbn [length]. rewrite Nat.add_sub. apply take_app_length. }
  destruct (uq "o.bind(`" ++ c ++ 34%N :: t) eqn:Et; cbn [search]; rewrite He; done.
Qed.

Lemma test_intro r a b : (forall p, is_Some (rmatch r (mkPos p b None) Some)) -> test r (a ++ b) = true.
Proof. intros H. unfold test, exec. by destruct (search_complete r a None b 0 H) as [e ->]. Qed.

Lemma bind_text_command c t : test (auto_type_re is_space) (bind_text c ++ t) = true /\ test (auto_type_re is_posix_space) (bind_text c ++ t) = true.
Proof.
  assert (bind_text c ++ t = ((uq "o.bind(`" ++ c) ++ uq "`, `" ++ AUTO_TYPE_BIND_DESCRIPTION ++ uq "`, `" ++ u "omarchy-shell ")
    ++ (u "io.github.elevate08.qs-bitwarden-cli autoType" ++ uq "`)" ++ t)) as ->.
  { unfold bind_text. assert (AUTO_TYPE_IPC_COMMAND = u "omarchy-shell " ++ u "io.github.elevate08.qs-bitwarden-cli autoType") as -> by by vm_compute.
    by rewrite <- !app_assoc. }
  split; apply test_intro; intros p; eexists; vm_compute; reflexivity.
Qed.

(** A line of the plugin's, as a script sees it: found, and no comment. *)
Lemma own_line raw c : strip_cr raw = bind_text c ->
  test (auto_type_re is_posix_space) raw = true /\ comment_line raw = false /\ raw <> [] /\ raw <> AUTO_TYPE_BIND_COMMENT.
Proof.
  intros H. assert (exists t, raw = bind_text c ++ t) as [t ->].
  { unfold strip_cr in H. destruct (last raw) as [d|]; [|exists []; by rewrite app_nil_r].
    destruct (d =? 13)%N; [|exists []; by rewrite app_nil_r]. exists (drop (length raw - 1) raw). by rewrite <- H, take_drop. }
  split; [apply bind_text_command|]. unfold bind_text. change (uq "o.bind(`") with (111%N :: drop 1 (uq "o.bind(`")).
  rewrite <- !app_assoc. cbn [app]. split; [by vm_compute|]. split; [done|].
  assert (AUTO_TYPE_BIND_COMMENT = 45%N :: drop 1 AUTO_TYPE_BIND_COMMENT) as -> by by vm_compute. done.
Qed.

Lemma strip_cr_id s c : last s = Some c -> c <> 13%N -> strip_cr s = s.
Proof. intros H Hc. unfold strip_cr. rewrite H. by apply N.eqb_neq in Hc as ->. Qed.

Lemma bind_text_last c : last (bind_text c) = Some 41%N.
Proof.
  unfold bind_text. rewrite !app_assoc. assert (uq "`)" = [34%N] ++ [41%N]) as -> by by vm_compute.
  by rewrite app_assoc, last_snoc.
Qed.

Lemma bind_line_text raw : autoTypeBindLine raw = if c_ok (autoTypeChord raw) then bind_text (chord (autoTypeChord raw)) else [].
Proof. done. Qed.

(** A line that is not the plugin's leaves the count of pairs alone. *)
Lemma lua_step_pairs s previous raw n :
  (forall c, strip_cr raw <> bind_text c) ->
  s_pairs (lua_step s previous raw n) = s_pairs s /\ s_chord (lua_step s previous raw n) = s_chord s.
Proof.
  intros H. unfold lua_step. destruct (is_lua_comment _); [done|].
  destruct (lua_bind_at _ n); cbn [s_pairs s_chord]; (destruct (isAutoTypeCommand (strip_cr raw)) eqn:E; [|done]); cbn [negb s_pairs s_chord].
  all: assert (str_eqb (strip_cr raw) (autoTypeBindLine (JStr (chord (autoTypeChord (JStr (default [] (group_text chordRe (strip_cr raw)))))))) = false) as ->;
    [|by rewrite andb_false_r].
  all: apply str_eqb_neq; rewrite bind_line_text; destruct (c_ok _); [apply H|intros Hn; rewrite Hn in E; by vm_compute in E].
Qed.

Lemma lua_loop_pairs lines : forall s previous n rest,
  Forall (fun raw => forall c, strip_cr raw <> bind_text c) lines ->
  exists s' previous' n', lua_loop s previous (lines ++ rest) n = lua_loop s' previous' rest n' /\ s_pairs s' = s_pairs s /\ s_chord s' = s_chord s.
Proof.
  induction lines as [|l lines IH]; intros s previous n rest H; [by exists s, previous, n|].
  apply Forall_cons in H as [Hl H]. cbn [app lua_loop]. destruct (lua_step_pairs s previous l n Hl) as [E1 E2].
  rewrite <- E1, <- E2. by apply IH.
Qed.

Lemma comment_is_comment : is_lua_comment (strip_cr AUTO_TYPE_BIND_COMMENT) = true /\ strip_cr AUTO_TYPE_BIND_COMMENT = AUTO_TYPE_BIND_COMMENT.
Proof. by vm_compute. Qed.

Lemma chord_plain c : forallb is_chord_unit c = true -> forallb (fun x => negb (x =? 34)%N && negb (x =? 92)%N) c = true.
Proof.
  apply forallb_impl. intros x H. destruct (N.eqb_spec x 34) as [->|]; [by vm_compute in H|].
  by destruct (N.eqb_spec x 92) as [->|]; [vm_compute in H|].
Qed.

Lemma lua_step_empty s previous n : lua_step s previous [] n = s.
Proof. by vm_compute. Qed.

(** The plugin's pair, as the panel reads it. *)
Lemma lua_loop_own s previous c n :
  forallb is_chord_unit c = true -> c_ok (autoTypeChord (JStr c)) = true -> chord (autoTypeChord (JStr c)) = c ->
  let s' := lua_loop s previous [AUTO_TYPE_BIND_COMMENT; bind_text c; []] n in
  s_pairs s' = S (s_pairs s) /\ s_chord s' = c.
Proof.
  intros Hu Hok Hc. cbn [lua_loop]. destruct comment_is_comment as [Hcom Hstrip].
  assert (lua_step s previous AUTO_TYPE_BIND_COMMENT n = s) as -> by (unfold lua_step; by rewrite Hcom).
  assert (strip_cr (bind_text c) = bind_text c) as Hs by by apply (strip_cr_id _ 41%N); [apply bind_text_last|].
  rewrite lua_step_empty.
  assert (is_lua_comment (bind_text c) = false) as Hn by by vm_compute.
  assert (isAutoTypeCommand (bind_text c) = true) as Hi by (rewrite <- (app_nil_r (bind_text c)); apply bind_text_command).
  assert (group_text chordRe (bind_text c) = Some c) as Hg.
  { unfold bind_text. change (uq "`, `" ++ ?t) with (34%N :: (drop 1 (uq "`, `") ++ t)). apply chord_group. by apply chord_plain. }
  assert (str_eqb (bind_text c) (autoTypeBindLine (JStr c)) = true) as He.
  { rewrite bind_line_text, Hok, Hc. apply str_eqb_refl. }
  unfold lua_step. rewrite Hs, Hn, Hi, Hg, Hstrip, str_eqb_refl. cbn [default from_option id negb andb].
  rewrite Hok, Hc, He. destruct (lua_bind_at _ _); done.
Qed.

Lemma separator_cases text : text <> [] -> separator text = newline \/ separator text = newline ++ newline.
Proof.
  intros H. unfold separator. destruct (last text) eqn:E; [|by apply last_None in E]. case_match; auto.
Qed.

Lemma pair_lines note line text :
  forallb (fun x => negb (10 =? x)%N) note = true -> forallb (fun x => negb (10 =? x)%N) line = true ->
  split_char 10 (text ++ separator text ++ note ++ newline ++ line ++ newline) = lines_before text ++ [note; line; []].
Proof.
  intros Hn Hl.
  assert (split_char 10 (note ++ newline ++ line ++ newline) = [note; line; []]) as Hp.
  { unfold newline, split_char. cbn [app]. rewrite (split_on_app (N.eqb 10)) by done. by rewrite (split_on_app (N.eqb 10)). }
  destruct (decide (text = [])) as [->|Hne]; [exact Hp|].
  assert (lines_before text = split_char 10 text ++ (if str_eqb (separator text) newline then [] else [[]])) as -> by by destruct text.
  destruct (separator_cases text Hne) as [-> | ->].
  - rewrite str_eqb_refl, app_nil_r. unfold newline at 1. cbn [app]. by rewrite split_char_line, Hp.
  - assert (str_eqb (newline ++ newline) newline = false) as -> by by vm_compute.
    unfold newline at 1 2. cbn [app]. rewrite split_char_line. change (10%N :: ?t) with ([] ++ 10%N :: t).
    rewrite split_char_line, Hp, <- app_assoc. done.
Qed.

Lemma append_lines line text : forallb (fun x => negb (10 =? x)%N) line = true ->
  split_char 10 (append_pair line text) = lines_before text ++ [AUTO_TYPE_BIND_COMMENT; line; []].
Proof. apply pair_lines. by vm_compute. Qed.

Lemma chord_units_line c : forallb is_chord_unit c = true -> forallb (fun x => negb (10 =? x)%N) (bind_text c) = true.
Proof.
  intros Hc. unfold bind_text. rewrite !forallb_app, !andb_true_iff. repeat split; try (by vm_compute).
  revert Hc. apply forallb_impl. intros x Hx. destruct (N.eqb_spec 10 x) as [<-|]; [by vm_compute in Hx|done].
Qed.

(** Lines of a text in which nothing is bound. *)
Lemma not_bound_line text raw c : already_bound text = false -> raw ∈ split_char 10 text -> strip_cr raw <> bind_text c.
Proof.
  intros Hb Hin H. apply own_line in H as (Ht & Hc & Hne & _). unfold already_bound in Hb. rewrite existsb_false in Hb.
  rewrite (Hb raw) in Ht; [done|]. apply elem_of_bfilter. split; [|by rewrite Hc]. unfold records.
  pose proof (split_on_nonempty (N.eqb 10) text) as Hs. fold (split_char 10 text) in Hs.
  rewrite (app_removelast_last [] Hs), elem_of_app in Hin.
  destruct (str_eqb (List.last (split_char 10 text) []) []) eqn:E.
  - destruct Hin as [Hin|Hin%list_elem_of_singleton]; [done|]. apply str_eqb_eq in E. congruence.
  - by rewrite (app_removelast_last [] Hs), elem_of_app.
Qed.

Lemma lines_before_elem text raw : raw ∈ lines_before text -> raw = [] \/ raw ∈ split_char 10 text.
Proof.
  unfold lines_before. destruct text; [by intros ?%elem_of_nil|]. rewrite elem_of_app. intros [H|H]; [by right|].
  case_match; [by apply elem_of_nil in H|]. left. by apply list_elem_of_singleton in H.
Qed.

Lemma not_bound_before text raw c : already_bound text = false -> raw ∈ lines_before text -> strip_cr raw <> bind_text c.
Proof.
  intros Hb Hin%lines_before_elem. destruct Hin as [->|Hin]; [by vm_compute|]. by eapply not_bound_line.
Qed.

Lemma records_pair note line text :
  forallb (fun x => negb (10 =? x)%N) note = true -> forallb (fun x => negb (10 =? x)%N) line = true ->
  records (text ++ separator text ++ note ++ newline ++ line ++ newline) = lines_before text ++ [note; line].
Proof.
  intros Hn Hl. unfold records. rewrite pair_lines by done.
  assert (lines_before text ++ [note; line; []] = (lines_before text ++ [note; line]) ++ [[]]) as -> by by rewrite <- app_assoc.
  rewrite last_last, removelast_last, str_eqb_refl. done.
Qed.

Lemma pair_positions_own note line l : line <> note -> Forall (fun raw => raw <> line) l ->
  pair_positions note line (l ++ [note; line]) = [length l].
Proof.
  intros Hne Hl. unfold pair_positions. rewrite length_app. cbn [length].
  assert (length l + 2 - 1 = S (length l)) as -> by lia. rewrite seq_S, List.filter_app. cbn [List.filter Nat.add].
  assert (List.filter (pair_at note line (l ++ [note; line])) (seq 0 (length l)) = []) as ->.
  { apply bfilter_none. apply Forall_forall. intros i Hi%elem_of_seq. unfold pair_at.
    rewrite (lookup_app_l l) by lia. destruct (l !! i); [|done]. destruct (decide (S i < length l)) as [Hlt|Hge].
    - rewrite (lookup_app_l l) by lia. destruct (l !! S i) as [y|] eqn:E; [|done].
      rewrite Forall_forall in Hl. apply list_elem_of_lookup_2, Hl in E. apply str_eqb_neq in E as ->. by rewrite andb_false_r.
    - assert (S i = length l + 0) as -> by lia. rewrite lookup_app_r by lia. rewrite Nat.add_0_r, Nat.sub_diag. cbn [lookup list_lookup].
      assert (str_eqb note line = false) as -> by (apply str_eqb_neq; congruence). by rewrite andb_false_r. }
  assert (pair_at note line (l ++ [note; line]) (length l) = true) as ->; [|done].
  unfold pair_at. rewrite lookup_app_r, Nat.sub_diag by lia. rewrite lookup_app_r by lia.
  assert (S (length l) - length l = 1) as -> by lia. cbn [lookup list_lookup]. by rewrite !str_eqb_refl.
Qed.

Lemma last_split_newline s : split_char 10 (s ++ newline) = split_char 10 s ++ [[]].
Proof. unfold newline. by rewrite split_char_line. Qed.

(** Taking the pair out again leaves the text's records. *)
Lemma without_own note line text :
  without_pair (lines_before text ++ [note; line]) (length (lines_before text)) = records text.
Proof.
  unfold without_pair. rewrite drop_ge by (rewrite length_app; simpl; lia). rewrite app_nil_r.
  destruct (decide (text = [])) as [->|Hne]; [done|].
  assert (lines_before text = split_char 10 text ++ (if str_eqb (separator text) newline then [] else [[]])) as El by by destruct text.
  pose proof (split_on_nonempty (N.eqb 10) text) as Hs. fold (split_char 10 text) in Hs.
  assert (forall m x, lines_before text = m ++ [x] ->
    (let blank := match length (lines_before text) with S b => str_eqb (default [] ((lines_before text ++ [note; line]) !! b)) [] | O => false end in
     take (if blank then length (lines_before text) - 1 else length (lines_before text)) (lines_before text ++ [note; line]))
    = if str_eqb x [] then m else m ++ [x]) as Hcut.
  { intros m x ->. rewrite length_app, Nat.add_1_r. cbn zeta. rewrite <- app_assoc, lookup_app_r, Nat.sub_diag by lia. cbn [lookup list_lookup app default from_option id].
    destruct (str_eqb x []); [by rewrite Nat.sub_succ, Nat.sub_0_r, take_app_length|].
    rewrite take_app_ge by lia. assert (S (length m) - length m = 1) as -> by lia. done. }
  cbn zeta in Hcut. unfold records.
  destruct (exists_last Hne) as (s & d & ->). destruct (N.eqb_spec 10 d) as [<-|Hd].
  - assert (separator (s ++ [10%N]) = newline) as Esep by (unfold separator; by rewrite last_snoc).
    rewrite Esep, str_eqb_refl, app_nil_r in El. change [10%N] with newline in *. rewrite last_split_newline in *.
    rewrite (Hcut _ _ El). by rewrite last_last, removelast_last, str_eqb_refl.
  - pose proof (last_split_char 10 s d ltac:(by apply N.eqb_neq)) as Hl. apply str_eqb_neq in Hl. rewrite Hl.
    destruct (separator_cases (s ++ [d]) Hne) as [Esep|Esep]; rewrite Esep in El.
    + rewrite str_eqb_refl, app_nil_r in El. rewrite (app_removelast_last [] Hs) in El.
      rewrite (Hcut _ _ El), Hl. by rewrite <- (app_removelast_last [] Hs).
    + assert (str_eqb (newline ++ newline) newline = false) as Hq by by vm_compute. rewrite Hq in El.
      rewrite (Hcut _ _ El), str_eqb_refl. done.
Qed.

(** The lines before the pair, without the empty one just before it. *)
Definition drop_blank (l : list jstr) : list jstr :=
  match last l with Some [] => List.removelast l | _ => l end.

Section Pairs.
Context (note line : jstr).

Lemma pair_at_split a i : pair_at note line a i = true <-> exists l r, a = l ++ note :: line :: r /\ i = length l.
Proof.
  unfold pair_at. split.
  - destruct (a !! i) as [x|] eqn:Ex; [|done]. destruct (a !! S i) as [y|] eqn:Ey; [|done].
    intros [->%str_eqb_eq ->%str_eqb_eq]%andb_true_iff. exists (take i a), (drop (S (S i)) a).
    split; [by rewrite <- (drop_S a line (S i) Ey), <- (drop_S a note i Ex), take_drop|].
    rewrite length_take. apply lookup_lt_Some in Ex. lia.
  - intros (l & r & -> & ->). rewrite lookup_app_r, Nat.sub_diag by lia. rewrite lookup_app_r by lia.
    replace (S (length l) - length l) with 1 by lia. cbn [lookup list_lookup]. by rewrite !str_eqb_refl.
Qed.

Lemma pair_positions_elem a i : i ∈ pair_positions note line a <-> exists l r, a = l ++ note :: line :: r /\ i = length l.
Proof.
  unfold pair_positions. rewrite elem_of_bfilter, pair_at_split, elem_of_seq. split; [by intros [_ H]|].
  intros (l & r & -> & ->). split; [rewrite length_app; cbn [length]; lia|eauto].
Qed.

Lemma pair_positions_NoDup a : NoDup (pair_positions note line a).
Proof. unfold pair_positions. rewrite NoDup_ListNoDup. apply List.NoDup_filter. rewrite <- NoDup_ListNoDup. apply NoDup_seq. Qed.

Lemma without_at l r : without_pair (l ++ note :: line :: r) (length l) = drop_blank l ++ r.
Proof.
  unfold without_pair, drop_blank. replace (drop (length l + 2) (l ++ note :: line :: r)) with r.
  2: { rewrite drop_app_ge by lia. by replace (length l + 2 - length l) with 2 by lia. }
  destruct l as [|x l _] using rev_ind; [done|]. rewrite last_snoc, removelast_last, length_app, Nat.add_1_r, <- app_assoc. cbn [app].
  rewrite lookup_app_r, Nat.sub_diag by lia. cbn [lookup list_lookup default from_option id]. destruct x as [|c x].
  - rewrite str_eqb_refl, Nat.sub_succ, Nat.sub_0_r, take_app_length. done.
  - replace (str_eqb (c :: x) []) with false by done. rewrite take_app_ge by lia.
    replace (S (length l) - length l) with 1 by lia. cbn [take]. done.
Qed.

(** The three cases of the awk program, by where the pair stands in the file. *)
Lemma awk_remove_none text : (forall l r, records text <> l ++ note :: line :: r) -> awk_remove note line text = None.
Proof.
  intros H. unfold awk_remove. destruct (pair_positions note line (records text)) as [|i p] eqn:E; [done|].
  assert (i ∈ pair_positions note line (records text)) as (l & r & El & _)%pair_positions_elem by (rewrite E; by left). by apply H in El.
Qed.

Lemma awk_remove_one text l r : records text = l ++ note :: line :: r ->
  (forall l' r', records text = l' ++ note :: line :: r' -> l' = l) -> awk_remove note line text = Some (unrecords (drop_blank l ++ r)).
Proof.
  intros E H. unfold awk_remove. assert (pair_positions note line (records text) = [length l]) as ->; [|by rewrite E, without_at].
  assert (forall i, i ∈ pair_positions note line (records text) <-> i = length l) as Hi.
  { intros i. rewrite pair_positions_elem. split; [by intros (l' & r' & ->%H & ->)|]. intros ->. eauto. }
  pose proof (pair_positions_NoDup (records text)) as N. destruct (pair_positions _ _ _) as [|i [|j p]].
  - destruct (not_elem_of_nil (length l)). by apply Hi.
  - f_equal. apply Hi. by left.
  - apply NoDup_cons in N as [N _]. destruct N. rewrite (proj1 (Hi i) ltac:(by left)), (proj1 (Hi j) ltac:(right; by left)). by left.
Qed.

Lemma awk_remove_two text l r l' r' : records text = l ++ note :: line :: r -> records text = l' ++ note :: line :: r' -> l <> l' ->
  awk_remove note line text = None.
Proof.
  intros E E' Hne. unfold awk_remove.
  assert (length l ∈ pair_positions note line (records text)) as H by (apply pair_positions_elem; eauto).
  assert (length l' ∈ pair_positions note line (records text)) as H' by (apply pair_positions_elem; eauto).
  destruct (pair_positions _ _ _) as [|i [|j p]]; [done| |done].
  apply list_elem_of_singleton in H, H'. destruct Hne. rewrite E in E'. assert (length l = length l') as L by congruence. by apply app_inj_1 in E' as [? _].
Qed.
End Pairs.

(** ** Properties *)

(** A chord that is accepted is in normal form: modifiers from SUPER,
    SHIFT, CTRL and ALT, none twice and one of SUPER, CTRL and ALT among them,
    then one key that is no modifier, joined by [ + ] and made of letters,
    digits and underscores only, with the mask holding exactly the modifiers'
    bits. Unless it is too long, reading it again gives the same chord. *)
Theorem autoTypeChord_normal raw (Hok : c_ok (autoTypeChord raw) = true) :
  let r := autoTypeChord raw in
  exists mods,
    chord r = join (u " + ") (mods ++ [key r]) /\ mods_ok mods (modmask r)
    /\ (u "SUPER" ∈ mods \/ u "CTRL" ∈ mods \/ u "ALT" ∈ mods)
    /\ name_ok (key r) = true /\ modifier_bit (to_upper (key r)) = None
    /\ forallb is_chord_unit (chord r) = true
    /\ (length (chord r) <= CHORD_MAX_LENGTH -> autoTypeChord (JStr (chord r)) = r).
Proof.
  cbn zeta. destruct (chord_made_of raw Hok) as (mods & pressed & H). pose proof (chord_again _ _ _ H) as Hagain.
  destruct H as [Hm _ Hs Hk Hn Hh Hr]. exists mods. destruct (normal_key_spec _ Hk) as (Hk1 & _ & Hk3).
  assert (key (autoTypeChord raw) = normal_key pressed) as -> by by rewrite Hr.
  assert (chord (autoTypeChord raw) = join (u " + ") (mods ++ [normal_key pressed])) as Hc by by rewrite Hr. rewrite Hc in *.
  split; [done|]. split; [done|]. split; [|split; [done|split; [|split; [|done]]]].
  - destruct Hm as (_ & _ & Hm). apply Z.eqb_neq in Hh.
    destruct (decide (u "SUPER" ∈ mods)); [auto|]. destruct (decide (u "CTRL" ∈ mods)); [auto|].
    destruct (decide (u "ALT" ∈ mods)); [auto|]. exfalso. apply Hh.
    change (64 + 4 + 8)%Z with (Z.lor 64 (Z.lor 4 8)). rewrite !Z.land_lor_distr_r, !Z.lor_eq_0_iff.
    assert (forall name bit, modifier_bit name = Some bit -> name ∉ mods -> Z.land (modmask (autoTypeChord raw)) bit = 0%Z) as G.
    { intros name bit Hb Hni. destruct (decide (Z.land (modmask (autoTypeChord raw)) bit = 0%Z)) as [|Hz]; [done|]. by apply (Hm _ _ Hb) in Hz. }
    split; [|split]; [apply (G (u "SUPER"))|apply (G (u "CTRL"))|apply (G (u "ALT"))]; try assumption; vm_compute; reflexivity.
  - rewrite Hk3. apply orb_false_iff in Hn as [Hn _]. apply bool_decide_eq_false in Hn. destruct (modifier_bit _); [|done]. by destruct Hn.
  - apply names_units; [by destruct mods|]. apply Forall_app. split; [by eapply mods_names|by repeat constructor].
Qed.

Lemma autoTypeChord_normal_witness :
  c_ok (autoTypeChord (JStr (u "super+ control +slash"))) = true /\ autoTypeChord (JStr (u "SUPER + CTRL + SLASH")) = autoTypeChord (JStr (u "super+ control +slash")).
Proof.
  assert (c_ok (autoTypeChord (JStr (u "super+ control +slash"))) = true) as H by (vm_compute; reflexivity). split; [exact H|].
  destruct (autoTypeChord_normal (JStr (u "super+ control +slash")) H) as (mods & _ & _ & _ & _ & _ & _ & E).
  assert (chord (autoTypeChord (JStr (u "super+ control +slash"))) = u "SUPER + CTRL + SLASH") as Hc by (vm_compute; reflexivity).
  cbv zeta in E. rewrite Hc in E. apply E. apply Nat.leb_le. vm_compute. reflexivity.
Defined.

(** C38. Registering and removing the keybinding are inverse: for a chord of at most
    64 characters and a bindings.lua that runs auto-type nowhere, the register
    script appends exactly its pair of lines, the panel then reads the file as
    holding one removable pair for the chord, registering again is refused, and
    the remove script puts back the file as it was, up to a newline after its
    last line. In any file at all, the remove script looks for the plugin's
    comment with the plugin's line right after it: where that pair is once it
    takes out the pair and an empty line just before it, and nothing else;
    where it is nowhere (a user's own line that binds auto-type, say) or more
    than once, it leaves the file alone. *)
Theorem keybind_roundtrip raw text loads
    (Hok : c_ok (autoTypeChord raw) = true) (Hlen : length (chord (autoTypeChord raw)) <= CHORD_MAX_LENGTH)
    (Hfree : already_bound text = false) :
  let line := autoTypeBindLine raw in
  let file := append_pair line text in
  let b := parseBindingsLua (JStr file) in
  keybind_register loads true line (Text text) = mkLuaRun (Text file) 0
  /\ keybind_register loads true line (Text file) = mkLuaRun (Text file) KEYBIND_EXIT_BOUND
  /\ (removable b = true /\ autoTypeBindLine (JStr (removableChord b)) = line)
  /\ keybind_remove true true line (Text file) = mkLuaRun (Text (unrecords (records text))) 0
  /\ keybind_remove true true line (Text text) = mkLuaRun (Text text) KEYBIND_EXIT_NOT_OURS
  /\ (forall any, (forall l r, records any <> l ++ AUTO_TYPE_BIND_COMMENT :: line :: r) ->
       keybind_remove true true line (Text any) = mkLuaRun (Text any) KEYBIND_EXIT_NOT_OURS)
  /\ (forall any l r, records any = l ++ AUTO_TYPE_BIND_COMMENT :: line :: r ->
       (forall l' r', records any = l' ++ AUTO_TYPE_BIND_COMMENT :: line :: r' -> l' = l) ->
       keybind_remove true true line (Text any) = mkLuaRun (Text (unrecords (drop_blank l ++ r))) 0)
  /\ (forall any l r l' r', records any = l ++ AUTO_TYPE_BIND_COMMENT :: line :: r ->
       records any = l' ++ AUTO_TYPE_BIND_COMMENT :: line :: r' -> l <> l' ->
       keybind_remove true true line (Text any) = mkLuaRun (Text any) KEYBIND_EXIT_NOT_OURS).
Proof.
  cbn zeta. destruct (chord_made_of raw Hok) as (mods & pressed & H). pose proof (chord_again _ _ _ H Hlen) as Hagain.
  assert (forallb is_chord_unit (chord (autoTypeChord raw)) = true) as Hu.
  { destruct H as [Hm _ _ Hk _ _ Hr]. rewrite Hr. cbn [chord]. apply names_units; [by destruct mods|]. apply Forall_app.
    split; [by eapply mods_names|]. repeat constructor. by apply normal_key_spec. }
  clear H. rewrite bind_line_text, Hok. set (c := chord (autoTypeChord raw)) in *.
  pose proof (chord_units_line c Hu) as Hl. assert (strip_cr (bind_text c) = bind_text c) as Hs by (by apply (strip_cr_id _ 41%N); [apply bind_text_last|]).
  assert (forallb (fun x => negb (10 =? x)%N) AUTO_TYPE_BIND_COMMENT = true) as Hcom by by vm_compute.
  pose proof (own_line _ _ Hs) as (Ht & Hnc & _ & Hne).
  assert (records (append_pair (bind_text c) text) = lines_before text ++ [AUTO_TYPE_BIND_COMMENT; bind_text c]) as Hrec by by apply records_pair.
  split; [cbn [keybind_register]; by rewrite Hfree|]. split; [|split; [|split; [|split; [|split; [|split]]]]].
  - cbn [keybind_register]. assert (already_bound (append_pair (bind_text c) text) = true) as ->; [|done].
    unfold already_bound. apply existsb_exists. exists (bind_text c). split; [|done]. apply filter_In. rewrite Hnc. split; [|done].
    rewrite Hrec. apply in_or_app. right. by right; left.
  - unfold parseBindingsLua, shown. cbn [is_nullish to_str]. rewrite append_lines by done.
    assert (Forall (fun raw => forall c, strip_cr raw <> bind_text c) (lines_before text)) as Hb.
    { apply Forall_forall. intros l Hin c'. by eapply not_bound_before. }
    destruct (lua_loop_pairs _ (mkScan [] None 0 0 []) None 1 [AUTO_TYPE_BIND_COMMENT; bind_text c; []] Hb) as (s' & p' & n' & -> & Hp & _).
    destruct (lua_loop_own s' p' c n' Hu ltac:(by rewrite Hagain) ltac:(by rewrite Hagain)) as [Ep Ec].
    rewrite Ep, Hp, Ec. cbn [s_pairs Nat.eqb removable removableChord]. split; [done|].
    by rewrite bind_line_text, Hagain, Hok.
  - unfold keybind_remove, awk_remove. cbn [negb]. rewrite Hrec, pair_positions_own by (congruence ||
      (apply Forall_forall; intros l Hin El; subst l; by eapply not_bound_before)). by rewrite without_own.
  - unfold keybind_remove, awk_remove. cbn [negb].
    assert (pair_positions AUTO_TYPE_BIND_COMMENT (bind_text c) (records text) = []) as ->; [|done].
    apply bfilter_none, Forall_forall. intros i _. unfold pair_at. destruct (records text !! i); [|done].
    destruct (records text !! S i) as [y|] eqn:Ey; [|done]. apply andb_false_iff. right. apply str_eqb_neq. intros ->.
    apply list_elem_of_lookup_2 in Ey. assert (bind_text c ∈ split_char 10 text) as Hin.
    { unfold records in Ey. pose proof (split_on_nonempty (N.eqb 10) text) as Hsn. fold (split_char 10 text) in Hsn.
      destruct (str_eqb _ _); [|done]. rewrite (app_removelast_last [] Hsn), elem_of_app. by left. }
    by eapply not_bound_line.
  - intros any Ha. unfold keybind_remove. cbn [negb]. by rewrite awk_remove_none.
  - intros any l r Ha Hu'. unfold keybind_remove. cbn [negb]. by rewrite (awk_remove_one _ _ any l r).
  - intros any l r l' r' Ha Hb Hd. unfold keybind_remove. cbn [negb]. by rewrite (awk_remove_two _ _ any l r l' r').
Qed.

Lemma keybind_roundtrip_witness :
  keybind_remove true true (autoTypeBindLine (JStr (u "ctrl+alt+b"))) (Text (append_pair (autoTypeBindLine (JStr (u "ctrl+alt+b"))) (u "x = 1")))
  = mkLuaRun (Text (u "x = 1" ++ newline)) 0.
Proof.
  pose proof (keybind_roundtrip (JStr (u "ctrl+alt+b")) (u "x = 1") true
    ltac:(vm_compute; reflexivity) ltac:(apply Nat.leb_le; vm_compute; reflexivity) ltac:(vm_compute; reflexivity)) as (_ & _ & _ & H & _).
  cbv zeta in H. rewrite H. vm_compute. reflexivity.
Defined.

(** A chord of at most 64 units whose normal form is longer passes the field's
    check, but there is no line for it: registering it runs nothing. *)
Theorem long_chord_registers_nothing :
  let raw := JStr (u "CTRL+" ++ replicate 59 65%N) in
  let check := autoTypeChordCheck raw None in
  ok check = true /\ chk_line check = [] /\ autoTypeKeybindRegisterCommand (JStr (chk_chord check)) = [].
Proof. by vm_compute. Qed.
