(* ===== verification/Handlers.v ===== *)
(** * Event handlers

    The QML objects of [src/Service.qml] run one handler at a time: it reads and
    writes the object's properties and calls out, in order. A handler is a
    function of the state that yields the new state and what it caused. *)

From stdpp Require Import base list.
From S2P Require Import Prelude.

Section Handlers.
Context {S E : Type}.

Definition handler : Type := S -> S * list E.

Definition skip : handler := fun s => (s, []).
Definition then_do (f g : handler) : handler :=
  fun s => let '(s1, e1) := f s in let '(s2, e2) := g s1 in (s2, e1 ++ e2).
Definition update (f : S -> S) : handler := fun s => (f s, []).
Definition cause (e : E) : handler := fun s => (s, [e]).
Definition reading (f : S -> handler) : handler := fun s => f s s.
Definition unless (b : bool) (f : handler) : handler := if b then skip else f.
Definition for_each {A} (f : A -> handler) (l : list A) : handler := fold_right (fun x rest => then_do (f x) rest) skip l.

(** One handler after the other, as their events come. *)
Fixpoint run_handlers (fs : list handler) : handler :=
  match fs with [] => skip | f :: rest => then_do f (run_handlers rest) end.

Lemma run_handlers_app fs gs s : run_handlers (fs ++ gs) s = then_do (run_handlers fs) (run_handlers gs) s.
Proof.
  revert s. unfold then_do. induction fs as [|f fs IH]; intros s; cbn [app run_handlers]; unfold then_do.
  - unfold skip. by destruct (run_handlers gs s).
  - destruct (f s) as [s1 e1]. rewrite IH. destruct (run_handlers fs s1) as [s2 e2]. destruct (run_handlers gs s2). by rewrite app_assoc.
Qed.

(** An invariant of the state that every handler keeps holds after any of them. *)
Lemma run_handlers_invariant (P : S -> Prop) fs s : Forall (fun f => forall s, P s -> P (f s).1) fs -> P s -> P (run_handlers fs s).1.
Proof.
  intros H. revert s. induction H as [|f fs Hf _ IH]; intros s Hs; [done|]. cbn [run_handlers]. unfold then_do.
  specialize (Hf s Hs). destruct (f s) as [s1 e1]. specialize (IH s1 Hf). by destruct (run_handlers fs s1).
Qed.
(** What a handler leaves as it is. *)
Definition preserves (P : S -> Prop) (f : handler) : Prop := forall s, P s -> P (f s).1.

Lemma preserves_skip P : preserves P skip.
Proof. by intros s. Qed.
Lemma preserves_cause P e : preserves P (cause e).
Proof. by intros s. Qed.
Lemma preserves_update P f : (forall s, P s -> P (f s)) -> preserves P (update f).
Proof. done. Qed.
Lemma preserves_then P f g : preserves P f -> preserves P g -> preserves P (then_do f g).
Proof. intros Hf Hg s Hs. unfold then_do. specialize (Hf s Hs). destruct (f s) as [s1 e1]. specialize (Hg s1 Hf). by destruct (g s1). Qed.
Lemma preserves_reading P f : (forall s, preserves P (f s)) -> preserves P (reading f).
Proof. intros H s. apply H. Qed.
Lemma preserves_if P (b : bool) f g : preserves P f -> preserves P g -> preserves P (if b then f else g).
Proof. by destruct b. Qed.
Lemma preserves_each P {A} (f : A -> handler) l : (forall x, preserves P (f x)) -> preserves P (for_each f l).
Proof. intros H. induction l; [apply preserves_skip|by apply preserves_then]. Qed.
End Handlers.
Arguments handler : clear implicits.

Declare Scope handler_scope.
Notation "f ;> g" := (then_do f g) (at level 62, right associativity) : handler_scope.

Create HintDb preserves.
#[export] Hint Resolve preserves_skip preserves_cause preserves_then preserves_reading preserves_if preserves_each : preserves.
#[export] Hint Extern 1 (preserves _ (update _)) => (apply preserves_update; done) : preserves.
