(* ===== verification/SshRequests.v ===== *)
(** * Signing requests in the panel

    How the panel answers the SSH agent companion ([src/Service.qml], "Signing
    authorization"): which request is on the screen, which wait behind it, what
    a click, a timeout or a message of the companion does, and which lines are
    written back. The functions of [SshApproval] compute what these handlers
    show and write; here they are put together.

    A handler is a function of the moment it runs in (the clock, the settings,
    the screen lock, the vault, the companion's channel) and of the panel's
    state, and yields the new state and what it did, in order. Of the panel's own
    window only what the handlers read is kept: whether it is open, and its
    screen. *)

From stdpp Require Import base list numbers strings sets.
From Stdlib Require Import QArith Qround Sorting.Sorted.
Local Close Scope Q_scope.
From S2P Require Import Prelude.
From S2P Require Import JsValue.
From S2P Require Import Json.
From S2P Require Import SshAgent.
From S2P Require Import SshApproval.
From S2P Require Import Commands.
From S2P Require Import Handlers.
Local Open Scope Z_scope.
Local Open Scope js_scope.
Local Open Scope handler_scope.

(** ** State *)

(** A view on the screen; its [requestId] is the one member that is written to. *)
Record shown_prompt := mkShown { shown_requestId : jsval; shown_view : prompt_view }.

(** The requests on the screen and behind it. A message that is not there is null. *)
Record waiting := mkWaiting {
  sshPrompt : option shown_prompt;
  sshPromptQueue : list jsval;
  sshUnlockRequest : option prompt_view;
  sshUnlockRaw : jsval;
  sshUnlockQueue : list jsval;
  sshPromotedOldId : jsval;
  sshPromotedRaw : jsval
}.

Record prompt_clock := mkClock { sshPromptStartedMs : Z; sshPromptRemainingSec : num }.

Record signing_pause := mkPause { sshCooldown : cooldown; sshCooldownTick : Z; sshCooldownAnnounced : bool }.

Record announced_grants := mkGrants { sshGrantsAnnounced : list jsval; sshGrantTick : Z }.

Record panel_window := mkWindow {
  opened : bool;
  currentScreen : jstr;
  screenBeforeSshApproval : jstr;
  sshPromptOpenedPanel : bool
}.

Record requests := mkRequests {
  r_waiting : waiting;
  r_clock : prompt_clock;
  r_pause : signing_pause;
  r_grants : announced_grants;
  r_window : panel_window
}.

Definition nothing_waiting : waiting := mkWaiting None [] None JNull [] JNull JNull.

Definition initial_requests : requests :=
  mkRequests nothing_waiting (mkClock 0 (numz 0)) (mkPause sshAgentCooldownInitial 0 false) (mkGrants [] 0)
    (mkWindow false (u "main") (u "main") false).

(** What the handlers read of the rest of the panel. *)
Record moment := mkMoment {
  now : Z;
  sshAgentApprovalPopup : bool;
  sshAgentApprovalWindowSec : jsval;
  screenIsLocked : bool;
  screenLockCheckedAt : Z;
  channel_open : bool;
  vault_unlocked : bool
}.

Inductive effect :=
| Write (text : jstr)
| OpenPanel
| ClosePanel
| Flash (text : jstr)
| ClearUnlockForm.

(** ** Handlers *)

Notation act := (handler requests effect).

Definition set_waiting (f : waiting -> waiting) (s : requests) : requests :=
  mkRequests (f (r_waiting s)) (r_clock s) (r_pause s) (r_grants s) (r_window s).
Definition set_clock (c : prompt_clock) (s : requests) : requests :=
  mkRequests (r_waiting s) c (r_pause s) (r_grants s) (r_window s).
Definition set_pause (p : signing_pause) (s : requests) : requests :=
  mkRequests (r_waiting s) (r_clock s) p (r_grants s) (r_window s).
Definition set_grants (g : announced_grants) (s : requests) : requests :=
  mkRequests (r_waiting s) (r_clock s) (r_pause s) g (r_window s).
Definition set_window (f : panel_window -> panel_window) (s : requests) : requests :=
  mkRequests (r_waiting s) (r_clock s) (r_pause s) (r_grants s) (f (r_window s)).

Definition set_prompt (p : option shown_prompt) (w : waiting) : waiting :=
  mkWaiting p (sshPromptQueue w) (sshUnlockRequest w) (sshUnlockRaw w) (sshUnlockQueue w) (sshPromotedOldId w) (sshPromotedRaw w).
Definition set_promptQueue (q : list jsval) (w : waiting) : waiting :=
  mkWaiting (sshPrompt w) q (sshUnlockRequest w) (sshUnlockRaw w) (sshUnlockQueue w) (sshPromotedOldId w) (sshPromotedRaw w).
Definition set_unlock (v : option prompt_view) (raw : jsval) (w : waiting) : waiting :=
  mkWaiting (sshPrompt w) (sshPromptQueue w) v raw (sshUnlockQueue w) (sshPromotedOldId w) (sshPromotedRaw w).
Definition set_unlockQueue (q : list jsval) (w : waiting) : waiting :=
  mkWaiting (sshPrompt w) (sshPromptQueue w) (sshUnlockRequest w) (sshUnlockRaw w) q (sshPromotedOldId w) (sshPromotedRaw w).
Definition set_promoted (id raw : jsval) (w : waiting) : waiting :=
  mkWaiting (sshPrompt w) (sshPromptQueue w) (sshUnlockRequest w) (sshUnlockRaw w) (sshUnlockQueue w) id raw.

Definition set_opened (b : bool) (w : panel_window) : panel_window :=
  mkWindow b (currentScreen w) (screenBeforeSshApproval w) (sshPromptOpenedPanel w).
Definition set_screen (name : jstr) (w : panel_window) : panel_window :=
  mkWindow (opened w) name (screenBeforeSshApproval w) (sshPromptOpenedPanel w).
Definition set_before (name : jstr) (w : panel_window) : panel_window :=
  mkWindow (opened w) (currentScreen w) name (sshPromptOpenedPanel w).
Definition set_openedPanel (b : bool) (w : panel_window) : panel_window :=
  mkWindow (opened w) (currentScreen w) (screenBeforeSshApproval w) b.

Definition present {A} (o : option A) : bool := match o with Some _ => true | None => false end.
Definition approval_screen : jstr := u "sshApproval".
Definition prompting (s : requests) : bool := present (sshPrompt (r_waiting s)).
Definition unlocking (s : requests) : bool := present (sshUnlockRequest (r_waiting s)).

Section Handlers.
Context (at_ : moment).

Definition sshAgentWrite (line : jstr) : act :=
  if str_eqb line [] || negb (channel_open at_) then skip else cause (Write line).

(** Opening runs onPanelOpened, which chooses the screen. *)
Definition open_panel : act :=
  update (fun s => set_window (fun w => set_screen
    (if prompting s then approval_screen else if vault_unlocked at_ then u "main" else currentScreen w)
    (set_opened true w)) s) ;> cause OpenPanel.
Definition close_panel : act := update (set_window (set_opened false)) ;> cause ClosePanel.

Definition noteSshCooldown : act := reading (fun s =>
  let p := r_pause s in
  let '(active, _, _) := sshAgentCooldownStatus (sshCooldown p) (jz (now at_)) in
  if (active : bool) then
    if sshCooldownAnnounced p then update (set_pause (mkPause (sshCooldown p) (now at_) true))
    else update (set_pause (mkPause (sshCooldown p) (now at_) true))
           ;> cause (Flash (u "SSH signing paused: too many unanswered prompts"))
  else update (set_pause (mkPause (sshCooldown p) (now at_) false))).

Definition cooldown_after (outcome : jstr) : act :=
  update (fun s => let p := r_pause s in
    set_pause (mkPause (sshAgentCooldownAfter (sshCooldown p) outcome (jz (now at_))) (sshCooldownTick p) (sshCooldownAnnounced p)) s)
  ;> noteSshCooldown.

Definition resumeSshSigning : act := cooldown_after (u "resumed").

Definition screenLockReadingFresh : bool :=
  (0 <? screenLockCheckedAt at_) && (now at_ - screenLockCheckedAt at_ <? screenLockPollMs * 4).

Definition sshAgentMayPrompt (s : requests) : bool :=
  sshAgentShouldPrompt (if screenLockReadingFresh then obj [("screenLocked", JBool (screenIsLocked at_))]%string else JNull)
  && negb (sshAgentCooldownActive (sshCooldown (r_pause s)) (jz (now at_))).

(** Then whether the popup shows the request. *)
Definition startSshPromptClock : act :=
  update (set_clock (mkClock (now at_) (numz (- (- SSH_AGENT_REQUEST_DEADLINE_MS / 1000)))))
  ;> (if sshAgentApprovalPopup at_ then update (set_window (set_openedPanel false)) else skip).

Definition view_of (message : jsval) (windowSec : jsval) : shown_prompt :=
  let v := sshAgentPromptView message windowSec in mkShown (JNum (requestId v)) v.

Definition showSshApproval (message : jsval) : act :=
  update (set_waiting (set_prompt (Some (view_of message (sshAgentApprovalWindowSec at_)))))
  ;> startSshPromptClock
  ;> (if sshAgentApprovalPopup at_ then skip
      else
        reading (fun s => unless (str_eqb (currentScreen (r_window s)) approval_screen)
          (update (set_window (set_before (currentScreen (r_window s))))))
        ;> reading (fun s => unless (truthy (sshUnlockRaw (r_waiting s)))
             (update (set_window (set_openedPanel (negb (opened (r_window s)))))))
        ;> reading (fun s => unless (opened (r_window s)) open_panel)
        ;> update (set_window (set_screen approval_screen))).

Definition onSshAgentApprovalPopupChanged : act := reading (fun s =>
  if negb (prompting s || unlocking s) then skip
  else if sshAgentApprovalPopup at_ then
    update (set_window (set_openedPanel false))
    ;> (if sshPromptOpenedPanel (r_window s) && opened (r_window s) then close_panel else skip)
  else
    update (set_window (set_openedPanel (negb (opened (r_window s)))))
    ;> unless (opened (r_window s)) open_panel
    ;> (if prompting s then update (set_window (set_screen approval_screen)) else skip)).

Definition dismissSshApproval : act := reading (fun s =>
  let w := r_window s in
  update (set_waiting (fun _ => nothing_waiting))
  ;> update (set_window (set_openedPanel false))
  ;> (if str_eqb (currentScreen w) approval_screen
      then update (set_window (set_screen
             (if str_eqb (screenBeforeSshApproval w) approval_screen then u "main" else screenBeforeSshApproval w)))
      else skip)
  ;> (if sshAgentApprovalPopup at_ && (prompting s || unlocking s) then cause ClearUnlockForm else skip)
  ;> (if sshPromptOpenedPanel w && opened w then close_panel else skip)).

Definition advanceSshPrompt : act := reading (fun s =>
  let '(next, remaining) := sshAgentDequeuePrompt (JArr (sshPromptQueue (r_waiting s))) in
  update (set_waiting (set_promptQueue remaining))
  ;> (if truthy next then showSshApproval next else dismissSshApproval)).

Definition advanceSshUnlock : act := reading (fun s =>
  let '(next, remaining) := sshAgentDequeuePrompt (JArr (sshUnlockQueue (r_waiting s))) in
  update (set_waiting (set_unlockQueue remaining))
  ;> (if truthy next then
        update (set_waiting (set_unlock (Some (sshAgentPromptView next (jz 0))) next))
        ;> update (set_clock (mkClock (now at_) (numz (- (- SSH_AGENT_REQUEST_DEADLINE_MS / 1000)))))
      else dismissSshApproval)).

Definition approveSshRequest (grantSeconds : jsval) : act := reading (fun s =>
  match sshPrompt (r_waiting s) with
  | None => skip
  | Some p =>
    sshAgentWrite (sshAgentApproveLine (shown_requestId p) grantSeconds)
    ;> cooldown_after (u "approved") ;> advanceSshPrompt
  end).

Definition denySshRequest : act := reading (fun s =>
  match sshUnlockRequest (r_waiting s), sshPrompt (r_waiting s) with
  | Some v, _ =>
    sshAgentWrite (sshAgentUnlockCancelledLine (JNum (requestId v))) ;> cooldown_after (u "denied") ;> advanceSshUnlock
  | None, Some p =>
    sshAgentWrite (sshAgentDenyLine (shown_requestId p)) ;> cooldown_after (u "denied") ;> advanceSshPrompt
  | None, None => dismissSshApproval
  end).

(** [if (item && item.requestId) sshAgentWrite(line(item.requestId))] *)
Definition refuse_waiting (line : jsval -> jstr) (item : jsval) : act :=
  if truthy item && truthy item.["requestId"] then sshAgentWrite (line item.["requestId"]) else skip.

Definition denyAllSshRequests : act := reading (fun s =>
  let w := r_waiting s in
  match sshPrompt w with Some p => sshAgentWrite (sshAgentDenyLine (shown_requestId p)) | None => skip end
  ;> for_each (refuse_waiting sshAgentDenyLine) (sshPromptQueue w)
  ;> match sshUnlockRequest w with Some v => sshAgentWrite (sshAgentUnlockCancelledLine (JNum (requestId v))) | None => skip end
  ;> for_each (refuse_waiting sshAgentUnlockCancelledLine) (sshUnlockQueue w)
  ;> cooldown_after (u "denied")
  ;> dismissSshApproval).

Definition expireSshRequest : act := reading (fun s =>
  if negb (prompting s || unlocking s) then skip else cooldown_after (u "timeout") ;> dismissSshApproval).

(** The countdown's timer, which runs while a request is on the screen. *)
Definition sshPromptCountdown : act := reading (fun s =>
  if negb (prompting s || unlocking s) then skip
  else
    let started := sshPromptStartedMs (r_clock s) in
    let remaining := - (- (SSH_AGENT_REQUEST_DEADLINE_MS - (now at_ - started)) / 1000) in
    update (set_clock (mkClock started (numz (Z.max 0 remaining))))
    ;> (if remaining <=? 0 then expireSshRequest else skip)).

Definition revokeSshGrant (grantId : jsval) : act := sshAgentWrite (sshAgentRevokeGrantLine grantId).
Definition revokeAllSshGrants : act := sshAgentWrite sshAgentRevokeGrantsLine.

(** The shown prompt takes the id of the request it was promoted from, released. *)
Definition adoptSshPrompt (message : jsval) (w : waiting) : option waiting :=
  match sshPrompt w with
  | Some p =>
    if negb (strict_eq (sshPromotedOldId w) JNull) && sshAgentSameRequest (sshPromotedRaw w) message
    then Some (set_promoted JNull JNull (set_prompt (Some (mkShown message.["requestId"] (shown_view p))) w))
    else None
  | None => None
  end.

Definition message_is (message : jsval) (type : string) : bool := strict_eq message.["type"] (JStr (u type)).
Definition SSH_QUEUE_CAP : jsval := jz 4.

Definition on_approval_required (message : jsval) : act := reading (fun s =>
  let w := r_waiting s in
  if negb (sshAgentMayPrompt s) then sshAgentWrite (sshAgentDenyLine message.["requestId"])
  else match adoptSshPrompt message w with
  | Some w' => update (set_waiting (fun _ => w'))
  | None =>
    if prompting s
    then update (set_waiting (set_promptQueue (sshAgentEnqueuePrompt (JArr (sshPromptQueue w)) message SSH_QUEUE_CAP)))
    else showSshApproval message
  end).

Definition on_unlock_required (message : jsval) : act := reading (fun s =>
  let w := r_waiting s in
  if negb (sshAgentMayPrompt s) then sshAgentWrite (sshAgentUnlockCancelledLine message.["requestId"])
  else if unlocking s
  then update (set_waiting (set_unlockQueue (sshAgentEnqueuePrompt (JArr (sshUnlockQueue w)) message SSH_QUEUE_CAP)))
  else
    update (set_waiting (set_unlock (Some (sshAgentPromptView message (jz 0))) message))
    ;> startSshPromptClock
    ;> (if sshAgentApprovalPopup at_ then skip
        else update (set_window (set_openedPanel (negb (opened (r_window s)))))
             ;> unless (opened (r_window s)) open_panel)).

(** The id of the request on the screen: the prompt's, or the unlock's. *)
Definition live_id (w : waiting) : option jsval :=
  match sshPrompt w, sshUnlockRequest w with
  | Some p, _ => Some (shown_requestId p)
  | None, Some v => Some (JNum (requestId v))
  | None, None => None
  end.

(** A released identity listing is answered already. *)
Definition listing_answered (w : waiting) : bool :=
  present (sshUnlockRequest w) && truthy (sshUnlockRaw w) && strict_eq (sshUnlockRaw w).["reason"] (JStr (u "list-identities")).

Definition on_request_cancelled (message : jsval) : act := reading (fun s =>
  let w := r_waiting s in
  let id := message.["requestId"] in
  let reason := message.["reason"] in
  let next := reading (fun s' =>
    let w' := r_waiting s' in
    if prompting s' && negb (bool_decide (sshPromptQueue w' = [])) then advanceSshPrompt
    else if unlocking s' && negb (bool_decide (sshUnlockQueue w' = [])) then advanceSshUnlock
    else dismissSshApproval) in
  if match live_id w with Some live_ids => strict_eq live_ids id | None => false end then
    if strict_eq reason (JStr (u "granted")) then next
    else if strict_eq reason (JStr (u "released")) then if listing_answered w then next else skip
    else cooldown_after (u "timeout") ;> next
  else
    update (set_waiting (fun w =>
      set_unlockQueue (if bool_decide (sshUnlockQueue w = []) then [] else sshAgentRemovePrompt (JArr (sshUnlockQueue w)) id)
        (set_promptQueue (if bool_decide (sshPromptQueue w = []) then [] else sshAgentRemovePrompt (JArr (sshPromptQueue w)) id) w)))).

(** onSshAgentMessage for the messages about requests and grants. *)
Definition on_request_message (message : jsval) : act :=
  if message_is message "approval_required" then on_approval_required message
  else if message_is message "unlock_required" then on_unlock_required message
  else if message_is message "request_cancelled" then on_request_cancelled message
  else if message_is message "grants_changed" then
    update (set_grants (mkGrants (sshAgentGrantViews message.["grants"] (jz (now at_))) (now at_)))
  else skip.

(** Runs when the vault's status changes. *)
Definition promoteUnlockToApproval : act := reading (fun s =>
  let w := r_waiting s in
  let raw := sshUnlockRaw w in
  if negb (vault_unlocked at_) || negb (truthy raw) || prompting s then skip
  else if strict_eq raw.["reason"] (JStr (u "list-identities")) then skip
  else
    update (set_waiting (fun w => set_unlockQueue [] (set_unlock None JNull (set_promoted raw.["requestId"] raw w))))
    ;> showSshApproval raw).
End Handlers.

(** ** Runs *)

Inductive request_event :=
| Message (message : jsval)
| ApproveClicked (grantSeconds : jsval)
| DenyClicked
| DenyAllClicked
| ResumeClicked
| RevokeClicked (grantId : jsval)
| RevokeAllClicked
| CountdownTick
| CooldownTick
| PopupSettingChanged
| StatusChanged
| PanelOpened
| PanelClosed
| ScreenChosen (name : jstr).

Definition handle (at_ : moment) (e : request_event) : act :=
  match e with
  | Message m => on_request_message at_ m
  | ApproveClicked secs => approveSshRequest at_ secs
  | DenyClicked => denySshRequest at_
  | DenyAllClicked => denyAllSshRequests at_
  | ResumeClicked => resumeSshSigning at_
  | RevokeClicked id => revokeSshGrant at_ id
  | RevokeAllClicked => revokeAllSshGrants at_
  | CountdownTick => sshPromptCountdown at_
  | CooldownTick => noteSshCooldown at_
  | PopupSettingChanged => onSshAgentApprovalPopupChanged at_
  | StatusChanged => promoteUnlockToApproval at_
  | PanelOpened => open_panel at_
  | PanelClosed => close_panel
  | ScreenChosen name => update (set_window (set_screen name))
  end.

Definition run (evs : list (moment * request_event)) : act := run_handlers (map (fun e => handle e.1 e.2) evs).

(** ** What a handler does to the requests *)

(** The lines about requests, before the channel and the check of the id. *)
Inductive panel_line :=
| Approve (id grantSeconds : jsval)
| Deny (id : jsval)
| CancelUnlock (id : jsval)
| RevokeGrant (id : jsval)
| RevokeGrants.

Definition line_text (l : panel_line) : jstr :=
  match l with
  | Approve id secs => sshAgentApproveLine id secs
  | Deny id => sshAgentDenyLine id
  | CancelUnlock id => sshAgentUnlockCancelledLine id
  | RevokeGrant id => sshAgentRevokeGrantLine id
  | RevokeGrants => sshAgentRevokeGrantsLine
  end.

(** The request a line answers. *)
Definition line_id (l : panel_line) : option jsval :=
  match l with
  | Approve id _ | Deny id | CancelUnlock id => if isRequestId id then Some id else None
  | _ => None
  end.

Definition lines_written (effs : list effect) : list jstr := omap (fun e => match e with Write t => Some t | _ => None end) effs.

Definition sent (at_ : moment) (ls : list panel_line) : list jstr :=
  if channel_open at_ then List.filter (fun t => negb (str_eqb t [])) (map line_text ls) else [].

(** The request after the one on the screen, or none. *)
Definition next_prompt (at_ : moment) (w : waiting) : waiting :=
  match sshPromptQueue w with
  | m :: q => if truthy m then set_prompt (Some (view_of m (sshAgentApprovalWindowSec at_))) (set_promptQueue q w) else nothing_waiting
  | [] => nothing_waiting
  end.
Definition next_unlock (w : waiting) : waiting :=
  match sshUnlockQueue w with
  | m :: q => if truthy m then set_unlock (Some (sshAgentPromptView m (jz 0))) m (set_unlockQueue q w) else nothing_waiting
  | [] => nothing_waiting
  end.
Definition next_request (at_ : moment) (w : waiting) : waiting :=
  if present (sshPrompt w) && negb (bool_decide (sshPromptQueue w = [])) then next_prompt at_ w
  else if present (sshUnlockRequest w) && negb (bool_decide (sshUnlockQueue w = [])) then next_unlock w
  else nothing_waiting.

Definition forget_id (id : jsval) (w : waiting) : waiting :=
  set_unlockQueue (if bool_decide (sshUnlockQueue w = []) then [] else sshAgentRemovePrompt (JArr (sshUnlockQueue w)) id)
    (set_promptQueue (if bool_decide (sshPromptQueue w = []) then [] else sshAgentRemovePrompt (JArr (sshPromptQueue w)) id) w).

Definition core_message (at_ : moment) (may : bool) (m : jsval) (w : waiting) : waiting * list panel_line :=
  let id := m.["requestId"] in
  if message_is m "approval_required" then
    if negb may then (w, [Deny id])
    else match adoptSshPrompt m w with
    | Some w' => (w', [])
    | None =>
      (if present (sshPrompt w)
       then set_promptQueue (sshAgentEnqueuePrompt (JArr (sshPromptQueue w)) m SSH_QUEUE_CAP) w
       else set_prompt (Some (view_of m (sshAgentApprovalWindowSec at_))) w, [])
    end
  else if message_is m "unlock_required" then
    if negb may then (w, [CancelUnlock id])
    else (if present (sshUnlockRequest w)
          then set_unlockQueue (sshAgentEnqueuePrompt (JArr (sshUnlockQueue w)) m SSH_QUEUE_CAP) w
          else set_unlock (Some (sshAgentPromptView m (jz 0))) m w, [])
  else if message_is m "request_cancelled" then
    (if match live_id w with Some live_ids => strict_eq live_ids id | None => false end then
       if strict_eq m.["reason"] (JStr (u "released")) && negb (listing_answered w) then w else next_request at_ w
     else forget_id id w, [])
  else (w, []).

Definition waiting_lines (line : jsval -> panel_line) (q : list jsval) : list panel_line :=
  map (fun m => line m.["requestId"]) (List.filter (fun m => truthy m && truthy m.["requestId"]) q).

Definition core_step (at_ : moment) (may expired : bool) (e : request_event) (w : waiting) : waiting * list panel_line :=
  match e with
  | Message m => core_message at_ may m w
  | ApproveClicked secs =>
    match sshPrompt w with Some p => (next_prompt at_ w, [Approve (shown_requestId p) secs]) | None => (w, []) end
  | DenyClicked =>
    match sshUnlockRequest w, sshPrompt w with
    | Some v, _ => (next_unlock w, [CancelUnlock (JNum (requestId v))])
    | None, Some p => (next_prompt at_ w, [Deny (shown_requestId p)])
    | None, None => (nothing_waiting, [])
    end
  | DenyAllClicked =>
    (nothing_waiting,
     match sshPrompt w with Some p => [Deny (shown_requestId p)] | None => [] end ++ waiting_lines Deny (sshPromptQueue w)
     ++ match sshUnlockRequest w with Some v => [CancelUnlock (JNum (requestId v))] | None => [] end
     ++ waiting_lines CancelUnlock (sshUnlockQueue w))
  | RevokeClicked id => (w, [RevokeGrant id])
  | RevokeAllClicked => (w, [RevokeGrants])
  | CountdownTick => (if expired && (present (sshPrompt w) || present (sshUnlockRequest w)) then nothing_waiting else w, [])
  | StatusChanged =>
    let raw := sshUnlockRaw w in
    if negb (vault_unlocked at_) || negb (truthy raw) || present (sshPrompt w)
       || strict_eq raw.["reason"] (JStr (u "list-identities")) then (w, [])
    else (set_prompt (Some (view_of raw (sshAgentApprovalWindowSec at_)))
            (set_unlockQueue [] (set_unlock None JNull (set_promoted raw.["requestId"] raw w))), [])
  | _ => (w, [])
  end.

(** Whether a tick finds the deadline of the request on the screen past. *)
Definition deadline_past (at_ : moment) (s : requests) : bool :=
  - (- (SSH_AGENT_REQUEST_DEADLINE_MS - (now at_ - sshPromptStartedMs (r_clock s))) / 1000) <=? 0.

(** *** The handlers do just that *)

Definition does (f : act) (s : requests) (w : waiting) (l : list jstr) : Prop :=
  r_waiting (fst (f s)) = w /\ lines_written (snd (f s)) = l.
Definition silent (f : act) : Prop := forall s, does f s (r_waiting s) [].

Lemma does_then f g s w1 w2 l1 l2 :
  does f s w1 l1 -> (forall s1, r_waiting s1 = w1 -> does g s1 w2 l2) -> does (f ;> g) s w2 (l1 ++ l2).
Proof.
  unfold does, then_do. destruct (f s) as [s1 e1]. intros [E1 E2] H. specialize (H s1 E1).
  destruct (g s1) as [s2 e2]. destruct H. cbn in *. split; [done|]. unfold lines_written in *. rewrite omap_app. by f_equal.
Qed.
Lemma does_reading f s w l : does (f s) s w l -> does (reading f) s w l.
Proof. done. Qed.
Lemma does_quiet_then f g s w l : silent f -> (forall s1, r_waiting s1 = r_waiting s -> does g s1 w l) -> does (f ;> g) s w l.
Proof. intros Hf Hg. eapply (does_then f g s _ w [] l); [apply Hf|done]. Qed.
Lemma does_then_quiet f g s w l : does f s w l -> silent g -> does (f ;> g) s w l.
Proof. intros Hf Hg. rewrite <- (app_nil_r l). eapply does_then; [done|]. intros s1 <-. apply Hg. Qed.
Lemma does_set f s : does (update (set_waiting f)) s (f (r_waiting s)) [].
Proof. done. Qed.

Lemma silent_skip : silent skip.
Proof. done. Qed.
Lemma silent_then f g : silent f -> silent g -> silent (f ;> g).
Proof. intros Hf Hg s. apply does_quiet_then; [done|]. intros s1 <-. apply Hg. Qed.
Lemma silent_if (b : bool) f g : silent f -> silent g -> silent (if b then f else g).
Proof. by destruct b. Qed.
Lemma silent_reading f : (forall s, silent (f s)) -> silent (reading f).
Proof. intros H s. apply H. Qed.
Lemma silent_unless b f : silent f -> silent (unless b f).
Proof. by destruct b. Qed.
Lemma silent_clock c : silent (update (set_clock c)).
Proof. done. Qed.
Lemma silent_pause (f : requests -> signing_pause) : silent (update (fun s => set_pause (f s) s)).
Proof. done. Qed.
Lemma silent_pause_const p : silent (update (set_pause p)).
Proof. done. Qed.
Lemma silent_grants g : silent (update (set_grants g)).
Proof. done. Qed.
Lemma silent_window (f : requests -> panel_window -> panel_window) : silent (update (fun s => set_window (f s) s)).
Proof. done. Qed.
Lemma silent_window_const f : silent (update (set_window f)).
Proof. done. Qed.
Lemma silent_open_panel : silent (cause OpenPanel). Proof. done. Qed.
Lemma silent_close_panel : silent (cause ClosePanel). Proof. done. Qed.
Lemma silent_flash t : silent (cause (Flash t)). Proof. done. Qed.
Lemma silent_clear_form : silent (cause ClearUnlockForm). Proof. done. Qed.

Create HintDb silent.
#[export] Hint Resolve silent_skip silent_then silent_if silent_reading silent_unless silent_clock silent_pause silent_pause_const
  silent_grants silent_window silent_window_const silent_open_panel silent_close_panel silent_flash silent_clear_form : silent.
Ltac silent := intros; auto 12 with silent.

Section Summaries.
Context (at_ : moment).

Lemma silent_open : silent (open_panel at_).
Proof. unfold open_panel. apply silent_then; [|silent]. exact (silent_window (fun s w => set_screen _ (set_opened true w))). Qed.
Lemma silent_close : silent close_panel.
Proof. unfold close_panel. silent. Qed.
Lemma silent_note : silent (noteSshCooldown at_).
Proof. unfold noteSshCooldown. apply silent_reading. intros s. destruct (sshAgentCooldownStatus _ _) as [[[] ?] ?]; silent. Qed.
#[local] Hint Resolve silent_open silent_close silent_note : silent.
Lemma silent_cooldown outcome : silent (cooldown_after at_ outcome).
Proof. unfold cooldown_after. apply silent_then; [|silent]. exact (silent_pause _). Qed.
Lemma silent_start : silent (startSshPromptClock at_).
Proof. unfold startSshPromptClock. silent. Qed.
#[local] Hint Resolve silent_cooldown silent_start : silent.
Lemma silent_popup : silent (onSshAgentApprovalPopupChanged at_).
Proof. unfold onSshAgentApprovalPopupChanged. silent. Qed.
#[local] Hint Resolve silent_popup : silent.

Lemma sent_app l1 l2 : sent at_ (l1 ++ l2) = sent at_ l1 ++ sent at_ l2.
Proof. unfold sent. destruct (channel_open at_); [|done]. by rewrite map_app, List.filter_app. Qed.

Lemma does_write l s : does (sshAgentWrite at_ (line_text l)) s (r_waiting s) (sent at_ [l]).
Proof. unfold sshAgentWrite, sent, does. cbn [map List.filter]. by destruct (str_eqb _ _), (channel_open at_). Qed.

Lemma does_line_then l g s w ls : (forall s1, r_waiting s1 = r_waiting s -> does g s1 w (sent at_ ls)) ->
  does (sshAgentWrite at_ (line_text l) ;> g) s w (sent at_ (l :: ls)).
Proof. intros H. change (l :: ls) with ([l] ++ ls). rewrite sent_app. eapply does_then; [apply does_write|done]. Qed.

Lemma does_refuse line q s : does (for_each (refuse_waiting at_ (fun id => line_text (line id))) q) s (r_waiting s)
  (sent at_ (waiting_lines line q)).
Proof.
  revert s. unfold waiting_lines. induction q as [|m q IH]; intros s; [unfold sent; by destruct (channel_open at_)|].
  cbn [for_each fold_right List.filter]. unfold refuse_waiting at 1. destruct (truthy m && truthy m.["requestId"]).
  - cbn [map]. apply does_line_then. intros s1 <-. apply IH.
  - apply does_quiet_then; [silent|]. intros s1 <-. apply IH.
Qed.

Lemma does_show m s : does (showSshApproval at_ m) s (set_prompt (Some (view_of m (sshAgentApprovalWindowSec at_))) (r_waiting s)) [].
Proof. unfold showSshApproval. eapply (does_then_quiet _ _ _ _ []); [apply does_set|]. silent. Qed.

Lemma does_dismiss s : does (dismissSshApproval at_) s nothing_waiting [].
Proof. unfold dismissSshApproval. apply does_reading. eapply (does_then_quiet _ _ _ _ []); [apply does_set|]. silent. Qed.

Lemma does_advance_prompt s : does (advanceSshPrompt at_) s (next_prompt at_ (r_waiting s)) [].
Proof.
  unfold advanceSshPrompt, next_prompt. apply does_reading. unfold sshAgentDequeuePrompt. cbn [array_items].
  destruct (sshPromptQueue (r_waiting s)) as [|m q]; (eapply (does_then _ _ _ _ _ [] []); [apply does_set|]); intros s1 E; [apply does_dismiss|].
  destruct (truthy m); [|apply does_dismiss]. rewrite <- E. apply does_show.
Qed.

Lemma does_advance_unlock s : does (advanceSshUnlock at_) s (next_unlock (r_waiting s)) [].
Proof.
  unfold advanceSshUnlock, next_unlock. apply does_reading. unfold sshAgentDequeuePrompt. cbn [array_items].
  destruct (sshUnlockQueue (r_waiting s)) as [|m q]; (eapply (does_then _ _ _ _ _ [] []); [apply does_set|]); intros s1 E; [apply does_dismiss|].
  destruct (truthy m); [|apply does_dismiss]. rewrite <- E. eapply (does_then_quiet _ _ _ _ []); [apply does_set|]. silent.
Qed.

Lemma does_next s : does (reading (fun s' =>
    if prompting s' && negb (bool_decide (sshPromptQueue (r_waiting s') = [])) then advanceSshPrompt at_
    else if unlocking s' && negb (bool_decide (sshUnlockQueue (r_waiting s') = [])) then advanceSshUnlock at_
    else dismissSshApproval at_)) s (next_request at_ (r_waiting s)) [].
Proof.
  apply does_reading. unfold next_request, prompting, unlocking.
  destruct (_ && _); [apply does_advance_prompt|]. destruct (_ && _); [apply does_advance_unlock|apply does_dismiss].
Qed.

Lemma does_nothing f s : silent f -> does f s (r_waiting s) (sent at_ []).
Proof. intros H. unfold sent. destruct (channel_open at_); apply H. Qed.
Lemma sent_nil : sent at_ [] = [].
Proof. unfold sent. by destruct (channel_open at_). Qed.

Lemma does_approval_required m s : let c := core_message at_ (sshAgentMayPrompt at_ s) m (r_waiting s) in
  message_is m "approval_required" = true -> does (on_approval_required at_ m) s c.1 (sent at_ c.2).
Proof.
  intros c E. subst c. unfold core_message. rewrite E. unfold on_approval_required. apply does_reading.
  destruct (negb (sshAgentMayPrompt at_ s)); [apply (does_write (Deny _))|].
  destruct (adoptSshPrompt m (r_waiting s)) as [w'|]; cbn [fst snd]; rewrite sent_nil; [apply (does_set (fun _ => w'))|].
  unfold prompting. destruct (present (sshPrompt (r_waiting s))); [apply does_set|apply does_show].
Qed.

Lemma does_unlock_required m s : let c := core_message at_ (sshAgentMayPrompt at_ s) m (r_waiting s) in
  message_is m "approval_required" = false -> message_is m "unlock_required" = true ->
  does (on_unlock_required at_ m) s c.1 (sent at_ c.2).
Proof.
  intros c E1 E. subst c. unfold core_message. rewrite E1, E. unfold on_unlock_required. apply does_reading.
  destruct (negb (sshAgentMayPrompt at_ s)); [apply (does_write (CancelUnlock _))|]. cbn [fst snd]. rewrite sent_nil.
  unfold unlocking. destruct (present (sshUnlockRequest (r_waiting s))); [apply does_set|].
  eapply (does_then_quiet _ _ _ _ []); [apply does_set|]. silent.
Qed.

Lemma does_request_cancelled m s : let c := core_message at_ (sshAgentMayPrompt at_ s) m (r_waiting s) in
  message_is m "approval_required" = false -> message_is m "unlock_required" = false -> message_is m "request_cancelled" = true ->
  does (on_request_cancelled at_ m) s c.1 (sent at_ c.2).
Proof.
  intros c E1 E2 E. subst c. unfold core_message. rewrite E1, E2, E. unfold on_request_cancelled. apply does_reading. cbn [fst snd].
  rewrite sent_nil. destruct (match live_id _ with Some _ => _ | None => _ end); [|apply does_set].
  destruct (strict_eq m.["reason"] (JStr (u "granted"))) eqn:G.
  - assert (strict_eq m.["reason"] (JStr (u "released")) = false) as ->; [|apply does_next].
    destruct (m.["reason"]); try done. apply str_eqb_eq in G as ->. by vm_compute.
  - destruct (strict_eq m.["reason"] (JStr (u "released"))); cbn [andb].
    + destruct (listing_answered (r_waiting s)); cbn [negb]; [apply does_next|done].
    + apply does_quiet_then; [silent|]. intros s1 <-. apply does_next.
Qed.

Lemma does_message m s : let c := core_message at_ (sshAgentMayPrompt at_ s) m (r_waiting s) in
  does (on_request_message at_ m) s c.1 (sent at_ c.2).
Proof.
  cbv zeta. unfold on_request_message. destruct (message_is m "approval_required") eqn:E1; [by apply does_approval_required|].
  destruct (message_is m "unlock_required") eqn:E2; [by apply does_unlock_required|].
  destruct (message_is m "request_cancelled") eqn:E3; [by apply does_request_cancelled|].
  unfold core_message. rewrite E1, E2, E3. apply does_nothing. silent.
Qed.

Lemma does_approve secs s b d : let c := core_step at_ b d (ApproveClicked secs) (r_waiting s) in
  does (approveSshRequest at_ secs) s c.1 (sent at_ c.2).
Proof.
  cbv zeta. unfold approveSshRequest. apply does_reading. cbn [core_step]. destruct (sshPrompt (r_waiting s)) as [p|]; [|by apply does_nothing].
  apply (does_line_then (Approve _ _)). intros s1 <-. rewrite sent_nil. apply does_quiet_then; [silent|]. intros s2 <-. apply does_advance_prompt.
Qed.

Lemma does_deny s b d : let c := core_step at_ b d DenyClicked (r_waiting s) in does (denySshRequest at_) s c.1 (sent at_ c.2).
Proof.
  cbv zeta. unfold denySshRequest. apply does_reading. cbn [core_step].
  destruct (sshUnlockRequest (r_waiting s)) as [v|]; [|destruct (sshPrompt (r_waiting s)) as [p|]].
  - apply (does_line_then (CancelUnlock _)). intros s1 <-. rewrite sent_nil. apply does_quiet_then; [silent|]. intros s2 <-. apply does_advance_unlock.
  - apply (does_line_then (Deny _)). intros s1 <-. rewrite sent_nil. apply does_quiet_then; [silent|]. intros s2 <-. apply does_advance_prompt.
  - cbn [fst snd]. rewrite sent_nil. apply does_dismiss.
Qed.

Lemma does_optional_line {A} (o : option A) (l : A -> panel_line) s :
  does (match o with Some x => sshAgentWrite at_ (line_text (l x)) | None => skip end) s (r_waiting s)
    (sent at_ (match o with Some x => [l x] | None => [] end)).
Proof. destruct o; [apply does_write|by apply does_nothing]. Qed.

Lemma does_deny_all s b d : let c := core_step at_ b d DenyAllClicked (r_waiting s) in
  does (denyAllSshRequests at_) s c.1 (sent at_ c.2).
Proof.
  cbv zeta. unfold denyAllSshRequests. apply does_reading. cbn [core_step fst snd]. rewrite !sent_app.
  eapply does_then; [apply (does_optional_line _ (fun p => Deny (shown_requestId p)))|]. intros s1 _.
  eapply does_then; [apply (does_refuse Deny)|]. intros s2 _.
  eapply does_then; [apply (does_optional_line _ (fun v => CancelUnlock (JNum (requestId v))))|]. intros s3 _.
  rewrite <- (app_nil_r (sent _ _)). eapply does_then; [apply (does_refuse CancelUnlock)|]. intros s4 _.
  apply does_quiet_then; [silent|]. intros s5 _. apply does_dismiss.
Qed.

Lemma does_expire s : does (expireSshRequest at_) s
  (if present (sshPrompt (r_waiting s)) || present (sshUnlockRequest (r_waiting s)) then nothing_waiting else r_waiting s) [].
Proof.
  unfold expireSshRequest. apply does_reading. unfold prompting, unlocking. destruct (_ || _); [|done]. cbn [negb].
  apply does_quiet_then; [silent|]. intros s1 _. apply does_dismiss.
Qed.

Lemma does_countdown s b : let c := core_step at_ b (deadline_past at_ s) CountdownTick (r_waiting s) in
  does (sshPromptCountdown at_) s c.1 (sent at_ c.2).
Proof.
  cbv zeta. unfold sshPromptCountdown. apply does_reading. unfold deadline_past. cbn [core_step fst snd]. rewrite sent_nil.
  unfold prompting, unlocking. destruct (present (sshPrompt (r_waiting s)) || present (sshUnlockRequest (r_waiting s))) eqn:E;
    [cbn [negb]; rewrite andb_true_r|by rewrite andb_false_r].
  apply does_quiet_then; [silent|]. intros s1 E1. destruct (_ <=? 0).
  - pose proof (does_expire s1) as H. by rewrite E1, E in H.
  - by rewrite <- E1.
Qed.

Lemma does_promote s b d : let c := core_step at_ b d StatusChanged (r_waiting s) in
  does (promoteUnlockToApproval at_) s c.1 (sent at_ c.2).
Proof.
  cbv zeta. unfold promoteUnlockToApproval, prompting. apply does_reading. cbn [core_step].
  destruct (negb (vault_unlocked at_) || negb (truthy (sshUnlockRaw (r_waiting s))) || present (sshPrompt (r_waiting s))); [by apply does_nothing|].
  cbn [orb]. destruct (strict_eq _ _); [by apply does_nothing|]. cbn [fst snd]. rewrite sent_nil.
  eapply (does_then _ _ _ _ _ [] []); [apply does_set|]. intros s1 E. 
  pose proof (does_show (sshUnlockRaw (r_waiting s)) s1) as H. by rewrite E in H.
Qed.
End Summaries.

(** Every handler changes the requests and writes the lines exactly as
    [core_step] says. *)
Lemma handle_core at_ e s :
  let c := core_step at_ (sshAgentMayPrompt at_ s) (deadline_past at_ s) e (r_waiting s) in
  does (handle at_ e) s c.1 (sent at_ c.2).
Proof.
  destruct e; cbn [handle].
  - apply does_message.
  - apply does_approve.
  - apply does_deny.
  - apply does_deny_all.
  - apply does_nothing, silent_cooldown.
  - apply (does_write at_ (RevokeGrant _)).
  - apply (does_write at_ RevokeGrants).
  - apply does_countdown.
  - apply does_nothing, silent_note.
  - apply does_nothing, silent_popup.
  - apply does_promote.
  - apply does_nothing, silent_open.
  - apply does_nothing, silent_close.
  - apply does_nothing. done.
Qed.

(** ** Which requests are owed an answer *)

Definition asks (m : jsval) : bool := message_is m "approval_required" || message_is m "unlock_required".
Definition received (evs : list (moment * request_event)) : list jsval :=
  omap (fun e => match snd e with Message m => if asks m then Some m else None | _ => None end) evs.

Definition message_id (m : jsval) : jsval := m.["requestId"].
Definition valid_ids (l : list jsval) : list jsval := List.filter isRequestId l.

(** The ids on the screen and behind it. *)
Definition live_ids (w : waiting) : list jsval :=
  valid_ids (match sshPrompt w with Some p => [shown_requestId p] | None => [] end)
  ++ valid_ids (map message_id (sshPromptQueue w))
  ++ valid_ids (match sshUnlockRequest w with Some v => [JNum (requestId v)] | None => [] end)
  ++ valid_ids (map message_id (sshUnlockQueue w)).

Definition asked (e : request_event) : list jsval :=
  match e with Message m => if asks m then valid_ids [message_id m] else [] | _ => [] end.

(** What holds of the requests after any run that received [rec]. *)
Record requests_ok (rec : list jsval) (w : waiting) : Prop := {
  ok_unlock : sshUnlockRequest w = if truthy (sshUnlockRaw w) then Some (sshAgentPromptView (sshUnlockRaw w) (jz 0)) else None;
  ok_behind : sshPrompt w = None -> sshPromptQueue w = [];
  ok_behind_unlock : sshUnlockRequest w = None -> sshUnlockQueue w = [];
  ok_promptQueue : queue_ok SSH_QUEUE_CAP (sshPromptQueue w);
  ok_unlockQueue : queue_ok SSH_QUEUE_CAP (sshUnlockQueue w);
  ok_known : Forall (fun m => m ∈ rec) (sshPromptQueue w ++ sshUnlockQueue w);
  ok_raw : truthy (sshUnlockRaw w) = true -> sshUnlockRaw w ∈ rec
}.

Lemma queue_ok_nil cap : queue_ok cap [].
Proof. split_and!; [constructor|constructor|]. simpl. lia. Qed.
Lemma queue_ok_tail cap m q : queue_ok cap (m :: q) -> truthy m = true /\ queue_ok cap q.
Proof. intros H. pose proof (dequeue_ok cap _ H). split; [|done]. destruct H as [H _]. by apply Forall_cons in H as [[? _] _]. Qed.

Lemma asks_truthy m : asks m = true -> truthy m = true.
Proof. unfold asks, message_is. by destruct m. Qed.

Lemma enqueue_cases q m cap : sshAgentEnqueuePrompt (JArr q) m cap = q
  \/ truthy m = true /\ isRequestId (message_id m) = true /\ sshAgentEnqueuePrompt (JArr q) m cap = q ++ [m].
Proof.
  unfold sshAgentEnqueuePrompt. cbn [array_items]. destruct (_ || _) eqn:E; [by left|]. destruct (existsb _ _); [by left|].
  destruct (num_leb _ _); [by left|]. right. by bool_hyps.
Qed.
Lemma remove_sublist q id : sshAgentRemovePrompt (JArr q) id `sublist_of` q.
Proof. apply bfilter_sublist. Qed.

Section Invariant.
Context (at_ : moment).

Lemma ok_nothing rec : requests_ok rec nothing_waiting.
Proof. split; try done; apply queue_ok_nil. Qed.

Lemma ok_more rec rec' w : rec ⊆ rec' -> requests_ok rec w -> requests_ok rec' w.
Proof. intros Hr []. split; try done; [eapply Forall_impl; [done|]; set_solver|set_solver]. Qed.

Lemma ok_next_prompt rec w : requests_ok rec w -> requests_ok rec (next_prompt at_ w).
Proof.
  intros []. unfold next_prompt. destruct (sshPromptQueue w) as [|m q] eqn:E; [apply ok_nothing|].
  destruct (truthy m); [|apply ok_nothing]. destruct (queue_ok_tail _ _ _ ok_promptQueue0) as [_ Hq]. apply Forall_cons in ok_known0 as [_ ?].
  by split.
Qed.

Lemma ok_next_unlock rec w : requests_ok rec w -> requests_ok rec (next_unlock w).
Proof.
  intros []. unfold next_unlock. destruct (sshUnlockQueue w) as [|m q] eqn:E; [apply ok_nothing|].
  destruct (truthy m) eqn:T; [|apply ok_nothing]. destruct (queue_ok_tail _ _ _ ok_unlockQueue0) as [_ Hq].
  rewrite Forall_app, Forall_cons in ok_known0. destruct ok_known0 as (? & ? & ?).
  split; cbn; try done; [by rewrite T|by apply Forall_app].
Qed.

Lemma ok_next rec w : requests_ok rec w -> requests_ok rec (next_request at_ w).
Proof.
  intros H. unfold next_request. destruct (_ && _); [by apply ok_next_prompt|].
  destruct (_ && _); [by apply ok_next_unlock|apply ok_nothing].
Qed.

Lemma ok_message rec may m w : requests_ok rec w -> (may = true -> asks m = true -> m ∈ rec) -> requests_ok rec (core_message at_ may m w).1.
Proof.
  intros H Hm. unfold core_message. assert (A : asks m = _) by reflexivity. unfold asks in A at 2.
  destruct (message_is m "approval_required").
  - destruct may; cbn [negb]; [|done]. destruct (adoptSshPrompt m w) as [w'|] eqn:Ea.
    + unfold adoptSshPrompt in Ea. destruct (sshPrompt w); [|done]. destruct (_ && _); simplify_eq. destruct H. by split.
    + cbn [fst]. destruct H. destruct (sshPrompt w) as [p|] eqn:Ep; cbn [present]; [|by split].
      split; cbn; rewrite ?Ep; try done; [by apply enqueue_ok|]. rewrite Forall_app in *.
      destruct ok_known0. split; [|done]. destruct (enqueue_cases (sshPromptQueue w) m SSH_QUEUE_CAP) as [->|(_ & _ & ->)]; [done|].
      apply Forall_app. split; [done|]. constructor; [by apply Hm; rewrite ?A|constructor].
  - destruct (message_is m "unlock_required") eqn:Eu.
    + pose proof (asks_truthy m A) as T. destruct may; cbn [negb]; [|done]. cbn [fst]. destruct H.
      destruct (sshUnlockRequest w) as [v|] eqn:Ev; cbn [present].
      * split; cbn; try done; [congruence|by rewrite Ev|by apply enqueue_ok|]. rewrite Forall_app in *. destruct ok_known0. split; [done|].
        destruct (enqueue_cases (sshUnlockQueue w) m SSH_QUEUE_CAP) as [->|(_ & _ & ->)]; [done|].
        apply Forall_app. split; [done|]. constructor; [by apply Hm; rewrite ?A|constructor].
      * split; cbn; try done; [by rewrite T|intros _; by apply Hm; rewrite ?A].
    + destruct (message_is m "request_cancelled"); [|done]. cbn [fst].
      destruct (match live_id w with Some _ => _ | None => _ end).
      * destruct (_ && _); [done|by apply ok_next].
      * destruct H. unfold forget_id. split; cbn; try done.
        -- intros Hp. by rewrite ok_behind0.
        -- intros Hu. by rewrite ok_behind_unlock0.
        -- case_bool_decide; [apply queue_ok_nil|by apply remove_ok].
        -- case_bool_decide; [apply queue_ok_nil|by apply remove_ok].
        -- rewrite Forall_app in *. destruct ok_known0. split; (case_bool_decide; [done|by apply Forall_bfilter]).
Qed.

Lemma ok_step rec b d e w : requests_ok rec w -> (forall m, b = true -> e = Message m -> asks m = true -> m ∈ rec) ->
  requests_ok rec (core_step at_ b d e w).1.
Proof.
  intros H Hm. destruct e; try exact H; cbn [core_step].
  - by apply ok_message; eauto.
  - destruct (sshPrompt w); [by apply ok_next_prompt|done].
  - destruct (sshUnlockRequest w); [by apply ok_next_unlock|]. destruct (sshPrompt w); [by apply ok_next_prompt|apply ok_nothing].
  - apply ok_nothing.
  - cbn [fst]. destruct (_ && _); [apply ok_nothing|done].
  - destruct (_ || _) eqn:E; [done|]. bool_hyps. destruct H. cbn [fst]. destruct (sshPrompt w) eqn:Ep; [done|].
    split; cbn; try done; [apply queue_ok_nil|]. rewrite app_nil_r. by apply Forall_app in ok_known0 as [? _].
Qed.
End Invariant.

(** *** Ids are conserved *)

Lemma valid_ids_app a b : valid_ids (a ++ b) = valid_ids a ++ valid_ids b.
Proof. apply List.filter_app. Qed.

Lemma valid_ids_submseteq a b : a ⊆+ b -> valid_ids a ⊆+ valid_ids b.
Proof.
  unfold valid_ids. induction 1 as [|x a b _ IH|x y a|x a b _ IH|a b c _ IH1 _ IH2]; simpl; try done.
  - destruct (isRequestId x); [by constructor|done].
  - destruct (isRequestId x), (isRequestId y); try done. constructor.
  - destruct (isRequestId x); [by constructor|done].
  - by etrans.
Qed.

Lemma view_id m w : truthy m = true -> valid_ids [JNum (requestId (sshAgentPromptView m w))] = valid_ids [message_id m].
Proof.
  intros T. unfold sshAgentPromptView, message_id. cbn [requestId]. assert (jor m (JObj []) = m) as -> by (unfold jor; by rewrite T).
  destruct (jget m (u "requestId")) as [| | |n| | | |]; try by vm_compute.
  destruct (isRequestId (JNum n)) eqn:E; [done|]. unfold valid_ids. cbn [List.filter]. rewrite E. by vm_compute.
Qed.

Lemma line_ids (f : jsval -> panel_line) l : (forall id, line_id (f id) = if isRequestId id then Some id else None) ->
  omap line_id (map f l) = valid_ids l.
Proof.
  intros Hf. induction l as [|x l IH]; [done|]. cbn [map]. unfold valid_ids in *. cbn [List.filter].
  change (omap line_id (f x :: map f l)) with (match line_id (f x) with Some y => y :: omap line_id (map f l) | None => omap line_id (map f l) end).
  rewrite Hf, IH. by destruct (isRequestId x).
Qed.

Lemma waiting_line_ids (f : jsval -> panel_line) q : (forall id, line_id (f id) = if isRequestId id then Some id else None) ->
  omap line_id (waiting_lines f q) ⊆+ valid_ids (map message_id q).
Proof.
  intros Hf. unfold waiting_lines.
  replace (map (fun m => f m.["requestId"]) (List.filter (fun m => truthy m && truthy m.["requestId"]) q))
    with (map f (map message_id (List.filter (fun m => truthy m && truthy m.["requestId"]) q))) by apply map_map.
  rewrite line_ids by done. apply valid_ids_submseteq, sublist_submseteq, (fmap_sublist message_id _ _ (bfilter_sublist _ _)).
Qed.

Lemma valid_enqueue q m cap : valid_ids (map message_id (sshAgentEnqueuePrompt (JArr q) m cap)) ⊆+ valid_ids (map message_id q) ++ valid_ids [message_id m].
Proof.
  destruct (enqueue_cases q m cap) as [->|(_ & _ & ->)]; [apply submseteq_inserts_r; done|].
  by rewrite map_app, valid_ids_app.
Qed.
Lemma valid_remove q id : valid_ids (map message_id (sshAgentRemovePrompt (JArr q) id)) ⊆+ valid_ids (map message_id q).
Proof. apply valid_ids_submseteq, sublist_submseteq, (fmap_sublist message_id _ _ (remove_sublist _ _)). Qed.

Ltac live_simpl := unfold live_ids; cbn [set_prompt set_promptQueue set_unlock set_unlockQueue set_promoted sshPrompt sshPromptQueue
  sshUnlockRequest sshUnlockRaw sshUnlockQueue shown_requestId view_of map omap list_omap app fst snd].

Lemma live_nothing : live_ids nothing_waiting = [].
Proof. done. Qed.

(** Advancing spends the id on the screen. *)
Lemma live_next_prompt at_ w p : sshPrompt w = Some p -> valid_ids [shown_requestId p] ++ live_ids (next_prompt at_ w) ⊆+ live_ids w.
Proof.
  intros E. unfold next_prompt. unfold live_ids at 2. rewrite E. destruct (sshPromptQueue w) as [|m q] eqn:Eq.
  - rewrite live_nothing, app_nil_r. solve_submseteq.
  - destruct (truthy m) eqn:T; [|rewrite live_nothing, app_nil_r; solve_submseteq].
    unfold live_ids. cbn [sshPrompt set_prompt set_promptQueue sshPromptQueue sshUnlockRequest sshUnlockQueue shown_requestId view_of map].
    rewrite (view_id m _ T). change (message_id m :: map message_id q) with ([message_id m] ++ map message_id q).
    rewrite valid_ids_app. solve_submseteq.
Qed.

Lemma live_next_unlock w v : sshUnlockRequest w = Some v -> valid_ids [JNum (requestId v)] ++ live_ids (next_unlock w) ⊆+ live_ids w.
Proof.
  intros E. unfold next_unlock. unfold live_ids at 2. rewrite E. destruct (sshUnlockQueue w) as [|m q] eqn:Eq.
  - rewrite live_nothing, app_nil_r. solve_submseteq.
  - destruct (truthy m) eqn:T; [|rewrite live_nothing, app_nil_r; solve_submseteq].
    unfold live_ids. cbn [sshPrompt set_unlock set_unlockQueue sshPromptQueue sshUnlockRequest sshUnlockQueue map].
    rewrite (view_id m _ T). change (message_id m :: map message_id q) with ([message_id m] ++ map message_id q).
    rewrite valid_ids_app. solve_submseteq.
Qed.

Lemma live_next at_ w : live_ids (next_request at_ w) ⊆+ live_ids w.
Proof.
  unfold next_request. destruct (present (sshPrompt w) && _) eqn:E1; [|destruct (present (sshUnlockRequest w) && _) eqn:E2].
  - destruct (sshPrompt w) as [p|] eqn:Ep; [|done]. etrans; [|by apply (live_next_prompt at_)]. solve_submseteq.
  - destruct (sshUnlockRequest w) as [v|] eqn:Ev; [|done]. etrans; [|by apply live_next_unlock]. solve_submseteq.
  - apply submseteq_nil_l.
Qed.

Lemma conserve_message at_ rec may m w : requests_ok rec w ->
  let '(w', ls) := core_message at_ may m w in omap line_id ls ++ live_ids w' ⊆+ asked (Message m) ++ live_ids w.
Proof.
  intros H. unfold core_message, asked. destruct (asks m) eqn:A; unfold asks in A.
  - pose proof (asks_truthy m A) as T.
    destruct (message_is m "approval_required").
    + destruct may; cbn [negb]; [|by change [Deny m.["requestId"]] with (map Deny [message_id m]); rewrite line_ids].
      destruct (adoptSshPrompt m w) as [w'|] eqn:Ea.
      * unfold adoptSshPrompt in Ea. destruct (sshPrompt w) as [p|] eqn:Ep; [|done]. destruct (_ && _); simplify_eq.
        unfold live_ids. cbn. rewrite Ep. solve_submseteq.
      * destruct (sshPrompt w) as [p|] eqn:Ep; cbn [present]; unfold live_ids.
        -- cbn [set_promptQueue sshPrompt sshPromptQueue sshUnlockRequest sshUnlockQueue]. rewrite Ep.
           pose proof (valid_enqueue (sshPromptQueue w) m SSH_QUEUE_CAP). change (omap line_id []) with (@nil jsval).
           etrans; [|apply Permutation_submseteq; rewrite (Permutation_app_comm (valid_ids [message_id m])); reflexivity].
           cbn [app]. rewrite <- !app_assoc. apply submseteq_app; [done|]. 
           etrans; [apply submseteq_app; [exact H0|reflexivity]|]. solve_submseteq.
        -- live_simpl. rewrite Ep, (ok_behind _ _ H Ep). rewrite view_id by done. solve_submseteq.
    + destruct (message_is m "unlock_required"); [|done].
      destruct may; cbn [negb]; [|by change [CancelUnlock m.["requestId"]] with (map CancelUnlock [message_id m]); rewrite line_ids].
      destruct (sshUnlockRequest w) as [v|] eqn:Ev; cbn [present]; unfold live_ids.
      * cbn [set_unlockQueue sshPrompt sshPromptQueue sshUnlockRequest sshUnlockQueue]. rewrite Ev.
        pose proof (valid_enqueue (sshUnlockQueue w) m SSH_QUEUE_CAP).
        etrans; [apply submseteq_app; [reflexivity|]|]. 
        { apply submseteq_app; [reflexivity|]. apply submseteq_app; [reflexivity|]. apply submseteq_app; [reflexivity|exact H0]. }
        cbn. solve_submseteq.
      * live_simpl. rewrite Ev, (ok_behind_unlock _ _ H Ev). rewrite view_id by done. solve_submseteq.
  - apply orb_false_iff in A as [-> ->]. destruct (message_is m "request_cancelled"); [|done]. cbn [app].
    destruct (match live_id w with Some _ => _ | None => _ end).
    + destruct (_ && _); [done|apply live_next].
    + unfold live_ids, forget_id. cbn. 
      apply submseteq_app; [done|]. apply submseteq_app; [case_bool_decide; [solve_submseteq|apply valid_remove]|].
      apply submseteq_app; [done|]. case_bool_decide; [solve_submseteq|apply valid_remove].
Qed.

Lemma one_line_ids l id : line_id l = (if isRequestId id then Some id else None) -> omap line_id [l] = valid_ids [id].
Proof. intros E. cbn. rewrite E. by destruct (isRequestId id). Qed.

Lemma conserve_deny_all at_ b d w : let c := core_step at_ b d DenyAllClicked w in omap line_id c.2 ++ live_ids c.1 ⊆+ live_ids w.
Proof.
  cbv zeta. cbn [core_step fst snd]. rewrite live_nothing, app_nil_r, !omap_app. unfold live_ids.
  apply submseteq_app; [destruct (sshPrompt w) as [p|]; [by rewrite (one_line_ids _ (shown_requestId p))|done]|].
  apply submseteq_app; [by apply waiting_line_ids|].
  apply submseteq_app; [destruct (sshUnlockRequest w) as [v|]; [by rewrite (one_line_ids _ (JNum (requestId v)))|done]|by apply waiting_line_ids].
Qed.

Lemma conserve_promote at_ rec b d w : requests_ok rec w -> live_ids (core_step at_ b d StatusChanged w).1 ⊆+ live_ids w.
Proof.
  intros H. cbn [core_step]. destruct (_ || _) eqn:E; [done|].
  apply orb_false_iff in E as [[[_ T%negb_false_iff]%orb_false_iff Ep]%orb_false_iff _].
  pose proof (ok_unlock _ _ H) as Hu. rewrite T in Hu. live_simpl. rewrite Hu.
  destruct (sshPrompt w); [done|]. rewrite !view_id by done. solve_submseteq.
Qed.

Lemma conserve_step at_ rec b d e w : requests_ok rec w ->
  let c := core_step at_ b d e w in omap line_id c.2 ++ live_ids c.1 ⊆+ asked e ++ live_ids w.
Proof.
  intros H. destruct e; try done; cbv zeta.
  - pose proof (conserve_message at_ rec b message w H) as C. cbn [core_step]. by destruct (core_message _ _ _ _).
  - cbn [core_step]. destruct (sshPrompt w) as [p|] eqn:Ep; [|done]. cbn [fst snd].
    rewrite (one_line_ids _ (shown_requestId p)) by done. by apply live_next_prompt.
  - cbn [core_step]. destruct (sshUnlockRequest w) as [v|] eqn:Ev; [|destruct (sshPrompt w) as [p|] eqn:Ep]; cbn [fst snd].
    + rewrite (one_line_ids _ (JNum (requestId v))) by done. by apply live_next_unlock.
    + rewrite (one_line_ids _ (shown_requestId p)) by done. by apply live_next_prompt.
    + apply submseteq_nil_l.
  - apply conserve_deny_all.
  - cbn [core_step fst snd]. destruct (_ && _); [apply submseteq_nil_l|done].
  - assert (E : (core_step at_ b d StatusChanged w).2 = []) by (cbn [core_step]; by destruct (_ || _)).
    rewrite E. by eapply conserve_promote.
Qed.

(** *** Over a run *)

Lemma run_app evs1 evs2 s : run (evs1 ++ evs2) s =
  let '(s1, e1) := run evs1 s in let '(s2, e2) := run evs2 s1 in (s2, e1 ++ e2).
Proof. unfold run. by rewrite map_app, run_handlers_app. Qed.

Lemma run_one at_ e s : run [(at_, e)] s = handle at_ e s.
Proof. unfold run. cbn. unfold then_do. destruct (handle at_ e s). cbn. by rewrite app_nil_r. Qed.

Lemma run_snoc evs at_ e s : run (evs ++ [(at_, e)]) s =
  let '(s1, e1) := run evs s in let '(s2, e2) := handle at_ e s1 in (s2, e1 ++ e2).
Proof. rewrite run_app. destruct (run evs s). by rewrite run_one. Qed.

Lemma received_app a b : received (a ++ b) = received a ++ received b.
Proof. apply omap_app. Qed.

Lemma received_one at_ m : asks m = true -> m ∈ received [(at_, Message m)].
Proof. intros A. unfold received. cbn. rewrite A. by apply list_elem_of_singleton. Qed.

Lemma run_ok evs : requests_ok (received evs) (r_waiting (run evs initial_requests).1).
Proof.
  induction evs as [|[at_ e] evs IH] using rev_ind; [apply ok_nothing|]. rewrite run_snoc, received_app.
  destruct (run evs initial_requests) as [s1 e1]. cbn [run fst]. pose proof (handle_core at_ e s1) as [Hw _].
  destruct (handle at_ e s1) as [s2 e2]. cbn [fst] in *. rewrite Hw. apply ok_step.
  - eapply ok_more; [|exact IH]. set_solver.
  - intros m _ -> A. apply elem_of_app. right. by apply received_one.
Qed.

Lemma sent_lines at_ ls : exists ls', sent at_ ls = map line_text ls' /\ omap line_id ls' ⊆+ omap line_id ls.
Proof.
  unfold sent. destruct (channel_open at_); [|exists []; split; [done|apply submseteq_nil_l]].
  exists (List.filter (fun l => negb (str_eqb (line_text l) [])) ls). induction ls as [|l ls [IH1 IH2]]; [done|].
  cbn [map List.filter]. destruct (str_eqb (line_text l) []); cbn [negb map]; (split; [by rewrite ?IH1|]).
  - cbn. destruct (line_id l); [by constructor|done].
  - cbn. destruct (line_id l); [by constructor|done].
Qed.

(** What was spent before and what is spent now come out of the same account. *)
Lemma accounts {A} (a1 a2 l0 l1 k1 k2 : list A) : a1 ++ l0 ⊆+ k1 -> a2 ++ l1 ⊆+ k2 ++ l0 -> (a1 ++ a2) ++ l1 ⊆+ k1 ++ k2.
Proof.
  intros H1 H2. rewrite <- app_assoc. etrans; [apply submseteq_app; [reflexivity|exact H2]|].
  etrans; [|apply submseteq_app; [exact H1|reflexivity]]. solve_submseteq.
Qed.

(** ** Properties *)

(** C25. Every answer is owed and none is given twice. Whatever the companion sends
    and the user does, the approvals, denials and cancellations the panel has
    written are for requests it was asked about, each at most as often as it was
    asked; and what is still on the screen or behind it has not been answered. *)
Theorem answers_are_owed evs :
  let '(s, effs) := run evs initial_requests in
  exists ls, lines_written effs = map line_text ls
    /\ omap line_id ls ++ live_ids (r_waiting s) ⊆+ valid_ids (map message_id (received evs)).
Proof.
  induction evs as [|[at_ e] evs IH] using rev_ind; [by exists []|].
  pose proof (run_ok evs) as Hok. rewrite run_snoc. destruct (run evs initial_requests) as [s1 e1]. cbn [run fst] in *.
  pose proof (handle_core at_ e s1) as [Hw Hl]. destruct (handle at_ e s1) as [s2 e2]. cbn [fst snd] in *.
  destruct IH as (ls1 & E1 & S1).
  pose proof (conserve_step at_ _ (sshAgentMayPrompt at_ s1) (deadline_past at_ s1) e _ Hok) as C. cbv zeta in C.
  destruct (sent_lines at_ (core_step at_ (sshAgentMayPrompt at_ s1) (deadline_past at_ s1) e (r_waiting s1)).2) as (ls2 & E2 & S2).
  exists (ls1 ++ ls2). unfold lines_written in *. rewrite omap_app, E1, Hl, E2, map_app. split; [done|].
  rewrite Hw, received_app, map_app, valid_ids_app, omap_app.
  assert (asked e ⊆+ valid_ids (map message_id (received [(at_, e)]))) as Ha.
  { unfold asked, received. destruct e; try apply submseteq_nil_l. cbn. by destruct (asks message). }
  eapply accounts; [exact S1|]. etrans; [by apply submseteq_app|]. etrans; [exact C|]. by apply submseteq_app.
Qed.

(** The requests stay in order: whatever happens, at most four requests of each
    kind wait, each with an id of its own, and only behind one that is on the
    screen; and the unlock request on the screen shows the message it came from. *)
Theorem requests_invariant evs :
  let w := r_waiting (run evs initial_requests).1 in
  (length (sshPromptQueue w) <= 4 /\ length (sshUnlockQueue w) <= 4)%nat
  /\ (sshPrompt w = None -> sshPromptQueue w = []) /\ (sshUnlockRequest w = None -> sshUnlockQueue w = [])
  /\ Forall (fun m => isRequestId (message_id m) = true /\ m ∈ received evs) (sshPromptQueue w ++ sshUnlockQueue w)
  /\ StronglySorted (fun a b => same_id a b = false) (sshPromptQueue w)
  /\ StronglySorted (fun a b => same_id a b = false) (sshUnlockQueue w)
  /\ (forall v, sshUnlockRequest w = Some v -> sshUnlockRaw w ∈ received evs /\ v = sshAgentPromptView (sshUnlockRaw w) (jz 0)).
Proof.
  intros w. destruct (run_ok evs). fold w in ok_unlock0, ok_behind0, ok_behind_unlock0, ok_promptQueue0, ok_unlockQueue0, ok_known0, ok_raw0.
  destruct ok_promptQueue0 as (V1 & S1 & L1), ok_unlockQueue0 as (V2 & S2 & L2).
  specialize (L1 4 eq_refl ltac:(lia)). specialize (L2 4 eq_refl ltac:(lia)). split_and!; try done; [lia|lia| |].
  - apply Forall_forall. intros m Hm. split; [|by eapply Forall_forall in ok_known0].
    assert (V : Forall (fun m => truthy m = true /\ isRequestId (jget m (u "requestId")) = true) (sshPromptQueue w ++ sshUnlockQueue w))
      by by apply Forall_app. by eapply Forall_forall in V as [_ ?].
  - intros v E. rewrite ok_unlock0 in E. destruct (truthy _) eqn:T; simplify_eq. auto.
Qed.

(** Why a request may be shown: the screen lock was read unlocked within the
    last four polls, and signing is not paused. *)
Lemma may_prompt at_ s : sshAgentMayPrompt at_ s = true <->
  (0 < screenLockCheckedAt at_ /\ now at_ < screenLockCheckedAt at_ + 12000 /\ screenIsLocked at_ = false
   /\ sshAgentCooldownActive (sshCooldown (r_pause s)) (jz (now at_)) = false).
Proof.
  unfold sshAgentMayPrompt, screenLockReadingFresh. change (screenLockPollMs * 4) with 12000.
  destruct (Z.ltb_spec 0 (screenLockCheckedAt at_)); cbn [andb]; [|split; [done|lia]].
  destruct (Z.ltb_spec (now at_ - screenLockCheckedAt at_) 12000); [|split; [done|lia]].
  destruct (screenIsLocked at_); [split; [done|by intros (_ & _ & ? & _)]|].
  destruct (sshAgentCooldownActive _ _); [split; [done|by intros (_ & _ & _ & ?)]|].
  split; [|done]. intros _. split_and!; try done; lia.
Qed.

Lemma refused at_ s m : asks m = true -> sshAgentMayPrompt at_ s = false ->
  on_request_message at_ m s
  = (s, map Write (sent at_ [if message_is m "approval_required" then Deny (message_id m) else CancelUnlock (message_id m)])).
Proof.
  unfold asks, on_request_message, message_id. intros A M. destruct (message_is m "approval_required").
  - unfold on_approval_required, reading. rewrite M. unfold sshAgentWrite, sent. cbn [negb map List.filter line_text].
    by destruct (str_eqb _ []), (channel_open at_).
  - cbn in A. rewrite A. unfold on_unlock_required, reading. rewrite M. unfold sshAgentWrite, sent. cbn [negb map List.filter line_text].
    by destruct (str_eqb _ []), (channel_open at_).
Qed.

(** An empty screen stays empty but for a request the companion asks. *)
Lemma appears at_ rec b d e w : requests_ok rec w -> sshPrompt w = None -> sshUnlockRequest w = None ->
  let w' := (core_step at_ b d e w).1 in present (sshPrompt w') || present (sshUnlockRequest w') = true ->
  b = true /\ exists m, e = Message m /\ asks m = true.
Proof.
  intros H Ep Eu. cbv zeta. destruct e; cbn [core_step]; rewrite ?Ep, ?Eu; cbn; try done; rewrite ?Ep, ?Eu; try done.
  - unfold core_message, asks. destruct (message_is message "approval_required") eqn:E1;
      [destruct b; cbn; [intros _; split; [done|]; exists message; by rewrite E1|by rewrite Ep, Eu]|].
    destruct (message_is message "unlock_required") eqn:E2;
      [destruct b; cbn; [intros _; split; [done|]; exists message; by rewrite E1, E2|by rewrite Ep, Eu]|].
    destruct (message_is message "request_cancelled"); cbn; [|by rewrite Ep, Eu].
    unfold live_id. rewrite Ep, Eu. cbn. by rewrite Ep, Eu.
  - by destruct (d && false); cbn; rewrite ?Ep, ?Eu.
  - pose proof (ok_unlock _ _ H) as U. rewrite Eu in U. destruct (truthy (sshUnlockRaw w)); [done|].
    cbn. rewrite orb_true_r. cbn. by rewrite Ep, Eu.
Qed.

(** *** How a request comes to the screen *)

(** A request may be let in: the screen was read unlocked within the last twelve
    seconds, and signing is not paused. *)
Definition allowed (at_ : moment) (s : requests) : Prop :=
  0 < screenLockCheckedAt at_ /\ now at_ < screenLockCheckedAt at_ + 12000 /\ screenIsLocked at_ = false
  /\ sshAgentCooldownActive (sshCooldown (r_pause s)) (jz (now at_)) = false.

(** The click or the message that takes the request on the screen away. *)
Definition takes_away (e : request_event) (w : waiting) : Prop :=
  match e with
  | ApproveClicked _ | DenyClicked => True
  | Message m => message_is m "request_cancelled" = true /\ exists id, live_id w = Some id /\ strict_eq id (message_id m) = true
  | _ => False
  end.

(** A prompt comes up: one just asked for; the one shown, under the id of the
    request it was asked for again; the first that waits behind the one taken
    away; or the request the vault was unlocked for. *)
Inductive prompt_comes (at_ : moment) (e : request_event) (s : requests) : shown_prompt -> Prop :=
| prompt_asked m : allowed at_ s -> e = Message m -> message_is m "approval_required" = true -> sshPrompt (r_waiting s) = None ->
    prompt_comes at_ e s (view_of m (sshAgentApprovalWindowSec at_))
| prompt_renamed m p : allowed at_ s -> e = Message m -> message_is m "approval_required" = true -> sshPrompt (r_waiting s) = Some p ->
    sshAgentSameRequest (sshPromotedRaw (r_waiting s)) m = true ->
    prompt_comes at_ e s (mkShown (message_id m) (shown_view p))
| prompt_next m q p : sshPrompt (r_waiting s) = Some p -> sshPromptQueue (r_waiting s) = m :: q -> takes_away e (r_waiting s) ->
    prompt_comes at_ e s (view_of m (sshAgentApprovalWindowSec at_))
| prompt_promoted v : e = StatusChanged -> vault_unlocked at_ = true -> sshPrompt (r_waiting s) = None ->
    sshUnlockRequest (r_waiting s) = Some v ->
    prompt_comes at_ e s (view_of (sshUnlockRaw (r_waiting s)) (sshAgentApprovalWindowSec at_)).

(** An unlock request comes up: one just asked for, or the first that waits behind the one taken away. *)
Inductive unlock_comes (at_ : moment) (e : request_event) (s : requests) : prompt_view -> Prop :=
| unlock_asked m : allowed at_ s -> e = Message m -> message_is m "unlock_required" = true -> sshUnlockRequest (r_waiting s) = None ->
    unlock_comes at_ e s (sshAgentPromptView m (jz 0))
| unlock_next m q v : sshUnlockRequest (r_waiting s) = Some v -> sshUnlockQueue (r_waiting s) = m :: q -> takes_away e (r_waiting s) ->
    unlock_comes at_ e s (sshAgentPromptView m (jz 0)).

Section Comes.
Context (at_ : moment) (s : requests) (e : request_event).
Notation w := (r_waiting s).

(** What the screen shows after a step is what it showed, or has come up. *)
Definition screen_follows (w' : waiting) : Prop :=
  (forall p, sshPrompt w' = Some p -> sshPrompt w = Some p \/ prompt_comes at_ e s p)
  /\ (forall v, sshUnlockRequest w' = Some v -> sshUnlockRequest w = Some v \/ unlock_comes at_ e s v).

Lemma follows_same w' : sshPrompt w' = sshPrompt w -> sshUnlockRequest w' = sshUnlockRequest w -> screen_follows w'.
Proof. intros E1 E2. split; intros ? ?; left; congruence. Qed.
Lemma follows_nothing : screen_follows nothing_waiting.
Proof. by split. Qed.

Lemma follows_next_prompt : present (sshPrompt w) = true -> takes_away e w -> screen_follows (next_prompt at_ w).
Proof.
  intros Hp Ht. unfold next_prompt. destruct (sshPromptQueue w) as [|m q] eqn:Eq; [apply follows_nothing|].
  destruct (truthy m); [|apply follows_nothing]. destruct (sshPrompt w) as [p|] eqn:Ep; [|done].
  split; cbn; [|by left]. intros p' [= <-]. right. by eapply prompt_next.
Qed.

Lemma follows_next_unlock : present (sshUnlockRequest w) = true -> takes_away e w -> screen_follows (next_unlock w).
Proof.
  intros Hp Ht. unfold next_unlock. destruct (sshUnlockQueue w) as [|m q] eqn:Eq; [apply follows_nothing|].
  destruct (truthy m); [|apply follows_nothing]. destruct (sshUnlockRequest w) as [v|] eqn:Ev; [|done].
  split; cbn; [by left|]. intros v' [= <-]. right. by eapply unlock_next.
Qed.

Lemma follows_message m : e = Message m -> screen_follows (core_message at_ (sshAgentMayPrompt at_ s) m w).1.
Proof.
  intros Em. unfold core_message. destruct (message_is m "approval_required") eqn:E1.
  - destruct (sshAgentMayPrompt at_ s) eqn:M; cbn [negb]; [|by apply follows_same]. apply may_prompt in M.
    destruct (adoptSshPrompt m w) as [w'|] eqn:Ea.
    + unfold adoptSshPrompt in Ea. destruct (sshPrompt w) as [p|] eqn:Ep; [|done]. destruct (_ && _) eqn:Es; simplify_eq. bool_hyps.
      split; cbn; [|by left]. intros p' [= <-]. right. by apply prompt_renamed.
    + cbn [fst]. destruct (sshPrompt w) as [p|] eqn:Ep; cbn [present]; [by apply follows_same|].
      split; cbn; [|by left]. intros p' [= <-]. right. by apply prompt_asked.
  - destruct (message_is m "unlock_required") eqn:E2.
    + destruct (sshAgentMayPrompt at_ s) eqn:M; cbn [negb]; [|by apply follows_same]. apply may_prompt in M.
      cbn [fst]. destruct (sshUnlockRequest w) as [v|] eqn:Ev; cbn [present]; [by apply follows_same|].
      split; cbn; [by left|]. intros v' [= <-]. right. by apply unlock_asked.
    + destruct (message_is m "request_cancelled") eqn:E3; [|by apply follows_same]. cbn [fst].
      destruct (live_id w) as [id|] eqn:El; [destruct (strict_eq id m.["requestId"]) eqn:Eid|]; try by apply follows_same.
      destruct (_ && _); [by apply follows_same|]. assert (takes_away e w) as Ht by (rewrite Em; split; eauto).
      unfold next_request. destruct (present (sshPrompt w) && _) eqn:B1; [apply andb_true_iff in B1 as [? _]; by apply follows_next_prompt|].
      destruct (present (sshUnlockRequest w) && _) eqn:B2; [apply andb_true_iff in B2 as [? _]; by apply follows_next_unlock|].
      apply follows_nothing.
Qed.

Lemma screen_follows_step rec d : requests_ok rec w -> screen_follows (core_step at_ (sshAgentMayPrompt at_ s) d e w).1.
Proof.
  intros H. pose proof follows_message as Hm. pose proof follows_next_prompt as Hp. pose proof follows_next_unlock as Hu.
  revert Hm Hp Hu. destruct e eqn:Ee; cbn [core_step]; intros Hm Hp Hu; try by apply follows_same.
  - by apply Hm.
  - destruct (sshPrompt w) eqn:Ep; [by apply Hp|by apply follows_same].
  - destruct (sshUnlockRequest w) eqn:Ev; [by apply Hu|]. destruct (sshPrompt w) eqn:Ep; [by apply Hp|apply follows_nothing].
  - apply follows_nothing.
  - destruct (_ && _); [apply follows_nothing|by apply follows_same].
  - destruct (_ || _) eqn:E; [by apply follows_same|]. bool_hyps. pose proof (ok_unlock _ _ H) as Hv.
    split; cbn; [|done]. intros p' [= <-]. right. destruct (sshPrompt w) eqn:Ep; [done|]. destruct (truthy (sshUnlockRaw w)); [|done].
    by eapply prompt_promoted.
Qed.
End Comes.

(** A request was let in during a run: asked for at a moment that allowed it. *)
Definition let_in (evs : list (moment * request_event)) (m : jsval) : Prop :=
  exists before at_ after, evs = before ++ (at_, Message m) :: after /\ asks m = true /\ allowed at_ (run before initial_requests).1.

(** Everything on the screen or behind it is of requests that [P] holds of. *)
Definition of_requests (P : jsval -> Prop) (w : waiting) : Prop :=
  (forall p, sshPrompt w = Some p -> exists m win, P m /\ shown_view p = sshAgentPromptView m win)
  /\ (forall v, sshUnlockRequest w = Some v -> exists m, P m /\ v = sshAgentPromptView m (jz 0))
  /\ Forall P (sshPromptQueue w ++ sshUnlockQueue w).

Definition asked_now (at_ : moment) (e : request_event) (s : requests) : list jsval :=
  match e with Message m => if asks m && sshAgentMayPrompt at_ s then [m] else [] | _ => [] end.

Lemma asked_now_in at_ s m : asks m = true -> allowed at_ s -> m ∈ asked_now at_ (Message m) s.
Proof. intros A M. cbn. apply may_prompt in M. rewrite A, M. by apply list_elem_of_singleton. Qed.

(** The view on the screen comes from a request of [rec], or from one let in now. *)
Lemma prompt_origin at_ e s rec p : requests_ok rec (r_waiting s) -> prompt_comes at_ e s p ->
  (forall p, sshPrompt (r_waiting s) = Some p -> exists m win, m ∈ rec /\ shown_view p = sshAgentPromptView m win) ->
  exists m win, m ∈ rec ++ asked_now at_ e s /\ shown_view p = sshAgentPromptView m win.
Proof.
  intros H C Hp. destruct C as [m M -> Hm _|m p _ _ _ Ep _|m q p Ep Eq _|v _ _ _ Ev].
  - eexists m, _. split; [|reflexivity]. apply elem_of_app. right. apply asked_now_in; [|done]. unfold asks. by rewrite Hm.
  - destruct (Hp p Ep) as (m' & win & Hin & E). exists m', win. split; [|done]. apply elem_of_app. by left.
  - eexists m, _. split; [|reflexivity]. apply elem_of_app. left. pose proof (ok_known _ _ H) as K. rewrite Eq in K.
    cbn in K. by apply Forall_cons in K as [? _].
  - eexists _, _. split; [|reflexivity]. apply elem_of_app. left. apply (ok_raw _ _ H). pose proof (ok_unlock _ _ H) as U. rewrite Ev in U.
    by destruct (truthy _).
Qed.

(** All requests the panel holds were let in. *)
Lemma run_let_in evs : exists rec, Forall (let_in evs) rec /\ requests_ok rec (r_waiting (run evs initial_requests).1)
  /\ forall p, sshPrompt (r_waiting (run evs initial_requests).1) = Some p -> exists m win, m ∈ rec /\ shown_view p = sshAgentPromptView m win.
Proof.
  induction evs as [|[at_ e] evs (rec & L & H & P)] using rev_ind; [exists []; split_and!; [constructor|apply ok_nothing|done]|].
  assert (Forall (let_in (evs ++ [(at_, e)])) (rec ++ asked_now at_ e (run evs initial_requests).1)) as L'.
  { apply Forall_app. split.
    - eapply Forall_impl; [exact L|]. intros m (b & t & a & -> & ? & ?). exists b, t, (a ++ [(at_, e)]). by rewrite <- app_assoc.
    - destruct e as [m| | | | | | | | | | | | |]; cbn [asked_now]; try constructor. destruct (asks m) eqn:A; cbn [andb]; [|constructor].
      destruct (sshAgentMayPrompt _ _) eqn:M; [|constructor]. constructor; [|constructor]. apply may_prompt in M. by exists evs, at_, []. }
  rewrite run_snoc. destruct (run evs initial_requests) as [s1 e1]. cbn [fst] in *. exists (rec ++ asked_now at_ e s1). split; [done|].
  pose proof (handle_core at_ e s1) as [Hw _]. destruct (handle at_ e s1) as [s2 e2]. cbn [fst] in *. rewrite Hw.
  assert (requests_ok (rec ++ asked_now at_ e s1) (r_waiting s1)) as H' by (eapply ok_more; [|exact H]; set_solver).
  split.
  - apply ok_step; [done|]. intros m M -> A. apply elem_of_app. right. apply asked_now_in; [done|]. by apply may_prompt.
  - intros p E. destruct (proj1 (screen_follows_step at_ s1 e rec _ H) p E) as [E1|C]; [|by eapply prompt_origin].
    destruct (P p E1) as (m & win & Hm & ?). exists m, win. split; [|done]. apply elem_of_app. by left.
Qed.

Lemma held_were_let_in evs : of_requests (let_in evs) (r_waiting (run evs initial_requests).1).
Proof.
  destruct (run_let_in evs) as (rec & L & H & P). rewrite Forall_forall in L. split_and!.
  - intros p E. destruct (P p E) as (m & win & Hm & ?). eauto.
  - intros v E. rewrite (ok_unlock _ _ H) in E. destruct (truthy _) eqn:T; simplify_eq. eexists. split; [|reflexivity]. by apply L, (ok_raw _ _ H).
  - eapply Forall_impl; [apply (ok_known _ _ H)|]. done.
Qed.

(** C26. Nothing appears unasked. A request shows up where none was only when the
    companion asked, at a moment the screen was read unlocked within the last
    twelve seconds and signing is not paused; at any other moment a request is
    refused at once, with one line for its id and no other effect. What is on
    the screen after an event was there before, or was just asked for at such a
    moment, or is the first that waited behind a request that was just answered
    or withdrawn, or is the signing request the vault was unlocked for. These
    last two come up whatever the screen lock says then; but all that is on the
    screen or waits was let in at a moment of the first kind. *)
Theorem nothing_appears_unasked at_ e evs :
  let s := (run evs initial_requests).1 in
  let s' := (handle at_ e s).1 in
  (prompting s || unlocking s = false -> prompting s' || unlocking s' = true -> allowed at_ s /\ exists m, e = Message m /\ asks m = true)
  /\ (forall m, e = Message m -> asks m = true -> ~ allowed at_ s ->
      handle at_ e s = (s, map Write (sent at_ [if message_is m "approval_required" then Deny (message_id m) else CancelUnlock (message_id m)])))
  /\ (forall p, sshPrompt (r_waiting s') = Some p -> sshPrompt (r_waiting s) = Some p \/ prompt_comes at_ e s p)
  /\ (forall v, sshUnlockRequest (r_waiting s') = Some v -> sshUnlockRequest (r_waiting s) = Some v \/ unlock_comes at_ e s v)
  /\ of_requests (let_in evs) (r_waiting s).
Proof.
  cbv zeta. pose proof (run_ok evs) as H. pose proof (held_were_let_in evs) as L. revert H L. generalize (run evs initial_requests).1. intros s H L.
  destruct (handle_core at_ e s) as [E _]. pose proof (screen_follows_step at_ s e _ (deadline_past at_ s) H) as [F1 F2]. rewrite <- E in F1, F2.
  split_and!; try done.
  - unfold prompting, unlocking. rewrite E. intros [Hp Hu]%orb_false_iff A.
    destruct (sshPrompt (r_waiting s)) eqn:Ep, (sshUnlockRequest (r_waiting s)) eqn:Eu; try done.
    destruct (appears _ _ _ _ _ _ H Ep Eu A) as [M ?]. split; [by apply may_prompt|done].
  - intros m -> A N. apply refused; [done|]. apply not_true_is_false. by rewrite may_prompt.
Qed.

(** *** What is approved is what was shown *)

(** Two views of the same program, key, operation and destination. *)
Definition checked_alike (v v' : prompt_view) : Prop :=
  fingerprint v = fingerprint v' /\ pid v = pid v' /\ processPath v = processPath v' /\ processName v = processName v'
  /\ operation v = operation v' /\ operationLabel v = operationLabel v' /\ hostKey v = hostKey v'
  /\ destinationLabel v = destinationLabel v' /\ forwardedWarning v = forwardedWarning v'.

Lemma num_str_comp p q : (p == q)%Q -> num_str (Fin p) = num_str (Fin q).
Proof. intros H. unfold num_str. by rewrite (Qred_complete _ _ H). Qed.

(** Strictly equal values are shown alike. *)
Lemma strict_eq_alike a b : strict_eq a b = true ->
  text_of a = text_of b /\ floor_or_zero a = floor_or_zero b /\ is_true a = is_true b
  /\ sshAgentOperation a = sshAgentOperation b /\ forall op, sshAgentHostKey op a = sshAgentHostKey op b.
Proof.
  assert (R : a = b -> text_of a = text_of b /\ floor_or_zero a = floor_or_zero b /\ is_true a = is_true b
    /\ sshAgentOperation a = sshAgentOperation b /\ forall op, sshAgentHostKey op a = sshAgentHostKey op b) by by intros ->.
  destruct a as [| |x|x|x|x|x|x], b as [| |y|y|y|y|y|y]; try done; cbn [strict_eq]; intros E; try by apply R.
  - apply R. by destruct x, y.
  - unfold num_eqb in E. destruct x as [|[]|p], y as [|[]|q]; try done; try by apply R.
    apply Qeq_bool_iff in E. split_and!; try done; [apply (num_str_comp p q E)|].
    unfold floor_or_zero. cbn [to_num]. change (num_floor (Fin p)) with (numz (Qfloor p)). by rewrite (Qfloor_comp _ _ E).
  - apply R. f_equal. by apply str_eqb_eq.
  - apply R. f_equal. by apply str_eqb_eq.
Qed.

Lemma visibleText_alike a b : text_of a = text_of b -> visibleText a = visibleText b.
Proof. unfold visibleText. by intros ->. Qed.

Lemma same_request_alike m m' w w' : sshAgentSameRequest m m' = true -> checked_alike (sshAgentPromptView m w) (sshAgentPromptView m' w').
Proof.
  unfold sshAgentSameRequest. destruct (truthy m) eqn:T, (truthy m') eqn:T'; cbn [negb orb]; try done.
  destruct (forallb _ _) eqn:F; cbn [negb]; [|done]. intros _. unfold same_request_fields in F. cbn [forallb] in F.
  rewrite !andb_true_iff in F. destruct F as (F1 & F2 & F3 & F4 & F5 & F6 & F7 & _ & _).
  apply strict_eq_alike in F1, F2, F3, F4, F5, F6, F7. unfold sshAgentPromptView, checked_alike. cbn.
  unfold jor. rewrite T, T'. unfold processNameFromPath, boundedText, boundedPath.
  destruct F1 as (E1 & _), F2 as (_ & E2 & _), F3 as (E3 & _), F4 as (_ & _ & _ & E4 & _), F5 as (E5 & _), F6 as (_ & _ & _ & _ & E6), F7 as (_ & _ & E7 & _).
  rewrite (visibleText_alike _ _ E1), (visibleText_alike _ _ E3), E2, E4, !E6, E7.
  unfold sshAgentOperationLabel, boundedText. rewrite (visibleText_alike _ _ E5). by split_and!.
Qed.

(** The prompt on the screen waits for the id of the request it was promoted from. *)
Definition promotion_pending (w : waiting) : bool := negb (strict_eq (sshPromotedOldId w) JNull).

(** No prompt is answered or withdrawn while it waits for its id and another
    request waits behind it. *)
Definition settled (e : request_event) (w : waiting) : bool :=
  negb (promotion_pending w) || bool_decide (sshPromptQueue w = [])
  || match e with ApproveClicked _ | DenyClicked => false | Message m => negb (message_is m "request_cancelled") | _ => true end.

Fixpoint settled_run (evs : list (moment * request_event)) (s : requests) : bool :=
  match evs with
  | [] => true
  | (at_, e) :: rest => settled e (r_waiting s) && settled_run rest (handle at_ e s).1
  end.

(** The view and the id on the screen are of requests that look alike. *)
Definition shows (rec : list jsval) (p : shown_prompt) : Prop :=
  exists m win, m ∈ rec /\ truthy m = true /\ shown_view p = sshAgentPromptView m win
    /\ (shown_requestId p = JNum (requestId (shown_view p))
        \/ exists m', m' ∈ rec /\ sshAgentSameRequest m m' = true /\ shown_requestId p = message_id m').

Record faithful (rec : list jsval) (w : waiting) : Prop := {
  f_shows : forall p, sshPrompt w = Some p -> shows rec p;
  f_promoted : promotion_pending w = true -> forall p, sshPrompt w = Some p ->
    sshPromotedRaw w ∈ rec /\ truthy (sshPromotedRaw w) = true /\ exists win, p = view_of (sshPromotedRaw w) win;
  f_none : sshPrompt w = None -> promotion_pending w = false
}.

Lemma faithful_nothing rec : faithful rec nothing_waiting.
Proof. by split. Qed.

Lemma shows_more rec rec' p : rec ⊆ rec' -> shows rec p -> shows rec' p.
Proof.
  intros Hr (m & win & Hm & T & E & H). exists m, win. split_and!; try done; [set_solver|].
  destruct H as [?|(m' & ? & ?)]; [by left|]. right. exists m'. set_solver.
Qed.
Lemma faithful_more rec rec' w : rec ⊆ rec' -> faithful rec w -> faithful rec' w.
Proof.
  intros Hr []. split; [eauto using shows_more| |done]. intros P p E. destruct (f_promoted0 P p E) as (? & ? & ?). split_and!; try done. set_solver.
Qed.

Lemma shows_view_of rec m win : m ∈ rec -> truthy m = true -> shows rec (view_of m win).
Proof. intros Hm T. exists m, win. split_and!; try done. by left. Qed.

(** Handlers that keep the prompt and the promotion. *)
Lemma faithful_same rec w w' : sshPrompt w' = sshPrompt w -> sshPromotedOldId w' = sshPromotedOldId w ->
  sshPromotedRaw w' = sshPromotedRaw w -> faithful rec w -> faithful rec w'.
Proof. intros E1 E2 E3 []. split; unfold promotion_pending in *; rewrite ?E1, ?E2, ?E3; done. Qed.

Lemma faithful_put rec w' m win : m ∈ rec -> truthy m = true -> promotion_pending w' = false -> sshPrompt w' = Some (view_of m win) -> faithful rec w'.
Proof. intros Hm T P E. split; rewrite ?E; try done; [intros p [= <-]; by apply shows_view_of|congruence]. Qed.

Lemma faithful_next_prompt at_ rec w : requests_ok rec w -> promotion_pending w = false \/ sshPromptQueue w = [] -> faithful rec (next_prompt at_ w).
Proof.
  intros H P. unfold next_prompt. destruct (sshPromptQueue w) as [|m q] eqn:Eq; [apply faithful_nothing|].
  destruct P as [P|]; [|done]. destruct (truthy m) eqn:T; [|apply faithful_nothing].
  eapply (faithful_put rec); [|done|done|done]. pose proof (ok_known _ _ H) as K. rewrite Eq in K. by apply Forall_cons in K as [? _].
Qed.

Lemma faithful_next_unlock rec w : faithful rec w -> faithful rec (next_unlock w).
Proof.
  intros H. unfold next_unlock. destruct (sshUnlockQueue w) as [|m q]; [apply faithful_nothing|].
  destruct (truthy m); [|apply faithful_nothing]. by apply (faithful_same rec w).
Qed.

Lemma faithful_next at_ rec w : requests_ok rec w -> faithful rec w -> promotion_pending w = false \/ sshPromptQueue w = [] ->
  faithful rec (next_request at_ w).
Proof.
  intros H F P. unfold next_request. destruct (_ && _); [by apply faithful_next_prompt|].
  destruct (_ && _); [by apply faithful_next_unlock|apply faithful_nothing].
Qed.

Lemma faithful_adopt rec m w w' : m ∈ rec -> faithful rec w -> adoptSshPrompt m w = Some w' -> faithful rec w'.
Proof.
  intros Hm [Fs Fp Fn] E. unfold adoptSshPrompt in E. destruct (sshPrompt w) as [p|] eqn:Ep; [|done].
  destruct (negb _ && _) eqn:A; simplify_eq. apply andb_true_iff in A as [P S].
  destruct (Fp P p eq_refl) as (Hr & T & win & ->). split; try done. cbn. intros p' [= <-].
  exists (sshPromotedRaw w), win. split_and!; try done. right. by exists m.
Qed.

Lemma faithful_message at_ rec b m w : requests_ok rec w -> faithful rec w -> (asks m = true -> m ∈ rec) ->
  settled (Message m) w = true -> faithful rec (core_message at_ b m w).1.
Proof.
  intros H F Hm S. unfold core_message. assert (A : asks m = _) by reflexivity. unfold asks in A at 2.
  destruct (message_is m "approval_required").
  - destruct (negb b); [done|]. pose proof (asks_truthy m A) as T. apply Hm in A.
    destruct (adoptSshPrompt m w) as [w'|] eqn:Ea; [by eapply faithful_adopt|]. cbn [fst].
    destruct (sshPrompt w) as [p|] eqn:Ep; cbn [present]; [by apply (faithful_same rec w)|].
    eapply (faithful_put rec); [done|done| |done]. exact (f_none _ _ F Ep).
  - destruct (message_is m "unlock_required").
    + destruct (negb b); [done|]. cbn [fst]. destruct (present _); by apply (faithful_same rec w).
    + destruct (message_is m "request_cancelled") eqn:Ec; [|done]. cbn [fst].
      destruct (match live_id w with Some _ => _ | None => _ end); [|by apply (faithful_same rec w)].
      destruct (_ && _); [done|]. apply faithful_next; [done|done|]. unfold settled in S. rewrite Ec, orb_false_r in S.
      apply orb_true_iff in S as [S|S]; [left; by apply negb_true_iff|right; by apply bool_decide_eq_true in S].
Qed.

Lemma faithful_step at_ rec b d e w : requests_ok rec w -> faithful rec w -> (forall m, e = Message m -> asks m = true -> m ∈ rec) ->
  settled e w = true -> faithful rec (core_step at_ b d e w).1.
Proof.
  intros H F Hm S.
  assert (Q : match e with ApproveClicked _ | DenyClicked => promotion_pending w = false \/ sshPromptQueue w = [] | _ => True end).
  { unfold settled in S. destruct e; try done; rewrite orb_false_r in S;
      (apply orb_true_iff in S as [S|S]; [left; by apply negb_true_iff|right; by apply bool_decide_eq_true in S]). }
  destruct e; try exact F; cbn [core_step].
  - apply faithful_message; eauto.
  - destruct (sshPrompt w); [by apply faithful_next_prompt|done].
  - destruct (sshUnlockRequest w); [by apply faithful_next_unlock|]. destruct (sshPrompt w); [by apply faithful_next_prompt|apply faithful_nothing].
  - apply faithful_nothing.
  - cbn [fst]. destruct (_ && _); [apply faithful_nothing|done].
  - destruct (_ || _) eqn:E; [done|]. apply orb_false_iff in E as [[[_ T%negb_false_iff]%orb_false_iff Ep]%orb_false_iff _].
    pose proof (ok_raw _ _ H T) as Hr. cbn [fst]. split; try done; cbn; intros.
    + simplify_eq. by apply shows_view_of.
    + simplify_eq. split_and!; eauto.
Qed.

Lemma settled_run_app evs1 evs2 s : settled_run (evs1 ++ evs2) s = settled_run evs1 s && settled_run evs2 (run evs1 s).1.
Proof.
  revert s. induction evs1 as [|[at_ e] evs IH]; intros s; [done|]. cbn [app settled_run]. rewrite IH.
  change (run ((at_, e) :: evs) s) with (then_do (handle at_ e) (run evs) s). unfold then_do. destruct (handle at_ e s) as [s1 e1]. cbn [fst]. destruct (run evs s1). by rewrite andb_assoc.
Qed.

Lemma run_faithful evs : settled_run evs initial_requests = true -> faithful (received evs) (r_waiting (run evs initial_requests).1).
Proof.
  induction evs as [|[at_ e] evs IH] using rev_ind; [intros _; apply faithful_nothing|].
  rewrite settled_run_app. intros [S1 S2]%andb_true_iff. pose proof (run_ok evs) as Hok. specialize (IH S1).
  rewrite run_snoc, received_app. destruct (run evs initial_requests) as [s1 e1]. cbn [run settled_run fst] in *. rewrite andb_true_r in S2.
  pose proof (handle_core at_ e s1) as [Hw _]. destruct (handle at_ e s1) as [s2 e2]. cbn [fst] in *. rewrite Hw.
  apply faithful_step; [| | |done].
  - eapply ok_more; [|exact Hok]. set_solver.
  - eapply faithful_more; [|exact IH]. set_solver.
  - intros m -> A. apply elem_of_app. right. by apply received_one.
Qed.

Lemma alike_refl m w w' : checked_alike (sshAgentPromptView m w) (sshAgentPromptView m w').
Proof. by split_and!. Qed.

(** The id on the screen is that of a request that looks like what is shown. *)
Lemma shows_id rec p : shows rec p -> isRequestId (shown_requestId p) = true ->
  exists m, m ∈ rec /\ shown_requestId p = message_id m /\ forall win, checked_alike (shown_view p) (sshAgentPromptView m win).
Proof.
  intros (m & win & Hm & T & Ev & H) V. destruct H as [H|(m' & Hm' & S & Hid)].
  - exists m. split; [done|]. rewrite H, Ev in *. split; [|intros; apply alike_refl].
    pose proof (view_id m win T) as I. unfold valid_ids in I. cbn [List.filter] in I. rewrite V in I.
    destruct (isRequestId (message_id m)); by simplify_eq.
  - exists m'. split_and!; try done. intros win'. rewrite Ev. by apply same_request_alike.
Qed.

Definition approves (l : panel_line) : bool := match l with Approve _ _ => true | _ => false end.

Lemma waiting_lines_deny (f : jsval -> panel_line) q l : (forall id, approves (f id) = false) -> l ∈ waiting_lines f q -> approves l = false.
Proof. intros Hf H. unfold waiting_lines in H. apply list_elem_of_fmap in H as (m & -> & _). apply Hf. Qed.

Lemma only_clicks_approve at_ b d e w l : l ∈ (core_step at_ b d e w).2 ->
  match e with
  | ApproveClicked secs => exists p, sshPrompt w = Some p /\ l = Approve (shown_requestId p) secs
  | _ => approves l = false
  end.
Proof.
  destruct e; cbn [core_step]; try (intros H; apply elem_of_nil in H; done).
  - unfold core_message. repeat case_match; cbn; intros Hl; rewrite ?list_elem_of_singleton in Hl; subst; try done; by apply elem_of_nil in Hl.
  - destruct (sshPrompt w) as [p|]; cbn; [|by intros ?%elem_of_nil]. intros ->%list_elem_of_singleton. by exists p.
  - destruct (sshUnlockRequest w), (sshPrompt w); cbn; (intros ->%list_elem_of_singleton || intros ?%elem_of_nil); done.
  - cbn. rewrite !elem_of_app. intros [H|[H|[H|H]]].
    + destruct (sshPrompt w); [by apply list_elem_of_singleton in H as ->|by apply elem_of_nil in H].
    + by eapply (waiting_lines_deny Deny).
    + destruct (sshUnlockRequest w); [by apply list_elem_of_singleton in H as ->|by apply elem_of_nil in H].
    + by eapply (waiting_lines_deny CancelUnlock).
  - cbn. by intros ->%list_elem_of_singleton.
  - cbn. by intros ->%list_elem_of_singleton.
  - cbn. destruct (_ || _); by intros ?%elem_of_nil.
Qed.

(** C5. What is approved is what was on the screen. In a settled run, a line that
    approves is written only on the user's click, and it names a request the
    companion asked for whose key, program, operation and destination are the
    ones that were shown. *)
Theorem approval_is_what_was_shown evs at_ e line : settled_run evs initial_requests = true ->
  let s := (run evs initial_requests).1 in
  line ∈ lines_written (handle at_ e s).2 ->
  match e with
  | ApproveClicked secs => exists p m, sshPrompt (r_waiting s) = Some p /\ m ∈ received evs
      /\ line = sshAgentApproveLine (message_id m) secs /\ forall win, checked_alike (shown_view p) (sshAgentPromptView m win)
  | _ => exists l, line = line_text l /\ approves l = false
  end.
Proof.
  intros S s. pose proof (run_faithful evs S) as F. fold s in F. destruct (handle_core at_ e s) as [_ ->].
  clearbody s. unfold sent. destruct (channel_open at_); [|by intros ?%elem_of_nil].
  intros [Hl Hn]%elem_of_bfilter. apply list_elem_of_fmap in Hl as (l & -> & Hl). pose proof (only_clicks_approve _ _ _ _ _ _ Hl) as A.
  destruct e; eauto. destruct A as (p & Ep & ->).
  assert (V : isRequestId (shown_requestId p) = true).
  { cbn [line_text] in Hn. unfold sshAgentApproveLine in Hn. by destruct (isRequestId (shown_requestId p)). }
  destruct (shows_id _ _ (f_shows _ _ F p Ep) V) as (m & Hm & E & A). exists p, m. cbn [line_text]. rewrite E. split_and!; try done.
Qed.

(** *** Examples *)

(** A quiet moment [t] milliseconds after the screen was read unlocked. *)
Definition calm (t : Z) (unlocked : bool) : moment := mkMoment (1000 + t) true (jz 300) false 1000 true unlocked.

Definition example_ask (type : string) (id : Z) (key : string) : jsval :=
  obj [("type", JStr (u type)); ("requestId", jz id); ("fingerprint", JStr (u key)); ("pid", jz 42);
       ("processPath", JStr (u "/usr/bin/ssh")); ("operation", JStr (u "ssh-auth")); ("operationDetail", JStr (u "git"));
       ("hostKey", JStr (u "")); ("forwarded", JBool false); ("grantOffered", JBool true)]%string.

(** A request held for the unlock, promoted when the vault opens, released under a new id. *)
Definition example_promotion : list (moment * request_event) :=
  [(calm 0 false, Message (example_ask "unlock_required" 7 "SHA256:a")); (calm 10 true, StatusChanged);
   (calm 20 true, Message (example_ask "approval_required" 9 "SHA256:a"))].

Lemma approval_is_what_was_shown_witness :
  let s := (run example_promotion initial_requests).1 in
  exists p m, sshPrompt (r_waiting s) = Some p /\ m ∈ received example_promotion
    /\ sshAgentApproveLine (jz 9) (jz 0) = sshAgentApproveLine (message_id m) (jz 0)
    /\ forall win, checked_alike (shown_view p) (sshAgentPromptView m win).
Proof.
  apply (approval_is_what_was_shown example_promotion (calm 30 true) (ApproveClicked (jz 0))); [by vm_compute|].
  apply list_elem_of_singleton. by vm_compute.
Defined.

(** A promoted request approved before it is released, with another behind it:
    the one behind goes on the screen, and then takes the id of the first when that
    is released. *)
Definition stale_promotion : list (moment * request_event) :=
  [(calm 0 false, Message (example_ask "unlock_required" 7 "SHA256:a")); (calm 10 true, StatusChanged);
   (calm 20 true, Message (example_ask "approval_required" 8 "SHA256:b")); (calm 30 true, ApproveClicked (jz 0));
   (calm 40 true, Message (example_ask "approval_required" 9 "SHA256:a"))].

(** Outside settled runs the screen and the answer can differ: the screen shows the
    key of request 8, and a click approves request 9, which is for another key. *)
Lemma stale_promotion_differs :
  let s := (run stale_promotion initial_requests).1 in
  option_map (fun p => fingerprint (shown_view p)) (sshPrompt (r_waiting s)) = Some (u "SHA256:b")
  /\ lines_written (approveSshRequest (calm 50 true) (jz 0) s).2 = [sshAgentApproveLine (jz 9) (jz 0)]
  /\ fingerprint (sshAgentPromptView (example_ask "approval_required" 9 "SHA256:a") (jz 300)) = u "SHA256:a".
Proof. by vm_compute. Qed.

Definition locked_screen (t : Z) : moment := mkMoment (1000 + t) true (jz 300) true 1000 true true.

(** A request that waits is put on the screen when the one before it is withdrawn,
    whatever has happened to the screen since. *)
Lemma next_prompt_over_locked_screen :
  let s := (run [(calm 0 true, Message (example_ask "approval_required" 1 "SHA256:a"));
                 (calm 10 true, Message (example_ask "approval_required" 2 "SHA256:b"));
                 (locked_screen 20, Message (obj [("type", JStr (u "request_cancelled")); ("requestId", jz 1)]%string))] initial_requests).1 in
  option_map shown_requestId (sshPrompt (r_waiting s)) = Some (jz 2) /\ sshAgentMayPrompt (locked_screen 20) s = false.
Proof. by vm_compute. Qed.
