(* ===== verification/SshExport.v ===== *)
(** * Exported public keys

    The public keys written to files for Git's SSH signing
    ([src/BitwardenModel.js], "Public-key file projection"): which identities
    are exported, the file names their items' names give, the payload on the
    writer's stdin, and the two commands. The writer, a Node script embedded as
    text, appears as that text and as what it does to the export directory. *)

From stdpp Require Import base list numbers gmap strings.
From S2P Require Import Prelude.
From S2P Require Import JsValue.
From S2P Require Import Json.
From S2P Require Import Regex.
From S2P Require Import Shell.
From S2P Require Import Session.
From S2P Require Import Vault.
From S2P Require Import Runtime.
Local Open Scope nat_scope.
Local Open Scope js_scope.

Definition SSH_EXPORT_SUBDIR : jstr := u "qs-bitwarden-cli/ssh".
Definition sshExportDisplayDir : jstr := u "~/.local/share/" ++ SSH_EXPORT_SUBDIR.

(** ** Names *)

(** [used], by file name. *)
Notation taken := (gmap jstr jstr).

Definition pub_name (base : jstr) : jstr := base ++ u ".pub".
Definition export_base (name : jstr) : jstr :=
  let base := safeAttachmentFileName (JStr name) in if str_eqb base (u "attachment") then u "ssh-key" else base.

Definition sshExportFileName (name itemId : jstr) (used : taken) : jstr * taken :=
  let base := export_base name in
  let candidate := pub_name base in
  let candidate :=
    match used !! candidate with
    | Some other =>
      if str_eqb other itemId then candidate
      else
        let suffix := take 64 (safeAttachmentFileName (JStr itemId)) in
        pub_name (base ++ u "." ++ (if str_eqb suffix [] then u "key" else suffix))
    | None => candidate
    end in
  (candidate, <[candidate := itemId]> used).

(** ** Identities *)

(** [/^(ssh-ed25519|ssh-rsa) [A-Za-z0-9+/=]+(\s|$)/] *)
Definition is_key_unit (c : N) : bool := is_alnum c || (c =? 43)%N || (c =? 47)%N || (c =? 61)%N.
Definition SSH_PUBLIC_KEY_RE : regex :=
  RSeqs [RStart; RAlt (RLit (u "ssh-ed25519")) (RLit (u "ssh-rsa")); RLit (u " "); RPlus (RChar is_key_unit); RAlt RSpace REnd].

Record identity := mkIdentity { itemId : jstr; id_name : jstr; fingerprint : jstr; publicKey : jstr }.

Definition export_identity (v : jsval) : option identity :=
  let publicKey := trim (text_or_empty v.["publicKey"]) in
  if negb (test SSH_PUBLIC_KEY_RE publicKey) then None
  else if includes (u "PRIVATE") publicKey then None
  else
    let itemId := text_or_empty v.["itemId"] in
    if str_eqb itemId [] then None
    else Some (mkIdentity itemId (text_or_empty v.["name"]) (text_or_empty v.["fingerprint"]) publicKey).

Definition sshExportIdentities (identities : jsval) : list identity :=
  match identities with
  | JArr l => omap (fun v => export_identity (jor v (JObj []))) l
  | _ => []
  end.

(** The loop that names them, with the names taken so far. *)
Fixpoint named (ids : list identity) (used : taken) : list (jstr * jstr) :=
  match ids with
  | [] => []
  | i :: t =>
    let '(fileName, used) := sshExportFileName (id_name i) (itemId i) used in
    (fileName, publicKey i) :: named t used
  end.

Definition export_entries (identities : jsval) : list (jstr * jstr) := named (sshExportIdentities identities) ∅.

Definition entry_value (e : jstr * jstr) : jsval :=
  JObj (fields [("fileName", JStr (fst e)); ("publicKey", JStr (snd e))]%string).

Definition sshExportPayload (identities : jsval) : jstr := json_text (JArr (map entry_value (export_entries identities))).

(** ** The commands *)

Definition SSH_EXPORT_EXIT_NO_HOME : Z := 3.
Definition SSH_EXPORT_EXIT_UNSAFE_DIR : Z := 5.
Definition SSH_EXPORT_EXIT_WRITE : Z := 7.

Definition sshExportDirPrelude : jstr :=
  uq "__base=`${XDG_DATA_HOME:-}`; " ++ uq "if [ -z `$__base` ]; then "
    ++ uq "  [ -n `${HOME:-}` ] || exit " ++ dec_Z SSH_EXPORT_EXIT_NO_HOME ++ u "; "
    ++ uq "  __base=`$HOME/.local/share`; " ++ u "fi; " ++ uq "case `$__base` in /*) ;; *) exit "
    ++ dec_Z SSH_EXPORT_EXIT_NO_HOME ++ u ";; esac; " ++ uq "__dir=`$__base/" ++ SSH_EXPORT_SUBDIR ++ uq "`; "
    ++ uq "for __own in `$(dirname `$__dir`)` `$__dir`; do " ++ uq "  if [ -L `$__own` ]; then exit "
    ++ dec_Z SSH_EXPORT_EXIT_UNSAFE_DIR ++ u "; fi; " ++ u "done; ".

Definition SSH_EXPORT_WRITE_SCRIPT : jstr :=
  join newline [
    uq "const fs = require(`fs`), crypto = require(`crypto`);";
    u "const dir = process.argv[1];";
    u "let entries;";
    uq "try { entries = JSON.parse(fs.readFileSync(0, `utf8`)); } catch (e) { process.exit(1); }";
    u "if (!Array.isArray(entries)) process.exit(1);";
    u "for (const e of entries) {";
    u "  const f = e && e.fileName, k = e && e.publicKey;";
    uq "  if (typeof f !== `string` || typeof k !== `string`) process.exit(1);";
    uq "  if (f === `` || f === `.` || f === `..` || /[\/\0]/.test(f)) process.exit(1);";
    u "}";
    u "const keep = new Set();";
    u "for (const e of entries) {";
    uq "  const tmp = dir + `/.export.` + crypto.randomBytes(9).toString(`hex`);";
    u "  try {";
    uq "    const fd = fs.openSync(tmp, `wx`, 0o600);";
    uq "    try { fs.fchmodSync(fd, 0o600); fs.writeFileSync(fd, e.publicKey + `\n`); }";
    u "    finally { fs.closeSync(fd); }";
    uq "    fs.renameSync(tmp, dir + `/` + e.fileName);";
    u "  } catch (err) { try { fs.unlinkSync(tmp); } catch (ignored) {} process.exit(1); }";
    u "  keep.add(e.fileName);";
    u "}";
    u "for (const name of fs.readdirSync(dir)) {";
    uq "  const stale = name.charAt(0) !== `.` && name.endsWith(`.pub`) && !keep.has(name);";
    uq "  if (stale || name.startsWith(`.export.`)) {";
    uq "    try { fs.unlinkSync(dir + `/` + name); } catch (ignored) {}";
    u "  }";
    u "}"].

Definition sshExportCommand : list jstr :=
  let script := sshExportDirPrelude ++ uq "mkdir -p -m 700 `$(dirname `$__dir`)` || exit "
    ++ dec_Z SSH_EXPORT_EXIT_UNSAFE_DIR ++ u "; "
    ++ uq "[ -d `$(dirname `$__dir`)` ] && [ ! -L `$(dirname `$__dir`)` ] || exit "
    ++ dec_Z SSH_EXPORT_EXIT_UNSAFE_DIR ++ u "; " ++ uq "if [ -e `$__dir` ]; then "
    ++ uq "  [ -d `$__dir` ] || exit " ++ dec_Z SSH_EXPORT_EXIT_UNSAFE_DIR ++ u "; "
    ++ uq "else (umask 077 && mkdir -- `$__dir`) || exit " ++ dec_Z SSH_EXPORT_EXIT_UNSAFE_DIR ++ u "; fi; "
    ++ uq "chmod 700 -- `$__dir` || exit " ++ dec_Z SSH_EXPORT_EXIT_UNSAFE_DIR ++ u "; " ++ u "node -e "
    ++ shellQuote (JStr SSH_EXPORT_WRITE_SCRIPT) ++ uq " `$__dir` || exit " ++ dec_Z SSH_EXPORT_EXIT_WRITE
    ++ u "; " ++ u "echo exported" in
  bash (cappedScript script (Some MAX_STDERR_BYTES)).

Definition sshExportClearCommand : list jstr :=
  let script := sshExportDirPrelude ++ uq "[ -d `$__dir` ] || { echo cleared; exit 0; }; "
    ++ uq "find `$__dir` -mindepth 1 -maxdepth 1 \( -name '[!.]*.pub' -o -name '.export.*' \) "
    ++ u "! -type d -delete 2>/dev/null; " ++ uq "rmdir -- `$__dir` 2>/dev/null; " ++ u "echo cleared" in
  bash (cappedScript script (Some MAX_STDERR_BYTES)).

Definition ssh_export_failures : list (Z * (jstr * jstr)) :=
  [(SSH_EXPORT_EXIT_NO_HOME, (u "NO_HOME", u "No data directory is set, so public key files cannot be written."));
   (SSH_EXPORT_EXIT_UNSAFE_DIR, (u "UNSAFE_DIR", sshExportDisplayDir ++ u " is not a directory this plugin will write to. "
      ++ u "Remove or rename whatever is at that path."))].

Definition ssh_export_success (out : jstr) : option jsval :=
  if existsb (str_eqb out) [u "exported"; u "cleared"; []] then Some (result true (u "OK") []) else None.

Definition parseSshExportResult (exitCode stdout : jsval) : jsval :=
  parseExitCodeResult exitCode stdout ssh_export_success ssh_export_failures
    (u "Could not write public key files to " ++ sshExportDisplayDir ++ u ".").

(** ** The writer *)

(** What a directory holds under a name. *)
Inductive node := Plain (content : jstr) | Link | Folder.
Notation directory := (gmap jstr node).

(** Text on its way to the file system is UTF-8: a surrogate that is not one of
    a pair becomes U+FFFD. *)
Fixpoint well_formed (s : jstr) : jstr :=
  match s with
  | [] => []
  | c :: t =>
    if is_high c
    then match t with
         | d :: t' => if is_low d then c :: d :: well_formed t' else 65533%N :: well_formed t
         | [] => [65533%N]
         end
    else if is_low c then 65533%N :: well_formed t else c :: well_formed t
  end.

(** The first loop: one entry's two texts, or none when it is refused. *)
Definition read_entry (e : jsval) : option (jstr * jstr) :=
  match jand e e.["fileName"], jand e e.["publicKey"] with
  | JStr f, JStr k =>
    if existsb (str_eqb f) [[]; u "."; u ".."] || existsb (fun c => (c =? 47)%N || (c =? 0)%N) f then None else Some (f, k)
  | _, _ => None
  end.

(** The second: [write_ok] says whether the file of that name can be written
    and renamed; a folder in its place cannot be replaced. *)
Fixpoint write_entries (write_ok : jstr -> bool) (es : list (jstr * jstr)) (dir : directory) : directory * bool :=
  match es with
  | [] => (dir, true)
  | (f, k) :: t =>
    let name := well_formed f in
    match dir !! name with
    | Some Folder => (dir, false)
    | _ => if write_ok name then write_entries write_ok t (<[name := Plain (well_formed (k ++ newline))]> dir) else (dir, false)
    end
  end.

Definition ends_with (suffix s : jstr) : bool := str_eqb (drop (length s - length suffix) s) suffix.

(** What the third loop removes, folders apart. *)
Definition pruned (keep : list jstr) (name : jstr) : bool :=
  negb (match name with c :: _ => (c =? 46)%N | [] => false end) && ends_with (u ".pub") name && negb (existsb (str_eqb name) keep)
  || starts_with (u ".export.") name.

Definition survives (keep : list jstr) (unlink_ok : jstr -> bool) (e : jstr * node) : bool :=
  negb (pruned keep (fst e) && unlink_ok (fst e)) || match snd e with Folder => true | _ => false end.

Definition prune (keep : list jstr) (unlink_ok : jstr -> bool) (dir : directory) : directory :=
  filter (fun e => survives keep unlink_ok e = true) dir.

(** The script, on its stdin and the directory: what it leaves and its exit code. *)
Definition export_script (write_ok unlink_ok : jstr -> bool) (stdin : jstr) (dir : directory) : directory * Z :=
  match json_parse stdin with
  | Some (JArr l) =>
    match mapM read_entry l with
    | Some es =>
      let '(dir, done_) := write_entries write_ok es dir in
      if done_ then (prune (map fst es) unlink_ok dir, 0%Z) else (dir, 1%Z)
    | None => (dir, 1%Z)
    end
  | _ => (dir, 1%Z)
  end.

(** ** Specifications *)

(** A key file's name: one entry of its directory, not hidden, ending in .pub. *)
Definition key_file_name (f : jstr) : Prop :=
  (exists base, f = pub_name base /\ base <> [])
  /\ Forall (fun c => is_control c = false /\ is_separator c = false) f
  /\ (forall c t, f = c :: t -> leading_junk c = false).

(** A public key's text: the two types and base64 first, no private key. *)
Definition public_key_text (k : jstr) : Prop := test SSH_PUBLIC_KEY_RE k = true /\ includes (u "PRIVATE") k = false.

(** The content the last entry of that name has. *)
Definition exported (es : list (jstr * jstr)) (name : jstr) : option jstr :=
  snd <$> find_first (fun e => str_eqb (fst e) name) (rev es).

(** Entries that can be written under their own names. *)
Definition writable (write_ok : jstr -> bool) (dir : directory) (e : jstr * jstr) : Prop :=
  write_ok (fst e) = true /\ dir !! fst e <> Some Folder /\ well_formed (fst e) = fst e.

(** Identities and a directory for the examples. *)
Definition key_identity (id name : string) (key : jstr) : jsval :=
  obj [("itemId", JStr (u id)); ("name", JStr (u name)); ("fingerprint", JStr []); ("publicKey", JStr key)]%string.
Definition example_identities : jsval :=
  JArr [key_identity "a" "work" (u "ssh-ed25519 AAAA"); key_identity "b" "../home" (u "ssh-rsa BBBB me@home")].
Definition example_directory : directory := <[u "stale.pub" := Plain (u "ssh-rsa old")]> (<[u "notes.txt" := Plain []]> ∅).
Definition colliding_identities : jsval :=
  JArr [key_identity "a" "x.b" (u "ssh-rsa AA"); key_identity "c" "x" (u "ssh-rsa BB"); key_identity "b" "x" (u "ssh-rsa CC")].
Definition cut_identities : jsval :=
  JArr [obj [("itemId", JStr (u "a")); ("name", JStr (replicate 127 97%N ++ [55357; 56596]%N)); ("publicKey", JStr (u "ssh-rsa AA"))]%string].

(** ** Lemmas *)

Lemma export_base_ok name : inert_name (export_base name).
Proof.
  unfold export_base. case_match; [|apply safe_name_ok]. replace (u "ssh-key") with [115; 115; 104; 45; 107; 101; 121]%N by by vm_compute.
  split; [done|]. split; [apply Nat.leb_le; by vm_compute|]. split; [by repeat constructor|]. by intros ? ? [= <- _].
Qed.

Lemma pub_name_ok base : base <> [] -> Forall (fun c => is_control c = false /\ is_separator c = false) base ->
  (forall c t, base = c :: t -> leading_junk c = false) -> key_file_name (pub_name base).
Proof.
  intros Hne Hu Hl. split; [by exists base|]. unfold pub_name. split.
  - apply Forall_app. split; [done|]. replace (u ".pub") with [46; 112; 117; 98]%N by by vm_compute. by repeat constructor.
  - destruct base as [|c0 t0]; [done|]. intros c t [= <- _]. by eapply Hl.
Qed.

Lemma sshExportFileName_ok name itemId used : key_file_name (fst (sshExportFileName name itemId used)).
Proof.
  destruct (export_base_ok name) as (Hne & _ & Hu & Hl).
  assert (forall suffix, Forall (fun c => is_control c = false /\ is_separator c = false) suffix ->
    key_file_name (pub_name (export_base name ++ u "." ++ suffix))) as G.
  { intros suffix Hs. apply pub_name_ok.
    - by destruct (export_base name).
    - rewrite !Forall_app. split; [done|]. split; [|done]. replace (u ".") with [46]%N by by vm_compute. by repeat constructor.
    - destruct (export_base name) as [|c0 t0]; [done|]. intros c t [= <- _]. by eapply Hl. }
  unfold sshExportFileName. cbn [fst]. destruct (used !! _); [|by apply pub_name_ok].
  destruct (str_eqb _ itemId); [by apply pub_name_ok|]. apply G. destruct (str_eqb _ []).
  - replace (u "key") with [107; 101; 121]%N by by vm_compute. by repeat constructor.
  - apply Forall_take. by destruct (safe_name_ok (JStr itemId)) as (_ & _ & ? & _).
Qed.

Lemma named_spec ids : forall used, Forall (fun i => public_key_text (publicKey i)) ids ->
  Forall (fun e => key_file_name (fst e) /\ public_key_text (snd e)) (named ids used).
Proof.
  induction ids as [|i ids IH]; intros used H; [constructor|]. apply Forall_cons in H as [Hi H]. cbn [named].
  pose proof (sshExportFileName_ok (id_name i) (itemId i) used) as Hn.
  destruct (sshExportFileName _ _ used) as [f used']. constructor; [by split|by apply IH].
Qed.

Lemma sshExportIdentities_keys ids : Forall (fun i => public_key_text (publicKey i)) (sshExportIdentities ids).
Proof.
  destruct ids; try constructor. cbn [sshExportIdentities]. apply Forall_forall. intros i (v & _ & H)%list_elem_of_omap.
  revert H. unfold export_identity. destruct (test _ _) eqn:E1; [|done]. destruct (includes _ _) eqn:E2; [done|].
  destruct (str_eqb _ []); [done|]. cbn [negb]. intros [= <-]. by split.
Qed.

Lemma export_entries_ok ids : Forall (fun e => key_file_name (fst e) /\ public_key_text (snd e)) (export_entries ids).
Proof. apply named_spec, sshExportIdentities_keys. Qed.

(** Different bases are never renamed. *)
Lemma named_fst ids : forall used, NoDup (map (fun i => export_base (id_name i)) ids) ->
  (forall i, i ∈ ids -> used !! pub_name (export_base (id_name i)) = None) ->
  map fst (named ids used) = map (fun i => pub_name (export_base (id_name i))) ids.
Proof.
  induction ids as [|i ids IH]; intros used Hn Hu; [done|]. cbn [map] in Hn. apply NoDup_cons in Hn as [Hi Hn]. cbn [named].
  unfold sshExportFileName. rewrite Hu by by left. cbn [map fst]. f_equal. apply IH; [done|]. intros j Hj.
  rewrite lookup_insert_ne; [apply Hu; by right|]. unfold pub_name. intros E. apply app_inv_tail in E. apply Hi.
  apply list_elem_of_fmap. by exists j.
Qed.

Lemma find_first_app {A} (p : A -> bool) l m :
  find_first p (l ++ m) = match find_first p l with Some x => Some x | None => find_first p m end.
Proof. induction l as [|x l IH]; [done|]. simpl. by destruct (p x). Qed.

Lemma exported_cons f k es n : exported ((f, k) :: es) n =
  match exported es n with Some c => Some c | None => if str_eqb f n then Some k else None end.
Proof.
  unfold exported. cbn [rev]. rewrite find_first_app. destruct (find_first _ (rev es)); [done|]. cbn [find_first fst].
  by destruct (str_eqb f n).
Qed.

Lemma exported_in es n k : exported es n = Some k -> n ∈ map fst es.
Proof.
  unfold exported. destruct (find_first _ _) as [[f k']|] eqn:E; [|done]. intros [= <-].
  apply find_first_some in E as [E Hf]. apply str_eqb_eq in Hf as <-. apply list_elem_of_fmap. exists (f, k'). split; [done|].
  rewrite list_elem_of_In, <- in_rev, <- list_elem_of_In in E. done.
Qed.

Lemma not_exported es n : exported es n = None -> existsb (str_eqb n) (map fst es) = false.
Proof.
  intros H. apply existsb_false. intros f Hf. apply str_eqb_neq. intros ->. apply list_elem_of_fmap in Hf as ([f' k] & Ef & Hin). simpl in Ef. subst f'.
  unfold exported in H. destruct (find_first _ _) eqn:E; [done|]. apply find_first_none in E. rewrite Forall_forall in E.
  rewrite <- rev_involutive, list_elem_of_In, <- in_rev, <- list_elem_of_In in Hin. apply E in Hin. cbn [fst] in Hin. by rewrite str_eqb_refl in Hin.
Qed.

Lemma write_entries_spec write_ok es : forall dir, Forall (writable write_ok dir) es ->
  exists dir', write_entries write_ok es dir = (dir', true) /\
    forall n, dir' !! n = match exported es n with Some k => Some (Plain (well_formed (k ++ newline))) | None => dir !! n end.
Proof.
  induction es as [|[f k] es IH]; intros dir H; [by exists dir|]. apply Forall_cons in H as [(Hw & Hd & Hf) H]. cbn [fst] in *.
  cbn [write_entries]. rewrite Hf, Hw.
  destruct (IH (<[f := Plain (well_formed (k ++ newline))]> dir)) as (dir' & E & Hl).
  { eapply Forall_impl; [exact H|]. intros [g l] (Hw' & Hd' & Hf'). split; [done|]. split; [|done]. cbn [fst] in *.
    destruct (decide (f = g)) as [->|Hne]; [by rewrite lookup_insert_eq|by rewrite lookup_insert_ne]. }
  exists dir'. split; [destruct (dir !! f) as [[]|]; done|]. intros n. rewrite Hl, exported_cons. destruct (exported es n); [done|].
  destruct (str_eqb f n) eqn:En; [apply str_eqb_eq in En as ->; by rewrite lookup_insert_eq|].
  apply str_eqb_neq in En. by rewrite lookup_insert_ne.
Qed.

Lemma export_entry_plain e : plain (entry_value e).
Proof.
  apply plain_obj; [|by repeat constructor].
  unfold canonical, fields. cbn [map fold_left fst snd].
  rewrite (obj_set_fresh []) by by vm_compute. by vm_compute.
Qed.

Lemma payload_reads ids : json_parse (sshExportPayload ids) = Some (JArr (map entry_value (export_entries ids))).
Proof.
  unfold sshExportPayload. assert (plain (JArr (map entry_value (export_entries ids)))) as H.
  { apply plain_arr, Forall_map, Forall_true. exact export_entry_plain. }
  rewrite (json_text_plain _ H). by apply json_roundtrip.
Qed.

Lemma read_entry_value f k : key_file_name f -> read_entry (entry_value (f, k)) = Some (f, k).
Proof.
  intros ((base & E & Hb) & Hu & Hl). unfold read_entry, entry_value, jand. cbn [truthy fst snd]. jfields.
  assert (existsb (fun c => (c =? 47)%N || (c =? 0)%N) f = false) as ->.
  { apply existsb_false. intros c Hc. rewrite Forall_forall in Hu. destruct (Hu c Hc) as [H1 H2].
    destruct (N.eqb_spec c 47) as [->|]; [by vm_compute in H2|]. by destruct (N.eqb_spec c 0) as [->|]; [vm_compute in H1|]. }
  assert (existsb (str_eqb f) [[]; u "."; u ".."] = false) as ->; [|done].
  apply existsb_false. intros w Hw. apply str_eqb_neq. intros ->. destruct w as [|c t]; [by destruct base|].
  specialize (Hl c t eq_refl). rewrite !elem_of_cons, elem_of_nil in Hw.
  destruct Hw as [Hw|[Hw|[Hw|[]]]]; [done| |]; vm_compute in Hw; injection Hw as -> ->; by vm_compute in Hl.
Qed.

Lemma read_entries es : Forall (fun e => key_file_name (fst e)) es -> mapM read_entry (map entry_value es) = Some es.
Proof. induction 1 as [|[f k] es Hf _ IH]; [done|]. cbn [map mapM]. rewrite (read_entry_value f k Hf). cbn [mbind option_bind]. by rewrite IH. Qed.

(** ** Properties *)

(** What is exported is public and cannot land elsewhere: every file name
    is one entry of the directory, not hidden and ending in .pub, whatever the
    vault calls its items, every text starts as an OpenSSH public key and names
    no private one, and items whose names differ once made safe get files of
    their own. *)
Theorem sshExportPayload_safe identities :
  json_parse (sshExportPayload identities) = Some (JArr (map entry_value (export_entries identities)))
  /\ Forall (fun e => key_file_name (fst e) /\ public_key_text (snd e)) (export_entries identities)
  /\ (NoDup (map (fun i => export_base (id_name i)) (sshExportIdentities identities)) -> NoDup (map fst (export_entries identities))).
Proof.
  split; [apply payload_reads|]. split; [apply export_entries_ok|]. intros H. unfold export_entries.
  rewrite named_fst; [|done|intros; by rewrite lookup_empty].
  assert (map (fun i => pub_name (export_base (id_name i))) (sshExportIdentities identities)
    = map pub_name (map (fun i => export_base (id_name i)) (sshExportIdentities identities))) as -> by by rewrite map_map.
  apply (NoDup_fmap_2_strong pub_name); [|done]. intros x y _ _ E. by apply app_inv_tail in E.
Qed.

(** An export that can write its files leaves exactly them: each holds the
    key of the last entry of its name, other visible .pub files and temporary
    files of earlier runs are gone, and every other entry, folders included, is
    as it was. *)
Theorem ssh_export_effect identities write_ok dir name
    (Hw : Forall (writable write_ok dir) (export_entries identities)) :
  let '(dir', code) := export_script write_ok (fun _ => true) (sshExportPayload identities) dir in
  code = 0%Z /\
  dir' !! name =
    match exported (export_entries identities) name with
    | Some k => Some (Plain (well_formed (k ++ newline)))
    | None => if pruned [] name then match dir !! name with Some Folder => Some Folder | _ => None end else dir !! name
    end.
Proof.
  unfold export_script. rewrite payload_reads. pose proof (export_entries_ok identities) as Hok.
  rewrite read_entries by (eapply Forall_impl; [exact Hok|]; by intros e [? _]).
  destruct (write_entries_spec write_ok _ dir Hw) as (dir1 & -> & Hl). split; [done|].
  unfold prune. rewrite map_lookup_filter, Hl. destruct (exported _ name) as [k|] eqn:E.
  - cbn [mbind option_bind]. rewrite option_guard_True; [done|]. unfold survives. cbn [fst snd].
    assert (pruned (map fst (export_entries identities)) name = false) as ->; [|done].
    apply exported_in in E. apply orb_false_iff. split.
    + apply andb_false_iff. right. apply negb_false_iff, existsb_exists. exists name. split; [by apply list_elem_of_In|apply str_eqb_refl].
    + apply list_elem_of_fmap in E as ([f k'] & -> & Hin). rewrite Forall_forall in Hok. destruct (Hok _ Hin) as [(_ & _ & Hlead) _].
      cbn [fst] in *. destruct f as [|c t]; [done|]. specialize (Hlead c t eq_refl).
      replace (u ".export.") with (46%N :: drop 1 (u ".export.")) by by vm_compute. cbn [starts_with].
      destruct (N.eqb_spec 46 c) as [<-|]; [by vm_compute in Hlead|done].
  - apply not_exported in E. assert (pruned (map fst (export_entries identities)) name = pruned [] name) as Hp.
    { unfold pruned. by rewrite E. }
    destruct (dir !! name) as [x|]; cbn [mbind option_bind].
    + assert (survives (map fst (export_entries identities)) (fun _ => true) (name, x)
        = negb (pruned [] name) || match x with Folder => true | _ => false end) as Hs by (unfold survives; cbn [fst snd]; by rewrite Hp, andb_true_r).
      destruct (pruned [] name); [destruct x|]; (rewrite option_guard_True by by rewrite Hs) || (rewrite option_guard_False by (rewrite Hs; done)); done.
    + by destruct (pruned [] name).
Qed.

Lemma sshExportPayload_safe_witness : NoDup (map fst (export_entries example_identities)).
Proof.
  destruct (sshExportPayload_safe example_identities) as (_ & _ & H). apply H.
  apply (bool_decide_unpack _). vm_compute. exact I.
Defined.

Lemma ssh_export_effect_witness :
  fst (export_script (fun _ => true) (fun _ => true) (sshExportPayload example_identities) example_directory) !! u "stale.pub" = None.
Proof.
  pose proof (ssh_export_effect example_identities (fun _ => true) example_directory (u "stale.pub")) as H.
  destruct (export_script _ _ _ _) as [dir' code]. cbn [fst]. destruct H as [_ H]; [|rewrite H; vm_compute; reflexivity].
  apply Forall_forall. intros [f k] Hin. split; [reflexivity|].
  assert (export_entries example_identities = [(u "work.pub", u "ssh-ed25519 AAAA"); (u "home.pub", u "ssh-rsa BBBB me@home")]) as E by (vm_compute; reflexivity).
  rewrite E in Hin. rewrite !elem_of_cons, elem_of_nil in Hin.
  destruct Hin as [[= -> ->]|[[= -> ->]|[]]]; split; [vm_compute; discriminate|vm_compute; reflexivity|vm_compute; discriminate|vm_compute; reflexivity].
Defined.

(** A name that is free may still be the one a duplicate gets from its item's
    id: the later entry overwrites the earlier item's file. *)
Theorem exported_names_collide :
  export_entries colliding_identities = [(u "x.b.pub", u "ssh-rsa AA"); (u "x.pub", u "ssh-rsa BB"); (u "x.b.pub", u "ssh-rsa CC")].
Proof. by vm_compute. Qed.

(** A name cut inside a surrogate pair: its file is written and then removed by
    the same run, which still reports success. *)
Theorem cut_name_is_pruned :
  let '(dir', code) := export_script (fun _ => true) (fun _ => true) (sshExportPayload cut_identities) ∅ in
  code = 0%Z /\ dir' = ∅ /\ length (export_entries cut_identities) = 1.
Proof. vm_compute. split; [done|]. split; done. Qed.

(** More lines than one pass the check of the public form. *)
Theorem two_lines_exported :
  map publicKey (sshExportIdentities (JArr [key_identity "a" "x" (u "ssh-rsa AA" ++ newline ++ u "second line")]))
  = [u "ssh-rsa AA" ++ newline ++ u "second line"].
Proof. by vm_compute. Qed.
