(* ===== verification/SshLoads.v ===== *)
(** * Loading keys into the agent

    How the panel feeds the SSH agent companion and takes its keys away again
    ([src/Service.qml], "Key loading" and what it calls of the item list and of
    the helper's process). A load is a window on the companion's channel: a line
    that begins it with an epoch and a nonce, the shared vault read that sends the
    keys, and a line that ends it. The vault's events, the companion's messages,
    the read's exit and the timers all move it; here they are put together over
    the functions of [SshAgent] and [SshApproval].

    The panel's own counters (epochs, vault generations, failures) are small and
    not wrapped; what the companion's messages put into an int property is. *)

From stdpp Require Import base list numbers strings sets.
From S2P Require Import Prelude.
From S2P Require Import JsValue.
From S2P Require Import Json.
From S2P Require Import SshAgent.
From S2P Require Import SshApproval.
From S2P Require Import Handlers.
From S2P Require Import SshExport.
Local Open Scope Z_scope.
Local Open Scope js_scope.
Local Open Scope handler_scope.

(** ** State *)

Record load_window := mkLoad {
  sshAgentEpoch : Z;
  sshAgentLoadId : jstr;
  sshAgentLoadActive : bool;
  sshAgentNextLoadId : jstr;
  load_id_running : bool
}.

(** The shared read of the item list; [items_epoch] is the entry of readEpochs. *)
Record list_read := mkList {
  list_running : bool;
  listAgentBranchActive : bool;
  listRetriedWithoutAgent : bool;
  listReadEarly : bool;
  items_epoch : option Z
}.

(** What the companion holds, as far as it has said. *)
Record companion := mkCompanion {
  sshAgentKeyCount : num;
  sshAgentKeysLoadedAt : Z;
  sshPendingPublicKeys : list jsval;
  sshPendingPublicEpoch : jsval;
  sshAgentLoadedForVaultEpoch : Z;
  sshAgentLoadFailStreak : Z
}.

Record helper_process := mkHelper {
  helper_running : bool;
  stdinEnabled : bool;
  gate : bool;
  terminate_timer : bool;
  lock_ack_timer : bool;
  startup_timer : bool
}.

Inductive vault_status := checking | unauthenticated | locked | unlocked.

#[export] Instance vault_status_eq_dec : EqDecision vault_status.
Proof. solve_decision. Defined.

Record loads := mkLoads {
  l_window : load_window;
  l_list : list_read;
  l_companion : companion;
  l_helper : helper_process;
  status : vault_status;
  vaultEpoch : Z
}.

Definition initial_loads : loads :=
  mkLoads (mkLoad 0 [] false [] false) (mkList false false false false None) (mkCompanion (numz 0) 0 [] (jz (-1)) (-1) 0)
    (mkHelper false true false false false false) checking 0.

(** What the handlers read of the rest of the panel. *)
Record setting := mkSetting {
  clock : Z;
  sshAgentEnabled : bool;
  sshAgentUnlockOnDemand : bool;
  has_session : bool;
  list_blocked : bool;
  export_running : bool;
  clear_running : bool
}.

(** A line on the channel is kept apart from whether it was written. *)
Inductive load_effect :=
| Begin (epoch : Z) (id : jstr) (on_channel : bool)
| End (epoch : Z) (success : bool) (on_channel : bool)
| Line (text : jstr)
| Export (payload : jstr)
| ClearExport
| StartListRead (agentBranch : bool)
| StopListRead
| ListBlocked
| AbandonSyncReload
| ShowItems
| ListFailed (report : bool).

Definition load_line (e : load_effect) : option jstr :=
  match e with
  | Begin epoch id true => Some (sshAgentLoadBeginLine (jz epoch) (JStr id))
  | End epoch success true => Some (sshAgentLoadEndLine (jz epoch) (JBool success))
  | Line t => Some t
  | _ => None
  end.

Notation load_act := (handler loads load_effect).

Definition set_load (f : load_window -> load_window) (s : loads) : loads :=
  mkLoads (f (l_window s)) (l_list s) (l_companion s) (l_helper s) (status s) (vaultEpoch s).
Definition set_list (f : list_read -> list_read) (s : loads) : loads :=
  mkLoads (l_window s) (f (l_list s)) (l_companion s) (l_helper s) (status s) (vaultEpoch s).
Definition set_companion (f : companion -> companion) (s : loads) : loads :=
  mkLoads (l_window s) (l_list s) (f (l_companion s)) (l_helper s) (status s) (vaultEpoch s).
Definition set_helper (f : helper_process -> helper_process) (s : loads) : loads :=
  mkLoads (l_window s) (l_list s) (l_companion s) (f (l_helper s)) (status s) (vaultEpoch s).
Definition set_vault (st : vault_status) (epoch : Z) (s : loads) : loads :=
  mkLoads (l_window s) (l_list s) (l_companion s) (l_helper s) st epoch.

Definition set_keyCount (n : num) (c : companion) : companion :=
  mkCompanion n (sshAgentKeysLoadedAt c) (sshPendingPublicKeys c) (sshPendingPublicEpoch c) (sshAgentLoadedForVaultEpoch c) (sshAgentLoadFailStreak c).
Definition set_loadedAt (t : Z) (c : companion) : companion :=
  mkCompanion (sshAgentKeyCount c) t (sshPendingPublicKeys c) (sshPendingPublicEpoch c) (sshAgentLoadedForVaultEpoch c) (sshAgentLoadFailStreak c).
Definition set_pending (keys : list jsval) (epoch : jsval) (c : companion) : companion :=
  mkCompanion (sshAgentKeyCount c) (sshAgentKeysLoadedAt c) keys epoch (sshAgentLoadedForVaultEpoch c) (sshAgentLoadFailStreak c).
Definition set_loadedFor (e : Z) (c : companion) : companion :=
  mkCompanion (sshAgentKeyCount c) (sshAgentKeysLoadedAt c) (sshPendingPublicKeys c) (sshPendingPublicEpoch c) e (sshAgentLoadFailStreak c).
Definition set_streak (n : Z) (c : companion) : companion :=
  mkCompanion (sshAgentKeyCount c) (sshAgentKeysLoadedAt c) (sshPendingPublicKeys c) (sshPendingPublicEpoch c) (sshAgentLoadedForVaultEpoch c) n.

Definition set_running (b : bool) (h : helper_process) : helper_process :=
  mkHelper b (stdinEnabled h) (gate h) (terminate_timer h) (lock_ack_timer h) (startup_timer h).
Definition set_stdin (b : bool) (h : helper_process) : helper_process :=
  mkHelper (helper_running h) b (gate h) (terminate_timer h) (lock_ack_timer h) (startup_timer h).
Definition set_gate (b : bool) (h : helper_process) : helper_process :=
  mkHelper (helper_running h) (stdinEnabled h) b (terminate_timer h) (lock_ack_timer h) (startup_timer h).
Definition set_terminate (b : bool) (h : helper_process) : helper_process :=
  mkHelper (helper_running h) (stdinEnabled h) (gate h) b (lock_ack_timer h) (startup_timer h).
Definition set_ack (b : bool) (h : helper_process) : helper_process :=
  mkHelper (helper_running h) (stdinEnabled h) (gate h) (terminate_timer h) b (startup_timer h).
Definition set_startup (b : bool) (h : helper_process) : helper_process :=
  mkHelper (helper_running h) (stdinEnabled h) (gate h) (terminate_timer h) (lock_ack_timer h) b.

Definition set_listRunning (b : bool) (l : list_read) : list_read :=
  mkList b (listAgentBranchActive l) (listRetriedWithoutAgent l) (listReadEarly l) (items_epoch l).
Definition set_branch (b : bool) (l : list_read) : list_read :=
  mkList (list_running l) b (listRetriedWithoutAgent l) (listReadEarly l) (items_epoch l).
Definition set_retried (b : bool) (l : list_read) : list_read :=
  mkList (list_running l) (listAgentBranchActive l) b (listReadEarly l) (items_epoch l).
Definition set_early (b : bool) (l : list_read) : list_read :=
  mkList (list_running l) (listAgentBranchActive l) (listRetriedWithoutAgent l) b (items_epoch l).
Definition set_itemsEpoch (e : option Z) (l : list_read) : list_read :=
  mkList (list_running l) (listAgentBranchActive l) (listRetriedWithoutAgent l) (listReadEarly l) e.

(** An int property takes a number as a signed 32-bit word. *)
Definition int_property (n : num) : num := numz (num_int32 n).

(** [Math.max(0, Math.floor(Number(v)) || 0)] *)
Definition key_count (v : jsval) : num := int_property (num_max (numz 0) (floor_or_zero v)).

(** ** Handlers *)

Section Handlers.
Context (g : setting).

Definition channel (s : loads) : bool := helper_running (l_helper s) && stdinEnabled (l_helper s).
Definition write_line (t : jstr) : load_act := reading (fun s => if channel s then cause (Line t) else skip).
(** sshAgentWrite *)
Definition write_nonempty (t : jstr) : load_act := if str_eqb t [] then skip else write_line t.

Definition primeSshAgentLoadId : load_act := reading (fun s =>
  let w := l_window s in
  if load_id_running w || negb (str_eqb (sshAgentNextLoadId w) []) then skip
  else update (set_load (fun w => mkLoad (sshAgentEpoch w) (sshAgentLoadId w) (sshAgentLoadActive w) (sshAgentNextLoadId w) true))).

Definition endSshAgentLoad (success : bool) : load_act := reading (fun s =>
  let w := l_window s in
  if negb (sshAgentLoadActive w) then skip
  else
    update (set_load (fun w => mkLoad (sshAgentEpoch w) [] false (sshAgentNextLoadId w) (load_id_running w)))
    ;> cause (End (sshAgentEpoch w) success (channel s))
    ;> primeSshAgentLoadId).

Definition cancelSshAgentLoad : load_act :=
  reading (fun s => if list_running (l_list s) then update (set_list (set_listRunning false)) ;> cause StopListRead else skip)
  ;> endSshAgentLoad false
  ;> update (set_list (fun l => set_retried false (set_branch false l))).

Definition sshAgentVaultContext (s : loads) : jsval :=
  obj [("enabled", JBool (sshAgentEnabled g)); ("helperReady", JBool (gate (l_helper s)));
       ("loggedIn", JBool (negb (bool_decide (status s = unauthenticated)))); ("unlocked", JBool (bool_decide (status s = unlocked)));
       ("loading", JBool (sshAgentLoadActive (l_window s)));
       ("hasPublicCache", JBool (num_ltb (numz 0) (sshAgentKeyCount (l_companion s)))); ("epoch", jz (sshAgentEpoch (l_window s)))]%string.

Definition vaultReadIsStale (s : loads) : bool :=
  negb (bool_decide (items_epoch (l_list s) = Some (vaultEpoch s))) || negb (has_session g).
Definition beginVaultRead : load_act := update (fun s => set_list (set_itemsEpoch (Some (vaultEpoch s))) s).

Definition startVaultListRead (retrying : bool) : load_act :=
  update (fun s => set_list (set_early (negb (bool_decide (status s = unlocked)))) s)
  ;> reading (fun s =>
    let w := l_window s in
    let useAgent := negb retrying && negb (listReadEarly (l_list s)) && gate (l_helper s) && isValidLoadId (JStr (sshAgentNextLoadId w)) in
    (if useAgent then
       update (set_load (fun w => mkLoad (sshAgentEpoch w + 1) (sshAgentNextLoadId w) true [] (load_id_running w)))
       ;> update (fun s => set_companion (set_loadedFor (vaultEpoch s)) s)
       ;> cause (Begin (sshAgentEpoch w + 1) (sshAgentNextLoadId w) (stdinEnabled (l_helper s)))
     else skip)
    ;> update (set_list (fun l => set_listRunning true (set_branch useAgent l)))
    ;> cause (StartListRead useAgent)).

Definition loadItems : load_act := reading (fun s =>
  if negb (has_session g) then cause AbandonSyncReload
  else if list_running (l_list s) && listReadEarly (l_list s) && negb (vaultReadIsStale s) then skip
  else
    beginVaultRead
    ;> (if list_blocked g then cause ListBlocked else startVaultListRead false)).

Definition stopSshAgentHelper : load_act := reading (fun s =>
  let h := l_helper s in
  if negb (helper_running h) then update (set_helper (set_terminate false))
  else
    (if stdinEnabled h then cause (Line sshAgentShutdownLine) ;> update (set_helper (set_stdin false)) else skip)
    ;> update (set_helper (set_terminate true))).

Definition startSshAgentHelper : load_act :=
  update (set_helper (fun h => set_running true (set_stdin true (set_terminate false h)))).

Definition clearSshPublicKeys : load_act :=
  update (set_companion (set_pending [] (jz (-1)))) ;> (if clear_running g then skip else cause ClearExport).

Definition applySshAgentLifecycle (event : jstr) : load_act := reading (fun s =>
  let action := sshAgentLifecycleTransition event (sshAgentVaultContext s) in
  (if cancelLoad action then cancelSshAgentLoad else skip)
  ;> for_each write_line (controlLines action)
  ;> (if advanceEpoch action
      then update (set_load (fun w => mkLoad (sshAgentEpoch w + 1) (sshAgentLoadId w) (sshAgentLoadActive w) (sshAgentNextLoadId w) (load_id_running w)))
      else skip)
  ;> (if clearPublic action
      then update (set_companion (fun c => set_loadedAt 0 (set_keyCount (numz 0) c))) ;> clearSshPublicKeys else skip)
  ;> (if awaitLockAck action then update (set_helper (set_ack true)) else skip)
  ;> (if stopHelper action then stopSshAgentHelper else skip)
  ;> reading (fun s => if startLoad action && negb (list_running (l_list s)) then loadItems else skip)).

Definition maybeStartupLoad : load_act := reading (fun s =>
  let w := l_window s in
  if negb (gate (l_helper s)) || negb (bool_decide (status s = unlocked)) then skip
  else if sshAgentLoadActive w || list_running (l_list s) then skip
  else if sshAgentLoadedForVaultEpoch (l_companion s) =? vaultEpoch s then skip
  else if negb (isValidLoadId (JStr (sshAgentNextLoadId w))) then primeSshAgentLoadId
  else update (set_companion (set_loadedFor (vaultEpoch s))) ;> applySshAgentLifecycle (u "startup")).

Definition onSshAgentLoadIdRead (raw : jsval) : load_act :=
  let candidate := trim (text_or_empty raw) in
  let next := if isValidLoadId (JStr candidate) then candidate else [] in
  update (set_load (fun w => mkLoad (sshAgentEpoch w) (sshAgentLoadId w) (sshAgentLoadActive w) next false))
  ;> (if str_eqb next [] then skip else maybeStartupLoad).

Definition sendSshAgentOptions : load_act := write_nonempty (sshAgentOptionsLine (JBool (sshAgentUnlockOnDemand g))).

Definition onSshAgentGateOpenChanged : load_act := reading (fun s =>
  if gate (l_helper s) then
    sendSshAgentOptions
    ;> update (set_companion (fun c => set_streak 0 (set_loadedFor (-1) c)))
    ;> primeSshAgentLoadId
    ;> update (set_helper (set_startup true))
  else endSshAgentLoad false ;> update (set_companion (set_keyCount (numz 0)))).

Definition exportSshPublicKeys : load_act := reading (fun s =>
  let keys := sshPendingPublicKeys (l_companion s) in
  update (set_companion (fun c => set_pending [] (sshPendingPublicEpoch c) c))
  ;> (if export_running g then skip else cause (Export (sshExportPayload (JArr keys))))).

Definition is_message (message : jsval) (type : string) : bool := strict_eq message.["type"] (JStr (u type)).

(** onSshAgentMessage for the messages about keys. *)
Definition on_key_message (message : jsval) : load_act := reading (fun s =>
  let c := l_companion s in
  let epoch := message.["epoch"] in
  if is_message message "public_key" then
    let fresh := negb (strict_eq (sshPendingPublicEpoch c) epoch) in
    update (set_companion (fun c => set_pending ((if fresh then [] else sshPendingPublicKeys c) ++ [message])
      (if fresh then JNum (int_property (to_num epoch)) else sshPendingPublicEpoch c) c))
  else if is_message message "keys_loaded" then
    update (set_companion (fun c => set_streak 0 (set_loadedAt (clock g) (set_keyCount (key_count message.["keyCount"]) c))))
    ;> (if strict_eq (sshPendingPublicEpoch c) epoch then exportSshPublicKeys else skip)
  else if is_message message "load_failed" then
    if negb (strict_eq epoch (jz (sshAgentEpoch (l_window s)))) then skip
    else
      update (set_companion (fun c => set_loadedFor (-1) (set_streak (sshAgentLoadFailStreak c + 1) c)))
      ;> (if sshAgentLoadFailStreak c + 1 =? 1 then maybeStartupLoad else skip)
  else if is_message message "locked" then update (set_helper (set_ack false))
  else if is_message message "state_changed" then update (set_companion (set_keyCount (key_count message.["keyCount"])))
  else skip).

(** The items are shown, and a load that is owed is started. *)
Definition onListFinished : load_act := reading (fun s =>
  if vaultReadIsStale s then skip else cause ShowItems ;> maybeStartupLoad).

(** After the process has exited; a scrubbing run is not one of these. *)
Definition onListProcessExited (exitCode : Z) : load_act := reading (fun s =>
  let hadAgentBranch := listAgentBranchActive (l_list s) in
  let wasEarly := listReadEarly (l_list s) in
  let stale := vaultReadIsStale s in
  update (set_list (fun l => set_early false (set_branch false l)))
  ;> endSshAgentLoad (exitCode =? 0)
  ;> (if exitCode =? 0 then update (set_list (set_retried false)) ;> onListFinished
      else if hadAgentBranch && negb (listRetriedWithoutAgent (l_list s)) && negb stale then
        update (set_list (set_retried true)) ;> beginVaultRead ;> startVaultListRead true
      else
        update (set_list (set_retried false))
        ;> (if wasEarly && bool_decide (status s = unlocked) && negb stale then beginVaultRead ;> startVaultListRead false
            else cause (ListFailed (negb stale && negb wasEarly))))).

(** ** Events *)

Inductive load_event :=
| VaultEvent (event : jstr)
| StatusSet (st : vault_status)
| VaultReopened
| VaultDropped
| KeyMessage (message : jsval)
| ListRequested
| ListExited (exitCode : Z)
| LoadIdRead (raw : jsval)
| HelperStart
| HelperStop
| HelperExited
| GateSet (open : bool)
| StartupTimerFired
| LockAckTimerFired
| TerminateTimerFired
| OptionsChanged.

Definition kill_helper (timer : helper_process -> helper_process) : load_act :=
  update (set_helper (fun h => timer (set_running false h))).

Definition load_step (e : load_event) : load_act :=
  match e with
  | VaultEvent event => applySshAgentLifecycle event
  | StatusSet st => reading (fun s => if bool_decide (status s = st) then skip
                                     else update (fun s => set_vault st (vaultEpoch s) s) ;> maybeStartupLoad)
  | VaultReopened => update (fun s => set_vault (status s) (vaultEpoch s + 1) s)
  | VaultDropped =>
    update (fun s => set_list (set_itemsEpoch None) (set_companion (set_streak 0) (set_vault (status s) (vaultEpoch s + 1) s)))
  | KeyMessage m => on_key_message m
  | ListRequested => loadItems
  | ListExited code => update (set_list (set_listRunning false)) ;> onListProcessExited code
  | LoadIdRead raw => reading (fun s => if load_id_running (l_window s) then onSshAgentLoadIdRead raw else skip)
  | HelperStart => startSshAgentHelper
  | HelperStop => stopSshAgentHelper
  | HelperExited => update (set_helper (fun h => set_terminate false (set_running false h)))
  | GateSet b => reading (fun s => if Bool.eqb (gate (l_helper s)) b then skip
                                   else update (set_helper (set_gate b)) ;> onSshAgentGateOpenChanged)
  | StartupTimerFired => reading (fun s => if startup_timer (l_helper s) then update (set_helper (set_startup false)) ;> maybeStartupLoad else skip)
  | LockAckTimerFired => reading (fun s => if lock_ack_timer (l_helper s) then kill_helper (set_ack false) else skip)
  | TerminateTimerFired => reading (fun s => if terminate_timer (l_helper s) then kill_helper (set_terminate false) else skip)
  | OptionsChanged => sendSshAgentOptions
  end.
End Handlers.

Definition load_run (evs : list (setting * load_event)) : load_act := run_handlers (map (fun e => load_step e.1 e.2) evs).

(** ** The windows on the channel *)

(** The window that is open, if any: its epoch. *)
Definition open_window (s : loads) : option Z :=
  if sshAgentLoadActive (l_window s) then Some (sshAgentEpoch (l_window s)) else None.

(** Reads the effects with the window that is open and the last epoch begun: a
    window begins only when none is open, with a nonce and an epoch above all
    before; it ends with its own epoch. None when the order is broken. *)
Fixpoint windows (current : option Z) (last : Z) (l : list load_effect) : option (option Z * Z) :=
  match l with
  | [] => Some (current, last)
  | Begin epoch id _ :: rest =>
    match current with
    | None => if (last <? epoch) && isValidLoadId (JStr id) then windows (Some epoch) epoch rest else None
    | Some _ => None
    end
  | End epoch _ _ :: rest => if bool_decide (current = Some epoch) then windows None last rest else None
  | _ :: rest => windows current last rest
  end.

Definition begins (e : load_effect) : bool := match e with Begin _ _ _ => true | _ => false end.

(** While a window is open the gate is, and no nonce is ready or being read. *)
Record loads_ok (s : loads) : Prop := {
  ok_open : sshAgentLoadActive (l_window s) = true ->
    sshAgentNextLoadId (l_window s) = [] /\ load_id_running (l_window s) = false /\ gate (l_helper s) = true;
  ok_reading_id : load_id_running (l_window s) = true -> sshAgentNextLoadId (l_window s) = []
}.

(** A handler keeps the windows in order, begins one only over an unlocked vault
    and an open gate, and leaves the status and the gate as they are. *)
Record keeps (f : load_act) (s : loads) : Prop := {
  k_windows : forall last, last <= sshAgentEpoch (l_window s) -> exists last',
    windows (open_window s) last (f s).2 = Some (open_window (f s).1, last') /\ last' <= sshAgentEpoch (l_window (f s).1);
  k_ok : loads_ok (f s).1;
  k_begins : existsb begins (f s).2 = true -> status s = unlocked /\ gate (l_helper s) = true;
  k_status : status (f s).1 = status s;
  k_gate : gate (l_helper (f s).1) = gate (l_helper s)
}.
Definition orderly (f : load_act) : Prop := forall s, loads_ok s -> keeps f s.

Lemma windows_app c last l1 l2 : windows c last (l1 ++ l2) =
  match windows c last l1 with Some (c', last') => windows c' last' l2 | None => None end.
Proof.
  revert c last. induction l1 as [|e l1 IH]; intros c last; [done|]. destruct e; cbn [app windows]; try apply IH.
  - destruct c; [done|]. destruct (_ && _); [apply IH|done].
  - case_bool_decide; [apply IH|done].
Qed.

Lemma keeps_then f h s : keeps f s -> (loads_ok (f s).1 -> keeps h (f s).1) -> keeps (f ;> h) s.
Proof.
  intros [W1 O1 B1 S1 G1] H. specialize (H O1). destruct H as [W2 O2 B2 S2 G2]. unfold then_do in *.
  split; destruct (f s) as [s1 e1]; cbn [fst snd] in *; destruct (h s1) as [s2 e2]; cbn [fst snd] in *.
  - intros last Hl. destruct (W1 last Hl) as (l1 & E1 & H1). destruct (W2 l1 H1) as (l2 & E2 & H2). exists l2. by rewrite windows_app, E1.
  - done.
  - rewrite existsb_app, orb_true_iff. intros [?|?]; [auto|]. rewrite S1, G1 in B2. auto.
  - congruence.
  - congruence.
Qed.
Lemma orderly_then f h : orderly f -> orderly h -> orderly (f ;> h).
Proof. intros Hf Hh s Hs. apply keeps_then; auto. Qed.
Lemma orderly_reading f : (forall s, orderly (f s)) -> orderly (reading f).
Proof. intros H s Hs. destruct (H s s Hs). by split. Qed.
Lemma orderly_if (b : bool) f h : orderly f -> orderly h -> orderly (if b then f else h).
Proof. by destruct b. Qed.
Lemma orderly_skip : orderly skip.
Proof. intros s Hs. split; try done. intros last Hl. by exists last. Qed.
Lemma orderly_cause e : (match e with Begin _ _ _ | End _ _ _ => False | _ => True end) -> orderly (cause e).
Proof. intros He s Hs. split; try done; [|by destruct e]. intros last Hl. exists last. by destruct e. Qed.
Lemma orderly_list f : orderly (update (set_list f)).
Proof. intros s []. split; try done. intros last Hl. by exists last. Qed.
Lemma orderly_companion f : orderly (update (set_companion f)).
Proof. intros s []. split; try done. intros last Hl. by exists last. Qed.
Lemma orderly_helper f : (forall h, gate (f h) = gate h) -> orderly (update (set_helper f)).
Proof.
  intros Hf s []. split; try done; [intros last Hl; by exists last| |exact (Hf _)].
  split; [|done]. cbn. rewrite Hf. done.
Qed.
Lemma orderly_each {A} (f : A -> load_act) l : (forall x, orderly (f x)) -> orderly (for_each f l).
Proof. intros H. induction l as [|x l IH]; [apply orderly_skip|]. by apply orderly_then. Qed.

Create HintDb orderly.
#[export] Hint Resolve orderly_then orderly_reading orderly_if orderly_skip orderly_list orderly_companion orderly_each : orderly.
#[export] Hint Extern 1 (orderly (cause _)) => (apply orderly_cause; exact I) : orderly.
#[export] Hint Extern 1 (orderly (update (set_helper _))) => (apply orderly_helper; done) : orderly.
#[export] Hint Extern 1 (orderly (update (fun s => set_list _ s))) => (apply orderly_list) : orderly.
Ltac orderly := intros; auto 14 with orderly.

Lemma orderly_list_of (f : loads -> list_read -> list_read) : orderly (update (fun s => set_list (f s) s)).
Proof. intros s []. split; try done. intros last Hl. by exists last. Qed.
Lemma orderly_companion_of (f : loads -> companion -> companion) : orderly (update (fun s => set_companion (f s) s)).
Proof. intros s []. split; try done. intros last Hl. by exists last. Qed.

Section Orderly.
Context (g : setting).

Lemma orderly_write t : orderly (write_line t).
Proof. unfold write_line. orderly. Qed.
#[local] Hint Resolve orderly_write : orderly.
Lemma orderly_write_nonempty t : orderly (write_nonempty t).
Proof. unfold write_nonempty. orderly. Qed.
#[local] Hint Resolve orderly_write_nonempty : orderly.

Lemma open_window_closed s : sshAgentLoadActive (l_window s) = false -> open_window s = None.
Proof. unfold open_window. by intros ->. Qed.

Lemma keeps_reading f s : keeps (f s) s -> keeps (reading f) s.
Proof. intros []. by split. Qed.
Lemma keeps_skip s : loads_ok s -> keeps skip s.
Proof. apply orderly_skip. Qed.

(** Changes of the window that open and close nothing. *)
Lemma keeps_load f s : sshAgentLoadActive (f (l_window s)) = sshAgentLoadActive (l_window s) ->
  (sshAgentLoadActive (l_window s) = true -> sshAgentEpoch (f (l_window s)) = sshAgentEpoch (l_window s)) ->
  sshAgentEpoch (l_window s) <= sshAgentEpoch (f (l_window s)) -> loads_ok (set_load f s) -> keeps (update (set_load f)) s.
Proof.
  intros Ha He Hl Hok. split; try done. intros last Hle. exists last. cbn. split; [|lia]. unfold open_window. cbn. rewrite Ha.
  destruct (sshAgentLoadActive (l_window s)); [|done]. by rewrite He.
Qed.

(** A nonce is asked for only while no window is open. *)
Lemma keeps_prime s : loads_ok s -> sshAgentLoadActive (l_window s) = false -> keeps primeSshAgentLoadId s.
Proof.
  intros H A. apply keeps_reading. cbv zeta beta. destruct (_ || _) eqn:E; [by apply keeps_skip|]. apply orb_false_iff in E as [E1 E2].
  apply keeps_load; cbn; try done. apply negb_false_iff, str_eqb_eq in E2.
  split; cbn; [by rewrite A|done].
Qed.

Lemma prime_active s : sshAgentLoadActive (l_window (primeSshAgentLoadId s).1) = sshAgentLoadActive (l_window s).
Proof. unfold primeSshAgentLoadId, reading. cbv zeta. by destruct (_ || _). Qed.

Definition close_window (w : load_window) : load_window :=
  mkLoad (sshAgentEpoch w) [] false (sshAgentNextLoadId w) (load_id_running w).

(** What the end of an open window comes to. *)
Lemma end_open b s : sshAgentLoadActive (l_window s) = true ->
  endSshAgentLoad b s = let '(s2, e2) := primeSshAgentLoadId (set_load close_window s) in
                        (s2, End (sshAgentEpoch (l_window s)) b (channel s) :: e2).
Proof.
  intros A. unfold endSshAgentLoad, reading. rewrite A. cbn [negb]. unfold then_do, update, cause.
  change (set_load (fun w => mkLoad (sshAgentEpoch w) [] false (sshAgentNextLoadId w) (load_id_running w)) s) with (set_load close_window s).
  by destruct (primeSshAgentLoadId _).
Qed.
Lemma end_closed b s : sshAgentLoadActive (l_window s) = false -> endSshAgentLoad b s = (s, []).
Proof. intros A. unfold endSshAgentLoad, reading. by rewrite A. Qed.

Lemma end_inactive b s : sshAgentLoadActive (l_window (endSshAgentLoad b s).1) = false.
Proof.
  destruct (sshAgentLoadActive (l_window s)) eqn:A; [|by rewrite end_closed]. rewrite end_open by done.
  pose proof (prime_active (set_load close_window s)) as P. by destruct (primeSshAgentLoadId _).
Qed.

Lemma orderly_end b : orderly (endSshAgentLoad b).
Proof.
  intros s H. destruct (sshAgentLoadActive (l_window s)) eqn:A.
  - assert (K : keeps primeSshAgentLoadId (set_load close_window s)).
    { apply keeps_prime; [|done]. destruct (ok_open _ H A) as (E1 & E2 & E3). split; cbn; [done|by rewrite E2]. }
    destruct K as [W O B S G]. split; rewrite end_open by done; destruct (primeSshAgentLoadId _) as [s2 e2]; cbn [fst snd] in *; try done.
    intros last Hl. destruct (W last Hl) as (l' & E & Hl'). exists l'. split; [|done].
    unfold open_window at 1. rewrite A. cbn [windows]. by rewrite bool_decide_eq_true_2.
  - pose proof (keeps_skip s H) as []. split; rewrite end_closed by done; done.
Qed.
#[local] Hint Resolve orderly_end : orderly.

Lemma orderly_cancel : orderly cancelSshAgentLoad.
Proof. unfold cancelSshAgentLoad. orderly. Qed.
#[local] Hint Resolve orderly_cancel : orderly.

Lemma cancel_inactive s : sshAgentLoadActive (l_window (cancelSshAgentLoad s).1) = false.
Proof.
  unfold cancelSshAgentLoad, then_do. destruct (reading _ s) as [s1 e1]. pose proof (end_inactive false s1) as E.
  by destruct (endSshAgentLoad false s1).
Qed.

(** A window begins only with a nonce, over an unlocked vault and an open gate. *)
Lemma keeps_begin s : loads_ok s -> status s = unlocked -> gate (l_helper s) = true ->
  isValidLoadId (JStr (sshAgentNextLoadId (l_window s))) = true ->
  keeps (update (set_load (fun w => mkLoad (sshAgentEpoch w + 1) (sshAgentNextLoadId w) true [] (load_id_running w)))
         ;> update (fun s => set_companion (set_loadedFor (vaultEpoch s)) s)
         ;> cause (Begin (sshAgentEpoch (l_window s) + 1) (sshAgentNextLoadId (l_window s)) (stdinEnabled (l_helper s)))) s.
Proof.
  intros H Hst Hg V.
  assert (A : sshAgentLoadActive (l_window s) = false).
  { apply not_true_is_false. intros A. destruct (ok_open _ H A) as (E & _). rewrite E in V. by vm_compute in V. }
  assert (R : load_id_running (l_window s) = false).
  { apply not_true_is_false. intros R. rewrite (ok_reading_id _ H R) in V. by vm_compute in V. }
  split; cbn -[isValidLoadId Z.add Z.ltb]; try done.
  - intros last Hl. exists (sshAgentEpoch (l_window s) + 1). rewrite (open_window_closed _ A), V.
    rewrite (proj2 (Z.ltb_lt last _)) by lia. cbn. by split; [|lia].
Qed.

Lemma orderly_start retrying : orderly (startVaultListRead retrying).
Proof.
  unfold startVaultListRead. intros s H. apply keeps_then; [by apply orderly_list_of|]. intros H1.
  set (s1 := (update _ s).1) in *. apply keeps_reading. cbv zeta beta.
  destruct (negb retrying && _ && _ && _) eqn:U; [|apply orderly_then; [apply orderly_skip|orderly|done]].
  apply keeps_then; [|apply (orderly_then _ _); orderly]. rewrite !andb_true_iff in U. destruct U as (((_ & Ue) & Ug) & Uv).
  apply keeps_begin; try done. cbn in Ue. rewrite negb_involutive in Ue. by apply bool_decide_eq_true in Ue.
Qed.
#[local] Hint Resolve orderly_start : orderly.

Lemma orderly_begin_read : orderly beginVaultRead.
Proof. unfold beginVaultRead. apply orderly_list_of. Qed.
#[local] Hint Resolve orderly_begin_read : orderly.
Lemma orderly_loadItems : orderly (loadItems g).
Proof. unfold loadItems. orderly. Qed.
Lemma orderly_stop : orderly stopSshAgentHelper.
Proof. unfold stopSshAgentHelper. orderly. Qed.
Lemma orderly_clear : orderly (clearSshPublicKeys g).
Proof. unfold clearSshPublicKeys. orderly. Qed.
#[local] Hint Resolve orderly_loadItems orderly_stop orderly_clear : orderly.

Lemma advance_cancels event ctx : advanceEpoch (sshAgentLifecycleTransition event ctx) = true ->
  cancelLoad (sshAgentLifecycleTransition event ctx) = true.
Proof. unfold sshAgentLifecycleTransition. by repeat case_match. Qed.

Lemma write_lines_state l s : (for_each write_line l s).1 = s.
Proof.
  revert s. induction l as [|t l IH]; intros s; [done|]. cbn [for_each fold_right]. unfold then_do, write_line at 1, reading.
  destruct (channel s); cbn; pose proof (IH s) as E; unfold for_each in E; by destruct (fold_right _ skip l s).
Qed.

Definition advance_epoch (w : load_window) : load_window :=
  mkLoad (sshAgentEpoch w + 1) (sshAgentLoadId w) (sshAgentLoadActive w) (sshAgentNextLoadId w) (load_id_running w).

Lemma keeps_advance s : loads_ok s -> sshAgentLoadActive (l_window s) = false -> keeps (update (set_load advance_epoch)) s.
Proof. intros [] A. apply keeps_load; cbn; try done; [congruence|lia]. Qed.

Lemma orderly_lifecycle event : orderly (applySshAgentLifecycle g event).
Proof.
  intros s H. apply keeps_reading. set (a := sshAgentLifecycleTransition event _). pose proof (advance_cancels event (sshAgentVaultContext g s)) as Ac.
  fold a in Ac. clearbody a. apply keeps_then; [by destruct (cancelLoad a); [apply orderly_cancel|apply keeps_skip]|]. intros H1.
  apply keeps_then; [apply orderly_each; [orderly|done]|]. rewrite write_lines_state. intros _.
  assert (R : orderly ((if clearPublic a then update (set_companion (fun c => set_loadedAt 0 (set_keyCount (numz 0) c))) ;> clearSshPublicKeys g else skip)
    ;> (if awaitLockAck a then update (set_helper (set_ack true)) else skip) ;> (if stopHelper a then stopSshAgentHelper else skip)
    ;> reading (fun s => if startLoad a && negb (list_running (l_list s)) then loadItems g else skip))) by orderly.
  apply keeps_then; [|apply R]. destruct (advanceEpoch a); [|by apply keeps_skip]. rewrite Ac by done. rewrite Ac in H1 by done.
  apply keeps_advance; [done|apply cancel_inactive].
Qed.
#[local] Hint Resolve orderly_lifecycle : orderly.

Lemma orderly_startup : orderly (maybeStartupLoad g).
Proof.
  intros s H. apply keeps_reading. cbv zeta beta. destruct (_ || _); [by apply keeps_skip|]. destruct (_ || _) eqn:E; [by apply keeps_skip|].
  apply orb_false_iff in E as [A _]. destruct (_ =? _); [by apply keeps_skip|]. destruct (negb _); [by apply keeps_prime|].
  apply keeps_then; [by apply orderly_companion|]. intros H'. by apply orderly_lifecycle.
Qed.
#[local] Hint Resolve orderly_startup : orderly.

Lemma keeps_load_id_read raw s : loads_ok s -> load_id_running (l_window s) = true -> keeps (onSshAgentLoadIdRead g raw) s.
Proof.
  intros H R. unfold onSshAgentLoadIdRead. assert (A : sshAgentLoadActive (l_window s) = false).
  { apply not_true_is_false. intros A. destruct (ok_open _ H A) as (_ & E & _). congruence. }
  apply keeps_then; [|intros H1; destruct (str_eqb _ []); [by apply keeps_skip|by apply orderly_startup]].
  apply keeps_load; cbn; try done. split; cbn; [by rewrite A|done].
Qed.

Lemma orderly_options : orderly (sendSshAgentOptions g).
Proof. unfold sendSshAgentOptions. orderly. Qed.
#[local] Hint Resolve orderly_options : orderly.

Lemma orderly_export : orderly (exportSshPublicKeys g).
Proof. unfold exportSshPublicKeys. orderly. Qed.
#[local] Hint Resolve orderly_export : orderly.
Lemma orderly_message m : orderly (on_key_message g m).
Proof. unfold on_key_message. orderly. Qed.
Lemma orderly_list_finished : orderly (onListFinished g).
Proof. unfold onListFinished. orderly. Qed.
#[local] Hint Resolve orderly_list_finished : orderly.
Lemma orderly_list_exited code : orderly (onListProcessExited g code).
Proof. unfold onListProcessExited. orderly. Qed.
#[local] Hint Resolve orderly_message orderly_list_exited : orderly.
Lemma orderly_start_helper : orderly startSshAgentHelper.
Proof. unfold startSshAgentHelper. orderly. Qed.
#[local] Hint Resolve orderly_start_helper : orderly.
End Orderly.

(** What a whole step keeps, the changes of the status and the gate included. *)
Record sound (f : load_act) (s : loads) : Prop := {
  s_windows : forall last, last <= sshAgentEpoch (l_window s) -> exists last',
    windows (open_window s) last (f s).2 = Some (open_window (f s).1, last') /\ last' <= sshAgentEpoch (l_window (f s).1);
  s_ok : loads_ok (f s).1;
  s_begins : existsb begins (f s).2 = true -> status (f s).1 = unlocked /\ gate (l_helper (f s).1) = true
}.

Lemma keeps_sound f s : keeps f s -> sound f s.
Proof. intros []. split; try done. intros B. destruct (k_begins0 B). split; congruence. Qed.

(** A change the windows do not see, and then a handler. *)
Lemma sound_after (x : loads -> loads) h s : l_window (x s) = l_window s -> keeps h (x s) -> sound (update x ;> h) s.
Proof.
  intros E [W O B S G]. assert (open_window (x s) = open_window s) as Eo by (unfold open_window; by rewrite E).
  split; unfold then_do, update; destruct (h (x s)) as [s2 e2]; cbn [fst snd app] in *.
  - rewrite E, Eo in W. done.
  - done.
  - intros Hb. destruct (B Hb). split; congruence.
Qed.

Lemma end_gate b x s : endSshAgentLoad b (set_helper (set_gate x) s)
  = let '(s2, e2) := endSshAgentLoad b s in (set_helper (set_gate x) s2, e2).
Proof.
  destruct (sshAgentLoadActive (l_window s)) eqn:A; [|by rewrite !end_closed]. rewrite !end_open by done.
  unfold primeSshAgentLoadId, reading. cbv zeta. cbn [l_window set_helper set_load]. by destruct (_ || _).
Qed.

Lemma end_no_begin b s : existsb begins (endSshAgentLoad b s).2 = false.
Proof.
  destruct (sshAgentLoadActive (l_window s)) eqn:A; [|by rewrite end_closed]. rewrite end_open by done.
  unfold primeSshAgentLoadId, reading. cbv zeta. by destruct (_ || _).
Qed.

Section Steps.
Context (g : setting).

Lemma sound_gate_open s : loads_ok s -> gate (l_helper s) = false -> sound (update (set_helper (set_gate true)) ;> onSshAgentGateOpenChanged g) s.
Proof.
  intros H G. assert (A : sshAgentLoadActive (l_window s) = false).
  { apply not_true_is_false. intros A. destruct (ok_open _ H A) as (_ & _ & E). congruence. }
  apply sound_after; [done|]. assert (O : loads_ok (set_helper (set_gate true) s)) by (destruct H; split; cbn; [by rewrite A|done]).
  apply keeps_reading. cbn [gate set_gate l_helper set_helper].
  apply keeps_then; [by apply orderly_options|]. intros O1. apply keeps_then; [by apply orderly_companion|]. intros O2.
  apply keeps_then; [|intros O3; by apply orderly_helper].
  apply keeps_prime; [done|]. unfold sendSshAgentOptions, write_nonempty, write_line, reading.
  destruct (str_eqb _ _); [done|]. by destruct (channel _).
Qed.

Lemma sound_gate_shut s : loads_ok s -> sound (update (set_helper (set_gate false)) ;> onSshAgentGateOpenChanged g) s.
Proof.
  intros H. destruct (orderly_end false s H) as [W O B S G]. pose proof (end_inactive false s) as I. pose proof (end_no_begin false s) as N.
  assert (E : (update (set_helper (set_gate false)) ;> onSshAgentGateOpenChanged g) s =
    let '(s2, e2) := endSshAgentLoad false s in (set_companion (set_keyCount (numz 0)) (set_helper (set_gate false) s2), e2)).
  { unfold then_do at 1, update at 1. unfold onSshAgentGateOpenChanged, reading. cbn [gate set_gate l_helper set_helper].
    unfold then_do, update. rewrite end_gate. destruct (endSshAgentLoad false s). by rewrite app_nil_r. }
  split; rewrite E; destruct (endSshAgentLoad false s) as [s2 e2]; cbn [fst snd] in *.
  - intros last Hl. destruct (W last Hl) as (l' & Ew & Hl'). exists l'. done.
  - destruct O. split; cbn; [by rewrite I|done].
  - by rewrite N.
Qed.

Lemma sound_reading f s : sound (f s) s -> sound (reading f) s.
Proof. intros []. by split. Qed.

Lemma sound_step e s : loads_ok s -> sound (load_step g e) s.
Proof.
  intros H. destruct e as [event|st| | |m| |code|raw| | | |b| | | |]; cbn [load_step].
  - by apply keeps_sound, orderly_lifecycle.
  - apply sound_reading. destruct (bool_decide (status s = st)); [by apply keeps_sound, keeps_skip|]. apply sound_after; [done|].
    apply orderly_startup. by destruct H.
  - destruct H. split; try done. intros last Hl. by exists last.
  - destruct H. split; try done. intros last Hl. by exists last.
  - by apply keeps_sound, orderly_message.
  - by apply keeps_sound, orderly_loadItems.
  - apply keeps_sound, orderly_then; [apply orderly_list|apply orderly_list_exited|done].
  - apply sound_reading. destruct (load_id_running _) eqn:R; [by apply keeps_sound, keeps_load_id_read|by apply keeps_sound, keeps_skip].
  - by apply keeps_sound, orderly_start_helper.
  - by apply keeps_sound, orderly_stop.
  - by apply keeps_sound, orderly_helper.
  - apply sound_reading. destruct (Bool.eqb _ _) eqn:E; [by apply keeps_sound, keeps_skip|].
    destruct b; [|by apply sound_gate_shut]. apply sound_gate_open; [done|]. by destruct (gate (l_helper s)).
  - apply sound_reading. destruct (startup_timer _); [|by apply keeps_sound, keeps_skip].
    apply keeps_sound, orderly_then; [by apply orderly_helper|apply orderly_startup|done].
  - apply sound_reading. unfold kill_helper. destruct (lock_ack_timer _); [by apply keeps_sound, orderly_helper|by apply keeps_sound, keeps_skip].
  - apply sound_reading. unfold kill_helper. destruct (terminate_timer _); [by apply keeps_sound, orderly_helper|by apply keeps_sound, keeps_skip].
  - by apply keeps_sound, orderly_options.
Qed.
End Steps.

Lemma load_run_snoc evs g e s : load_run (evs ++ [(g, e)]) s =
  let '(s1, e1) := load_run evs s in let '(s2, e2) := load_step g e s1 in (s2, e1 ++ e2).
Proof.
  unfold load_run. rewrite map_app, run_handlers_app. unfold then_do. destruct (run_handlers _ s) as [s1 e1]. cbn. unfold then_do.
  destruct (load_step g e s1). cbn. by rewrite app_nil_r.
Qed.

Lemma load_run_ok evs : loads_ok (load_run evs initial_loads).1.
Proof.
  unfold load_run. apply run_handlers_invariant; [|by split]. apply Forall_forall. intros f ((g & e) & -> & _)%list_elem_of_fmap s Hs.
  by destruct (sound_step g e s Hs).
Qed.

(** ** Properties *)

(** C27. The companion's load protocol is followed. Whatever happens to the vault, the
    helper, the gate, the reads and the timers, in any order, the windows the panel
    opens on the channel never overlap; each begins with a nonce of its own form and
    an epoch above all before, and ends, if at all, with that epoch; a window
    is open at the end exactly when the panel says that a load is active; and one
    is begun only when the vault is unlocked and the gate is open. *)
Theorem load_windows evs :
  let '(s, effs) := load_run evs initial_loads in
  (exists last, windows None 0 effs = Some (open_window s, last) /\ last <= sshAgentEpoch (l_window s))
  /\ forall g e, existsb begins (load_step g e s).2 = true ->
       status (load_step g e s).1 = unlocked /\ gate (l_helper (load_step g e s).1) = true.
Proof.
  pose proof (load_run_ok evs) as Hok. destruct (load_run evs initial_loads) as [s effs] eqn:E. split.
  - clear Hok. revert s effs E. induction evs as [|[g e] evs IH] using rev_ind; intros s effs E.
    + injection E as <- <-. by exists 0.
    + pose proof (load_run_ok evs) as Hok. rewrite load_run_snoc in E. destruct (load_run evs initial_loads) as [s1 e1] eqn:E1.
      destruct (IH _ _ eq_refl) as (last & W & Hl). destruct (sound_step g e s1 Hok) as [S _ _]. destruct (S last Hl) as (l' & W' & Hl').
      destruct (load_step g e s1) as [s2 e2]. simplify_eq. exists l'. by rewrite windows_app, W.
  - intros g e. apply (s_begins _ _ (sound_step g e s Hok)).
Qed.

(** *** A lock reaches the companion *)

Definition ack_armed (s : loads) : Prop := lock_ack_timer (l_helper s) = true.

Section Ack.
Context (g : setting).
Ltac kept := intros; auto 14 with preserves.

Lemma kept_write t : preserves ack_armed (write_line t).
Proof. unfold write_line. kept. Qed.
Lemma kept_prime : preserves ack_armed primeSshAgentLoadId.
Proof. unfold primeSshAgentLoadId. kept. Qed.
#[local] Hint Resolve kept_write kept_prime : preserves.
Lemma kept_end b : preserves ack_armed (endSshAgentLoad b).
Proof. unfold endSshAgentLoad. kept. Qed.
#[local] Hint Resolve kept_end : preserves.
Lemma kept_cancel : preserves ack_armed cancelSshAgentLoad.
Proof. unfold cancelSshAgentLoad. kept. Qed.
Lemma kept_start_read b : preserves ack_armed (startVaultListRead b).
Proof. unfold startVaultListRead. kept. Qed.
Lemma kept_begin_read : preserves ack_armed beginVaultRead.
Proof. unfold beginVaultRead. kept. Qed.
#[local] Hint Resolve kept_cancel kept_start_read kept_begin_read : preserves.
Lemma kept_loadItems : preserves ack_armed (loadItems g).
Proof. unfold loadItems. kept. Qed.
Lemma kept_stop : preserves ack_armed stopSshAgentHelper.
Proof. unfold stopSshAgentHelper. kept. Qed.
Lemma kept_clear : preserves ack_armed (clearSshPublicKeys g).
Proof. unfold clearSshPublicKeys. kept. Qed.
#[local] Hint Resolve kept_loadItems kept_stop kept_clear : preserves.
Lemma kept_lifecycle event : preserves ack_armed (applySshAgentLifecycle g event).
Proof. unfold applySshAgentLifecycle. kept. Qed.
#[local] Hint Resolve kept_lifecycle : preserves.
Lemma kept_startup : preserves ack_armed (maybeStartupLoad g).
Proof. unfold maybeStartupLoad. kept. Qed.
#[local] Hint Resolve kept_startup : preserves.
Lemma kept_options : preserves ack_armed (sendSshAgentOptions g).
Proof. unfold sendSshAgentOptions, write_nonempty. kept. Qed.
Lemma kept_export : preserves ack_armed (exportSshPublicKeys g).
Proof. unfold exportSshPublicKeys. kept. Qed.
#[local] Hint Resolve kept_options kept_export : preserves.

(** Neither the acknowledgement nor the timer. *)
Definition no_ack (e : load_event) : bool :=
  match e with KeyMessage m => negb (is_message m "locked") | LockAckTimerFired => false | _ => true end.

Lemma kept_message m : is_message m "locked" = false -> preserves ack_armed (on_key_message g m).
Proof. intros E. unfold on_key_message. rewrite E. kept. Qed.

Lemma kept_step e : no_ack e = true -> preserves ack_armed (load_step g e).
Proof.
  destruct e; cbn [load_step no_ack]; intros E; unfold onSshAgentLoadIdRead, startSshAgentHelper, onSshAgentGateOpenChanged,
    onListProcessExited, onListFinished, kill_helper; try discriminate; kept.
  apply kept_message. by apply negb_true_iff.
Qed.
End Ack.

Lemma kept_run evs s : Forall (fun e => no_ack e.2 = true) evs -> ack_armed s -> ack_armed (load_run evs s).1.
Proof.
  intros H. apply run_handlers_invariant. apply Forall_forall. intros f ([g e] & -> & Hin)%list_elem_of_fmap. apply kept_step.
  by eapply (Forall_forall (fun e => no_ack e.2 = true)) in H.
Qed.

Lemma end_leaves b s : l_list (endSshAgentLoad b s).1 = l_list s /\ l_helper (endSshAgentLoad b s).1 = l_helper s.
Proof.
  destruct (sshAgentLoadActive (l_window s)) eqn:A; [|by rewrite end_closed]. rewrite end_open by done.
  unfold primeSshAgentLoadId, reading. cbv zeta. by destruct (_ || _).
Qed.

(** A cancelled load leaves no read running and the channel as it was. *)
Lemma cancel_stops s : list_running (l_list (cancelSshAgentLoad s).1) = false /\ channel (cancelSshAgentLoad s).1 = channel s.
Proof.
  unfold cancelSshAgentLoad, reading, then_do. destruct (list_running (l_list s)) eqn:E; unfold update, cause, skip.
  - pose proof (end_leaves false (set_list (set_listRunning false) s)) as [L H]. destruct (endSshAgentLoad _ _) as [s1 e1]. cbn in *.
    unfold channel. cbn. by rewrite L, H.
  - pose proof (end_leaves false s) as [L H]. destruct (endSshAgentLoad _ _) as [s1 e1]. cbn in *. unfold channel. cbn. by rewrite L, H.
Qed.

Lemma lock_transition g s event : is_event SSH_AGENT_LOCK_EVENTS event = true -> sshAgentEnabled g = true -> gate (l_helper s) = true ->
  sshAgentLifecycleTransition event (sshAgentVaultContext g s)
  = mkLifecycle [sshAgentVaultLockedLine (jz (sshAgentEpoch (l_window s)))] true false true false false false.
Proof.
  intros He Hn Hg. unfold sshAgentLifecycleTransition. rewrite (lock_not_stop _ He), He.
  unfold sshAgentVaultContext. rewrite Hn, Hg. unfold jor, obj. cbn [truthy]. jfields. by cbn [truthy andb].
Qed.

(** C28. The panel's lock reaches the companion or ends it. When the vault locks, the
    screen locks or the machine suspends while the agent is on and its gate open,
    no load is active and no item read runs any more, and what is last written, if
    the channel is open, is the lock of the current epoch; and unless the
    companion acknowledges it, the helper is not running once the timer has fired,
    whatever else happened in between. *)
Theorem lock_is_acknowledged_or_fatal g event s evs g' :
  is_event SSH_AGENT_LOCK_EVENTS event = true -> sshAgentEnabled g = true -> gate (l_helper s) = true ->
  Forall (fun e => no_ack e.2 = true) evs ->
  let '(s1, effs) := load_step g (VaultEvent event) s in
  sshAgentLoadActive (l_window s1) = false /\ list_running (l_list s1) = false
  /\ (channel s = true -> exists before, effs = before ++ [Line (sshAgentVaultLockedLine (jz (sshAgentEpoch (l_window s))))])
  /\ helper_running (l_helper (load_run (evs ++ [(g', LockAckTimerFired)]) s1).1) = false.
Proof.
  intros He Hn Hg Hevs. cbn [load_step]. unfold applySshAgentLifecycle, reading at 1. rewrite lock_transition by done.
  cbn [cancelLoad controlLines advanceEpoch clearPublic awaitLockAck stopHelper startLoad andb for_each fold_right].
  pose proof (cancel_inactive s) as A. pose proof (cancel_stops s) as [L C].
  unfold then_do at 1. destruct (cancelSshAgentLoad s) as [s0 e0]. cbn [fst] in *.
  unfold write_line, then_do, update, reading, skip, cause. rewrite C.
  assert (K : let s1 := set_helper (set_ack true) s0 in
    helper_running (l_helper (load_run (evs ++ [(g', LockAckTimerFired)]) s1).1) = false).
  { intros s1. rewrite load_run_snoc. pose proof (kept_run evs s1 Hevs eq_refl) as R. unfold ack_armed in R.
    destruct (load_run evs s1) as [s2 e2]. cbn [load_step]. unfold reading. cbn [fst] in R. by rewrite R. }
  destruct (channel s); cbn; (split_and!; [done|done| |exact K]); [intros _; by exists e0|done].
Qed.

(** *** Examples *)

Definition usual : setting := mkSetting 0 true true true false false false.
Definition example_nonce : jstr := u "0123456789abcdef0123456789abcdef".

(** The helper is ready, the vault opens, and a nonce is read: the keys are loaded. *)
Definition example_start : list (setting * load_event) :=
  map (pair usual) [HelperStart; GateSet true; LoadIdRead (JStr example_nonce); VaultReopened; StatusSet unlocked].

Lemma example_start_loads :
  let '(s, effs) := load_run example_start initial_loads in
  open_window s = Some 1 /\ existsb begins effs = true /\ list_running (l_list s) = true.
Proof. by vm_compute. Qed.

Lemma lock_is_acknowledged_or_fatal_witness :
  let s := (load_run example_start initial_loads).1 in
  let '(s1, effs) := load_step usual (VaultEvent (u "lock")) s in
  channel s = true /\ sshAgentLoadActive (l_window s1) = false
  /\ helper_running (l_helper (load_run [(usual, ListExited 143); (usual, VaultDropped); (usual, LockAckTimerFired)] s1).1) = false.
Proof.
  intros s. pose proof (lock_is_acknowledged_or_fatal usual (u "lock") s [(usual, ListExited 143); (usual, VaultDropped)] usual
    ltac:(by vm_compute) eq_refl ltac:(by vm_compute) ltac:(by repeat constructor)) as T.
  destruct (load_step usual (VaultEvent (u "lock")) s) as [s1 effs]. destruct T as (A & _ & _ & H). split_and!; [by vm_compute|exact A|exact H].
Defined.

(** A read with the agent's branch that fails is run again without it. *)
Lemma failed_branch_is_retried :
  let s := (load_run example_start initial_loads).1 in
  let '(s1, effs) := load_step usual (ListExited 1) s in
  list_running (l_list s1) = true /\ listAgentBranchActive (l_list s1) = false /\ last effs = Some (StartListRead false).
Proof. by vm_compute. Qed.

(** Turning the agent off while the item list is being read stops that read, and
    its failure is then reported as the vault's. *)
Lemma disabling_costs_the_list :
  let s := (load_run (map (pair usual) [VaultReopened; StatusSet unlocked; ListRequested]) initial_loads).1 in
  let '(s1, effs) := load_run (map (pair usual) [VaultEvent (u "disable"); ListExited 143]) s in
  list_running (l_list s) = true /\ list_running (l_list s1) = false /\ effs = [StopListRead; ClearExport; ListFailed true].
Proof. by vm_compute. Qed.

(** The timer of a lock outlives the helper it was for: one started since is killed. *)
Lemma lock_timer_kills_the_next_helper :
  let s := (load_run (map (pair usual) [HelperStart; GateSet true; VaultEvent (u "lock"); HelperExited; GateSet false; HelperStart]) initial_loads).1 in
  helper_running (l_helper s) = true /\ helper_running (l_helper (load_step usual LockAckTimerFired s).1) = false.
Proof. by vm_compute. Qed.
