(* ===== verification/Closing.v ===== *)
(** * Closing the vault

    How the panel ends a session ([src/Service.qml]): the lock, the queue of
    [bw lock] runs, the session remembered in the keyring and its removal, logout
    and its sweep, account switches, and the suspend that waits for a lock. The
    handlers are put together over what they share: the session, the account, the
    processes that write and clear keyring entries, and the calls put off with
    Qt.callLater.

    Beside the panel's state, [entries] says which accounts have a remembered
    session in the keyring; only the processes change it, at a moment of their
    own while they run. A clear or a sweep exits 0 only after it erased the entry.
    What the handlers do to the rest of the panel is an effect where these
    handlers depend on it; messages, screens and forms are left out. *)

From stdpp Require Import base list numbers gmap sets strings.
From S2P Require Import Prelude.
From S2P Require Import JsValue.
From S2P Require Import Json.
From S2P Require Import Accounts.
From S2P Require Import Session.
From S2P Require Import Commands.
From S2P Require Import Vault.
From S2P Require Import Helpers.
From S2P Require Import Handlers.
From S2P Require Import SshLoads.
Local Open Scope Z_scope.
Local Open Scope js_scope.
Local Open Scope handler_scope.

(** ** State *)

Record open_vault := mkVault {
  session : jstr;
  status : vault_status;
  vaultEpoch : Z;
  readEpochs : gmap string Z;
  activeSlot : jstr;
  rememberSession : bool
}.

(** A process that clears an entry: the account it was started for, and whether
    it has erased the entry. A Process still reads as running when its exit is
    handled. *)
Inductive clearer := Idle | Clearing (slot : jstr) (erased : bool) | Exiting.

(** keyringStoreProc and keyringClearProc; the former with the account it writes for. *)
Record session_keyring := mkKeyring {
  keyringStoreProc : option jstr;
  sessionStorePending : bool;
  sessionStoreSlot : jstr;
  keyringClearProc : clearer;
  sessionClearPending : bool;
  sessionClearSlots : list jstr;
  sessionClearRun : option (jstr * Z)
}.

(** One [bw lock]: the account whose data it locks, the name its session key is
    held under, how often it was run, and whether [bw status] is asked instead. *)
Record bw_lock := mkLock { lock_slot : jstr; lock_key : jstr; attempts : Z; lock_checking : bool }.

Record lock_runs := mkLocks {
  lockRun : option bw_lock;
  lockQueue : list bw_lock;
  lockSeq : Z;
  lockProc : bool
}.

Record logout := mkLogout {
  logoutPending : bool;
  logoutCliDone : bool;
  logoutCredentialsDone : bool;
  logoutExitCode : Z;
  logoutCredentialsExitCode : Z;
  allCredentialsClearPending : bool;
  keyringClearAllProc : clearer
}.

(** The calls that Qt.callLater() put off. *)
Inductive later_call := PumpLock | LockStep | RetryClear (slot : jstr) (attempt : Z) | SweepAgain.

#[export] Instance later_call_eq_dec : EqDecision later_call.
Proof. solve_decision. Defined.

Record closing := mkClosing {
  c_vault : open_vault;
  c_keyring : session_keyring;
  c_locks : lock_runs;
  c_logout : logout;
  suspendLockPending : bool;
  vaultLocalSecrets : gmap jstr jstr;
  c_later : list later_call;
  entries : gset jstr
}.

(** The start, once the account list has said which account is active. *)
Definition initial_closing (start : jstr) (remembered : gset jstr) (remember : bool) : closing :=
  mkClosing (mkVault [] checking 0 ∅ (accountSlot (JStr start)) remember) (mkKeyring None false [] Idle false [] None)
    (mkLocks None [] 0 false) (mkLogout false false false 0 0 false Idle) false ∅ [] remembered.

(** What the handlers read of the rest of the panel. A run asked of the vault
    helper while it starts counts as started. *)
Record around := mkAround {
  vaultHelperActive : bool;
  started : bool;
  accountsLoaded : bool;
  lockOnSuspend : bool;
  lockOnScreenLock : bool;
  sleepMonitor_running : bool;
  envelopeProc_running : bool;
  statusProc_running : bool;
  keyringLookupProc_running : bool;
  authAttemptInFlight : bool;
  statusCheckAuthoritative : bool;
  vault_data_present : bool;
  sign_in_running : bool;
  addingAccount : bool;
  accountRegistry : registry;
  random_digit : nat -> N
}.

(** [AskClear] marks a request to clear the entry of a slot, [StillStored] the
    report that it failed, [LostHelper] a session dropped with its helper. *)
Inductive closing_effect :=
| StoreSession (slot : jstr)
| AskClear (slot : jstr)
| ClearSession (slot : jstr)
| StillStored (slot : jstr)
| LostHelper (slot : jstr)
| AskLock (run : bw_lock) (session : jstr)
| RunLock (run : bw_lock) (key : option jstr)
| ForgetKey (name : jstr)
| LockFailed
| HoldSession (name : jstr)
| ForgetAllBut (names : list jstr)
| DropVault
| Agent (event : string)
| RunLogout (slot : jstr)
| ForgetCredentials
| Sweep (slot : jstr)
| SweepRetry
| LogoutFailed
| LoggedOut (slot : jstr)
| RetireSlot (slot : jstr) (clearKeyring : bool)
| EnterAccount (slot : jstr)
| RefreshStatus
| AskStatus
| LoadVault
| AckSleep.

Notation close_act := (handler closing closing_effect).

Definition set_vault (f : open_vault -> open_vault) (s : closing) : closing :=
  mkClosing (f (c_vault s)) (c_keyring s) (c_locks s) (c_logout s) (suspendLockPending s) (vaultLocalSecrets s) (c_later s) (entries s).
Definition set_keyring (f : session_keyring -> session_keyring) (s : closing) : closing :=
  mkClosing (c_vault s) (f (c_keyring s)) (c_locks s) (c_logout s) (suspendLockPending s) (vaultLocalSecrets s) (c_later s) (entries s).
Definition set_locks (f : lock_runs -> lock_runs) (s : closing) : closing :=
  mkClosing (c_vault s) (c_keyring s) (f (c_locks s)) (c_logout s) (suspendLockPending s) (vaultLocalSecrets s) (c_later s) (entries s).
Definition set_logout (f : logout -> logout) (s : closing) : closing :=
  mkClosing (c_vault s) (c_keyring s) (c_locks s) (f (c_logout s)) (suspendLockPending s) (vaultLocalSecrets s) (c_later s) (entries s).
Definition set_suspend (b : bool) (s : closing) : closing :=
  mkClosing (c_vault s) (c_keyring s) (c_locks s) (c_logout s) b (vaultLocalSecrets s) (c_later s) (entries s).
Definition set_secrets (f : gmap jstr jstr -> gmap jstr jstr) (s : closing) : closing :=
  mkClosing (c_vault s) (c_keyring s) (c_locks s) (c_logout s) (suspendLockPending s) (f (vaultLocalSecrets s)) (c_later s) (entries s).
Definition set_later (f : list later_call -> list later_call) (s : closing) : closing :=
  mkClosing (c_vault s) (c_keyring s) (c_locks s) (c_logout s) (suspendLockPending s) (vaultLocalSecrets s) (f (c_later s)) (entries s).
Definition set_entries (f : gset jstr -> gset jstr) (s : closing) : closing :=
  mkClosing (c_vault s) (c_keyring s) (c_locks s) (c_logout s) (suspendLockPending s) (vaultLocalSecrets s) (c_later s) (f (entries s)).

Definition set_session (t : jstr) (v : open_vault) : open_vault :=
  mkVault t (status v) (vaultEpoch v) (readEpochs v) (activeSlot v) (rememberSession v).
Definition set_status (st : vault_status) (v : open_vault) : open_vault :=
  mkVault (session v) st (vaultEpoch v) (readEpochs v) (activeSlot v) (rememberSession v).
Definition set_epochs (epoch : Z) (reads : gmap string Z) (v : open_vault) : open_vault :=
  mkVault (session v) (status v) epoch reads (activeSlot v) (rememberSession v).
Definition set_active (slot : jstr) (v : open_vault) : open_vault :=
  mkVault (session v) (status v) (vaultEpoch v) (readEpochs v) slot (rememberSession v).
Definition set_remember (b : bool) (v : open_vault) : open_vault :=
  mkVault (session v) (status v) (vaultEpoch v) (readEpochs v) (activeSlot v) b.

Definition set_store (p : option jstr) (slot : jstr) (k : session_keyring) : session_keyring :=
  mkKeyring p (sessionStorePending k) slot (keyringClearProc k) (sessionClearPending k) (sessionClearSlots k) (sessionClearRun k).
Definition set_storePending (b : bool) (k : session_keyring) : session_keyring :=
  mkKeyring (keyringStoreProc k) b (sessionStoreSlot k) (keyringClearProc k) (sessionClearPending k) (sessionClearSlots k) (sessionClearRun k).
Definition set_clear (p : clearer) (k : session_keyring) : session_keyring :=
  mkKeyring (keyringStoreProc k) (sessionStorePending k) (sessionStoreSlot k) p (sessionClearPending k) (sessionClearSlots k) (sessionClearRun k).
Definition set_clearPending (b : bool) (k : session_keyring) : session_keyring :=
  mkKeyring (keyringStoreProc k) (sessionStorePending k) (sessionStoreSlot k) (keyringClearProc k) b (sessionClearSlots k) (sessionClearRun k).
Definition set_clearSlots (l : list jstr) (k : session_keyring) : session_keyring :=
  mkKeyring (keyringStoreProc k) (sessionStorePending k) (sessionStoreSlot k) (keyringClearProc k) (sessionClearPending k) l (sessionClearRun k).
Definition set_clearRun (r : option (jstr * Z)) (k : session_keyring) : session_keyring :=
  mkKeyring (keyringStoreProc k) (sessionStorePending k) (sessionStoreSlot k) (keyringClearProc k) (sessionClearPending k) (sessionClearSlots k) r.

Definition set_run (r : option bw_lock) (l : lock_runs) : lock_runs := mkLocks r (lockQueue l) (lockSeq l) (lockProc l).
Definition set_queue (q : list bw_lock) (l : lock_runs) : lock_runs := mkLocks (lockRun l) q (lockSeq l) (lockProc l).
Definition set_seq (n : Z) (l : lock_runs) : lock_runs := mkLocks (lockRun l) (lockQueue l) n (lockProc l).
Definition set_lockProc (b : bool) (l : lock_runs) : lock_runs := mkLocks (lockRun l) (lockQueue l) (lockSeq l) b.

Definition set_cli (d : bool) (code : Z) (o : logout) : logout :=
  mkLogout (logoutPending o) d (logoutCredentialsDone o) code (logoutCredentialsExitCode o) (allCredentialsClearPending o) (keyringClearAllProc o).
Definition set_credentials (d : bool) (code : Z) (o : logout) : logout :=
  mkLogout (logoutPending o) (logoutCliDone o) d (logoutExitCode o) code (allCredentialsClearPending o) (keyringClearAllProc o).
Definition set_pendingLogout (b : bool) (o : logout) : logout :=
  mkLogout b (logoutCliDone o) (logoutCredentialsDone o) (logoutExitCode o) (logoutCredentialsExitCode o) (allCredentialsClearPending o) (keyringClearAllProc o).
Definition set_allPending (b : bool) (o : logout) : logout :=
  mkLogout (logoutPending o) (logoutCliDone o) (logoutCredentialsDone o) (logoutExitCode o) (logoutCredentialsExitCode o) b (keyringClearAllProc o).
Definition set_sweep (p : clearer) (o : logout) : logout :=
  mkLogout (logoutPending o) (logoutCliDone o) (logoutCredentialsDone o) (logoutExitCode o) (logoutCredentialsExitCode o) (allCredentialsClearPending o) p.

Definition busy (p : clearer) : bool := match p with Idle => false | _ => true end.
Definition is_some {A} (o : option A) : bool := match o with Some _ => true | None => false end.
Definition nonempty (t : jstr) : bool := negb (str_eqb t []).
Definition is_unlocked (s : closing) : bool := bool_decide (status (c_vault s) = unlocked).

(** ** Handlers *)

Section Handlers.
Context (at_ : around).

Definition on_vault (f : open_vault -> open_vault) : close_act := update (set_vault f).
Definition on_keyring (f : session_keyring -> session_keyring) : close_act := update (set_keyring f).
Definition on_locks (f : lock_runs -> lock_runs) : close_act := update (set_locks f).
Definition on_logout (f : logout -> logout) : close_act := update (set_logout f).

(** Qt.callLater(): a function that is waiting already is called once. *)
Definition callLater (c : later_call) : close_act :=
  update (set_later (fun l => match c with
                              | RetryClear _ _ => l ++ [c]
                              | _ => if bool_decide (c ∈ l) then l else l ++ [c]
                              end)).

Definition beginEpochOperation (name : string) : close_act :=
  on_vault (fun v => set_epochs (vaultEpoch v) (<[name := vaultEpoch v]> (readEpochs v)) v).
Definition epochOperationIsStale (name : string) (s : closing) : bool :=
  negb (bool_decide (readEpochs (c_vault s) !! name = Some (vaultEpoch (c_vault s)))).

(** *** The suspend *)

Definition ackSleep : close_act := if sleepMonitor_running at_ then cause AckSleep else skip.

Definition lock_settled (l : lock_runs) : bool := negb (is_some (lockRun l)) && bool_decide (lockQueue l = []).
Definition clear_settled (k : session_keyring) : bool := negb (is_some (sessionClearRun k)) && bool_decide (sessionClearSlots k = []).

Definition maybeAckSleep : close_act := reading (fun s =>
  if negb (suspendLockPending s) then skip
  else if negb (lock_settled (c_locks s)) then skip
  else if negb (clear_settled (c_keyring s)) then skip
  else update (set_suspend false) ;> ackSleep).

(** *** The remembered session *)

(** [attempt] is 1 where the source leaves it out. *)
Definition requestSessionCredentialClear (slot : option jstr) (attempt : Z) : close_act := reading (fun s =>
  let target := match slot with
                | Some t => if isAccountSlot t then t else activeSlot (c_vault s)
                | None => activeSlot (c_vault s)
                end in
  cause (AskClear target)
  ;> if busy (keyringClearProc (c_keyring s)) then
       on_keyring (fun k => set_clearPending true
         (if bool_decide (target ∈ sessionClearSlots k) then k else set_clearSlots (sessionClearSlots k ++ [target]) k))
     else
       on_keyring (fun k => set_clear (Clearing target false) (set_clearRun (Some (target, attempt)) (set_clearPending false k)))
       ;> cause (ClearSession target)).

Definition storeCurrentSession : close_act := reading (fun s =>
  if logoutPending (c_logout s) then on_keyring (set_storePending false)
  else if negb (rememberSession (c_vault s)) || negb (nonempty (session (c_vault s))) then on_keyring (set_storePending false)
  else if is_some (keyringStoreProc (c_keyring s)) || busy (keyringClearProc (c_keyring s)) then on_keyring (set_storePending true)
  else
    on_keyring (set_storePending false)
    ;> beginEpochOperation "sessionStore"
    ;> on_keyring (set_store (Some (activeSlot (c_vault s))) (activeSlot (c_vault s)))
    ;> cause (StoreSession (activeSlot (c_vault s)))).

Definition onSessionStored : close_act := reading (fun s =>
  if epochOperationIsStale "sessionStore" s || negb (is_unlocked s) || negb (nonempty (session (c_vault s))) then
    on_keyring (set_storePending (rememberSession (c_vault s) && is_unlocked s && nonempty (session (c_vault s))))
    ;> requestSessionCredentialClear (Some (sessionStoreSlot (c_keyring s))) 1
  else on_keyring (set_storePending false)).

Definition pumpSessionKeyring : close_act := reading (fun s =>
  if busy (keyringClearProc (c_keyring s)) || is_some (keyringStoreProc (c_keyring s)) then skip
  else match sessionClearSlots (c_keyring s) with
       | next :: waiting => on_keyring (set_clearSlots waiting) ;> requestSessionCredentialClear (Some next) 1
       | [] => if sessionStorePending (c_keyring s) then storeCurrentSession else skip
       end).

Definition onSessionClearExited (exitCode : Z) : close_act := reading (fun s =>
  match sessionClearRun (c_keyring s) with
  | Some (slot, attempt) =>
    if negb (exitCode =? 0) && (attempt <? 2) then callLater (RetryClear slot (attempt + 1))
    else
      on_keyring (set_clearRun None)
      ;> (if negb (exitCode =? 0) then cause (StillStored slot) else skip)
      ;> maybeAckSleep
  | None => on_keyring (set_clearRun None) ;> maybeAckSleep
  end).

(** *** Held keys *)

Definition lockSecretNames (l : lock_runs) : list jstr :=
  map lock_key (lockQueue l) ++ match lockRun l with Some r => [lock_key r] | None => [] end.

Definition forgetVault : close_act := reading (fun s =>
  let keep := lockSecretNames (c_locks s) in
  update (set_secrets (filter (fun kv => kv.1 ∈ keep)))
  ;> if vaultHelperActive at_ then cause (ForgetAllBut keep) else skip).

Definition holdSession (name : jstr) : close_act := reading (fun s =>
  if vaultHelperActive at_ then cause (HoldSession name)
  else if nonempty (session (c_vault s)) then update (set_secrets <[name := session (c_vault s)]>) else skip).

Definition forgetVaultSecret (name : jstr) : close_act :=
  update (set_secrets (delete name)) ;> cause (ForgetKey name).

(** *** [bw lock] *)

Definition runBwLockStep : close_act := reading (fun s =>
  match lockRun (c_locks s) with
  | None => skip
  | Some r =>
    if lockProc (c_locks s) then callLater LockStep
    else
      let r1 := if lock_checking r then r else mkLock (lock_slot r) (lock_key r) (attempts r + 1) false in
      on_locks (fun l => set_lockProc true (set_run (Some r1) l))
      ;> cause (RunLock r1 (if vaultHelperActive at_ then None else vaultLocalSecrets s !! lock_key r1))
  end).

Definition pumpBwLock : close_act := reading (fun s =>
  if is_some (lockRun (c_locks s)) || lockProc (c_locks s) then skip
  else match lockQueue (c_locks s) with
       | [] => skip
       | r :: queue => on_locks (fun l => set_queue queue (set_run (Some r) l)) ;> runBwLockStep
       end).

Definition lock_name (n : Z) : jstr := u "lock" ++ to_str (jz n).

Definition requestBwLock : close_act := reading (fun s =>
  if negb (nonempty (session (c_vault s))) then skip
  else
    let n := lockSeq (c_locks s) + 1 in
    let run := mkLock (activeSlot (c_vault s)) (lock_name n) 0 false in
    on_locks (set_seq n)
    ;> holdSession (lock_name n)
    ;> on_locks (fun l => set_queue (lockQueue l ++ [run]) l)
    ;> cause (AskLock run (session (c_vault s)))
    ;> pumpBwLock).

Definition finishBwLock : close_act := reading (fun s =>
  (match lockRun (c_locks s) with Some r => forgetVaultSecret (lock_key r) | None => skip end)
  ;> on_locks (set_run None)
  ;> callLater PumpLock
  ;> maybeAckSleep).

Definition onBwLockExited (exitCode : Z) (stdout : jsval) : close_act := reading (fun s =>
  match lockRun (c_locks s) with
  | None => skip
  | Some r =>
    if lock_checking r then
      let st := if exitCode =? 0 then parseStatus stdout else JNull in
      (if truthy st && truthy st.["unlocked"] then cause LockFailed else skip) ;> finishBwLock
    else if exitCode =? 0 then finishBwLock
    else
      (if 2 <=? attempts r
       then on_locks (set_run (Some (mkLock (lock_slot r) (lock_key r) (attempts r) true)))
       else skip)
      ;> callLater LockStep
  end).

(** *** The vault *)

(** The part of the state above; [DropVault] is the rest. *)
Definition dropVaultState : close_act :=
  on_vault (set_session [])
  ;> forgetVault
  ;> on_vault (fun v => set_epochs (vaultEpoch v + 1) ∅ v)
  ;> on_keyring (set_storePending false)
  ;> cause DropVault.

Definition vaultStatePresent (s : closing) : bool :=
  nonempty (session (c_vault s)) || is_unlocked s || vault_data_present at_.

Definition lockVault : close_act :=
  cause (Agent "lock")
  ;> requestBwLock
  ;> requestSessionCredentialClear None 1
  ;> dropVaultState
  ;> reading (fun s => if bool_decide (status (c_vault s) = unauthenticated) then skip else on_vault (set_status locked)).

Definition adopt_session (t : jstr) : close_act :=
  on_vault (fun v => set_epochs (vaultEpoch v + 1) (readEpochs v) (set_session t v)).

Definition onUnlockSuccess (rawSession : jsval) : close_act :=
  let s := extractSessionToken rawSession in
  if negb (nonempty s) then skip
  else adopt_session s ;> on_vault (set_status unlocked) ;> storeCurrentSession ;> cause LoadVault.

Definition runStatusCheck : close_act :=
  if statusProc_running at_ then skip else beginEpochOperation "status" ;> cause AskStatus.

Definition onSessionHandoff (raw : jsval) : close_act := reading (fun s =>
  if epochOperationIsStale "sessionHandoff" s then skip
  else
    let handed := extractSessionToken (JStr (trim (text_or_empty raw))) in
    if nonempty handed then
      adopt_session handed ;> storeCurrentSession ;> on_vault (set_status unlocked) ;> cause LoadVault
    else if bool_decide (status (c_vault s) = locked) && negb (nonempty (session (c_vault s))) then skip
    else if nonempty (session (c_vault s)) then runStatusCheck
    else if rememberSession (c_vault s) && negb (bool_decide (status (c_vault s) = locked)) then
      (if keyringLookupProc_running at_ then skip else beginEpochOperation "keyringLookup")
    else runStatusCheck).

Definition onKeyringLookupFinished (rawToken : jsval) : close_act := reading (fun s =>
  if epochOperationIsStale "keyringLookup" s then skip
  else
    let token := trim (text_or_empty rawToken) in
    (if nonempty token then
       on_vault (fun v => set_session token
         (if nonempty (session v) && negb (str_eqb (session v) token) then set_epochs (vaultEpoch v + 1) (readEpochs v) v else v))
     else skip)
    ;> runStatusCheck
    ;> if nonempty token then cause LoadVault else skip).

Definition followVaultClosedInSshAgent (next : vault_status) : close_act := reading (fun s =>
  let st := status (c_vault s) in
  if bool_decide (next = locked) && bool_decide (st = unlocked) then cause (Agent "lock")
  else if bool_decide (next = unauthenticated) && (bool_decide (st = unlocked) || bool_decide (st = locked)) then cause (Agent "logout")
  else skip).

(** What onStatusFinished() does when the vault is found closed. *)
Definition close_as (next : vault_status) : close_act :=
  followVaultClosedInSshAgent next
  ;> reading (fun s => if vaultStatePresent s then
       (if nonempty (session (c_vault s)) then requestSessionCredentialClear None 1 else skip) ;> dropVaultState
     else skip)
  ;> on_vault (set_status next).

Definition onStatusFinished (rawJson : jsval) : close_act := reading (fun s =>
  if epochOperationIsStale "status" s then skip
  else if authAttemptInFlight at_ then skip
  else if negb (statusCheckAuthoritative at_) then skip
  else
    let st := parseStatus rawJson in
    if negb (truthy st) then close_as unauthenticated
    else if truthy st.["unlocked"] then on_vault (set_status unlocked) ;> cause LoadVault
    else if truthy st.["locked"] then close_as locked
    else close_as unauthenticated).

(** A refused unlock that says the account is signed out. *)
Definition unlock_not_logged_in : close_act :=
  followVaultClosedInSshAgent unauthenticated ;> on_vault (set_status unauthenticated).

(** verifyWithBw(): what its answer does. *)
Definition on_bw_verified (code : Z) (out : jsval) : close_act := reading (fun s =>
  let t := if code =? 0 then extractSessionToken out else [] in
  if epochOperationIsStale "bwVerify" s || logoutPending (c_logout s) || negb (is_unlocked s) then
    (if negb (is_unlocked s) then forgetVault else skip)
  else if negb (nonempty t) then skip
  else on_vault (set_session t) ;> storeCurrentSession).

(** onVaultHelperExited(): the vault whose key went with the helper. *)
Definition on_helper_lost : close_act := reading (fun s =>
  if negb (str_eqb (session (c_vault s)) vaultHeldSession) then skip
  else
    on_vault (set_session [])
    ;> if is_unlocked s then lockVault
       else cause (LostHelper (activeSlot (c_vault s))) ;> cause (Agent "lock") ;> dropVaultState).

(** Runs when the setting has another value than before. *)
Definition onRememberSessionChanged (b : bool) : close_act := reading (fun s =>
  if Bool.eqb b (rememberSession (c_vault s)) then skip
  else
    on_vault (set_remember b)
    ;> if negb (started at_) || negb (accountsLoaded at_) || b then skip
       else on_keyring (set_storePending false) ;> requestSessionCredentialClear None 1).

(** *** Accounts *)

Definition retireAccountSlot (slot : jstr) (clearKeyring : bool) : close_act := reading (fun s =>
  if negb (isAccountSlot slot) || str_eqb slot (activeSlot (c_vault s)) then skip else cause (RetireSlot slot clearKeyring)).

(** Of refreshAccountCredentials(), the clear of a session stored before. *)
Definition refreshAccountCredentials : close_act := reading (fun s =>
  if negb (accountsLoaded at_) then skip
  else if negb (rememberSession (c_vault s)) then requestSessionCredentialClear None 1 else skip).

Definition enterAccount (slot : jstr) : close_act :=
  on_vault (set_active slot) ;> cause (EnterAccount slot) ;> refreshAccountCredentials.

Definition leaveActiveAccount : close_act :=
  cause (Agent "account-change") ;> requestBwLock ;> requestSessionCredentialClear None 1 ;> dropVaultState.

Definition canChangeAccount (s : closing) : bool :=
  accountsLoaded at_ && negb (logoutPending (c_logout s)) && negb (sign_in_running at_).

Definition abandonedAddSlot (s : closing) : jstr :=
  let slot := activeSlot (c_vault s) in
  if negb (addingAccount at_) || str_eqb slot defaultAccountSlot then []
  else if registryHasAccount (accountRegistry at_) slot then [] else slot.

Definition retire_abandoned (slot : jstr) : close_act := if nonempty slot then retireAccountSlot slot true else skip.

Definition switchAccount (slot : jstr) : close_act := reading (fun s =>
  if negb (canChangeAccount s) || negb (registryHasAccount (accountRegistry at_) slot) then skip
  else if str_eqb slot (activeSlot (c_vault s)) && negb (addingAccount at_) then skip
  else leaveActiveAccount ;> enterAccount slot ;> retire_abandoned (abandonedAddSlot s)
       ;> on_vault (set_status checking) ;> cause RefreshStatus).

Definition beginAddAccount : close_act := reading (fun s =>
  if negb (canChangeAccount s) then skip
  else if (maxAccounts <=? length (accounts (accountRegistry at_)))%nat then skip
  else
    let slot := slotForNewAccount (random_digit at_) (accountRegistry at_) in
    if negb (nonempty slot) then skip
    else
      let abandoned := if str_eqb (abandonedAddSlot s) slot then [] else abandonedAddSlot s in
      leaveActiveAccount ;> enterAccount slot ;> retire_abandoned abandoned
      ;> if str_eqb slot defaultAccountSlot then on_vault (set_status checking) ;> cause RefreshStatus
         else on_vault (set_status unauthenticated)).

(** *** Logout *)

Definition credentialStoresRunning (s : closing) : bool := is_some (keyringStoreProc (c_keyring s)) || envelopeProc_running at_.

Definition requestAllCredentialClear : close_act := reading (fun s =>
  if busy (keyringClearAllProc (c_logout s)) then on_logout (set_allPending true)
  else if credentialStoresRunning s then on_logout (set_allPending true) ;> cause SweepRetry
  else
    on_logout (fun o => set_sweep (Clearing (activeSlot (c_vault s)) false) (set_allPending false o))
    ;> cause (Sweep (activeSlot (c_vault s)))).

Definition moveOffRemovedAccount (removed : jstr) : close_act :=
  let registry := registryRemoveAccount (accountRegistry at_) removed in
  let next := registryNextAccount registry removed in
  (if nonempty next then enterAccount next
   else on_vault (set_active (slotForNewAccount (random_digit at_) registry)))
  ;> (if negb (str_eqb removed defaultAccountSlot) then retireAccountSlot removed false else skip)
  ;> if nonempty next then on_vault (set_status checking) ;> cause RefreshStatus else skip.

Definition finishLogoutIfReady : close_act := reading (fun s =>
  let o := c_logout s in
  if negb (logoutPending o) || negb (logoutCliDone o) || negb (logoutCredentialsDone o) then skip
  else if negb (logoutCredentialsExitCode o =? 0) then cause LogoutFailed
  else
    on_logout (set_pendingLogout false)
    ;> on_vault (set_status unauthenticated)
    ;> cause (LoggedOut (activeSlot (c_vault s)))
    ;> moveOffRemovedAccount (activeSlot (c_vault s))).

Definition onLogoutCliFinished (exitCode : Z) : close_act := reading (fun s =>
  if negb (logoutPending (c_logout s)) then skip else on_logout (set_cli true exitCode) ;> finishLogoutIfReady).
Definition onLogoutCredentialsFinished (exitCode : Z) : close_act := reading (fun s =>
  if negb (logoutPending (c_logout s)) then skip else on_logout (set_credentials true exitCode) ;> finishLogoutIfReady).

Definition logoutCleanupFailed (o : logout) : bool :=
  logoutPending o && logoutCredentialsDone o && negb (logoutCredentialsExitCode o =? 0).
Definition retryLogoutCleanup : close_act := reading (fun s =>
  if negb (logoutCleanupFailed (c_logout s)) then skip
  else on_logout (set_credentials false 0) ;> requestAllCredentialClear).

Definition forgetStoredCredentials : close_act := requestAllCredentialClear ;> cause ForgetCredentials.

Definition logoutAccount : close_act := reading (fun s =>
  if logoutPending (c_logout s) then skip
  else
    on_logout (fun o => set_cli false 0 (set_credentials false 0 (set_pendingLogout true o)))
    ;> lockVault
    ;> cause (Agent "logout")
    ;> forgetStoredCredentials
    ;> reading (fun s => cause (RunLogout (activeSlot (c_vault s))))
    ;> on_vault (set_status unauthenticated)).

(** *** Signals *)

Definition onScreenLockState (raw : jsval) : close_act := reading (fun s =>
  if negb (lockOnScreenLock at_) || negb (is_unlocked s) then skip else if screenIsLocked raw then lockVault else skip).

Definition onSleepSignal (line : jsval) : close_act :=
  let token := trim (text_or_empty line) in
  if str_eqb token wakeSignalToken then update (set_suspend false)
  else if negb (str_eqb token sleepSignalToken) then skip
  else reading (fun s =>
    if negb (lockOnSuspend at_) || negb (is_unlocked s) then ackSleep
    else update (set_suspend true) ;> lockVault ;> maybeAckSleep).

Definition auto_lock_fired : close_act := reading (fun s => if is_unlocked s then lockVault else skip).

End Handlers.

(** ** Runs *)

Inductive closing_event :=
| UnlockSucceeded (rawSession : jsval)
| UnlockNotLoggedIn
| HandoffStarted
| HandoffRead (raw : jsval)
| LookupRead (raw : jsval)
| StatusAsked
| StatusRead (raw : jsval)
| VerifyStarted
| Verified (code : Z) (out : jsval)
| LockAsked
| LogoutAsked
| LogoutRetried
| AutoLockFired
| AccountChosen (slot : jstr)
| AccountAdded
| RememberChanged (remember : bool)
| ScreenLockRead (raw : jsval)
| SleepSignal (line : jsval)
| HelperLost
| StoreWrites
| StoreExited
| ClearErases
| ClearExited (code : Z) (still_running : bool)
| ClearFreed
| SweepErases
| SweepExited (code : Z) (still_running : bool)
| SweepFreed
| SweepTimer
| LockExited (code : Z) (stdout : jsval)
| LogoutExited (code : Z)
| BusyTimer
| Later.

Definition after_exit (still_running : bool) : clearer := if still_running then Exiting else Idle.

(** An exit of a clear: 0 only after it erased the entry. *)
Definition may_exit (p : clearer) (code : Z) : bool :=
  match p with Clearing _ erased => erased || negb (code =? 0) | _ => false end.

Definition run_later (at_ : around) (c : later_call) : close_act :=
  match c with
  | PumpLock => pumpBwLock at_
  | LockStep => runBwLockStep at_
  | RetryClear slot attempt => requestSessionCredentialClear (Some slot) attempt
  | SweepAgain => requestAllCredentialClear at_
  end.

(** An event of a process that does not run is none. *)
Definition close_step (at_ : around) (e : closing_event) : close_act := reading (fun s =>
  match e with
  | UnlockSucceeded raw => onUnlockSuccess raw
  | UnlockNotLoggedIn => unlock_not_logged_in
  | HandoffStarted => beginEpochOperation "sessionHandoff"
  | HandoffRead raw => onSessionHandoff at_ raw
  | LookupRead raw => onKeyringLookupFinished at_ raw
  | StatusAsked => runStatusCheck at_
  | StatusRead raw => onStatusFinished at_ raw
  | VerifyStarted => beginEpochOperation "bwVerify"
  | Verified code out => on_bw_verified at_ code out
  | LockAsked => lockVault at_
  | LogoutAsked => logoutAccount at_
  | LogoutRetried => retryLogoutCleanup at_
  | AutoLockFired => auto_lock_fired at_
  | AccountChosen slot => switchAccount at_ slot
  | AccountAdded => beginAddAccount at_
  | RememberChanged b => onRememberSessionChanged at_ b
  | ScreenLockRead raw => onScreenLockState at_ raw
  | SleepSignal line => onSleepSignal at_ line
  | HelperLost => on_helper_lost at_
  | StoreWrites =>
    match keyringStoreProc (c_keyring s) with Some slot => update (set_entries (fun es => {[slot]} ∪ es)) | None => skip end
  | StoreExited =>
    match keyringStoreProc (c_keyring s) with
    | Some _ =>
      on_keyring (fun k => set_store None (sessionStoreSlot k) k)
      ;> onSessionStored
      ;> (if logoutPending (c_logout s) && allCredentialsClearPending (c_logout s) then callLater SweepAgain else skip)
    | None => skip
    end
  | ClearErases =>
    match keyringClearProc (c_keyring s) with
    | Clearing slot _ => update (set_entries (fun es => es ∖ {[slot]})) ;> on_keyring (set_clear (Clearing slot true))
    | _ => skip
    end
  | ClearExited code still =>
    if may_exit (keyringClearProc (c_keyring s)) code
    then on_keyring (set_clear (after_exit still)) ;> onSessionClearExited at_ code else skip
  | ClearFreed => on_keyring (fun k => match keyringClearProc k with Exiting => set_clear Idle k | _ => k end)
  | SweepErases =>
    match keyringClearAllProc (c_logout s) with
    | Clearing slot _ => update (set_entries (fun es => es ∖ {[slot]})) ;> on_logout (set_sweep (Clearing slot true))
    | _ => skip
    end
  | SweepExited code still =>
    if may_exit (keyringClearAllProc (c_logout s)) code
    then on_logout (set_sweep (after_exit still))
         ;> (if allCredentialsClearPending (c_logout s) then callLater SweepAgain else onLogoutCredentialsFinished at_ code)
    else skip
  | SweepFreed => on_logout (fun o => match keyringClearAllProc o with Exiting => set_sweep Idle o | _ => o end)
  | SweepTimer =>
    if logoutPending (c_logout s) && allCredentialsClearPending (c_logout s) then requestAllCredentialClear at_ else skip
  | LockExited code stdout =>
    if lockProc (c_locks s) then on_locks (set_lockProc false) ;> onBwLockExited at_ code stdout else skip
  | LogoutExited code => onLogoutCliFinished at_ code
  | BusyTimer => pumpSessionKeyring
  | Later =>
    match c_later s with
    | [] => skip
    | c :: rest => update (set_later (fun _ => rest)) ;> run_later at_ c
    end
  end).

Definition close_run (evs : list (around * closing_event)) : close_act :=
  run_handlers (map (fun '(at_, e) => close_step at_ e) evs).
