(* ===== verification/ClosingKeyring.v ===== *)
(** * What a closed vault leaves in the keyring

    Every remembered session in the keyring is accounted for, in every state
    that the handlers of [Closing] can reach: it is of the account in use, its
    clear is under way, or the user was told that it stays. A logout ends only
    once its sweep has ended well. *)

From stdpp Require Import base list numbers gmap sets strings.
From S2P Require Import Prelude.
From S2P Require Import JsValue.
From S2P Require Import Accounts.
From S2P Require Import Session.
From S2P Require Import Commands.
From S2P Require Import Vault.
From S2P Require Import Helpers.
From S2P Require Import Handlers.
From S2P Require Import SshLoads.
From S2P Require Import Closing.
Local Open Scope Z_scope.
Local Open Scope handler_scope.

(** ** The remembered session: every entry is accounted for *)

(** A clear of the slot is queued, put off, or running and still to erase. *)
Definition awaits_clear (s : closing) (slot : jstr) : Prop :=
  slot ∈ sessionClearSlots (c_keyring s) \/ keyringClearProc (c_keyring s) = Clearing slot false
  \/ exists n, RetryClear slot n ∈ c_later s.

(** The account on the screen, with its session or without. *)
Inductive usage := Unused | InSession | OnScreen.
Definition in_use (used : usage) (s : closing) (slot : jstr) : Prop :=
  match used with
  | Unused => False
  | InSession => session (c_vault s) <> [] /\ activeSlot (c_vault s) = slot
  | OnScreen => activeSlot (c_vault s) = slot
  end.

(** Every entry is excused, on its way out, being written, or of an account in use. *)
Definition accounted (used : usage) (X : gset jstr) (s : closing) : Prop := forall slot, slot ∈ entries s ->
  slot ∈ X \/ awaits_clear s slot \/ keyringStoreProc (c_keyring s) = Some slot \/ in_use used s slot.

(** What excuses an entry: it was there from the start and nobody asked since,
    the user was told that it stays, or its session was dropped with its helper. *)
Fixpoint excused (X : gset jstr) (l : list closing_effect) : gset jstr :=
  match l with
  | [] => X
  | AskClear slot :: rest => excused (X ∖ {[slot]}) rest
  | (StillStored slot | LostHelper slot) :: rest => excused ({[slot]} ∪ X) rest
  | _ :: rest => excused X rest
  end.

Record tidy (s : closing) : Prop := {
  t_active : isAccountSlot (activeSlot (c_vault s)) = true;
  t_epochs : forall n e, readEpochs (c_vault s) !! n = Some e -> e <= vaultEpoch (c_vault s);
  t_store : forall slot, keyringStoreProc (c_keyring s) = Some slot ->
    slot = sessionStoreSlot (c_keyring s) /\ isAccountSlot slot = true
    /\ (readEpochs (c_vault s) !! "sessionStore" = Some (vaultEpoch (c_vault s)) -> slot = activeSlot (c_vault s));
  t_slots : Forall (fun slot => isAccountSlot slot = true) (sessionClearSlots (c_keyring s));
  t_clearing : forall slot e, keyringClearProc (c_keyring s) = Clearing slot e ->
    isAccountSlot slot = true /\ exists n, sessionClearRun (c_keyring s) = Some (slot, n);
  t_retries : forall slot n, RetryClear slot n ∈ c_later s -> isAccountSlot slot = true
}.

(** While a logout is pending nothing stores the session, and once the sweep has
    ended well the entry is gone. *)
Record parked (s : closing) : Prop := {
  p_epoch : logoutPending (c_logout s) = true -> readEpochs (c_vault s) !! "sessionStore" = None;
  p_sweep : forall slot erased, logoutPending (c_logout s) = true -> keyringClearAllProc (c_logout s) = Clearing slot erased ->
    allCredentialsClearPending (c_logout s) = true
    \/ slot = activeSlot (c_vault s) /\ keyringStoreProc (c_keyring s) = None /\ (erased = true -> slot ∉ entries s);
  p_done : logoutPending (c_logout s) = true -> logoutCredentialsDone (c_logout s) = true -> logoutCredentialsExitCode (c_logout s) = 0 ->
    keyringStoreProc (c_keyring s) = None /\ activeSlot (c_vault s) ∉ entries s
}.

Lemma excused_app X l1 l2 : excused X (l1 ++ l2) = excused (excused X l1) l2.
Proof. revert X. induction l1 as [|e l1 IH]; intros X; [done|]. destruct e; cbn [app excused]; apply IH. Qed.

Lemma accounted_mono k X Y s : X ⊆ Y -> accounted k X s -> accounted k Y s.
Proof. intros H A slot Hs. destruct (A slot Hs) as [?|?]; [left; set_solver|by right]. Qed.
Lemma accounted_used X k s : accounted Unused X s -> accounted k X s.
Proof. intros A slot Hs. destruct (A slot Hs) as [?|[?|[?|[]]]]; naive_solver. Qed.
Lemma accounted_idle X s : session (c_vault s) = [] -> accounted InSession X s -> accounted Unused X s.
Proof. intros E A slot Hs. destruct (A slot Hs) as [?|[?|[?|[? _]]]]; naive_solver. Qed.

(** Two states that agree on what the entries depend on. *)
Record same_books (s s' : closing) : Prop := {
  sb_vault : c_vault s' = c_vault s;
  sb_keyring : c_keyring s' = c_keyring s;
  sb_logout : c_logout s' = c_logout s;
  sb_entries : entries s' = entries s;
  sb_later : forall slot n, RetryClear slot n ∈ c_later s' <-> RetryClear slot n ∈ c_later s
}.

Definition unbooked (f : close_act) : Prop := forall s, same_books s (f s).1 /\ forall X, excused X (f s).2 = X.

Lemma same_books_refl s : same_books s s.
Proof. by split. Qed.
Lemma same_books_trans s1 s2 s3 : same_books s1 s2 -> same_books s2 s3 -> same_books s1 s3.
Proof. intros [] []. split; try congruence. intros. naive_solver. Qed.

Lemma unbooked_skip : unbooked skip.
Proof. intros s. by split. Qed.
Lemma unbooked_then f g : unbooked f -> unbooked g -> unbooked (f ;> g).
Proof.
  intros Hf Hg s. unfold then_do. specialize (Hf s). destruct (f s) as [s1 e1]. specialize (Hg s1). destruct (g s1) as [s2 e2].
  destruct Hf as [H1 X1], Hg as [H2 X2]. split; [by eapply same_books_trans|]. intros X. cbn in *. by rewrite excused_app, X1, X2.
Qed.
Lemma unbooked_reading f : (forall s, unbooked (f s)) -> unbooked (reading f).
Proof. intros H s. apply H. Qed.
Lemma unbooked_if (b : bool) f g : unbooked f -> unbooked g -> unbooked (if b then f else g).
Proof. by destruct b. Qed.
Lemma unbooked_cause e : (match e with AskClear _ | StillStored _ | LostHelper _ => False | _ => True end) -> unbooked (cause e).
Proof. intros H s. split; [apply same_books_refl|]. by destruct e. Qed.
Lemma unbooked_locks f : unbooked (on_locks f).
Proof. intros s. by split. Qed.
Lemma unbooked_suspend b : unbooked (update (set_suspend b)).
Proof. intros s. by split. Qed.
Lemma unbooked_secrets f : unbooked (update (set_secrets f)).
Proof. intros s. by split. Qed.
Lemma unbooked_later c : (match c with RetryClear _ _ => False | _ => True end) -> unbooked (callLater c).
Proof.
  intros H s. split; [|done]. split; try done. intros slot n. cbn. destruct c; try done; case_bool_decide; try done; set_solver.
Qed.

Create HintDb unbooked.
#[export] Hint Resolve unbooked_skip unbooked_then unbooked_reading unbooked_if unbooked_locks unbooked_suspend unbooked_secrets : unbooked.
#[export] Hint Extern 1 (unbooked (cause _)) => (apply unbooked_cause; exact I) : unbooked.
#[export] Hint Extern 1 (unbooked (callLater _)) => (apply unbooked_later; exact I) : unbooked.
Ltac unbooked := intros; auto 12 with unbooked.

Section Quiet.
Context (at_ : around).
Lemma unbooked_ack : unbooked (maybeAckSleep at_).
Proof. unfold maybeAckSleep, ackSleep. unbooked. Qed.
#[local] Hint Resolve unbooked_ack : unbooked.
Lemma unbooked_step : unbooked (runBwLockStep at_).
Proof. apply unbooked_reading. intros s. destruct (lockRun _); unbooked. Qed.
#[local] Hint Resolve unbooked_step : unbooked.
Lemma unbooked_pump : unbooked (pumpBwLock at_).
Proof. apply unbooked_reading. intros s. apply unbooked_if; [unbooked|]. destruct (lockQueue _); unbooked. Qed.
#[local] Hint Resolve unbooked_pump : unbooked.
Lemma unbooked_hold name : unbooked (holdSession at_ name).
Proof. unfold holdSession. unbooked. Qed.
#[local] Hint Resolve unbooked_hold : unbooked.
Lemma unbooked_request : unbooked (requestBwLock at_).
Proof. unfold requestBwLock. cbv zeta. unbooked. Qed.
Lemma unbooked_finish : unbooked (finishBwLock at_).
Proof. unfold finishBwLock, forgetVaultSecret. apply unbooked_reading. intros s. apply unbooked_then; [destruct (lockRun _)|]; unbooked. Qed.
#[local] Hint Resolve unbooked_finish : unbooked.
Lemma unbooked_lock_exit code out : unbooked (onBwLockExited at_ code out).
Proof. apply unbooked_reading. intros s. destruct (lockRun _) as [r|]; [|unbooked]. destruct (lock_checking r); unbooked. Qed.
Lemma unbooked_forget : unbooked (forgetVault at_).
Proof. unfold forgetVault. cbv zeta. unbooked. Qed.
Lemma unbooked_follow next : unbooked (followVaultClosedInSshAgent next).
Proof. unfold followVaultClosedInSshAgent. cbv zeta. unbooked. Qed.
Lemma unbooked_retire slot b : unbooked (retireAccountSlot slot b).
Proof. unfold retireAccountSlot. unbooked. Qed.
End Quiet.
#[export] Hint Resolve unbooked_ack unbooked_step unbooked_pump unbooked_hold unbooked_request unbooked_finish unbooked_lock_exit unbooked_forget unbooked_follow unbooked_retire : unbooked.

Definition books (used : usage) (X : gset jstr) (s : closing) : Prop := tidy s /\ accounted used X s.
Definition moves (f : close_act) (s : closing) (X : gset jstr) (used used' : usage) : Prop :=
  books used X s -> books used' (excused X (f s).2) (f s).1.

Lemma moves_then f g s X k1 k2 k3 : moves f s X k1 k2 ->
  (books k2 (excused X (f s).2) (f s).1 -> moves g (f s).1 (excused X (f s).2) k2 k3) -> moves (f ;> g) s X k1 k3.
Proof.
  intros Hf Hg H. specialize (Hf H). specialize (Hg Hf Hf). unfold then_do in *. destruct (f s) as [s1 e1]. cbn [fst snd] in *.
  destruct (g s1) as [s2 e2]. cbn [fst snd] in *. by rewrite excused_app.
Qed.
Lemma moves_reading f s X k k' : moves (f s) s X k k' -> moves (reading f) s X k k'.
Proof. done. Qed.
Lemma moves_skip s X k : moves skip s X k k.
Proof. by intros H. Qed.

Lemma same_books_books k X s s' : same_books s s' -> books k X s -> books k X s'.
Proof.
  intros [V K L E R] [[] A]. split.
  - split; rewrite ?V, ?K, ?R; try done. intros slot n. rewrite R. eauto.
  - intros slot. rewrite E. intros Hs. unfold awaits_clear, in_use. rewrite V, K. setoid_rewrite R. by apply A.
Qed.
Lemma moves_quiet f s X k : unbooked f -> moves f s X k k.
Proof. intros H B. destruct (H s) as [S E]. rewrite E. by eapply same_books_books. Qed.

(** A change of the vault that keeps the account, and of its session too. *)
Lemma moves_status st s X k : moves (on_vault (set_status st)) s X k k.
Proof. intros [[] A]. split; [by split|done]. Qed.
Lemma moves_remember b s X k : moves (on_vault (set_remember b)) s X k k.
Proof. intros [[] A]. split; [by split|done]. Qed.
Lemma moves_begin name s X k : name <> "sessionStore"%string -> moves (beginEpochOperation name) s X k k.
Proof.
  intros N [T A]. split; [|done]. destruct T as [Ta Te Ts Tl Tc Tr]. split; try done; cbn.
  - intros n e. rewrite lookup_insert_Some. intros [[_ <-]|[_ ?]]; [lia|eauto].
  - intros slot H. destruct (Ts slot H) as (? & ? & ?). split_and!; try done. by rewrite lookup_insert_ne by congruence.
Qed.
Lemma moves_storePending b s X k : moves (on_keyring (set_storePending b)) s X k k.
Proof. intros [[] A]. split; [by split|done]. Qed.
Lemma moves_logout f s X k : moves (on_logout f) s X k k.
Proof. intros [[] A]. split; [by split|done]. Qed.
Lemma moves_session t f s X : t <> [] -> (forall v, session (f v) = session v /\ status (f v) = status v /\ activeSlot (f v) = activeSlot v) ->
  (forall v, readEpochs (f v) = readEpochs v /\ vaultEpoch v <= vaultEpoch (f v)) ->
  moves (on_vault (fun v => set_session t (f v))) s X InSession InSession.
Proof.
  intros Ht Hf Hr [T A]. destruct (Hf (c_vault s)) as (F1 & F2 & F3), (Hr (c_vault s)) as (F4 & F5).
  split; [destruct T as [Ta Te Ts Tl Tc Tr]; split; cbn; rewrite ?F3, ?F4; try done|].
  - intros n e Hn. specialize (Te n e Hn). lia.
  - intros slot H. destruct (Ts slot H) as (? & ? & H3). split_and!; try done. intros E. apply H3. rewrite E. f_equal. specialize (Te _ _ E). lia.
  - intros slot Hs. destruct (A slot Hs) as [?|[?|[?|[_ ?]]]]; [by left|by right; left|by right; right; left|].
    right; right; right. split; [done|]. cbn. by rewrite F3.
Qed.

Lemma moves_adopt t s X : t <> [] -> moves (adopt_session t) s X InSession InSession.
Proof.
  intros Ht [T A]. split; [destruct T as [Ta Te Ts Tl Tc Tr]; split; cbn; try done|].
  - intros n e Hn. specialize (Te n e Hn). lia.
  - intros slot H. destruct (Ts slot H) as (? & ? & _). split_and!; try done. intros E. specialize (Te _ _ E). lia.
  - intros slot Hs. destruct (A slot Hs) as [?|[?|[?|[_ ?]]]]; [by left|by right; left|by right; right; left|].
    right; right; right. by split.
Qed.

Lemma moves_store s X k : moves storeCurrentSession s X k k.
Proof.
  apply moves_reading. destruct (logoutPending _); [apply moves_storePending|]. destruct (_ || _); [apply moves_storePending|].
  destruct (_ || _) eqn:E; [apply moves_storePending|]. apply orb_false_iff in E as [E1 _].
  destruct (keyringStoreProc (c_keyring s)) eqn:Ep; [done|].
  intros [T A]. cbn. split; [destruct T as [Ta Te Ts Tl Tc Tr]; split; cbn; try done|].
  - intros n e. rewrite lookup_insert_Some. intros [[_ <-]|[_ ?]]; [lia|eauto].
  - by intros slot [= <-].
  - intros slot Hs. destruct (A slot Hs) as [?|[?|[?|?]]]; [by left|by right; left|congruence|by right; right; right].
Qed.

(** A request accounts for the slot it names. *)
Lemma moves_request_for slot n s X k : isAccountSlot slot = true -> accounted k (X ∪ {[slot]}) s ->
  tidy s -> books k (excused X (requestSessionCredentialClear (Some slot) n s).2) (requestSessionCredentialClear (Some slot) n s).1.
Proof.
  intros V A T. unfold requestSessionCredentialClear, reading. rewrite V. destruct (busy _) eqn:Eb.
  - cbn. unfold set_keyring. cbv beta. case_bool_decide as Hin; split.
    + destruct T as [Ta Te Ts Tl Tc Tr]. by split.
    + intros sl Hs. destruct (decide (sl = slot)) as [->|N]; [by right; left; left|].
      destruct (A sl Hs) as [?|H]; [left; set_solver|by right].
    + destruct T as [Ta Te Ts Tl Tc Tr]. split; try done. cbn. apply Forall_app. by split; [|apply Forall_singleton].
    + intros sl Hs. destruct (decide (sl = slot)) as [->|N]; [right; left; left; cbn; set_solver|].
      destruct (A sl Hs) as [?|[[?|[?|?]]|?]]; [left; set_solver|right; left; left; cbn; set_solver|by right; left; right; left| |by right; right].
      right; left; right; by right.
  - destruct (keyringClearProc (c_keyring s)) eqn:Ec; try done. split; cbn.
    + destruct T as [Ta Te Ts Tl Tc Tr]. split; cbn; try done. intros sl e [= <- <-]. by split; [|exists n].
    + intros sl Hs. destruct (decide (sl = slot)) as [->|N]; [by right; left; right; left|].
      destruct (A sl Hs) as [?|[[?|[?|?]]|?]]; [left; set_solver|by right; left; left|congruence| |by right; right].
      right; left; right; by right.
Qed.
Lemma request_active n s : isAccountSlot (activeSlot (c_vault s)) = true ->
  requestSessionCredentialClear None n s = requestSessionCredentialClear (Some (activeSlot (c_vault s))) n s.
Proof. intros H. unfold requestSessionCredentialClear, reading. by rewrite H. Qed.

(** Asked for the account in use, none is left that only the session accounts for. *)
Lemma moves_request n s X k : moves (requestSessionCredentialClear None n) s X k Unused.
Proof.
  intros [T A]. rewrite request_active by apply T. apply moves_request_for; [apply T| |done].
  intros sl Hs. destruct (A sl Hs) as [?|[?|[?|H]]]; [left; set_solver|by right; left|by right; right; left|].
  left. destruct k; [done|destruct H as [_ <-]|rewrite <- H]; set_solver.
Qed.
Lemma moves_weaken f s X k k' : moves f s X k Unused -> moves f s X k k'.
Proof. intros H B. destruct (H B) as [T A]. split; [done|by apply accounted_used]. Qed.

Lemma moves_idle f s X k' : session (c_vault s) = [] -> moves f s X Unused k' -> moves f s X InSession k'.
Proof. intros E M [T A]. apply M. split; [done|by apply accounted_idle]. Qed.

Section Moves.
Context (at_ : around).

Lemma moves_drop s X k : moves (dropVaultState at_) s X Unused k.
Proof.
  unfold dropVaultState. apply (moves_then _ _ _ _ _ k).
  { intros [T A]. split; [destruct T; by split|]. intros sl Hs.
    destruct (A sl Hs) as [?|[?|[?|[]]]]; [by left|by right; left|by right; right; left]. }
  intros _. eapply moves_then; [apply moves_quiet; unbooked|intros _].
  eapply moves_then; [|intros _; eapply moves_then; [apply moves_storePending|intros _; apply moves_quiet; unbooked]].
  intros [T A]. split; [destruct T as [Ta Te Ts Tl Tc Tr]; split; cbn; try done|exact A].
  intros slot H. destruct (Ts slot H) as (? & ? & _). split_and!; try done.
Qed.

Lemma moves_lock s X k k' : moves (lockVault at_) s X k k'.
Proof.
  unfold lockVault. eapply moves_then; [apply moves_quiet; unbooked|intros _]. eapply moves_then; [apply moves_quiet; unbooked|intros _].
  eapply moves_then; [apply moves_request|intros _]. eapply moves_then; [apply moves_drop|intros _].
  apply moves_reading. case_bool_decide; [apply moves_skip|apply moves_status].
Qed.

Lemma moves_if (b : bool) f g s X k k' : moves f s X k k' -> moves g s X k k' -> moves (if b then f else g) s X k k'.
Proof. by destruct b. Qed.
Lemma moves_status_check s X k : moves (runStatusCheck at_) s X k k.
Proof. unfold runStatusCheck. apply moves_if; [apply moves_skip|]. eapply moves_then; [by apply moves_begin|intros _; apply moves_quiet; unbooked]. Qed.

Lemma moves_close_as next s X : moves (close_as at_ next) s X InSession InSession.
Proof.
  unfold close_as. eapply moves_then; [apply moves_quiet; unbooked|intros _]. eapply moves_then; [|intros _; apply moves_status].
  apply moves_reading. destruct (vaultStatePresent _ _); [|apply moves_skip]. destruct (nonempty _) eqn:E.
  - eapply moves_then; [apply moves_request|intros _; apply moves_drop].
  - unfold nonempty in E. apply negb_false_iff, str_eqb_eq in E. apply moves_idle; [done|].
    eapply moves_then; [apply moves_skip|intros _; apply moves_drop].
Qed.

Lemma nonempty_true t : nonempty t = true -> t <> [].
Proof. unfold nonempty. rewrite negb_true_iff. apply str_eqb_neq. Qed.

Lemma moves_unlock raw s X : moves (onUnlockSuccess raw) s X InSession InSession.
Proof.
  unfold onUnlockSuccess. destruct (nonempty _) eqn:E; [|apply moves_skip]. apply nonempty_true in E.
  eapply moves_then; [by apply moves_adopt|intros _]. eapply moves_then; [apply moves_status|intros _].
  eapply moves_then; [apply moves_store|intros _; apply moves_quiet; unbooked].
Qed.
Lemma moves_handoff raw s X : moves (onSessionHandoff at_ raw) s X InSession InSession.
Proof.
  unfold onSessionHandoff. apply moves_reading. cbv zeta beta. apply moves_if; [apply moves_skip|]. destruct (nonempty _) eqn:E.
  - apply nonempty_true in E. eapply moves_then; [by apply moves_adopt|intros _]. eapply moves_then; [apply moves_store|intros _].
    eapply moves_then; [apply moves_status|intros _; apply moves_quiet; unbooked].
  - apply moves_if; [apply moves_skip|]. apply moves_if; [apply moves_status_check|].
    apply moves_if; [|apply moves_status_check]. apply moves_if; [apply moves_skip|by apply moves_begin].
Qed.
Lemma moves_lookup raw s X : moves (onKeyringLookupFinished at_ raw) s X InSession InSession.
Proof.
  unfold onKeyringLookupFinished. apply moves_reading. cbv zeta beta. apply moves_if; [apply moves_skip|].
  eapply moves_then; [|intros _; eapply moves_then; [apply moves_status_check|intros _; apply moves_if; apply moves_quiet; unbooked]].
  destruct (nonempty _) eqn:E; [|apply moves_skip]. apply nonempty_true in E.
  apply moves_session; [done| |]; intros v; destruct (_ && _); cbn; split_and?; try done; lia.
Qed.
Lemma moves_status_read raw s X : moves (onStatusFinished at_ raw) s X InSession InSession.
Proof.
  unfold onStatusFinished. apply moves_reading. cbv zeta beta. repeat apply moves_if; try apply moves_skip; try apply moves_close_as.
  eapply moves_then; [apply moves_status|intros _; apply moves_quiet; unbooked].
Qed.
Lemma moves_verified code out s X : moves (on_bw_verified at_ code out) s X InSession InSession.
Proof.
  unfold on_bw_verified. apply moves_reading. cbv zeta beta. apply moves_if; [apply moves_if; apply moves_quiet; unbooked|].
  destruct (nonempty _) eqn:E; [|apply moves_skip]. apply nonempty_true in E.
  eapply moves_then; [|intros _; apply moves_store]. apply (moves_session _ (fun v => v)); [done|done|]. intros v. split; [done|lia].
Qed.
End Moves.

(** *** Accounts *)

Definition sane (at_ : around) : Prop := registry_wf (accountRegistry at_) /\ random_digits (random_digit at_).

Lemma account_slot_valid r slot : registry_wf r -> registryHasAccount r slot = true -> isAccountSlot slot = true.
Proof.
  intros W H. unfold registryHasAccount in H. apply bool_decide_eq_true in H as [a H].
  apply find_first_some in H as [Hin E]. apply str_eqb_eq in E as <-.
  pose proof (wf_accounts _ W) as F. rewrite Forall_forall in F. by apply F.
Qed.

Lemma next_account_in leaving l best a : next_account leaving l best = Some a -> best = Some a \/ a ∈ l.
Proof.
  revert best. induction l as [|b l IH]; intros best; cbn; [by left|]. destruct (str_eqb _ _).
  { intros H. destruct (IH _ H); [by left|right; by right]. }
  destruct best as [c|]; intros H; destruct (IH _ H) as [E|?]; try (right; by right); [|injection E as <-; right; by left].
  destruct (num_ltb _ _); injection E as <-; [right; by left|by left].
Qed.
Lemma next_account_some leaving l b : is_Some (next_account leaving l (Some b)).
Proof. revert b. induction l as [|a l IH]; intros b; cbn; [done|]. destruct (str_eqb _ _); [done|]. apply IH. Qed.

(** Where the panel goes after a logout: an account still there, else the default slot. *)
Lemma next_slot_valid at_ removed : sane at_ ->
  let r := registryRemoveAccount (accountRegistry at_) removed in
  let next := registryNextAccount r removed in
  isAccountSlot (if nonempty next then next else slotForNewAccount (random_digit at_) r) = true.
Proof.
  intros [W D]. cbv zeta. assert (W' := remove_wf _ removed W). set (r := registryRemoveAccount _ _) in *.
  pose proof (wf_accounts _ W') as F. unfold registryNextAccount. destruct (next_account removed (accounts r) None) as [a|] eqn:E.
  - apply next_account_in in E as [?|Hin]; [done|]. rewrite Forall_forall in F. pose proof (wf_slot _ (F a Hin)) as V.
    destruct (nonempty (slot a)) eqn:N; [done|]. unfold nonempty in N. apply negb_false_iff, str_eqb_eq in N. by rewrite N in V.
  - assert (accounts r = []) as Er.
    { destruct (accounts r) as [|a l] eqn:Ea; [done|]. cbn in E. assert (str_eqb (slot a) removed = false) as Hs.
      { unfold r, registryRemoveAccount in Ea. cbn in Ea. assert (Ha : In a (a :: l)) by (by left). rewrite <- Ea in Ha.
        apply List.filter_In in Ha as [_ Ha]. by apply negb_true_iff in Ha. }
      rewrite Hs in E. destruct (next_account_some removed l a) as [? Hn]. by rewrite Hn in E. }
    cbn. unfold slotForNewAccount, registryHasAccount, registryAccount. rewrite Er. done.
Qed.

Lemma then_state (f g : close_act) s : ((f ;> g) s).1 = (g (f s).1).1.
Proof. unfold then_do. destruct (f s) as [s1 e1]. cbn. by destruct (g s1). Qed.
Lemma then_effects (f g : close_act) s : ((f ;> g) s).2 = (f s).2 ++ (g (f s).1).2.
Proof. unfold then_do. destruct (f s) as [s1 e1]. cbn. by destruct (g s1). Qed.

Definition no_store_begun (s : closing) : Prop := readEpochs (c_vault s) !! "sessionStore" = None.

Section Accounts.
Context (at_ : around).

Lemma drop_reads s : no_store_begun (dropVaultState at_ s).1.
Proof. unfold dropVaultState, forgetVault, no_store_begun. rewrite !then_state. done. Qed.

Lemma moves_active slot s X : isAccountSlot slot = true -> no_store_begun s -> moves (on_vault (set_active slot)) s X Unused Unused.
Proof.
  intros V N [T A]. split; [|exact A]. destruct T as [Ta Te Ts Tl Tc Tr]. split; try done. cbn.
  intros sl H. destruct (Ts sl H) as (? & ? & _). split_and!; try done. unfold no_store_begun in N. by rewrite N.
Qed.
Lemma moves_credentials s X k : moves (refreshAccountCredentials at_) s X k k.
Proof.
  unfold refreshAccountCredentials. apply moves_reading. apply moves_if; [apply moves_skip|].
  apply moves_if; [apply moves_weaken, moves_request|apply moves_skip].
Qed.
Lemma moves_enter slot s X : isAccountSlot slot = true -> no_store_begun s -> moves (enterAccount at_ slot) s X Unused Unused.
Proof.
  intros V N. unfold enterAccount. eapply moves_then; [by apply moves_active|intros _].
  eapply moves_then; [apply moves_quiet; unbooked|intros _; apply moves_credentials].
Qed.
Lemma moves_leave s X k : moves (leaveActiveAccount at_) s X k Unused.
Proof.
  unfold leaveActiveAccount. eapply moves_then; [apply moves_quiet; unbooked|intros _]. eapply moves_then; [apply moves_quiet; unbooked|intros _].
  eapply moves_then; [apply moves_request|intros _; apply moves_drop].
Qed.
Lemma leave_reads s : no_store_begun (leaveActiveAccount at_ s).1.
Proof. unfold leaveActiveAccount. rewrite !then_state. apply drop_reads. Qed.

Lemma unbooked_abandoned slot : unbooked (retire_abandoned slot).
Proof. unfold retire_abandoned. unbooked. Qed.

Lemma moves_switch slot s X : sane at_ -> moves (switchAccount at_ slot) s X InSession InSession.
Proof.
  intros [W _]. apply moves_reading. destruct (_ || _) eqn:E; [apply moves_skip|]. apply moves_if; [apply moves_skip|].
  apply orb_false_iff in E as [_ E]. apply negb_false_iff in E.
  apply moves_weaken. eapply moves_then; [apply moves_leave|intros _].
  eapply moves_then; [apply moves_enter; [by eapply account_slot_valid|apply leave_reads]|intros _].
  eapply moves_then; [apply moves_quiet, unbooked_abandoned|intros _].
  eapply moves_then; [apply moves_status|intros _; apply moves_quiet; unbooked].
Qed.
Lemma moves_add s X : sane at_ -> moves (beginAddAccount at_) s X InSession InSession.
Proof.
  intros [_ D]. apply moves_reading. apply moves_if; [apply moves_skip|]. destruct (_ <=? _)%nat; [apply moves_skip|]. cbv zeta.
  destruct (nonempty _) eqn:E; [|apply moves_skip]. apply nonempty_true in E. cbn [negb].
  apply moves_weaken. eapply moves_then; [apply moves_leave|intros _].
  eapply moves_then; [apply moves_enter; [by apply (slotForNewAccount_free _ _ D)|apply leave_reads]|intros _].
  eapply moves_then; [apply moves_quiet, unbooked_abandoned|intros _].
  apply moves_if; [|apply moves_status]. eapply moves_then; [apply moves_status|intros _; apply moves_quiet; unbooked].
Qed.

Lemma moves_lost s X : moves (on_helper_lost at_) s X InSession InSession.
Proof.
  apply moves_reading. apply moves_if; [apply moves_skip|]. apply (moves_then _ _ _ _ _ OnScreen).
  { intros [T A]. split; [destruct T; by split|]. intros sl Hs. destruct (A sl Hs) as [?|[?|[?|[_ ?]]]]; [by left|by right; left|by right; right; left|by right; right; right]. }
  intros _. apply moves_if; [apply moves_lock|]. apply (moves_then _ _ _ _ _ Unused).
  { intros [T A]. split; [done|]. intros sl Hs. destruct (A sl Hs) as [?|[?|[?|H]]]; [left; set_solver|by right; left|by right; right; left|].
    left. cbn in *. rewrite <- H. set_solver. }
  intros _. eapply moves_then; [apply moves_quiet; unbooked|intros _; apply moves_drop].
Qed.

Lemma moves_remembered b s X : moves (onRememberSessionChanged at_ b) s X InSession InSession.
Proof.
  apply moves_reading. apply moves_if; [apply moves_skip|]. eapply moves_then; [apply moves_remember|intros _]. apply moves_if; [apply moves_skip|].
  eapply moves_then; [apply moves_storePending|intros _; apply moves_weaken, moves_request].
Qed.
Lemma moves_auto s X : moves (auto_lock_fired at_) s X InSession InSession.
Proof. apply moves_reading. apply moves_if; [apply moves_lock|apply moves_skip]. Qed.
Lemma moves_screen raw s X : moves (onScreenLockState at_ raw) s X InSession InSession.
Proof. apply moves_reading. apply moves_if; [apply moves_skip|]. apply moves_if; [apply moves_lock|apply moves_skip]. Qed.
Lemma moves_sleep line s X : moves (onSleepSignal at_ line) s X InSession InSession.
Proof.
  unfold onSleepSignal. cbv zeta. apply moves_if; [apply moves_quiet; unbooked|]. apply moves_if; [apply moves_skip|].
  apply moves_reading. apply moves_if; [apply moves_quiet; unfold ackSleep; unbooked|].
  eapply moves_then; [apply moves_quiet; unbooked|intros _]. eapply moves_then; [apply moves_lock|intros _; apply moves_quiet; unbooked].
Qed.
Lemma moves_not_logged_in s X : moves unlock_not_logged_in s X InSession InSession.
Proof. unfold unlock_not_logged_in. eapply moves_then; [apply moves_quiet; unbooked|intros _; apply moves_status]. Qed.

(** *** The processes of the keyring *)

Lemma same_sets (X : gset jstr) slot : (X ∪ {[slot]}) ∖ {[slot]} = X ∖ {[slot]}.
Proof. set_solver. Qed.

Lemma moves_store_writes s X k : moves (match keyringStoreProc (c_keyring s) with Some slot => update (set_entries (fun es => {[slot]} ∪ es)) | None => skip end) s X k k.
Proof.
  destruct (keyringStoreProc _) as [sl|] eqn:E; [|apply moves_skip]. intros [T A]. split; [destruct T; by split|].
  intros slot. cbn. rewrite elem_of_union, elem_of_singleton. intros [->|Hs]; [by right; right; left|by apply A].
Qed.

Lemma moves_store_exited s X sl : keyringStoreProc (c_keyring s) = Some sl ->
  moves (on_keyring (fun k => set_store None (sessionStoreSlot k) k) ;> onSessionStored) s X InSession InSession.
Proof.
  intros E [T A]. destruct (t_store _ T sl E) as (Es & V & Hact). set (s1 := set_keyring (fun k => set_store None (sessionStoreSlot k) k) s).
  assert (T1 : tidy s1) by (destruct T; by split).
  assert (A1 : accounted InSession (X ∪ {[sl]}) s1).
  { intros slot Hs. destruct (A slot Hs) as [?|[?|[H|?]]]; [left; set_solver|by right; left| |by right; right; right].
    rewrite E in H. injection H as <-. left. set_solver. }
  rewrite then_effects, then_state. change ((on_keyring _ s).1) with s1. cbn [fst snd update app on_keyring]. unfold onSessionStored, reading.
  destruct (epochOperationIsStale _ _ || _ || _) eqn:Eb.
  - rewrite then_effects, then_state. cbn [fst snd update app on_keyring]. change (sessionStoreSlot (c_keyring s1)) with (sessionStoreSlot (c_keyring s)).
    rewrite <- Es. apply moves_request_for; [done| |]; [|destruct T1; by split]. exact A1.
  - apply orb_false_iff in Eb as [Eb Ev]. apply orb_false_iff in Eb as [Eb _]. apply negb_false_iff, bool_decide_eq_true in Eb. apply negb_false_iff, nonempty_true in Ev.
    apply moves_storePending. split; [done|]. intros slot Hs. destruct (decide (slot = sl)) as [->|N].
    + right; right; right. split; [exact Ev|]. symmetry. by apply Hact.
    + destruct (A1 slot Hs) as [?|?]; [left; set_solver|by right].
Qed.

Lemma moves_clear_erases s X k slot e : keyringClearProc (c_keyring s) = Clearing slot e ->
  moves (update (set_entries (fun es => es ∖ {[slot]})) ;> on_keyring (set_clear (Clearing slot true))) s X k k.
Proof.
  intros E [T A]. rewrite then_effects, then_state. cbn. split.
  - pose proof (t_clearing _ T slot e E) as Hc. destruct T as [Ta Te Ts Tl Tc Tr]. split; try done. cbn. by intros sl e' [= <- <-].
  - intros sl. cbn. rewrite elem_of_difference, elem_of_singleton. intros [Hs N].
    destruct (A sl Hs) as [?|[[?|[H|?]]|?]]; [by left|by right; left; left| |by right; left; right; right|by right; right].
    rewrite E in H. congruence.
Qed.

Lemma moves_clear_exited s X code still : may_exit (keyringClearProc (c_keyring s)) code = true ->
  moves (on_keyring (set_clear (after_exit still)) ;> onSessionClearExited at_ code) s X InSession InSession.
Proof.
  destruct (keyringClearProc (c_keyring s)) as [|sl e|] eqn:E; [done| |done]. cbn [may_exit]. intros Hm [T A].
  destruct (t_clearing _ T sl e E) as (V & n & Hr). set (s1 := set_keyring (set_clear (after_exit still)) s).
  assert (T1 : tidy s1) by (destruct T as [Ta Te Ts Tl Tc Tr]; split; try done; cbn; by destruct still).
  assert (A1 : accounted InSession (if e then X else X ∪ {[sl]}) s1).
  { intros slot Hs. destruct (A slot Hs) as [?|[[?|[H|?]]|?]]; [left; destruct e; set_solver|by right; left; left| |by right; left; right; right|by right; right].
    rewrite E in H. injection H as -> ->. left. set_solver. }
  rewrite then_effects, then_state. change ((on_keyring _ s).1) with s1. cbn [fst snd update app on_keyring]. unfold onSessionClearExited, reading.
  change (sessionClearRun (c_keyring s1)) with (sessionClearRun (c_keyring s)). rewrite Hr. destruct (_ && _) eqn:Eb.
  - cbn. split.
    + destruct T1 as [Ta Te Ts Tl Tc Tr]. split; try done. cbn. intros slot n'. rewrite elem_of_app, list_elem_of_singleton. intros [?|[= -> _]]; [by eapply Tr|done].
    + intros slot Hs. destruct (decide (slot = sl)) as [->|N]; [right; left; right; right; exists (n + 1); cbn; set_solver|].
      destruct (A1 slot Hs) as [?|[[?|[?|[m ?]]]|?]]; [left; destruct e; set_solver|by right; left; left|by right; left; right; left| |by right; right].
      right; left; right; right. exists m. cbn. set_solver.
  - rewrite then_effects, then_state. set (s2 := set_keyring (set_clearRun None) s1). change ((on_keyring (set_clearRun None) s1).1) with s2.
    assert (T2 : tidy s2) by (destruct T1 as [Ta Te Ts Tl Tc Tr]; split; try done; cbn; by destruct still).
    cbn [fst snd update app on_keyring]. destruct (code =? 0) eqn:Ec; cbn [negb].
    + rewrite orb_false_r in Hm. rewrite Hm in A1. eapply moves_then; [apply moves_skip|intros _; apply moves_quiet; unbooked|by split].
    + rewrite then_effects, then_state. cbn [fst snd cause app excused]. apply moves_quiet; [unbooked|]. split; [done|].
      eapply accounted_mono, A1. destruct e; set_solver.
Qed.
End Accounts.

(** *** A pending logout *)

(** What leaves a pending logout as it is. *)
Record calm (s s' : closing) : Prop := {
  ca_logout : c_logout s' = c_logout s;
  ca_active : activeSlot (c_vault s') = activeSlot (c_vault s);
  ca_entries : entries s' ⊆ entries s;
  ca_reads : logoutPending (c_logout s) = true -> no_store_begun s -> no_store_begun s';
  ca_store : logoutPending (c_logout s) = true -> keyringStoreProc (c_keyring s) = None -> keyringStoreProc (c_keyring s') = None
}.
Definition keeps_calm (f : close_act) : Prop := forall s, calm s (f s).1.

Lemma calm_refl s : calm s s.
Proof. by split. Qed.
Lemma calm_trans s1 s2 s3 : calm s1 s2 -> calm s2 s3 -> calm s1 s3.
Proof. intros [L1 A1 E1 R1 S1] [L2 A2 E2 R2 S2]. rewrite L1 in *. split; try congruence; [set_solver|auto|auto]. Qed.
Lemma calm_parked s s' : calm s s' -> parked s -> parked s'.
Proof.
  intros [L A E R S] [P1 P2 P3]. split; rewrite L, ?A.
  - intros H. apply R; [done|by apply P1].
  - intros slot e H Hs. destruct (P2 slot e H Hs) as [?|(? & ? & Hn)]; [by left|right]. split_and!; [done|by apply S|set_solver].
  - intros H Hd Hc. destruct (P3 H Hd Hc). split; [by apply S|set_solver].
Qed.

Lemma calm_skip : keeps_calm skip.
Proof. intros s. apply calm_refl. Qed.
Lemma calm_then f g : keeps_calm f -> keeps_calm g -> keeps_calm (f ;> g).
Proof. intros Hf Hg s. rewrite then_state. by eapply calm_trans. Qed.
Lemma calm_reading f : (forall s, keeps_calm (f s)) -> keeps_calm (reading f).
Proof. intros H s. apply H. Qed.
Lemma calm_if (b : bool) f g : keeps_calm f -> keeps_calm g -> keeps_calm (if b then f else g).
Proof. by destruct b. Qed.
Lemma calm_quiet f : unbooked f -> keeps_calm f.
Proof. intros H s. destruct (H s) as [[V K L E _] _]. split; unfold no_store_begun; rewrite ?V, ?K, ?E; try done. Qed.
Lemma calm_cause e : keeps_calm (cause e).
Proof. intros s. apply calm_refl. Qed.
Lemma calm_keyring f : (forall k, keyringStoreProc (f k) = keyringStoreProc k) -> keeps_calm (on_keyring f).
Proof. intros H s. split; try done. cbn. by rewrite H. Qed.
Lemma calm_vault f : (forall v, activeSlot (f v) = activeSlot v) ->
  (forall v, readEpochs v !! "sessionStore" = None -> readEpochs (f v) !! "sessionStore" = None) -> keeps_calm (on_vault f).
Proof. intros H1 H2 s. split; try done; cbn; auto. intros _. apply H2. Qed.
Lemma calm_begin name : name <> "sessionStore"%string -> keeps_calm (beginEpochOperation name).
Proof. intros N. apply calm_vault; [done|]. intros v. cbn. by rewrite lookup_insert_ne. Qed.
Lemma calm_later c : keeps_calm (callLater c).
Proof. intros s. by split. Qed.

Create HintDb calm.
#[export] Hint Resolve calm_skip calm_then calm_reading calm_if calm_cause calm_later : calm.
#[export] Hint Extern 1 (keeps_calm (on_keyring _)) => (apply calm_keyring; intros; try case_bool_decide; done) : calm.
#[export] Hint Extern 1 (keeps_calm (on_vault _)) => (apply calm_vault; done) : calm.
#[export] Hint Extern 1 (keeps_calm (beginEpochOperation _)) => (apply calm_begin; done) : calm.
#[export] Hint Extern 2 (keeps_calm _) => (apply calm_quiet; solve [auto with unbooked]) : calm.
Ltac calm := intros; auto 14 with calm.

Section Calm.
Context (at_ : around).

Lemma calm_request slot n : keeps_calm (requestSessionCredentialClear slot n).
Proof. apply calm_reading. intros s. apply calm_then; [calm|]. apply calm_if; calm. Qed.
#[local] Hint Resolve calm_request : calm.
Lemma calm_store : keeps_calm storeCurrentSession.
Proof.
  intros s. unfold storeCurrentSession, reading. destruct (logoutPending (c_logout s)) eqn:E; [calm; apply calm_keyring; done|].
  repeat (destruct (_ || _); [apply calm_keyring; done|]). cbn. split; try done; cbn; by rewrite E.
Qed.
#[local] Hint Resolve calm_store : calm.
Lemma calm_stored : keeps_calm onSessionStored.
Proof. unfold onSessionStored. calm. Qed.
#[local] Hint Resolve calm_stored : calm.
Lemma calm_pump_keyring : keeps_calm pumpSessionKeyring.
Proof. apply calm_reading. intros s. apply calm_if; [calm|]. destruct (sessionClearSlots _); calm. Qed.
#[local] Hint Resolve calm_pump_keyring : calm.
Lemma calm_clear_exited code : keeps_calm (onSessionClearExited at_ code).
Proof. apply calm_reading. intros s. destruct (sessionClearRun _) as [[slot n]|]; calm. Qed.
#[local] Hint Resolve calm_clear_exited : calm.
Lemma calm_drop : keeps_calm (dropVaultState at_).
Proof. unfold dropVaultState. calm. Qed.
#[local] Hint Resolve calm_drop : calm.
Lemma calm_lock : keeps_calm (lockVault at_).
Proof. unfold lockVault. calm. Qed.
#[local] Hint Resolve calm_lock : calm.
Lemma calm_adopt t : keeps_calm (adopt_session t).
Proof. unfold adopt_session. calm. Qed.
#[local] Hint Resolve calm_adopt : calm.
Lemma calm_unlock raw : keeps_calm (onUnlockSuccess raw).
Proof. unfold onUnlockSuccess. cbv zeta. calm. Qed.
Lemma calm_status : keeps_calm (runStatusCheck at_).
Proof. unfold runStatusCheck. calm. Qed.
#[local] Hint Resolve calm_status : calm.
Lemma calm_handoff raw : keeps_calm (onSessionHandoff at_ raw).
Proof. unfold onSessionHandoff. cbv zeta. calm. Qed.
Lemma calm_lookup raw : keeps_calm (onKeyringLookupFinished at_ raw).
Proof.
  apply calm_reading. intros s. cbv zeta. apply calm_if; [calm|]. apply calm_then; [|calm]. apply calm_if; [|calm].
  apply calm_vault; intros v; by destruct (_ && _).
Qed.
Lemma calm_close_as next : keeps_calm (close_as at_ next).
Proof. unfold close_as. calm. Qed.
#[local] Hint Resolve calm_close_as : calm.
Lemma calm_status_read raw : keeps_calm (onStatusFinished at_ raw).
Proof. unfold onStatusFinished. cbv zeta. calm. Qed.
Lemma calm_verified code out : keeps_calm (on_bw_verified at_ code out).
Proof. unfold on_bw_verified. cbv zeta. calm. Qed.
Lemma calm_lost : keeps_calm (on_helper_lost at_).
Proof. unfold on_helper_lost. calm. Qed.
Lemma calm_remembered b : keeps_calm (onRememberSessionChanged at_ b).
Proof. unfold onRememberSessionChanged. calm. Qed.
Lemma calm_screen raw : keeps_calm (onScreenLockState at_ raw).
Proof. unfold onScreenLockState. calm. Qed.
Lemma calm_sleep line : keeps_calm (onSleepSignal at_ line).
Proof. unfold onSleepSignal, ackSleep. cbv zeta. calm. Qed.
Lemma calm_auto : keeps_calm (auto_lock_fired at_).
Proof. unfold auto_lock_fired. calm. Qed.
Lemma calm_not_logged_in : keeps_calm unlock_not_logged_in.
Proof. unfold unlock_not_logged_in. calm. Qed.
End Calm.
#[export] Hint Resolve calm_request calm_store calm_stored calm_pump_keyring calm_clear_exited calm_drop calm_lock calm_adopt calm_unlock calm_status
  calm_handoff calm_lookup calm_close_as calm_status_read calm_verified calm_lost calm_remembered calm_screen calm_sleep calm_auto calm_not_logged_in : calm.

Lemma parked_free s : logoutPending (c_logout s) = false -> parked s.
Proof. intros E. split; rewrite E; done. Qed.

Definition same_logout (f : close_act) : Prop := forall s, c_logout (f s).1 = c_logout s.
Lemma same_logout_calm f : keeps_calm f -> same_logout f.
Proof. intros H s. apply (H s). Qed.
Lemma same_logout_then f g : same_logout f -> same_logout g -> same_logout (f ;> g).
Proof. intros Hf Hg s. by rewrite then_state, Hg, Hf. Qed.
Lemma same_logout_if (b : bool) f g : same_logout f -> same_logout g -> same_logout (if b then f else g).
Proof. by destruct b. Qed.
Lemma same_logout_active slot : same_logout (on_vault (set_active slot)).
Proof. done. Qed.
#[export] Hint Resolve same_logout_then same_logout_if same_logout_active : calm.
#[export] Hint Extern 3 (same_logout _) => (apply same_logout_calm; solve [auto 14 with calm]) : calm.

Section Logout.
Context (at_ : around).

Lemma credentials_calm : keeps_calm (refreshAccountCredentials at_).
Proof. unfold refreshAccountCredentials. calm. Qed.
#[local] Hint Resolve credentials_calm : calm.
Lemma enter_logout slot : same_logout (enterAccount at_ slot).
Proof. unfold enterAccount. auto 10 with calm. Qed.
#[local] Hint Resolve enter_logout : calm.
Lemma leave_calm : keeps_calm (leaveActiveAccount at_).
Proof. unfold leaveActiveAccount. calm. Qed.
#[local] Hint Resolve leave_calm : calm.
#[local] Hint Extern 2 (keeps_calm (retire_abandoned _)) => (apply calm_quiet, unbooked_abandoned) : calm.

Lemma parked_switch slot s : parked s -> parked (switchAccount at_ slot s).1.
Proof.
  intros P. unfold switchAccount, reading. destruct (_ || _) eqn:E; [done|]. destruct (_ && _); [done|].
  apply orb_false_iff in E as [E _]. unfold canChangeAccount in E. apply negb_false_iff in E. bool_hyps.
  apply parked_free. erewrite (same_logout_then (leaveActiveAccount at_)); [done|auto with calm|auto 14 with calm].
Qed.
Lemma parked_add s : parked s -> parked (beginAddAccount at_ s).1.
Proof.
  intros P. unfold beginAddAccount, reading. destruct (negb (canChangeAccount _ _)) eqn:E; [done|]. destruct (_ <=? _)%nat; [done|]. cbv zeta.
  destruct (negb (nonempty _)); [done|]. unfold canChangeAccount in E. apply negb_false_iff in E. bool_hyps.
  apply parked_free. erewrite (same_logout_then (leaveActiveAccount at_)); [done|auto with calm|auto 14 with calm].
Qed.

(** A request for the sweep, with no store under way, makes it the one that counts. *)
Lemma parked_request s :
  (logoutPending (c_logout s) = true -> no_store_begun s) ->
  (logoutPending (c_logout s) = true -> logoutCredentialsDone (c_logout s) = true -> logoutCredentialsExitCode (c_logout s) = 0 ->
    keyringStoreProc (c_keyring s) = None /\ activeSlot (c_vault s) ∉ entries s) ->
  parked (requestAllCredentialClear at_ s).1.
Proof.
  intros P1 P3. unfold requestAllCredentialClear, reading. destruct (keyringClearAllProc (c_logout s)) eqn:Es; cbn [busy].
  - destruct (credentialStoresRunning at_ s) eqn:Er; cbn; (split; [done| |done]); cbn.
    + intros slot e _. by rewrite Es.
    + intros slot e _ [= <- <-]. right. split_and!; [done| |done]. unfold credentialStoresRunning in Er. apply orb_false_iff in Er as [Er _].
      by destruct (keyringStoreProc (c_keyring s)).
  - split; [done| |done]. by left.
  - split; [done| |done]. by left.
Qed.
Lemma parked_again s : parked s -> parked (requestAllCredentialClear at_ s).1.
Proof. intros []. by apply parked_request. Qed.

Lemma lock_reads s : no_store_begun (lockVault at_ s).1.
Proof.
  unfold lockVault. rewrite !then_state. match goal with |- context [dropVaultState at_ ?x] => pose proof (drop_reads at_ x) as H; destruct (dropVaultState at_ x) as [s1 e1] end.
  unfold reading. cbn in *. by case_bool_decide.
Qed.

Lemma parked_logout s : parked s -> parked (logoutAccount at_ s).1.
Proof.
  intros P. unfold logoutAccount, reading at 1. destruct (logoutPending (c_logout s)) eqn:E; [done|].
  unfold forgetStoredCredentials. rewrite !then_state. match goal with |- context [lockVault at_ ?x] => set (s1 := x) end.
  pose proof (lock_reads s1) as N. pose proof (ca_logout _ _ (calm_lock at_ s1)) as L. destruct (lockVault at_ s1) as [s2 e2]. cbn [fst] in *.
  match goal with |- parked (?f ?x).1 => apply (calm_parked x); [assert (H : keeps_calm f) by (calm); apply H|] end.
  apply parked_request; cbn; [done|]. rewrite L. done.
Qed.

Lemma finish_free s : parked s -> parked (finishLogoutIfReady at_ s).1.
Proof.
  intros P. unfold finishLogoutIfReady, reading. cbv zeta. destruct (_ || _); [done|]. destruct (negb (_ =? _)); [done|].
  apply parked_free. rewrite !then_state. unfold moveOffRemovedAccount. cbv zeta.
  match goal with |- context [(?f ?x).1] => assert (H : same_logout f) by (auto 14 with calm); rewrite H end. done.
Qed.

Lemma parked_cli code s : parked s -> parked (onLogoutCliFinished at_ code s).1.
Proof.
  intros P. unfold onLogoutCliFinished, reading. destruct (negb _); [done|]. rewrite then_state. apply finish_free.
  destruct P as [P1 P2 P3]. by split.
Qed.
Lemma parked_retry s : parked s -> parked (retryLogoutCleanup at_ s).1.
Proof.
  intros P. unfold retryLogoutCleanup, reading. destruct (negb _); [done|]. rewrite then_state. apply parked_request; [apply P|done].
Qed.
Lemma parked_sweep_exited code still s : may_exit (keyringClearAllProc (c_logout s)) code = true -> parked s ->
  parked ((on_logout (set_sweep (after_exit still))
    ;> (if allCredentialsClearPending (c_logout s) then callLater SweepAgain else onLogoutCredentialsFinished at_ code)) s).1.
Proof.
  intros M [P1 P2 P3]. destruct (keyringClearAllProc (c_logout s)) as [|slot e|] eqn:Es; [done| |done]. cbn [may_exit] in M.
  rewrite then_state. cbn [fst on_logout update]. set (s1 := set_logout (set_sweep (after_exit still)) s).
  assert (P' : parked s1) by (split; cbn; [done| |done]; intros sl e' _; by destruct still).
  destruct (allCredentialsClearPending (c_logout s)) eqn:Ep; [by eapply calm_parked, P'; apply calm_later|].
  unfold onLogoutCredentialsFinished, reading. destruct (logoutPending (c_logout s)) eqn:El; cbn; rewrite El; cbn [negb]; [|done].
  rewrite then_state. apply finish_free. destruct P' as [Q1 Q2 Q3]. split; [exact Q1|exact Q2|]. cbn. intros _ _ ->.
  rewrite orb_false_r in M. destruct (P2 slot e eq_refl eq_refl) as [?|(-> & ? & ?)]; [congruence|]. auto.
Qed.

Lemma moves_request_all s X k : moves (requestAllCredentialClear at_) s X k k.
Proof.
  apply moves_reading. apply moves_if; [apply moves_logout|]. apply moves_if; (eapply moves_then; [apply moves_logout|intros _; apply moves_quiet; unbooked]).
Qed.
Lemma moves_logout_asked s X : moves (logoutAccount at_) s X InSession InSession.
Proof.
  apply moves_reading. apply moves_if; [apply moves_skip|]. eapply moves_then; [apply moves_logout|intros _].
  eapply moves_then; [apply moves_lock|intros _]. eapply moves_then; [apply moves_quiet; unbooked|intros _].
  eapply moves_then; [eapply moves_then; [apply moves_request_all|intros _; apply moves_quiet; unbooked]|intros _].
  eapply moves_then; [apply moves_quiet; unbooked|intros _; apply moves_status].
Qed.

Lemma moves_finish s X : sane at_ -> parked s -> moves (finishLogoutIfReady at_) s X InSession InSession.
Proof.
  intros S P. apply moves_reading. cbv zeta. destruct (_ || _) eqn:E; [apply moves_skip|]. destruct (negb (_ =? _)) eqn:Ec; [apply moves_quiet; unbooked|].
  bool_hyps. assert (Ep : logoutPending (c_logout s) = true) by (by destruct (logoutPending (c_logout s))).
  assert (Ed : logoutCredentialsDone (c_logout s) = true) by (by destruct (logoutCredentialsDone (c_logout s))).
  destruct (p_done _ P Ep Ed ltac:(lia)) as [_ Hn]. pose proof (p_epoch _ P Ep) as N.
  apply (moves_then _ _ _ _ _ Unused).
  { intros [T A]. split; [destruct T; by split|]. intros sl Hs. destruct (A sl Hs) as [?|[?|[?|[_ <-]]]]; [by left|by right; left|by right; right; left|done]. }
  intros _. eapply moves_then; [apply moves_status|intros _]. eapply moves_then; [apply moves_quiet; unbooked|intros _].
  unfold moveOffRemovedAccount. cbv zeta. pose proof (next_slot_valid at_ (activeSlot (c_vault s)) S) as V. cbv zeta in V.
  apply (moves_then _ _ _ _ _ Unused); [destruct (nonempty _); [by apply moves_enter|by apply moves_active]|intros _].
  eapply moves_then; [apply moves_quiet; unbooked|intros _]. apply moves_weaken.
  apply moves_if; [|apply moves_skip]. eapply moves_then; [apply moves_status|intros _; apply moves_quiet; unbooked].
Qed.
Lemma moves_cli code s X : sane at_ -> parked s -> moves (onLogoutCliFinished at_ code) s X InSession InSession.
Proof.
  intros S P. apply moves_reading. apply moves_if; [apply moves_skip|]. eapply moves_then; [apply moves_logout|intros _].
  apply moves_finish; [done|]. destruct P as [P1 P2 P3]. by split.
Qed.
Lemma moves_retry s X : moves (retryLogoutCleanup at_) s X InSession InSession.
Proof. apply moves_reading. apply moves_if; [apply moves_skip|]. eapply moves_then; [apply moves_logout|intros _; apply moves_request_all]. Qed.

Lemma moves_sweep_exited code still s X : sane at_ -> may_exit (keyringClearAllProc (c_logout s)) code = true -> parked s ->
  moves (on_logout (set_sweep (after_exit still))
    ;> (if allCredentialsClearPending (c_logout s) then callLater SweepAgain else onLogoutCredentialsFinished at_ code)) s X InSession InSession.
Proof.
  intros S M [P1 P2 P3]. destruct (keyringClearAllProc (c_logout s)) as [|slot e|] eqn:Es; [done| |done]. cbn [may_exit] in M.
  eapply moves_then; [apply moves_logout|intros _]. destruct (allCredentialsClearPending (c_logout s)) eqn:Ep; [apply moves_quiet; unbooked|].
  apply moves_reading. cbn [fst on_logout update set_logout c_logout set_sweep logoutPending].
  destruct (logoutPending (c_logout s)) eqn:El; cbn [negb]; [|apply moves_skip].
  eapply moves_then; [apply moves_logout|intros _]. apply moves_finish; [done|]. split; cbn; [intros _; by apply P1|intros sl e' _; by destruct still|].
  intros _ _ ->. rewrite orb_false_r in M. destruct (P2 slot e eq_refl eq_refl) as [?|(-> & ? & ?)]; [congruence|]. auto.
Qed.
End Logout.

(** *** Every step *)

Lemma moves_pump_keyring s X k : moves pumpSessionKeyring s X k k.
Proof.
  apply moves_reading. apply moves_if; [apply moves_skip|]. destruct (sessionClearSlots (c_keyring s)) as [|next waiting] eqn:E.
  { apply moves_if; [apply moves_store|apply moves_skip]. }
  intros [T A]. rewrite then_effects, then_state. cbn [fst snd update app on_keyring].
  pose proof (t_slots _ T) as F. rewrite E in F. apply Forall_cons in F as [V F].
  apply moves_request_for; [done| |destruct T as [Ta Te Ts Tl Tc Tr]; by split].
  intros sl Hs. destruct (A sl Hs) as [?|[[H|[?|?]]|?]]; [left; set_solver| |by right; left; right; left|by right; left; right; right|by right; right].
  rewrite E in H. apply elem_of_cons in H as [->|?]; [left; set_solver|by right; left; left].
Qed.

Lemma unbooked_run_later at_ c : (match c with PumpLock | LockStep => True | _ => False end) -> unbooked (run_later at_ c).
Proof. destruct c; try done; intros _; cbn; unbooked. Qed.

(** Taking a call off the list unaccounts for what it was to clear, no more. *)
Lemma moves_run_later at_ s X k :
  moves (match c_later s with [] => skip | c :: rest => update (set_later (fun _ => rest)) ;> run_later at_ c end) s X k k.
Proof.
  destruct (c_later s) as [|c rest] eqn:E; [apply moves_skip|]. intros [T A]. rewrite then_effects, then_state. cbn [fst snd update app].
  set (s1 := set_later (fun _ => rest) s).
  assert (T1 : tidy s1).
  { destruct T as [Ta Te Ts Tl Tc Tr]. split; try done. cbn. intros sl n ?. apply (Tr sl n). rewrite E. by right. }
  assert (A1 : accounted k (match c with RetryClear slot _ => X ∪ {[slot]} | _ => X end) s1).
  { intros sl Hs. destruct (A sl Hs) as [?|[[?|[?|[n H]]]|?]]; [left; destruct c; set_solver|by right; left; left|by right; left; right; left| |by right; right].
    rewrite E in H. apply elem_of_cons in H as [<-|?]; [left; set_solver|by right; left; right; right; exists n]. }
  destruct c; try (apply moves_quiet; [by apply unbooked_run_later|by split]).
  - apply moves_request_for; [|done|done]. apply (t_retries _ T slot attempt). rewrite E. by left.
  - by apply moves_request_all.
Qed.

Lemma moves_freed s X k : moves (on_keyring (fun k => match keyringClearProc k with Exiting => set_clear Idle k | _ => k end)) s X k k.
Proof.
  unfold moves, on_keyring, update, set_keyring. cbn [fst snd excused]. destruct (keyringClearProc (c_keyring s)) eqn:E; [by destruct s|by destruct s|].
  intros [T A]. split; [destruct T as [Ta Te Ts Tl Tc Tr]; by split|].
  intros sl Hs. destruct (A sl Hs) as [?|[[?|[H|?]]|?]]; [by left|by right; left; left|congruence|by right; left; right; right|by right; right].
Qed.

Lemma step_moves at_ e s X : sane at_ -> parked s -> moves (close_step at_ e) s X InSession InSession.
Proof.
  intros S P. apply moves_reading. destruct e; auto using moves_unlock, moves_not_logged_in, moves_handoff, moves_lookup, moves_status_check,
    moves_status_read, moves_verified, moves_lock, moves_logout_asked, moves_retry, moves_auto, moves_switch, moves_add, moves_remembered, moves_screen,
    moves_sleep, moves_lost, moves_store_writes, moves_cli.
  all: try (by apply moves_begin).
  - destruct (keyringStoreProc _) as [sl|] eqn:E; [|apply moves_skip].
    assert (M := moves_store_exited s X sl E). intros B. specialize (M B).
    unfold then_do in *. destruct (on_keyring _ s) as [s1 e1]. destruct (onSessionStored s1) as [s2 e2]. cbn [fst snd] in M.
    assert (Q : forall b : bool, unbooked (if b then callLater SweepAgain else skip)) by (intros []; unbooked).
    match goal with |- context [(if ?b then callLater SweepAgain else skip) s2] =>
      destruct (Q b s2) as [Hs Hx]; destruct ((if b then callLater SweepAgain else skip) s2) as [s3 e3] end.
    cbn [fst snd] in *.
    rewrite app_assoc, excused_app, Hx. by eapply same_books_books.
  - destruct (keyringClearProc _) eqn:E; try apply moves_skip. by eapply moves_clear_erases.
  - destruct (may_exit _ _) eqn:E; [by apply moves_clear_exited|apply moves_skip].
  - apply moves_freed.
  - destruct (keyringClearAllProc _) eqn:E; try apply moves_skip. eapply moves_then; [|intros _; apply moves_logout].
    intros [T A]. split; [destruct T; by split|]. intros sl. cbn. rewrite elem_of_difference. intros [Hs _]. by apply A.
  - destruct (may_exit _ _) eqn:E; [by apply moves_sweep_exited|apply moves_skip].
  - apply moves_logout.
  - apply moves_if; [apply moves_request_all|apply moves_skip].
  - apply moves_if; [|apply moves_skip]. apply moves_quiet. unbooked.
  - apply moves_pump_keyring.
  - apply moves_run_later.
Qed.

Lemma step_parked at_ e s : tidy s -> parked s -> parked (close_step at_ e s).1.
Proof.
  intros T P. unfold close_step, reading. assert (C : forall f, keeps_calm f -> parked (f s).1) by (intros f H; by eapply calm_parked).
  destruct e; try (apply C; solve [calm]).
  - by apply parked_logout.
  - by apply parked_retry.
  - by apply parked_switch.
  - by apply parked_add.
  - destruct (keyringStoreProc _) as [sl|] eqn:E; [|done]. destruct P as [P1 P2 P3]. split; cbn; [done| |].
    + intros slot e H Hs. destruct (P2 slot e H Hs) as [?|(_ & ? & _)]; [by left|congruence].
    + intros H Hd Hc. destruct (P3 H Hd Hc). congruence.
  - destruct (keyringStoreProc _) eqn:E; [|done]. apply C. apply calm_then; [|calm]. intros x. by split.
  - destruct (keyringClearProc _); try done. apply C. apply calm_then; [|calm]. intros x. split; try done. cbn. set_solver.
  - apply C, calm_keyring. intros k. by destruct (keyringClearProc k).
  - destruct (keyringClearAllProc _) as [|slot er|] eqn:E; try done. rewrite then_state. cbn. destruct P as [P1 P2 P3]. split; cbn; [done| |].
    + intros sl e H [= <- <-]. destruct (P2 slot er H E) as [?|(? & ? & _)]; [by left|right]. split_and!; [done|done|set_solver].
    + intros H Hd Hc. destruct (P3 H Hd Hc). split; [done|set_solver].
  - destruct (may_exit _ _) eqn:E; [by apply parked_sweep_exited|done].
  - destruct P as [P1 P2 P3]. destruct (keyringClearAllProc (c_logout s)) as [|slot er|] eqn:E; split; cbn; rewrite ?E; done.
  - destruct (_ && _); [by apply parked_again|done].
  - by apply parked_cli.
  - destruct (c_later s) as [|c rest]; [done|]. rewrite then_state. set (s1 := (update _ s).1).
    assert (P' : parked s1) by (destruct P; by split). 
    assert (C' : forall f, keeps_calm f -> parked (f s1).1) by (intros f H; by eapply calm_parked).
    destruct c; cbn [run_later]; try (apply C'; solve [calm]). by apply parked_again.
Qed.

Lemma close_run_snoc evs at_ e s : close_run (evs ++ [(at_, e)]) s = (close_run evs ;> close_step at_ e) s.
Proof.
  unfold close_run. rewrite map_app, run_handlers_app. unfold then_do. destruct (run_handlers _ s) as [s1 e1]. cbn.
  unfold then_do, skip. destruct (close_step at_ e s1). by rewrite app_nil_r.
Qed.

Lemma run_books start remembered b evs : Forall (fun '(at_, _) => sane at_) evs ->
  let '(s, effs) := close_run evs (initial_closing start remembered b) in parked s /\ books InSession (excused remembered effs) s.
Proof.
  induction evs as [|[at_ e] evs IH] using rev_ind; intros F.
  - cbn. split; [by split|]. split; [split; cbn -[accountSlot]; try done|by left].
    + apply accountSlot_valid.
    + intros slot n H. by apply elem_of_nil in H.
  - apply Forall_app in F as [F Fe]. apply Forall_cons in Fe as [Fe _]. specialize (IH F). rewrite close_run_snoc. unfold then_do.
    destruct (close_run evs _) as [s effs]. destruct IH as [P B]. pose proof (step_moves at_ e s _ Fe P B) as B'.
    pose proof (step_parked at_ e s (proj1 B) P) as P'. destruct (close_step at_ e s) as [s' effs']. cbn in *. by rewrite excused_app.
Qed.

(** Nothing of the session's keyring entry is under way. *)
Definition keyring_settled (s : closing) : bool :=
  negb (is_some (keyringStoreProc (c_keyring s))) && negb (busy (keyringClearProc (c_keyring s)))
  && bool_decide (sessionClearSlots (c_keyring s) = [])
  && forallb (fun c => match c with RetryClear _ _ => false | _ => true end) (c_later s).

Lemma settled_accounted X s : keyring_settled s = true -> accounted InSession X s ->
  forall slot, slot ∈ entries s -> slot ∈ X \/ in_use InSession s slot.
Proof.
  unfold keyring_settled. rewrite !andb_true_iff, !negb_true_iff, bool_decide_eq_true. intros [[[Ks Kc] Kq] Kl] A slot Hs.
  destruct (A slot Hs) as [?|[[H|[H|[n H]]]|[H|?]]]; [by left| | | | |by right].
  - rewrite Kq in H. by apply elem_of_nil in H.
  - by rewrite H in Kc.
  - rewrite forallb_forall in Kl. apply list_elem_of_In in H. by specialize (Kl _ H).
  - by rewrite H in Ks.
Qed.

(** ** The end of a logout *)

(** What neither ends a pending logout nor starts one. *)
Lemma calm_pending f s : keeps_calm f -> logoutPending (c_logout (f s).1) = logoutPending (c_logout s).
Proof. intros H. by rewrite (ca_logout _ _ (H s)). Qed.

Definition shrinks (f : close_act) : Prop := forall s, entries (f s).1 ⊆ entries s.
Lemma shrinks_calm f : keeps_calm f -> shrinks f.
Proof. intros H s. apply (H s). Qed.
Lemma shrinks_then f g : shrinks f -> shrinks g -> shrinks (f ;> g).
Proof. intros Hf Hg s. rewrite then_state. etrans; [apply Hg|apply Hf]. Qed.
Lemma shrinks_if (b : bool) f g : shrinks f -> shrinks g -> shrinks (if b then f else g).
Proof. by destruct b. Qed.
Lemma shrinks_active slot : shrinks (on_vault (set_active slot)).
Proof. by intros s. Qed.
Lemma shrinks_logout f : shrinks (on_logout f).
Proof. by intros s. Qed.
#[export] Hint Resolve shrinks_then shrinks_if shrinks_active shrinks_logout : calm.
#[export] Hint Extern 3 (shrinks _) => (apply shrinks_calm; solve [auto 14 with calm]) : calm.

(** The end of a logout: the sweep ended well, and [bw logout] with it. *)
Definition swept (s s' : closing) : Prop :=
  activeSlot (c_vault s) ∉ entries s' /\ keyringStoreProc (c_keyring s) = None
  /\ logoutCliDone (c_logout s') = true /\ logoutCredentialsExitCode (c_logout s') = 0.

Section Ends.
Context (at_ : around).
#[local] Hint Extern 2 (keeps_calm (refreshAccountCredentials _)) => (apply credentials_calm) : calm.

Lemma move_shrinks slot : shrinks (moveOffRemovedAccount at_ slot).
Proof. unfold moveOffRemovedAccount, enterAccount. cbv zeta. auto 14 with calm. Qed.
Lemma move_logout slot : same_logout (moveOffRemovedAccount at_ slot).
Proof. unfold moveOffRemovedAccount, enterAccount. cbv zeta. auto 14 with calm. Qed.

#[local] Ltac still_pending := let H := fresh in intros H; simpl in H; congruence.
Lemma finish_swept s : parked s -> logoutPending (c_logout s) = true -> logoutPending (c_logout (finishLogoutIfReady at_ s).1) = false ->
  swept s (finishLogoutIfReady at_ s).1.
Proof.
  intros P Hp. unfold finishLogoutIfReady, reading. cbv zeta. rewrite Hp. destruct (logoutCliDone (c_logout s)) eqn:Ec; cbn [negb orb]; [|still_pending].
  destruct (logoutCredentialsDone (c_logout s)) eqn:Ed; cbn [negb]; [|still_pending].
  destruct (logoutCredentialsExitCode (c_logout s) =? 0) eqn:Ex; cbn [negb]; [|still_pending]. apply Z.eqb_eq in Ex. intros _.
  destruct (p_done _ P Hp Ed Ex) as [N Hn]. rewrite !then_state. cbn [fst on_logout on_vault update cause].
  match goal with |- swept s (moveOffRemovedAccount at_ ?a ?x).1 =>
    pose proof (move_shrinks a x) as Hs; pose proof (move_logout a x) as Hl; destruct (moveOffRemovedAccount at_ a x) as [s' es] end.
  cbn [fst] in *. unfold swept. rewrite Hl. cbn in *. split_and!; [set_solver|done..].
Qed.

Lemma request_all_pending s : logoutPending (c_logout (requestAllCredentialClear at_ s).1) = logoutPending (c_logout s).
Proof. unfold requestAllCredentialClear, reading. destruct (busy _); [done|]. by destruct (credentialStoresRunning _ _). Qed.
Lemma switch_pending slot s : logoutPending (c_logout s) = true -> switchAccount at_ slot s = (s, []).
Proof. intros H. unfold switchAccount, reading, canChangeAccount. rewrite H. by destruct (accountsLoaded at_). Qed.
Lemma add_pending s : logoutPending (c_logout s) = true -> beginAddAccount at_ s = (s, []).
Proof. intros H. unfold beginAddAccount, reading, canChangeAccount. rewrite H. by destruct (accountsLoaded at_). Qed.

Lemma ends_swept e s : parked s -> logoutPending (c_logout s) = true -> logoutPending (c_logout (close_step at_ e s).1) = false ->
  swept s (close_step at_ e s).1.
Proof.
  intros P Hp. unfold close_step, reading.
  destruct e; try (rewrite calm_pending by (solve [calm]); congruence).
  - unfold logoutAccount, reading at 1. rewrite Hp. still_pending.
  - unfold retryLogoutCleanup, reading. destruct (negb _); [still_pending|]. rewrite then_state, request_all_pending. still_pending.
  - rewrite switch_pending by done. still_pending.
  - rewrite add_pending by done. still_pending.
  - destruct (keyringStoreProc _); still_pending.
  - destruct (keyringStoreProc _) eqn:E; [|still_pending]. rewrite then_state, calm_pending by (calm). cbn. by rewrite Hp.
  - destruct (keyringClearProc _); still_pending.
  - cbn. by rewrite Hp.
  - destruct (keyringClearAllProc _); still_pending.
  - destruct (may_exit _ _) eqn:M; [|still_pending].
    destruct P as [P1 P2 P3]. destruct (keyringClearAllProc (c_logout s)) as [|slot er|] eqn:Es; [done| |done]. cbn [may_exit] in M.
    rewrite then_state in *. destruct (allCredentialsClearPending (c_logout s)) eqn:Ep; [still_pending|].
    unfold onLogoutCredentialsFinished, reading in *. cbn [fst on_logout update set_logout c_logout set_sweep logoutPending] in *. rewrite Hp in *. cbn [negb] in *.
    rewrite then_state in *. match goal with |- context [finishLogoutIfReady at_ ?x] => set (s2 := x) end.
    intros Hf. apply (finish_swept s2); [|done|done]. split; cbn; [intros _; by apply P1|intros sl e' _; by destruct still_running|].
    intros _ _ ->. rewrite orb_false_r in M. destruct (P2 slot er eq_refl eq_refl) as [?|(-> & ? & ?)]; [congruence|]. auto.
  - simpl. destruct (keyringClearAllProc _); still_pending.
  - destruct (_ && _); [rewrite request_all_pending; still_pending|still_pending].
  - unfold onLogoutCliFinished, reading. rewrite Hp. cbn [negb]. rewrite then_state. set (s1 := (on_logout _ s).1). intros Hf.
    apply (finish_swept s1); [|done|done]. destruct P as [P1 P2 P3]. by split.
  - destruct (c_later s) as [|c rest]; [still_pending|]. rewrite then_state. destruct c; cbn [run_later].
    1-3: rewrite calm_pending by (calm); still_pending.
    rewrite request_all_pending. still_pending.
Qed.
End Ends.

(** ** Examples *)

Definition quiet_panel : around :=
  mkAround false true true true false true false false false false true false false false emptyAccountRegistry (fun _ => 1%N).
Definition example_token : jsval := JStr (u "abcdefghijklmnopqrstuvwxyz0123456789ABCD==").

Lemma quiet_panel_sane : sane quiet_panel.
Proof. split; [apply (parse_wf JUndef)|]. intros i. cbn. lia. Qed.
Lemma quiet_run_sane (evs : list closing_event) : Forall (fun '(at_, _) => sane at_) (map (pair quiet_panel) evs).
Proof. apply Forall_forall. intros x Hx. apply list_elem_of_fmap in Hx as (e & -> & _). apply quiet_panel_sane. Qed.

(** Unlocked and remembered, then locked, with every process run to its end. *)
Definition example_lock : list closing_event :=
  [UnlockSucceeded example_token; StoreWrites; StoreExited; LockAsked; ClearErases; ClearExited 0 true; ClearFreed;
   LockExited 1 JUndef; Later; LockExited 0 JUndef; Later].
(** The same up to a logout. *)
Definition example_logout : list closing_event :=
  [UnlockSucceeded example_token; StoreWrites; LogoutAsked; StoreExited; Later; SweepErases].

(** Turning the setting off does not wait for a store under way: the clear may
    end first, and the session stays in the keyring with the setting off. *)
Lemma turning_off_races_the_store :
  let s := (close_run (map (pair quiet_panel)
    [UnlockSucceeded example_token; RememberChanged false; ClearErases; ClearExited 0 false; StoreWrites; StoreExited]) (initial_closing defaultAccountSlot ∅ true)).1 in
  keyring_settled s = true /\ rememberSession (c_vault s) = false /\ bool_decide (defaultAccountSlot ∈ entries s) = true.
Proof. by vm_compute. Qed.

(** ** Properties *)

(** C17. A closed vault leaves no session behind in silence. Whatever the user, the
    system and the processes do, in any order, once no store, clear or retry is
    under way the keyring holds a remembered session only for the account in use,
    or for one whose clear the user was told has failed, or that nobody asked to
    clear since the panel started, or whose session was lost with its helper. And
    a lock that is asked for, whatever the state, asks for the clear of the
    account on the screen. *)
Theorem closed_session_forgotten start remembered b evs :
  Forall (fun '(at_, _) => sane at_) evs ->
  let '(s, effs) := close_run evs (initial_closing start remembered b) in
  (keyring_settled s = true -> forall slot, slot ∈ entries s ->
     slot ∈ excused remembered effs \/ session (c_vault s) <> [] /\ slot = activeSlot (c_vault s))
  /\ forall at_, AskClear (activeSlot (c_vault s)) ∈ (close_step at_ LockAsked s).2.
Proof.
  intros F. pose proof (run_books start remembered b evs F) as H. destruct (close_run evs _) as [s effs]. destruct H as [_ [T A]]. split.
  - intros K slot Hs. destruct (settled_accounted _ _ K A slot Hs) as [?|[? <-]]; [by left|by right].
  - intros at_. cbn [close_step reading]. unfold lockVault. rewrite !then_effects. apply elem_of_app. right. apply elem_of_app. right. apply elem_of_app. left.
    destruct (unbooked_request at_ (cause (Agent "lock") s).1) as [[V _ _ _ _] _].
    unfold requestSessionCredentialClear, reading. rewrite then_effects, V. apply elem_of_app. left. by left.
Qed.

Lemma closed_session_forgotten_witness :
  let s := (close_run (map (pair quiet_panel) example_lock) (initial_closing defaultAccountSlot ∅ true)).1 in
  keyring_settled s = true /\ forall slot, slot ∈ entries s -> False.
Proof.
  cbv zeta. pose proof (closed_session_forgotten defaultAccountSlot ∅ true _ (quiet_run_sane example_lock)) as H.
  destruct (close_run _ _) as [s effs] eqn:E. destruct H as [H _]. cbn [fst].
  assert (K : keyring_settled s = true /\ elements (excused ∅ effs) = [] /\ session (c_vault s) = []).
  { replace s with (close_run (map (pair quiet_panel) example_lock) (initial_closing defaultAccountSlot ∅ true)).1 by (by rewrite E).
    replace effs with (close_run (map (pair quiet_panel) example_lock) (initial_closing defaultAccountSlot ∅ true)).2 by (by rewrite E). by vm_compute. }
  destruct K as (K & X & N). split; [exact K|]. intros slot Hs. destruct (H K slot Hs) as [Hx|[Hne _]]; [|by destruct (Hne N)].
  apply elem_of_elements in Hx. rewrite X in Hx. by apply elem_of_nil in Hx.
Defined.

(** C20. A logout is over only once it is clean. In any run, when a pending logout
    ends, no session of the account is left in the keyring, no store of one is
    under way, [bw logout] has been run and the sweep of the account's entries
    exited 0. *)
Theorem logout_sweeps start remembered b evs at_ e :
  Forall (fun '(at_, _) => sane at_) evs ->
  let s := (close_run evs (initial_closing start remembered b)).1 in
  logoutPending (c_logout s) = true -> logoutPending (c_logout (close_step at_ e s).1) = false -> swept s (close_step at_ e s).1.
Proof.
  intros F. cbv zeta. pose proof (run_books start remembered b evs F) as H. destruct (close_run evs _) as [s effs]. cbn [fst]. apply ends_swept, H.
Qed.

Lemma logout_sweeps_witness :
  let s := (close_run (map (pair quiet_panel) (example_logout ++ [SweepExited 0 false])) (initial_closing defaultAccountSlot ∅ true)).1 in
  swept s (close_step quiet_panel (LogoutExited 0) s).1.
Proof. apply logout_sweeps; [apply quiet_run_sane|by vm_compute|by vm_compute]. Defined.
