(* ===== verification/ClosingLocks.v ===== *)
(** * The runs of [bw lock] and the suspend that waits for them

    A ledger of the locks asked for, which the handlers of [Closing] are shown to
    follow in every run; that they end, however the processes exit; and what is
    settled when a suspend is acknowledged. *)

From stdpp Require Import base list numbers gmap sets strings.
From S2P Require Import Prelude.
From S2P Require Import JsValue.
From S2P Require Import Json.
From S2P Require Import Accounts.
From S2P Require Import Session.
From S2P Require Import Commands.
From S2P Require Import Vault.
From S2P Require Import Helpers.
From S2P Require Import Handlers.
From S2P Require Import SshLoads.
From S2P Require Import Closing.
From S2P Require Import ClosingKeyring.
Local Open Scope Z_scope.
Local Open Scope handler_scope.

(** ** The acknowledgement of a suspend *)

Definition mute (f : close_act) : Prop := forall s, AckSleep ∉ (f s).2.
Lemma mute_skip : mute skip.
Proof. intros s H. by apply elem_of_nil in H. Qed.
Lemma mute_cause e : e <> AckSleep -> mute (cause e).
Proof. intros N s H. cbn in H. apply list_elem_of_singleton in H. congruence. Qed.
Lemma mute_update f : mute (update f).
Proof. intros s H. by apply elem_of_nil in H. Qed.
Lemma mute_then f g : mute f -> mute g -> mute (f ;> g).
Proof. intros Hf Hg s. rewrite then_effects, elem_of_app. intros [?|?]; [by eapply Hf|by eapply Hg]. Qed.
Lemma mute_reading f : (forall s, mute (f s)) -> mute (reading f).
Proof. intros H s. apply H. Qed.
Lemma mute_if (b : bool) f g : mute f -> mute g -> mute (if b then f else g).
Proof. by destruct b. Qed.

Create HintDb mute.
#[export] Hint Resolve mute_skip mute_update mute_then mute_reading mute_if : mute.
#[export] Hint Extern 1 (mute (cause _)) => (apply mute_cause; discriminate) : mute.
#[export] Hint Extern 1 (mute (on_vault _)) => (apply mute_update) : mute.
#[export] Hint Extern 1 (mute (on_keyring _)) => (apply mute_update) : mute.
#[export] Hint Extern 1 (mute (on_locks _)) => (apply mute_update) : mute.
#[export] Hint Extern 1 (mute (on_logout _)) => (apply mute_update) : mute.
#[export] Hint Extern 1 (mute (callLater _)) => (apply mute_update) : mute.
#[export] Hint Extern 1 (mute (beginEpochOperation _)) => (apply mute_update) : mute.
Ltac mute := intros; auto 16 with mute.

Section Silent.
Context (at_ : around).
Lemma mute_request_clear slot n : mute (requestSessionCredentialClear slot n).
Proof. unfold requestSessionCredentialClear. cbv zeta. mute. Qed.
#[local] Hint Resolve mute_request_clear : mute.
Lemma mute_store : mute storeCurrentSession.
Proof. unfold storeCurrentSession. mute. Qed.
#[local] Hint Resolve mute_store : mute.
Lemma mute_stored : mute onSessionStored.
Proof. unfold onSessionStored. mute. Qed.
Lemma mute_pump_keyring : mute pumpSessionKeyring.
Proof. apply mute_reading. intros s. apply mute_if; [mute|]. destruct (sessionClearSlots _); mute. Qed.
Lemma mute_step : mute (runBwLockStep at_).
Proof. apply mute_reading. intros s. destruct (lockRun _); mute. Qed.
#[local] Hint Resolve mute_step : mute.
Lemma mute_pump : mute (pumpBwLock at_).
Proof. apply mute_reading. intros s. apply mute_if; [mute|]. destruct (lockQueue _); mute. Qed.
#[local] Hint Resolve mute_pump : mute.
Lemma mute_request : mute (requestBwLock at_).
Proof. unfold requestBwLock, holdSession. cbv zeta. mute. Qed.
#[local] Hint Resolve mute_request : mute.
Lemma mute_forget : mute (forgetVault at_).
Proof. unfold forgetVault. cbv zeta. mute. Qed.
#[local] Hint Resolve mute_forget : mute.
Lemma mute_drop : mute (dropVaultState at_).
Proof. unfold dropVaultState. mute. Qed.
#[local] Hint Resolve mute_drop : mute.
Lemma mute_lock : mute (lockVault at_).
Proof. unfold lockVault. mute. Qed.
#[local] Hint Resolve mute_lock : mute.
Lemma mute_adopt t : mute (adopt_session t).
Proof. apply mute_update. Qed.
#[local] Hint Resolve mute_adopt : mute.
Lemma mute_status : mute (runStatusCheck at_).
Proof. unfold runStatusCheck. mute. Qed.
#[local] Hint Resolve mute_status : mute.
Lemma mute_follow next : mute (followVaultClosedInSshAgent next).
Proof. unfold followVaultClosedInSshAgent. cbv zeta. mute. Qed.
#[local] Hint Resolve mute_follow : mute.
Lemma mute_close_as next : mute (close_as at_ next).
Proof. unfold close_as. mute. Qed.
#[local] Hint Resolve mute_close_as : mute.
Lemma mute_credentials : mute (refreshAccountCredentials at_).
Proof. unfold refreshAccountCredentials. mute. Qed.
#[local] Hint Resolve mute_credentials : mute.
Lemma mute_enter slot : mute (enterAccount at_ slot).
Proof. unfold enterAccount. mute. Qed.
#[local] Hint Resolve mute_enter : mute.
Lemma mute_leave : mute (leaveActiveAccount at_).
Proof. unfold leaveActiveAccount. mute. Qed.
#[local] Hint Resolve mute_leave : mute.
Lemma mute_retire slot b : mute (retireAccountSlot slot b).
Proof. unfold retireAccountSlot. mute. Qed.
#[local] Hint Resolve mute_retire : mute.
Lemma mute_switch slot : mute (switchAccount at_ slot).
Proof. unfold switchAccount, retire_abandoned. mute. Qed.
Lemma mute_add : mute (beginAddAccount at_).
Proof. apply mute_reading. intros s. apply mute_if; [mute|]. destruct (_ <=? _)%nat; [mute|]. unfold retire_abandoned. cbv zeta. mute. Qed.
Lemma mute_sweep : mute (requestAllCredentialClear at_).
Proof. unfold requestAllCredentialClear. mute. Qed.
#[local] Hint Resolve mute_sweep : mute.
Lemma mute_finish : mute (finishLogoutIfReady at_).
Proof. unfold finishLogoutIfReady, moveOffRemovedAccount. cbv zeta. mute. Qed.
#[local] Hint Resolve mute_finish : mute.
Lemma mute_logout : mute (logoutAccount at_).
Proof. unfold logoutAccount, forgetStoredCredentials. mute. Qed.
#[local] Hint Resolve mute_logout mute_pump_keyring mute_stored mute_switch mute_add : mute.

(** An acknowledgement that waited is the last thing a handler does. *)
Definition settled_ack (s : closing) : Prop :=
  lock_settled (c_locks s) = true /\ clear_settled (c_keyring s) = true /\ suspendLockPending s = false.
Definition acks (f : close_act) : Prop := forall s, AckSleep ∈ (f s).2 -> settled_ack (f s).1.
Lemma acks_silent f : mute f -> acks f.
Proof. intros H s Ha. by destruct (H s Ha). Qed.
Lemma acks_then f g : mute f -> acks g -> acks (f ;> g).
Proof. intros Hf Hg s. rewrite then_effects, then_state, elem_of_app. intros [?|?]; [by destruct (Hf s)|by apply Hg]. Qed.
Lemma acks_if (b : bool) f g : acks f -> acks g -> acks (if b then f else g).
Proof. by destruct b. Qed.
Lemma acks_reading f : (forall s, acks (f s)) -> acks (reading f).
Proof. intros H s. apply H. Qed.
Lemma acks_maybe : acks (maybeAckSleep at_).
Proof.
  intros s. unfold maybeAckSleep, reading. destruct (suspendLockPending s); cbn [negb]; [|by intros H%elem_of_nil].
  destruct (lock_settled _) eqn:E1; cbn [negb]; [|by intros H%elem_of_nil]. destruct (clear_settled _) eqn:E2; cbn [negb]; [|by intros H%elem_of_nil].
  intros _. unfold ackSleep. by destruct (sleepMonitor_running at_).
Qed.

Lemma acks_clear_exited code : acks (onSessionClearExited at_ code).
Proof.
  apply acks_reading. intros s. destruct (sessionClearRun _) as [[slot n]|].
  - apply acks_if; [apply acks_silent; mute|]. apply acks_then; [mute|]. apply acks_then; [mute|apply acks_maybe].
  - apply acks_then; [mute|apply acks_maybe].
Qed.
Lemma acks_finish : acks (finishBwLock at_).
Proof.
  apply acks_reading. intros s. apply acks_then; [destruct (lockRun _); unfold forgetVaultSecret; mute|].
  apply acks_then; [mute|]. apply acks_then; [mute|apply acks_maybe].
Qed.
Lemma acks_lock_exited code out : acks (onBwLockExited at_ code out).
Proof.
  apply acks_reading. intros s. destruct (lockRun _) as [r|]; [|apply acks_silent; mute]. apply acks_if.
  - apply acks_then; [mute|apply acks_finish].
  - apply acks_if; [apply acks_finish|apply acks_silent; mute].
Qed.

(** A suspend that finds nothing to lock is acknowledged at once. *)
Definition nothing_to_lock (e : closing_event) (s : closing) : Prop :=
  (exists line, e = SleepSignal line) /\ (lockOnSuspend at_ = false \/ is_unlocked s = false).

Lemma step_acks e s : AckSleep ∈ (close_step at_ e s).2 -> nothing_to_lock e s \/ settled_ack (close_step at_ e s).1.
Proof.
  assert (C : forall f, acks f -> AckSleep ∈ (f s).2 -> nothing_to_lock e s \/ settled_ack (f s).1) by (intros f H Ha; right; by apply H).
  unfold close_step, reading. destruct e.
  all: try (apply C, acks_silent; unfold onUnlockSuccess, unlock_not_logged_in, onSessionHandoff, onKeyringLookupFinished, onStatusFinished, on_bw_verified,
    retryLogoutCleanup, auto_lock_fired, onRememberSessionChanged, onScreenLockState, on_helper_lost, onLogoutCliFinished; cbv zeta; solve [mute]).
  - unfold onSleepSignal. cbv zeta. destruct (str_eqb _ wakeSignalToken); [intros H; by apply elem_of_nil in H|].
    destruct (negb (str_eqb _ _)); [intros H; by apply elem_of_nil in H|]. unfold reading. destruct (negb _ || negb _) eqn:E.
    + intros _. left. split; [by eexists|]. apply orb_true_iff in E. by rewrite !negb_true_iff in E.
    + intros Ha. right. revert Ha. apply acks_then; [mute|]. apply acks_then; [mute|apply acks_maybe].
  - destruct (keyringStoreProc _); apply C, acks_silent; mute.
  - destruct (keyringStoreProc _); apply C, acks_silent; mute.
  - destruct (keyringClearProc _); apply C, acks_silent; mute.
  - destruct (may_exit _ _); apply C; [|apply acks_silent; mute]. apply acks_then; [mute|apply acks_clear_exited].
  - destruct (keyringClearAllProc _); apply C, acks_silent; mute.
  - destruct (may_exit _ _); apply C, acks_silent; unfold onLogoutCredentialsFinished; mute.
  - destruct (lockProc _); apply C; [|apply acks_silent; mute]. apply acks_then; [mute|apply acks_lock_exited].
  - destruct (c_later s) as [|c rest]; apply C, acks_silent; [mute|]. apply mute_then; [mute|]. destruct c; cbn [run_later]; mute.
Qed.
End Silent.

(** ** The ledger of [bw lock] runs

    The locks asked for, in order: at most one has been started and not settled;
    the others wait. A lock is run with the session key it was asked with, a
    second time if the first failed, then [bw status] is asked, and its key is
    forgotten once it is settled. None when the order is broken. *)

#[export] Instance bw_lock_eq_dec : EqDecision bw_lock.
Proof. solve_decision. Defined.

Notation debt := (option (bw_lock * jstr) * list (bw_lock * jstr))%type.

Definition first_run (r : bw_lock) : bw_lock := mkLock (lock_slot r) (lock_key r) 1 false.
Definition next_run (r : bw_lock) : option bw_lock :=
  if lock_checking r then None
  else if attempts r =? 1 then Some (mkLock (lock_slot r) (lock_key r) 2 false)
  else Some (mkLock (lock_slot r) (lock_key r) (attempts r) true).

(** With the vault helper the key stays there; without it, it is put in the
    environment. Nothing is asked where the helper comes and goes. *)
Definition key_given (helper : option bool) (held : jstr) (given : option jstr) : bool :=
  match helper with Some h => bool_decide (given = if h then None else Some held) | None => true end.

Fixpoint ledger (helper : option bool) (d : debt) (l : list closing_effect) : option debt :=
  match l with
  | [] => Some d
  | AskLock r held :: rest =>
    if nonempty held && (attempts r =? 0) && negb (lock_checking r) then ledger helper (d.1, d.2 ++ [(r, held)]) rest else None
  | RunLock r given :: rest =>
    match d with
    | (None, (r0, held) :: waiting) =>
      if bool_decide (r = first_run r0) && key_given helper held given then ledger helper (Some (r, held), waiting) rest else None
    | (Some (r0, held), waiting) =>
      if bool_decide (next_run r0 = Some r) && key_given helper held given then ledger helper (Some (r, held), waiting) rest else None
    | _ => None
    end
  | ForgetKey name :: rest =>
    match d with
    | (Some (r0, _), waiting) => if str_eqb name (lock_key r0) then ledger helper (None, waiting) rest else None
    | _ => None
    end
  | _ :: rest => ledger helper d rest
  end.

Definition owed (d : debt) : list (bw_lock * jstr) := (match d.1 with Some x => [x] | None => [] end) ++ d.2.

(** The lock under way and the one last run. *)
Definition under_way (s : closing) (last : option (bw_lock * jstr)) : Prop :=
  match last, lockRun (c_locks s) with
  | None, None => lockProc (c_locks s) = false
  | Some (c, _), Some r => 1 <= attempts c <= 2 /\ (lock_checking c = true -> attempts c = 2)
      /\ (r = c /\ (lockProc (c_locks s) = true \/ attempts c = 1 /\ lock_checking c = false)
          \/ attempts c = 2 /\ lock_checking c = false /\ r = mkLock (lock_slot c) (lock_key c) 2 true /\ lockProc (c_locks s) = false)
  | _, _ => False
  end.

(** The calls put off that concern the locks. *)
Fixpoint lock_calls (l : list later_call) : list later_call :=
  match l with
  | [] => []
  | (PumpLock | LockStep) as c :: rest => c :: lock_calls rest
  | _ :: rest => lock_calls rest
  end.

Record balanced (helper : option bool) (d : debt) (s : closing) : Prop := {
  b_queue : lockQueue (c_locks s) = map fst d.2;
  b_run : under_way s d.1;
  b_fresh : Forall (fun x => attempts x.1 = 0 /\ lock_checking x.1 = false) d.2;
  b_named : Forall (fun x => exists i, 0 <= i <= lockSeq (c_locks s) /\ lock_key x.1 = lock_name i) (owed d);
  b_distinct : NoDup (map (fun x => lock_key x.1) (owed d));
  b_held : helper = Some false -> Forall (fun x => vaultLocalSecrets s !! lock_key x.1 = Some x.2) (owed d);
  b_only : forall k v, vaultLocalSecrets s !! k = Some v -> k ∈ map (fun x => lock_key x.1) (owed d);
  b_seq : 0 <= lockSeq (c_locks s);
  b_once : NoDup (lock_calls (c_later s));
  b_step : LockStep ∈ lock_calls (c_later s) <-> is_some (lockRun (c_locks s)) = true /\ lockProc (c_locks s) = false
}.

(** A lock that waits with none under way has been called for. *)
Definition pumped (s : closing) : Prop :=
  lockRun (c_locks s) = None -> lockQueue (c_locks s) = [] \/ PumpLock ∈ lock_calls (c_later s).

Lemma ledger_app helper d l1 l2 : ledger helper d (l1 ++ l2) =
  match ledger helper d l1 with Some d' => ledger helper d' l2 | None => None end.
Proof.
  revert d. induction l1 as [|e l1 IH]; intros d; [done|]. destruct d as [last waiting], e; cbn [app ledger fst snd]; try apply IH.
  - destruct (_ && _); [apply IH|done].
  - destruct last as [[r0 held]|]; [destruct (_ && _); [apply IH|done]|]. destruct waiting as [|[r0 held] waiting]; [done|]. destruct (_ && _); [apply IH|done].
  - destruct last as [[r0 held]|]; [|done]. destruct (str_eqb _ _); [apply IH|done].
Qed.

Lemma lock_name_inj i j : 0 <= i -> 0 <= j -> lock_name i = lock_name j -> i = j.
Proof.
  intros Hi Hj H. unfold lock_name in H. apply app_inv_head in H. change (num_str (numz i) = num_str (numz j)) in H.
  rewrite !num_str_int in H. assert (E : forall z, 0 <= z -> dec_Z z = dec (Z.to_N z)) by (intros [|p|p]; done || lia).
  rewrite !E in H by done. apply dec_inj in H. lia.
Qed.

Lemma is_some_false {A} (o : option A) : is_some o = false -> o = None.
Proof. by destruct o. Qed.

(** What writes nothing in the ledger and leaves the locks alone. *)
Record aside (s s' : closing) : Prop := {
  as_locks : c_locks s' = c_locks s;
  as_secrets : vaultLocalSecrets s' = vaultLocalSecrets s;
  as_calls : lock_calls (c_later s') = lock_calls (c_later s)
}.
Definition unbilled (f : close_act) : Prop := forall s, aside s (f s).1 /\ forall helper d, ledger helper d (f s).2 = Some d.

Lemma balanced_aside helper d s s' : aside s s' -> balanced helper d s -> balanced helper d s'.
Proof. intros [L E C] []. split; unfold under_way in *; rewrite ?L, ?E, ?C; done. Qed.
Lemma pumped_aside s s' : aside s s' -> pumped s -> pumped s'.
Proof. intros [L _ C]. unfold pumped. by rewrite L, C. Qed.

Lemma unbilled_skip : unbilled skip.
Proof. intros s. by split. Qed.
Lemma unbilled_then f g : unbilled f -> unbilled g -> unbilled (f ;> g).
Proof.
  intros Hf Hg s. rewrite then_state, then_effects. destruct (Hf s) as [[L1 E1 C1] D1], (Hg (f s).1) as [[L2 E2 C2] D2].
  split; [split; congruence|]. intros helper d. by rewrite ledger_app, D1.
Qed.
Lemma unbilled_reading f : (forall s, unbilled (f s)) -> unbilled (reading f).
Proof. intros H s. apply H. Qed.
Lemma unbilled_if (b : bool) f g : unbilled f -> unbilled g -> unbilled (if b then f else g).
Proof. by destruct b. Qed.
Lemma unbilled_cause e : (match e with AskLock _ _ | RunLock _ _ | ForgetKey _ => False | _ => True end) -> unbilled (cause e).
Proof. intros H s. split; [done|]. intros helper d. by destruct e. Qed.
Lemma unbilled_vault f : unbilled (on_vault f).
Proof. intros s. by split. Qed.
Lemma unbilled_keyring f : unbilled (on_keyring f).
Proof. intros s. by split. Qed.
Lemma unbilled_logout f : unbilled (on_logout f).
Proof. intros s. by split. Qed.
Lemma unbilled_suspend b : unbilled (update (set_suspend b)).
Proof. intros s. by split. Qed.
Lemma unbilled_entries f : unbilled (update (set_entries f)).
Proof. intros s. by split. Qed.
Lemma lock_calls_app l1 l2 : lock_calls (l1 ++ l2) = lock_calls l1 ++ lock_calls l2.
Proof. induction l1 as [|c l1 IH]; [done|]. destruct c; cbn; by rewrite ?IH. Qed.
Lemma lock_calls_in c l : c ∈ lock_calls l <-> c ∈ l /\ (c = PumpLock \/ c = LockStep).
Proof.
  induction l as [|c' l IH]; [split; [intros H|intros [H _]]; by apply elem_of_nil in H|].
  destruct c'; cbn; rewrite ?elem_of_cons, ?IH; naive_solver.
Qed.
Lemma unbilled_later c : (match c with PumpLock | LockStep => False | _ => True end) -> unbilled (callLater c).
Proof. intros H s. split; [|done]. split; try done. cbn. destruct c; try done; try case_bool_decide; try done; by rewrite lock_calls_app, app_nil_r. Qed.
(** A call for the locks, made once. *)
Lemma calls_later c s : c = PumpLock \/ c = LockStep -> NoDup (lock_calls (c_later s)) ->
  NoDup (lock_calls (c_later (callLater c s).1)) /\ forall c', c' ∈ lock_calls (c_later (callLater c s).1) <-> c' = c \/ c' ∈ lock_calls (c_later s).
Proof.
  intros Hc N. cbn. assert (E : forall l, (match c with RetryClear _ _ => l ++ [c] | _ => if bool_decide (c ∈ l) then l else l ++ [c] end) = if bool_decide (c ∈ l) then l else l ++ [c])
    by (intros l; by destruct Hc as [-> | ->]). rewrite E. clear E. case_bool_decide as Hin.
  - split; [done|]. intros c'. split; [by right|]. intros [->|?]; [by apply lock_calls_in|done].
  - rewrite lock_calls_app. assert (lock_calls [c] = [c]) as -> by (by destruct Hc as [-> | ->]). split.
    + apply NoDup_app. split; [done|]. split; [|by apply NoDup_singleton]. intros x Hx ->%list_elem_of_singleton. by apply lock_calls_in in Hx as [? _].
    + intros c'. rewrite elem_of_app, list_elem_of_singleton. naive_solver.
Qed.

(** A handler that keeps the ledger. *)
Definition settles (helper : option bool) (f : close_act) (s : closing) (d : debt) : Prop :=
  exists d', ledger helper d (f s).2 = Some d' /\ balanced helper d' (f s).1 /\ pumped (f s).1.
Definition bills (helper : option bool) (f : close_act) : Prop := forall s d, balanced helper d s -> pumped s -> settles helper f s d.
Lemma bills_unbilled helper f : unbilled f -> bills helper f.
Proof. intros H s d B P. destruct (H s) as [A D]. exists d. split; [apply D|]. split; [by eapply balanced_aside|by eapply pumped_aside]. Qed.
Lemma bills_then helper f g : bills helper f -> bills helper g -> bills helper (f ;> g).
Proof.
  intros Hf Hg s d B P. unfold settles. rewrite then_effects, then_state. destruct (Hf s d B P) as (d1 & E1 & B1 & P1), (Hg _ d1 B1 P1) as (d2 & E2 & B2 & P2).
  exists d2. by rewrite ledger_app, E1.
Qed.
Lemma bills_reading helper f : (forall s, bills helper (f s)) -> bills helper (reading f).
Proof. intros H s d B P. by apply H. Qed.
Lemma bills_if helper (b : bool) f g : bills helper f -> bills helper g -> bills helper (if b then f else g).
Proof. by destruct b. Qed.

Create HintDb bills.
#[export] Hint Resolve unbilled_skip unbilled_then unbilled_reading unbilled_if unbilled_vault unbilled_keyring unbilled_logout unbilled_suspend unbilled_entries
  bills_then bills_reading bills_if : bills.
#[export] Hint Extern 1 (unbilled (cause _)) => (apply unbilled_cause; exact I) : bills.
#[export] Hint Extern 1 (unbilled (callLater _)) => (apply unbilled_later; exact I) : bills.
#[export] Hint Extern 1 (unbilled (beginEpochOperation _)) => (apply unbilled_vault) : bills.
#[export] Hint Extern 4 (bills _ _) => (apply bills_unbilled; solve [auto 14 with bills]) : bills.
Ltac bills := intros; auto 16 with bills.

Section Bills.
Context (at_ : around) (helper : option bool) (Hh : forall h, helper = Some h -> h = vaultHelperActive at_).

Lemma unbilled_ack : unbilled (maybeAckSleep at_).
Proof. unfold maybeAckSleep, ackSleep. bills. Qed.

#[local] Hint Extern 1 (unbilled (maybeAckSleep _)) => (apply unbilled_ack) : bills.

Lemma run_key (d : debt) s last : under_way s (Some last) -> d.1 = Some last -> exists r, lockRun (c_locks s) = Some r /\ lock_key r = lock_key last.1.
Proof.
  destruct last as [c held]. cbn. destruct (lockRun (c_locks s)) as [r|]; [|done]. intros (_ & _ & H) _. exists r. split; [done|].
  by destruct H as [[-> _]|(_ & _ & -> & _)].
Qed.
Lemma owed_names helper' d s (x : bw_lock * jstr) : balanced helper' d s -> x ∈ owed d -> lock_key x.1 ∈ lockSecretNames (c_locks s).
Proof.
  intros [Bq Br _ _ _ _ _] Hx. unfold lockSecretNames. apply elem_of_app. unfold owed in Hx. apply elem_of_app in Hx as [Hx|Hx].
  - right. destruct d as [[last|] waiting]; cbn [fst] in *; [|by apply elem_of_nil in Hx]. apply list_elem_of_singleton in Hx as ->.
    destruct (run_key (Some last, waiting) s last Br eq_refl) as (r & -> & E). rewrite E. by left.
  - left. rewrite Bq, map_map. by apply (list_elem_of_fmap_2 (fun x : bw_lock * jstr => lock_key x.1)).
Qed.

Lemma bills_forget : bills helper (forgetVault at_).
Proof.
  intros s d B P. exists d. unfold forgetVault, reading. cbv zeta. rewrite then_effects, then_state. cbn [fst snd update app].
  match goal with |- context [(if vaultHelperActive at_ then cause ?e else skip) ?x] =>
    assert (H : forall h : bool, ledger helper d ((if h then cause e else skip) x).2 = Some d /\ ((if h then cause e else skip) x).1 = x) by (by intros []) end.
  destruct (H (vaultHelperActive at_)) as [-> ->]. split; [done|]. split; [|exact P]. pose proof (fun x => owed_names helper d s x B) as N.
  destruct B as [Bq Br Bf Bn Bd Bh Bo Bs Bc Bt]. split; try done.
  - intros E. specialize (Bh E). rewrite Forall_forall in *. intros x Hx. cbn. rewrite map_lookup_filter_Some. split; [by apply Bh|by apply N].
  - intros k v. cbn. rewrite map_lookup_filter_Some. intros [? _]. by eapply Bo.
Qed.

Lemma given_key s key held : (helper = Some false -> vaultLocalSecrets s !! key = Some held) ->
  key_given helper held (if vaultHelperActive at_ then None else vaultLocalSecrets s !! key) = true.
Proof.
  intros H. destruct helper as [h|]; [|done]. cbn. rewrite <- (Hh h eq_refl). apply bool_decide_eq_true. destruct h; [done|]. by rewrite H.
Qed.

(** The first lock that waits is started. *)
Lemma bills_pump s d : balanced helper d s -> settles helper (pumpBwLock at_) s d.
Proof.
  intros B. unfold settles, pumpBwLock, reading. destruct (is_some _ || _) eqn:E.
  { exists d. split; [done|]. split; [done|]. intros Er. pose proof (b_run _ _ _ B) as Br. unfold under_way in Br. cbn [fst skip] in Er. rewrite Er in *. cbn in E.
    destruct d.1 as [[]|]; congruence || done. }
  apply orb_false_iff in E as [Er Ep]. apply is_some_false in Er.
  destruct (lockQueue (c_locks s)) as [|r queue] eqn:Eq; [exists d; split; [done|]; split; [done|by left]|].
  destruct B as [Bq Br Bf Bn Bd Bh Bo Bs Bc Bt]. unfold under_way in Br. rewrite Er in Br. destruct d as [[last|] waiting]; [by destruct last|]. cbn [fst snd] in *.
  destruct waiting as [|[r' held] waiting]; [by rewrite Eq in Bq|]. rewrite Eq in Bq. injection Bq as -> ->. apply Forall_cons in Bf as [[Fa Fc] Bf]. cbn [fst] in *.
  exists (Some (first_run r', held), waiting). rewrite then_effects, then_state. unfold runBwLockStep, reading. cbn. rewrite Ep, Fc, Fa.
  change (mkLock (lock_slot r') (lock_key r') (0 + 1) false) with (first_run r'). split.
  { cbn [snd fst then_do update cause app ledger on_locks]. rewrite bool_decide_eq_true_2 by done. rewrite given_key; [done|]. cbn. intros E. specialize (Bh E). cbn in Bh.
    apply Forall_cons in Bh as [Bh _]. done. }
  split; [|done]. split; cbn; [done| |exact Bf| |exact Bd| |exact Bo|exact Bs|exact Bc|].
  - split; [lia|]. split; [done|]. left. by split; [|left].
  - apply Forall_cons in Bn as [? ?]. by apply Forall_cons.
  - intros E. specialize (Bh E). apply Forall_cons in Bh as [? ?]. by apply Forall_cons.
  - rewrite Bt, Er, Ep. split; [by intros [? _]|by intros [_ ?]].
Qed.

(** The call for the next run of the lock under way. *)
Lemma bills_step s d rest : balanced helper d s -> c_later s = LockStep :: rest -> settles helper (runBwLockStep at_) (set_later (fun _ => rest) s) d.
Proof.
  intros [Bq Br Bf Bn Bd Bh Bo Bs Bc Bt] El. rewrite El in Bc, Bt. cbn in Bc, Bt. apply NoDup_cons in Bc as [Hn Bc].
  destruct (proj1 Bt ltac:(by left)) as [Er Ep]. unfold under_way in Br. destruct (lockRun (c_locks s)) as [r|] eqn:Er'; [|done].
  destruct d as [[[c held]|] waiting]; [|done]. cbn [fst] in Br. destruct Br as (Ha & Hc & Hr). rewrite Ep in Hr.
  assert (G : exists r1, (if lock_checking r then r else mkLock (lock_slot r) (lock_key r) (attempts r + 1) false) = r1
    /\ next_run c = Some r1 /\ lock_key r1 = lock_key c /\ 1 <= attempts r1 <= 2 /\ (lock_checking r1 = true -> attempts r1 = 2)).
  { eexists. split; [done|]. destruct Hr as [[-> [?|[Ea Ek]]]|(Ea & Ek & -> & _)]; [done| |]; unfold next_run; rewrite Ek; cbn [lock_checking].
    - rewrite Ea. cbn. split_and!; try done; lia.
    - rewrite Ea. cbn. split_and!; try done; lia. }
  destruct G as (r1 & E1 & Hx & Hk & Ha1 & Hc1). unfold settles, runBwLockStep, reading. cbn [c_locks set_later]. rewrite Er', Ep. cbv zeta. rewrite E1.
  exists (Some (r1, held), waiting). cbn [owed fst snd app map] in *. split.
  { cbn [snd fst then_do update cause app ledger on_locks]. rewrite bool_decide_eq_true_2 by done. rewrite given_key; [done|]. cbn. intros E. specialize (Bh E).
    apply Forall_cons in Bh as [Bh _]. cbn in Bh. by rewrite Hk. }
  split; [|done]. split; cbn; rewrite ?Hk; try done.
  - split; [done|]. split; [done|]. left. by split; [|left].
  - apply Forall_cons in Bn as [Bn Bn']. apply Forall_cons. split; [|done]. cbn in *. by rewrite Hk.
  - intros E. specialize (Bh E). apply Forall_cons in Bh as [Bh Bh']. apply Forall_cons. split; [|done]. cbn in *. by rewrite Hk.
  - split; [intros ?; by destruct Hn|by intros [_ ?]].
Qed.

(** A lock asked for is held back with the session key of the moment. *)
Lemma balanced_asked s d : balanced helper d s -> let n := lockSeq (c_locks s) + 1 in
  let run := mkLock (activeSlot (c_vault s)) (lock_name n) 0 false in
  balanced helper (d.1, d.2 ++ [(run, session (c_vault s))])
    (set_locks (fun l => set_queue (lockQueue l ++ [run]) (set_seq n l))
      (set_secrets (fun m => if vaultHelperActive at_ then m else <[lock_name n := session (c_vault s)]> m) s)).
Proof.
  intros B. cbv zeta. set (n := lockSeq (c_locks s) + 1). set (run := mkLock _ _ 0 false). set (held := session (c_vault s)).
  destruct d as [last waiting]. assert (Ho : owed (last, waiting ++ [(run, held)]) = owed (last, waiting) ++ [(run, held)]) by (unfold owed; cbn; by rewrite app_assoc).
  destruct B as [Bq Br Bf Bn Bd Bh Bo Bs Bc Bt].
  assert (Hfresh : forall x, x ∈ owed (last, waiting) -> lock_key x.1 <> lock_name n).
  { intros x Hx. rewrite Forall_forall in Bn. destruct (Bn x Hx) as (i & Hi & ->). intros E. apply lock_name_inj in E; unfold n in *; lia. }
  cbn [fst snd]. split; rewrite ?Ho; cbn in *; try done.
  - by rewrite map_app, Bq.
  - apply Forall_app. split; [done|]. by apply Forall_singleton.
  - apply Forall_app. split; [|apply Forall_singleton; exists n; split; [unfold n; lia|done]].
    eapply Forall_impl; [exact Bn|]. cbn. intros x (i & ? & ?). exists i. split; [unfold n; lia|done].
  - rewrite map_app. apply NoDup_app. split; [done|]. split; [|by apply NoDup_singleton]. intros k Hk Hn. cbn in Hn. apply list_elem_of_singleton in Hn as ->.
    apply list_elem_of_fmap in Hk as (x & Hx & Hin). by apply (Hfresh x Hin).
  - intros E0. rewrite <- (Hh false E0). specialize (Bh E0). apply Forall_app. split; [|apply Forall_singleton; cbn; by rewrite lookup_insert_eq].
    rewrite Forall_forall in *. intros x Hx. rewrite lookup_insert_ne; [by apply Bh|]. intros E. by apply (Hfresh x Hx).
  - intros k v Hk. rewrite map_app. apply elem_of_app. destruct (vaultHelperActive at_); [left; by eapply Bo|].
    apply lookup_insert_Some in Hk as [[<- _]|[_ ?]]; [right; by left|left; by eapply Bo].
  - unfold n. lia.
Qed.

Lemma bills_request : bills helper (requestBwLock at_).
Proof.
  intros s d B P. unfold settles, requestBwLock, reading. destruct (nonempty (session (c_vault s))) eqn:Ev; [|by exists d]. cbn [negb]. cbv zeta.
  pose proof (balanced_asked s d B) as B2. cbv zeta in B2. set (n := lockSeq (c_locks s) + 1) in *. set (run := mkLock _ _ 0 false) in *.
  rewrite !then_effects, !then_state. set (s1 := (on_locks (set_seq n) s).1).
  assert (H : ledger helper d (holdSession at_ (lock_name n) s1).2 = Some d /\ (holdSession at_ (lock_name n) s1).1
    = set_secrets (fun m => if vaultHelperActive at_ then m else <[lock_name n := session (c_vault s)]> m) s1).
  { unfold holdSession, reading. change (session (c_vault s1)) with (session (c_vault s)). rewrite Ev. destruct (vaultHelperActive at_); [split; [done|by destruct s1]|done]. }
  destruct H as [E E']. rewrite E'. cbn [fst snd update app on_locks cause].
  match goal with |- context [pumpBwLock at_ ?x] => change x with (set_locks (fun l => set_queue (lockQueue l ++ [run]) (set_seq n l))
      (set_secrets (fun m => if vaultHelperActive at_ then m else <[lock_name n := session (c_vault s)]> m) s)) end.
  destruct (bills_pump _ _ B2) as (d' & Ed & B' & P'). exists d'. split; [|by split].
  rewrite ledger_app, E. cbn [app ledger attempts lock_checking run]. rewrite Ev. exact Ed.
Qed.

(** The lock under way is settled, its process gone. *)
Lemma bills_finish s0 s c held waiting r : balanced helper (Some (c, held), waiting) s0 -> lockRun (c_locks s0) = Some r -> lockProc (c_locks s0) = true ->
  c_locks s = set_lockProc false (c_locks s0) -> vaultLocalSecrets s = vaultLocalSecrets s0 -> c_later s = c_later s0 ->
  settles helper (finishBwLock at_) s (Some (c, held), waiting).
Proof.
  intros [Bq Br Bf Bn Bd Bh Bo Bs Bc Bt] Er Ep El Es Ec. unfold settles, finishBwLock, reading. rewrite El. cbn [lockRun set_lockProc]. rewrite Er. unfold forgetVaultSecret.
  destruct (run_key (Some (c, held), waiting) s0 (c, held) Br eq_refl) as (r' & E & Hk). rewrite Er in E. injection E as <-. cbn [fst] in Hk.
  set (s2 := set_locks (set_run None) (set_secrets (delete (lock_key c)) s)). set (s3 := (callLater PumpLock s2).1).
  destruct (calls_later PumpLock s2 (or_introl eq_refl)) as [N I]; [cbn; by rewrite Ec|].
  assert (B3 : balanced helper (None, waiting) s3).
  { cbn in Bn, Bd, Bo. apply Forall_cons in Bn as [_ Bn]. apply NoDup_cons in Bd as [Hd Bd].
    split; cbn [owed fst snd app]; try exact N; unfold under_way; cbn [fst c_locks s3 s2 callLater update set_later set_locks set_secrets set_run vaultLocalSecrets]; rewrite ?El, ?Es; try done.
    - intros E0. specialize (Bh E0). cbn in Bh. apply Forall_cons in Bh as [_ Bh]. rewrite Forall_forall in *. intros x Hx. rewrite lookup_delete_ne; [by apply Bh|].
      intros E1. apply Hd. rewrite E1. by apply (list_elem_of_fmap_2 (fun x : bw_lock * jstr => lock_key x.1)).
    - intros k v [Hne Hv]%lookup_delete_Some. apply Bo in Hv. cbn in Hv. apply elem_of_cons in Hv as [->|?]; [by destruct Hne|done].
    - split; [|by intros [? _]]. intros H. apply I in H as [?|H]; [done|]. cbn in H. rewrite Ec in H. apply Bt in H as [_ H]. congruence. }
  assert (P3 : pumped s3) by (intros _; right; by apply I; left).
  destruct (bills_unbilled helper (maybeAckSleep at_) ltac:(bills) s3 _ B3 P3) as (d' & E' & B' & P').
  exists d'. rewrite !then_effects, !then_state. cbn [fst snd update app cause on_locks ledger]. rewrite Hk, str_eqb_refl. exact (conj E' (conj B' P')).
Qed.

Lemma bills_lock_exited code out s d : lockProc (c_locks s) = true -> balanced helper d s ->
  settles helper (on_locks (set_lockProc false) ;> onBwLockExited at_ code out) s d.
Proof.
  intros Ep B. pose proof (b_run _ _ _ B) as Br. unfold under_way in Br. destruct d as [[[c held]|] waiting]; cbn [fst] in Br.
  2:{ destruct (lockRun (c_locks s)); [done|congruence]. }
  destruct (lockRun (c_locks s)) as [r|] eqn:Er; [|done]. destruct Br as (Ha & Hc & [[-> _]|(_ & _ & _ & ?)]); [|congruence].
  unfold settles. rewrite then_effects, then_state. cbn [fst snd update app on_locks]. set (s1 := set_locks (set_lockProc false) s).
  unfold onBwLockExited, reading. change (lockRun (c_locks s1)) with (lockRun (c_locks s)). rewrite Er. destruct (lock_checking c) eqn:Ek; cbv zeta.
  { rewrite then_effects, then_state. destruct (_ && _); cbn [cause skip fst snd app ledger]; by eapply bills_finish. }
  destruct (code =? 0); [by eapply bills_finish|].
  assert (Hno : LockStep ∉ lock_calls (c_later s)) by (intros H; apply B in H as [_ H]; congruence).
  destruct B as [Bq _ Bf Bn Bd Bh Bo Bs Bc Bt]. exists (Some (c, held), waiting).
  assert (G : forall s2, c_later s2 = c_later s -> vaultLocalSecrets s2 = vaultLocalSecrets s -> lockQueue (c_locks s2) = lockQueue (c_locks s) ->
    lockSeq (c_locks s2) = lockSeq (c_locks s) -> lockProc (c_locks s2) = false -> is_some (lockRun (c_locks s2)) = true -> under_way s2 (Some (c, held)) ->
    balanced helper (Some (c, held), waiting) (callLater LockStep s2).1 /\ pumped (callLater LockStep s2).1).
  { intros s2 H1 H2 H3 H4 H5 H6 H7. destruct (calls_later LockStep s2 (or_intror eq_refl)) as [N I]; [by rewrite H1|]. split.
    - split; try done; cbn [c_locks callLater update set_later vaultLocalSecrets fst]; rewrite ?H2, ?H3, ?H4; try done.
      split; [done|]. intros _. by apply I; left.
    - intros H. cbn in H. by rewrite H in H6. }
  destruct (2 <=? attempts c) eqn:E2; rewrite then_effects, then_state; (split; [done|]); apply G; try done; unfold under_way; cbn [c_locks s1 set_locks set_run set_lockProc lockRun lockProc on_locks update fst skip].
  - split; [done|]. split; [congruence|]. right. assert (attempts c = 2) as -> by lia. by rewrite Ek.
  - by rewrite Er.
  - rewrite Er. split; [done|]. split; [congruence|]. left. split; [done|]. right. split; [lia|done].
Qed.

(** *** Every handler keeps the ledger *)

#[local] Hint Resolve bills_forget bills_request : bills.

Lemma unbilled_request_clear slot n : unbilled (requestSessionCredentialClear slot n).
Proof. unfold requestSessionCredentialClear. cbv zeta. bills. Qed.
#[local] Hint Resolve unbilled_request_clear : bills.
Lemma unbilled_store : unbilled storeCurrentSession.
Proof. unfold storeCurrentSession. bills. Qed.
#[local] Hint Resolve unbilled_store : bills.
Lemma unbilled_stored : unbilled onSessionStored.
Proof. unfold onSessionStored. bills. Qed.
#[local] Hint Resolve unbilled_stored : bills.
Lemma unbilled_pump_keyring : unbilled pumpSessionKeyring.
Proof. apply unbilled_reading. intros s. apply unbilled_if; [bills|]. destruct (sessionClearSlots _); bills. Qed.
#[local] Hint Resolve unbilled_pump_keyring : bills.
Lemma unbilled_clear_exited code : unbilled (onSessionClearExited at_ code).
Proof. apply unbilled_reading. intros s. destruct (sessionClearRun _) as [[slot n]|]; bills. Qed.
#[local] Hint Resolve unbilled_clear_exited : bills.
Lemma unbilled_adopt t : unbilled (adopt_session t).
Proof. apply unbilled_vault. Qed.
#[local] Hint Resolve unbilled_adopt : bills.
Lemma unbilled_follow next : unbilled (followVaultClosedInSshAgent next).
Proof. unfold followVaultClosedInSshAgent. cbv zeta. bills. Qed.
#[local] Hint Resolve unbilled_follow : bills.
Lemma unbilled_status : unbilled (runStatusCheck at_).
Proof. unfold runStatusCheck. bills. Qed.
#[local] Hint Resolve unbilled_status : bills.
Lemma unbilled_sweep : unbilled (requestAllCredentialClear at_).
Proof. unfold requestAllCredentialClear. bills. Qed.
#[local] Hint Resolve unbilled_sweep : bills.
Lemma unbilled_retire slot b : unbilled (retireAccountSlot slot b).
Proof. unfold retireAccountSlot. bills. Qed.
#[local] Hint Resolve unbilled_retire : bills.
Lemma unbilled_enter slot : unbilled (enterAccount at_ slot).
Proof. unfold enterAccount, refreshAccountCredentials. bills. Qed.
#[local] Hint Resolve unbilled_enter : bills.
Lemma unbilled_finish : unbilled (finishLogoutIfReady at_).
Proof. unfold finishLogoutIfReady, moveOffRemovedAccount. cbv zeta. bills. Qed.
#[local] Hint Resolve unbilled_finish : bills.

Lemma bills_drop : bills helper (dropVaultState at_).
Proof. unfold dropVaultState. bills. Qed.
#[local] Hint Resolve bills_drop : bills.
Lemma bills_lock : bills helper (lockVault at_).
Proof. unfold lockVault. bills. Qed.
#[local] Hint Resolve bills_lock : bills.
Lemma bills_leave : bills helper (leaveActiveAccount at_).
Proof. unfold leaveActiveAccount. bills. Qed.
#[local] Hint Resolve bills_leave : bills.
Lemma bills_close_as next : bills helper (close_as at_ next).
Proof. unfold close_as. bills. Qed.
#[local] Hint Resolve bills_close_as : bills.

Lemma bills_events e : (match e with LockExited _ _ | Later => False | _ => True end) -> bills helper (close_step at_ e).
Proof.
  intros He. apply bills_reading. intros s. destruct e; try done.
  all: unfold onUnlockSuccess, unlock_not_logged_in, onSessionHandoff, onKeyringLookupFinished, onStatusFinished, on_bw_verified,
    logoutAccount, forgetStoredCredentials, retryLogoutCleanup, auto_lock_fired, switchAccount, retire_abandoned, onRememberSessionChanged, onScreenLockState,
    onSleepSignal, ackSleep, on_helper_lost, onLogoutCliFinished, onLogoutCredentialsFinished; cbv zeta.
  all: try solve [bills].
  - unfold beginAddAccount. apply bills_reading. intros s'. apply bills_if; [bills|]. destruct (_ <=? _)%nat; [bills|]. cbv zeta. unfold retire_abandoned. bills.
  - destruct (keyringStoreProc _); bills.
  - destruct (keyringStoreProc _); bills.
  - destruct (keyringClearProc _); bills.
  - destruct (keyringClearAllProc _); bills.
Qed.

Lemma aside_pop s c rest : c_later s = c :: rest -> (match c with PumpLock | LockStep => False | _ => True end) -> aside s (set_later (fun _ => rest) s).
Proof. intros E H. split; try done. cbn. rewrite E. by destruct c. Qed.
Lemma balanced_pump_pop d s rest : c_later s = PumpLock :: rest -> balanced helper d s -> balanced helper d (set_later (fun _ => rest) s).
Proof.
  intros E [Bq Br Bf Bn Bd Bh Bo Bs Bc Bt]. rewrite E in *. cbn in *. apply NoDup_cons in Bc as [_ Bc]. split; try done. cbn. rewrite <- Bt, elem_of_cons. naive_solver.
Qed.

Lemma bills_every e : bills helper (close_step at_ e).
Proof.
  destruct e; try by apply bills_events.
  - intros s d B P. unfold settles, close_step, reading. destruct (lockProc (c_locks s)) eqn:Ep; [by apply bills_lock_exited|by exists d].
  - intros s d B P. unfold settles, close_step, reading. destruct (c_later s) as [|c rest] eqn:E; [by exists d|]. rewrite then_effects, then_state. cbn [fst snd update app].
    destruct c; cbn [run_later].
    + apply bills_pump. by apply balanced_pump_pop.
    + by apply bills_step.
    + pose proof (aside_pop s _ rest E I) as A. apply bills_unbilled; [bills|by eapply balanced_aside|by eapply pumped_aside].
    + pose proof (aside_pop s _ rest E I) as A. apply bills_unbilled; [bills|by eapply balanced_aside|by eapply pumped_aside].
Qed.
End Bills.

(** ** Runs *)

Lemma run_balanced helper start remembered b evs :
  Forall (fun '(at_, _) => forall h, helper = Some h -> h = vaultHelperActive at_) evs ->
  settles helper (close_run evs) (initial_closing start remembered b) (None, []).
Proof.
  unfold settles. induction evs as [|[at_ e] evs IH] using rev_ind; intros F.
  - exists (None, []). split; [done|]. split; [|by left]. split; cbn; try done; try by constructor.
    split; [intros H; by apply elem_of_nil in H|by intros [? _]].
  - apply Forall_app in F as [F Fe]. apply Forall_cons in Fe as [Fe _]. destruct (IH F) as (d & E & B & P). rewrite close_run_snoc, then_effects, then_state.
    destruct (bills_every at_ helper Fe e _ d B P) as (d' & E' & B' & P'). exists d'. by rewrite ledger_app, E.
Qed.

(** Settled, nothing is owed and no key is held. *)
Lemma settled_owed helper d s : balanced helper d s -> lock_settled (c_locks s) = true -> d = (None, []) /\ vaultLocalSecrets s = ∅.
Proof.
  intros B S. unfold lock_settled in S. apply andb_true_iff in S as [Sr Sq]. apply negb_true_iff, is_some_false in Sr. apply bool_decide_eq_true in Sq.
  assert (E : d = (None, [])).
  { pose proof (b_run _ _ _ B) as R. pose proof (b_queue _ _ _ B) as Q. unfold under_way in R. rewrite Sr in R. rewrite Sq in Q.
    destruct d as [[[]|] waiting]; [done|]. cbn in Q. symmetry in Q. apply map_eq_nil in Q. by subst. }
  split; [done|]. subst. apply map_eq. intros k. rewrite lookup_empty. destruct (vaultLocalSecrets s !! k) eqn:Ek; [|done].
  apply (b_only _ _ _ B) in Ek. by apply elem_of_nil in Ek.
Qed.

(** ** How much work the locks still are *)

Definition run_weight (running : bool) (r : bw_lock) : nat :=
  if lock_checking r then (if running then 3 else 4)
  else if attempts r =? 1 then (if running then 9 else 7) else 6.
Definition lock_weight (s : closing) : nat :=
  11 * length (lockQueue (c_locks s)) + match lockRun (c_locks s) with Some r => run_weight (lockProc (c_locks s)) r | None => 0 end + length (c_later s).

(** The exit of the lock's process, and a call that was put off. *)
Definition progress (e : closing_event) (s : closing) : bool :=
  match e with LockExited _ _ => lockProc (c_locks s) | Later => negb (bool_decide (c_later s = [])) | _ => false end.
Fixpoint working (evs : list (around * closing_event)) (s : closing) : bool :=
  match evs with [] => true | (at_, e) :: rest => progress e s && working rest (close_step at_ e s).1 end.

Section Weight.
Context (at_ : around).

Lemma ack_weight s : lock_weight (maybeAckSleep at_ s).1 = lock_weight s.
Proof.
  unfold maybeAckSleep, ackSleep, reading. destruct (negb _); [done|]. destruct (negb _); [done|]. destruct (negb _); [done|].
  rewrite then_state. by destruct (sleepMonitor_running at_).
Qed.
Lemma later_weight c s : (lock_weight (callLater c s).1 <= lock_weight s + 1)%nat.
Proof.
  assert (H : (length (c_later (callLater c s).1) <= length (c_later s) + 1)%nat).
  { cbn. destruct c; try case_bool_decide; rewrite ?length_app; cbn; lia. }
  unfold lock_weight. change (c_locks (callLater c s).1) with (c_locks s). lia.
Qed.

Lemma finish_weight s r : lockRun (c_locks s) = Some r -> (lock_weight (finishBwLock at_ s).1 + run_weight (lockProc (c_locks s)) r <= lock_weight s + 1)%nat.
Proof.
  intros Er. unfold finishBwLock, reading. rewrite Er. unfold forgetVaultSecret. rewrite !then_state, ack_weight.
  etrans; [apply Nat.add_le_mono_r, later_weight|]. unfold lock_weight. cbn. rewrite Er. lia.
Qed.

Lemma exit_weight helper d code out s : balanced helper d s -> lockProc (c_locks s) = true ->
  (lock_weight ((on_locks (set_lockProc false) ;> onBwLockExited at_ code out) s).1 < lock_weight s)%nat.
Proof.
  intros B Ep. pose proof (b_run _ _ _ B) as Br. unfold under_way in Br. destruct d as [[[c held]|] waiting]; cbn [fst] in Br.
  2:{ destruct (lockRun (c_locks s)); [done|congruence]. }
  destruct (lockRun (c_locks s)) as [r|] eqn:Er; [|done]. destruct Br as (Ha & Hc & [[-> _]|(_ & _ & _ & ?)]); [|congruence].
  rewrite then_state. cbn [fst on_locks update]. set (s1 := set_locks (set_lockProc false) s).
  assert (W : lock_weight s = (lock_weight s1 - run_weight false c + run_weight true c)%nat) by (unfold lock_weight; cbn; rewrite Er, Ep; lia).
  assert (W1 : (run_weight false c <= lock_weight s1)%nat) by (unfold lock_weight; cbn; rewrite Er; lia).
  pose proof (finish_weight s1 c Er) as Hf. cbn [c_locks s1 set_locks set_lockProc lockProc] in Hf.
  unfold onBwLockExited, reading. change (lockRun (c_locks s1)) with (lockRun (c_locks s)). rewrite Er.
  unfold run_weight in W, W1, Hf. destruct (lock_checking c) eqn:Ek; cbv zeta.
  { rewrite then_state. destruct (_ && _); cbn [cause skip fst]; lia. }
  destruct (code =? 0); [destruct (attempts c =? 1); lia|].
  destruct (2 <=? attempts c) eqn:E2; rewrite then_state; (eapply Nat.le_lt_trans; [apply later_weight|]); cbn [fst skip on_locks update].
  - clear W W1 Hf. assert (attempts c =? 1 = false) as E1 by lia. unfold lock_weight, run_weight. cbn. rewrite Er, Ep, Ek, E1. cbn. lia.
  - assert (attempts c =? 1 = true) as E1 by lia. rewrite E1 in *. lia.
Qed.

Lemma pump_weight s : (forall r, lockQueue (c_locks s) = r :: tail (lockQueue (c_locks s)) -> attempts r = 0 /\ lock_checking r = false) ->
  (lock_weight (pumpBwLock at_ s).1 <= lock_weight s)%nat.
Proof.
  intros H. unfold pumpBwLock, reading. destruct (_ || _) eqn:E; [done|]. apply orb_false_iff in E as [Er Ep]. apply is_some_false in Er.
  destruct (lockQueue (c_locks s)) as [|r queue] eqn:Eq; [done|]. destruct (H r eq_refl) as [Ha Hk].
  rewrite then_state. unfold runBwLockStep, reading. cbn. rewrite Ep, Hk, Ha. unfold lock_weight, run_weight. cbn. rewrite Eq, Er. change (0 + 1 =? 1) with true. cbn. lia.
Qed.

Lemma step_weight helper d s rest : balanced helper d s -> c_later s = LockStep :: rest ->
  (lock_weight (runBwLockStep at_ (set_later (fun _ => rest) s)).1 < lock_weight s)%nat.
Proof.
  intros B E. destruct (proj1 (b_step _ _ _ B)) as [Er Ep]; [rewrite E; by left|]. pose proof (b_run _ _ _ B) as Br. unfold under_way in Br.
  destruct (lockRun (c_locks s)) as [r|] eqn:Er'; [|done]. destruct d as [[[c held]|] waiting]; [|done]. cbn [fst] in Br. destruct Br as (Ha & Hc & Hr). rewrite Ep in Hr.
  unfold runBwLockStep, reading. cbn [c_locks set_later]. rewrite Er', Ep. cbv zeta. unfold lock_weight. cbn. rewrite Er', Ep, E. cbn [length]. unfold run_weight.
  destruct Hr as [[-> [?|[Ea Ek]]]|(Ea & Ek & -> & _)]; [done| |]; cbn; rewrite ?Ek, ?Ea; cbn; rewrite ?Ea; try change (1 + 1 =? 1) with false; cbn; lia.
Qed.

Lemma request_clear_weight slot n s : lock_weight (requestSessionCredentialClear slot n s).1 = lock_weight s.
Proof. unfold requestSessionCredentialClear, reading. cbv zeta. rewrite then_state. by destruct (busy _). Qed.
Lemma request_all_weight s : lock_weight (requestAllCredentialClear at_ s).1 = lock_weight s.
Proof. unfold requestAllCredentialClear, reading. destruct (busy _); [done|]. by destruct (credentialStoresRunning _ _). Qed.

Lemma progress_weight helper d e s : balanced helper d s -> progress e s = true -> (lock_weight (close_step at_ e s).1 < lock_weight s)%nat.
Proof.
  intros B. destruct e; try done; cbn [progress].
  - intros Ep. unfold close_step, reading. rewrite Ep. by eapply exit_weight.
  - intros Hl. unfold close_step, reading. destruct (c_later s) as [|c rest] eqn:E; [done|]. rewrite then_state. cbn [fst update].
    assert (W : lock_weight s = S (lock_weight (set_later (fun _ => rest) s))) by (unfold lock_weight; cbn; rewrite E; cbn; lia).
    destruct c; cbn [run_later].
    + rewrite W. apply Nat.lt_succ_r, pump_weight. cbn. intros r Er. pose proof (b_fresh _ _ _ B) as F. pose proof (b_queue _ _ _ B) as Q.
      rewrite Er in Q. destruct d.2 as [|x l]; [done|]. injection Q as -> _. by apply Forall_cons in F as [F _].
    + by eapply step_weight.
    + rewrite request_clear_weight. lia.
    + rewrite request_all_weight. lia.
Qed.
End Weight.

(** Not settled, something can be done. *)
Lemma unsettled_progress helper d s : balanced helper d s -> pumped s -> lockProc (c_locks s) = false -> c_later s = [] -> lock_settled (c_locks s) = true.
Proof.
  intros B P Ep El. unfold lock_settled. destruct (lockRun (c_locks s)) as [r|] eqn:Er; cbn.
  - assert (H : LockStep ∈ lock_calls (c_later s)) by (apply B; by rewrite Er). rewrite El in H. by apply elem_of_nil in H.
  - destruct (P Er) as [Hq|H]; [by apply bool_decide_eq_true|]. rewrite El in H. by apply elem_of_nil in H.
Qed.

Lemma working_run work s d : balanced None d s -> pumped s -> working work s = true ->
  (length work + lock_weight (close_run work s).1 <= lock_weight s)%nat
  /\ exists d', balanced None d' (close_run work s).1 /\ pumped (close_run work s).1.
Proof.
  revert s d. induction work as [|[at_ e] work IH]; intros s d B P; [intros _; split; [done|by exists d]|]. cbn [working]. intros [Hp Hw]%andb_true_iff.
  destruct (bills_every at_ None ltac:(done) e s d B P) as (d1 & _ & B1 & P1). destruct (IH _ d1 B1 P1 Hw) as [H1 H2].
  pose proof (progress_weight at_ None d e s B Hp) as H3. unfold close_run in *. cbn [map run_handlers length]. rewrite then_state. split; [lia|done].
Qed.

(** A suspend that arrives while a store is under way is acknowledged without it:
    the session is written once the machine may sleep. *)
Lemma suspend_leaves_a_store :
  let run := close_run (map (pair (mkAround false true true true false true false false false false true false false false emptyAccountRegistry (fun _ => 1%N)))
    [UnlockSucceeded example_token; SleepSignal (JStr sleepSignalToken); LockExited 0 JUndef; Later; ClearErases; ClearExited 0 false; StoreWrites])
    (initial_closing defaultAccountSlot ∅ true) in
  existsb (fun e => match e with AckSleep => true | _ => false end) run.2 = true
  /\ bool_decide (defaultAccountSlot ∈ entries run.1) = true /\ session (c_vault run.1) = [].
Proof. by vm_compute. Qed.

(** ** Properties *)

(** C19. The panel's [bw lock] runs follow the ledger. Where the vault helper is up
    throughout, or down throughout, whatever else happens: locks are run one at a
    time in the order they were asked for, each with the session key it was asked
    with and in its own account's data; one that fails is run again, and after
    that [bw status] is asked; its key is forgotten when it is settled and not
    before. And once every lock is settled, nothing is owed and no copy of a key is
    held. *)
Theorem locks_follow_ledger helper start remembered b evs :
  Forall (fun '(at_, _) => vaultHelperActive at_ = helper) evs ->
  let '(s, effs) := close_run evs (initial_closing start remembered b) in
  exists d, ledger (Some helper) (None, []) effs = Some d
    /\ lockQueue (c_locks s) = map fst d.2
    /\ Forall (fun x => lock_key x.1 ∈ lockSecretNames (c_locks s)) (owed d)
    /\ (lock_settled (c_locks s) = true -> d = (None, []) /\ vaultLocalSecrets s = ∅).
Proof.
  intros F. destruct (run_balanced (Some helper) start remembered b evs) as (d & E & B & _).
  { eapply Forall_impl; [exact F|]. intros [at_ e] <-. by intros h [= <-]. }
  destruct (close_run evs _) as [s effs]. exists d. split; [exact E|]. split; [apply B|]. split; [|by eapply settled_owed].
  apply Forall_forall. intros x Hx. by eapply owed_names.
Qed.

Lemma locks_follow_ledger_witness :
  let '(s, effs) := close_run (map (pair quiet_panel) example_lock) (initial_closing defaultAccountSlot ∅ true) in
  lock_settled (c_locks s) = true /\ exists d, ledger (Some false) (None, []) effs = Some d.
Proof.
  pose proof (locks_follow_ledger false defaultAccountSlot ∅ true (map (pair quiet_panel) example_lock)) as H.
  specialize (H ltac:(repeat constructor)). destruct (close_run _ _) as [s effs] eqn:E. split.
  - replace s with (close_run (map (pair quiet_panel) example_lock) (initial_closing defaultAccountSlot ∅ true)).1 by (by rewrite E). by vm_compute.
  - destruct H as (d & Hd & _). by exists d.
Defined.

(** C21. Locking comes to an end, however its processes exit. From any state the
    panel can reach, the exits of the lock's process and the calls put off, each
    taken when there is one, are at most [lock_weight] many; and when there is
    none left to take, every lock is settled. *)
Theorem lock_queue_drains start remembered b evs work :
  let s := (close_run evs (initial_closing start remembered b)).1 in
  working work s = true ->
  (length work <= lock_weight s)%nat
  /\ let s' := (close_run work s).1 in lockProc (c_locks s') = false -> c_later s' = [] -> lock_settled (c_locks s') = true.
Proof.
  cbv zeta. destruct (run_balanced None start remembered b evs) as (d & _ & B & P); [by apply Forall_forall; intros []|]. intros W.
  destruct (working_run work _ d B P W) as (H1 & d' & B' & P'). split; [lia|]. intros Ep El. by eapply unsettled_progress.
Qed.

Lemma lock_queue_drains_witness :
  let s := (close_run (map (pair quiet_panel) [UnlockSucceeded example_token; LockAsked]) (initial_closing defaultAccountSlot ∅ true)).1 in
  let work := map (pair quiet_panel) [LockExited 1 JUndef; Later; LockExited 1 JUndef; Later; LockExited 1 JUndef; Later] in
  working work s = true /\ (length work <= lock_weight s)%nat /\ lock_settled (c_locks (close_run work s).1) = true.
Proof.
  cbv zeta. assert (W : working (map (pair quiet_panel) [LockExited 1 JUndef; Later; LockExited 1 JUndef; Later; LockExited 1 JUndef; Later])
    (close_run (map (pair quiet_panel) [UnlockSucceeded example_token; LockAsked]) (initial_closing defaultAccountSlot ∅ true)).1 = true) by (by vm_compute).
  destruct (lock_queue_drains defaultAccountSlot ∅ true _ _ W) as [H1 H2]. split; [exact W|]. split; [exact H1|]. apply H2; by vm_compute.
Defined.

(** C18. A suspend is acknowledged only when the lock it waited for is done. If a
    handler acknowledges the suspend, either it was just announced and there was
    nothing to lock, or every [bw lock] asked for so far is settled and its key
    forgotten, no clear of a session waits or is being tried, and a session still
    in the keyring is of the account in use, was reported or excused, or is one
    that a store still running writes or a retry not yet made clears. *)
Theorem suspend_waits start remembered b evs at_ e :
  Forall (fun '(at_, _) => sane at_) evs -> sane at_ ->
  let '(s, effs) := close_run evs (initial_closing start remembered b) in
  let '(s', effs') := close_step at_ e s in
  AckSleep ∈ effs' ->
  nothing_to_lock at_ e s
  \/ settled_ack s' /\ ledger None (None, []) (effs ++ effs') = Some (None, []) /\ vaultLocalSecrets s' = ∅
     /\ forall slot, slot ∈ entries s' -> slot ∈ excused remembered (effs ++ effs') \/ in_use InSession s' slot
          \/ keyringStoreProc (c_keyring s') = Some slot \/ exists n, RetryClear slot n ∈ c_later s'.
Proof.
  intros F S. pose proof (run_books start remembered b evs F) as H.
  destruct (run_balanced None start remembered b evs) as (d & E & B & P); [by apply Forall_forall; intros []|].
  destruct (close_run evs _) as [s effs]. destruct H as [K Bk]. pose proof (step_moves at_ e s _ S K Bk) as [T A].
  destruct (bills_every at_ None ltac:(done) e s d B P) as (d' & E' & B' & _). pose proof (step_acks at_ e s) as Ha.
  destruct (close_step at_ e s) as [s' effs']. cbn [fst snd] in *. intros Hin. destruct (Ha Hin) as [?|Hset]; [by left|right].
  destruct Hset as (L & C & U). destruct (settled_owed _ _ _ B' L) as [-> Hv]. split; [done|]. split; [by rewrite ledger_app, E|]. split; [done|].
  unfold clear_settled in C. apply andb_true_iff in C as [Cr Cq]. apply negb_true_iff, is_some_false in Cr. apply bool_decide_eq_true in Cq.
  rewrite excused_app. intros slot Hs. destruct (A slot Hs) as [?|[[H|[H|?]]|[?|?]]]; [by left| | |by right; right; right|by right; right; left|by right; left].
  - rewrite Cq in H. by apply elem_of_nil in H.
  - destruct (t_clearing _ T _ _ H) as (_ & n & Hr). congruence.
Qed.

Lemma suspend_waits_witness :
  let evs := [UnlockSucceeded example_token; StoreWrites; StoreExited; SleepSignal (JStr sleepSignalToken); ClearErases; ClearExited 0 false] in
  let s := (close_run (map (pair quiet_panel) evs) (initial_closing defaultAccountSlot ∅ true)).1 in
  settled_ack (close_step quiet_panel (LockExited 0 JUndef) s).1.
Proof.
  cbv zeta. set (evs := [UnlockSucceeded example_token; StoreWrites; StoreExited; SleepSignal (JStr sleepSignalToken); ClearErases; ClearExited 0 false]).
  pose proof (suspend_waits defaultAccountSlot ∅ true (map (pair quiet_panel) evs) quiet_panel (LockExited 0 JUndef) (quiet_run_sane evs) quiet_panel_sane) as H.
  assert (A : existsb (fun e => match e with AckSleep => true | _ => false end)
    (close_step quiet_panel (LockExited 0 JUndef) (close_run (map (pair quiet_panel) evs) (initial_closing defaultAccountSlot ∅ true)).1).2 = true) by (by vm_compute).
  destruct (close_run _ _) as [s effs]. cbn [fst] in *. destruct (close_step _ _ s) as [s' effs']. cbn [fst snd] in *.
  apply existsb_exists in A as (x & Hx & Hq). destruct x; try discriminate Hq. destruct (H ltac:(by apply list_elem_of_In)) as [[[? Hl] _]|[? _]]; [discriminate Hl|done].
Defined.
