(* ===== verification/Jobs.v ===== *)
(** * The quick-unlock jobs

    Every run of the unlock tool goes through one queue ([src/Service.qml],
    queueEnvelopeJob() and what follows), so that two writers never meet in the
    keyring. The jobs here are the opens that unlock the vault, the reading of the
    envelope, the removal of the ways in whose setting is off (with its retries and
    its generations), and any other work; the queue is put together with the process
    that runs it ([src/VaultProcess.qml]): a run may wait for the vault helper, run
    there or here, be killed, or be taken by a lock to scrub what its last output
    left behind.

    What a job that is over means to the rest of the panel is an effect; the jobs
    its callback asks for come as events of their own. *)

From stdpp Require Import base list numbers gmap sets strings.
From S2P Require Import Prelude.
From S2P Require Import JsValue.
From S2P Require Import Json.
From S2P Require Import Accounts.
From S2P Require Import Commands.
From S2P Require Import Envelope.
From S2P Require Import Helpers.
From S2P Require Import Handlers.
Local Open Scope Z_scope.
Local Open Scope js_scope.
Local Open Scope handler_scope.

(** ** State *)

(** A purge carries what its callbacks closed over. *)
Record purge := mkPurge {
  slots : list jstr;
  method : jstr;
  key : jstr;
  accountSlot_ : jstr;
  methodGeneration : Z;
  accountGeneration : Z
}.

Inductive job_kind := Unlock (method_ : jstr) | Purge (p : purge) | Inspect | Work.

(** [job_id] stands for the identity of the object; [env] is the values of [env]. *)
Record job := mkJob {
  job_id : Z;
  kind : job_kind;
  env : list jstr;
  secretOutput : bool;
  holdOutput : bool;
  heldName : jstr;
  job_slot : jstr;
  job_epoch : Z;
  cancelled : bool
}.

Record job_queue := mkQueue {
  envelopeJobs : list job;
  envelopeJob : option job;
  next_id : Z;
  heldSecretSeq : Z
}.

(** The run in flight: 0, -1 or the id of the vault helper. *)
Inductive run_id := NoRun | Here | AtHelper (id : Z).

(** envelopeProc: whether its command is the scrub, whether it waits for the
    helper, and whether its inner process runs: the run itself, or the clear of its
    output that follows. *)
Record vault_process := mkProc {
  running : bool;
  runId : run_id;
  scrubbing : bool;
  startSeq : Z;
  vaultWaiting : bool;
  local_running : bool;
  scrubPending : bool
}.

Record purge_books := mkBooks {
  pendingPurges : list jstr;
  quickUnlockEnabledAt : gmap jstr Z;
  reconciledMethods : gset jstr;
  quickUnlockPurgeAttempts : gmap jstr Z;
  quickUnlockPurgePending : gmap jstr Z;
  quickUnlockPurgeFailures : gset jstr;
  quickUnlockMethodGeneration : gmap jstr Z;
  quickUnlockAccountGeneration : gmap jstr Z;
  errorMessage : jstr
}.

(** The vault helper: still starting, up, or gone for good, so that runs are local. *)
Inductive helper_state := HelperStarting | HelperActive | HelperAbsent.

Record panel := mkPanel {
  activeSlot : jstr;
  vaultEpoch : Z;
  accountId : jstr;
  quickUnlockAvailable : bool;
  accountsLoaded : bool;
  logoutPending : bool;
  allCredentialsClearPending : bool;
  settings_off : gset jstr;
  account_slots : list jstr;
  now : Z;
  envelopeSummary : jsval;
  envelopeChecked : bool;
  vaultHelper : helper_state;
  vaultRunSeq : Z
}.

(** The calls that Qt.callLater() put off. *)
Inductive later_job := Pump | ClearCollector | Launch (seq : Z) | RetryPurge (p : purge).

Record jobs := mkJobs {
  j_queue : job_queue;
  j_proc : vault_process;
  j_books : purge_books;
  j_panel : panel;
  j_later : list later_job
}.

Definition initial_jobs (slot : jstr) (start : Z) : jobs :=
  mkJobs (mkQueue [] None 0 0) (mkProc false NoRun false 0 false false false)
    (mkBooks [] ∅ ∅ ∅ ∅ ∅ ∅ ∅ []) (mkPanel slot 0 [] false false false false ∅ [] start JNull false HelperStarting 0) [].

#[export] Instance purge_eq_dec : EqDecision purge.
Proof. solve_decision. Defined.
#[export] Instance job_kind_eq_dec : EqDecision job_kind.
Proof. solve_decision. Defined.
#[export] Instance job_eq_dec : EqDecision job.
Proof. solve_decision. Defined.
#[export] Instance run_id_eq_dec : EqDecision run_id.
Proof. solve_decision. Defined.
#[export] Instance later_job_eq_dec : EqDecision later_job.
Proof. solve_decision. Defined.

(** [RunIgnored] is the assignment of [running] while the run before is still to
    end: nothing starts. [Done] and [Dropped] are the calls of the job's own
    callbacks, [PurgeFailed] the message and the retry. *)
Inductive job_effect :=
| Queued (j : job)
| Taken (j : job)
| Discarded (j : job)
| RunStarted (run : run_id)
| RunKilled (run : run_id)
| RunIgnored
| Done (j : job) (code : Z) (out : jstr)
| Dropped (j : job)
| ForgetHeld (value : jstr)
| MethodOn (method_ : jstr)
| PurgeFailed (key_ : jstr)
| MethodsRead
| RecheckStatus
| SweepAgain
| PinFree.

#[export] Instance job_effect_eq_dec : EqDecision job_effect.
Proof. solve_decision. Defined.

Notation job_act := (handler jobs job_effect).

Definition set_jobs (q : list job) (s : jobs) : jobs :=
  let k := j_queue s in mkJobs (mkQueue q (envelopeJob k) (next_id k) (heldSecretSeq k)) (j_proc s) (j_books s) (j_panel s) (j_later s).
Definition set_job (j : option job) (s : jobs) : jobs :=
  let k := j_queue s in mkJobs (mkQueue (envelopeJobs k) j (next_id k) (heldSecretSeq k)) (j_proc s) (j_books s) (j_panel s) (j_later s).
Definition set_next (n : Z) (s : jobs) : jobs :=
  let k := j_queue s in mkJobs (mkQueue (envelopeJobs k) (envelopeJob k) n (heldSecretSeq k)) (j_proc s) (j_books s) (j_panel s) (j_later s).
Definition set_held (n : Z) (s : jobs) : jobs :=
  let k := j_queue s in mkJobs (mkQueue (envelopeJobs k) (envelopeJob k) (next_id k) n) (j_proc s) (j_books s) (j_panel s) (j_later s).
Definition set_proc (f : vault_process -> vault_process) (s : jobs) : jobs :=
  mkJobs (j_queue s) (f (j_proc s)) (j_books s) (j_panel s) (j_later s).
Definition set_books (f : purge_books -> purge_books) (s : jobs) : jobs :=
  mkJobs (j_queue s) (j_proc s) (f (j_books s)) (j_panel s) (j_later s).
Definition set_panel (f : panel -> panel) (s : jobs) : jobs :=
  mkJobs (j_queue s) (j_proc s) (j_books s) (f (j_panel s)) (j_later s).
Definition set_later (f : list later_job -> list later_job) (s : jobs) : jobs :=
  mkJobs (j_queue s) (j_proc s) (j_books s) (j_panel s) (f (j_later s)).

Definition set_running (b : bool) (p : vault_process) : vault_process :=
  mkProc b (runId p) (scrubbing p) (startSeq p) (vaultWaiting p) (local_running p) (scrubPending p).
Definition set_runId (r : run_id) (p : vault_process) : vault_process :=
  mkProc (running p) r (scrubbing p) (startSeq p) (vaultWaiting p) (local_running p) (scrubPending p).
Definition set_scrubbing (b : bool) (p : vault_process) : vault_process :=
  mkProc (running p) (runId p) b (startSeq p) (vaultWaiting p) (local_running p) (scrubPending p).
Definition set_startSeq (n : Z) (p : vault_process) : vault_process :=
  mkProc (running p) (runId p) (scrubbing p) n (vaultWaiting p) (local_running p) (scrubPending p).
Definition set_waiting (b : bool) (p : vault_process) : vault_process :=
  mkProc (running p) (runId p) (scrubbing p) (startSeq p) b (local_running p) (scrubPending p).
Definition set_local (b : bool) (p : vault_process) : vault_process :=
  mkProc (running p) (runId p) (scrubbing p) (startSeq p) (vaultWaiting p) b (scrubPending p).
Definition set_scrubPending (b : bool) (p : vault_process) : vault_process :=
  mkProc (running p) (runId p) (scrubbing p) (startSeq p) (vaultWaiting p) (local_running p) b.

Definition set_pendingPurges (l : list jstr) (b : purge_books) : purge_books :=
  mkBooks l (quickUnlockEnabledAt b) (reconciledMethods b) (quickUnlockPurgeAttempts b) (quickUnlockPurgePending b)
    (quickUnlockPurgeFailures b) (quickUnlockMethodGeneration b) (quickUnlockAccountGeneration b) (errorMessage b).
Definition set_reconciled (r : gset jstr) (b : purge_books) : purge_books :=
  mkBooks (pendingPurges b) (quickUnlockEnabledAt b) r (quickUnlockPurgeAttempts b) (quickUnlockPurgePending b)
    (quickUnlockPurgeFailures b) (quickUnlockMethodGeneration b) (quickUnlockAccountGeneration b) (errorMessage b).
Definition set_attempts (a : gmap jstr Z) (b : purge_books) : purge_books :=
  mkBooks (pendingPurges b) (quickUnlockEnabledAt b) (reconciledMethods b) a (quickUnlockPurgePending b)
    (quickUnlockPurgeFailures b) (quickUnlockMethodGeneration b) (quickUnlockAccountGeneration b) (errorMessage b).
Definition set_pending (m : gmap jstr Z) (b : purge_books) : purge_books :=
  mkBooks (pendingPurges b) (quickUnlockEnabledAt b) (reconciledMethods b) (quickUnlockPurgeAttempts b) m
    (quickUnlockPurgeFailures b) (quickUnlockMethodGeneration b) (quickUnlockAccountGeneration b) (errorMessage b).
Definition set_failures (f : gset jstr) (message : jstr) (b : purge_books) : purge_books :=
  mkBooks (pendingPurges b) (quickUnlockEnabledAt b) (reconciledMethods b) (quickUnlockPurgeAttempts b) (quickUnlockPurgePending b)
    f (quickUnlockMethodGeneration b) (quickUnlockAccountGeneration b) message.
Definition set_accountGeneration (g : gmap jstr Z) (b : purge_books) : purge_books :=
  mkBooks (pendingPurges b) (quickUnlockEnabledAt b) (reconciledMethods b) (quickUnlockPurgeAttempts b) (quickUnlockPurgePending b)
    (quickUnlockPurgeFailures b) (quickUnlockMethodGeneration b) g (errorMessage b).
Definition set_message (t : jstr) (b : purge_books) : purge_books := set_failures (quickUnlockPurgeFailures b) t b.

Definition enter_slot (slot : jstr) (p : panel) : panel :=
  mkPanel slot (vaultEpoch p) (accountId p) (quickUnlockAvailable p) (accountsLoaded p) (logoutPending p) (allCredentialsClearPending p)
    (settings_off p) (account_slots p) (now p) (envelopeSummary p) (envelopeChecked p) (vaultHelper p) (vaultRunSeq p).
Definition set_epoch (n : Z) (p : panel) : panel :=
  mkPanel (activeSlot p) n (accountId p) (quickUnlockAvailable p) (accountsLoaded p) (logoutPending p) (allCredentialsClearPending p)
    (settings_off p) (account_slots p) (now p) (envelopeSummary p) (envelopeChecked p) (vaultHelper p) (vaultRunSeq p).
Definition set_account (id : jstr) (p : panel) : panel :=
  mkPanel (activeSlot p) (vaultEpoch p) id (quickUnlockAvailable p) (accountsLoaded p) (logoutPending p) (allCredentialsClearPending p)
    (settings_off p) (account_slots p) (now p) (envelopeSummary p) (envelopeChecked p) (vaultHelper p) (vaultRunSeq p).
Definition set_ready (available loaded : bool) (p : panel) : panel :=
  mkPanel (activeSlot p) (vaultEpoch p) (accountId p) available loaded (logoutPending p) (allCredentialsClearPending p)
    (settings_off p) (account_slots p) (now p) (envelopeSummary p) (envelopeChecked p) (vaultHelper p) (vaultRunSeq p).
Definition set_logout (pending sweep : bool) (p : panel) : panel :=
  mkPanel (activeSlot p) (vaultEpoch p) (accountId p) (quickUnlockAvailable p) (accountsLoaded p) pending sweep
    (settings_off p) (account_slots p) (now p) (envelopeSummary p) (envelopeChecked p) (vaultHelper p) (vaultRunSeq p).
Definition set_around (off : gset jstr) (registered : list jstr) (time : Z) (p : panel) : panel :=
  mkPanel (activeSlot p) (vaultEpoch p) (accountId p) (quickUnlockAvailable p) (accountsLoaded p) (logoutPending p) (allCredentialsClearPending p)
    off registered time (envelopeSummary p) (envelopeChecked p) (vaultHelper p) (vaultRunSeq p).
Definition set_envelope (summary : jsval) (checked : bool) (p : panel) : panel :=
  mkPanel (activeSlot p) (vaultEpoch p) (accountId p) (quickUnlockAvailable p) (accountsLoaded p) (logoutPending p) (allCredentialsClearPending p)
    (settings_off p) (account_slots p) (now p) summary checked (vaultHelper p) (vaultRunSeq p).
Definition set_helper (h : helper_state) (n : Z) (p : panel) : panel :=
  mkPanel (activeSlot p) (vaultEpoch p) (accountId p) (quickUnlockAvailable p) (accountsLoaded p) (logoutPending p) (allCredentialsClearPending p)
    (settings_off p) (account_slots p) (now p) (envelopeSummary p) (envelopeChecked p) h n.

Definition with_name (name : jstr) (j : job) : job :=
  mkJob (job_id j) (kind j) [] (secretOutput j) (holdOutput j) name (job_slot j) (job_epoch j) (cancelled j).
Definition with_cancelled (j : job) : job :=
  mkJob (job_id j) (kind j) (env j) (secretOutput j) (holdOutput j) (heldName j) (job_slot j) (job_epoch j) true.

Definition unlock (j : job) : bool := match kind j with Unlock _ => true | _ => false end.
Definition alwaysDone (j : job) : bool := match kind j with Purge _ => true | _ => false end.
Definition has_job (o : option job) : bool := match o with Some _ => true | None => false end.
Definition has_run (r : run_id) : bool := match r with NoRun => false | _ => true end.

(** Qt.callLater(): the pump, a function of the panel, is put off once. *)
Definition put_off (c : later_job) (l : list later_job) : list later_job :=
  match c with Pump => if bool_decide (Pump ∈ l) then l else l ++ [Pump] | _ => l ++ [c] end.
Definition callLater (c : later_job) : job_act := update (set_later (put_off c)).

(** ** The process *)

Definition on_proc (f : vault_process -> vault_process) : job_act := update (set_proc f).
Definition on_books (f : purge_books -> purge_books) : job_act := update (set_books f).
Definition on_panel (f : panel -> panel) : job_act := update (set_panel f).

(** launchLocal(), once it knows that its start is the last one and still wanted. *)
Definition launch_here : job_act := reading (fun s =>
  if local_running (j_proc s) then callLater (Launch (startSeq (j_proc s)))
  else on_proc (fun p => set_local true (set_runId Here p)) ;> cause (RunStarted Here)).

(** vaultStart() for this process. *)
Definition vaultStart : job_act := reading (fun s =>
  match vaultHelper (j_panel s) with
  | HelperStarting => on_proc (set_waiting true)
  | HelperAbsent => launch_here
  | HelperActive =>
    let n := vaultRunSeq (j_panel s) + 1 in
    on_panel (set_helper HelperActive n) ;> on_proc (set_runId (AtHelper n)) ;> cause (RunStarted (AtHelper n))
  end).

Definition start : job_act := reading (fun s =>
  on_proc (set_startSeq (startSeq (j_proc s) + 1))
  ;> if scrubbing (j_proc s) then on_proc (fun p => set_local true (set_runId Here p)) ;> cause (RunStarted Here) else vaultStart).

(** [running = true]: the handler of the change starts the run. *)
Definition run_process : job_act := reading (fun s =>
  if running (j_proc s) then skip
  else on_proc (set_running true) ;> if has_run (runId (j_proc s)) then cause RunIgnored else start).

Definition vaultKill : job_act := reading (fun s =>
  match runId (j_proc s) with NoRun => on_proc (set_waiting false) | r => cause (RunKilled r) end).

(** [running = false] *)
Definition stop_process : job_act := reading (fun s =>
  if negb (running (j_proc s)) then skip
  else on_proc (set_running false) ;> if has_run (runId (j_proc s)) then vaultKill else skip).

(** *** Scrubbing *)

Definition take_for_scrub : job_act := on_proc (set_scrubbing true) ;> run_process.

Definition scrubStep : job_act := reading (fun s =>
  if negb (scrubPending (j_proc s)) then skip
  else if running (j_proc s) then skip
  else if scrubbing (j_proc s) then on_proc (set_scrubPending false)
  else take_for_scrub).

Definition scrubSecretBuffers : job_act := on_proc (set_scrubPending true) ;> scrubStep.

(** clearProcessCollectorSoon(), when its turn comes. *)
Definition clear_collector : job_act := reading (fun s =>
  if running (j_proc s) then skip else take_for_scrub).

(** ** The queue *)

Definition generation (g : gmap jstr Z) (k : jstr) : Z := default 0 (g !! k).

(** isCurrent() of a purge. *)
Definition isCurrent (s : jobs) (p : purge) : bool :=
  (methodGeneration p =? generation (quickUnlockMethodGeneration (j_books s)) (method p))
  && (accountGeneration p =? generation (quickUnlockAccountGeneration (j_books s)) (accountSlot_ p)).

(** onCancelled() of a purge; the other jobs have none. *)
Definition onCancelled (j : job) : job_act := reading (fun s =>
  match kind j with
  | Purge p =>
    if negb (bool_decide (quickUnlockPurgePending (j_books s) !! key p = Some (job_id j))) then skip
    else on_books (fun b => set_attempts (<[key p := Z.max 0 (generation (quickUnlockPurgeAttempts b) (key p) - 1)]> (quickUnlockPurgeAttempts b))
                              (set_pending (delete (key p) (quickUnlockPurgePending b)) b))
  | _ => skip
  end).

Definition forgetHeldPassword (value : jstr) : job_act :=
  if str_eqb (heldSecretName (JStr value)) [] then skip else cause (ForgetHeld value).
Definition forget_env (j : job) : job_act := for_each forgetHeldPassword (env j).

(** The commands, the environment and the capture of the run belong to the job. *)
Definition take_job (j : job) : job_act := reading (fun s =>
  let n := heldSecretSeq (j_queue s) + 1 in
  let named := if holdOutput j then with_name (u "pw" ++ dec_Z n) j else with_name (heldName j) j in
  (if holdOutput j then update (set_held n) else skip)
  ;> update (set_job (Some named))
  ;> on_proc (set_scrubbing false)
  ;> cause (Taken j)
  ;> run_process).

Definition outdated (s : jobs) (j : job) : bool :=
  match kind j with Purge p => negb (isCurrent s p) | _ => false end.
Definition unwanted (s : jobs) (j : job) : bool :=
  unlock j && (cancelled j || negb (str_eqb (job_slot j) (activeSlot (j_panel s)))
               || negb (job_epoch j =? vaultEpoch (j_panel s)) || logoutPending (j_panel s)).

Fixpoint pump (waiting : list job) : job_act := reading (fun s =>
  if running (j_proc s) || has_job (envelopeJob (j_queue s)) then skip
  else match waiting with
       | [] => skip
       | j :: rest =>
         update (set_jobs rest)
         ;> if outdated s j then onCancelled j ;> cause (Discarded j) ;> pump rest
            else if unwanted s j then forget_env j ;> cause (Dropped j) ;> pump rest
            else take_job j
       end).
Definition pumpEnvelopeJobs : job_act := reading (fun s => pump (envelopeJobs (j_queue s))).

Definition queueEnvelopeJob (k : job_kind) (values : list jstr) (secret hold : bool) : job_act := reading (fun s =>
  let j := mkJob (next_id (j_queue s)) k values secret hold [] (activeSlot (j_panel s)) (vaultEpoch (j_panel s)) false in
  update (set_next (next_id (j_queue s) + 1))
  ;> update (set_jobs (envelopeJobs (j_queue s) ++ [j]))
  ;> cause (Queued j)
  ;> pumpEnvelopeJobs).

Definition refreshEnvelope : job_act := reading (fun s =>
  if quickUnlockAvailable (j_panel s) then queueEnvelopeJob Inspect [] false false else skip).

(** ** Methods turned off *)

Definition quickUnlockPurgeMaxAttempts : Z := 3.
Definition quickUnlockEnableGraceMs : Z := 60000.
Definition purge_message : jstr :=
  u "Could not remove disabled quick unlock from the OS keyring. A stored way in may remain. Check the keyring service and restart to retry cleanup.".
Definition is_purge_message (t : jstr) : bool := starts_with (u "Could not remove disabled quick unlock") t.
Definition without_purge_message (failures : gset jstr) (t : jstr) : jstr :=
  if bool_decide (failures = ∅) && is_purge_message t then [] else t.

Definition queueQuickUnlockPurge (slots_ : list jstr) (m k : jstr) : job_act := reading (fun s =>
  let b := j_books s in
  if bool_decide (k ∈ reconciledMethods b) || bool_decide (is_Some (quickUnlockPurgePending b !! k))
     || (quickUnlockPurgeMaxAttempts <=? generation (quickUnlockPurgeAttempts b) k) then skip
  else
    let slot := activeSlot (j_panel s) in
    let p := mkPurge slots_ m k slot (generation (quickUnlockMethodGeneration b) m) (generation (quickUnlockAccountGeneration b) slot) in
    on_books (fun b => set_attempts (<[k := generation (quickUnlockPurgeAttempts b) k + 1]> (quickUnlockPurgeAttempts b))
                         (set_pending (<[k := next_id (j_queue s)]> (quickUnlockPurgePending b)) b))
    ;> queueEnvelopeJob (Purge p) [] false false).

(** The books once the removal [p] has ended. *)
Definition settled (p : purge) (ok : bool) (b : purge_books) : purge_books :=
  let b1 := set_pending (delete (key p) (quickUnlockPurgePending b)) b in
  if ok then
    let failures := quickUnlockPurgeFailures b ∖ {[key p]} in
    set_reconciled ({[key p]} ∪ reconciledMethods b) (set_failures failures (without_purge_message failures (errorMessage b)) b1)
  else set_failures ({[key p]} ∪ quickUnlockPurgeFailures b) purge_message b1.

Definition on_purged (j : job) (p : purge) (code : Z) : job_act := reading (fun s =>
  if negb (isCurrent s p) || negb (bool_decide (quickUnlockPurgePending (j_books s) !! key p = Some (job_id j))) then skip
  else
    on_books (settled p (code =? 0))
    ;> (if code =? 0 then skip
        else cause (PurgeFailed (key p)) ;> if logoutPending (j_panel s) then skip else callLater (RetryPurge p))
    ;> if logoutPending (j_panel s) then skip else refreshEnvelope).

Definition retry_purge (p : purge) : job_act := reading (fun s =>
  if negb (logoutPending (j_panel s)) && isCurrent s p then queueQuickUnlockPurge (slots p) (method p) (key p) else skip).

Definition of_method (m k : jstr) : bool := str_eqb (slice_last (S (length m)) k) (u ":" ++ m).

Definition noteQuickUnlockEnabled (m : jstr) : job_act :=
  cause (MethodOn m)
  ;> update (fun s => set_books (fun b =>
       let failures := filter (fun k => of_method m k = false) (quickUnlockPurgeFailures b) in
       mkBooks (List.filter (fun m' => negb (str_eqb m' m)) (pendingPurges b))
         (<[m := now (j_panel s)]> (quickUnlockEnabledAt b))
         (filter (fun k => of_method m k = false) (reconciledMethods b))
         (filter (fun kv => of_method m kv.1 = false) (quickUnlockPurgeAttempts b))
         (filter (fun kv => of_method m kv.1 = false) (quickUnlockPurgePending b))
         failures
         (<[m := generation (quickUnlockMethodGeneration b) m + 1]> (quickUnlockMethodGeneration b))
         (quickUnlockAccountGeneration b)
         (without_purge_message failures (errorMessage b))) s).

Definition accountSlotsForPurge (p : panel) : list jstr := activeSlot p :: defaultAccountSlot :: account_slots p.

Definition purgeQuickUnlockMethod (m : jstr) : job_act := reading (fun s =>
  if negb (quickUnlockAvailable (j_panel s)) || negb (accountsLoaded (j_panel s)) then
    on_books (fun b => if bool_decide (m ∈ pendingPurges b) then b else set_pendingPurges (pendingPurges b ++ [m]) b)
  else
    let slots_ := accountSlotsForPurge (j_panel s) in queueQuickUnlockPurge slots_ m (join (u ",") slots_ ++ u ":" ++ m)).

Definition runPendingPurges : job_act := reading (fun s =>
  if negb (quickUnlockAvailable (j_panel s)) || negb (accountsLoaded (j_panel s)) || bool_decide (pendingPurges (j_books s) = []) then skip
  else on_books (set_pendingPurges []) ;> for_each purgeQuickUnlockMethod (pendingPurges (j_books s))).

Definition reconcile_one (m : jstr) : job_act := reading (fun s =>
  let k := activeSlot (j_panel s) ++ u ":" ++ m in
  if negb (bool_decide (m ∈ settings_off (j_panel s))) then skip
  else if now (j_panel s) - generation (quickUnlockEnabledAt (j_books s)) m <? quickUnlockEnableGraceMs then skip
  else if bool_decide (k ∈ reconciledMethods (j_books s)) then skip
  else queueQuickUnlockPurge [activeSlot (j_panel s)] m k).

Definition reconcileDisabledMethods : job_act := reading (fun s =>
  if negb (quickUnlockAvailable (j_panel s)) || str_eqb (accountId (j_panel s)) [] then skip
  else for_each reconcile_one [u "pin"; u "fingerprint"; u "fido"]).

(** The maybeMigrateLegacyFingerprint() between the two is a job of its own. *)
Definition envelopeReadinessChanged : job_act := reading (fun s =>
  if negb (quickUnlockAvailable (j_panel s)) || negb (accountsLoaded (j_panel s)) then skip
  else (if envelopeChecked (j_panel s) then skip else refreshEnvelope) ;> runPendingPurges).

(** refreshEnvelope(), what its answer does. *)
Definition on_inspected (code : Z) (out : jstr) : job_act := reading (fun s =>
  let summary := if code =? 0 then default JNull (json_parse out)
                 else if code =? EXIT_absent then JNull else envelopeSummary (j_panel s) in
  on_panel (set_envelope summary true)
  ;> (if (code =? 0) && truthy summary || (code =? EXIT_absent) then reconcileDisabledMethods else skip)
  ;> cause MethodsRead).

(** ** The end of a run *)

Definition on_done (j : job) (code : Z) (out : jstr) : job_act :=
  match kind j with
  | Purge p => on_purged j p code
  | Inspect => on_inspected code out
  | _ => cause (Done j code out)
  end.

Definition accepting (s : jobs) (j : job) : bool :=
  negb (logoutPending (j_panel s)) && str_eqb (job_slot j) (activeSlot (j_panel s))
  && (negb (unlock j) || (negb (cancelled j) && (job_epoch j =? vaultEpoch (j_panel s)))).

Definition job_ended (j : job) (code : Z) (out : jstr) (held : bool) : job_act := reading (fun s =>
  let kept := if holdOutput j then (if held then heldSecretRef (JStr (heldName j)) else []) else out in
  update (set_job None)
  ;> (if secretOutput j then callLater ClearCollector else skip)
  ;> (if accepting s j || alwaysDone j then on_done j code kept
      else (if holdOutput j then forgetHeldPassword kept else skip) ;> if unlock j then cause (Dropped j) else skip)
  ;> if unlock j then cause RecheckStatus else skip).

Definition next_job : job_act :=
  reading (fun s => if logoutPending (j_panel s) && allCredentialsClearPending (j_panel s) then cause SweepAgain else skip) ;> callLater Pump.

(** finishScrubRun() first: a scrub that took the process is no answer. *)
Definition onEnvelopeJobExited (code : Z) (out : jstr) (held : bool) : job_act := reading (fun s =>
  if scrubbing (j_proc s) then on_proc (set_scrubPending false) ;> pumpEnvelopeJobs
  else
    (match envelopeJob (j_queue s) with Some j => job_ended j code out held | None => skip end)
    ;> next_job).

Definition finish (code : Z) (out : jstr) (held : bool) : job_act :=
  on_proc (fun p => set_running false (set_runId NoRun p)) ;> onEnvelopeJobExited code out held.

(** launchLocal(), put off; a killed run still ends. *)
Definition launchLocal (seq : Z) : job_act := reading (fun s =>
  if negb (seq =? startSeq (j_proc s)) then skip
  else if negb (running (j_proc s)) then finish 143 [] false
  else launch_here).

(** ** Locks, accounts, logout *)

Definition keep_jobs (p : job -> bool) : job_act := update (fun s => set_jobs (List.filter p (envelopeJobs (j_queue s))) s).

(** The unlock in flight; one that waits for the helper will never send an exit. *)
Definition cancel_running : job_act := reading (fun s =>
  match envelopeJob (j_queue s) with
  | Some j =>
    if unlock j then
      update (set_job (Some (with_cancelled j)))
      ;> stop_process
      ;> if has_run (runId (j_proc s)) then skip else vaultKill ;> update (set_job None) ;> callLater Pump
    else skip
  | None => skip
  end).

Definition unlock_running (s : jobs) : bool := match envelopeJob (j_queue s) with Some j => unlock j | None => false end.

Definition cancelEnvelopeUnlockJobs : job_act :=
  reading (fun s => for_each forget_env (List.filter unlock (envelopeJobs (j_queue s))))
  ;> keep_jobs (fun j => negb (unlock j))
  ;> cancel_running
  ;> cause PinFree
  ;> reading (fun s => if unlock_running s then skip else cause RecheckStatus).

(** What dropVaultState() does here. *)
Definition dropVaultState : job_act :=
  cancelEnvelopeUnlockJobs
  ;> on_panel (fun p => set_epoch (vaultEpoch p + 1) p)
  ;> scrubSecretBuffers.

Definition dropEnvelopeState : job_act := reading (fun s =>
  update (set_jobs [])
  ;> for_each (fun j => forget_env j ;> onCancelled j) (envelopeJobs (j_queue s))
  ;> (match envelopeJob (j_queue s) with Some j => onCancelled j | None => skip end)
  ;> on_books (fun b => set_accountGeneration
       (<[activeSlot (j_panel s) := generation (quickUnlockAccountGeneration b) (activeSlot (j_panel s)) + 1]> (quickUnlockAccountGeneration b)) b)
  ;> on_panel (fun p => set_envelope JNull false (set_account [] p))).

(** Of leaveActiveAccount() and enterAccount(), what the queue sees. *)
Definition switch_account (slot : jstr) : job_act :=
  cancelEnvelopeUnlockJobs ;> dropVaultState ;> dropEnvelopeState
  ;> on_panel (enter_slot slot) ;> envelopeReadinessChanged.

(** logoutAccount(): the lock, then the credentials. *)
Definition logoutAccount : job_act :=
  on_panel (set_logout true false) ;> dropVaultState ;> dropEnvelopeState.

(** The helper answered, or was given up on: the run that waits goes on. *)
Definition helper_settled (h : helper_state) : job_act := reading (fun s =>
  on_panel (fun p => set_helper h (vaultRunSeq p) p)
  ;> if vaultWaiting (j_proc s) then
       on_proc (set_waiting false) ;> if running (j_proc s) then vaultStart else skip
     else skip).

(** onVaultHelperExited(): a session it held is locked first, then its run fails. *)
Definition helper_gone (held_session : bool) : job_act :=
  on_panel (fun p => set_helper HelperStarting (vaultRunSeq p) p)
  ;> (if held_session then dropVaultState else skip)
  ;> reading (fun s => match runId (j_proc s) with AtHelper _ => finish 1 [] false | _ => skip end).

(** ** Runs *)

Inductive job_event :=
| UnlockAsked (m : jstr) (values : list jstr)
| WorkAsked (values : list jstr) (secret hold : bool)
| EnvelopeAsked
| MethodOff (m : jstr)
| MethodEnabled (m : jstr)
| ToolRead (available loaded : bool)
| AccountRead (id : jstr)
| SettingsRead (off : gset jstr) (registered : list jstr)
| TimePasses (by_ : Z)
| MessageShown (t : jstr)
| UnlocksCancelled
| SessionAdopted
| VaultDropped
| AccountSwitched (slot : jstr)
| LogoutAsked
| SweepWaits (waits : bool)
| LogoutEnded
| ScrubTimer
| HelperSettled (active : bool)
| HelperGone (held_session : bool)
| RunEnded (code : Z) (out : jstr) (held : bool)
| LocalClear (runs : bool)
| Later.

Definition run_later (c : later_job) : job_act :=
  match c with
  | Pump => pumpEnvelopeJobs
  | ClearCollector => clear_collector
  | Launch seq => launchLocal seq
  | RetryPurge p => retry_purge p
  end.

Definition job_step (e : job_event) : job_act := reading (fun s =>
  match e with
  | UnlockAsked m values => queueEnvelopeJob (Unlock m) values true true
  | WorkAsked values secret hold => queueEnvelopeJob Work values secret hold
  | EnvelopeAsked => refreshEnvelope
  | MethodOff m => purgeQuickUnlockMethod m
  | MethodEnabled m => noteQuickUnlockEnabled m
  | ToolRead available loaded => on_panel (set_ready available loaded) ;> envelopeReadinessChanged
  | AccountRead id => on_panel (set_account id)
  | SettingsRead off registered => on_panel (fun p => set_around off registered (now p) p)
  | TimePasses t => on_panel (fun p => set_around (settings_off p) (account_slots p) (now p + Z.max 0 t) p)
  | MessageShown t => on_books (set_message t)
  | UnlocksCancelled => cancelEnvelopeUnlockJobs
  | SessionAdopted => on_panel (fun p => set_epoch (vaultEpoch p + 1) p)
  | VaultDropped => dropVaultState
  | AccountSwitched slot => switch_account slot
  | LogoutAsked => logoutAccount
  | SweepWaits b => on_panel (fun p => set_logout (logoutPending p) b p)
  | LogoutEnded => on_panel (fun p => set_logout false false p)
  | ScrubTimer => scrubStep
  | HelperSettled active => helper_settled (if active then HelperActive else HelperAbsent)
  | HelperGone held_session => helper_gone held_session
  | RunEnded code out held =>
    if has_run (runId (j_proc s)) then
      (if bool_decide (runId (j_proc s) = Here) then on_proc (set_local false) else skip) ;> finish code out held
    else skip
  | LocalClear b => if bool_decide (runId (j_proc s) = Here) then skip else on_proc (set_local b)
  | Later =>
    match j_later s with
    | [] => skip
    | c :: rest => update (set_later (fun _ => rest)) ;> run_later c
    end
  end).

Definition job_run (es : list job_event) : job_act := run_handlers (map job_step es).
