(* ===== verification/JobsQueue.v ===== *)
(** * The queue of quick-unlock jobs moves on

    What keeps the queue of [Jobs] going: while a job waits there is always a run
    to end, a helper to answer or a call put off, and each of those that comes
    brings the job closer. It holds as long as no scrub takes the process while a
    killed run is still to end; after that the queue stays where it is. *)

From stdpp Require Import base list numbers gmap sets strings.
From S2P Require Import Prelude.
From S2P Require Import JsValue.
From S2P Require Import Json.
From S2P Require Import Accounts.
From S2P Require Import Commands.
From S2P Require Import Envelope.
From S2P Require Import Helpers.
From S2P Require Import Handlers.
From S2P Require Import Jobs.
Local Open Scope Z_scope.
Local Open Scope handler_scope.

(** ** The invariant *)

Definition is_launch (c : later_job) : bool := match c with Launch _ => true | _ => false end.

(** [pumped] says whether an idle process with jobs waiting has its pump put off. *)
Record moving (pumped : bool) (s : jobs) : Prop := {
  m_run : running (j_proc s) = true ->
    has_run (runId (j_proc s)) = true \/ vaultWaiting (j_proc s) = true \/ Launch (startSeq (j_proc s)) ∈ j_later s;
  m_scrub : scrubbing (j_proc s) = true -> running (j_proc s) || has_run (runId (j_proc s)) = true ->
    runId (j_proc s) = Here /\ running (j_proc s) = true /\ envelopeJob (j_queue s) = None;
  m_job : has_job (envelopeJob (j_queue s)) = true ->
    scrubbing (j_proc s) = false /\ running (j_proc s) || has_run (runId (j_proc s)) = true;
  m_idle : has_job (envelopeJob (j_queue s)) = false -> running (j_proc s) || has_run (runId (j_proc s)) = true -> scrubbing (j_proc s) = true;
  m_queue : pumped = true -> has_job (envelopeJob (j_queue s)) = false -> running (j_proc s) = false -> envelopeJobs (j_queue s) <> [] -> Pump ∈ j_later s;
  m_wait : vaultWaiting (j_proc s) = true ->
    running (j_proc s) = true /\ runId (j_proc s) = NoRun /\ Launch (startSeq (j_proc s)) ∉ j_later s;
  m_launch : Launch (startSeq (j_proc s)) ∈ j_later s -> runId (j_proc s) = NoRun;
  m_seq : forall n, Launch n ∈ j_later s -> n <= startSeq (j_proc s);
  m_once : NoDup (List.filter is_launch (j_later s))
}.

(** Between two handlers no run is ignored. *)
Definition goes (b c : bool) (f : job_act) : Prop := forall s, moving b s -> RunIgnored ∉ (f s).2 -> moving c (f s).1.

Lemma goes_then b c d f g : goes b c f -> goes c d g -> goes b d (f ;> g).
Proof.
  intros Hf Hg s Hs. unfold then_do. specialize (Hf s Hs). destruct (f s) as [s1 e1]. specialize (Hg s1). destruct (g s1) as [s2 e2]. cbn in *.
  rewrite elem_of_app. naive_solver.
Qed.
Lemma goes_skip b : goes b b skip.
Proof. by intros s. Qed.
Lemma goes_cause b e : goes b b (cause e).
Proof. by intros s. Qed.
Lemma goes_reading b c f : (forall s, goes b c (f s)) -> goes b c (reading f).
Proof. intros H s. apply H. Qed.
Lemma goes_if b c (t : bool) f g : goes b c f -> goes b c g -> goes b c (if t then f else g).
Proof. by destruct t. Qed.
Lemma goes_each b {A} (f : A -> job_act) l : (forall x, goes b b (f x)) -> goes b b (for_each f l).
Proof. intros H. induction l; [apply goes_skip|by eapply goes_then]. Qed.
Lemma moving_weaken b s : moving b s -> moving false s.
Proof. intros []. by split. Qed.
Lemma goes_weaken b f : goes false true f -> goes b b f.
Proof. intros H s Hs N. apply moving_weaken in Hs. specialize (H s Hs N). destruct b; [done|by eapply moving_weaken]. Qed.

(** An update of the books, of the panel, of the counters. *)
Lemma goes_frame b f : (forall s, j_proc (f s) = j_proc s /\ j_later (f s) = j_later s /\ has_job (envelopeJob (j_queue (f s))) = has_job (envelopeJob (j_queue s))
    /\ (envelopeJobs (j_queue s) = [] -> envelopeJobs (j_queue (f s)) = [])) -> goes b b (update f).
Proof.
  intros H s [] _. destruct (H s) as (E1 & E2 & E3 & E4). cbn. split; rewrite ?E1, ?E2, ?E3; auto; try tauto.
  intros S R. destruct (m_scrub0 S R) as (A & B & C). repeat split; auto. rewrite C in E3. by destruct (envelopeJob (j_queue (f s))).
Qed.
Lemma goes_books b f : goes b b (on_books f).
Proof. apply goes_frame. by intros s. Qed.
Lemma goes_panel b f : goes b b (on_panel f).
Proof. apply goes_frame. by intros s. Qed.

Lemma put_off_spec c l x : x ∈ put_off c l <-> x ∈ l \/ x = c.
Proof. unfold put_off. destruct c; try case_bool_decide; rewrite ?elem_of_app, ?list_elem_of_singleton; naive_solver. Qed.
Lemma put_off_launches c l : is_launch c = false -> List.filter is_launch (put_off c l) = List.filter is_launch l.
Proof. unfold put_off. intros N. destruct c; try done; try case_bool_decide; rewrite ?List.filter_app; cbn; by rewrite ?app_nil_r. Qed.

Lemma goes_later b c : is_launch c = false -> goes b (bool_decide (c = Pump) || b) (callLater c).
Proof.
  intros N s [] _. pose proof (fun x => put_off_spec c (j_later s) x) as L.
  split; cbn; auto.
  - intros H. rewrite L. destruct (m_run0 H) as [?|[?|?]]; auto.
  - intros P J R Q. rewrite L. case_bool_decide; [by right|]. left. by apply m_queue0.
  - intros W. destruct (m_wait0 W) as (? & ? & ?). repeat split; auto. rewrite L. intros [?|?]; [done|]. by subst c.
  - rewrite L. intros [?|?]; [auto|]. by subst c.
  - intros n. rewrite L. intros [?|?]; [auto|]. by subst c.
  - by rewrite put_off_launches.
Qed.
Lemma goes_pump b : goes b true (callLater Pump).
Proof. apply (goes_later b Pump eq_refl). Qed.
Lemma goes_call b c : is_launch c = false -> c <> Pump -> goes b b (callLater c).
Proof. intros N P s Hs Hn. pose proof (goes_later b c N s Hs Hn) as H. by rewrite bool_decide_false in H. Qed.

(** ** A run starts *)

Lemma after_then (f g : job_act) s : ((f ;> g) s).1 = (g (f s).1).1.
Proof. unfold then_do. destruct (f s) as [s1 e1]. cbn. by destruct (g s1). Qed.
Lemma effects_then (f g : job_act) s : ((f ;> g) s).2 = (f s).2 ++ (g (f s).1).2.
Proof. unfold then_do. destruct (f s) as [s1 e1]. cbn. by destruct (g s1). Qed.

(** The process is free, and its command is the job's, or the scrub. *)
Record ready (s : jobs) : Prop := {
  r_free : running (j_proc s) = false /\ runId (j_proc s) = NoRun /\ vaultWaiting (j_proc s) = false;
  r_command : scrubbing (j_proc s) = negb (has_job (envelopeJob (j_queue s)));
  r_seq : forall n, Launch n ∈ j_later s -> n <= startSeq (j_proc s);
  r_once : NoDup (List.filter is_launch (j_later s))
}.

Lemma filter_launch l n : Launch n ∈ List.filter is_launch l <-> Launch n ∈ l.
Proof. rewrite elem_of_bfilter. naive_solver. Qed.

(** A run that is asked for here is put off behind a clear of the process's own. *)
Lemma launch_moves b s : running (j_proc s) = true -> runId (j_proc s) = NoRun -> vaultWaiting (j_proc s) = false -> scrubbing (j_proc s) = false ->
  has_job (envelopeJob (j_queue s)) = true -> Launch (startSeq (j_proc s)) ∉ j_later s -> (forall n, Launch n ∈ j_later s -> n <= startSeq (j_proc s)) ->
  NoDup (List.filter is_launch (j_later s)) -> moving b (launch_here s).1.
Proof.
  intros R I W C J L Q O. unfold launch_here, reading. destruct (local_running (j_proc s)); split; cbn; rewrite ?R, ?I, ?W, ?C, ?J; cbn; try done; auto.
  - intros _. right. right. set_solver.
  - intros n. rewrite elem_of_app, list_elem_of_singleton. intros [?|[= ->]]; [auto|lia].
  - rewrite List.filter_app. cbn. apply NoDup_app. split; [done|]. split; [|apply NoDup_singleton].
    intros x Hx. rewrite list_elem_of_singleton. intros ->. by apply L, filter_launch.
Qed.

(** So is one that may be asked of the helper. *)
Lemma vaultStart_moves b s : running (j_proc s) = true -> runId (j_proc s) = NoRun -> vaultWaiting (j_proc s) = false -> scrubbing (j_proc s) = false ->
  has_job (envelopeJob (j_queue s)) = true -> Launch (startSeq (j_proc s)) ∉ j_later s -> (forall n, Launch n ∈ j_later s -> n <= startSeq (j_proc s)) ->
  NoDup (List.filter is_launch (j_later s)) -> moving b (vaultStart s).1.
Proof.
  intros R I W C J L Q O. unfold vaultStart, reading. destruct (vaultHelper (j_panel s)); [| |by apply launch_moves].
  all: split; cbn; rewrite ?R, ?I, ?W, ?C, ?J; cbn; try done; try naive_solver.
Qed.

Lemma run_ready b s : ready s -> moving b (run_process s).1.
Proof.
  intros [(R & I & W) C Q O]. unfold run_process, reading. rewrite R, after_then, I. cbn [has_run]. unfold start, reading.
  rewrite after_then. cbn -[vaultStart]. rewrite C.
  assert (L : forall n, Launch n ∈ j_later s -> n <> startSeq (j_proc s) + 1) by (intros n Hn; specialize (Q n Hn); lia).
  destruct (has_job (envelopeJob (j_queue s))) eqn:J; cbn [negb].
  - apply vaultStart_moves; cbn; try done.
    + intros H. by destruct (L _ H).
    + intros n Hn. specialize (Q n Hn). lia.
  - split; cbn; rewrite ?I, ?W, ?C, ?J; cbn; try done; try naive_solver.
    + intros _ _. repeat split. by destruct (envelopeJob (j_queue s)).
    + intros n Hn. specialize (Q n Hn). lia.
Qed.

Lemma idle_process b s : moving b s -> running (j_proc s) = false -> has_job (envelopeJob (j_queue s)) = false ->
  runId (j_proc s) = NoRun /\ vaultWaiting (j_proc s) = false.
Proof.
  intros [] R J. rewrite R in *. split.
  - destruct (runId (j_proc s)) eqn:E; [done|..]; cbn in *; (destruct m_scrub0 as (_ & ? & _); [by apply m_idle0|done|done]).
  - destruct (vaultWaiting (j_proc s)); [|done]. by destruct m_wait0.
Qed.

Lemma take_moves b s j : moving false s -> running (j_proc s) = false -> has_job (envelopeJob (j_queue s)) = false -> moving b (take_job j s).1.
Proof.
  intros H R J. destruct (idle_process _ _ H R J) as [I W]. unfold take_job, reading. rewrite !after_then. apply run_ready.
  destruct H. destruct (holdOutput j); by split.
Qed.

Ltac frames := first [by intros s | intros; apply goes_skip | intros; apply goes_cause].
Lemma goes_forget b v : goes b b (forgetHeldPassword v).
Proof. apply goes_if; frames. Qed.
Lemma goes_forget_env b j : goes b b (forget_env j).
Proof. apply goes_each. intros v. apply goes_forget. Qed.
Lemma goes_cancelled b j : goes b b (onCancelled j).
Proof. apply goes_reading. intros s. destruct (kind j); [frames| |frames..]. apply goes_if; [frames|apply goes_books]. Qed.

Lemma same_queue_forget j s : j_queue (forget_env j s).1 = j_queue s.
Proof.
  unfold forget_env. generalize (env j). intros vs. revert s. induction vs as [|v vs IH]; intros s; [done|]. cbn [for_each fold_right].
  rewrite after_then. etrans; [apply IH|]. unfold forgetHeldPassword. by destruct (str_eqb _ _).
Qed.
Lemma same_queue_cancelled j s : j_queue (onCancelled j s).1 = j_queue s.
Proof. unfold onCancelled, reading. destruct (kind j); try done. by case_bool_decide. Qed.

Lemma set_jobs_moves l : goes false false (update (set_jobs l)).
Proof. intros s [] _. by split. Qed.

Lemma pump_moves l s : moving false s -> envelopeJobs (j_queue s) = l -> RunIgnored ∉ (pump l s).2 -> moving true (pump l s).1.
Proof.
  revert s. induction l as [|j l IH]; intros s Hs E; cbn [pump]; unfold reading.
  all: destruct (running (j_proc s)) eqn:R; cbn [orb]; [intros _; destruct Hs; split; auto; naive_solver|].
  all: destruct (has_job (envelopeJob (j_queue s))) eqn:J; [intros _; destruct Hs; split; auto; naive_solver|].
  { intros _. destruct Hs. split; auto. }
  rewrite effects_then, after_then. cbn [update fst snd app]. pose proof (set_jobs_moves l s Hs (not_elem_of_nil _)) as H1.
  destruct (outdated s j).
  - rewrite !after_then, !effects_then, !elem_of_app. intros N. apply IH; [|unfold onCancelled, reading; destruct (kind j); try done; by case_bool_decide|naive_solver].
    apply goes_cancelled; naive_solver.
  - destruct (unwanted s j); [|intros N; by apply take_moves].
    rewrite !after_then, !effects_then, !elem_of_app. intros N. apply IH; [|..|naive_solver].
    + apply goes_forget_env; naive_solver.
    + cbn. by rewrite same_queue_forget.
Qed.


(** ** What a handler asks for *)

Lemma goes_pump_jobs : goes false true pumpEnvelopeJobs.
Proof. intros s Hs. by apply pump_moves. Qed.

Lemma goes_queue b k vs secret hold : goes b b (queueEnvelopeJob k vs secret hold).
Proof.
  apply goes_weaken, goes_reading. intros s. eapply goes_then; [apply goes_frame; by intros ?|].
  eapply goes_then; [apply set_jobs_moves|]. eapply goes_then; [apply goes_cause|apply goes_pump_jobs].
Qed.

Create HintDb goes.
#[export] Hint Resolve goes_skip goes_cause goes_reading goes_if goes_each goes_books goes_panel goes_forget goes_forget_env goes_cancelled
  goes_pump goes_queue : goes.
#[export] Hint Extern 2 (goes _ _ (_ ;> _)) => (eapply goes_then) : goes.
#[export] Hint Extern 1 (goes _ _ (callLater ClearCollector)) => (by apply goes_call) : goes.
#[export] Hint Extern 1 (goes _ _ (callLater (RetryPurge _))) => (by apply goes_call) : goes.
#[export] Hint Extern 1 (goes _ _ (update (fun s => set_books _ s))) => (apply goes_frame; by intros ?) : goes.
Ltac goes := intros; eauto 14 with goes.

Lemma goes_refresh b : goes b b refreshEnvelope.
Proof. unfold refreshEnvelope. goes. Qed.
#[export] Hint Resolve goes_refresh : goes.
Lemma goes_queue_purge b ss m k : goes b b (queueQuickUnlockPurge ss m k).
Proof. unfold queueQuickUnlockPurge. cbv zeta. goes. Qed.
#[export] Hint Resolve goes_queue_purge : goes.
Lemma goes_purge_method b m : goes b b (purgeQuickUnlockMethod m).
Proof. unfold purgeQuickUnlockMethod. cbv zeta. goes. Qed.
#[export] Hint Resolve goes_purge_method : goes.
Lemma goes_readiness b : goes b b envelopeReadinessChanged.
Proof. unfold envelopeReadinessChanged, runPendingPurges. goes. Qed.
Lemma goes_reconcile b : goes b b reconcileDisabledMethods.
Proof. unfold reconcileDisabledMethods, reconcile_one. cbv zeta. goes. Qed.
#[export] Hint Resolve goes_readiness goes_reconcile : goes.
Lemma goes_purged b j p code : goes b b (on_purged j p code).
Proof. unfold on_purged. cbv zeta. goes. Qed.
Lemma goes_inspected b code out : goes b b (on_inspected code out).
Proof. unfold on_inspected. cbv zeta. goes. Qed.
#[export] Hint Resolve goes_purged goes_inspected : goes.
Lemma goes_done b j code out : goes b b (on_done j code out).
Proof. unfold on_done. destruct (kind j); goes. Qed.
Lemma goes_retry b p : goes b b (retry_purge p).
Proof. unfold retry_purge. goes. Qed.
Lemma goes_enabled b m : goes b b (noteQuickUnlockEnabled m).
Proof. unfold noteQuickUnlockEnabled. cbv zeta. goes. Qed.
#[export] Hint Resolve goes_done goes_retry goes_enabled : goes.

(** ** The end of a run *)

(** The run is over; its job, if it has one, is still to be answered. *)
Record ended (s : jobs) : Prop := {
  e_free : running (j_proc s) = false /\ runId (j_proc s) = NoRun /\ vaultWaiting (j_proc s) = false;
  e_scrub : scrubbing (j_proc s) = true -> envelopeJob (j_queue s) = None;
  e_seq : forall n, Launch n ∈ j_later s -> n <= startSeq (j_proc s);
  e_once : NoDup (List.filter is_launch (j_later s))
}.

Lemma ended_answered s : ended s -> moving false (set_job None s).
Proof. intros [(R & I & W) C Q O]. split; cbn; rewrite ?R, ?I, ?W; try done. Qed.

Lemma answered_moves j code out held s : ended s -> RunIgnored ∉ (job_ended j code out held s).2 -> moving false (job_ended j code out held s).1.
Proof.
  intros H. apply ended_answered in H. unfold job_ended, reading. rewrite after_then, effects_then, elem_of_app. intros N.
  assert (M : forall f, goes false false f -> RunIgnored ∉ (f (set_job None s)).2 -> moving false (f (set_job None s)).1) by (intros f Hf; by apply Hf).
  apply M; [|naive_solver]. goes.
Qed.

Lemma goes_next : goes false true next_job.
Proof. unfold next_job. goes. Qed.

Lemma exited_moves code out held s : ended s -> RunIgnored ∉ (onEnvelopeJobExited code out held s).2 -> moving true (onEnvelopeJobExited code out held s).1.
Proof.
  intros H. unfold onEnvelopeJobExited, reading. pose proof (ended_answered s H) as A.
  assert (E : envelopeJob (j_queue s) = None -> set_job None s = s) by (destruct s as [[] ? ? ? ?]; cbn; by intros ->).
  destruct (scrubbing (j_proc s)) eqn:C; rewrite after_then, effects_then, elem_of_app; intros N.
  - apply goes_pump_jobs; [|naive_solver]. rewrite E in A by by apply e_scrub. destruct A. by split.
  - apply goes_next; [|naive_solver]. destruct (envelopeJob (j_queue s)); [apply answered_moves; naive_solver|]. by rewrite E in A.
Qed.

Lemma finish_moves b code out held s : moving b s -> (has_run (runId (j_proc s)) = true \/ vaultWaiting (j_proc s) = false) ->
  RunIgnored ∉ (finish code out held s).2 -> moving true (finish code out held s).1.
Proof.
  intros H I. unfold finish. rewrite after_then, effects_then. cbn [on_proc update snd app fst]. apply exited_moves. destruct H. split; cbn; try done.
  - repeat split. destruct I as [I|I]; [|done]. destruct (vaultWaiting (j_proc s)); [|done]. destruct m_wait0 as (_ & E & _); [done|]. by rewrite E in I.
  - intros C. destruct (envelopeJob (j_queue s)) eqn:J; [|done]. destruct (m_job0 eq_refl). congruence.
Qed.

(** ** Every event *)

(** A scrub takes a process whose run is over, or its assignment is ignored. *)
Lemma scrub_moves b s : moving b s -> running (j_proc s) = false -> RunIgnored ∉ (take_for_scrub s).2 -> moving b (take_for_scrub s).1.
Proof.
  intros H R. unfold take_for_scrub. rewrite effects_then, after_then. cbn [on_proc update fst snd app]. set (s1 := set_proc _ s). intros N.
  assert (I : has_run (runId (j_proc s)) = false).
  { revert N. unfold run_process, reading, s1. cbn. rewrite R, effects_then. destruct (has_run (runId (j_proc s))); [|done]. cbn. set_solver. }
  destruct H. rewrite R, I in *. assert (J : has_job (envelopeJob (j_queue s)) = false).
  { destruct (has_job _); [|done]. by destruct m_job0. }
  apply run_ready. split; cbn; auto.
  - repeat split; [done|by destruct (runId (j_proc s))|]. destruct (vaultWaiting (j_proc s)); [|done]. by destruct m_wait0.
  - by rewrite J.
Qed.

Lemma goes_proc b f : (forall p, running (f p) = running p /\ runId (f p) = runId p /\ scrubbing (f p) = scrubbing p
  /\ startSeq (f p) = startSeq p /\ vaultWaiting (f p) = vaultWaiting p) -> goes b b (on_proc f).
Proof. intros H s [] _. destruct (H (j_proc s)) as (E1 & E2 & E3 & E4 & E5). by split; cbn; rewrite ?E1, ?E2, ?E3, ?E4, ?E5. Qed.
#[export] Hint Extern 1 (goes _ _ (on_proc (set_scrubPending _))) => (by apply goes_proc) : goes.
#[export] Hint Extern 1 (goes _ _ (on_proc (set_local _))) => (by apply goes_proc) : goes.

Lemma goes_scrub_step b : goes b b scrubStep.
Proof.
  intros s Hs. unfold scrubStep, reading. destruct (scrubPending (j_proc s)); [cbn [negb]|done].
  destruct (running (j_proc s)) eqn:R; [done|]. destruct (scrubbing (j_proc s)); [by apply goes_proc|by apply scrub_moves].
Qed.
Lemma goes_clear_collector b : goes b b clear_collector.
Proof. intros s Hs. unfold clear_collector, reading. destruct (running (j_proc s)) eqn:R; [done|by apply scrub_moves]. Qed.
#[export] Hint Resolve goes_scrub_step goes_clear_collector : goes.

Lemma goes_keep_jobs b p : goes b b (keep_jobs p).
Proof. apply goes_frame. intros s. cbn. repeat split. by intros ->. Qed.

Lemma goes_cancel_running b : goes b b cancel_running.
Proof.
  intros s H N. unfold cancel_running, reading in *. destruct (envelopeJob (j_queue s)) as [j|] eqn:J; [|done].
  destruct (unlock j); [|done]. clear N. rewrite !after_then. cbn [update fst]. unfold stop_process, reading. cbn.
  destruct H. rewrite J in *. destruct (m_job0 eq_refl) as [C R].
  destruct (running (j_proc s)) eqn:E; cbn [negb]; destruct (has_run (runId (j_proc s))) eqn:I; cbn in R; try done.
  - assert (K : forall t, runId (j_proc t) = runId (j_proc s) -> (vaultKill t).1 = t).
    { intros t Et. unfold vaultKill, reading. rewrite Et. by destruct (runId (j_proc s)). }
    rewrite after_then. cbn [update fst]. rewrite K by done. split; cbn; rewrite ?I, ?C; auto; try done. destruct (vaultWaiting (j_proc s)); [|done]. destruct m_wait0 as (_ & W & _); [done|]. by rewrite W in I.
  - destruct (runId (j_proc s)) eqn:I'; try done. rewrite !after_then. unfold vaultKill, reading. cbn. rewrite I'. cbn.
    destruct b; [|eapply moving_weaken]; apply (goes_pump false); try apply not_elem_of_nil.
    all: split; cbn; rewrite ?I'; try done; auto.
  - split; cbn; rewrite ?E, ?I, ?C; auto; try done.
Qed.
#[export] Hint Resolve goes_keep_jobs goes_cancel_running : goes.

Lemma goes_cancel b : goes b b cancelEnvelopeUnlockJobs.
Proof. unfold cancelEnvelopeUnlockJobs. goes. Qed.
#[export] Hint Resolve goes_cancel : goes.
Lemma goes_drop_vault b : goes b b dropVaultState.
Proof. unfold dropVaultState, scrubSecretBuffers. goes. Qed.
Lemma goes_drop_envelope b : goes b b dropEnvelopeState.
Proof.
  apply goes_reading. intros s. eapply goes_then; [apply goes_frame; by intros ?|]. eapply goes_then; [goes|].
  eapply goes_then; [destruct (envelopeJob (j_queue s)); goes|goes].
Qed.
#[export] Hint Resolve goes_drop_vault goes_drop_envelope : goes.

(** A process that is asked for and has no run has a job to start. *)
Lemma asked_for b s : moving b s -> running (j_proc s) = true -> runId (j_proc s) = NoRun ->
  scrubbing (j_proc s) = false /\ has_job (envelopeJob (j_queue s)) = true.
Proof.
  intros H R I. destruct H. rewrite R, I in *. assert (C : scrubbing (j_proc s) = false).
  { destruct (scrubbing (j_proc s)); [|done]. by destruct m_scrub0. }
  split; [done|]. destruct (has_job _); [done|]. by rewrite m_idle0 in C.
Qed.

Lemma goes_helper_settled b h : goes b b (helper_settled h).
Proof.
  intros s H N. unfold helper_settled, reading in *. rewrite after_then. destruct (vaultWaiting (j_proc s)) eqn:W; [|by apply goes_panel].
  destruct (m_wait b s H W) as (R & I & L). destruct (asked_for b s H R I) as [C J]. rewrite after_then. cbn. rewrite R.
  destruct H. by apply vaultStart_moves.
Qed.

Lemma goes_helper_gone b held : goes b b (helper_gone held).
Proof.
  unfold helper_gone. eapply goes_then; [apply goes_panel|]. eapply goes_then; [goes|]. intros s H. unfold reading.
  destruct (runId (j_proc s)) eqn:I; [done..|]. intros N. destruct b; [|eapply moving_weaken]; eapply finish_moves; try done; rewrite I; by left.
Qed.
#[export] Hint Resolve goes_helper_settled goes_helper_gone : goes.

Lemma popped b s c rest : moving b s -> j_later s = c :: rest -> is_launch c = false ->
  moving (b && bool_decide (c <> Pump)) (set_later (fun _ => rest) s).
Proof.
  intros [] E N. rewrite E in *. cbn in m_once0. rewrite N in m_once0. split; cbn; auto.
  - intros R. destruct (m_run0 R) as [?|[?|H]]; auto. apply elem_of_cons in H as [<-|?]; auto. done.
  - rewrite andb_true_iff, bool_decide_eq_true. intros [P Q] J R F. specialize (m_queue0 P J R F). apply elem_of_cons in m_queue0 as [?|?]; [|done]. by destruct Q.
  - intros W. destruct (m_wait0 W) as (? & ? & L). repeat split; auto. intros ?. apply L. by right.
  - intros ?. apply m_launch0. by right.
  - intros n ?. apply m_seq0. by right.
Qed.

(** A launch that was put off: replaced, killed before it began, or due. *)
Lemma launch_due b s n rest : moving b s -> j_later s = Launch n :: rest ->
  RunIgnored ∉ (launchLocal n (set_later (fun _ => rest) s)).2 -> moving b (launchLocal n (set_later (fun _ => rest) s)).1.
Proof.
  intros H E. assert (P : n = startSeq (j_proc s) -> Launch (startSeq (j_proc s)) ∉ rest).
  { intros -> K. destruct H. rewrite E in m_once0. apply NoDup_cons in m_once0 as [D _]. by apply D, filter_launch. }
  assert (M : n <> startSeq (j_proc s) \/ running (j_proc s) = false -> moving b (set_later (fun _ => rest) s)).
  { intros D. destruct H. rewrite E in *. cbn in m_once0. apply NoDup_cons in m_once0 as [_ O]. split; cbn; auto.
    - intros R. destruct D as [D|D]; [|congruence]. destruct (m_run0 R) as [?|[?|K]]; auto. apply elem_of_cons in K as [[= K]|?]; [by destruct D|auto].
    - intros ? J R Q. specialize (m_queue0 H J R Q). by apply elem_of_cons in m_queue0 as [?|?].
    - intros W. destruct (m_wait0 W) as (? & ? & L). repeat split; auto. intros ?. apply L. by right.
    - intros ?. apply m_launch0. by right.
    - intros m ?. apply m_seq0. by right. }
  unfold launchLocal, reading. cbn [set_later j_proc]. destruct (n =? startSeq (j_proc s)) eqn:Q; cbn [negb]; [|intros _; apply M; left; lia].
  apply Z.eqb_eq in Q. assert (I : runId (j_proc s) = NoRun) by (apply (m_launch b s H); rewrite E, Q; by left).
  assert (W : vaultWaiting (j_proc s) = false).
  { destruct (vaultWaiting (j_proc s)) eqn:W; [|done]. destruct (m_wait b s H W) as (_ & _ & L). destruct L. rewrite E, Q. by left. }
  destruct (running (j_proc s)) eqn:R; cbn [negb]; intros N.
  - destruct (asked_for b s H R I) as [C J]. apply launch_moves; cbn; auto; destruct H; rewrite E in *.
    + intros m ?. apply m_seq0. by right.
    + by apply NoDup_cons in m_once0 as [_ ?].
  - destruct b; [|eapply moving_weaken]; eapply finish_moves; try apply M; auto.
Qed.

Lemma goes_step e : goes true true (job_step e).
Proof.
  intros s H N. unfold job_step, reading in *.
  assert (C : forall f, goes true true f -> RunIgnored ∉ (f s).2 -> moving true (f s).1) by (intros f Hf; by apply Hf).
  destruct e; try (apply C; [unfold switch_account, logoutAccount; solve [goes]|done]).
  - destruct (has_run _) eqn:I; [|done]. rewrite after_then. rewrite effects_then in N. set (f := if bool_decide _ then _ else _) in *.
    assert (M : goes true true f) by (unfold f; goes). specialize (M s H).
    assert (E : has_run (runId (j_proc (f s).1)) = true /\ (f s).2 = []) by (unfold f; by case_bool_decide).
    destruct E as [E1 E2]. rewrite E2 in *. cbn [app] in N. eapply finish_moves; [apply M, not_elem_of_nil|by left|done].
  - destruct (j_later s) as [|c rest] eqn:E; [done|]. rewrite after_then. rewrite effects_then in N. cbn [update fst snd app] in *.
    destruct (is_launch c) eqn:L.
    + destruct c; try done. by apply launch_due.
    + pose proof (popped _ _ _ _ H E L) as P. destruct c; try done; cbn [run_later] in *.
      * by apply goes_pump_jobs.
      * by apply goes_clear_collector.
      * by apply goes_retry.
Qed.
