(* ===== verification/JobsProgress.v ===== *)
(** * A quick-unlock job that waits is taken

    A measure of how far a job of [Jobs] is from being taken: every run that ends,
    every answer of the vault helper and every call put off makes it smaller,
    whatever the exit codes and whatever the jobs that are queued behind. *)

From stdpp Require Import base list numbers gmap sets strings.
From S2P Require Import Prelude.
From S2P Require Import JsValue.
From S2P Require Import Json.
From S2P Require Import Accounts.
From S2P Require Import Commands.
From S2P Require Import Envelope.
From S2P Require Import Helpers.
From S2P Require Import Handlers.
From S2P Require Import Jobs.
From S2P Require Import JobsQueue.
Local Open Scope Z_scope.
Local Open Scope handler_scope.

(** ** Jobs have identities of their own *)

Section Fresh.
Context (n : Z).
Definition fresh (s : jobs) : Prop := n <= next_id (j_queue s) /\ Forall (fun j => job_id j < next_id (j_queue s)) (envelopeJobs (j_queue s)).

Lemma fresh_same f : (forall s, envelopeJobs (j_queue (f s)) = envelopeJobs (j_queue s) /\ next_id (j_queue (f s)) = next_id (j_queue s)) ->
  preserves fresh (update f : job_act).
Proof. intros H. apply preserves_update. intros s F. destruct (H s) as [E1 E2]. unfold fresh. by rewrite E1, E2. Qed.
#[local] Hint Extern 1 (preserves fresh (update _)) => (apply fresh_same; by intros ?) : preserves.
#[local] Hint Extern 1 (preserves fresh (on_proc _)) => (apply fresh_same; by intros ?) : preserves.
#[local] Hint Extern 1 (preserves fresh (on_books _)) => (apply fresh_same; by intros ?) : preserves.
#[local] Hint Extern 1 (preserves fresh (on_panel _)) => (apply fresh_same; by intros ?) : preserves.
#[local] Hint Extern 1 (preserves fresh (callLater _)) => (apply fresh_same; by intros ?) : preserves.
Ltac stays := intros; auto 14 with preserves.

Lemma fresh_launch : preserves fresh launch_here.
Proof. unfold launch_here. stays. Qed.
#[local] Hint Resolve fresh_launch : preserves.
Lemma fresh_vaultStart : preserves fresh vaultStart.
Proof. apply preserves_reading. intros s. destruct (vaultHelper _); cbv zeta; stays. Qed.
#[local] Hint Resolve fresh_vaultStart : preserves.
Lemma fresh_run : preserves fresh run_process.
Proof. unfold run_process, start. stays. Qed.
#[local] Hint Resolve fresh_run : preserves.
Lemma fresh_kill : preserves fresh vaultKill.
Proof. apply preserves_reading. intros s. destruct (runId _); stays. Qed.
#[local] Hint Resolve fresh_kill : preserves.
Lemma fresh_scrub : preserves fresh take_for_scrub.
Proof. unfold take_for_scrub. stays. Qed.
#[local] Hint Resolve fresh_scrub : preserves.
Lemma fresh_forget j : preserves fresh (forget_env j).
Proof. unfold forget_env, forgetHeldPassword. stays. Qed.
Lemma fresh_cancelled j : preserves fresh (onCancelled j).
Proof. apply preserves_reading. intros s. destruct (kind j); stays. Qed.
#[local] Hint Resolve fresh_forget fresh_cancelled : preserves.
Lemma fresh_keep p : preserves fresh (keep_jobs p).
Proof. apply preserves_update. intros s [L F]. split; [done|]. by apply Forall_bfilter. Qed.
Lemma fresh_take j : preserves fresh (take_job j).
Proof. unfold take_job. cbv zeta. stays. Qed.
#[local] Hint Resolve fresh_keep fresh_take : preserves.

(** A property of the queue and of the job that is taken, kept by the pump. *)
Lemma pump_ind (R : list job -> jobs -> jobs -> Prop) :
  (forall l s, R l s s) ->
  (forall j l s, outdated s j = true -> R l (onCancelled j (set_jobs l s)).1 (pump l (onCancelled j (set_jobs l s)).1).1 ->
     R (j :: l) s (pump l (onCancelled j (set_jobs l s)).1).1) ->
  (forall j l s, R l (forget_env j (set_jobs l s)).1 (pump l (forget_env j (set_jobs l s)).1).1 ->
     R (j :: l) s (pump l (forget_env j (set_jobs l s)).1).1) ->
  (forall j l s, running (j_proc s) = false -> R (j :: l) s (take_job j (set_jobs l s)).1) ->
  forall l s, R l s (pump l s).1.
Proof.
  intros H0 H1 H2 H3 l. induction l as [|j l IH]; intros s; cbn [pump]; unfold reading.
  all: destruct (running (j_proc s)) eqn:E; cbn [orb]; [apply H0|].
  all: destruct (has_job _); [apply H0|].
  { apply H0. }
  rewrite after_then. cbn [update fst]. destruct (outdated s j) eqn:O; [|destruct (unwanted s j)].
  - rewrite !after_then. by apply H1.
  - rewrite !after_then. by apply H2.
  - by apply H3.
Qed.

Lemma fresh_pump : preserves fresh pumpEnvelopeJobs.
Proof.
  intros s. unfold pumpEnvelopeJobs, reading.
  apply (pump_ind (fun l s t => envelopeJobs (j_queue s) = l -> fresh s -> fresh t)); try done; clear.
  - intros j l s _ IH E F. apply IH; [by rewrite same_queue_cancelled|]. apply fresh_cancelled. destruct F as [L F]. split; [done|]. rewrite E in F. by inversion F.
  - intros j l s IH E F. apply IH; [by rewrite same_queue_forget|]. apply fresh_forget. destruct F as [L F]. split; [done|]. rewrite E in F. by inversion F.
  - intros j l s _ E F. apply fresh_take. destruct F as [L F]. split; [done|]. rewrite E in F. by inversion F.
Qed.
#[local] Hint Resolve fresh_pump : preserves.
Lemma fresh_queue k vs secret hold : preserves fresh (queueEnvelopeJob k vs secret hold).
Proof.
  intros s [L F]. unfold queueEnvelopeJob, reading. rewrite !after_then. apply fresh_pump. split; cbn; [lia|]. apply Forall_app. split; [|repeat constructor; cbn; lia].
  eapply Forall_impl; [exact F|]. cbn. lia.
Qed.
#[local] Hint Resolve fresh_queue : preserves.

Lemma fresh_refresh : preserves fresh refreshEnvelope.
Proof. unfold refreshEnvelope. stays. Qed.
#[local] Hint Resolve fresh_refresh : preserves.
Lemma fresh_queue_purge ss m k : preserves fresh (queueQuickUnlockPurge ss m k).
Proof. unfold queueQuickUnlockPurge. cbv zeta. stays. Qed.
#[local] Hint Resolve fresh_queue_purge : preserves.
Lemma fresh_purge_method m : preserves fresh (purgeQuickUnlockMethod m).
Proof. unfold purgeQuickUnlockMethod. cbv zeta. stays. Qed.
#[local] Hint Resolve fresh_purge_method : preserves.
Lemma fresh_readiness : preserves fresh envelopeReadinessChanged.
Proof. unfold envelopeReadinessChanged, runPendingPurges. stays. Qed.
Lemma fresh_reconcile : preserves fresh reconcileDisabledMethods.
Proof. unfold reconcileDisabledMethods, reconcile_one. cbv zeta. stays. Qed.
#[local] Hint Resolve fresh_readiness fresh_reconcile : preserves.
Lemma fresh_done j code out : preserves fresh (on_done j code out).
Proof. unfold on_done, on_purged, on_inspected. cbv zeta. destruct (kind j); stays. Qed.
#[local] Hint Resolve fresh_done : preserves.
Lemma fresh_answered j code out held : preserves fresh (job_ended j code out held).
Proof. unfold job_ended, forgetHeldPassword. cbv zeta. stays. Qed.
#[local] Hint Resolve fresh_answered : preserves.
Lemma fresh_finish code out held : preserves fresh (finish code out held).
Proof.
  unfold finish, onEnvelopeJobExited, next_job. apply preserves_then; [stays|]. apply preserves_reading. intros s.
  destruct (scrubbing _); [stays|]. destruct (envelopeJob _); stays.
Qed.
#[local] Hint Resolve fresh_finish : preserves.
Lemma fresh_cancel : preserves fresh cancelEnvelopeUnlockJobs.
Proof.
  unfold cancelEnvelopeUnlockJobs. apply preserves_then; [stays|]. apply preserves_then; [stays|]. apply preserves_then; [|stays].
  apply preserves_reading. intros s. unfold stop_process. destruct (envelopeJob _); stays.
Qed.
#[local] Hint Resolve fresh_cancel : preserves.
Lemma fresh_drop_vault : preserves fresh dropVaultState.
Proof. unfold dropVaultState, scrubSecretBuffers, scrubStep. stays. Qed.
Lemma fresh_drop_envelope : preserves fresh dropEnvelopeState.
Proof.
  apply preserves_reading. intros s. apply preserves_then; [intros ? [? _]; by split|]. apply preserves_then; [stays|].
  apply preserves_then; [destruct (envelopeJob _); stays|stays].
Qed.
#[local] Hint Resolve fresh_drop_vault fresh_drop_envelope : preserves.

Lemma fresh_step e : preserves fresh (job_step e).
Proof.
  apply preserves_reading. intros s.
  destruct e; try solve [unfold switch_account, logoutAccount, noteQuickUnlockEnabled, scrubStep, helper_settled; cbv zeta; stays].
  - unfold helper_gone. apply preserves_then; [stays|]. apply preserves_then; [stays|]. apply preserves_reading. intros s'. destruct (runId _); stays.
  - destruct (j_later s) as [|c rest]; [stays|]. apply preserves_then; [stays|].
    destruct c; cbn [run_later]; unfold clear_collector, launchLocal, retry_purge; stays.
Qed.
Lemma fresh_run_jobs es slot start_ : n <= 0 -> fresh (job_run es (initial_jobs slot start_)).1.
Proof. intros H. unfold job_run. apply run_handlers_invariant; [|by split]. apply Forall_fmap, Forall_forall. intros e _. apply fresh_step. Qed.
End Fresh.

(** ** How far a job is from being taken *)

(** Where the last job with the identity stands, counted from 1; 0 where there is none. *)
Fixpoint place (i : Z) (q : list job) : nat :=
  match q with
  | [] => 0
  | j :: rest => match place i rest with O => if job_id j =? i then 1 else 0 | n => S n end
  end.

Definition stage (p : vault_process) : nat :=
  if has_run (runId p) then (if scrubbing p then 2 else 10) else if running p then (if vaultWaiting p then 14 else 11) else 0.
Definition later_cost (c : later_job) : nat := match c with Pump => 1 | ClearCollector => 4 | Launch _ => 2 | RetryPurge _ => 1 end.
Definition later_sum (l : list later_job) : nat := foldr (fun c n => later_cost c + n)%nat 0%nat l.
Definition busy_cost (s : jobs) : nat :=
  (stage (j_proc s) + (if local_running (j_proc s) then 1 else 0) + later_sum (j_later s))%nat.
Definition distance (i : Z) (s : jobs) : nat := (30 * place i (envelopeJobs (j_queue s)) + busy_cost s)%nat.

Lemma place_app i q j : job_id j <> i -> place i (q ++ [j]) = place i q.
Proof. intros N. induction q as [|j' q IH]; cbn; [|by rewrite IH]. by rewrite (proj2 (Z.eqb_neq _ _) N). Qed.
Lemma place_in i q : place i q <> 0%nat <-> i ∈ map job_id q.
Proof.
  induction q as [|j q IH]; cbn; [set_solver|]. rewrite elem_of_cons, <- IH. destruct (place i q); [|naive_solver lia].
  destruct (job_id j =? i) eqn:E; [apply Z.eqb_eq in E|apply Z.eqb_neq in E]; naive_solver.
Qed.
Lemma later_sum_cons c l : later_sum (c :: l) = (later_cost c + later_sum l)%nat.
Proof. done. Qed.
Lemma later_sum_end l c : later_sum (l ++ [c]) = (later_sum l + later_cost c)%nat.
Proof. induction l as [|c' l IH]; cbn [app]; rewrite ?later_sum_cons; [cbn; lia|]. rewrite IH. lia. Qed.
Arguments later_sum : simpl never.

(** [f] leaves a job that waits at most [n] farther. *)
Definition farther (i : Z) (n : nat) (f : job_act) : Prop := forall s, i < next_id (j_queue s) ->
  i < next_id (j_queue (f s).1)
  /\ (place i (envelopeJobs (j_queue (f s).1)) <> 0%nat -> place i (envelopeJobs (j_queue s)) <> 0%nat /\ (distance i (f s).1 <= n + distance i s)%nat).

Ltac costs := cbn; unfold busy_cost, stage; cbn; rewrite ?later_sum_end, ?later_sum_cons; cbn.

Section Farther.
Context (i : Z).
Lemma farther_then n m f g : farther i n f -> farther i m g -> farther i (n + m) (f ;> g).
Proof. intros Hf Hg s K. rewrite after_then. destruct (Hf s K) as [K1 F1]. destruct (Hg _ K1) as [K2 F2]. split; [done|]. intros W. destruct (F2 W). destruct F1; [done|]. split; [done|lia]. Qed.
Lemma farther_0 f g : farther i 0 f -> farther i 0 g -> farther i 0 (f ;> g).
Proof. apply (farther_then 0 0). Qed.
Lemma farther_le n m f : farther i n f -> (n <= m)%nat -> farther i m f.
Proof. intros H L s K. destruct (H s K) as [K1 F]. split; [done|]. intros W. destruct (F W). split; [done|lia]. Qed.
Lemma farther_reading n f : (forall s, farther i n (f s)) -> farther i n (reading f).
Proof. intros H s. apply H. Qed.
Lemma farther_if n (b : bool) f g : farther i n f -> farther i n g -> farther i n (if b then f else g).
Proof. by destruct b. Qed.
Lemma farther_skip : farther i 0 skip.
Proof. intros s K. split; [done|]. cbn. lia. Qed.
Lemma farther_cause e : farther i 0 (cause e).
Proof. intros s K. split; [done|]. cbn. lia. Qed.
Lemma farther_each {A} (f : A -> job_act) l : (forall x, farther i 0 (f x)) -> farther i 0 (for_each f l).
Proof. intros H. induction l; [apply farther_skip|by apply farther_0]. Qed.
Lemma farther_books f : farther i 0 (on_books f).
Proof. intros s K. split; [done|]. cbn. unfold distance, busy_cost. cbn. lia. Qed.
Lemma farther_panel f : farther i 0 (on_panel f).
Proof. intros s K. split; [done|]. cbn. unfold distance, busy_cost. cbn. lia. Qed.
Lemma farther_later c : farther i (later_cost c) (callLater c).
Proof.
  intros s K. split; [done|]. cbn. intros W. split; [done|]. unfold distance, busy_cost. cbn. unfold put_off.
  destruct c; try case_bool_decide; rewrite ?later_sum_end; cbn; lia.
Qed.
Lemma farther_job o : farther i 0 (update (set_job o)).
Proof. intros s K. split; [done|]. cbn. unfold distance, busy_cost. cbn. lia. Qed.

(** A run that starts costs less than a place in the queue. *)
Lemma launch_cost s : has_run (runId (j_proc s)) = false -> running (j_proc s) = true -> scrubbing (j_proc s) = false ->
  j_queue (launch_here s).1 = j_queue s
  /\ (busy_cost (launch_here s).1 <= (if local_running (j_proc s) then 2 else 0) + busy_cost s)%nat.
Proof.
  intros I R C. unfold launch_here, reading. destruct (local_running (j_proc s)) eqn:L; (split; [done|]); costs; rewrite ?L, ?I, ?R, ?C.
  - lia.
  - destruct (vaultWaiting _); lia.
Qed.
Lemma vaultStart_cost s : runId (j_proc s) = NoRun -> running (j_proc s) = true -> scrubbing (j_proc s) = false ->
  j_queue (vaultStart s).1 = j_queue s
  /\ (busy_cost (vaultStart s).1 + (if vaultWaiting (j_proc s) then 1 else 0) <= 3 + busy_cost s)%nat
  /\ (vaultHelper (j_panel s) <> HelperStarting -> busy_cost (vaultStart s).1 <= 2 + busy_cost s)%nat.
Proof.
  intros I R C. unfold vaultStart, reading. destruct (vaultHelper (j_panel s)).
  1-2: costs; rewrite ?I, ?R, ?C; cbn; repeat split; try done; destruct (vaultWaiting _); cbn; lia.
  destruct (launch_cost s) as [E L]; [by rewrite I|done..|]. repeat split; [done|..]; destruct (local_running (j_proc s)), (vaultWaiting (j_proc s)); lia.
Qed.
Lemma run_cost s : running (j_proc s) = false ->
  j_queue (run_process s).1 = j_queue s /\ (busy_cost (run_process s).1 <= 16 + busy_cost s)%nat
  /\ (scrubbing (j_proc s) = true -> busy_cost (run_process s).1 <= 3 + busy_cost s)%nat.
Proof.
  intros R. unfold run_process, reading. rewrite R, after_then. destruct (runId (j_proc s)) eqn:I; cbn [has_run].
  2-3: costs; rewrite I; cbn; repeat split; try done; lia.
  unfold start, reading. rewrite after_then. cbn -[vaultStart]. destruct (scrubbing (j_proc s)) eqn:C.
  - costs. rewrite I, R, C. cbn. repeat split; try done; destruct (local_running _); lia.
  - set (s1 := set_proc _ _).
    assert (B : (busy_cost s1 + (if vaultWaiting (j_proc s1) then 0 else 3) <= 14 + busy_cost s)%nat)
      by (unfold s1; costs; rewrite I, R; cbn; destruct (vaultWaiting _); lia).
    destruct (vaultStart_cost s1) as (E & L & _); [unfold s1; cbn; try done..|]. split; [by rewrite E|]. split; [|done].
    destruct (vaultWaiting (j_proc s1)); lia.
Qed.

Lemma take_cost j s : running (j_proc s) = false ->
  j_queue (take_job j s).1 = mkQueue (envelopeJobs (j_queue s)) (envelopeJob (j_queue (take_job j s).1)) (next_id (j_queue s)) (heldSecretSeq (j_queue (take_job j s).1))
  /\ (busy_cost (take_job j s).1 <= 24 + busy_cost s)%nat.
Proof.
  intros R. unfold take_job, reading. rewrite !after_then. cbn -[run_process]. set (s1 := (if holdOutput j then _ else _ : job_act) s).
  assert (E1 : envelopeJobs (j_queue s1.1) = envelopeJobs (j_queue s) /\ next_id (j_queue s1.1) = next_id (j_queue s) /\ j_proc s1.1 = j_proc s /\ j_later s1.1 = j_later s)
    by (unfold s1; by destruct (holdOutput j)).
  destruct E1 as (Eq & En & Ep & El). set (s2 := set_proc _ _).
  assert (B : (busy_cost s2 <= 8 + busy_cost s)%nat).
  { unfold s2. costs. rewrite Ep, El. destruct (has_run _), (scrubbing (j_proc s)), (running (j_proc s)), (vaultWaiting (j_proc s)); lia. }
  destruct (run_cost s2) as (E & L & _); [unfold s2; cbn; by rewrite Ep|]. rewrite E. split; [|lia]. cbn. by rewrite Eq, En.
Qed.

Lemma farther_forget j : farther i 0 (forget_env j).
Proof. apply farther_each. intros v. apply farther_if; [apply farther_skip|apply farther_cause]. Qed.
Lemma farther_cancelled j : farther i 0 (onCancelled j).
Proof. apply farther_reading. intros s. destruct (kind j); try apply farther_skip. apply farther_if; [apply farther_skip|apply farther_books]. Qed.

Definition nearer (l : list job) (s t : jobs) : Prop := envelopeJobs (j_queue s) = l -> i < next_id (j_queue s) ->
  i < next_id (j_queue t) /\ (place i (envelopeJobs (j_queue t)) <> 0%nat -> place i l <> 0%nat /\ (distance i t <= distance i s)%nat).

Lemma nearer_skips j l s f t : farther i 0 f -> j_queue (f (set_jobs l s)).1 = j_queue (set_jobs l s) ->
  nearer l (f (set_jobs l s)).1 t -> nearer (j :: l) s t.
Proof.
  intros F Q H E K. destruct (F (set_jobs l s) K) as [K1 F1]. destruct H as [K2 H]; [by rewrite Q|done|]. split; [done|]. intros W. destruct (H W) as [W1 D1].
  rewrite Q in F1. destruct (F1 W1) as [_ D2]. revert D2. unfold distance. cbn [set_jobs j_queue envelopeJobs]. rewrite E. cbn [place].
  destruct (place i l) eqn:P; [done|]. split; [done|]. unfold distance, busy_cost in *. cbn in *. lia.
Qed.

Lemma pump_nearer l s : nearer l s (pump l s).1.
Proof.
  apply pump_ind; clear.
  - intros l s E K. split; [done|]. rewrite E. done.
  - intros j l s _. apply nearer_skips; [apply farther_cancelled|apply same_queue_cancelled].
  - intros j l s. apply nearer_skips; [apply farther_forget|apply same_queue_forget].
  - intros j l s R E K. destruct (take_cost j (set_jobs l s) R) as [Q L]. rewrite Q. split; [done|]. cbn [envelopeJobs set_jobs j_queue]. intros W.
    cbn [place]. destruct (place i l) eqn:P; [done|]. split; [done|]. unfold distance. rewrite Q, E. cbn [envelopeJobs set_jobs j_queue place]. rewrite P.
    unfold busy_cost in *. cbn in L. lia.
Qed.
Lemma farther_pump : farther i 0 pumpEnvelopeJobs.
Proof. intros s K. exact (pump_nearer _ s eq_refl K). Qed.

Lemma farther_queue k vs secret hold : farther i 0 (queueEnvelopeJob k vs secret hold).
Proof.
  intros s K. unfold queueEnvelopeJob, reading. rewrite !after_then. set (s1 := (cause _ _).1).
  assert (E : envelopeJobs (j_queue s1) = envelopeJobs (j_queue s) ++ [mkJob (next_id (j_queue s)) k vs secret hold [] (activeSlot (j_panel s)) (vaultEpoch (j_panel s)) false]
    /\ next_id (j_queue s1) = next_id (j_queue s) + 1 /\ busy_cost s1 = busy_cost s) by done.
  destruct E as (Eq & En & Eb). destruct (farther_pump s1) as [K1 F]; [lia|]. split; [done|]. intros W. destruct (F W) as [W1 D]. revert W1 D.
  unfold distance. rewrite Eq, Eb, place_app by (cbn; lia). done.
Qed.

Create HintDb farther.
Hint Resolve farther_0 farther_reading farther_if farther_skip farther_cause farther_each farther_books farther_panel farther_forget farther_cancelled
  farther_queue farther_pump : farther.
Ltac farther := intros; auto 14 with farther.

Lemma farther_refresh : farther i 0 refreshEnvelope.
Proof. unfold refreshEnvelope. farther. Qed.
Hint Resolve farther_refresh : farther.
Lemma farther_queue_purge ss m k : farther i 0 (queueQuickUnlockPurge ss m k).
Proof. unfold queueQuickUnlockPurge. cbv zeta. farther. Qed.
Hint Resolve farther_queue_purge : farther.
Lemma farther_reconcile : farther i 0 reconcileDisabledMethods.
Proof. unfold reconcileDisabledMethods, reconcile_one. cbv zeta. farther. Qed.
Hint Resolve farther_reconcile : farther.
Lemma farther_done j code out : farther i 1 (on_done j code out).
Proof.
  unfold on_done. destruct (kind j); [apply (farther_le 0); [farther|lia]| |apply (farther_le 0); [unfold on_inspected; cbv zeta; farther|lia]..|apply (farther_le 0); [farther|lia]].
  apply farther_reading. intros s. apply farther_if; [apply (farther_le 0); [farther|lia]|]. apply (farther_then 0 1); [farther|].
  apply (farther_then 1 0); [|farther]. apply farther_if; [apply (farther_le 0); [farther|lia]|]. apply (farther_then 0 1); [farther|].
  apply farther_if; [apply (farther_le 0); [farther|lia]|apply (farther_later (RetryPurge p))].
Qed.
Lemma farther_answered j code out held : farther i 5 (job_ended j code out held).
Proof.
  apply farther_reading. intros s. cbv zeta. apply (farther_then 0 5); [apply farther_job|]. apply (farther_then 4 1).
  - apply farther_if; [apply (farther_later ClearCollector)|apply (farther_le 0); [farther|lia]].
  - apply (farther_then 1 0); [|farther]. apply farther_if; [apply farther_done|apply (farther_le 0); [unfold forgetHeldPassword; farther|lia]].
Qed.
Lemma farther_next : farther i 1 next_job.
Proof. apply (farther_then 0 1); [farther|apply (farther_later Pump)]. Qed.

Definition closer (s t : jobs) : Prop :=
  place i (envelopeJobs (j_queue t)) <> 0%nat -> place i (envelopeJobs (j_queue s)) <> 0%nat /\ (distance i t < distance i s)%nat.

(** A handler that starts from a state that is nearer by more than it costs. *)
Lemma closer_after n f s s1 : farther i n f -> i < next_id (j_queue s) -> j_queue s1 = j_queue s -> (n + busy_cost s1 < busy_cost s)%nat -> closer s (f s1).1.
Proof.
  intros F K Q L W. destruct (F s1) as [_ F1]; [by rewrite Q|]. destruct (F1 W) as [W1 D]. rewrite Q in W1. split; [done|].
  unfold distance in *. rewrite Q in D. lia.
Qed.

Lemma finish_closer code out held s s0 : i < next_id (j_queue s) -> j_queue s0 = j_queue s ->
  ((if scrubbing (j_proc s) then 0 else if has_job (envelopeJob (j_queue s)) then 6 else 1) + later_sum (j_later s)
     + (if local_running (j_proc s) then 1 else 0) < busy_cost s0)%nat -> closer s0 (finish code out held s).1.
Proof.
  intros K Q L. unfold finish. rewrite after_then. set (s1 := (on_proc _ s).1). unfold onEnvelopeJobExited, reading.
  assert (E : scrubbing (j_proc s1) = scrubbing (j_proc s) /\ j_queue s1 = j_queue s) by done. destruct E as [Ec Eq]. rewrite Ec, Eq.
  assert (C : forall n f, farther i n f -> (n + later_sum (j_later s) + (if local_running (j_proc s) then 1 else 0) < busy_cost s0)%nat -> closer s0 (f s1).1).
  { intros n f F D. apply (closer_after n); [done|by rewrite Q|by rewrite Eq|].
    assert (E1 : busy_cost s1 = (later_sum (j_later s) + if local_running (j_proc s) then 1 else 0)%nat) by (unfold s1; costs; lia). lia. }
  destruct (scrubbing (j_proc s)).
  - apply (C 0%nat); [|done]. apply farther_0; [|apply farther_pump]. intros t Kt. split; [done|]. cbn. unfold distance. costs. lia.
  - destruct (envelopeJob (j_queue s)) as [j|].
    + apply (C 6%nat); [|done]. apply (farther_then 5 1); [apply farther_answered|apply farther_next].
    + apply (C 1%nat); [|done]. apply (farther_then 0 1); [apply farther_skip|apply farther_next].
Qed.
End Farther.

(** ** What brings a job closer *)

(** An event that settles something that is under way. *)
Definition completes (e : job_event) (s : jobs) : bool :=
  match e with
  | RunEnded _ _ _ => has_run (runId (j_proc s))
  | HelperSettled _ => vaultWaiting (j_proc s)
  | LocalClear false => local_running (j_proc s) && negb (bool_decide (runId (j_proc s) = Here))
  | Later =>
    match j_later s with
    | [] => false
    | Launch n :: _ => negb (local_running (j_proc s) && running (j_proc s) && (n =? startSeq (j_proc s)))
    | _ => true
    end
  | _ => false
  end.

Fixpoint all_complete (es : list job_event) (s : jobs) : bool :=
  match es with [] => true | e :: rest => completes e s && all_complete rest (job_step e s).1 end.

Lemma run_end_closer i code out held s : moving true s -> has_run (runId (j_proc s)) = true -> i < next_id (j_queue s) ->
  closer i s (job_step (RunEnded code out held) s).1.
Proof.
  intros H I K. unfold job_step, reading. rewrite I, after_then. set (f := if bool_decide _ then _ else _).
  assert (E : j_queue (f s).1 = j_queue s /\ j_later (f s).1 = j_later s /\ scrubbing (j_proc (f s).1) = scrubbing (j_proc s)
    /\ stage (j_proc (f s).1) = stage (j_proc s) /\ (local_running (j_proc (f s).1) = true -> local_running (j_proc s) = true))
    by (unfold f; case_bool_decide; cbn; repeat split; done).
  destruct E as (Eq & El & Es & Et & Er).
  assert (B : (busy_cost (f s).1 <= busy_cost s)%nat).
  { unfold busy_cost. rewrite Et, El. destruct (local_running (j_proc (f s).1)); [rewrite Er by done; lia|lia]. }
  assert (C : closer i (f s).1 (finish code out held (f s).1).1).
  { apply finish_closer; rewrite ?Eq, ?El, ?Es; try done. unfold busy_cost. rewrite El, Et. unfold stage. rewrite I.
    destruct (scrubbing (j_proc s)), (has_job (envelopeJob (j_queue s))), (local_running (j_proc (f s).1)); lia. }
  intros W. destruct (C W) as [W1 D]. rewrite Eq in W1. split; [done|]. unfold distance in *. rewrite Eq in D. lia.
Qed.

Lemma helper_closer i active s : moving true s -> vaultWaiting (j_proc s) = true -> i < next_id (j_queue s) ->
  closer i s (job_step (HelperSettled active) s).1.
Proof.
  intros H W K. destruct (m_wait true s H W) as (R & I & _). destruct (asked_for true s H R I) as [C _].
  unfold job_step, helper_settled, reading. rewrite after_then, W, after_then. cbn -[vaultStart]. rewrite R. set (s1 := set_proc _ _).
  destruct (vaultStart_cost s1) as (Q & _ & L); [done..|]. specialize (L ltac:(by destruct active)). intros P. rewrite Q in P. split; [done|].
  unfold distance. rewrite Q. cbn [s1 set_proc set_panel j_queue]. assert (B : (3 + busy_cost s1 <= busy_cost s)%nat).
  { unfold s1. costs. rewrite I, R, W. cbn. lia. }
  lia.
Qed.

Lemma popped_later i c rest n s : j_later s = c :: rest -> farther i n (run_later c) -> i < next_id (j_queue s) -> (n < later_cost c)%nat ->
  closer i s (run_later c (set_later (fun _ => rest) s)).1.
Proof.
  intros E F K L. apply (closer_after i n); [done..|]. unfold busy_cost. rewrite E, later_sum_cons. cbn [set_later j_proc j_later]. lia.
Qed.

Lemma scrub_closer i rest s : j_later s = ClearCollector :: rest -> closer i s (clear_collector (set_later (fun _ => rest) s)).1.
Proof.
  intros E W. unfold clear_collector, reading in *. cbn [set_later j_proc] in *. destruct (running (j_proc s)) eqn:R.
  - split; [done|]. unfold distance, busy_cost. rewrite E, later_sum_cons. cbn. lia.
  - revert W. unfold take_for_scrub. rewrite after_then. cbn [on_proc update fst]. set (s1 := set_proc _ _). destruct (run_cost s1) as (Q & _ & L); [done|].
    specialize (L eq_refl). rewrite Q. intros W. split; [done|]. unfold distance. rewrite Q. cbn [s1 set_proc set_later j_queue].
    assert (B : (4 + busy_cost s1 <= busy_cost s)%nat).
    { unfold s1, busy_cost, stage. rewrite E, later_sum_cons. cbn. destruct (has_run (runId (j_proc s))), (scrubbing (j_proc s)), (running (j_proc s)), (vaultWaiting (j_proc s)); lia. }
    lia.
Qed.

Lemma launch_closer i n rest s : moving true s -> j_later s = Launch n :: rest -> completes Later s = true -> i < next_id (j_queue s) ->
  closer i s (launchLocal n (set_later (fun _ => rest) s)).1.
Proof.
  intros H E C K. cbn [completes] in C. rewrite E in C. unfold launchLocal, reading. set (s1 := set_later _ s).
  assert (S1 : j_proc s1 = j_proc s /\ j_queue s1 = j_queue s /\ busy_cost s = (2 + busy_cost s1)%nat /\ j_later s1 = rest)
    by (repeat split; unfold s1, busy_cost; rewrite E, later_sum_cons; cbn; lia).
  destruct S1 as (Ep & Eq & B & El). clearbody s1. rewrite Ep. destruct (n =? startSeq (j_proc s)) eqn:N; cbn [negb].
  2: { intros W. cbn [skip fst] in *. rewrite Eq in W. split; [done|]. unfold distance. rewrite Eq. lia. }
  apply Z.eqb_eq in N. subst n. assert (I : runId (j_proc s) = NoRun) by (apply (m_launch true s H); rewrite E; by left).
  destruct (running (j_proc s)) eqn:R; cbn [negb].
  - destruct (asked_for true s H R I) as [D _]. rewrite !andb_true_r, negb_true_iff in C.
    destruct (launch_cost s1) as [Q L]; [by rewrite Ep, ?I..|]. intros W. rewrite Q, Eq in W. split; [done|]. unfold distance. rewrite Q, Eq.
    rewrite Ep, C in L. lia.
  - assert (J : has_job (envelopeJob (j_queue s)) = false).
    { destruct (has_job _) eqn:J; [|done]. destruct (m_job true s H J) as [_ F]. by rewrite R, I in F. }
    apply finish_closer; rewrite ?Eq, ?Ep, ?El, ?J; try done. unfold busy_cost. rewrite E, later_sum_cons. cbn [later_cost].
    destruct (scrubbing (j_proc s)), (local_running (j_proc s)); lia.
Qed.

Lemma step_closer i e s : moving true s -> completes e s = true -> i < next_id (j_queue s) -> closer i s (job_step e s).1.
Proof.
  intros H C K. destruct e; try done.
  - by apply helper_closer.
  - by apply run_end_closer.
  - destruct runs; [done|]. apply andb_true_iff in C as [L I]. apply negb_true_iff in I. unfold job_step, reading. rewrite I. intros W. split; [done|].
    cbn. unfold distance. costs. rewrite L. lia.
  - unfold job_step, reading. destruct (j_later s) as [|c rest] eqn:E; [cbn in C; by rewrite E in C|]. rewrite after_then. cbn [update fst].
    destruct c; cbn [run_later].
    + eapply (popped_later i Pump rest 0); [done|apply farther_pump|done|cbn; lia].
    + by apply scrub_closer.
    + by apply launch_closer.
    + eapply (popped_later i (RetryPurge p) rest 0); [done| |done|cbn; lia]. apply farther_reading. intros s0.
      apply farther_if; [apply farther_queue_purge|apply farther_skip].
Qed.

(** ** The queue is never stuck *)

Lemma something_completes s i : moving true s -> i ∈ map job_id (envelopeJobs (j_queue s)) -> exists e, completes e s = true.
Proof.
  intros H Q. assert (N : envelopeJobs (j_queue s) <> []) by (destruct (envelopeJobs (j_queue s)); [by apply elem_of_nil in Q|done]).
  destruct (has_run (runId (j_proc s))) eqn:I; [by exists (RunEnded 0 [] false)|].
  destruct (vaultWaiting (j_proc s)) eqn:W; [by exists (HelperSettled true)|].
  assert (L : j_later s <> []).
  { destruct H as [M1 M2 M3 M4 M5 _ _ _ _]. destruct (has_job (envelopeJob (j_queue s))) eqn:J.
    - destruct (M3 eq_refl) as [_ R]. rewrite I, orb_false_r in R. destruct (M1 R) as [?|[?|D]]; [congruence..|].
      intros E. rewrite E in D. by apply elem_of_nil in D.
    - destruct (running (j_proc s)) eqn:R.
      + destruct (M2 (M4 eq_refl eq_refl) eq_refl) as [E _]. by rewrite E in I.
      + intros E. specialize (M5 eq_refl eq_refl eq_refl N). rewrite E in M5. by apply elem_of_nil in M5. }
  destruct (local_running (j_proc s)) eqn:R.
  - exists (LocalClear false). cbn. rewrite R. rewrite bool_decide_false; [done|]. intros E. by rewrite E in I.
  - exists Later. cbn. rewrite R. destruct (j_later s) as [|[]]; done.
Qed.

Lemma moving_initial slot start_ : moving true (initial_jobs slot start_).
Proof. split; cbn; try done; [by intros ? ?%elem_of_nil|constructor]. Qed.

Lemma job_run_app es cs s : (job_run (es ++ cs) s).1 = (job_run cs (job_run es s).1).1 /\ (job_run (es ++ cs) s).2 = (job_run es s).2 ++ (job_run cs (job_run es s).1).2.
Proof. unfold job_run. rewrite map_app, run_handlers_app. split; [apply after_then|apply effects_then]. Qed.
Lemma job_run_cons e es s : (job_run (e :: es) s).1 = (job_run es (job_step e s).1).1 /\ (job_run (e :: es) s).2 = (job_step e s).2 ++ (job_run es (job_step e s).1).2.
Proof. unfold job_run. cbn [map run_handlers]. split; [apply after_then|apply effects_then]. Qed.

Lemma run_moving es s : moving true s -> RunIgnored ∉ (job_run es s).2 -> moving true (job_run es s).1.
Proof.
  revert s. induction es as [|e es IH]; intros s H; [done|]. destruct (job_run_cons e es s) as [E1 E2]. rewrite E1, E2, elem_of_app. intros N.
  apply IH; [apply goes_step; naive_solver|naive_solver].
Qed.

Lemma run_closer i cs s : moving true s -> fresh 0 s -> i ∈ map job_id (envelopeJobs (j_queue s)) -> RunIgnored ∉ (job_run cs s).2 -> all_complete cs s = true ->
  i ∈ map job_id (envelopeJobs (j_queue (job_run cs s).1)) -> (length cs + 30 <= distance i s)%nat.
Proof.
  intros H F Q. assert (K : i < next_id (j_queue s)).
  { apply list_elem_of_fmap in Q as (j & -> & Q). destruct F as [_ F]. rewrite Forall_forall in F. by apply F. }
  clear Q. rewrite <- place_in.
  assert (G : RunIgnored ∉ (job_run cs s).2 -> all_complete cs s = true -> place i (envelopeJobs (j_queue (job_run cs s).1)) <> 0%nat ->
    place i (envelopeJobs (j_queue s)) <> 0%nat /\ (length cs + distance i (job_run cs s).1 <= distance i s)%nat).
  2: { intros N C W. destruct (G N C W) as [_ D]. revert W D. unfold distance at 1. lia. }
  assert (F' : fresh (i + 1) s) by (destruct F; split; [lia|done]). clear F K. revert s H F'. induction cs as [|e cs IH]; intros s H F N C W; [split; [done|cbn; lia]|].
  destruct (job_run_cons e cs s) as [E1 E2]. rewrite E1 in *. rewrite E2, elem_of_app in N. cbn [all_complete] in C. apply andb_true_iff in C as [C1 C2].
  pose proof (fresh_step (i + 1) e s F) as F1. assert (K1 : i < next_id (j_queue s)) by (destruct F; lia).
  destruct (IH (job_step e s).1) as [W1 D1]; [apply goes_step; naive_solver|done|naive_solver|done|done|].
  destruct (step_closer i e s H C1 K1 W1) as [W2 D2]. split; [done|]. cbn [length]. lia.
Qed.

(** How many completions a job can wait through. *)
Definition job_patience (s : jobs) (j : job) : nat := distance (job_id j) s.

(** C22. The queue of quick-unlock jobs never sticks, as long as no scrub takes the
    process while a killed run is still to end: while a job waits there is
    something to come (the end of a run, an answer of the vault helper, a call put
    off, the end of a clear), and once as many of them have come as its distance
    says it has been taken or dropped, whatever they answer and whatever jobs the
    answers queue behind it. *)
Theorem job_queue_moves : forall slot start_ es cs j,
  let s := (job_run es (initial_jobs slot start_)).1 in
  let t := (job_run cs s).1 in
  RunIgnored ∉ (job_run (es ++ cs) (initial_jobs slot start_)).2 -> j ∈ envelopeJobs (j_queue s) -> all_complete cs s = true ->
  (job_id j ∈ map job_id (envelopeJobs (j_queue t)) -> exists e, completes e t = true)
  /\ ((job_patience s j <= length cs)%nat -> job_id j ∉ map job_id (envelopeJobs (j_queue t))).
Proof.
  intros slot start_ es cs j s t N Q C. destruct (job_run_app es cs (initial_jobs slot start_)) as [_ E2]. rewrite E2, elem_of_app in N. fold s in N.
  assert (H : moving true s) by (apply run_moving; [apply moving_initial|naive_solver]).
  split; [apply something_completes, run_moving; naive_solver|]. intros L W.
  pose proof (run_closer (job_id j) cs s H (fresh_run_jobs 0 es slot start_ (Z.le_refl 0))) as D. unfold job_patience in L.
  specialize (D ltac:(apply list_elem_of_fmap; by exists j)). specialize (D ltac:(naive_solver) C W). lia.
Qed.

(** A PIN is being checked, and the envelope was asked for meanwhile. *)
Definition example_jobs : list job_event :=
  [HelperSettled true; AccountRead (u "someone"); ToolRead true true; RunEnded EXIT_absent [] false; Later;
   UnlockAsked (u "pin") [u "1234"]; EnvelopeAsked].
Definition example_state : jobs := (job_run example_jobs (initial_jobs (u "default") 0)).1.
Definition example_waiting : job := mkJob 2 Inspect [] false false [] (u "default") 0 false.
Definition example_end : list job_event := [RunEnded 3 [] false].

Lemma job_queue_moves_witness :
  (exists e, completes e (job_run example_end example_state).1 = true)
  /\ all_complete (example_end ++ [Later; RunEnded 0 [] false]) example_state = true
  /\ job_id example_waiting ∉ map job_id (envelopeJobs (j_queue (job_run (example_end ++ [Later; RunEnded 0 [] false]) example_state).1)).
Proof.
  split; [|split; [vm_compute; reflexivity|apply (bool_decide_unpack _); vm_compute; exact I]].
  destruct (job_queue_moves (u "default") 0 example_jobs example_end example_waiting) as [H _].
  - apply (bool_decide_unpack _). vm_compute. exact I.
  - vm_compute. left.
  - vm_compute. reflexivity.
  - apply H. vm_compute. left.
Defined.

(** Switching accounts while a PIN is checked: the lock kills the run and takes the
    process for its scrub before the run has ended, the end then passes for the
    scrub's, and the job keeps its place: nothing is left that could complete. *)
Lemma switch_sticks_the_queue :
  let s := (job_run (example_jobs ++ [AccountSwitched (u "other"); RunEnded 143 [] false; ToolRead true true; Later; Later; ScrubTimer])
              (initial_jobs (u "default") 0)).1 in
  has_job (envelopeJob (j_queue s)) = true /\ length (envelopeJobs (j_queue s)) = 2%nat /\ forall e, completes e s = false.
Proof.
  cbv zeta. split; [vm_compute; reflexivity|]. split; [vm_compute; reflexivity|]. intros e. destruct e as [| | | | | | | | | | | | | | | | | | | | |[]|]; vm_compute; reflexivity.
Qed.
