(* ===== verification/JobsPurges.v ===== *)
(** * Ways in that were turned off

    What the queue of [Jobs] promises of the removals: they are taken in the order
    they were asked for, none that was asked for before its method was turned on
    again is taken after, and none fails more than three times. *)

From stdpp Require Import base list numbers gmap sets strings sorting.
From S2P Require Import Prelude.
From S2P Require Import JsValue.
From S2P Require Import Json.
From S2P Require Import Accounts.
From S2P Require Import Commands.
From S2P Require Import Envelope.
From S2P Require Import Helpers.
From S2P Require Import Handlers.
From S2P Require Import Jobs.
From S2P Require Import JobsQueue.
Local Open Scope Z_scope.
Local Open Scope handler_scope.

(** ** The ledger *)

(** The last job taken, the jobs asked for since [m] was last turned on, and how
    often the removal under each key has failed since its method was turned on. *)
Record purge_ledger := mkLedger { last_taken : Z; asked_since : gset Z; failed : gmap jstr Z }.

Definition removal_of (m : jstr) (j : job) : bool := match kind j with Purge p => str_eqb (method p) m | _ => false end.

(** None where an entry is out of order. *)
Definition ledger_enter (m : jstr) (l : purge_ledger) (e : job_effect) : option purge_ledger :=
  match e with
  | Queued j => Some (mkLedger (last_taken l) ({[job_id j]} ∪ asked_since l) (failed l))
  | Taken j =>
    if (last_taken l <? job_id j) && (negb (removal_of m j) || bool_decide (job_id j ∈ asked_since l))
    then Some (mkLedger (job_id j) (asked_since l) (failed l)) else None
  | MethodOn m' =>
    Some (mkLedger (last_taken l) (if str_eqb m' m then ∅ else asked_since l) (filter (fun kv => of_method m' kv.1 = false) (failed l)))
  | PurgeFailed k =>
    if generation (failed l) k <? quickUnlockPurgeMaxAttempts
    then Some (mkLedger (last_taken l) (asked_since l) (<[k := generation (failed l) k + 1]> (failed l))) else None
  | _ => Some l
  end.
Fixpoint ledger_read (m : jstr) (l : purge_ledger) (es : list job_effect) : option purge_ledger :=
  match es with [] => Some l | e :: rest => ledger_enter m l e ≫= fun l' => ledger_read m l' rest end.
Definition empty_ledger : purge_ledger := mkLedger (-1) ∅ ∅.

Lemma ledger_read_app m l es es' : ledger_read m l (es ++ es') = ledger_read m l es ≫= fun l' => ledger_read m l' es'.
Proof. revert l. induction es as [|e es IH]; intros l; [done|]. cbn. destruct (ledger_enter m l e); [apply IH|done]. Qed.

(** ** The invariant *)

Definition tag (j : job) : Z * job_kind := (job_id j, kind j).
Definition holders (s : jobs) : list (Z * job_kind) := map tag (envelopeJobs (j_queue s) ++ option_list (envelopeJob (j_queue s))).

Section Ledger.
Context (m : jstr).

(** [H]: the jobs that still answer for a removal marked as pending. *)
Record booked (H : list (Z * job_kind)) (s : jobs) (l : purge_ledger) : Prop := {
  b_order : StronglySorted Z.lt (last_taken l :: map job_id (envelopeJobs (j_queue s)) ++ [next_id (j_queue s)]);
  b_asked : forall j p, j ∈ envelopeJobs (j_queue s) -> kind j = Purge p -> method p = m ->
    methodGeneration p <= generation (quickUnlockMethodGeneration (j_books s)) m
    /\ (methodGeneration p = generation (quickUnlockMethodGeneration (j_books s)) m -> job_id j ∈ asked_since l);
  b_pending : forall k id, quickUnlockPurgePending (j_books s) !! k = Some id -> exists p, (id, Purge p) ∈ H /\ key p = k /\ isCurrent s p = true;
  b_keys : forall id p, (id, Purge p) ∈ H -> of_method (method p) (key p) = true;
  b_retries : forall p, RetryPurge p ∈ j_later s -> of_method (method p) (key p) = true;
  b_attempts : forall k, 0 <= generation (failed l) k
    /\ generation (failed l) k + (if decide (is_Some (quickUnlockPurgePending (j_books s) !! k)) then 1 else 0)
        <= generation (quickUnlockPurgeAttempts (j_books s)) k <= quickUnlockPurgeMaxAttempts;
  b_reconciled : forall k, is_Some (quickUnlockPurgePending (j_books s) !! k) -> k ∉ reconciledMethods (j_books s)
}.

Lemma booked_sub H H' s l : booked H s l -> (forall id p, (id, Purge p) ∈ H' <-> (id, Purge p) ∈ H) -> booked H' s l.
Proof.
  intros [] S. split; auto.
  - intros k id E. destruct (b_pending0 k id E) as (p & ? & ?). exists p. by rewrite S.
  - intros id p Hp. apply (b_keys0 id). by apply S.
Qed.

(** A job that is over, or that nothing waits for, answers for nothing. *)
Lemma booked_drop t H s l : booked (t :: H) s l ->
  (forall p, t.2 = Purge p -> isCurrent s p = true -> quickUnlockPurgePending (j_books s) !! key p <> Some t.1) -> booked H s l.
Proof.
  intros [] N. split; auto.
  - intros k id E. destruct (b_pending0 k id E) as (p & Hp & <- & C). exists p. split; [|done]. apply elem_of_cons in Hp as [<-|?]; [|done].
    exfalso. by apply (N p).
  - intros id p Hp. apply (b_keys0 id). by right.
Qed.

Definition follows (f : job_act) : Prop := forall s l, booked (holders s) s l ->
  exists l', ledger_read m l (f s).2 = Some l' /\ booked (holders (f s).1) (f s).1 l'.

Lemma follows_then f g : follows f -> follows g -> follows (f ;> g).
Proof.
  intros Hf Hg s l B. destruct (Hf s l B) as (l1 & E1 & B1). destruct (Hg _ l1 B1) as (l2 & E2 & B2). exists l2.
  rewrite effects_then, after_then, ledger_read_app, E1. done.
Qed.
Lemma follows_reading f : (forall s, follows (f s)) -> follows (reading f).
Proof. intros H s. apply H. Qed.
Lemma follows_if (b : bool) f g : follows f -> follows g -> follows (if b then f else g).
Proof. by destruct b. Qed.
Lemma follows_skip : follows skip.
Proof. intros s l B. by exists l. Qed.
Lemma follows_each {A} (f : A -> job_act) xs : (forall x, follows (f x)) -> follows (for_each f xs).
Proof. intros H. induction xs; [apply follows_skip|by apply follows_then]. Qed.

(** What touches neither the queue nor the books of the removals. *)
Definition unledgered (e : job_effect) : bool := match e with Queued _ | Taken _ | MethodOn _ | PurgeFailed _ => false | _ => true end.
Record same_work (s s' : jobs) : Prop := {
  w_queue : envelopeJobs (j_queue s') = envelopeJobs (j_queue s);
  w_job : tag <$> envelopeJob (j_queue s') = tag <$> envelopeJob (j_queue s);
  w_next : next_id (j_queue s') = next_id (j_queue s);
  w_books : quickUnlockPurgePending (j_books s') = quickUnlockPurgePending (j_books s)
    /\ quickUnlockPurgeAttempts (j_books s') = quickUnlockPurgeAttempts (j_books s)
    /\ reconciledMethods (j_books s') = reconciledMethods (j_books s)
    /\ quickUnlockMethodGeneration (j_books s') = quickUnlockMethodGeneration (j_books s)
    /\ quickUnlockAccountGeneration (j_books s') = quickUnlockAccountGeneration (j_books s);
  w_retries : forall p, RetryPurge p ∈ j_later s' -> RetryPurge p ∈ j_later s
}.
Definition aside (f : job_act) : Prop := forall s, same_work s (f s).1 /\ forall l, ledger_read m l (f s).2 = Some l.

Lemma same_work_refl s : same_work s s.
Proof. by split. Qed.
Lemma same_work_trans s1 s2 s3 : same_work s1 s2 -> same_work s2 s3 -> same_work s1 s3.
Proof. intros [] []. split; try congruence; [naive_solver congruence|auto]. Qed.

Lemma booked_same H s s' l : same_work s s' -> booked H s l -> booked H s' l.
Proof.
  intros [Q _ N (P & A & R & M & G) L] []. assert (C : forall p, isCurrent s' p = isCurrent s p) by (intros p; unfold isCurrent; by rewrite M, G).
  split; rewrite ?Q, ?N, ?P, ?A, ?R, ?M; auto. intros k id E. destruct (b_pending0 k id E) as (p & ? & ? & ?). exists p. by rewrite C.
Qed.
Lemma holders_same s s' : same_work s s' -> holders s' = holders s.
Proof.
  intros [Q J _ _ _]. unfold holders. rewrite Q, !map_app. f_equal.
  destruct (envelopeJob (j_queue s')), (envelopeJob (j_queue s)); cbn in J |- *; congruence.
Qed.
Lemma follows_aside f : aside f -> follows f.
Proof. intros F s l B. destruct (F s) as [W E]. exists l. split; [apply E|]. rewrite (holders_same s) by done. by eapply booked_same. Qed.

Lemma aside_then f g : aside f -> aside g -> aside (f ;> g).
Proof.
  intros Hf Hg s. rewrite after_then. destruct (Hf s) as [W1 E1], (Hg (f s).1) as [W2 E2]. split; [by eapply same_work_trans|].
  intros l. by rewrite effects_then, ledger_read_app, E1; cbn.
Qed.
Lemma aside_reading f : (forall s, aside (f s)) -> aside (reading f).
Proof. intros H s. apply H. Qed.
Lemma aside_if (b : bool) f g : aside f -> aside g -> aside (if b then f else g).
Proof. by destruct b. Qed.
Lemma aside_skip : aside skip.
Proof. intros s. by split. Qed.
Lemma aside_each {A} (f : A -> job_act) xs : (forall x, aside (f x)) -> aside (for_each f xs).
Proof. intros H. induction xs; [apply aside_skip|by apply aside_then]. Qed.
Lemma aside_cause e : unledgered e = true -> aside (cause e).
Proof. intros N s. split; [apply same_work_refl|]. intros l. by destruct e. Qed.
Lemma aside_proc f : aside (on_proc f).
Proof. intros s. by split. Qed.
Lemma aside_panel f : aside (on_panel f).
Proof. intros s. by split. Qed.
Lemma aside_later c : (match c with RetryPurge _ => False | _ => True end) -> aside (callLater c).
Proof.
  intros N s. split; [|done]. split; try done. intros p. cbn. rewrite put_off_spec. intros [?|E]; [done|]. by subst c.
Qed.

Create HintDb follows.
Hint Resolve aside_then aside_reading aside_if aside_skip aside_each aside_proc aside_panel : follows.
Hint Extern 1 (aside (cause _)) => (by apply aside_cause) : follows.
Hint Extern 1 (aside (callLater _)) => (by apply aside_later) : follows.
Ltac aside := intros; auto 14 with follows.

Lemma aside_vaultStart : aside vaultStart.
Proof. apply aside_reading. intros s. unfold launch_here. destruct (vaultHelper _); cbv zeta; aside. Qed.
Hint Resolve aside_vaultStart : follows.
Lemma aside_run : aside run_process.
Proof. unfold run_process, start. aside. Qed.
Hint Resolve aside_run : follows.
Lemma aside_scrub : aside take_for_scrub.
Proof. unfold take_for_scrub. aside. Qed.
Hint Resolve aside_scrub : follows.
Lemma aside_scrub_step : aside scrubStep.
Proof. unfold scrubStep. aside. Qed.
Lemma aside_kill : aside vaultKill.
Proof. apply aside_reading. intros s. destruct (runId _); aside. Qed.
Hint Resolve aside_scrub_step aside_kill : follows.
Lemma aside_forget_password v : aside (forgetHeldPassword v).
Proof. unfold forgetHeldPassword. aside. Qed.
Hint Resolve aside_forget_password : follows.
Lemma aside_forget j : aside (forget_env j).
Proof. unfold forget_env. aside. Qed.
Lemma aside_next : aside next_job.
Proof. unfold next_job. aside. Qed.
Hint Resolve aside_forget aside_next : follows.

(** A cancelled removal is no longer marked as pending. *)
Lemma cancelled_books H s l j : booked (tag j :: H) s l ->
  booked H (onCancelled j s).1 l /\ (forall l', ledger_read m l' (onCancelled j s).2 = Some l') /\ j_queue (onCancelled j s).1 = j_queue s.
Proof.
  intros B. unfold onCancelled, reading. destruct (kind j) as [|p| |] eqn:K; try (split; [|done]; apply (booked_drop (tag j)); [done|]; cbn; congruence).
  case_bool_decide as E; cbn [negb].
  2: { split; [|done]. apply (booked_drop (tag j)); [done|]. cbn. rewrite K. by intros p' [= <-] _. }
  split; [|done]. destruct B. split; cbn; auto.
  - intros k id. rewrite lookup_delete_Some. intros [N Hk]. destruct (b_pending0 k id Hk) as (p' & Hp & Hk' & C). exists p'.
    apply elem_of_cons in Hp as [[= -> ]|Hp]; [|done]. unfold tag in *. congruence.
  - intros id p' Hp. apply (b_keys0 id). by right.
  - intros k. destruct (b_attempts0 k) as (F & L & U). split; [done|]. unfold generation in *. destruct (decide (k = key p)) as [->|N].
    + rewrite lookup_delete_eq, lookup_insert_eq. rewrite E in L. destruct (decide (is_Some None)) as [[? ?]|_]; [done|]. destruct (decide (is_Some (Some _))) as [_|N]; [|by destruct N; eexists]. cbn in *. lia.
    + rewrite lookup_delete_ne, lookup_insert_ne by done. done.
  - intros k. rewrite lookup_delete_is_Some. intros [_ Hk]. auto.
Qed.

Lemma order_pop l j q n : StronglySorted Z.lt (l :: map job_id (j :: q) ++ [n]) -> StronglySorted Z.lt (job_id j :: map job_id q ++ [n]) /\ l < job_id j /\ StronglySorted Z.lt (l :: map job_id q ++ [n]).
Proof. cbn. rewrite !StronglySorted_cons, !Forall_cons. naive_solver. Qed.

(** The head of the queue, taken off it and not yet taken up. *)
Lemma head_off j q s l : booked (holders s) s l -> envelopeJobs (j_queue s) = j :: q ->
  booked (tag j :: holders (set_jobs q s)) (set_jobs q s) l.
Proof.
  intros [] E. unfold holders in *. rewrite E in *. split; cbn; auto.
  - by apply order_pop in b_order0 as (_ & _ & ?).
  - intros j' p Q. apply b_asked0. by right.
Qed.

Lemma take_books j s l : booked (tag j :: holders s) s l -> has_job (envelopeJob (j_queue s)) = false -> outdated s j = false ->
  StronglySorted Z.lt (job_id j :: map job_id (envelopeJobs (j_queue s)) ++ [next_id (j_queue s)]) -> last_taken l < job_id j ->
  (forall p, kind j = Purge p -> method p = m -> isCurrent s p = true -> job_id j ∈ asked_since l) ->
  exists l', ledger_read m l (take_job j s).2 = Some l' /\ booked (holders (take_job j s).1) (take_job j s).1 l'.
Proof.
  intros B J O S L A. unfold take_job, reading. rewrite !after_then, !effects_then. cbn -[run_process ledger_read]. set (s1 := set_proc _ _). set (e1 := (if holdOutput j then _ else _ : job_act) s).
  assert (E1 : e1.2 = []) by (unfold e1; by destruct (holdOutput j)). rewrite E1. cbn [app ledger_read ledger_enter].
  assert (C : (last_taken l <? job_id j) && (negb (removal_of m j) || bool_decide (job_id j ∈ asked_since l)) = true).
  { apply andb_true_iff. split; [lia|]. unfold removal_of, str_eqb. destruct (kind j) as [|p| |] eqn:K; try done. case_bool_decide as D; [|done]. cbn.
    apply bool_decide_eq_true, (A p); [done|done|]. unfold outdated in O. rewrite K in O. by apply negb_false_iff in O. }
  rewrite C. cbn [mbind option_bind]. destruct (aside_run s1) as [W R]. rewrite R. eexists. split; [done|]. rewrite (holders_same s1) by done. eapply booked_same; [done|].
  assert (Es : envelopeJobs (j_queue s1) = envelopeJobs (j_queue s) /\ next_id (j_queue s1) = next_id (j_queue s) /\ j_books s1 = j_books s /\ j_later s1 = j_later s
    /\ tag <$> envelopeJob (j_queue s1) = Some (tag j)) by (unfold s1, e1; by destruct (holdOutput j)).
  destruct Es as (Eq & En & Eb & El & Ej).
  assert (P : holders s1 = map tag (envelopeJobs (j_queue s)) ++ [tag j]).
  { unfold holders. rewrite map_app, Eq. f_equal. destruct (envelopeJob (j_queue s1)); cbn in *; congruence. }
  assert (P' : holders s = map tag (envelopeJobs (j_queue s))).
  { unfold holders. destruct (envelopeJob (j_queue s)); [done|]. by rewrite app_nil_r. }
  apply (booked_sub (tag j :: holders s)); [|intros id p; rewrite P, P', elem_of_app, !elem_of_cons, elem_of_nil; tauto].
  destruct B. split; rewrite ?Eq, ?En, ?Eb, ?El; cbn; auto. intros k id. unfold isCurrent. rewrite Eb. apply b_pending0.
Qed.

Lemma pump_books q s l : booked (holders s) s l -> envelopeJobs (j_queue s) = q ->
  exists l', ledger_read m l (pump q s).2 = Some l' /\ booked (holders (pump q s).1) (pump q s).1 l'.
Proof.
  revert s l. induction q as [|j q IH]; intros s l B E; cbn [pump]; unfold reading.
  all: destruct (running (j_proc s)); cbn [orb]; [by exists l|].
  all: destruct (has_job (envelopeJob (j_queue s))) eqn:J; [by exists l|].
  { by exists l. }
  pose proof (head_off j q s l B E) as B1. rewrite after_then, effects_then. cbn [update fst snd app]. set (s1 := set_jobs q s) in *.
  pose proof (b_order _ _ _ B) as O. rewrite E in O. apply order_pop in O as (O & L & _).
  destruct (outdated s j) eqn:D; [|destruct (unwanted s j) eqn:U].
  - rewrite !after_then, !effects_then. destruct (cancelled_books (holders s1) s1 l j B1) as (B2 & R & Q).
    rewrite ledger_read_app, R. cbn [mbind option_bind cause snd fst app ledger_read ledger_enter]. apply IH; [|by rewrite Q].
    by replace (holders (onCancelled j s1).1) with (holders s1) by (unfold holders; by rewrite Q).
  - rewrite !after_then, !effects_then. destruct (aside_forget j s1) as [W R]. rewrite ledger_read_app, R.
    cbn [mbind option_bind cause snd fst app ledger_read ledger_enter]. apply IH; [|by rewrite (w_queue _ _ W)].
    rewrite (holders_same s1) by done. eapply booked_same; [done|]. apply (booked_drop (tag j)); [done|]. intros p K. unfold unwanted, unlock in U. cbn in K. by rewrite K in U.
  - apply take_books; try done. intros p K M C. pose proof (b_asked _ _ _ B j p) as A. rewrite E in A. destruct (A (list_elem_of_here _ _) K M) as [_ A1]. apply A1.
    unfold isCurrent in C. rewrite M in C. apply andb_true_iff in C as [C _]. cbn in C. lia.
Qed.
Lemma follows_pump : follows pumpEnvelopeJobs.
Proof. intros s l B. by apply pump_books. Qed.

Lemma order_push l q n : StronglySorted Z.lt (l :: q ++ [n]) -> StronglySorted Z.lt (l :: (q ++ [n]) ++ [n + 1]).
Proof.
  intros O. change (l :: (q ++ [n]) ++ [n + 1]) with ((l :: q ++ [n]) ++ [n + 1]). apply StronglySorted_app. split; [|split; [done|repeat constructor]].
  intros x y Hx Hy%list_elem_of_singleton. subst y. change (l :: q ++ [n]) with ((l :: q) ++ [n]) in *. apply StronglySorted_app in O as (O & _).
  apply elem_of_app in Hx as [Hx|Hx%list_elem_of_singleton]; [|lia]. specialize (O x n Hx (list_elem_of_here _ _)). lia.
Qed.

(** A job goes to the end of the queue; a removal with the generations of now. *)
Lemma queue_books k vs secret hold s l :
  booked ((next_id (j_queue s), k) :: holders s) s l ->
  (forall p, k = Purge p -> method p = m -> methodGeneration p = generation (quickUnlockMethodGeneration (j_books s)) m) ->
  exists l', ledger_read m l (queueEnvelopeJob k vs secret hold s).2 = Some l'
    /\ booked (holders (queueEnvelopeJob k vs secret hold s).1) (queueEnvelopeJob k vs secret hold s).1 l'.
Proof.
  intros B G. unfold queueEnvelopeJob, reading. rewrite !after_then, !effects_then. cbn [update cause fst snd app ledger_read ledger_enter mbind option_bind].
  set (j := mkJob _ _ _ _ _ _ _ _ _). set (s1 := set_jobs _ _). apply follows_pump.
  assert (P : forall t, t ∈ holders s1 <-> t ∈ (next_id (j_queue s), k) :: holders s).
  { intros t. unfold holders, s1. cbn. rewrite !map_app, elem_of_cons, !elem_of_app. cbn. rewrite list_elem_of_singleton. unfold tag at 2. cbn. tauto. }
  apply (booked_sub ((next_id (j_queue s), k) :: holders s)); [|intros id p; apply P].
  destruct B. split; cbn; auto.
  - rewrite map_app. by apply order_push.
  - intros j' p Q K M. apply elem_of_app in Q as [Q|Q%list_elem_of_singleton].
    + destruct (b_asked0 j' p Q K M) as [? A]. split; [done|]. intros Eg. apply elem_of_union. right. by apply A.
    + subst j'. cbn in K. rewrite (G p K M). split; [lia|]. intros _. by apply elem_of_union_l, elem_of_singleton.
Qed.
Lemma follows_queue k vs secret hold : (match k with Purge _ => False | _ => True end) -> follows (queueEnvelopeJob k vs secret hold).
Proof.
  intros N s l B. apply queue_books; [|by intros p ->]. apply (booked_sub (holders s)); [done|]. intros id p. rewrite elem_of_cons.
  split; [|by right]. intros [[= -> <-]|?]; done.
Qed.

Lemma generation_insert g k k' (v : Z) : generation (<[k := v]> g) k' = if decide (k' = k) then v else generation g k'.
Proof. unfold generation. case_decide as D; [subst; by rewrite lookup_insert_eq|by rewrite lookup_insert_ne]. Qed.

Lemma follows_queue_purge ss m' k : of_method m' k = true -> follows (queueQuickUnlockPurge ss m' k).
Proof.
  intros K s l B. unfold queueQuickUnlockPurge, reading. destruct (bool_decide _ || _ || _) eqn:G; [by apply follows_skip|].
  apply orb_false_iff in G as [[R P]%orb_false_iff A]. apply bool_decide_eq_false in R, P. apply Z.leb_gt in A.
  rewrite after_then, effects_then. cbn [on_books update fst snd app]. set (p := mkPurge _ _ _ _ _ _). set (s1 := set_books _ s).
  apply queue_books; [|intros p' [= <-] M; cbn in M |- *; by rewrite M].
  change (next_id (j_queue s1)) with (next_id (j_queue s)). change (holders s1) with (holders s).
  destruct B. split; cbn; auto.
  - intros k' id. rewrite lookup_insert_Some. intros [[<- <-]|[N Hk]].
    + exists p. split; [by left|]. split; [done|]. unfold isCurrent. cbn. by rewrite !Z.eqb_refl.
    + destruct (b_pending0 k' id Hk) as (p' & ? & ? & ?). exists p'. split; [by right|done].
  - intros id p' Hp. apply elem_of_cons in Hp as [[= _ ->]|Hp]; [done|]. by apply (b_keys0 id).
  - intros k'. destruct (b_attempts0 k') as (F & L & U). split; [done|]. rewrite generation_insert. destruct (decide (k' = k)) as [->|N].
    + rewrite lookup_insert_eq. destruct (decide (is_Some (Some _))) as [_|N]; [|by destruct N; eexists]. rewrite decide_False in L by done.
      unfold quickUnlockPurgeMaxAttempts in *. lia.
    + by rewrite lookup_insert_ne.
  - intros k'. destruct (decide (k' = k)) as [->|N]; [done|]. rewrite lookup_insert_ne by done. apply b_reconciled0.
Qed.

Lemma of_method_key (x : jstr) m' : of_method m' (x ++ u ":" ++ m') = true.
Proof.
  unfold of_method, slice_last, str_eqb. apply bool_decide_eq_true. assert (L : length (u ":" ++ m') = S (length m')) by done.
  rewrite length_app, L, Nat.add_sub. by rewrite drop_app_length.
Qed.

Hint Resolve follows_then follows_reading follows_if follows_skip follows_each follows_pump : follows.
Hint Extern 2 (follows _) => (apply follows_aside; solve [aside]) : follows.
Hint Extern 1 (follows (queueEnvelopeJob _ _ _ _)) => (by apply follows_queue) : follows.
Ltac follows := intros; auto 14 with follows.

(** Updates of the books that the removals do not depend on. *)
Lemma aside_books f : (forall b, quickUnlockPurgePending (f b) = quickUnlockPurgePending b /\ quickUnlockPurgeAttempts (f b) = quickUnlockPurgeAttempts b
    /\ reconciledMethods (f b) = reconciledMethods b /\ quickUnlockMethodGeneration (f b) = quickUnlockMethodGeneration b
    /\ quickUnlockAccountGeneration (f b) = quickUnlockAccountGeneration b) -> aside (on_books f).
Proof. intros H s. split; [|done]. split; try done. cbn. apply H. Qed.

Lemma follows_refresh : follows refreshEnvelope.
Proof. unfold refreshEnvelope. follows. Qed.
Hint Resolve follows_refresh : follows.
Lemma follows_purge_method m' : follows (purgeQuickUnlockMethod m').
Proof.
  apply follows_reading. intros s. apply follows_if; [|apply follows_queue_purge, of_method_key]. apply follows_aside, aside_books.
  intros b. by case_bool_decide.
Qed.
Hint Resolve follows_purge_method : follows.
Lemma follows_readiness : follows envelopeReadinessChanged.
Proof.
  unfold envelopeReadinessChanged, runPendingPurges. apply follows_reading. intros s. apply follows_if; [follows|]. apply follows_then; [follows|].
  apply follows_reading. intros s'. apply follows_if; [follows|]. apply follows_then; [by apply follows_aside, aside_books|follows].
Qed.
Lemma follows_reconcile : follows reconcileDisabledMethods.
Proof.
  apply follows_reading. intros s. apply follows_if; [follows|]. apply follows_each. intros m'. apply follows_reading. intros s'. cbv zeta.
  do 3 (apply follows_if; [follows|]). apply follows_queue_purge, of_method_key.
Qed.
Hint Resolve follows_readiness follows_reconcile : follows.
Lemma follows_inspected code out : follows (on_inspected code out).
Proof. unfold on_inspected. cbv zeta. follows. Qed.

Lemma settle_books j p f H s l fs n : kind j = Purge p -> booked (tag j :: H) s l -> quickUnlockPurgePending (j_books s) !! key p = Some (job_id j) ->
  (forall b, quickUnlockPurgePending (f b) = delete (key p) (quickUnlockPurgePending b) /\ quickUnlockPurgeAttempts (f b) = quickUnlockPurgeAttempts b
    /\ quickUnlockMethodGeneration (f b) = quickUnlockMethodGeneration b /\ quickUnlockAccountGeneration (f b) = quickUnlockAccountGeneration b
    /\ reconciledMethods (f b) ⊆ {[key p]} ∪ reconciledMethods b) ->
  0 <= n <= 1 -> (forall k, generation fs k = generation (failed l) k + if decide (k = key p) then n else 0) ->
  booked H (set_books f s) (mkLedger (last_taken l) (asked_since l) fs).
Proof.
  intros K [] E F N FS. destruct (F (j_books s)) as (P & A & M & G & R).
  assert (C : forall p', isCurrent (set_books f s) p' = isCurrent s p') by (intros p'; unfold isCurrent; cbn; by rewrite M, G).
  split; cbn; rewrite ?P, ?A, ?M; auto.
  - intros k id. rewrite lookup_delete_Some. intros [D Hk]. destruct (b_pending0 k id Hk) as (p' & Hp & Hk' & C').
    exists p'. rewrite C. apply elem_of_cons in Hp as [Ht|Hp]; [|done]. unfold tag in Ht. congruence.
  - intros id p' Hp. apply (b_keys0 id). by right.
  - intros k. rewrite FS. destruct (b_attempts0 k) as (F1 & L & U). destruct (decide (k = key p)) as [->|D].
    + rewrite lookup_delete_eq. rewrite E in L. destruct (decide (is_Some None)) as [[? ?]|_]; [done|].
      destruct (decide (is_Some (Some _))) as [_|D]; [|by destruct D; eexists]. lia.
    + rewrite lookup_delete_ne by done. rewrite Z.add_0_r. done.
  - intros k. rewrite lookup_delete_is_Some. intros [D Hk] Hr. apply R, elem_of_union in Hr as [Hr%elem_of_singleton|Hr]; [congruence|]. by apply (b_reconciled0 k).
Qed.

Lemma follows_call_retry p : of_method (method p) (key p) = true -> follows (callLater (RetryPurge p)).
Proof.
  intros K s l []. exists l. split; [done|]. split; cbn; auto. intros p' Hp. apply elem_of_app in Hp as [Hp|Hp%list_elem_of_singleton]; [auto|]. by simplify_eq.
Qed.

Definition reads (f : job_act) (s : jobs) (l : purge_ledger) : Prop :=
  exists l', ledger_read m l (f s).2 = Some l' /\ booked (holders (f s).1) (f s).1 l'.
Lemma reads_then f g s l : reads f s l -> follows g -> reads (f ;> g) s l.
Proof.
  intros (l1 & E1 & B1) Hg. destruct (Hg _ l1 B1) as (l2 & E2 & B2). exists l2. rewrite effects_then, after_then, ledger_read_app, E1. done.
Qed.
Lemma reads_books f g s l : reads g (set_books f s) l -> reads (on_books f ;> g) s l.
Proof. unfold reads. by rewrite effects_then, after_then. Qed.

Lemma purged_books j p code s l : kind j = Purge p -> booked (tag j :: holders s) s l -> reads (on_purged j p code) s l.
Proof.
  intros K B. unfold on_purged, reads, reading. destruct (negb (isCurrent s p) || _) eqn:G.
  { exists l. split; [done|]. apply (booked_drop (tag j)); [done|]. cbn. rewrite K. intros p' [= <-] C E.
    apply orb_true_iff in G as [G|G]; [by rewrite C in G|]. apply negb_true_iff, bool_decide_eq_false in G. done. }
  fold (reads (on_books (settled p (code =? 0)) ;> (if code =? 0 then skip else cause (PurgeFailed (key p)) ;> if logoutPending (j_panel s) then skip else callLater (RetryPurge p)) ;> if logoutPending (j_panel s) then skip else refreshEnvelope) s l).
  apply orb_false_iff in G as [C E]. apply negb_false_iff, bool_decide_eq_true in E.
  assert (Kp : of_method (method p) (key p) = true) by (apply (b_keys _ _ _ B (job_id j)); rewrite <- K; left).
  destruct (b_attempts _ _ _ B (key p)) as (F0 & F1 & F2). rewrite E in F1. destruct (decide (is_Some (Some (job_id j)))) as [_|N]; [|by destruct N; eexists].
  assert (S : forall fs n, 0 <= n <= 1 -> (forall k, generation fs k = generation (failed l) k + if decide (k = key p) then n else 0) ->
    booked (holders s) (set_books (settled p (code =? 0)) s) (mkLedger (last_taken l) (asked_since l) fs)).
  { intros fs n. apply (settle_books j p); try done. intros b. unfold settled. destruct (code =? 0); cbn; repeat split; set_solver. }
  apply (reads_books (settled p (code =? 0))). apply reads_then; [|follows]. destruct (code =? 0).
  - exists l. split; [done|]. destruct l. apply (S _ 0); [lia|]. intros k. case_decide; cbn; lia.
  - apply reads_then; [|apply follows_if; [follows|by apply follows_call_retry]].
    eexists. split; [cbn [cause snd ledger_read ledger_enter]; by rewrite (proj2 (Z.ltb_lt _ _)) by lia|]. apply (S _ 1); [lia|].
    intros k. cbn [failed]. rewrite generation_insert. case_decide; subst; lia.
Qed.

(** ** Every handler follows the ledger *)

Lemma follows_retry p : of_method (method p) (key p) = true -> follows (retry_purge p).
Proof. intros K. apply follows_reading. intros s. apply follows_if; [by apply follows_queue_purge|follows]. Qed.

Lemma done_books j code out s l : booked (tag j :: holders s) s l -> reads (on_done j code out) s l.
Proof.
  intros B. unfold on_done. destruct (kind j) as [|p| |] eqn:K; [|by eapply purged_books|apply follows_inspected|].
  all: try (apply follows_aside; [aside|]). all: apply (booked_drop (tag j)); [done|]; cbn; by rewrite K.
Qed.

Lemma reads_aside f g s l H : booked (H ++ holders s) s l -> aside f -> (forall s', booked (H ++ holders s') s' l -> reads g s' l) -> reads (f ;> g) s l.
Proof.
  intros B F G. destruct (F s) as [W R]. unfold reads. rewrite effects_then, after_then, ledger_read_app, R. apply G.
  rewrite (holders_same s) by done. by eapply booked_same.
Qed.

Lemma ended_books j code out held s l : booked (holders s) s l -> envelopeJob (j_queue s) = Some j -> reads (job_ended j code out held) s l.
Proof.
  intros B J. unfold job_ended, reads, reading. rewrite after_then, effects_then. cbn [update fst snd app].
  set (clear := if secretOutput j then _ else _). set (answer := if accepting s j || alwaysDone j then _ else _). set (check := if unlock j then cause RecheckStatus else skip).
  apply (reads_aside clear (answer ;> check) (set_job None s) l [tag j]); [|unfold clear; aside|].
  - apply (booked_sub (holders s)).
    + unfold holders in *. rewrite J in *. destruct B. by split.
    + intros id p. unfold holders. rewrite J. cbn. rewrite !map_app, elem_of_cons, !elem_of_app. cbn. rewrite list_elem_of_singleton, elem_of_nil. tauto.
  - intros s' B'. apply reads_then; [|unfold check; follows]. unfold answer. destruct (accepting s j || alwaysDone j) eqn:D; [by apply done_books|].
    apply follows_aside; [aside|]. apply (booked_drop (tag j)); [done|]. cbn. intros p K. apply orb_false_iff in D as [_ D]. unfold alwaysDone in D. by rewrite K in D.
Qed.

Lemma follows_finish code out held : follows (finish code out held).
Proof.
  apply follows_then; [follows|]. intros s l B. unfold onEnvelopeJobExited, reading. destruct (scrubbing (j_proc s)); [apply (follows_then _ _); [follows..|done]|].
  apply (reads_then _ next_job); [|follows]. destruct (envelopeJob (j_queue s)) eqn:J; [by apply ended_books|by apply follows_skip].
Qed.
Hint Resolve follows_finish : follows.

Lemma follows_keep p : (forall j q, kind j = Purge q -> p j = true) -> follows (keep_jobs p).
Proof.
  intros N s l B. exists l. split; [done|]. apply (booked_sub (holders s)).
  2: { intros id q. unfold holders. cbn. rewrite !map_app, !elem_of_app, !list_elem_of_fmap. setoid_rewrite elem_of_bfilter. unfold tag.
       split; (intros [(j & E & Q)|?]; [left; exists j; split; [done|]|by right]); injection E as _ E; symmetry in E; specialize (N j q E); tauto. }
  destruct B. split; cbn; auto.
  - clear - b_order0. change (?l :: ?x ++ ?y) with ((l :: x) ++ y) in *. apply StronglySorted_app in b_order0 as (O1 & O2 & O3).
    apply StronglySorted_app. assert (S : forall i, i ∈ map job_id (List.filter p (envelopeJobs (j_queue s))) -> i ∈ map job_id (envelopeJobs (j_queue s))).
    { intros i. rewrite !list_elem_of_fmap. setoid_rewrite elem_of_bfilter. naive_solver. }
    split; [|split; [|done]].
    + intros x y Hx. apply O1. apply elem_of_cons in Hx as [->|Hx]; [by left|right; auto].
    + apply StronglySorted_cons in O2 as [F O]. apply StronglySorted_cons. split; [rewrite Forall_forall in *; auto|].
      clear - O. induction (envelopeJobs (j_queue s)) as [|j q IH]; [done|]. cbn in O |- *. apply StronglySorted_cons in O as [F O]. destruct (p j); [|auto].
      cbn. apply StronglySorted_cons. split; [|auto]. rewrite Forall_forall in *. intros i Hi. apply F. revert Hi. rewrite !list_elem_of_fmap. setoid_rewrite elem_of_bfilter. naive_solver.
  - intros j q Q. apply elem_of_bfilter in Q as [Q _]. auto.
Qed.

(** The unlock that is cancelled answers for no removal. *)
Lemma unlock_dropped s l : booked (holders s) s l -> (forall j, envelopeJob (j_queue s) = Some j -> unlock j = true) -> booked (holders (set_job None s)) (set_job None s) l.
Proof.
  intros B U. apply (booked_sub (holders s)); [destruct B; by split|]. intros id p. unfold holders. cbn. rewrite !map_app, !elem_of_app. cbn.
  destruct (envelopeJob (j_queue s)) as [j|]; cbn; rewrite ?elem_of_nil; [|tauto]. rewrite list_elem_of_singleton.
  specialize (U j eq_refl). unfold unlock in U. unfold tag. split; [tauto|]. intros [?|E]; [by left|]. injection E as _ E. by rewrite <- E in U.
Qed.

Lemma cancel_running_books s l : booked (holders s) s l -> reads cancel_running s l.
Proof.
  intros B. unfold cancel_running, reads, reading. destruct (envelopeJob (j_queue s)) as [j|] eqn:J; [|by apply follows_skip].
  destruct (unlock j) eqn:U; [|by apply follows_skip]. rewrite after_then, effects_then. cbn [update fst snd app]. set (s1 := set_job _ s).
  assert (W : same_work s s1) by (split; cbn; try done; by rewrite J).
  assert (B1 : booked (holders s1) s1 l) by (rewrite (holders_same s) by done; by eapply booked_same).
  set (f := stop_process). assert (A : aside f) by (unfold f, stop_process; aside). destruct (A s1) as [W1 R1].
  rewrite after_then, effects_then, ledger_read_app, R1. cbn [mbind option_bind].
  assert (B2 : booked (holders (f s1).1) (f s1).1 l) by (rewrite (holders_same s1) by done; by eapply booked_same).
  destruct (has_run (runId (j_proc s))); [by apply follows_skip|].
  rewrite !after_then, !effects_then, ledger_read_app. destruct (aside_kill (f s1).1) as [W2 R2]. rewrite R2. cbn [update fst snd app mbind option_bind].
  apply (follows_aside (callLater Pump)); [aside|]. apply unlock_dropped; [rewrite (holders_same (f s1).1) by done; by eapply booked_same|].
  intros j' J'. pose proof (w_job _ _ W2) as T2. pose proof (w_job _ _ W1) as T1. rewrite J' in T2. rewrite <- T2 in T1. cbn in T1. injection T1 as _ K.
  unfold unlock. rewrite K. done.
Qed.

Lemma follows_cancel : follows cancelEnvelopeUnlockJobs.
Proof.
  unfold cancelEnvelopeUnlockJobs. apply follows_then; [follows|]. apply follows_then; [|apply follows_then; [intros s l; apply cancel_running_books|follows]].
  apply follows_keep. intros j q K. unfold unlock. by rewrite K.
Qed.
Hint Resolve follows_cancel : follows.
Lemma follows_drop_vault : follows dropVaultState.
Proof. unfold dropVaultState, scrubSecretBuffers. follows. Qed.
Hint Resolve follows_drop_vault : follows.

Lemma booked_grow H H' s l : booked H s l -> (forall t, t ∈ H -> t ∈ H') -> (forall id p, (id, Purge p) ∈ H' -> of_method (method p) (key p) = true) -> booked H' s l.
Proof. intros [] S K. split; auto. intros k id E. destruct (b_pending0 k id E) as (p & ? & ?). exists p. auto. Qed.

Lemma each_cancelled q H s l : booked (map tag q ++ H) s l ->
  let r := for_each (fun j => forget_env j ;> onCancelled j) q s in
  booked H r.1 l /\ ledger_read m l r.2 = Some l /\ j_queue r.1 = j_queue s.
Proof.
  revert s. induction q as [|j q IH]; intros s B; [done|]. cbn [for_each fold_right]. cbv zeta. rewrite !effects_then, !after_then.
  destruct (aside_forget j s) as [W R]. pose proof (same_queue_forget j s) as Q.
  destruct (cancelled_books (map tag q ++ H) (forget_env j s).1 l j) as (B1 & R1 & Q1); [by eapply booked_same|].
  destruct (IH _ B1) as (B2 & R2 & Q2). split; [exact B2|]. rewrite !ledger_read_app, R. cbn [mbind option_bind]. rewrite R1. cbn [mbind option_bind].
  split; [exact R2|]. etrans; [exact Q2|]. by rewrite Q1.
Qed.

(** Leaving the account takes every removal off the books. *)
Lemma drop_envelope_books s l : booked (holders s) s l -> reads dropEnvelopeState s l.
Proof.
  intros B. unfold dropEnvelopeState, reads, reading. rewrite after_then, effects_then. cbn [update fst snd app]. set (q := envelopeJobs (j_queue s)). set (s1 := set_jobs [] s).
  assert (B1 : booked (map tag q ++ map tag (option_list (envelopeJob (j_queue s)))) s1 l).
  { unfold holders in B. rewrite map_app in B. destruct B. split; cbn; auto; [|by intros ? ? ?%elem_of_nil].
    apply StronglySorted_cons in b_order0 as [F _]. apply StronglySorted_cons. split; [|repeat constructor]. rewrite Forall_app in F. apply F. }
  destruct (each_cancelled _ _ _ _ B1) as (B2 & R2 & Q2). rewrite after_then, effects_then, ledger_read_app, R2. cbn [mbind option_bind].
  set (s2 := (for_each _ q s1).1) in *. set (c := match envelopeJob (j_queue s) with Some j => onCancelled j | None => skip end).
  assert (C : booked [] (c s2).1 l /\ ledger_read m l (c s2).2 = Some l /\ j_queue (c s2).1 = j_queue s2).
  { unfold c. destruct (envelopeJob (j_queue s)) as [j|]; [|done]. destruct (cancelled_books [] s2 l j B2) as (? & R & ?). done. }
  destruct C as (B3 & R3 & Q3). rewrite after_then, effects_then, ledger_read_app, R3. cbn [mbind option_bind on_books on_panel update fst snd app]. rewrite after_then, effects_then.
  cbn [mbind option_bind on_books on_panel update fst snd app]. exists l. split; [done|].
  assert (E : quickUnlockPurgePending (j_books (c s2).1) = ∅).
  { apply map_empty. intros k. destruct (quickUnlockPurgePending _ !! k) eqn:E; [|done]. destruct (b_pending _ _ _ B3 k z E) as (p & Hp & _). by apply elem_of_nil in Hp. }
  assert (K : forall id p, (id, Purge p) ∈ holders s1 -> of_method (method p) (key p) = true).
  { intros id p Hp. apply (b_keys _ _ _ B id). unfold holders in *. cbn in Hp. rewrite map_app. apply elem_of_app. by right. }
  assert (Qs : j_queue (c s2).1 = j_queue s1) by by rewrite Q3.
  assert (Hs : forall f g, holders (set_panel f (set_books g (c s2).1)) = holders s1) by (intros f g; unfold holders; cbn; by rewrite Qs).
  rewrite Hs. eapply (booked_grow []); [|by intros ? ?%elem_of_nil|exact K].
  destruct B3. split; cbn; rewrite ?E; auto.
  - intros k id. by rewrite lookup_empty.
  - intros k. specialize (b_attempts0 k). by rewrite E in b_attempts0.
  - intros k. rewrite lookup_empty. by intros [? ?].
Qed.

Lemma filter_generation m' g k : generation (filter (fun kv : jstr * Z => of_method m' kv.1 = false) g) k = if of_method m' k then 0 else generation g k.
Proof.
  unfold generation. destruct (of_method m' k) eqn:E.
  - rewrite map_lookup_filter_None_2; [done|]. right. intros x _. cbn. by rewrite E.
  - destruct (g !! k) as [x|] eqn:G; [rewrite (map_lookup_filter_Some_2 _ _ _ x) by done|rewrite map_lookup_filter_None_2 by by left]; done.
Qed.

(** Turning a method on takes its removals off the books, and outdates those queued. *)
Lemma follows_enabled m' : follows (noteQuickUnlockEnabled m').
Proof.
  intros s l []. unfold noteQuickUnlockEnabled. rewrite after_then, effects_then. cbn [cause update fst snd app ledger_read ledger_enter mbind option_bind].
  eexists. split; [done|]. change (holders _) with (holders s). split; cbn -[generation]; auto.
  - intros j p Q K M. destruct (b_asked0 j p Q K M) as [L A]. rewrite generation_insert. unfold str_eqb. case_decide as D.
    + subst. split; [lia|]. intros E. lia.
    + rewrite bool_decide_false by congruence. auto.
  - intros k id Hk. apply map_lookup_filter_Some in Hk as [Hk N]. cbn in N. destruct (b_pending0 k id Hk) as (p & Hp & <- & C). exists p. split; [done|]. split; [done|].
    unfold isCurrent in *. cbn -[generation]. rewrite generation_insert. rewrite decide_False; [done|]. intros Em. rewrite <- Em in N. by rewrite (b_keys0 _ _ Hp) in N.
  - intros k. destruct (b_attempts0 k) as (F & L & U). rewrite !filter_generation. destruct (of_method m' k) eqn:O.
    + rewrite map_lookup_filter_None_2; [|right; intros ? _; cbn; by rewrite O]. rewrite decide_False by (by intros [? ?]). unfold quickUnlockPurgeMaxAttempts. lia.
    + split; [done|]. replace (filter _ (quickUnlockPurgePending (j_books s)) !! k) with (quickUnlockPurgePending (j_books s) !! k); [done|].
      destruct (quickUnlockPurgePending (j_books s) !! k) eqn:E; symmetry; [by apply map_lookup_filter_Some_2|apply map_lookup_filter_None_2; by left].
  - intros k [id Hk]. apply map_lookup_filter_Some in Hk as [Hk _]. intros [_ Hr]%elem_of_filter. by apply (b_reconciled0 k); [eexists|].
Qed.
Lemma follows_drop_envelope : follows dropEnvelopeState.
Proof. intros s l. apply drop_envelope_books. Qed.
Hint Resolve follows_enabled follows_drop_envelope : follows.

Lemma follows_helper_gone held : follows (helper_gone held).
Proof.
  unfold helper_gone. apply follows_then; [follows|]. apply follows_then; [follows|]. apply follows_reading. intros s. destruct (runId _); follows.
Qed.
Lemma follows_launch seq : follows (launchLocal seq).
Proof. unfold launchLocal, launch_here. follows. Qed.
Hint Resolve follows_helper_gone follows_launch : follows.

Lemma follows_step e : follows (job_step e).
Proof.
  intros s l B. unfold job_step, reading.
  assert (C : forall f, follows f -> reads f s l) by (intros f Hf; by apply Hf).
  destruct e; try (apply C; solve [unfold switch_account, logoutAccount, helper_settled; follows]).
  - by apply C, follows_aside, aside_books.
  - destruct (j_later s) as [|c rest] eqn:E; [by apply C, follows_skip|]. rewrite after_then, effects_then. cbn [update fst snd app].
    assert (W : same_work s (set_later (fun _ => rest) s)) by (split; cbn; try done; intros p Hp; rewrite E; by right).
    assert (F : follows (run_later c)); [|apply F; rewrite (holders_same s) by done; by eapply booked_same].
    destruct c; cbn [run_later]; unfold clear_collector; try follows. apply follows_retry, (b_retries _ _ _ B). rewrite E. by left.
Qed.

Lemma booked_initial slot start_ : booked (holders (initial_jobs slot start_)) (initial_jobs slot start_) empty_ledger.
Proof.
  split; cbn.
  - repeat constructor; lia.
  - by intros ? ? ?%elem_of_nil.
  - intros k id. by rewrite lookup_empty.
  - by intros ? ? ?%elem_of_nil.
  - by intros ? ?%elem_of_nil.
  - intros k. unfold generation. rewrite !lookup_empty. rewrite decide_False by (by intros [? ?]). cbn. unfold quickUnlockPurgeMaxAttempts. lia.
  - intros k. rewrite lookup_empty. by intros [? ?].
Qed.

Lemma run_follows es : follows (job_run es).
Proof. unfold job_run. induction es as [|e es IH]; [apply follows_skip|]. apply follows_then; [apply follows_step|exact IH]. Qed.
End Ledger.

(** C23. The removals of ways in that were turned off follow the ledger, in every run:
    jobs are taken in the order they were asked for; a removal asked for before its
    method was turned on again is never taken after that, also when its account was
    left meanwhile; and between two times a method is turned on, its removal fails
    at most three times under one key, retries included. *)
Theorem purges_follow_ledger : forall m slot start_ es, is_Some (ledger_read m empty_ledger (job_run es (initial_jobs slot start_)).2).
Proof. intros m slot start_ es. destruct (run_follows m es _ _ (booked_initial m slot start_)) as (l & E & _). by exists l. Qed.

(** C24. A removal marked as pending is always under way: its job waits in the queue or
    is the one that runs, it is of the generations of now, it has used one of at
    most three attempts, and its key is not among those already removed. So no mark
    is left behind that would keep a way in from being removed later. *)
Theorem pending_purges_under_way : forall slot start_ es k id,
  let s := (job_run es (initial_jobs slot start_)).1 in
  quickUnlockPurgePending (j_books s) !! k = Some id ->
  (exists j p, (j ∈ envelopeJobs (j_queue s) \/ envelopeJob (j_queue s) = Some j) /\ job_id j = id /\ kind j = Purge p /\ key p = k /\ isCurrent s p = true)
  /\ 1 <= generation (quickUnlockPurgeAttempts (j_books s)) k <= quickUnlockPurgeMaxAttempts
  /\ k ∉ reconciledMethods (j_books s).
Proof.
  intros slot start_ es k id s E. destruct (run_follows [] es _ _ (booked_initial [] slot start_)) as (l & _ & B). fold s in B.
  destruct (b_pending _ _ _ _ B k id E) as (p & Hp & K & C). split.
  - unfold holders in Hp. rewrite map_app in Hp. unfold tag in Hp. apply elem_of_app in Hp as [Hp|Hp].
    + apply list_elem_of_fmap in Hp as (j & Hj & Hq). injection Hj as H1 H2. exists j, p. auto.
    + destruct (envelopeJob (j_queue s)) as [j|]; [|by apply elem_of_nil in Hp]. apply list_elem_of_singleton in Hp. injection Hp as H1 H2. exists j, p. auto.
  - assert (S : is_Some (quickUnlockPurgePending (j_books s) !! k)) by (rewrite E; by eexists). split; [|by apply (b_reconciled _ _ _ _ B)].
    destruct (b_attempts _ _ _ _ B k) as (F & L & U). rewrite decide_True in L by done. lia.
Qed.

(** The PIN is turned off, its removal fails, and is put off. *)
Definition example_purge : list job_event :=
  [HelperSettled true; AccountRead (u "someone"); ToolRead true true; RunEnded EXIT_absent [] false; MethodOff (u "pin"); Later; RunEnded 13 [] false; Later].
Lemma pending_purges_under_way_witness :
  1 <= generation (quickUnlockPurgeAttempts (j_books (job_run example_purge (initial_jobs (u "default") 0)).1)) (u "default,default:pin") <= quickUnlockPurgeMaxAttempts.
Proof.
  destruct (pending_purges_under_way (u "default") 0 example_purge (u "default,default:pin") 3) as (_ & H & _).
  - vm_compute. reflexivity.
  - exact H.
Defined.
