(* ===== verification/Settings.v ===== *)
(** * Settings and the auto-lock

    The plugin's settings ([src/BitwardenModel.js], "Settings"): the schema the
    settings screen is drawn from, reading the unvalidated values of
    shell.json, and the command that writes one; and the auto-lock's wall-clock
    deadline. *)

From stdpp Require Import base list numbers strings.
From S2P Require Import Prelude.
From S2P Require Import JsValue.
From S2P Require Import Json.
From S2P Require Import Shell.
From S2P Require Import Dependencies.
From S2P Require Import SshAgent.
Local Open Scope nat_scope.
Local Open Scope js_scope.

(** ** Schema *)

Definition SETTINGS_GROUPS : list (jstr * jstr) :=
  [(u "general", u "General"); (u "security", u "Security"); (u "sshAgent", u "SSH Agent")].

Definition SETTINGS_SCHEMA : list jsval :=
  [obj [("key", JStr (u "autoLockMinutes")); ("group", JStr (u "security")); ("type", JStr (u "int"));
        ("label", JStr (u "Auto-lock after")); ("unit", JStr (u "minutes")); ("min", jz 0); ("max", jz 1440);
        ("step", jz 5); ("zeroLabel", JStr (u "Never")); ("defaultValue", jz 15);
        ("description", JStr (u "Lock the vault after this long without activity."))];
   obj [("key", JStr (u "clearClipboardSec")); ("group", JStr (u "security")); ("type", JStr (u "int"));
        ("label", JStr (u "Clear clipboard after")); ("unit", JStr (u "seconds")); ("min", jz 0);
        ("max", jz 300); ("step", jz 5); ("zeroLabel", JStr (u "Never")); ("defaultValue", jz 30);
        ("description", JStr (u "Wipe a copied password or code from the clipboard."))];
   obj [("key", JStr (u "lockOnScreenLock")); ("group", JStr (u "security")); ("type", JStr (u "bool"));
        ("label", JStr (u "Lock when the screen locks")); ("defaultValue", JBool true);
        ("description", JStr (u "Lock as soon as the screen locks, rather than waiting out the auto-lock."))];
   obj [("key", JStr (u "lockOnSuspend")); ("group", JStr (u "security")); ("type", JStr (u "bool"));
        ("label", JStr (u "Lock when the machine suspends")); ("defaultValue", JBool true);
        ("description", JStr (u "Lock before sleep, so no session key is left in the suspended machine's memory."))];
   obj [("key", JStr (u "rememberSession")); ("group", JStr (u "security")); ("type", JStr (u "bool"));
        ("label", JStr (u "Remember session in keyring")); ("defaultValue", JBool true);
        ("description", JStr (u "Keep the unlocked session in the OS keyring so it survives a shell restart."))];
   obj [("key", JStr (u "fingerprintUnlock")); ("group", JStr (u "security")); ("type", JStr (u "bool"));
        ("label", JStr (u "Unlock with fingerprint")); ("defaultValue", JBool false);
        ("requires", JStr (u "fprintd")); ("action", JStr (u "fingerprint"));
        ("description", JStr (u "A verified fingerprint opens your master password, stored once, encrypted and sealed to this machine. Turning this off deletes the stored password, so PIN and security-key unlock need setting up again."))];
   obj [("key", JStr (u "fidoUnlock")); ("group", JStr (u "security")); ("type", JStr (u "bool"));
        ("label", JStr (u "Unlock with FIDO2 key")); ("defaultValue", JBool false);
        ("action", JStr (u "fido"));
        ("description", JStr (u "A FIDO2 key touch opens your master password, stored once, encrypted and sealed to this machine. Requires 'omarchy setup security fido2'; the same registration also serves the system's own authentication prompts."))];
   obj [("key", JStr (u "pinUnlock")); ("group", JStr (u "security")); ("type", JStr (u "bool"));
        ("label", JStr (u "Unlock with PIN")); ("defaultValue", JBool false); ("action", JStr (u "pin"));
        ("description", JStr (u "A PIN of 6 digits or more opens your master password, stored once, encrypted and sealed to this machine. A program running as you can copy it and try every 6-digit PIN in about 16 hours, so use 8 or more (about 2 months)."))];
   obj [("key", JStr (u "usePinentry")); ("group", JStr (u "security")); ("type", JStr (u "bool"));
        ("label", JStr (u "Type secrets in a separate prompt")); ("defaultValue", JBool true);
        ("description", JStr (u "Type your master password and PIN into the plugin's own unlock prompt, a card over the focused monitor drawn like the shell's password prompt, instead of the panel, so they never enter the shell. It is a separate, short-lived process under the vault helper and needs quickshell, node and a Wayland display; while the helper is not running, the panel waits for it instead of offering its own field."))];
   obj [("key", JStr (u "sshAgentEnabled")); ("group", JStr (u "sshAgent")); ("type", JStr (u "bool"));
        ("label", JStr (u "Act as your SSH agent")); ("defaultValue", JBool false);
        ("description", JStr (u "Serve SSH keys from your vault to ssh, Git and signing, while the vault is unlocked. Private keys stay in a separate helper process and are never written to disk."))];
   obj [("key", JStr (u "sshAgentUnlockOnDemand")); ("group", JStr (u "sshAgent")); ("type", JStr (u "bool"));
        ("label", JStr (u "Unlock on demand")); ("defaultValue", JBool false);
        ("description", JStr (u "Let an SSH client open the unlock prompt when the vault is locked. Off by default because every ssh connection asks for identities, including ones with nothing to do with your vault."))];
   obj [("key", JStr (u "sshAgentApprovalPopup")); ("group", JStr (u "sshAgent")); ("type", JStr (u "bool"));
        ("label", JStr (u "Use centered approval popup")); ("defaultValue", JBool true);
        ("description", JStr (u "Show SSH unlock and signing requests in a transient card in the middle of the screen instead of opening the anchored panel. Disable to show them in the panel."))];
   obj [("key", JStr (u "sshAgentApprovalWindowSec")); ("group", JStr (u "sshAgent"));
        ("type", JStr (u "int")); ("label", JStr (u "Approve for this long")); ("unit", JStr (u "seconds"));
        ("min", jz 0); ("max", jz SSH_AGENT_APPROVAL_WINDOW_MAX_SEC); ("step", jz 30);
        ("zeroLabel", JStr (u "Always ask")); ("defaultValue", jz 120);
        ("description", JStr (u "How long one approval covers further signatures from the same process. Grants live only in the helper's memory and never survive a restart."))];
   obj [("key", JStr (u "autoSyncMinutes")); ("group", JStr (u "general")); ("type", JStr (u "int"));
        ("label", JStr (u "Automatically sync every")); ("unit", JStr (u "minutes")); ("min", jz 0);
        ("max", jz 1440); ("step", jz 5); ("zeroLabel", JStr (u "Off")); ("defaultValue", jz 15);
        ("description", JStr (u "Sync while the vault is unlocked and idle. If the server is offline, retry at this interval."))];
   obj [("key", JStr (u "closeOnCopy")); ("group", JStr (u "general")); ("type", JStr (u "bool"));
        ("label", JStr (u "Close panel on copy")); ("defaultValue", JBool true);
        ("description", JStr (u "Return focus to your app as soon as Enter copies a credential."))];
   obj [("key", JStr (u "autoTypeEnabled")); ("group", JStr (u "general")); ("type", JStr (u "bool"));
        ("label", JStr (u "Auto-type logins")); ("defaultValue", JBool false);
        ("confirm", JStr (u "Auto-type types your password into whatever window has focus, and any program running as you can trigger it while an entry is armed. Press again to turn it on."));
        ("description", JStr (u "Off by default: whatever window has focus when it types gets your password, and while an entry is armed any program running as you can make it type. With it on, Ctrl+C in the panel copies the highlighted login's password and arms it for 30 seconds; the autoType command, bound to a key, then types its username, Tab and password into the focused window, once. Needs wtype."))];
   obj [("key", JStr (u "colorizeIcon")); ("group", JStr (u "general")); ("type", JStr (u "bool"));
        ("label", JStr (u "Colorize menu-bar icon")); ("defaultValue", JBool false);
        ("description", JStr (u "Use the active Omarchy theme accent for the primary menu-bar icon."))];
   obj [("key", JStr (u "autoCopyTotpSec")); ("group", JStr (u "general")); ("type", JStr (u "int"));
        ("label", JStr (u "Auto-copy TOTP after")); ("unit", JStr (u "seconds")); ("min", jz 0);
        ("max", jz 30); ("step", jz 1); ("zeroLabel", JStr (u "Off")); ("defaultValue", jz 3);
        ("description", JStr (u "Replace the clipboard with the 2FA code this long after the password."))];
   obj [("key", JStr (u "suggestOnOpen")); ("group", JStr (u "general")); ("type", JStr (u "bool"));
        ("label", JStr (u "Suggest for active window")); ("defaultValue", JBool true);
        ("description", JStr (u "Match the focused window or browser tab against your vault."))]]%string.

(** [entry[k] = v] on a copy. *)
Definition with_field (entry : jsval) (k : string) (v : jsval) : jsval :=
  match entry with JObj o => JObj (obj_set o (u k) v) | _ => entry end.

Definition in_group (g : jstr) (entry : jsval) : bool := strict_eq entry.["group"] (JStr g).

(** The entries of a group, the first one with the group's label. *)
Definition group_rows (g : jstr * jstr) : list jsval :=
  match List.filter (in_group (fst g)) SETTINGS_SCHEMA with
  | [] => []
  | e :: t => with_field e "groupLabel" (JStr (snd g)) :: map (fun e => with_field e "groupLabel" (JStr [])) t
  end.

Definition groupedSettings : list jsval := concat (map group_rows SETTINGS_GROUPS).

Definition groupLabelFor (id : jsval) : jstr :=
  match find_first (fun g => strict_eq (JStr (fst g)) id) SETTINGS_GROUPS with Some g => snd g | None => [] end.

Definition group_heading (group : jsval) : jsval :=
  obj [("kind", JStr (u "group")); ("group", group); ("label", JStr (groupLabelFor group))].

(** The loop of visibleSettings; [seen] holds the groups already headed. *)
Fixpoint headed_rows (seen : list jsval) (rows : list jsval) : list jsval :=
  match rows with
  | [] => []
  | entry :: t =>
    let group := entry.["group"] in
    let last_ := match t with [] => true | next :: _ => negb (strict_eq next.["group"] group) end in
    let row := with_field (with_field (with_field entry "kind" (JStr (u "setting"))) "groupLabel" (JStr []))
                          "lastInGroup" (JBool last_) in
    if existsb (fun g => strict_eq g group) seen then row :: headed_rows seen t
    else group_heading group :: row :: headed_rows (group :: seen) t
  end.

Definition visibleSettings (deps checked : jsval) : list jsval :=
  let showSsh := sshUiAvailable deps checked in
  headed_rows [] (List.filter (fun e => showSsh || negb (in_group (u "sshAgent") e)) groupedSettings).

Definition has_key (key : jstr) (entry : jsval) : bool := strict_eq entry.["key"] (JStr key).

Definition settingSchemaEntry (key : jstr) : option jsval := find_first (has_key key) SETTINGS_SCHEMA.

(** ** Reading and writing a value *)

(** Math.floor(Number(raw)) of a number or a decimal string, else NaN. *)
Definition readable_int (raw : jsval) : num :=
  match raw with
  | JNum n => num_floor n
  | JStr s => if str_eqb (trim s) [] then NaN else num_floor (to_num raw)
  | _ => NaN
  end.

Definition has_type (t : string) (entry : jsval) : bool := strict_eq entry.["type"] (JStr (u t)).

Definition intSetting (key : jstr) (raw : jsval) : num :=
  let n := readable_int raw in
  match settingSchemaEntry key with
  | Some entry =>
    if negb (has_type "int" entry) then (if is_finite n then n else numz 0)
    else
      let lo := to_num entry.["min"] in
      let n := if negb (is_finite n) || num_ltb n lo then num_floor (to_num entry.["defaultValue"]) else n in
      let n := if is_finite n then n else lo in
      num_max lo (num_min (to_num entry.["max"]) n)
  | None => if is_finite n then n else numz 0
  end.

Definition boolSetting (key : jstr) (raw : jsval) : bool :=
  match raw with
  | JBool b => b
  | _ => match settingSchemaEntry key with
         | Some entry => if has_type "bool" entry then is_true entry.["defaultValue"] else false
         | None => false
         end
  end.

Definition setting_text (value type : jsval) : jstr :=
  if strict_eq type (JStr (u "bool")) then (if truthy value then u "true" else u "false")
  else if strict_eq type (JStr (u "json")) then json_text (if is_undef value then JNull else value)
  else num_str (num_or_zero (to_num value)).

Definition settingWriteCommand (key value type : jsval) : list jstr :=
  let script := u "omarchy bar set io.github.elevate08.qs-bitwarden-cli " ++ shellQuote (JStr (to_str key)) ++ u " "
    ++ shellQuote (JStr (setting_text value type)) ++ u " --json | head -c " ++ dec_Z MAX_MISC_BYTES in
  [u "bash"; u "-c"; cappedScript script (Some MAX_STDERR_BYTES)].

(** ** Auto-lock *)

Definition AUTO_LOCK_POLL_MS : Z := 30000.

Definition window_minutes (minutes : jsval) : option num :=
  let m := num_floor (to_num minutes) in
  if negb (is_finite m) || num_leb m (numz 0) then None else Some m.

Definition minutes_ms (m : num) : num := num_mul (num_mul m (numz 60)) (numz 1000).

Definition autoLockPollMs (minutes : jsval) : num :=
  match window_minutes minutes with
  | None => numz AUTO_LOCK_POLL_MS
  | Some m => num_max (numz 1000) (num_min (minutes_ms m) (numz AUTO_LOCK_POLL_MS))
  end.

Definition autoLockExpired (armedAt minutes now : jsval) : bool :=
  match window_minutes minutes with
  | None => false
  | Some m =>
    let start := to_num armedAt in
    let at_ := to_num now in
    if negb (is_finite start) || num_leb start (numz 0) || negb (is_finite at_) then false
    else num_leb (minutes_ms m) (num_sub at_ start)
  end.

(** ** Lemmas *)

(** The integer settings of the schema: whole bounds around a whole default. *)
Definition int_bounds (entry : jsval) : option (Z * Z * Z) :=
  match entry.["min"], entry.["max"], entry.["defaultValue"] with
  | JNum (Fin a), JNum (Fin b), JNum (Fin d) => Some (Qround.Qfloor a, Qround.Qfloor b, Qround.Qfloor d)
  | _, _, _ => None
  end.

Definition int_entry (entry : jsval) (lo hi def : Z) : Prop :=
  entry.["min"] = jz lo /\ entry.["max"] = jz hi /\ entry.["defaultValue"] = jz def /\ (0 <= lo <= def)%Z /\ (def <= hi)%Z.

Lemma schema_ints : Forall (fun e => has_type "int" e = true -> exists lo hi def, int_entry e lo hi def) SETTINGS_SCHEMA.
Proof.
  unfold SETTINGS_SCHEMA. repeat (apply Forall_cons; split); [..|constructor];
    intros H; try (exfalso; vm_compute in H; discriminate H); clear H;
    eexists _, _, _; (split_and!; [vm_compute; reflexivity..| | |]); vm_compute; congruence.
Qed.

Lemma settingSchemaEntry_ints key entry : settingSchemaEntry key = Some entry -> has_type "int" entry = true ->
  exists lo hi def, int_entry entry lo hi def.
Proof.
  intros [H _]%find_first_some. pose proof schema_ints as G. rewrite Forall_forall in G. by apply G.
Qed.

Lemma numz_inj a b : numz a = numz b -> a = b.
Proof. unfold numz, QArith_base.inject_Z. by intros [= ->]. Qed.

(** What is readable is whole. *)
Lemma readable_int_whole raw : is_finite (readable_int raw) = true -> exists n, readable_int raw = numz n.
Proof.
  assert (forall m, is_finite (num_floor m) = true -> exists n, num_floor m = numz n) as G.
  { intros [| |q]; try done. intros _. by eexists. }
  unfold readable_int. destruct raw; try done; [apply G|]. destruct (str_eqb _ _); [done|apply G].
Qed.

(** ** Properties *)

(** A stored number can never disable or overflow a timer: whatever
    shell.json holds, an integer setting reads as a whole number within its
    schema's bounds - the stored one where it is readable and not below the
    floor, capped at the ceiling, and the default otherwise. *)
Theorem intSetting_bounds key entry raw :
  settingSchemaEntry key = Some entry -> has_type "int" entry = true ->
  exists lo hi def z, int_entry entry lo hi def /\ intSetting key raw = numz z /\ (lo <= z <= hi)%Z
    /\ (forall n, readable_int raw = numz n -> z = if (n <? lo)%Z then def else Z.min hi n)
    /\ (is_finite (readable_int raw) = false -> z = def).
Proof.
  intros He Ht. destruct (settingSchemaEntry_ints key entry He Ht) as (lo & hi & def & Hi). pose proof Hi as (E1 & E2 & E3 & H1 & H2).
  exists lo, hi, def. unfold intSetting. rewrite He, Ht, E1, E2, E3. cbn [negb to_num jz].
  destruct (is_finite (readable_int raw)) eqn:Ef.
  - destruct (readable_int_whole raw Ef) as [n En]. rewrite En. change (is_finite (numz n)) with true. cbn [negb orb].
    rewrite num_ltb_int, num_floor_int. exists (if (n <? lo)%Z then def else Z.min hi n). split; [exact Hi|].
    assert (forall n', numz n = numz n' -> (if (n <? lo)%Z then def else Z.min hi n) = (if (n' <? lo)%Z then def else Z.min hi n'))
      by (by intros n' <-%numz_inj).
    destruct (Z.ltb_spec n lo) as [L|L]; (change (is_finite (numz _)) with true); cbv iota; autorewrite with qsnum;
      (split; [f_equal; lia|split; [lia|by split]]).
  - cbn [negb orb]. rewrite num_floor_int. change (is_finite (numz def)) with true. cbv iota. autorewrite with qsnum.
    exists def. split; [exact Hi|]. split; [f_equal; lia|]. split; [lia|]. split; [|done]. intros n En. by rewrite En in Ef.
Qed.

Lemma intSetting_bounds_witness :
  (exists entry, settingSchemaEntry (u "autoLockMinutes") = Some entry /\ has_type "int" entry = true)
  /\ intSetting (u "autoLockMinutes") (JStr (u "99999999")) = numz 1440.
Proof.
  destruct (settingSchemaEntry (u "autoLockMinutes")) as [entry|] eqn:E; [|vm_compute in E; discriminate E].
  assert (T : has_type "int" entry = true) by (vm_compute in E; injection E as <-; vm_compute; reflexivity).
  split; [by exists entry|].
  destruct (intSetting_bounds (u "autoLockMinutes") entry (JStr (u "99999999")) E T) as (lo & hi & def & z & (H1 & H2 & H3 & _) & Hz & _ & Hv & _).
  rewrite Hz. assert (R : readable_int (JStr (u "99999999")) = numz 99999999) by (vm_compute; reflexivity).
  rewrite (Hv 99999999%Z R). vm_compute in E. injection E as <-.
  vm_compute in H1, H2. injection H1 as <-. injection H2 as <-. vm_compute. reflexivity.
Defined.

(** The auto-lock deadline: with whole minutes and clocks it has passed
    exactly when the window is on, was armed, and its length has gone by on the
    wall clock, suspend included; and polls are at least a second apart, at
    most half a minute, and never longer than the window. *)
Theorem autoLock_spec m a t :
  autoLockExpired (jz a) (jz m) (jz t) = ((0 <? m) && (0 <? a) && (m * 60000 <=? t - a))%Z
  /\ exists p, autoLockPollMs (jz m) = numz p /\ (1000 <= p <= 30000)%Z /\ ((0 < m)%Z -> (p <= m * 60000)%Z).
Proof.
  unfold autoLockExpired, autoLockPollMs, window_minutes, minutes_ms. cbn [to_num jz].
  rewrite num_floor_int. change (is_finite (numz m)) with true. change (is_finite (numz a)) with true.
  change (is_finite (numz t)) with true. cbn [negb orb]. autorewrite with qsnum.
  destruct (Z.leb_spec m 0).
  - destruct (Z.ltb_spec 0 m); [lia|]. split; [done|]. exists 30000%Z. split; [done|lia].
  - destruct (Z.ltb_spec 0 m); [|lia]. cbn [andb]. autorewrite with qsnum. rewrite orb_false_r. split.
    + destruct (Z.leb_spec a 0), (Z.ltb_spec 0 a); cbn [andb]; lia.
    + eexists. split; [done|]. unfold AUTO_LOCK_POLL_MS. lia.
Qed.

(** The screen lists each group once, and no SSH row without a supporting CLI. *)
Lemma visibleSettings_groups deps checked :
  map (fun r => r.["group"]) (List.filter (fun r => strict_eq r.["kind"] (JStr (u "group"))) (visibleSettings deps checked))
  = if sshUiAvailable deps checked then [JStr (u "general"); JStr (u "security"); JStr (u "sshAgent")]
    else [JStr (u "general"); JStr (u "security")].
Proof. unfold visibleSettings. destruct (sshUiAvailable deps checked); vm_compute; reflexivity. Qed.

Lemma visibleSettings_ssh deps checked : sshUiAvailable deps checked = false ->
  existsb (in_group (u "sshAgent")) (visibleSettings deps checked) = false.
Proof. intros H. unfold visibleSettings. rewrite H. vm_compute. reflexivity. Qed.
