(* ===== verification/Generator.v ===== *)
(** * The password generator

    The generator's options ([src/BitwardenModel.js], "Password generator"):
    normalizing them, saving and restoring them, and the [bw generate] command
    they become, and the requests and the process of the [bw serve] that can
    answer instead. Generation itself is done by [bw]. The
    natural logarithm of the strength meter is a parameter: doubles are not
    modelled. *)

From stdpp Require Import base list numbers strings.
From S2P Require Import Prelude.
From S2P Require Import JsValue.
From S2P Require Import Json.
From S2P Require Import Uri.
From S2P Require Import Shell.
From S2P Require Import Session.
From S2P Require Import Runtime.
From S2P Require Import Commands.
Local Open Scope nat_scope.
Local Open Scope js_scope.

(** ** Options *)

Definition GENERATOR_DEFAULTS : list (jstr * jsval) := fields
  [("type", JStr (u "password")); ("length", jz 14); ("uppercase", JBool true); ("lowercase", JBool true);
   ("numbers", JBool true); ("special", JBool false); ("minNumber", jz 1); ("minSpecial", jz 1);
   ("ambiguous", JBool false); ("words", jz 3); ("separator", JStr (u "-")); ("capitalize", JBool false);
   ("includeNumber", JBool false)]%string.

Record limit := mkLimit { min : Z; max : Z }.

(** [GENERATOR_LIMITS[key]]; no other key of the options has one. *)
Definition GENERATOR_LIMITS (key : jstr) : option limit :=
  if str_eqb key (u "length") then Some (mkLimit 5 128)
  else if str_eqb key (u "words") then Some (mkLimit 3 20)
  else if str_eqb key (u "minNumber") then Some (mkLimit 0 9)
  else if str_eqb key (u "minSpecial") then Some (mkLimit 0 9)
  else None.

Definition generatorDefaults : list (jstr * jsval) := GENERATOR_DEFAULTS.

Definition clampInt (value : jsval) (l : limit) : num :=
  let n := num_floor (to_num value) in
  let n := if is_nan n then numz (min l) else n in
  num_max (numz (min l)) (num_min (numz (max l)) n).

Definition opt (o : list (jstr * jsval)) (k : string) : jsval := obj_get o (u k).
Definition set_opt (o : list (jstr * jsval)) (k : string) (v : jsval) : list (jstr * jsval) := obj_set o (u k) v.
Definition on (o : list (jstr * jsval)) (k : string) : bool := truthy (opt o k).

(** [for (k in opts) if (opts[k] !== undefined) o[k] = opts[k]] *)
Definition assign_given (o : list (jstr * jsval)) (opts : jsval) : list (jstr * jsval) :=
  fold_left (fun o kv => if is_undef (snd kv) then o else obj_set o (fst kv) (snd kv)) (enumerated opts) o.

Definition clamp_opt (o : list (jstr * jsval)) (k : string) (l : limit) : list (jstr * jsval) :=
  set_opt o k (JNum (clampInt (opt o k) l)).

Definition clamp_all (o : list (jstr * jsval)) : list (jstr * jsval) :=
  let o := clamp_opt o "length" (mkLimit 5 128) in
  let o := clamp_opt o "words" (mkLimit 3 20) in
  let o := clamp_opt o "minNumber" (mkLimit 0 9) in
  clamp_opt o "minSpecial" (mkLimit 0 9).

Definition need_a_class (o : list (jstr * jsval)) : list (jstr * jsval) :=
  if negb (on o "uppercase") && negb (on o "lowercase") && negb (on o "numbers") && negb (on o "special")
  then set_opt o "lowercase" (JBool true) else o.

Definition drop_minimums (o : list (jstr * jsval)) : list (jstr * jsval) :=
  let o := if negb (on o "numbers") then set_opt o "minNumber" (jz 0) else o in
  if negb (on o "special") then set_opt o "minSpecial" (jz 0) else o.

Definition required (o : list (jstr * jsval)) : num :=
  num_add (if on o "numbers" then to_num (opt o "minNumber") else numz 0)
          (if on o "special" then to_num (opt o "minSpecial") else numz 0).

Definition make_room (o : list (jstr * jsval)) : list (jstr * jsval) :=
  if num_ltb (to_num (opt o "length")) (required o)
  then set_opt o "length" (JNum (num_min (numz 128) (required o))) else o.

Definition need_separator (o : list (jstr * jsval)) : list (jstr * jsval) :=
  if on o "separator" then o else set_opt o "separator" (JStr (u "-")).

Definition normalizeGeneratorOptions (opts : jsval) : list (jstr * jsval) :=
  need_separator (make_room (drop_minimums (need_a_class (clamp_all (assign_given generatorDefaults opts))))).

(** ** Saving and restoring *)

Definition generatorOptionsToStore (opts : jsval) : list (jstr * jsval) :=
  let o := normalizeGeneratorOptions (jor opts (JObj [])) in
  map (fun kv => (fst kv, obj_get o (fst kv))) GENERATOR_DEFAULTS.

(** Units that draw nothing or reorder what is around them. *)
Definition is_unprintable (c : N) : bool :=
  (c <=? 31)%N || in_range 127 159 c || in_range 55296 57343 c || in_range 8232 8233 c
  || in_range 8234 8238 c || in_range 8294 8297 c || in_range 8206 8207 c.

Definition generatorOptionValid (key : jstr) (value : jsval) : bool :=
  match GENERATOR_LIMITS key with
  | Some l =>
    match value with
    | JNum n => num_eqb (num_floor n) n && num_leb (numz (min l)) n && num_leb n (numz (max l))
    | _ => false
    end
  | None =>
    if str_eqb key (u "type") then strict_eq value (JStr (u "password")) || strict_eq value (JStr (u "passphrase"))
    else if str_eqb key (u "separator") then
      match value with JStr [c] => negb (is_unprintable c) | _ => false end
    else match value with JBool _ => true | _ => false end
  end.

Definition restoreGeneratorOptions (raw : jsval) : list (jstr * jsval) :=
  if negb (is_object raw) || is_array raw then generatorDefaults
  else
    let o := map (fun kv => let v := jget raw (fst kv) in
                            (fst kv, if generatorOptionValid (fst kv) v then v else snd kv)) GENERATOR_DEFAULTS in
    normalizeGeneratorOptions (JObj o).

(** ** The request *)

(** A parameter: a bare flag, or a name with its value. *)
Inductive param := Flag (name : jstr) | Valued (name : jstr) (value : jsval).

Definition flag_if (name : string) (on_ : bool) : list param := if on_ then [Flag (u name)] else [].

Definition generatorParams (opts : jsval) : list param :=
  let o := normalizeGeneratorOptions opts in
  if strict_eq (opt o "type") (JStr (u "passphrase")) then
    [Flag (u "passphrase"); Valued (u "words") (opt o "words"); Valued (u "separator") (opt o "separator")]
    ++ flag_if "capitalize" (on o "capitalize") ++ flag_if "includeNumber" (on o "includeNumber")
  else
    flag_if "uppercase" (on o "uppercase") ++ flag_if "lowercase" (on o "lowercase")
    ++ flag_if "number" (on o "numbers") ++ flag_if "special" (on o "special")
    ++ [Valued (u "length") (opt o "length")]
    ++ (if on o "numbers" then [Valued (u "minNumber") (opt o "minNumber")] else [])
    ++ (if on o "special" then [Valued (u "minSpecial") (opt o "minSpecial")] else [])
    ++ flag_if "ambiguous" (on o "ambiguous").

Definition GENERATE_HOST : jstr := u "localhost".

(** [p[1] === true]: a value that is true is written as a flag is. *)
Definition query_value (p : param) : option jstr :=
  match p with
  | Flag _ | Valued _ (JBool true) => Some (u "true")
  | Valued _ v => encodeURIComponent (to_str v)
  end.
Definition param_name (p : param) : jstr := match p with Flag n | Valued n _ => n end.

Definition query_part (p : param) : option jstr := (fun v => param_name p ++ u "=" ++ v) <$> query_value p.

(** None where encodeURIComponent throws. *)
Definition generateServeUrl (opts : jsval) : option jstr :=
  (fun q => u "http://" ++ GENERATE_HOST ++ u "/generate?" ++ join (u "&") q) <$> mapM query_part (generatorParams opts).

(** *** The generator's server *)

Definition GENERATE_SOCKET_NAME : jstr := u "generator.sock".
Definition GENERATE_RESPONSE_CAP : Z := 64 * 1024.
Definition GENERATE_REQUEST_TIMEOUT_MS : Z := 2000.

Definition generatorSocketPrelude (missingExit : Z) : jstr :=
  uq "test -n `${XDG_RUNTIME_DIR:-}` || exit " ++ dec_Z missingExit ++ u "; "
    ++ uq "__gen_dir=`$XDG_RUNTIME_DIR/" ++ RUNTIME_SUBDIR ++ uq "`; "
    ++ uq "__gen_sock=`$__gen_dir/" ++ GENERATE_SOCKET_NAME ++ uq "`; ".

Definition generateServeCommand : list jstr :=
  bash (generatorSocketPrelude 1 ++ privateDirScript (u "__gen_dir")
    ++ uq "rm -f -- `$__gen_sock` || exit 1; "
    ++ uq "exec bw serve --hostname `unix://$__gen_sock`").

(** None where encodeURIComponent throws. *)
Definition generateServeRequestCommand (opts : jsval) : option (list jstr) :=
  (fun url =>
    let timeoutSecs := Z.max 1 ((GENERATE_REQUEST_TIMEOUT_MS + 500) / 1000) in
    bash (cappedScript
      (generatorSocketPrelude 7
       ++ uq "if [ -L `$__gen_dir` ]; then exit 2; fi; "
       ++ uq "[ -d `$__gen_dir` ] && [ -S `$__gen_sock` ] || exit 7; "
       ++ uq "curl -q -s -S --noproxy '*' --unix-socket `$__gen_sock` --max-time " ++ dec_Z timeoutSecs
       ++ u " --connect-timeout " ++ dec_Z timeoutSecs
       ++ u " " ++ shellQuote (JStr url) ++ u " | head -c " ++ dec_Z GENERATE_RESPONSE_CAP) (Some MAX_STDERR_BYTES)))
  <$> generateServeUrl opts.

Definition param_args (p : param) : list jsval :=
  match p with
  | Flag n | Valued n (JBool true) => [JStr (u "--" ++ n)]
  | Valued n v => [JStr (u "--" ++ n); JStr (to_str v)]
  end.

Definition generateCommand (opts : jsval) : list jstr :=
  buildCappedCommand (JStr (u "generate") :: concat (map param_args (generatorParams opts))) (Some MAX_TOKEN_BYTES) None.

Definition parseServeGenerated (raw : jsval) : jstr :=
  match json_parse (to_str raw) with
  | None => []
  | Some parsed =>
    if negb (truthy parsed) || negb (is_true parsed.["success"]) || negb (truthy parsed.["data"]) then []
    else text_or_empty parsed.["data"].["data"]
  end.

(** ** The server's life *)

Definition generatorProbeIsForeign (exitCode stdout : jsval) : bool :=
  negb (num_eqb (to_num exitCode) (numz 7) && str_eqb (trim (text_or_empty stdout)) []).

Record serve_exit := mkServeExit { giveUp : bool; dropValue : bool; useCli : bool }.

Definition generatorServeExitAction (state : jsval) : serve_exit :=
  let st := jor state (JObj []) in
  if truthy st.["stopping"] then mkServeExit false false false
  else
    let strandedValue := truthy st.["wasReady"] in
    mkServeExit true strandedValue ((strandedValue || truthy st.["busy"]) && truthy st.["onGeneratorScreen"]).

(** ** Strength *)

Section Strength.
Variable log : num -> num.     (** Math.log *)

Definition tenth (z : Z) : num := num_div (numz z) (numz 10).

Definition pool_size (o : list (jstr * jsval)) : num :=
  let add k n := if on o k then n else 0%Z in
  numz (add "uppercase"%string 26%Z + add "lowercase"%string 26%Z + add "numbers"%string 10%Z
        + add "special"%string 26%Z - add "ambiguous"%string 6%Z)%Z.

Definition generatorEntropyBits (o : list (jstr * jsval)) : num :=
  if strict_eq (opt o "type") (JStr (u "passphrase")) then
    num_add (num_mul (to_num (opt o "words")) (tenth 129)) (if on o "includeNumber" then tenth 33 else numz 0)
  else num_mul (to_num (opt o "length")) (num_div (log (num_max (pool_size o) (numz 2))) (log (numz 2))).

Definition generatorStrengthLabel (bits : num) : jstr :=
  if num_leb (numz 120) bits then u "Excellent"
  else if num_leb (numz 90) bits then u "Strong"
  else if num_leb (numz 60) bits then u "Good"
  else if num_leb (numz 40) bits then u "Fair"
  else u "Weak".

Record strength := mkStrength { bits : num; label : jstr; fraction : num }.

Definition generatorStrength (opts : jsval) : strength :=
  let b := generatorEntropyBits (normalizeGeneratorOptions opts) in
  mkStrength (num_round b) (generatorStrengthLabel b) (num_max (numz 0) (num_min (numz 1) (num_div b (numz 128)))).
End Strength.

(** ** Lemmas *)

Lemma opt_set_same o k v : opt (set_opt o k v) k = v.
Proof. apply obj_get_set_same. Qed.
Lemma opt_set_other o k k' v : str_eqb (u k) (u k') = false -> opt (set_opt o k v) k' = opt o k'.
Proof. intros H%str_eqb_neq. by apply obj_get_set_other. Qed.

(** [opts]: read the options back through the assignments. *)
Ltac opts := repeat first [ rewrite opt_set_same | rewrite opt_set_other by (vm_compute; reflexivity) ].

Lemma clampInt_bounds v l : (min l <= max l)%Z -> exists z, clampInt v l = numz z /\ (min l <= z <= max l)%Z.
Proof.
  intros H. unfold clampInt. destruct (num_floor (to_num v)) as [|neg|q] eqn:E.
  - cbn [is_nan]. autorewrite with qsnum. eexists. split; [done|lia].
  - cbn [is_nan]. destruct neg.
    + exists (min l). split; [done|lia].
    + exists (max l). split; [|lia]. change (num_min (numz (max l)) (Inf false)) with (numz (max l)).
      rewrite num_max_int. f_equal. lia.
  - cbn [is_nan]. assert (exists z, Fin q = numz z) as [z ->].
    { destruct (to_num v) as [| |r]; try done. injection E as <-. by eexists. }
    autorewrite with qsnum. eexists. split; [done|lia].
Qed.

(** What normalizing guarantees of the numbers. *)
Definition options_ok (o : list (jstr * jsval)) : Prop :=
  exists len words n s,
    opt o "length" = jz len /\ (5 <= len <= 128)%Z
    /\ opt o "words" = jz words /\ (3 <= words <= 20)%Z
    /\ opt o "minNumber" = jz n /\ (0 <= n <= 9)%Z /\ (on o "numbers" = false -> n = 0%Z)
    /\ opt o "minSpecial" = jz s /\ (0 <= s <= 9)%Z /\ (on o "special" = false -> s = 0%Z)
    /\ (n + s <= len)%Z
    /\ (on o "uppercase" || on o "lowercase" || on o "numbers" || on o "special") = true
    /\ on o "separator" = true.

(** The numbers alone, after clamping. *)
Definition clamped (o : list (jstr * jsval)) : Prop :=
  exists len words n s,
    opt o "length" = jz len /\ (5 <= len <= 128)%Z /\ opt o "words" = jz words /\ (3 <= words <= 20)%Z
    /\ opt o "minNumber" = jz n /\ (0 <= n <= 9)%Z /\ opt o "minSpecial" = jz s /\ (0 <= s <= 9)%Z.

Lemma clamp_all_ok o : clamped (clamp_all o).
Proof.
  unfold clamp_all, clamp_opt. opts.
  destruct (clampInt_bounds (opt o "length") (mkLimit 5 128)) as (a & Ea & Ha); [simpl; lia|].
  destruct (clampInt_bounds (opt o "words") (mkLimit 3 20)) as (b & Eb & Hb); [simpl; lia|].
  destruct (clampInt_bounds (opt o "minNumber") (mkLimit 0 9)) as (c & Ec & Hc); [simpl; lia|].
  destruct (clampInt_bounds (opt o "minSpecial") (mkLimit 0 9)) as (d & Ed & Hd); [simpl; lia|].
  rewrite Ea, Eb, Ec, Ed. exists a, b, c, d. simpl in *. opts. split_and!; (done || lia).
Qed.

Lemma need_a_class_ok o : clamped o -> clamped (need_a_class o)
  /\ (on (need_a_class o) "uppercase" || on (need_a_class o) "lowercase" || on (need_a_class o) "numbers"
      || on (need_a_class o) "special") = true.
Proof.
  intros (a & b & c & d & H). unfold need_a_class.
  destruct (on o "uppercase") eqn:E1, (on o "lowercase") eqn:E2, (on o "numbers") eqn:E3, (on o "special") eqn:E4;
    cbn [negb andb]; rewrite ?E1, ?E2, ?E3, ?E4; (split; [by exists a, b, c, d|done]) || idtac.
  split; [exists a, b, c, d; by opts|]. unfold on in *. opts. by rewrite E1.
Qed.

Lemma make_room_ok len n s o : opt o "length" = jz len -> (5 <= len <= 128)%Z -> (0 <= n <= 9)%Z -> (0 <= s <= 9)%Z ->
  required o = numz (n + s) ->
  exists len', opt (make_room o) "length" = jz len' /\ (5 <= len' <= 128)%Z /\ (n + s <= len')%Z
    /\ forall k, str_eqb (u "length") (u k) = false -> opt (make_room o) k = opt o k.
Proof.
  intros El Hl Hn Hs Er. unfold make_room. rewrite El, Er. cbn [to_num jz]. rewrite num_ltb_int.
  destruct (Z.ltb_spec len (n + s)).
  - exists (n + s)%Z. opts. rewrite num_min_int. split; [unfold jz; do 2 f_equal; lia|]. split; [lia|]. split; [lia|].
    intros k Hk. by apply opt_set_other.
  - exists len. split_and!; (done || lia).
Qed.

Lemma drop_minimums_ok o len words n s :
  opt o "length" = jz len -> opt o "words" = jz words -> opt o "minNumber" = jz n -> opt o "minSpecial" = jz s ->
  let o' := drop_minimums o in
  let n' := if on o "numbers" then n else 0%Z in
  let s' := if on o "special" then s else 0%Z in
  opt o' "minNumber" = jz n' /\ opt o' "minSpecial" = jz s' /\ required o' = numz (n' + s')
  /\ forall k, str_eqb (u "minNumber") (u k) = false -> str_eqb (u "minSpecial") (u k) = false -> opt o' k = opt o k.
Proof.
  intros E1 E2 E3 E4. cbv zeta. unfold drop_minimums, required, on in *.
  destruct (truthy (opt o "numbers")) eqn:En; cbn [negb]; opts; destruct (truthy (opt o "special")) eqn:Es; cbn [negb]; opts;
    rewrite ?En, ?Es, ?E3, ?E4; cbn [to_num jz]; rewrite ?num_add_int; (split; [done|]); (split; [done|]); (split; [done|]);
    intros k H1 H2; by rewrite ?opt_set_other by done.
Qed.

(** Normalizing, stage by stage, for any options at all. *)
Lemma normalize_spec opts :
  let o0 := assign_given generatorDefaults opts in
  let o := normalizeGeneratorOptions opts in
  options_ok o
  /\ (forall k, In k ["type"; "uppercase"; "numbers"; "special"; "ambiguous"; "capitalize"; "includeNumber"]%string -> opt o k = opt o0 k)
  /\ (opt o "lowercase" = opt o0 "lowercase" \/ opt o "lowercase" = JBool true)
  /\ (on o0 "separator" = true -> opt o "separator" = opt o0 "separator").
Proof.
  cbv zeta. unfold normalizeGeneratorOptions. set (o0 := assign_given generatorDefaults opts).
  pose proof (clamp_all_ok o0) as C1. set (o1 := clamp_all o0) in *.
  assert (forall k, In k ["type"; "uppercase"; "lowercase"; "numbers"; "special"; "ambiguous"; "capitalize"; "includeNumber"; "separator"]%string ->
    opt o1 k = opt o0 k) as F1.
  { unfold o1, clamp_all, clamp_opt. intros k Hk. repeat (destruct Hk as [<-|Hk]; [by opts|]). done. }
  destruct (need_a_class_ok o1 C1) as [(len & words & n & s & El & Hl & Ew & Hw & En & Hn & Es & Hs) Hc].
  set (o2 := need_a_class o1) in *.
  assert (forall k, str_eqb (u "lowercase") (u k) = false -> opt o2 k = opt o1 k) as F2.
  { unfold o2, need_a_class. intros k Hk. destruct (_ && _); [by apply opt_set_other|done]. }
  assert (opt o2 "lowercase" = opt o1 "lowercase" \/ opt o2 "lowercase" = JBool true) as L2.
  { unfold o2, need_a_class. destruct (_ && _); [right; by opts|by left]. }
  destruct (drop_minimums_ok o2 len words n s El Ew En Es) as (En3 & Es3 & R3 & F3). set (o3 := drop_minimums o2) in *.
  set (n' := if on o2 "numbers" then n else 0%Z) in *. set (s' := if on o2 "special" then s else 0%Z) in *.
  assert (0 <= n' <= 9 /\ 0 <= s' <= 9)%Z as [Hn' Hs'] by (unfold n', s'; destruct (on o2 "numbers"), (on o2 "special"); lia).
  destruct (make_room_ok len n' s' o3) as (len' & El4 & Hl4 & Hr & F4); [by rewrite F3 by (vm_compute; reflexivity)|done..|].
  set (o4 := make_room o3) in *.
  assert (forall k, str_eqb (u "separator") (u k) = false -> opt (need_separator o4) k = opt o4 k) as F5.
  { unfold need_separator. intros k Hk. destruct (on o4 "separator"); [done|by apply opt_set_other]. }
  assert (forall k, In k ["type"; "uppercase"; "lowercase"; "numbers"; "special"; "ambiguous"; "capitalize"; "includeNumber"; "separator"]%string ->
    opt o4 k = opt o2 k) as F42.
  { intros k Hk. repeat (destruct Hk as [<-|Hk]; [by rewrite F4, F3 by (vm_compute; reflexivity)|]). done. }
  split_and!.
  - exists len', words, n', s'. set (o := need_separator o4) in *.
    assert (forall k, In k ["uppercase"; "lowercase"; "numbers"; "special"]%string -> on o k = on o2 k) as Fon.
    { intros k Hk. unfold on. repeat (destruct Hk as [<-|Hk]; [by rewrite F5, F42 by (vm_compute; tauto)|]). done. }
    rewrite !Fon by (simpl; tauto).
    assert (opt o "length" = jz len') as -> by (by rewrite F5 by (vm_compute; reflexivity)).
    assert (opt o "words" = jz words) as -> by (by rewrite F5, F4, F3 by (vm_compute; reflexivity)).
    assert (opt o "minNumber" = jz n') as -> by (by rewrite F5, F4 by (vm_compute; reflexivity)).
    assert (opt o "minSpecial" = jz s') as -> by (by rewrite F5, F4 by (vm_compute; reflexivity)).
    split_and!; try (done || lia); [unfold n'; by intros ->|unfold s'; by intros ->|].
    unfold o, need_separator, on. destruct (truthy (opt o4 "separator")) eqn:E; [done|by opts].
  - intros k Hk. rewrite F5 by (repeat (destruct Hk as [<-|Hk]; [vm_compute; reflexivity|]); done).
    rewrite F42 by (simpl in *; tauto). rewrite F2 by (repeat (destruct Hk as [<-|Hk]; [vm_compute; reflexivity|]); done).
    apply F1. simpl in *. tauto.
  - rewrite F5 by (vm_compute; reflexivity). rewrite F42 by (simpl; tauto).
    destruct L2 as [-> | ->]; [left; apply F1; simpl; tauto|by right].
  - unfold on. intros Hsep. assert (opt o4 "separator" = opt o0 "separator") as E.
    { rewrite F42 by (simpl; tauto). rewrite F2 by (vm_compute; reflexivity). apply F1. simpl. tauto. }
    unfold need_separator, on. by rewrite E, Hsep.
Qed.

(** Assigning a value to every default, in order. *)
Lemma replace_key_middle done_ k v0 v t : k ∉ map fst done_ ->
  replace_key (done_ ++ (k, v0) :: t) k v = done_ ++ (k, v) :: t.
Proof.
  induction done_ as [|[k' v'] d IH]; simpl; [by rewrite str_eqb_refl|]. intros H. apply not_elem_of_cons in H as [Hk Hd].
  replace (str_eqb k' k) with false by (symmetry; apply str_eqb_neq; congruence). by rewrite IH.
Qed.

Lemma own_get_middle done_ k v0 t : k ∉ map fst done_ -> own_get (done_ ++ (k, v0) :: t) k = Some v0.
Proof. intros H%own_get_none. rewrite own_get_app, H. simpl. by rewrite str_eqb_refl. Qed.

Lemma assign_all (f : jstr * jsval -> jsval) d : NoDup (map fst d) -> Forall (fun kv => is_undef (f kv) = false) d ->
  assign_given d (JObj (map (fun kv => (fst kv, f kv)) d)) = map (fun kv => (fst kv, f kv)) d.
Proof.
  unfold assign_given. cbn [enumerated]. intros Hn Hf.
  assert (forall t done_, NoDup (map fst (done_ ++ t)) -> Forall (fun kv => is_undef (f kv) = false) t ->
    fold_left (fun o kv => if is_undef (snd kv) then o else obj_set o (fst kv) (snd kv)) (map (fun kv => (fst kv, f kv)) t) (done_ ++ t)
    = done_ ++ map (fun kv => (fst kv, f kv)) t) as G.
  { induction t as [|[k v0] t IH]; intros dn Hd Hu; simpl; [done|]. apply Forall_cons in Hu as [Hu Ht]. rewrite Hu.
    assert (k ∉ map fst dn) as Hk.
    { rewrite map_app in Hd. apply NoDup_app in Hd as (_ & Hd & _). intros Hin. apply (Hd k Hin). by left. }
    unfold obj_set. rewrite own_get_middle, replace_key_middle by done.
    specialize (IH (dn ++ [(k, f (k, v0))])). rewrite <- !app_assoc in IH. simpl in IH. apply IH; [|done].
    rewrite !map_app in *. exact Hd. }
  exact (G d [] Hn Hf).
Qed.

Lemma defaults_names : NoDup (map fst GENERATOR_DEFAULTS).
Proof. apply (bool_decide_unpack _). vm_compute. reflexivity. Qed.

(** The saved value where it can stand, the default otherwise. *)
Definition restored (raw : jsval) (kv : jstr * jsval) : jsval :=
  let v := jget raw (fst kv) in if generatorOptionValid (fst kv) v then v else snd kv.

Lemma restored_valid raw : Forall (fun kv => generatorOptionValid (fst kv) (restored raw kv) = true) GENERATOR_DEFAULTS.
Proof.
  assert (Forall (fun kv => generatorOptionValid (fst kv) (snd kv) = true) GENERATOR_DEFAULTS) as H.
  { repeat (apply Forall_cons; split); [..|constructor]; vm_compute; reflexivity. }
  eapply Forall_impl; [exact H|]. intros kv Hd. unfold restored. cbv zeta.
  by destruct (generatorOptionValid (fst kv) (jget raw (fst kv))) eqn:E.
Qed.

Lemma valid_defined k v : generatorOptionValid k v = true -> is_undef v = false.
Proof. destruct v; try done. unfold generatorOptionValid. by destruct (GENERATOR_LIMITS k), (str_eqb k (u "type")), (str_eqb k (u "separator")). Qed.

Lemma own_get_map_defaults (f : jstr * jsval -> jsval) d k v : NoDup (map fst d) -> (k, v) ∈ d ->
  obj_get (map (fun kv => (fst kv, f kv)) d) k = f (k, v).
Proof.
  unfold obj_get. intros Hn H. induction d as [|[k' v'] d IH]; [by apply elem_of_nil in H|]. simpl in *.
  apply NoDup_cons in Hn as [Hk Hn]. apply elem_of_cons in H as [[= -> ->]|H]; [by rewrite str_eqb_refl|].
  replace (str_eqb k' k) with false; [by apply IH|]. symmetry. apply str_eqb_neq. intros ->. apply Hk.
  apply list_elem_of_fmap. by exists (k, v).
Qed.

Lemma valid_int k l z : GENERATOR_LIMITS k = Some l -> (min l <= z <= max l)%Z -> generatorOptionValid k (jz z) = true.
Proof.
  intros E H. unfold generatorOptionValid. rewrite E. unfold jz. rewrite num_floor_int, num_eqb_int, !num_leb_int, Z.eqb_refl.
  destruct (Z.leb_spec (min l) z), (Z.leb_spec z (max l)); (done || lia).
Qed.

Lemma valid_separator v : generatorOptionValid (u "separator") v = true -> truthy v = true.
Proof.
  unfold generatorOptionValid. change (GENERATOR_LIMITS (u "separator")) with (@None limit).
  change (str_eqb (u "separator") (u "type")) with false. change (str_eqb (u "separator") (u "separator")) with true.
  by destruct v as [| | | |[|]| | |].
Qed.

Definition option_names : list string :=
  ["type"; "length"; "uppercase"; "lowercase"; "numbers"; "special"; "minNumber"; "minSpecial"; "ambiguous"; "words";
   "separator"; "capitalize"; "includeNumber"]%string.

(** Every option is of its kind and within its limits. *)
Definition all_valid (o : list (jstr * jsval)) : Prop :=
  Forall (fun k => generatorOptionValid (u k) (opt o k) = true) option_names.

Definition kept_keys : list string :=
  ["type"; "uppercase"; "numbers"; "special"; "ambiguous"; "capitalize"; "includeNumber"]%string.

Lemma valid_after o l : all_valid l -> options_ok o -> (forall k, In k kept_keys -> opt o k = opt l k) ->
  (opt o "lowercase" = opt l "lowercase" \/ opt o "lowercase" = JBool true) -> opt o "separator" = opt l "separator" ->
  all_valid o.
Proof.
  intros Hl (len & words & n & s & E1 & ? & E2 & ? & E3 & ? & _ & E4 & ? & _) Hsame Hlower Hs.
  unfold all_valid, option_names in *. rewrite !Forall_cons in *.
  destruct Hl as (V1 & V2 & V3 & V4 & V5 & V6 & V7 & V8 & V9 & V10 & V11 & V12 & V13 & _).
  rewrite E1, E2, E3, E4, Hs.
  split_and!; try (rewrite Hsame by (simpl; tauto)); try assumption; try constructor;
    try (eapply valid_int; [vm_compute; reflexivity|simpl; lia]).
  destruct Hlower as [-> | ->]; [assumption|vm_compute; reflexivity].
Qed.

(** Normalizing keeps valid options valid. *)
Lemma normalize_valid opts :
  let o0 := assign_given generatorDefaults opts in
  all_valid o0 -> all_valid (normalizeGeneratorOptions opts)
  /\ forall k, In k ("separator"%string :: kept_keys) -> opt (normalizeGeneratorOptions opts) k = opt o0 k.
Proof.
  intros o0 H. destruct (normalize_spec opts) as (Hok & Hsame & Hlower & Hsep). fold o0 in Hsame, Hlower, Hsep.
  assert (opt (normalizeGeneratorOptions opts) "separator" = opt o0 "separator") as Hs.
  { apply Hsep. unfold on. apply valid_separator. unfold all_valid in H. rewrite Forall_forall in H. apply H, list_elem_of_In. simpl. tauto. }
  split; [by apply (valid_after _ o0)|]. intros k [<-|Hk]; [done|by apply Hsame].
Qed.

Lemma defaults_keys : map fst GENERATOR_DEFAULTS = map u option_names.
Proof. vm_compute. reflexivity. Qed.

Lemma restored_get raw k : In k option_names ->
  exists v, (u k, v) ∈ GENERATOR_DEFAULTS
    /\ opt (map (fun kv => (fst kv, restored raw kv)) GENERATOR_DEFAULTS) k = restored raw (u k, v).
Proof.
  intros Hk. assert (u k ∈ map fst GENERATOR_DEFAULTS) as [[k' v] [E Hin]]%list_elem_of_fmap.
  { rewrite defaults_keys. apply list_elem_of_fmap. exists k. split; [done|by apply list_elem_of_In]. }
  cbn [fst] in E. subst k'. exists v. split; [done|].
  exact (own_get_map_defaults (restored raw) _ _ _ defaults_names Hin).
Qed.

Lemma restored_all_valid raw : all_valid (map (fun kv => (fst kv, restored raw kv)) GENERATOR_DEFAULTS).
Proof.
  apply Forall_forall. intros k Hk%list_elem_of_In. destruct (restored_get raw k Hk) as (v & Hin & ->).
  pose proof (restored_valid raw) as Hv. rewrite Forall_forall in Hv. exact (Hv _ Hin).
Qed.

Lemma restore_start raw : assign_given generatorDefaults (JObj (map (fun kv => (fst kv, restored raw kv)) GENERATOR_DEFAULTS))
  = map (fun kv => (fst kv, restored raw kv)) GENERATOR_DEFAULTS.
Proof.
  apply assign_all; [exact defaults_names|]. eapply Forall_impl; [apply restored_valid|]. intros kv. apply valid_defined.
Qed.

Lemma defaults_all_valid : all_valid GENERATOR_DEFAULTS.
Proof. repeat (apply Forall_cons; split); [..|constructor]; vm_compute; reflexivity. Qed.

(** ** Properties *)

(** C40. Any options at all, typed or read from a file, normalize to a request
    [bw generate] can meet: the length is a whole number from 5 to 128, the
    words from 3 to 20, the minimums from 0 to 9, zero where their class is
    off, and together no more than the length; at least one class is on and
    there is a separator. *)
Theorem normalizeGeneratorOptions_ok opts : options_ok (normalizeGeneratorOptions opts).
Proof. by destruct (normalize_spec opts) as (H & _). Qed.

(** Restoring saved options is safe and faithful: whatever shell.json
    holds, every restored option is of its kind and within its limits, and a
    saved choice that is valid is kept - the type, the switches and the
    separator as they are. *)
Theorem restoreGeneratorOptions_valid raw :
  all_valid (restoreGeneratorOptions raw)
  /\ (is_object raw = true -> is_array raw = false ->
      forall k, In k ("separator"%string :: kept_keys) ->
        generatorOptionValid (u k) (jget raw (u k)) = true -> opt (restoreGeneratorOptions raw) k = jget raw (u k)).
Proof.
  unfold restoreGeneratorOptions. destruct (negb (is_object raw) || is_array raw) eqn:E.
  { split; [exact defaults_all_valid|]. intros H1 H2. by rewrite H1, H2 in E. }
  set (l := JObj _). assert (l = JObj (map (fun kv => (fst kv, restored raw kv)) GENERATOR_DEFAULTS)) as -> by reflexivity.
  pose proof (normalize_valid (JObj (map (fun kv => (fst kv, restored raw kv)) GENERATOR_DEFAULTS))) as H.
  cbv zeta in H. rewrite restore_start in H. destruct (H (restored_all_valid raw)) as [H1 H2].
  split; [exact H1|]. intros _ _ k Hk Hv. rewrite (H2 k Hk).
  destruct (restored_get raw k) as (v & _ & ->); [simpl in *; tauto|]. unfold restored. cbn [fst snd]. by rewrite Hv.
Qed.

(** What a parameter carries, as text. *)
Definition param_text (p : param) : jstr :=
  match p with Flag _ | Valued _ (JBool true) => u "true" | Valued _ v => to_str v end.

Lemma query_part_spec p part : Forall (fun c => c < 65536)%N (param_text p) -> 38%N ∉ param_name p -> query_part p = Some part ->
  38%N ∉ part /\ exists v, part = param_name p ++ u "=" ++ v /\ decodeURIComponent v = Some (param_text p).
Proof.
  intros Hw Hn. unfold query_part. intros (v & Hv & ->)%fmap_Some.
  assert (38%N ∉ v /\ decodeURIComponent v = Some (param_text p)) as [H1 H2].
  { assert (encodeURIComponent (param_text p) = Some v) as E.
    { destruct p as [n|n [| |[|]| | | | |]]; simpl in Hv |- *; try exact Hv; injection Hv as <-; reflexivity. }
    split; [by eapply encode_no_ampersand|by eapply decodeURIComponent_encode]. }
  split; [|by exists v]. rewrite !not_elem_of_app. split_and!; [done| |done]. change (u "=") with [61%N]. by intros ?%list_elem_of_singleton.
Qed.

(** The names are fixed texts without an ampersand. *)
Lemma generatorParams_names opts : Forall (fun p => 38%N ∉ param_name p) (generatorParams opts) /\ generatorParams opts <> [].
Proof.
  assert (forall k b, 38%N ∉ u k -> Forall (fun p => 38%N ∉ param_name p) (flag_if k b)) as Hf.
  { intros k [] Hk; repeat constructor; done. }
  assert (forall k, bool_decide (38%N ∉ u k) = true -> 38%N ∉ u k) as G by (intros k; apply bool_decide_eq_true_1).
  unfold generatorParams. destruct (strict_eq _ _).
  - split; [|done]. rewrite !Forall_app. split_and!; try (apply Hf; apply G; vm_compute; reflexivity).
    repeat constructor; apply G; vm_compute; reflexivity.
  - split; [|intros H; do 4 apply app_eq_nil in H as [_ H]; discriminate].
    rewrite !Forall_app. split_and!; try (apply Hf; apply G; vm_compute; reflexivity);
      try destruct (on _ _); repeat constructor; apply G; vm_compute; reflexivity.
Qed.

(** The [bw serve] URL carries the parameters and nothing else: cut at
    its ampersands the query is the parameters in order, each its name and the
    encoding of its text, so no separator the user types can add or change one. *)
Theorem generateServeUrl_params opts url :
  Forall (fun p => Forall (fun c => c < 65536)%N (param_text p)) (generatorParams opts) ->
  generateServeUrl opts = Some url ->
  exists q, url = u "http://localhost/generate?" ++ q
    /\ Forall2 (fun part p => exists v, part = param_name p ++ u "=" ++ v /\ decodeURIComponent v = Some (param_text p))
         (split_char 38%N q) (generatorParams opts).
Proof.
  intros Hw. unfold generateServeUrl. intros (parts & Hp & ->)%fmap_Some. exists (join (u "&") parts). split; [reflexivity|].
  destruct (generatorParams_names opts) as [Hn Hne]. revert Hw Hp Hn Hne. generalize (generatorParams opts) as ps. intros ps Hw Hp Hn Hne.
  apply mapM_Some in Hp. assert (Forall2 (fun part p => 38%N ∉ part /\ exists v, part = param_name p ++ u "=" ++ v
    /\ decodeURIComponent v = Some (param_text p)) parts ps) as H.
  { apply Forall2_flip. clear Hne. induction Hp; [constructor|]. decompose_Forall_hyps. constructor; [by apply query_part_spec|by apply IHHp]. }
  change (u "&") with [38%N]. rewrite split_char_join.
  - eapply Forall2_impl; [exact H|]. by intros part p [_ Hv].
  - intros ->. apply Forall2_nil_inv_l in H. done.
  - clear -H. induction H as [|part p parts ps [Hp _] _ IH]; by constructor.
Qed.

Definition ampersand_separator : jsval := JObj (fields [("type", JStr (u "passphrase")); ("separator", JStr (u "&"))]%string).

Lemma generateServeUrl_params_witness : exists q,
  u "http://localhost/generate?passphrase=true&words=3&separator=%26" = u "http://localhost/generate?" ++ q
  /\ Forall2 (fun part p => exists v, part = param_name p ++ u "=" ++ v /\ decodeURIComponent v = Some (param_text p))
       (split_char 38%N q) (generatorParams ampersand_separator).
Proof.
  apply (generateServeUrl_params ampersand_separator); [|vm_compute; reflexivity].
  apply (bool_decide_unpack _). vm_compute. exact I.
Defined.

(** A saved file with one good choice and one impossible length. *)
Definition saved_options : jsval := JObj (fields [("type", JStr (u "passphrase")); ("length", jz 4000)]%string).

Lemma restoreGeneratorOptions_valid_witness : opt (restoreGeneratorOptions saved_options) "type" = jget saved_options (u "type").
Proof. apply restoreGeneratorOptions_valid; [reflexivity|reflexivity|right; left; reflexivity|vm_compute; reflexivity]. Defined.
