(* ===== verification/Sends.v ===== *)
(** * Sends, labels and the vault's host

    Bitwarden Sends ([src/BitwardenModel.js], "Bitwarden Send"): the commands,
    the payload of a new one, the list and its labels. Then two small parts the
    panel's views share: clipped labels ("Rendering vault text safely") and how
    a view finds the vault it shows ("Vault host").

    What [Date.parse] makes of text no Date writes, and the order of
    [localeCompare], belong to the host: the first is an argument, the class
    [DateOrder] states what the sort relies on. *)

From stdpp Require Import base list numbers strings.
From Stdlib Require Import QArith Qround.
Local Close Scope Q_scope.
From S2P Require Import Prelude.
From S2P Require Import JsValue.
From S2P Require Import Dates.
From S2P Require Import Json.
From S2P Require Import Shell.
From S2P Require Import Vault.
From S2P Require Import Runtime.
Local Open Scope js_scope.
Local Open Scope nat_scope.

Definition SEND_TYPE_TEXT : Z := 0.
Definition SEND_TYPE_FILE : Z := 1.

(** ** Commands *)

Definition listSendsCommand : list jstr := buildCappedCommand [JStr (u "send"); JStr (u "list")] (Some MAX_SENDS_BYTES) None.
Definition deleteSendCommand (sendId : jsval) : list jstr :=
  buildCappedCommand [JStr (u "send"); JStr (u "delete"); JStr (u "--"); JStr (to_str sendId)] (Some MAX_MISC_BYTES) None.

Definition SEND_ENV : jstr := u "QSBW_SEND".
Definition sendEnvVar : jstr := SEND_ENV.

Definition createSendCommand : list jstr :=
  let script := uq "printf '%s' `$" ++ SEND_ENV ++ uq "` | " ++ ENCODE_CMD ++ u " | bw send create | head -c " ++ dec_Z MAX_MISC_BYTES in
  bash (cappedScript script (Some MAX_STDERR_BYTES)).

(** ** A new Send *)

Definition send_days (deleteInDays : jsval) : num :=
  let n := to_num deleteInDays in
  num_max (numz 1) (num_min (numz 31) (if num_truthy n then n else numz 7)).

Definition trimmed_or (v : jsval) (d : jsval) : jsval :=
  let t := trim (text_or_empty v) in if str_eqb t [] then d else JStr t.

(** At the time [now]; None when no Date can hold the deletion time. *)
Definition buildSendPayload (now : Z) (name text hidden deleteInDays maxAccessCount password notes : jsval) : option jsval :=
  let max := to_num maxAccessCount in
  (fun deletion => obj
    [("object", JStr (u "send"));
     ("name", trimmed_or name (JStr (u "Untitled Send")));
     ("notes", if truthy notes then trimmed_or notes JNull else JNull);
     ("type", jz SEND_TYPE_TEXT);
     ("text", obj [("text", JText text); ("hidden", JBool (truthy hidden))]);
     ("file", JNull);
     ("maxAccessCount", if num_ltb (numz 0) max then JNum max else JNull);
     ("deletionDate", JStr deletion);
     ("expirationDate", JNull);
     ("password", if truthy password && negb (str_eqb (to_str password) []) then JStr (to_str password) else JNull);
     ("emails", JNull);
     ("disabled", JBool false);
     ("hideEmail", JBool false)]%string)
  <$> to_iso (num_add (numz now) (num_mul (num_mul (num_mul (num_mul (send_days deleteInDays) (numz 24)) (numz 60)) (numz 60)) (numz 1000))).

(** ** The list *)

(** [date_le a b] is [a.localeCompare(b) <= 0]. *)
Class DateOrder := {
  date_le : jstr -> jstr -> bool;
  date_total : forall a b, date_le a b = true \/ date_le b a = true;
  date_trans : forall a b c, date_le a b = true -> date_le b c = true -> date_le a c = true
}.

Definition text_if (v : jsval) : jsval := if truthy v then JStr (to_str v) else JStr [].

Definition send_row (s : jsval) : jsval :=
  obj [("id", JText s.["id"]);
       ("name", JStr (text_or s.["name"] (u "Untitled Send")));
       ("type", JNum (to_num (jor s.["type"] (jz 0))));
       ("isFile", JBool (num_eqb (to_num s.["type"]) (numz SEND_TYPE_FILE)));
       ("accessUrl", JText s.["accessUrl"]);
       ("accessCount", JNum (to_num (jor s.["accessCount"] (jz 0))));
       ("maxAccessCount", if is_nullish s.["maxAccessCount"] then JNull else JNum (to_num s.["maxAccessCount"]));
       ("deletionDate", JText s.["deletionDate"]);
       ("expirationDate", text_if s.["expirationDate"]);
       ("passwordSet", JBool (truthy s.["passwordSet"]));
       ("disabled", JBool (truthy s.["disabled"]));
       ("notes", text_if s.["notes"]);
       ("textPreview", text_if (jand s.["text"] s.["text"].["text"]));
       ("textHidden", JBool (truthy (jand s.["text"] s.["text"].["hidden"])));
       ("fileName", text_if (jand s.["file"] s.["file"].["fileName"]))]%string.

Definition compareSends `{DateOrder} (a b : jsval) : bool := date_le (to_str a.["deletionDate"]) (to_str b.["deletionDate"]).

Definition parseSends `{DateOrder} (raw : jsval) : list jsval :=
  sort_by compareSends (map send_row (List.filter is_object (parseJsonArray raw))).

(** ** Labels *)

Definition plural (n : num) (one many : jstr) : jstr :=
  u "in " ++ num_str n ++ (if num_eqb n (numz 1) then one else many).

Definition per (n : num) (size : Z) : num := num_floor (num_div n (numz size)).

(** [clock] is [Date.now()], read when no time is given. *)
Definition sendExpiryLabel (other_dates : jstr -> num) (clock : num) (send : jsval) (now : num) : jstr :=
  if negb (truthy send) || negb (truthy send.["deletionDate"]) then []
  else
    let target := date_parse other_dates (to_str send.["deletionDate"]) in
    if is_nan target then []
    else
      let ms := num_sub target (if num_truthy now then now else clock) in
      if num_leb ms (numz 0) then u "expired"
      else
        let mins := per ms 60000 in
        if num_ltb mins (numz 60) then plural mins (u " minute") (u " minutes")
        else
          let hours := per mins 60 in
          if num_ltb hours (numz 24) then plural hours (u " hour") (u " hours")
          else plural (per hours 24) (u " day") (u " days").

Definition sendAccessLabel (send : jsval) : jstr :=
  if negb (truthy send) then []
  else match send.["maxAccessCount"] with
       | JNull => to_str send.["accessCount"] ++ u " views"
       | max => to_str send.["accessCount"] ++ u " of " ++ to_str max ++ u " views"
       end.

Definition plainLabel (value : jsval) : jstr := shown value.

Definition clip_limit (max : jsval) : num := num_max (numz 1) (num_floor (num_or_zero (to_num max))).

Definition clipLabel (value max : jsval) : jstr :=
  let text := shown value in
  let limit := clip_limit max in
  if num_leb (numn (length text)) limit then text
  else
    let n := match limit with Fin q => Z.to_nat (Qfloor q) | _ => 0 end in
    if n <=? 3 then take n text else take (n - 3) text ++ u "...".

(** ** The vault's host *)

Definition VAULT_HOST_TIMEOUT_MS : Z := 3000.
Definition vaultHostTimeoutMs : Z := VAULT_HOST_TIMEOUT_MS.

Inductive host_decision := shared | private | wait_for_host.

Definition vaultHostDecision (found elapsedMs timeoutMs : jsval) : host_decision :=
  if truthy found then shared
  else
    let limit := to_num timeoutMs in
    let limit := if num_leb (numz 0) limit then limit else numz VAULT_HOST_TIMEOUT_MS in
    if num_leb limit (to_num elapsedMs) then private else wait_for_host.

Definition VAULT_HAND_OVER_POLL_MS : Z := 1000.
Definition vaultHandOverPollMs : Z := VAULT_HAND_OVER_POLL_MS.

Inductive hand_over := hand_none | hand_wait | hand_lock | hand_adopt.

Definition vaultHandOverStep (found state : jsval) : hand_over :=
  if negb (truthy found) then hand_none
  else
    let s := jor state (JObj []) in
    if is_true s.["busy"] then hand_wait
    else if is_true s.["held"] then hand_lock
    else if is_true s.["locking"] then hand_wait
    else hand_adopt.

Fixpoint index_where {A} (p : A -> bool) (l : list A) : option nat :=
  match l with
  | [] => None
  | x :: t => if p x then Some 0 else S <$> index_where p t
  end.

Definition presenterIndex (views focusedScreen : jsval) : Z :=
  let list_ := match views with JArr l => l | _ => [] end in
  match list_ with
  | [] => -1
  | _ =>
    match index_where (fun v => truthy v && is_true v.["opened"]) list_ with
    | Some i => Z.of_nat i
    | None =>
      let focused := text_or_empty focusedScreen in
      if str_eqb focused [] then 0
      else match index_where (fun v => truthy v && str_eqb (text_or_empty v.["screen"]) focused) list_ with
           | Some j => Z.of_nat j
           | None => 0
           end
    end
  end.

(** ** Specifications *)

(** The moment [q] days after [now], on the Date's grid. *)
Definition after_days (now : Z) (q : Q) : Z := (now + Qfloor (q * inject_Z MS_PER_DAY))%Z.

(** ** Lemmas *)

Lemma quot_floor q : (0 <= q)%Q -> Z.quot (Qnum q) (Zpos (Qden q)) = Qfloor q.
Proof.
  intros H. unfold Qfloor. destruct q as [n d]. cbn [Qnum Qden]. apply Z.quot_div_nonneg; [|lia].
  unfold Qle in H. cbn [Qnum Qden] in H. lia.
Qed.

(** The days are between 1 and 31, whatever is asked for. *)
Lemma send_days_bounds v : exists q, send_days v = Fin q /\ (1 <= q <= 31)%Q.
Proof.
  unfold send_days. remember (if num_truthy (to_num v) then to_num v else numz 7) as n eqn:Hn.
  assert (is_nan n = false) as Hnan. { rewrite Hn. destruct (to_num v) as [|b|q]; try reflexivity. destruct (num_truthy (Fin q)); reflexivity. }
  clear Hn. destruct n as [|[]|q]; [done| | |].
  - exists 1%Q. split; [reflexivity|]. split; apply Qle_bool_iff; reflexivity.
  - exists 31%Q. split; [reflexivity|]. split; apply Qle_bool_iff; reflexivity.
  - assert (num_min (numz 31) (Fin q) = if Qle_bool 31 q then Fin 31 else Fin q) as -> by reflexivity. destruct (Qle_bool 31 q) eqn:E1.
    + exists 31%Q. split; [reflexivity|]. split; apply Qle_bool_iff; reflexivity.
    + assert (q <= 31)%Q as Hq. { apply Qnot_lt_le. intros H. apply Qlt_le_weak, Qle_bool_iff in H. by rewrite H in E1. }
      assert (num_max (numz 1) (Fin q) = if Qle_bool 1 q then Fin q else Fin 1) as -> by reflexivity. destruct (Qle_bool 1 q) eqn:E2.
      * exists q. apply Qle_bool_iff in E2. done.
      * exists 1%Q. split; [reflexivity|]. split; apply Qle_bool_iff; reflexivity.
Qed.

Lemma send_days_whole d : (1 <= d <= 31)%Z -> send_days (jz d) = numz d.
Proof.
  intros Hd. unfold send_days, jz, to_num. rewrite num_truthy_int. destruct (Z.eqb_spec d 0); [lia|]. cbn [negb].
  rewrite num_min_int, num_max_int. f_equal. lia.
Qed.

Lemma Qfloor_add z q : Qfloor (inject_Z z + q) = (z + Qfloor q)%Z.
Proof.
  unfold Qfloor, inject_Z, Qplus. destruct q as [n d]. cbn [Qnum Qden]. rewrite Z.mul_1_r, Pos.mul_1_l, Z.add_comm.
  rewrite Z.div_add by done. lia.
Qed.

Lemma to_iso_after now q : (0 <= now <= 240000000000000)%Z -> (1 <= q <= 31)%Q ->
  to_iso (num_add (numz now) (num_mul (num_mul (num_mul (num_mul (Fin q) (numz 24)) (numz 60)) (numz 60)) (numz 1000)))
  = Some (toISOString (after_days now q)) /\ (now + MS_PER_DAY <= after_days now q <= now + 31 * MS_PER_DAY)%Z.
Proof.
  intros Hn [H1 H2].
  assert (now + MS_PER_DAY <= after_days now q <= now + 31 * MS_PER_DAY)%Z as Hb.
  { unfold after_days. assert (MS_PER_DAY <= Qfloor (q * inject_Z MS_PER_DAY) <= 31 * MS_PER_DAY)%Z; [|lia]. split.
    - rewrite <- (Qfloor_Z MS_PER_DAY) at 1. apply Qfloor_resp_le. rewrite <- (Qmult_1_l (inject_Z MS_PER_DAY)) at 1.
      apply Qmult_le_compat_r; [done|]. by unfold Qle.
    - rewrite <- (Qfloor_Z (31 * MS_PER_DAY)). apply Qfloor_resp_le. rewrite inject_Z_mult. apply Qmult_le_compat_r; [done|]. by unfold Qle. }
  split; [|done]. unfold num_mul, num_add, numz, to_iso.
  assert (Qred (inject_Z now + Qred (Qred (Qred (Qred (q * inject_Z 24) * inject_Z 60) * inject_Z 60) * inject_Z 1000))
    == inject_Z now + q * inject_Z MS_PER_DAY)%Q as E.
  { rewrite !Qred_correct. rewrite <- !Qmult_assoc. rewrite <- !inject_Z_mult. done. }
  set (v := Qred _) in *. assert (0 <= v)%Q as Hv.
  { rewrite E. apply Qle_trans with (inject_Z 0 + 0)%Q; [done|]. apply Qplus_le_compat; [rewrite <- Zle_Qle; lia|].
    apply Qmult_le_0_compat; [|done]. eapply Qle_trans; [|exact H1]. done. }
  rewrite (quot_floor v Hv). assert (Qfloor v = after_days now q) as ->.
  { rewrite (Qfloor_comp _ _ E). apply Qfloor_add. }
  assert (Z.abs (after_days now q) <=? MAX_TIME = true)%Z as ->; [|done]. apply Z.leb_le. unfold MS_PER_DAY, MAX_TIME in *. lia.
Qed.

Lemma after_whole now d : after_days now (inject_Z d) = (now + d * MS_PER_DAY)%Z.
Proof. unfold after_days. by rewrite <- inject_Z_mult, Qfloor_Z. Qed.

(** The label counts whole days, hours and minutes down. *)
Lemma label_of other clock ms now : (0 <= ms <= 240500000000000)%Z -> (0 < now)%Z ->
  sendExpiryLabel other clock (obj [("deletionDate", JStr (toISOString ms))]%string) (numz now) =
  if (ms <=? now)%Z then u "expired"
  else let mins := ((ms - now) / 60000)%Z in
    if (mins <? 60)%Z then plural (numz mins) (u " minute") (u " minutes")
    else if (mins / 60 <? 24)%Z then plural (numz (mins / 60)) (u " hour") (u " hours")
    else plural (numz (mins / 60 / 24)) (u " day") (u " days").
Proof.
  intros Hms Hn. unfold sendExpiryLabel, obj. jfields. cbn [truthy]. cbn [negb orb to_str].
  assert (str_eqb (toISOString ms) [] = false) as Hne.
  { apply str_eqb_neq. intros E. pose proof (iso_time_of ms Hms) as H. rewrite E in H.
    unfold iso_time in H. case_match eqn:Hc; [|done]. apply str_eqb_eq in Hc. injection H as H. rewrite H in Hc. clear - Hc.
    unfold toISOString in Hc. destruct (civil_of_days _) as [[y m] d]. apply (f_equal length) in Hc. rewrite !length_app in Hc.
    assert (length (u "Z") = 1) as Hz by (vm_compute; reflexivity). change (length (@nil N)) with 0 in Hc. lia. }
  assert (match toISOString ms with [] => false | _ :: _ => true end = true) as -> by (by destruct (toISOString ms)). cbn [negb].
  unfold date_parse. rewrite iso_time_of by done. cbn [is_nan numz].
  assert (num_truthy (numz now) = true) as -> by (rewrite num_truthy_int; destruct (Z.eqb_spec now 0); [lia|done]).
  rewrite num_sub_int, num_leb_int. assert ((ms - now <=? 0)%Z = (ms <=? now)%Z) as -> by (destruct (Z.leb_spec ms now), (Z.leb_spec (ms - now) 0); lia || done).
  change (is_nan (numz ms)) with false. cbv iota.
  destruct (ms <=? now)%Z; [done|]. unfold per; rewrite !num_floor_div, !num_ltb_int by lia. done.
Qed.

Lemma payload_deletion now name text hidden days maxAccessCount password notes iso :
  to_iso (num_add (numz now) (num_mul (num_mul (num_mul (num_mul (send_days days) (numz 24)) (numz 60)) (numz 60)) (numz 1000))) = Some iso ->
  exists payload, buildSendPayload now name text hidden days maxAccessCount password notes = Some payload
    /\ payload.["deletionDate"] = JStr iso.
Proof. intros H. unfold buildSendPayload. rewrite H. eexists. split; [reflexivity|]. unfold obj. by jfields. Qed.

(** ** Properties *)

(** A Send cannot be made to outlive its bounds: whatever is typed for the
    days, the payload of a new Send is deleted between 1 and 31 days from now,
    and when whole days are asked for, its label counts exactly those down from
    "in N days" to "expired". *)
Theorem send_lifetime now name text hidden days maxAccessCount password notes (Hnow : (0 < now <= 240000000000000)%Z) :
  exists payload ms,
    buildSendPayload now name text hidden days maxAccessCount password notes = Some payload
    /\ payload.["deletionDate"] = JStr (toISOString ms)
    /\ (now + MS_PER_DAY <= ms <= now + 31 * MS_PER_DAY)%Z
    /\ forall other clock, let label t := sendExpiryLabel other clock (obj [("deletionDate", payload.["deletionDate"])]%string) (numz t) in
       (forall t, (ms <= t)%Z -> label t = u "expired")
       /\ (forall d, (1 <= d <= 31)%Z -> days = jz d -> ms = (now + d * MS_PER_DAY)%Z /\ label now = plural (numz d) (u " day") (u " days")).
Proof.
  destruct (send_days_bounds days) as (q & Hq & Hb). destruct (to_iso_after now q ltac:(lia) Hb) as [Hiso Hms].
  rewrite <- Hq in Hiso. destruct (payload_deletion now name text hidden days maxAccessCount password notes _ Hiso) as (payload & Hp & Hd).
  exists payload, (after_days now q). split; [done|]. split; [done|]. split; [done|]. intros other clock. cbn zeta. rewrite Hd.
  unfold MS_PER_DAY in Hms. split.
  - intros t Ht. rewrite label_of by lia. by apply Z.leb_le in Ht as ->.
  - intros d Hd' ->. assert (q = inject_Z d) as ->. { rewrite send_days_whole in Hq by done. by injection Hq. }
    rewrite after_whole in *. split; [done|]. rewrite label_of by (unfold MS_PER_DAY in *; lia). unfold MS_PER_DAY in *.
    assert ((now + d * 86400000 <=? now)%Z = false) as -> by (apply Z.leb_gt; lia).
    assert (((now + d * 86400000 - now) / 60000)%Z = (d * 1440)%Z) as ->.
    { replace (now + d * 86400000 - now)%Z with (d * 1440 * 60000)%Z by lia. by rewrite Z.div_mul. }
    assert ((d * 1440 / 60)%Z = (d * 24)%Z) as ->. { replace (d * 1440)%Z with (d * 24 * 60)%Z by lia. by rewrite Z.div_mul. }
    cbn zeta. assert ((d * 1440 <? 60)%Z = false) as -> by (apply Z.ltb_ge; lia). assert ((d * 24 <? 24)%Z = false) as -> by (apply Z.ltb_ge; lia).
    by rewrite Z.div_mul.
Qed.

Lemma send_lifetime_witness :
  sendExpiryLabel (fun _ => NaN) NaN (obj [("deletionDate", JStr (toISOString (1700000000000 + 3 * 86400000)))]%string) (numz 1700000000000) = u "in 3 days".
Proof.
  destruct (send_lifetime 1700000000000 JUndef JUndef JUndef (jz 3) JUndef JUndef JUndef ltac:(split; [reflexivity|discriminate]))
    as (payload & ms & _ & Hd & _ & H). destruct (H (fun _ => NaN) NaN) as [_ G]. cbv zeta in G.
  destruct (G 3%Z ltac:(split; discriminate) eq_refl) as [Hms Hl]. rewrite Hd, Hms in Hl. unfold MS_PER_DAY in Hl. rewrite Hl. vm_compute. reflexivity.
Defined.

(** A clipped label fits, and is the text's start. *)
Lemma clipLabel_fits value max k : clip_limit max = numz k ->
  (length (clipLabel value max) <= Z.to_nat k)%nat /\ exists n, clipLabel value max = shown value \/ clipLabel value max = take n (shown value)
    \/ clipLabel value max = take n (shown value) ++ u "...".
Proof.
  intros Hk. unfold clipLabel. rewrite Hk. unfold numn. rewrite num_leb_int.
  destruct (Z.leb_spec (Z.of_nat (length (shown value))) k) as [H|H]; [split; [lia|by exists 0; left]|].
  unfold numz. rewrite Qfloor_Z. destruct (Nat.leb_spec (Z.to_nat k) 3) as [H3|H3].
  - split; [rewrite length_take; lia|]. eauto.
  - split; [|eauto]. rewrite length_app, length_take. assert (length (u "...") = 3) as -> by (vm_compute; reflexivity). lia.
Qed.
